(* ===== verification/_CoqProject ===== *)
-Q . S2P
Prelude.v
Bytes.v
Effects.v
Der.v
Z256.v
Primality.v
Fp.v
FieldRep.v
Fp2.v
Fp4.v
Fp12.v
Curve.v
Jacobian.v
G1.v
G2.v
Sm9Hash.v
Frobenius.v
FinalExp.v
Lines.v
Pairing.v
PairingMirror.v
Sm4.v
Sm3.v
Kdf.v
Sm9Key.v
Sm9Sign.v
Sm9Encrypt.v
Sm9Exchange.v
Sm9Rotation.v
Sm2.v
Sm2Kex.v
X509.v
Sm2Pem.v
X509Chain.v
X509Crl.v
X509Csr.v
Tlcp.v
TlcpKeys.v
TlcpMessages.v
TlcpKeyExchange.v
TlcpSession.v
TlcpHandshake.v
TlcpAuth.v
TlcpRecord.v
TlcpChannel.v
TlcpPoll.v
TlcpPeer.v
TlcpConnector.v
TlcpAcceptor.v
TlcpInterop.v
TlsKeys.v
TlsTickets.v
TlsRecord.v
TlsChannel.v
TlsPoll.v
