(* ===== verification/Prelude.v ===== *)
(** * A verification library for the GM workspace

    The workspace implements the Chinese commercial cryptography suite and two
    protocol stacks over it. Its parts, and how they use each other:

    - [gm-der]: DER length, tag and value primitives, used by every encoder and
      parser below;
    - [gm-sm9-rs]: SM9 identity-based cryptography: 256-bit integers, the prime
      field and its tower of extensions, the two curves, the hash functions and
      the R-ate pairing, then the schemes over them;
    - [gm-crypto]: SM4 modes, SM3 and HMAC, SM2, X.509 verification, over crates
      for the block cipher, the hash function and the curve;
    - [gm-tlcp]: the TLCP protocol (GB/T 38636): messages, key schedule,
      handshake contexts, session cache, record layer and async stream;
    - [gm-tls]: a TLS 1.3 stack with SM2/SM3/SM4: key schedule, record layer with
      key updates, async stream, sessions;
    - [gm-ca], [gm-http-client]: a certificate authority and an HTTP client.

    ** Conventions

    Rust values are modelled as they are stored. A [w]-bit integer is a [Z] with
    its wrap-around written out ([as_u8], [as_u16], ... in this file); a byte
    string is a [list Z] ([bytes], [wf_bytes] for its range); a struct is a
    [Record], an enum an [Inductive] with the same constructors. A fallible
    function returns an [outcome]: [Ok], [Err] with the error of the code, text
    included, or [Panic] where Rust would stop (index or slice out of range,
    arithmetic overflow of a checked build, [unwrap] of [None]). Code that
    mutates [self] is in the state and error monad [M] of Effects.v, which keeps
    the state an early return leaves behind. Loops that do not recurse on data
    take fuel; the theorems show that the fuel the definitions pass is enough, or
    state how much is (see below). Random values, clocks and transports are
    arguments.

    Third-party crates are arguments too: type classes of operations
    ([Sm4Crates], [Sm3Crate], [Sm2Crate], [Sm2Group], [Pkcs8Crate], [RsaCrate],
    [X509Parser]) with, in a second class, the laws the code relies on ([Sm4Laws],
    ...), which state the documented behaviour of those crates. Each has a concrete instance, with which the
    theorems are applied to concrete inputs in the lemmas ending in [_witness].

    ** Files

    Prelude.v (this file): outcomes and their notations, machine integers, byte
    slices, decimal and hexadecimal text, tactics and hint databases.
    Bytes.v: XOR, chunks, big-endian encodings, record nonces.
    Effects.v: the monad [M], transports with their laws, polling transports
    that follow a schedule.

    Der.v (gm-der/src/encode.rs, decode.rs, error.rs): encoders and parsers; no
    parser panics on any input, and what the encoders write is read back.

    Z256.v (arith/z256.rs), Primality.v, Fp.v (arith/fp.rs), FieldRep.v, Fp2.v,
    Fp4.v, Fp12.v (the same names under arith/): every operation on limbs is
    related to integers, residues and the ring [Fp[w]/(w^12 + 2)]. The modulus is
    proved prime by a Pocklington certificate. FieldRep is the interface one
    level of the tower promises to the next.

    Curve.v, Jacobian.v, G1.v, G2.v (pairing/curve/*.rs, params.rs): Jacobian
    addition, doubling, negation and scalar multiplication follow the
    chord-and-tangent law on affine points.
    Sm9Hash.v (pairing/hash.rs): the Barrett reduction of H1 and H2.
    Frobenius.v, FinalExp.v, Lines.v, Pairing.v (pairing/ate.rs): the final
    exponentiation is a power, the Miller loop follows the affine reference up to
    a factor it removes, so the pairing is the R-ate pairing of the reference.
    PairingMirror.v: negating both arguments leaves the pairing as it is, and
    canonical elements of the target group are determined by their value.
    Sm9Key.v, Sm9Sign.v, Sm9Encrypt.v, Sm9Exchange.v, Sm9Rotation.v (key/mod.rs,
    sign.rs, encrypt.rs, key_exchange.rs, key_rotation.rs): the schemes over them.
    Kdf.v holds the counter-mode key derivation that these, SM2 and TLCP write out
    again, once for all of them.

    Sm4.v, Sm3.v (gm-crypto/src/sm4.rs, sm3.rs): block modes, GCM against NIST SP
    800-38D, HMAC against RFC 2104.
    Sm2.v (gm-crypto/src/sm2.rs): signatures, encryption in its three formats,
    key derivation, Diffie-Hellman and the DER forms, over the operations of the
    crate sm2. Sm2Pem.v: its key files. Sm2Kex.v (sm2_kex.rs): the three-pass key
    exchange as a state machine over its messages.
    X509.v, X509Chain.v, X509Crl.v, X509Csr.v (gm-crypto/src/x509/verify.rs,
    mod.rs): what a certificate is accepted for, chains to a trust anchor,
    revocation, and certification requests. A parsed certificate is the record of
    what the accessors of x509-parser return; the audit callback is a log.

    Tlcp.v, TlcpKeys.v, TlcpMessages.v, TlcpKeyExchange.v (gm-tlcp error,
    constants, alerts, suites, PRF and key block, handshake messages): messages
    round trip, derived keys have the layout of the suite.
    TlcpSession.v, TlcpHandshake.v (tlcp/session.rs, tlcp/handshake/*.rs): the
    bounded session cache, client and server contexts with their invariants, and
    both sides of a handshake composed.
    TlcpRecord.v, TlcpPoll.v, TlcpChannel.v (tlcp/mod.rs): the record layer and
    its async and polling interfaces; a handshake followed by a stream is a
    channel that delivers what was written and accepts nothing else.
    TlcpAuth.v (tlcp/pms.rs, cv_helper.rs, rsa_helpers.rs, sm9_helpers.rs,
    crypto/verify.rs): the ECDHE pre-master secret and the handshake's signatures.
    TlcpPeer.v, TlcpConnector.v, TlcpAcceptor.v (tlcp/mod.rs, TlcpConnector and
    TlcpAcceptor): the two handshakes over a transport, step by step as
    [connect_with_certs] and [accept_with_certs] take them, for the five key
    exchanges and both settings of the feature tlcp-gmssl-compat. The state of a
    peer is its transport, its handshake context, the audit log and the generator.
    TlcpInterop.v: the two against each other.

    TlsKeys.v, TlsRecord.v, TlsChannel.v, TlsPoll.v (gm-tls error, kdf,
    key_update, record_layer): HKDF and the traffic secrets, the record layer with
    KeyUpdates, two ends as a transition system that stays in step, and the
    resumable polling reader.
    TlsTickets.v (gm-tls session_ticket, session_store, serialization): tickets
    against the interface [SessionStore], its laws, and the stores that have them.

    ** Theorems

    The theorems marked C1, C2, ... in their comments are the properties the
    library stands for, in order of importance. With the other main theorems they
    form these groups:
    - arithmetic is exact: [mod_reduce_512_correct], [mont_mul_correct],
      [fp_implements_field], [fp12_evaluation], [fp12_inverse],
      [fp12_frobenius_powers], [g1_group_law], [g2_group_law], [g1_scalar_mul],
      [g2_scalar_mul], [sm9_hashes_correct];
    - algorithms compute their specification: [pairing_correct],
      [final_exponentiation_correct], [sm4_gcm_correct],
      [key_derivation_correct], [tls_key_schedule_correct];
    - encodings round trip and parsers are total: [der_tlv_roundtrip],
      [der_parsers_safe], [tlcp_hellos_exact], [tlcp_certificates_roundtrip],
      [tlcp_key_exchange_roundtrip], [sm4_block_modes_roundtrip],
      [sm4_cbc_decrypt_exact], [signature_codecs], [ciphertext_codecs],
      [private_keys_survive_pem];
    - state machines keep their invariants: [client_context_invariant],
      [session_cache_correct], [next_nonce_unique], [tls_ends_in_step],
      [kex_completes_checked], [rotation_correct];
    - a completed handshake has checked its peer: [connect_authenticates],
      [accept_authenticates], [handshake_signatures]; and two honest ends complete:
      [rsa_handshake_interoperates];
    - the SM9 and SM2 schemes and key exchanges: [user_keys_extracted],
      [signatures_checked], [sm9_encryption_correct], [exchange_agreement],
      [kex_agreement], [ecdhe_pms_agreement];
    - the composed channels deliver, and accept only what was protected:
      [handshake_completes], [secure_channel], [context_channel],
      [record_stream_roundtrip], [read_accepts_only_protected],
      [tls_read_accepts_only_protected], [poll_stream_roundtrip],
      [tls_poll_read_resumes];
    - what is accepted is described exactly: [chain_verification_exact],
      [hostname_validation_exact], [uri_validation_exact], [spiffe_parse_exact],
      [permissive_policy_exact], [strict_revocation], [tickets_exact],
      [tickets_accepted_once] (connections interleaved in any order);
    - signatures and ciphertexts are inverted: [sm2_encryption_roundtrip],
      [sm2_signatures_roundtrip], [csr_verifies];
    - limits and faults of the code, stated as theorems about what it does:
      [poll_interrupted_desync], [oversized_write_unreadable],
      [resumption_never_completes], [tls_poll_write_record],
      [tls_close_notify],
      [end_entity_issued], [revoked_lookup_exact], [crl_parts_located],
      [tbs_extraction], [in_memory_window], [rotation_keeps_primary],
      [postgres_accepts_no_ticket], [ibc_signature_ignored],
      [certificate_verify_optional], [compat_static_ecc_fails],
      [kgc_bytes_roundtrip], [wire_points_and_rsa], [identity_hash_bounds].

    ** Bounds and fuel

    The correction and division loops of Z256.v and Sm9Hash.v run on a binary fuel
    of 2^64 steps for a quotient digit and 2^256 for a subtraction loop, more than
    their measures, and are proved to return. [prf_fuel] is 513, one more than the
    blocks of the 16 KiB the PRF allows; [hkdf_fuel] is 256, one
    more than the largest block counter of a byte. [read_application_data] takes
    one unit of fuel per record, and returns within one unit per 21 bytes of
    input, the shortest record. The loops that fill a header, a body or a write
    take the number of bytes they have to move, as each turn moves one at least;
    polling is iterated as often as the schedule of the transport says it is not
    ready, plus the bytes in flight. [kdf_sm3] takes one unit of fuel per block of
    32 bytes and one more, and returns for every length up to 2^36, as [kdf_run]
    does. The retries of SM9 are bounded by the code; [random_scalar] recurses on
    the list of draws and fails when it is used up. The walk over a
    chain recurses on it, and the scan for a CRL's signature on the bytes left.

    ** Not modelled

    Bilinearity of the pairing is not proved, only [e(-P, -Q) = e(P, Q)]: the
    theorems on the SM9 schemes take the equalities of group elements it would give
    as hypotheses, and the key exchange is evaluated in a system where that one
    instance is enough. The handshake of
    gm-tls over sockets (gm.rs, handshake.rs), the certificate authority and the
    HTTP client interleave I/O, databases and other crates; the keys, records,
    tickets and certificate checks they drive are modelled. The interoperation of
    the two TLCP ends is proved for the RSA suites; for static ECC it is evaluated
    on an example ([samples_talk]). The set-up of database connections, FFI
    bindings, metrics, known-answer tests, zeroisation of secrets and the examples
    are left out.
*)

From Stdlib Require Import ZArith List Lia Bool String Ascii.
From Stdlib Require Import DecimalString.
Import ListNotations.

Declare Scope rust_scope.
Delimit Scope rust_scope with rust.
Open Scope Z_scope.

(** ** Machine integers

    A [w]-bit unsigned integer is a [Z] in [0, 2^w); [as_u8] and friends are
    Rust's truncating [as] casts. [usize] is 64 bits wide. *)

Definition as_u8 (x : Z) : Z := x mod 2 ^ 8.
Definition as_u16 (x : Z) : Z := x mod 2 ^ 16.
Definition as_u32 (x : Z) : Z := x mod 2 ^ 32.
Definition as_u64 (x : Z) : Z := x mod 2 ^ 64.

Definition u64_max : Z := 2 ^ 64 - 1.

(** [u64::overflowing_add] / [overflowing_sub]: wrapped result and flag. *)
Definition overflowing_add (a b : Z) : Z * bool :=
  (as_u64 (a + b), 2 ^ 64 <=? a + b).
Definition overflowing_sub (a b : Z) : Z * bool :=
  (as_u64 (a - b), a <? b).

(** ** Byte strings *)

Abbreviation bytes := (list Z).

Definition is_byte (b : Z) : bool := (0 <=? b) && (b <? 256).
Definition wf_bytes (l : bytes) : bool := forallb is_byte l.

Definition len {A : Type} (l : list A) : Z := Z.of_nat (List.length l).

(** [to_be_bytes] of an [n]-byte integer and its inverse. *)
Fixpoint be_bytes (n : nat) (x : Z) : bytes :=
  match n with
  | O => []
  | S m => as_u8 (Z.shiftr x (8 * Z.of_nat m)) :: be_bytes m x
  end.

Fixpoint from_be_acc (acc : Z) (l : bytes) : Z :=
  match l with
  | [] => acc
  | b :: t => from_be_acc (acc * 256 + b) t
  end.
Definition from_be (l : bytes) : Z := from_be_acc 0 l.

(** ** Outcomes

    Fallible Rust code returns [Ok], returns [Err], or panics (an index or a
    slice out of range). *)

Inductive outcome (E A : Type) : Type :=
| Ok (a : A)
| Err (e : E)
| Panic.
Arguments Ok {E A} a.
Arguments Err {E A} e.
Arguments Panic {E A}.

Definition bind {E A B : Type} (o : outcome E A) (k : A -> outcome E B) : outcome E B :=
  match o with
  | Ok a => k a
  | Err e => Err e
  | Panic => Panic
  end.

Definition map_err {E F A : Type} (f : E -> F) (o : outcome E A) : outcome F A :=
  match o with
  | Ok a => Ok a
  | Err e => Err (f e)
  | Panic => Panic
  end.

Notation "x <- c ;; k" := (bind c (fun x => k))
  (at level 100, c at next level, right associativity) : rust_scope.
Notation "' p <- c ;; k" := (bind c (fun x => match x with p => k end))
  (at level 100, p pattern, c at next level, right associativity) : rust_scope.
Open Scope rust_scope.

(** [guard b e k]: [if b { return Err(e) }] followed by [k]. *)
Definition guard {E A : Type} (b : bool) (e : E) (k : outcome E A) : outcome E A :=
  if b then Err e else k.

Definition no_panic {E A : Type} (o : outcome E A) : Prop := o <> Panic.

(** ** Indexing and slicing, which panic out of range *)

Definition index {E A : Type} (l : list A) (i : Z) : outcome E A :=
  if i <? 0 then Panic
  else match nth_error l (Z.to_nat i) with
       | Some x => Ok x
       | None => Panic
       end.

Definition slice_from {E A : Type} (l : list A) (i : Z) : outcome E (list A) :=
  if (0 <=? i) && (i <=? len l) then Ok (skipn (Z.to_nat i) l) else Panic.

Definition slice_to {E A : Type} (l : list A) (i : Z) : outcome E (list A) :=
  if (0 <=? i) && (i <=? len l) then Ok (firstn (Z.to_nat i) l) else Panic.

Definition slice {E A : Type} (l : list A) (i j : Z) : outcome E (list A) :=
  if (0 <=? i) && (i <=? j) && (j <=? len l)
  then Ok (firstn (Z.to_nat (j - i)) (skipn (Z.to_nat i) l)) else Panic.

(** ** Formatting used by error messages *)

Definition dec (x : Z) : string := NilZero.string_of_uint (N.to_uint (Z.to_N x)).

Definition hex_digit (d : Z) : ascii :=
  if d <? 10 then ascii_of_N (Z.to_N (48 + d)) else ascii_of_N (Z.to_N (55 + d)).

(** [{:02X}] of a byte. *)
Definition hex02 (b : Z) : string :=
  String (hex_digit (Z.shiftr b 4)) (String (hex_digit (Z.land b 15)) EmptyString).

Notation "a +++ b" := (String.append a b) (at level 60, right associativity) : rust_scope.

(** ** Loops: [for i in 0..n] over a state *)

Definition for_range {S : Type} (n : nat) (f : nat -> S -> S) (s : S) : S :=
  fold_left (fun s i => f i s) (seq 0 n) s.

(** ** Tactics *)

Ltac destr_and :=
  repeat match goal with
         | H : _ /\ _ |- _ => destruct H
         | H : (_ && _)%bool = true |- _ => apply andb_true_iff in H
         end.

Ltac bool_to_prop :=
  repeat match goal with
         | H : (_ && _)%bool = true |- _ => apply andb_true_iff in H; destruct H
         | H : (_ || _)%bool = false |- _ => apply orb_false_iff in H; destruct H
         | H : negb _ = true |- _ => apply negb_true_iff in H
         | H : negb _ = false |- _ => apply negb_false_iff in H
         | H : (_ <? _) = true |- _ => apply Z.ltb_lt in H
         | H : (_ <? _) = false |- _ => apply Z.ltb_ge in H
         | H : (_ <=? _) = true |- _ => apply Z.leb_le in H
         | H : (_ <=? _) = false |- _ => apply Z.leb_gt in H
         | H : (_ =? _) = true |- _ => apply Z.eqb_eq in H
         | H : (_ =? _) = false |- _ => apply Z.eqb_neq in H
         end.

(** Case on the innermost boolean comparison of the goal. *)
Ltac case_cmp :=
  match goal with
  | |- context [?a <? ?b] => destruct (Z.ltb_spec a b)
  | |- context [?a <=? ?b] => destruct (Z.leb_spec a b)
  | |- context [?a =? ?b] => destruct (Z.eqb_spec a b)
  end.

Create Rewrite HintDb rust.
Create HintDb wf discriminated.

(** ** Generic lemmas *)

Lemma len_nonneg {A} (l : list A) : 0 <= len l.
Proof. unfold len; lia. Qed.

Lemma len_nil {A} : len (@nil A) = 0.
Proof. reflexivity. Qed.

Lemma len_cons {A} (x : A) l : len (x :: l) = 1 + len l.
Proof. unfold len; cbn [List.length]; lia. Qed.

Lemma len_app {A} (l1 l2 : list A) : len (l1 ++ l2) = len l1 + len l2.
Proof. unfold len; rewrite length_app; lia. Qed.

#[export] Hint Rewrite @len_nil @len_cons @len_app : rust.

Ltac len_simpl := autorewrite with rust in *.

(** Arithmetic on lengths. *)
Ltac len_lia :=
  autorewrite with rust in *;
  repeat match goal with
         | |- context [len ?l] => lazymatch goal with
                                  | _ : 0 <= len l |- _ => fail
                                  | _ => pose proof (len_nonneg l)
                                  end
         | _ : context [len ?l] |- _ => lazymatch goal with
                                  | _ : 0 <= len l |- _ => fail
                                  | _ => pose proof (len_nonneg l)
                                  end
         end; lia.

Lemma to_nat_len {A} (l : list A) : Z.to_nat (len l) = List.length l.
Proof. unfold len; lia. Qed.

Lemma index_app {E A} (l1 : list A) x l2 i :
  i = len l1 -> index (E:=E) (l1 ++ x :: l2) i = Ok x.
Proof.
  intros ->. unfold index. pose proof (len_nonneg l1).
  destruct (Z.ltb_spec (len l1) 0); [lia|].
  rewrite to_nat_len, nth_error_app2, Nat.sub_diag by lia. reflexivity.
Qed.

Lemma index_in {E A} (l : list A) i :
  0 <= i < len l -> exists x, index (E:=E) l i = Ok x /\ In x l.
Proof.
  unfold index, len; intros H.
  destruct (Z.ltb_spec i 0); [lia|].
  destruct (nth_error l (Z.to_nat i)) eqn:N.
  - exists a; split; [reflexivity | eapply nth_error_In; eauto].
  - apply nth_error_None in N; lia.
Qed.

Lemma slice_from_app {E A} (l1 l2 : list A) i :
  i = len l1 -> slice_from (E:=E) (l1 ++ l2) i = Ok l2.
Proof.
  intros ->. unfold slice_from. pose proof (len_nonneg l1); pose proof (len_nonneg l2).
  rewrite len_app.
  destruct (Z.leb_spec 0 (len l1)), (Z.leb_spec (len l1) (len l1 + len l2)); try lia.
  cbn [andb]. rewrite to_nat_len, skipn_app, skipn_all, Nat.sub_diag. reflexivity.
Qed.

Lemma slice_to_app {E A} (l1 l2 : list A) i :
  i = len l1 -> slice_to (E:=E) (l1 ++ l2) i = Ok l1.
Proof.
  intros ->. unfold slice_to. pose proof (len_nonneg l1); pose proof (len_nonneg l2).
  rewrite len_app.
  destruct (Z.leb_spec 0 (len l1)), (Z.leb_spec (len l1) (len l1 + len l2)); try lia.
  cbn [andb]. rewrite to_nat_len, firstn_app, firstn_all, Nat.sub_diag, firstn_O, app_nil_r.
  reflexivity.
Qed.

Lemma slice_app {E A} (l1 l2 l3 : list A) i j :
  i = len l1 -> j = len l1 + len l2 ->
  slice (E:=E) (l1 ++ l2 ++ l3) i j = Ok l2.
Proof.
  intros -> ->. unfold slice.
  pose proof (len_nonneg l1); pose proof (len_nonneg l2); pose proof (len_nonneg l3).
  rewrite !len_app.
  destruct (Z.leb_spec 0 (len l1)), (Z.leb_spec (len l1) (len l1 + len l2)),
    (Z.leb_spec (len l1 + len l2) (len l1 + (len l2 + len l3))); try lia.
  cbn [andb]. rewrite to_nat_len, skipn_app, skipn_all, Nat.sub_diag, skipn_O.
  replace (Z.to_nat (len l1 + len l2 - len l1)) with (List.length l2) by (unfold len; lia).
  cbn [app]. rewrite firstn_app, firstn_all, Nat.sub_diag, firstn_O, app_nil_r. reflexivity.
Qed.

(** A slice that does not panic splits its list. *)
Lemma slice_from_ok {E A} (l : list A) i :
  0 <= i <= len l ->
  slice_from (E:=E) l i = Ok (skipn (Z.to_nat i) l).
Proof.
  intros H. unfold slice_from.
  destruct (Z.leb_spec 0 i), (Z.leb_spec i (len l)); try lia. reflexivity.
Qed.

Lemma slice_to_ok {E A} (l : list A) i :
  0 <= i <= len l ->
  slice_to (E:=E) l i = Ok (firstn (Z.to_nat i) l).
Proof.
  intros H. unfold slice_to.
  destruct (Z.leb_spec 0 i), (Z.leb_spec i (len l)); try lia. reflexivity.
Qed.

Lemma slice_ok {E A} (l : list A) i j :
  0 <= i -> i <= j -> j <= len l ->
  slice (E:=E) l i j = Ok (firstn (Z.to_nat (j - i)) (skipn (Z.to_nat i) l)).
Proof.
  intros. unfold slice.
  destruct (Z.leb_spec 0 i), (Z.leb_spec i j), (Z.leb_spec j (len l)); try lia. reflexivity.
Qed.

Lemma len_firstn {A} (l : list A) i : 0 <= i <= len l -> len (firstn (Z.to_nat i) l) = i.
Proof. unfold len; intros. rewrite length_firstn. lia. Qed.

Lemma len_skipn {A} (l : list A) i : 0 <= i <= len l -> len (skipn (Z.to_nat i) l) = len l - i.
Proof. unfold len; intros. rewrite length_skipn. lia. Qed.

(** Or-ing bits below a shifted value is addition. *)
Lemma lor_shiftl_add a b n :
  0 <= n -> 0 <= b < 2 ^ n -> Z.lor (Z.shiftl a n) b = a * 2 ^ n + b.
Proof.
  intros Hn Hb. pose proof (Z.add_lor_land (Z.shiftl a n) b) as S.
  replace (Z.land (Z.shiftl a n) b) with 0 in S; [rewrite Z.shiftl_mul_pow2 in * by lia; lia|].
  symmetry. apply Z.bits_inj'. intros k Hk. rewrite Z.land_spec, Z.bits_0.
  destruct (Z.ltb_spec k n).
  - rewrite Z.shiftl_spec_low by lia. reflexivity.
  - rewrite <- (Z.mod_small b (2 ^ n)), Z.mod_pow2_bits_high by lia. apply andb_false_r.
Qed.

Lemma Forall_firstn {A} (P : A -> Prop) n l : Forall P l -> Forall P (firstn n l).
Proof. intros F. revert n; induction F; destruct n; cbn [firstn]; auto. Qed.

Lemma Forall_skipn {A} (P : A -> Prop) n l : Forall P l -> Forall P (skipn n l).
Proof. intros F. revert n; induction F; destruct n; cbn [skipn]; auto. Qed.

(** *** Bytes *)

Lemma as_u8_range x : 0 <= as_u8 x < 256.
Proof. unfold as_u8. apply Z.mod_pos_bound. lia. Qed.

Lemma as_u8_small x : 0 <= x < 256 -> as_u8 x = x.
Proof. intros. unfold as_u8. apply Z.mod_small. lia. Qed.

Lemma is_byte_iff b : is_byte b = true <-> 0 <= b < 256.
Proof. unfold is_byte. rewrite andb_true_iff, Z.leb_le, Z.ltb_lt. lia. Qed.

Lemma wf_bytes_app l1 l2 : wf_bytes (l1 ++ l2) = wf_bytes l1 && wf_bytes l2.
Proof. apply forallb_app. Qed.

Lemma wf_bytes_firstn n l : wf_bytes l = true -> wf_bytes (firstn n l) = true.
Proof. rewrite <- (firstn_skipn n l) at 1. rewrite wf_bytes_app. now intros [? _]%andb_true_iff. Qed.

Lemma wf_bytes_skipn n l : wf_bytes l = true -> wf_bytes (skipn n l) = true.
Proof. rewrite <- (firstn_skipn n l) at 1. rewrite wf_bytes_app. now intros [_ ?]%andb_true_iff. Qed.

Lemma wf_bytes_cons b l : wf_bytes (b :: l) = is_byte b && wf_bytes l.
Proof. reflexivity. Qed.

Lemma some_inj {A : Type} (x y : A) : Some x = Some y -> x = y.
Proof. intros E. now injection E. Qed.

Lemma length_be_bytes n x : List.length (be_bytes n x) = n.
Proof. induction n; cbn [be_bytes List.length]; auto. Qed.

Lemma len_be_bytes n x : len (be_bytes n x) = Z.of_nat n.
Proof. unfold len. now rewrite length_be_bytes. Qed.
#[export] Hint Rewrite len_be_bytes : rust.

Lemma wf_be_bytes n x : wf_bytes (be_bytes n x) = true.
Proof.
  induction n; cbn [be_bytes]; [reflexivity|].
  rewrite wf_bytes_cons, IHn, andb_true_r. apply is_byte_iff, as_u8_range.
Qed.

Lemma from_be_acc_app acc l1 l2 : from_be_acc acc (l1 ++ l2) = from_be_acc (from_be_acc acc l1) l2.
Proof. revert acc; induction l1; cbn [from_be_acc app]; auto. Qed.

Lemma from_be_acc_shift acc l : from_be_acc acc l = acc * 256 ^ len l + from_be l.
Proof.
  unfold from_be. revert acc; induction l as [|b l IH]; intros acc.
  - cbn [from_be_acc]. rewrite len_nil. lia.
  - cbn [from_be_acc]. rewrite IH, (IH (0 * 256 + b)), len_cons.
    rewrite Z.pow_add_r by (pose proof (len_nonneg l); lia). lia.
Qed.

Lemma from_be_cons b l : from_be (b :: l) = b * 256 ^ len l + from_be l.
Proof. unfold from_be at 1. cbn [from_be_acc]. rewrite from_be_acc_shift. f_equal; lia. Qed.

Lemma from_be_app l1 l2 : from_be (l1 ++ l2) = from_be l1 * 256 ^ len l2 + from_be l2.
Proof. unfold from_be at 1. rewrite from_be_acc_app. apply from_be_acc_shift. Qed.

Lemma from_be_bound l : wf_bytes l = true -> 0 <= from_be l < 256 ^ len l.
Proof.
  induction l as [|b l IH]; intros W; [cbn; lia|].
  rewrite wf_bytes_cons in W. apply andb_true_iff in W as [B W%IH].
  apply is_byte_iff in B. rewrite from_be_cons, len_cons.
  rewrite Z.pow_add_r by (pose proof (len_nonneg l); lia). nia.
Qed.

Lemma from_be_bytes n x : from_be (be_bytes n x) = x mod 256 ^ Z.of_nat n.
Proof.
  induction n.
  - cbn. now rewrite Z.mod_1_r.
  - cbn [be_bytes]. rewrite from_be_cons, len_be_bytes, IHn.
    unfold as_u8. rewrite Z.shiftr_div_pow2 by lia.
    replace (2 ^ (8 * Z.of_nat n)) with (256 ^ Z.of_nat n)
      by (rewrite Z.pow_mul_r by lia; reflexivity).
    replace (Z.of_nat (S n)) with (Z.of_nat n + 1) by lia.
    rewrite Z.pow_add_r by lia. change (256 ^ 1) with 256. change (2 ^ 8) with 256.
    rewrite Z.rem_mul_r by (try apply Z.pow_nonzero; lia). lia.
Qed.

Lemma from_be_bytes_small n x :
  0 <= x < 256 ^ Z.of_nat n -> from_be (be_bytes n x) = x.
Proof. intros. rewrite from_be_bytes. now apply Z.mod_small. Qed.

Lemma be_bytes_mod n x : be_bytes n (x mod 256 ^ Z.of_nat n) = be_bytes n x.
Proof.
  assert (H : forall m, (m <= n)%nat -> be_bytes m (x mod 256 ^ Z.of_nat n) = be_bytes m x).
  { induction m; intros; cbn [be_bytes]; [reflexivity|].
    rewrite IHm by lia. f_equal. unfold as_u8.
    rewrite !Z.shiftr_div_pow2 by lia.
    replace (2 ^ (8 * Z.of_nat m)) with (256 ^ Z.of_nat m)
      by (rewrite Z.pow_mul_r by lia; reflexivity).
    replace (Z.of_nat n) with (Z.of_nat m + 1 + (Z.of_nat n - Z.of_nat m - 1)) by lia.
    rewrite !Z.pow_add_r by lia. rewrite <- Z.mul_assoc.
    change (2 ^ 8) with 256; change (256 ^ 1) with 256.
    rewrite Z.rem_mul_r by nia.
    rewrite Z.add_comm, Z.mul_comm, Z.div_add_l by (apply Z.pow_nonzero; lia).
    rewrite (Z.div_small (x mod _)) by (apply Z.mod_pos_bound; lia).
    rewrite Z.add_0_r, Z.rem_mul_r by nia.
    rewrite <- Z.add_mod_idemp_r by lia.
    rewrite Z.mul_comm, Z.mod_mul, Z.add_0_r by lia. apply Z.mod_mod; lia. }
  apply H; lia.
Qed.

Lemma be_bytes_from_be l : wf_bytes l = true -> be_bytes (List.length l) (from_be l) = l.
Proof.
  induction l as [|b l IH]; intros W; [reflexivity|].
  rewrite wf_bytes_cons in W. apply andb_true_iff in W as [B W].
  apply is_byte_iff in B. pose proof (from_be_bound l W) as F.
  cbn [List.length be_bytes]. rewrite from_be_cons.
  assert (P : 2 ^ (8 * Z.of_nat (List.length l)) = 256 ^ len l)
    by (unfold len; rewrite Z.pow_mul_r by lia; reflexivity).
  f_equal.
  - rewrite Z.shiftr_div_pow2, P by lia.
    rewrite Z.div_add_l, (Z.div_small (from_be l)) by lia.
    rewrite Z.add_0_r. now apply as_u8_small.
  - etransitivity; [|exact (IH W)]. rewrite <- be_bytes_mod. f_equal.
    change (Z.of_nat (List.length l)) with (len l).
    rewrite Z.add_comm, Z.mod_add, Z.mod_small by lia. reflexivity.
Qed.

(** *** Loops *)

Lemma for_range_ind {S : Type} (P : nat -> S -> Prop) (f : nat -> S -> S) n s :
  P 0%nat s ->
  (forall i s, (i < n)%nat -> P i s -> P (Datatypes.S i) (f i s)) ->
  P n (for_range n f s).
Proof.
  intros H0 HS. unfold for_range.
  assert (G : forall k m s, (m + k <= n)%nat -> P m s ->
              P (m + k)%nat (fold_left (fun s i => f i s) (seq m k) s)).
  { induction k; intros m s' L Hm; cbn [seq fold_left].
    - now rewrite Nat.add_0_r.
    - rewrite <- Nat.add_succ_comm. apply IHk; [lia|]. apply HS; [lia|assumption]. }
  apply (G n 0%nat); [lia|assumption].
Qed.

Lemma for_range_S {S : Type} (f : nat -> S -> S) n s :
  for_range (Datatypes.S n) f s = f n (for_range n f s).
Proof. unfold for_range. rewrite seq_S, fold_left_app. reflexivity. Qed.
