(* ===== verification/Bytes.v ===== *)
(** Byte-string operations the symmetric and record-layer code shares: XOR of
    byte strings, [chunks_exact], [GenericArray::from_slice], checked [usize]
    subtraction, and their lemmas. *)

From Stdlib Require Import String Ascii Bool ZArith Lia List.
From S2P Require Import Prelude.
Import ListNotations.
Open Scope Z_scope.

(** [a.iter().zip(b).map(|(a, b)| a ^ b)] *)
Definition xor_bytes (a b : bytes) : bytes :=
  map (fun p => Z.lxor (fst p) (snd p)) (combine a b).

(** [usize] subtraction, which panics below zero. *)
Definition usize_sub {E : Type} (a b : Z) : outcome E Z :=
  if b <=? a then Ok (a - b) else Panic.

(** [usize] addition, which panics from 2^64 on. *)
Definition usize_add {E : Type} (a b : Z) : outcome E Z := if a + b <? 2 ^ 64 then Ok (a + b) else Panic.

(** A computation that does not return counts as a panic. *)
Definition some_or_panic {E A : Type} (o : option A) : outcome E A := match o with Some a => Ok a | None => Panic end.
Definition ok_or_else {E A : Type} (o : option A) (e : E) : outcome E A := match o with Some a => Ok a | None => Err e end.

(** [GenericArray::from_slice], which panics on another length. *)
Definition from_slice {E : Type} (n : Z) (l : bytes) : outcome E bytes :=
  if len l =? n then Ok l else Panic.

(** [l.chunks_exact(n)] *)
Fixpoint chunks_fuel {A : Type} (fuel n : nat) (l : list A) : list (list A) :=
  match fuel with
  | O => []
  | S f => if (n <=? List.length l)%nat then firstn n l :: chunks_fuel f n (skipn n l) else []
  end.

Definition chunks_exact {A : Type} (n : nat) (l : list A) : list (list A) :=
  chunks_fuel (List.length l) n l.

(** [chunks_exact(n).remainder()] *)
Definition chunks_remainder {A : Type} (n : nat) (l : list A) : list A :=
  skipn (n * (List.length l / n)) l.

(** A fold of a fallible step. *)
Fixpoint try_fold {E S A : Type} (f : S -> A -> outcome E S) (l : list A) (s : S) : outcome E S :=
  match l with
  | [] => Ok s
  | a :: t => s' <- f s a ;; try_fold f t s'
  end.

Definition bytes_eqb (a b : bytes) : bool :=
  (len a =? len b) && forallb (fun p => fst p =? snd p) (combine a b).

(** A hash function with 32-byte digests, as the crate sm3 documents. *)
Definition digest32 (sm3 : bytes -> bytes) : Prop :=
  forall m, wf_bytes (sm3 m) = true /\ List.length (sm3 m) = 32%nat.

(** [{:x}] of a byte: no leading zero. *)
Definition hexl_digit (d : Z) : ascii :=
  if d <? 10 then ascii_of_N (Z.to_N (48 + d)) else ascii_of_N (Z.to_N (87 + d)).
Definition hexl (b : Z) : string :=
  if b <? 16 then String (hexl_digit b) EmptyString
  else String (hexl_digit (Z.shiftr b 4)) (String (hexl_digit (Z.land b 15)) EmptyString).
(** [{:02x}] of a byte. *)
Definition hex02l (b : Z) : string :=
  String (hexl_digit (Z.shiftr b 4)) (String (hexl_digit (Z.land b 15)) EmptyString).

(** The dash outside ASCII of some error texts: its three UTF-8 bytes. *)
Definition em_dash : string := String (ascii_of_nat 226) (String (ascii_of_nat 128) (String (ascii_of_nat 148) EmptyString)).

(** ** Lemmas *)

Lemma bytes_eqb_eq a b : bytes_eqb a b = true <-> a = b.
Proof.
  unfold bytes_eqb. rewrite andb_true_iff, Z.eqb_eq.
  revert b. induction a as [|x a IH]; intros [|y b]; cbn [combine forallb fst snd].
  - intuition auto.
  - split; [intros [H _]; exfalso; len_lia|discriminate].
  - split; [intros [H _]; exfalso; len_lia|discriminate].
  - rewrite andb_true_iff, Z.eqb_eq. specialize (IH b). rewrite !len_cons. split.
    + intros (L & -> & F). f_equal. apply IH. split; [lia|assumption].
    + intros [= -> ->]. destruct (proj2 IH eq_refl). auto.
Qed.

Lemma bytes_eqb_refl a : bytes_eqb a a = true.
Proof. now apply bytes_eqb_eq. Qed.

Lemma bytes_eqb_neq a b : bytes_eqb a b = false <-> a <> b.
Proof. rewrite <- bytes_eqb_eq. destruct (bytes_eqb a b); intuition congruence. Qed.

(** *** XOR *)

Lemma lxor_byte a b : 0 <= a < 256 -> 0 <= b < 256 -> 0 <= Z.lxor a b < 256.
Proof.
  intros Ha Hb. assert (N : 0 <= Z.lxor a b) by (apply Z.lxor_nonneg; lia).
  split; [exact N|]. destruct (Z.eq_dec (Z.lxor a b) 0) as [->|Z0]; [lia|].
  apply Z.log2_lt_cancel. eapply Z.le_lt_trans; [apply Z.log2_lxor; lia|].
  change (Z.log2 256) with 8.
  apply Z.max_lub_lt.
  - destruct (Z.eq_dec a 0) as [->|]; [cbn; lia|]. apply Z.log2_lt_pow2; lia.
  - destruct (Z.eq_dec b 0) as [->|]; [cbn; lia|]. apply Z.log2_lt_pow2; lia.
Qed.

Lemma length_xor a b : List.length (xor_bytes a b) = Nat.min (List.length a) (List.length b).
Proof. unfold xor_bytes. now rewrite length_map, length_combine. Qed.

Lemma len_xor a b : len (xor_bytes a b) = Z.min (len a) (len b).
Proof. unfold len. rewrite length_xor. lia. Qed.
#[export] Hint Rewrite len_xor : rust.

Lemma wf_xor a b : wf_bytes a = true -> wf_bytes b = true -> wf_bytes (xor_bytes a b) = true.
Proof.
  revert b. induction a as [|x a IH]; intros [|y b]; try reflexivity.
  rewrite !wf_bytes_cons, !andb_true_iff. intros [X A] [Y B].
  change (xor_bytes (x :: a) (y :: b)) with (Z.lxor x y :: xor_bytes a b).
  rewrite wf_bytes_cons, IH by assumption. rewrite andb_true_r.
  apply is_byte_iff, lxor_byte; now apply is_byte_iff.
Qed.

Lemma xor_cancel a b : (List.length a <= List.length b)%nat -> xor_bytes (xor_bytes a b) b = a.
Proof.
  revert b. induction a as [|x a IH]; intros [|y b]; cbn [List.length]; intros L; try reflexivity; [lia|].
  change (xor_bytes (xor_bytes (x :: a) (y :: b)) (y :: b))
    with (Z.lxor (Z.lxor x y) y :: xor_bytes (xor_bytes a b) b).
  rewrite Z.lxor_assoc, Z.lxor_nilpotent, Z.lxor_0_r. f_equal. apply IH. lia.
Qed.

Lemma xor_app a b c d : List.length a = List.length c ->
  xor_bytes (a ++ b) (c ++ d) = xor_bytes a c ++ xor_bytes b d.
Proof.
  revert c. induction a as [|x a IH]; intros [|y c]; cbn [List.length app]; intros L; try lia; [reflexivity|].
  change (xor_bytes (x :: a ++ b) (y :: c ++ d)) with (Z.lxor x y :: xor_bytes (a ++ b) (c ++ d)).
  rewrite IH by lia. reflexivity.
Qed.

(** XOR stops at the shorter string. *)
Lemma xor_firstn_r a b n : (List.length a <= n)%nat -> xor_bytes a (firstn n b) = xor_bytes a b.
Proof.
  unfold xor_bytes. intros L. f_equal. revert b n L.
  induction a as [|x a IH]; intros b n L; [reflexivity|]. cbn [List.length] in L.
  destruct n; [lia|]. destruct b; [reflexivity|]. cbn [firstn combine]. f_equal. apply IH. lia.
Qed.

Lemma xor_app_r a b c : (List.length a <= List.length b)%nat -> xor_bytes a (b ++ c) = xor_bytes a b.
Proof.
  intros L. rewrite <- (xor_firstn_r a (b ++ c) (List.length b)) by lia.
  now rewrite firstn_app, firstn_all, Nat.sub_diag, firstn_O, app_nil_r.
Qed.

(** *** Chunks *)

Lemma chunks_fuel_more {A} (n f g : nat) (l : list A) : (0 < n)%nat ->
  (List.length l <= f)%nat -> (f <= g)%nat -> chunks_fuel g n l = chunks_fuel f n l.
Proof.
  intros N. revert f l. induction g; intros [|f] l L G; cbn [chunks_fuel]; try reflexivity; try lia.
  - destruct l; cbn [List.length] in *; [|lia]. destruct n; [lia|reflexivity].
  - destruct (Nat.leb_spec n (List.length l)); [|reflexivity]. f_equal. apply IHg; [|lia].
    rewrite length_skipn. lia.
Qed.

Lemma chunks_nil {A} n : @chunks_exact A n [] = [].
Proof. reflexivity. Qed.

Lemma chunks_cons {A} n (b l : list A) : (0 < n)%nat -> List.length b = n ->
  chunks_exact n (b ++ l) = b :: chunks_exact n l.
Proof.
  intros N L. unfold chunks_exact. rewrite length_app, L.
  destruct n as [|n]; [lia|]. cbn [Nat.add chunks_fuel].
  destruct (Nat.leb_spec (S n) (List.length (b ++ l))) as [_|C]; [|rewrite length_app in C; lia].
  rewrite firstn_app, skipn_app, L, Nat.sub_diag, firstn_O, app_nil_r, <- L, firstn_all, skipn_all.
  rewrite skipn_O. cbn [app]. f_equal. apply chunks_fuel_more; lia.
Qed.

(** Induction on a byte string by blocks. *)
Lemma blocks_ind {A} (n : nat) (P : list A -> Prop) :
  P [] ->
  (forall b l, List.length b = n -> Nat.modulo (List.length l) n = 0%nat -> P l -> P (b ++ l)) ->
  (0 < n)%nat -> forall l, Nat.modulo (List.length l) n = 0%nat -> P l.
Proof.
  intros P0 PS N l. remember (List.length l) as k eqn:K. revert l K.
  induction k as [k IH] using (well_founded_induction lt_wf). intros l K M.
  destruct (Nat.eq_dec k 0) as [->|NZ]; [destruct l; [exact P0|discriminate]|].
  assert (n <= k)%nat.
  { destruct (Nat.le_gt_cases n k); [assumption|]. rewrite Nat.mod_small in M; lia. }
  rewrite <- (firstn_skipn n l).
  assert (M' : Nat.modulo (k - n) n = 0%nat).
  { replace k with (k - n + 1 * n)%nat in M by lia. now rewrite Nat.Div0.mod_add in M. }
  apply PS; [rewrite length_firstn; lia | rewrite length_skipn, <- K; exact M'|].
  apply (IH (k - n)%nat); [lia|rewrite length_skipn; lia|exact M'].
Qed.

Lemma chunks_concat {A} n (l : list A) : (0 < n)%nat -> Nat.modulo (List.length l) n = 0%nat ->
  concat (chunks_exact n l) = l /\ Forall (fun b => List.length b = n) (chunks_exact n l).
Proof.
  intros N M. revert M. apply (blocks_ind n (fun l => concat (chunks_exact n l) = l /\
    Forall (fun b => List.length b = n) (chunks_exact n l))); [|intros b l' L _ [C F]|exact N].
  - split; [reflexivity|constructor].
  - rewrite chunks_cons by assumption. cbn [concat]. rewrite C. auto.
Qed.

Lemma chunks_app {A} n (l l' : list A) : (0 < n)%nat -> Nat.modulo (List.length l) n = 0%nat ->
  chunks_exact n (l ++ l') = chunks_exact n l ++ chunks_exact n l'.
Proof.
  intros N M. revert M. apply (blocks_ind n (fun l => chunks_exact n (l ++ l') = chunks_exact n l ++ chunks_exact n l')); [reflexivity|intros b t L _ IH|exact N].
  rewrite <- app_assoc, (chunks_cons n b (t ++ l')), (chunks_cons n b t), IH by assumption. reflexivity.
Qed.

Lemma chunks_short {A} n (l : list A) : (List.length l < n)%nat -> chunks_exact n l = [].
Proof.
  intros L. unfold chunks_exact. destruct (List.length l) eqn:E; [reflexivity|]. cbn [chunks_fuel].
  destruct (Nat.leb_spec n (List.length l)); [lia|reflexivity].
Qed.

(** A string is its whole chunks and its remainder. *)
Lemma chunks_split {A} n (l : list A) : (0 < n)%nat ->
  exists l0, l = l0 ++ chunks_remainder n l /\ Nat.modulo (List.length l0) n = 0%nat /\
    chunks_exact n l = chunks_exact n l0 /\
    List.length (chunks_remainder n l) = Nat.modulo (List.length l) n.
Proof.
  intros N. set (k := (n * (List.length l / n))%nat).
  pose proof (Nat.div_mod_eq (List.length l) n) as D.
  pose proof (Nat.mod_upper_bound (List.length l) n).
  assert (K : (k <= List.length l)%nat) by (unfold k; lia).
  assert (L0 : List.length (firstn k l) = k) by (rewrite length_firstn; lia).
  assert (R : List.length (skipn k l) = Nat.modulo (List.length l) n)
    by (rewrite length_skipn; unfold k; lia).
  assert (M0 : Nat.modulo (List.length (firstn k l)) n = 0%nat)
    by (rewrite L0; unfold k; rewrite Nat.mul_comm; apply Nat.Div0.mod_mul).
  exists (firstn k l). unfold chunks_remainder; fold k.
  split; [symmetry; apply firstn_skipn|]. split; [exact M0|]. split; [|exact R].
  rewrite <- (firstn_skipn k l) at 1. rewrite chunks_app by assumption.
  rewrite (chunks_short n (skipn k l)) by lia. apply app_nil_r.
Qed.

(** *** Outcomes *)

Lemma ok_inj {E A} (a b : A) : Ok (E:=E) a = Ok b -> a = b.
Proof. intros X. now injection X. Qed.

Lemma from_slice_ok {E} n l : len l = n -> from_slice (E:=E) n l = Ok l.
Proof. intros <-. unfold from_slice. now rewrite Z.eqb_refl. Qed.

Lemma usize_sub_ok {E} a b : b <= a -> usize_sub (E:=E) a b = Ok (a - b).
Proof. intros H. unfold usize_sub. now rewrite (proj2 (Z.leb_le _ _) H). Qed.

Lemma usize_add_ok {E} a b : a + b < 2 ^ 64 -> usize_add (E:=E) a b = Ok (a + b).
Proof. intros H. unfold usize_add. now rewrite (proj2 (Z.ltb_lt _ _) H). Qed.

Lemma try_fold_app {E S A} (f : S -> A -> outcome E S) l1 l2 s :
  try_fold f (l1 ++ l2) s = bind (try_fold f l1 s) (try_fold f l2).
Proof.
  revert s. induction l1 as [|a l1 IH]; intros s; cbn [app try_fold bind]; [reflexivity|].
  destruct (f s a); cbn [bind]; [apply IH|reflexivity..].
Qed.

Lemma try_fold_ok {E S A} (f : S -> A -> outcome E S) (g : S -> A -> S) (Q : A -> Prop) (I : S -> Prop) l s :
  (forall s a, I s -> Q a -> f s a = Ok (g s a) /\ I (g s a)) -> I s -> Forall Q l ->
  try_fold f l s = Ok (fold_left g l s).
Proof.
  intros H Is F. revert s Is. induction F; intros s Is; cbn [try_fold fold_left]; [reflexivity|].
  destruct (H s x Is H0) as [-> I']. cbn [bind]. auto.
Qed.

Lemma mod16_len (l : bytes) : Nat.modulo (List.length l) 16 = 0%nat <-> len l mod 16 = 0.
Proof. unfold len. replace (Z.of_nat (List.length l) mod 16) with (Z.of_nat (List.length l mod 16)) by (rewrite Nat2Z.inj_mod; reflexivity). lia. Qed.

(** ** Strings and lists *)

Definition bytes_of (s : string) : bytes :=
  map (fun a => Z.of_N (Ascii.N_of_ascii a)) (list_ascii_of_string s).

Lemma be_bytes_inj n x y : 0 <= x < 256 ^ Z.of_nat n -> 0 <= y < 256 ^ Z.of_nat n ->
  be_bytes n x = be_bytes n y -> x = y.
Proof. intros X Y E. apply (f_equal from_be) in E. now rewrite !from_be_bytes_small in E. Qed.

Lemma xor_comm a b : xor_bytes a b = xor_bytes b a.
Proof.
  revert b. induction a as [|x a IH]; intros [|y b]; try reflexivity.
  change (xor_bytes (x :: a) (y :: b)) with (Z.lxor x y :: xor_bytes a b).
  change (xor_bytes (y :: b) (x :: a)) with (Z.lxor y x :: xor_bytes b a).
  now rewrite Z.lxor_comm, IH.
Qed.

Lemma xor_inj a b c : (List.length b = List.length a)%nat -> (List.length c = List.length a)%nat ->
  xor_bytes a b = xor_bytes a c -> b = c.
Proof.
  intros B C E. rewrite (xor_comm a b), (xor_comm a c) in E. apply (f_equal (fun l => xor_bytes l a)) in E.
  now rewrite !xor_cancel in E by lia.
Qed.

Lemma xor_zeros a n : (List.length a <= n)%nat -> xor_bytes a (repeat 0 n) = a.
Proof.
  revert n. induction a as [|x a IH]; intros [|n] L; cbn [List.length] in L; try reflexivity; [lia|].
  cbn [repeat]. change (xor_bytes (x :: a) (0 :: repeat 0 n)) with (Z.lxor x 0 :: xor_bytes a (repeat 0 n)).
  rewrite Z.lxor_0_r, IH by lia. reflexivity.
Qed.

Lemma firstn_prefix {A} (l t : list A) n : (n <= List.length l)%nat -> firstn n (l ++ t) = firstn n l.
Proof. intros Le. rewrite firstn_app. replace (n - List.length l)%nat with 0%nat by lia. apply app_nil_r. Qed.

(** ** Per-record nonces: a 64-bit number XORed into the last 8 of 12 bytes *)

Definition seq_nonce (base : bytes) (seq : Z) : bytes := firstn 4 base ++ xor_bytes (skipn 4 base) (be_bytes 8 seq).

Lemma seq_nonce_shape base seq : len base = 12 -> wf_bytes base = true ->
  len (seq_nonce base seq) = 12 /\ wf_bytes (seq_nonce base seq) = true.
Proof.
  intros L W. unfold seq_nonce. split.
  - rewrite len_app, len_xor, len_be_bytes. unfold len in *. rewrite length_firstn, length_skipn. lia.
  - rewrite wf_bytes_app, wf_bytes_firstn, wf_xor by auto using wf_bytes_skipn, wf_be_bytes. reflexivity.
Qed.

Lemma seq_nonce_inj base s t : len base = 12 -> 0 <= s < 2 ^ 64 -> 0 <= t < 2 ^ 64 ->
  seq_nonce base s = seq_nonce base t -> s = t.
Proof.
  intros L Bs Bt E. apply app_inv_head in E.
  assert (L8 : List.length (skipn 4 base) = 8%nat) by (rewrite length_skipn; unfold len in L; lia).
  apply xor_inj in E; rewrite ?length_be_bytes; try lia. apply (be_bytes_inj 8) in E; [exact E|cbn; lia..].
Qed.

Lemma seq_nonce_0 base : len base = 12 -> seq_nonce base 0 = base.
Proof.
  intros L. unfold seq_nonce. change (be_bytes 8 0) with (repeat 0 8). rewrite xor_zeros; [apply firstn_skipn|].
  rewrite length_skipn. unfold len in L. lia.
Qed.

Lemma app_eq_app_len {A : Type} (a b c d : list A) : List.length a = List.length c -> a ++ b = c ++ d -> a = c /\ b = d.
Proof.
  revert c. induction a as [|x a IH]; intros [|y c]; cbn; try discriminate; [now auto|].
  intros L [= -> X]. destruct (IH c) as [-> ->]; [lia|exact X|]. auto.
Qed.

Lemma firstn_exact {A : Type} (l r : list A) n : n = List.length l -> firstn n (l ++ r) = l.
Proof. intros ->. now rewrite firstn_app, firstn_all, Nat.sub_diag, app_nil_r. Qed.

Lemma skipn_exact {A : Type} (l r : list A) n : n = List.length l -> skipn n (l ++ r) = r.
Proof. intros ->. now rewrite skipn_app, skipn_all, Nat.sub_diag. Qed.

(** Reading at a known position. *)
Lemma index_at {E A} (data l1 : list A) x l2 i : data = l1 ++ x :: l2 -> i = len l1 -> index (E:=E) data i = Ok x.
Proof. intros ->. apply index_app. Qed.

Lemma slice_at {E A} (data l1 l2 l3 : list A) i j : data = l1 ++ l2 ++ l3 -> i = len l1 -> j = len l1 + len l2 ->
  slice (E:=E) data i j = Ok l2.
Proof. intros ->. apply slice_app. Qed.
