(* ===== verification/Effects.v ===== *)
(** Effects shared by the protocol stacks: a monad of state and errors, byte
    transports as an interface (tokio's [read_exact], [write_all] and [flush])
    with the laws of a reliable transport, an in-memory instance, and the polling
    interface of a transport with an instance that follows a schedule. *)

From Stdlib Require Import String Bool ZArith Lia List.
From S2P Require Import Prelude Bytes.
Import ListNotations.
Open Scope Z_scope.

(** ** State and errors together *)

Definition M (S E A : Type) : Type := S -> S * outcome E A.
Definition ret {S E A : Type} (a : A) : M S E A := fun s => (s, Ok a).
Definition fail {S E A : Type} (e : E) : M S E A := fun s => (s, Err e).
Definition bindM {S E A B : Type} (m : M S E A) (k : A -> M S E B) : M S E B :=
  fun s => let '(s', o) := m s in
           match o with Ok a => k a s' | Err e => (s', Err e) | Panic => (s', Panic) end.
Definition lift {S E A : Type} (o : outcome E A) : M S E A := fun s => (s, o).
Definition gets {S E A : Type} (f : S -> A) : M S E A := fun s => (s, Ok (f s)).
Definition modify {S E : Type} (f : S -> S) : M S E unit := fun s => (f s, Ok tt).
Definition mapM_err {S E F A : Type} (f : E -> F) (m : M S E A) : M S F A :=
  fun s => let '(s', o) := m s in (s', map_err f o).
Definition failIf {S E : Type} (b : bool) (e : E) : M S E unit := if b then fail e else ret tt.

Notation "x <-- c ;;; k" := (bindM c (fun x => k))
  (at level 100, c at next level, right associativity) : rust_scope.
Notation "c ;;; k" := (bindM c (fun _ => k)) (at level 100, right associativity) : rust_scope.

(** ** Transports *)

Class Transport (T : Type) := {
  read_exact : Z -> M T string bytes;
  write_all : bytes -> M T string unit;
  flush : M T string unit
}.

(** ** An in-memory transport *)

Record pipe : Type := { incoming : bytes; outgoing : bytes }.

#[global] Instance pipe_transport : Transport pipe := {
  read_exact n t :=
    if len (incoming t) <? n then ({| incoming := []; outgoing := outgoing t |}, Err "early eof"%string)
    else ({| incoming := skipn (Z.to_nat n) (incoming t); outgoing := outgoing t |},
          Ok (firstn (Z.to_nat n) (incoming t)));
  write_all b t := ({| incoming := incoming t; outgoing := outgoing t ++ b |}, Ok tt);
  flush t := (t, Ok tt)
}.

(** ** Laws of a transport *)

(** A reliable transport: what is written is appended to [sent], reads take from
    the front of [unread], and [read_exact] fails when too little is left. *)
Class TransportLaws {T : Type} (TT : Transport T) := {
  unread : T -> bytes;
  sent : T -> bytes;
  write_all_law b t : exists t', write_all b t = (t', Ok tt) /\ sent t' = sent t ++ b /\ unread t' = unread t;
  flush_law t : exists t', flush t = (t', Ok tt) /\ sent t' = sent t /\ unread t' = unread t;
  read_exact_law n t : 0 <= n <= len (unread t) -> exists t',
    read_exact n t = (t', Ok (firstn (Z.to_nat n) (unread t))) /\
    unread t' = skipn (Z.to_nat n) (unread t) /\ sent t' = sent t;
  read_exact_eof n t : len (unread t) < n -> exists t' e, read_exact n t = (t', Err e) /\ sent t' = sent t
}.

#[local] Obligation Tactic := idtac.

#[global] Program Instance pipe_laws : TransportLaws pipe_transport := { unread := incoming; sent := outgoing }.
Next Obligation. intros b t. eexists. split; [reflexivity|]. now split. Qed.
Next Obligation. intros t. eexists. split; [reflexivity|]. now split. Qed.
Next Obligation. intros n t [N L]. cbn. rewrite (proj2 (Z.ltb_ge _ _) L). eexists. split; [reflexivity|]. now split. Qed.
Next Obligation. intros n t L. cbn. rewrite (proj2 (Z.ltb_lt _ _) L). do 2 eexists. split; [reflexivity|]. reflexivity. Qed.

(** ** Monad equations *)

Section MonadLaws.
Context {S E A B : Type}.

Lemma bind_ok (m : M S E A) (k : A -> M S E B) s s' a : m s = (s', Ok a) -> bindM m k s = k a s'.
Proof. intros X. unfold bindM. now rewrite X. Qed.

Lemma bind_err (m : M S E A) (k : A -> M S E B) s s' e : m s = (s', Err e) -> bindM m k s = (s', Err e).
Proof. intros X. unfold bindM. now rewrite X. Qed.

Lemma bind_gets (f : S -> A) (k : A -> M S E B) s : bindM (gets f) k s = k (f s) s.
Proof. reflexivity. Qed.

Lemma bind_lift o (k : A -> M S E B) s :
  bindM (lift o) k s = match o with Ok a => k a s | Err e => (s, Err e) | Panic => (s, Panic) end.
Proof. reflexivity. Qed.

Lemma bind_failIf b (e : E) (k : unit -> M S E B) s : bindM (failIf b e) k s = if b then (s, Err e) else k tt s.
Proof. now destruct b. Qed.

Lemma bind_assoc {D : Type} (m : M S E A) (k : A -> M S E B) (l : B -> M S E D) s :
  bindM (bindM m k) l s = bindM m (fun a => bindM (k a) l) s.
Proof. unfold bindM. destruct (m s) as [s' [a|e|]]; reflexivity. Qed.
End MonadLaws.

(** ** What a computation that succeeded has done *)

Lemma bind_ok_iff {E A B} (o : outcome E A) (k : A -> outcome E B) b : bind o k = Ok b <-> exists a, o = Ok a /\ k a = Ok b.
Proof.
  destruct o as [a|e|]; cbn; split; try discriminate; try (now intros (? & ? & _)).
  - intros Y. now exists a.
  - intros (a' & [= <-] & Y). exact Y.
Qed.

Lemma bind_unit_iff {E B} (o : outcome E unit) (k : unit -> outcome E B) b : bind o k = Ok b <-> o = Ok tt /\ k tt = Ok b.
Proof. rewrite bind_ok_iff. split; [now intros ([] & ? & ?)|]. intros []. now exists tt. Qed.

Lemma guard_ok_iff {E A} b (e : E) (k : outcome E A) a : guard b e k = Ok a <-> b = false /\ k = Ok a.
Proof. destruct b; cbn; intuition discriminate. Qed.

Lemma map_err_ok_iff {E F A} (f : E -> F) (o : outcome E A) a : map_err f o = Ok a <-> o = Ok a.
Proof. destruct o; cbn; split; intros Y; try discriminate; congruence. Qed.

Lemma bindM_ok_iff {S E A B} (m : M S E A) (k : A -> M S E B) s s' b :
  bindM m k s = (s', Ok b) <-> exists s1 a, m s = (s1, Ok a) /\ k a s1 = (s', Ok b).
Proof.
  unfold bindM. destruct (m s) as [s1 [a|e|]].
  - split; [intros Y; now exists s1, a|]. now intros (? & ? & [= <- <-] & Y).
  - split; [discriminate|]. now intros (? & ? & [=] & _).
  - split; [discriminate|]. now intros (? & ? & [=] & _).
Qed.

Lemma bind_lift_iff {S E A B} (o : outcome E A) (k : A -> M S E B) s s' b :
  bindM (lift o) k s = (s', Ok b) <-> exists a, o = Ok a /\ k a s = (s', Ok b).
Proof.
  rewrite bind_lift. destruct o as [a|e|].
  - split; [intros Y; now exists a|]. now intros (? & [= <-] & Y).
  - split; [discriminate|]. now intros (? & [=] & _).
  - split; [discriminate|]. now intros (? & [=] & _).
Qed.

Lemma bind_failIf_iff {S E B} b (e : E) (k : unit -> M S E B) s s' r :
  bindM (failIf b e) k s = (s', Ok r) <-> b = false /\ k tt s = (s', Ok r).
Proof. rewrite bind_failIf. destruct b; intuition discriminate. Qed.

(** ** Polling *)

Inductive stop : Type :=
| Pending
| Failed (m : string).

Class PollTransport (T : Type) := {
  poll_read : Z -> M T stop bytes;
  poll_write : bytes -> M T stop Z;
  poll_flush : M T stop unit;
  poll_shutdown : M T stop unit
}.

(** ** A transport that follows a schedule *)

Record script : Type := { s_in : bytes; s_out : bytes; reads : list Z; writes : list Z }.

Definition quota (q : list Z) (n : Z) : option Z * list Z :=
  match q with
  | [] => (Some n, [])
  | k :: q => if k <=? 0 then (None, q) else (Some (Z.min k n), q)
  end.

#[global] Instance script_poll : PollTransport script := {
  poll_read cap t :=
    let '(k, q) := quota (reads t) (Z.min cap (len (s_in t))) in
    match k with
    | None => ({| s_in := s_in t; s_out := s_out t; reads := q; writes := writes t |}, Err Pending)
    | Some n => ({| s_in := skipn (Z.to_nat n) (s_in t); s_out := s_out t; reads := q; writes := writes t |},
                 Ok (firstn (Z.to_nat n) (s_in t)))
    end;
  poll_write b t :=
    let '(k, q) := quota (writes t) (len b) in
    match k with
    | None => ({| s_in := s_in t; s_out := s_out t; reads := reads t; writes := q |}, Err Pending)
    | Some n => ({| s_in := s_in t; s_out := s_out t ++ firstn (Z.to_nat n) b; reads := reads t; writes := q |}, Ok n)
    end;
  poll_flush t := (t, Ok tt);
  poll_shutdown t := (t, Ok tt)
}.

(** Awaiting the same transport: its async operations complete. *)
#[global] Instance script_transport : Transport script := {
  read_exact n t :=
    if len (s_in t) <? n then ({| s_in := []; s_out := s_out t; reads := reads t; writes := writes t |}, Err "early eof"%string)
    else ({| s_in := skipn (Z.to_nat n) (s_in t); s_out := s_out t; reads := reads t; writes := writes t |},
          Ok (firstn (Z.to_nat n) (s_in t)));
  write_all b t := ({| s_in := s_in t; s_out := s_out t ++ b; reads := reads t; writes := writes t |}, Ok tt);
  flush t := (t, Ok tt)
}.

#[global] Program Instance script_laws : TransportLaws script_transport := { unread := s_in; sent := s_out }.
Next Obligation. intros b t. eexists. split; [reflexivity|]. now split. Qed.
Next Obligation. intros t. eexists. split; [reflexivity|]. now split. Qed.
Next Obligation. intros n t [N L]. cbn. rewrite (proj2 (Z.ltb_ge _ _) L). eexists. split; [reflexivity|]. now split. Qed.
Next Obligation. intros n t L. cbn. rewrite (proj2 (Z.ltb_lt _ _) L). do 2 eexists. split; [reflexivity|]. reflexivity. Qed.

(** ** Results that differ only in their errors *)

Definition same_ok {E F A : Type} (o : outcome E A) (o' : outcome F A) : Prop :=
  match o, o' with
  | Ok a, Ok a' => a = a'
  | Err _, Err _ => True
  | Panic, Panic => True
  | _, _ => False
  end.

Definition agree {S E F A : Type} (r : S * outcome E A) (r' : S * outcome F A) : Prop :=
  fst r = fst r' /\ same_ok (snd r) (snd r').

Lemma agree_bind {S E F A B : Type} (m : M S E A) (m' : M S F A) (k : A -> M S E B) (k' : A -> M S F B) s :
  agree (m s) (m' s) -> (forall a s', agree (k a s') (k' a s')) -> agree (bindM m k s) (bindM m' k' s).
Proof.
  unfold agree, bindM. destruct (m s) as [s1 o], (m' s) as [s1' o']. cbn [fst snd].
  intros [-> X] Y. destruct o, o'; cbn in X; try contradiction; subst; auto.
Qed.

Lemma agree_lift {S E F A : Type} (o : outcome E A) (o' : outcome F A) (s : S) : same_ok o o' -> agree (lift o s) (lift o' s).
Proof. now split. Qed.

Lemma same_map_err {E F G A : Type} (f : E -> F) (g : E -> G) (o : outcome E A) : same_ok (map_err f o) (map_err g o).
Proof. now destruct o. Qed.

Lemma same_map_err_r {E F A : Type} (g : E -> F) (o : outcome E A) : same_ok o (map_err g o).
Proof. now destruct o. Qed.

(** ** Schedules *)

Lemma firstn_plus {A : Type} (a b : nat) (l : list A) : firstn a l ++ firstn b (skipn a l) = firstn (a + b) l.
Proof. revert l. induction a as [|a IH]; intros [|x l]; cbn; rewrite ?firstn_nil; [reflexivity..|]. now rewrite IH. Qed.

Definition positive (q : list Z) : bool := forallb (fun k => 0 <? k) q.

Lemma quota_cases q n : 0 < n -> exists q',
  (quota q n = (None, q') /\ positive q = false) \/
  (exists k, quota q n = (Some k, q') /\ 0 < k <= n /\ (positive q = true -> positive q' = true)).
Proof.
  intros N. destruct q as [|k q]; cbn [quota positive forallb].
  - exists []. right. exists n. repeat split; lia || auto.
  - exists q. destruct (Z.leb_spec k 0) as [Le|Gt].
    + left. split; [reflexivity|]. now rewrite (proj2 (Z.ltb_ge _ _) Le).
    + right. exists (Z.min k n). split; [reflexivity|]. split; [lia|]. intros P. now apply andb_true_iff in P.
Qed.

(** [t] after it took [b], with [q] left of its write schedule. *)
Definition put_out (t : script) (b : bytes) (q : list Z) : script :=
  {| s_in := s_in t; s_out := s_out t ++ b; reads := reads t; writes := q |}.

(** A schedule that takes any piece of two bytes whole. *)
Definition roomy (q : list Z) : bool := forallb (fun k => 2 <=? k) q.

Lemma quota_roomy q n : roomy q = true -> 0 < n -> exists k q',
  quota q n = (Some k, q') /\ 0 < k <= n /\ (n <= 2 -> k = n) /\ roomy q' = true.
Proof.
  intros R N. destruct q as [|k q]; cbn [quota].
  - exists n, []. repeat split; lia || auto.
  - cbn in R. apply andb_true_iff in R as [K R]. apply Z.leb_le in K. exists (Z.min k n), q.
    rewrite (proj2 (Z.leb_gt _ _)) by lia. repeat split; lia || auto.
Qed.
