(* ===== verification/Der.v ===== *)
(** * DER primitives (crate [gm-der])

    [der_len] and the tag encoders of [gm-der/src/encode.rs], the parsers of
    [gm-der/src/decode.rs] and the error type of [gm-der/src/error.rs]. Parsers
    are modelled over an arbitrary byte slice, with every index and slice
    checked, so that absence of panics is a theorem. *)

From Stdlib Require Import ZArith List Lia Bool String.
From S2P Require Import Prelude.
Import ListNotations.
Local Open Scope string_scope.
Local Open Scope list_scope.
Local Open Scope Z_scope.

Inductive DerError : Type :=
| ParseError (msg : string)
| EncodeError (msg : string).

Definition display_der (e : DerError) : string :=
  match e with
  | ParseError m => ("DER parse error: " +++ m)%string
  | EncodeError m => ("DER encode error: " +++ m)%string
  end.

(** ** Encoding *)

Definition der_len (n : Z) : bytes :=
  if n <? 0x80 then [as_u8 n]
  else if n <? 0x100 then [0x81; as_u8 n]
  else if n <? 0x10000 then [0x82; as_u8 (Z.shiftr n 8); as_u8 n]
  else if n <? 0x1000000 then
    [0x83; as_u8 (Z.shiftr n 16); as_u8 (Z.shiftr n 8); as_u8 n]
  else
    [0x84; as_u8 (Z.shiftr n 24); as_u8 (Z.shiftr n 16); as_u8 (Z.shiftr n 8); as_u8 n].

Definition encode_oid (oid : bytes) : bytes := [0x06] ++ der_len (len oid) ++ oid.

Definition der_integer_positive (bs : bytes) : bytes :=
  let content := match bs with
                 | b :: _ => if 0x80 <=? b then 0x00 :: bs else bs
                 | [] => bs
                 end in
  [0x02] ++ der_len (len content) ++ content.

Definition der_utf8_string (s : bytes) : bytes := [0x0C] ++ der_len (len s) ++ s.

Definition der_sequence (contents : bytes) : bytes :=
  [0x30] ++ der_len (len contents) ++ contents.

Definition sum_len (items : list bytes) : Z :=
  fold_left Z.add (map len items) 0.

Definition der_sequence_v (items : list bytes) : bytes :=
  let content_len := sum_len items in
  fold_left (fun v item => v ++ item) items ([0x30] ++ der_len content_len).

Definition der_bit_string (bits : bytes) : bytes :=
  [0x03] ++ der_len (len bits + 1) ++ [0x00] ++ bits.

Definition der_octet_string (data : bytes) : bytes :=
  [0x04] ++ der_len (len data) ++ data.

Definition der_bool (b : bool) : bytes := [0x01; 0x01; if b then 0xFF else 0x00].

Definition der_set (items : list bytes) : bytes :=
  let content_len := sum_len items in
  fold_left (fun v item => v ++ item) items ([0x31] ++ der_len content_len).

Definition der_explicit_context (tag : Z) (contents : bytes) : bytes :=
  [Z.lor 0xA0 tag] ++ der_len (len contents) ++ contents.

Definition der_len_u16 (n : Z) : bytes := [as_u8 (Z.shiftr n 8); as_u8 n].

(** ** Decoding *)

(** [for i in 0..num_bytes { len = (len << 8) | data[1 + i] }] *)
Fixpoint der_length_loop (data : bytes) (i : Z) (n : nat) (acc : Z) : outcome DerError Z :=
  match n with
  | O => Ok acc
  | S n' => b <- index data (1 + i) ;;
            der_length_loop data (i + 1) n' (Z.lor (as_u64 (Z.shiftl acc 8)) b)
  end.

Definition parse_der_length (data : bytes) : outcome DerError (bytes * Z) :=
  guard (len data =? 0) (ParseError "truncated length") (
  first <- index data 0 ;;
  if first <? 0x80 then
    rest <- slice_from data 1 ;; Ok (rest, first)
  else
    let num_bytes := Z.land first 0x7F in
    guard ((num_bytes =? 0) || (4 <? num_bytes))
      (ParseError ("invalid long form length (" +++ dec num_bytes +++ ")")) (
    guard (len data <? 1 + num_bytes) (ParseError "truncated long form length") (
    l <- der_length_loop data 0 (Z.to_nat num_bytes) 0 ;;
    rest <- slice_from data (1 + num_bytes) ;;
    Ok (rest, l)))).

(** The body shared by the tag parsers: a tag test, a length field, a
    truncation test and the split of the remaining bytes. *)
Definition parse_tlv (expected : Z) (bad_tag : Z -> string) (truncated : string)
    (data : bytes) : outcome DerError (bytes * bytes) :=
  guard (len data =? 0) (ParseError "empty data") (
  tag <- index data 0 ;;
  guard (negb (tag =? expected)) (ParseError (bad_tag tag)) (
  tl <- slice_from data 1 ;;
  ' (remaining, length) <- parse_der_length tl ;;
  guard (len remaining <? length) (ParseError truncated) (
  rest <- slice_from remaining length ;;
  contents <- slice_to remaining length ;;
  Ok (rest, contents)))).

Definition parse_der_sequence : bytes -> outcome DerError (bytes * bytes) :=
  parse_tlv 0x30 (fun t => "expected SEQUENCE tag 0x30, got 0x" +++ hex02 t)
    "truncated SEQUENCE".

Definition parse_der_explicit (data : bytes) (tag : Z) : outcome DerError (bytes * bytes) :=
  let expected := Z.lor 0xA0 tag in
  parse_tlv expected
    (fun t => "expected context [" +++ dec tag +++ "] tag 0x" +++ hex02 expected
              +++ ", got 0x" +++ hex02 t)
    "truncated EXPLICIT" data.

Definition parse_der_integer : bytes -> outcome DerError (bytes * bytes) :=
  parse_tlv 0x02 (fun t => "expected INTEGER tag 0x02, got 0x" +++ hex02 t)
    "truncated INTEGER".

Definition parse_der_oid : bytes -> outcome DerError (bytes * bytes) :=
  parse_tlv 0x06 (fun t => "expected OID tag 0x06, got 0x" +++ hex02 t) "truncated OID".

Definition parse_der_octet_string : bytes -> outcome DerError (bytes * bytes) :=
  parse_tlv 0x04 (fun t => "expected OCTET STRING tag 0x04, got 0x" +++ hex02 t)
    "truncated OCTET STRING".

Definition parse_der_bit_string : bytes -> outcome DerError (bytes * bytes) :=
  parse_tlv 0x03 (fun t => "expected BIT STRING tag 0x03, got 0x" +++ hex02 t)
    "truncated BIT STRING".

Definition read_bytes (data : bytes) (n : Z) : outcome DerError (bytes * bytes) :=
  guard (len data <? n)
    (ParseError ("need " +++ dec n +++ " bytes, got " +++ dec (len data))) (
  rest <- slice_from data n ;;
  consumed <- slice_to data n ;;
  Ok (rest, consumed)).

Definition read_u16 (data : bytes) : outcome DerError (bytes * Z) :=
  guard (len data <? 2) (ParseError "need 2 bytes for u16") (
  b0 <- index data 0 ;; b1 <- index data 1 ;;
  rest <- slice_from data 2 ;;
  Ok (rest, from_be [b0; b1])).

Definition read_u32 (data : bytes) : outcome DerError (bytes * Z) :=
  guard (len data <? 4) (ParseError "need 4 bytes for u32") (
  b0 <- index data 0 ;; b1 <- index data 1 ;; b2 <- index data 2 ;; b3 <- index data 3 ;;
  rest <- slice_from data 4 ;;
  Ok (rest, from_be [b0; b1; b2; b3])).

(** ** Length fields *)

Lemma index_cons {E A} (x : A) l i : 0 <= i -> index (E:=E) (x :: l) (1 + i) = index l i.
Proof.
  intros. unfold index.
  destruct (Z.ltb_spec (1 + i) 0), (Z.ltb_spec i 0); try lia.
  replace (Z.to_nat (1 + i)) with (S (Z.to_nat i)) by lia. reflexivity.
Qed.

(** The loop reads its bytes as a big-endian integer. *)
Lemma der_length_loop_spec x pre l rest acc :
  wf_bytes l = true -> 0 <= acc -> acc * 256 ^ len l + from_be l < 2 ^ 64 ->
  der_length_loop (x :: pre ++ l ++ rest) (len pre) (List.length l) acc
  = Ok (acc * 256 ^ len l + from_be l).
Proof.
  revert pre acc; induction l as [|b l IH]; intros pre acc W A B; cbn [List.length der_length_loop].
  - f_equal. rewrite len_nil. unfold from_be; cbn [from_be_acc]. lia.
  - rewrite wf_bytes_cons in W. apply andb_true_iff in W as [Wb W].
    apply is_byte_iff in Wb. pose proof (from_be_bound l W).
    rewrite from_be_cons, len_cons in *.
    rewrite Z.pow_add_r in * by (pose proof (len_nonneg l); lia).
    change (256 ^ 1) with 256 in *.
    assert (0 < 256 ^ len l) by (apply Z.pow_pos_nonneg; [lia|apply len_nonneg]).
    rewrite index_cons by apply len_nonneg.
    cbn [app]. rewrite index_app by reflexivity. cbn [bind].
    assert (acc * 256 < 2 ^ 64) by nia.
    unfold as_u64. rewrite Z.mod_small, lor_shiftl_add
      by (rewrite ?Z.shiftl_mul_pow2 by lia; lia).
    replace (len pre + 1) with (len (pre ++ [b])) by (rewrite len_app; reflexivity).
    replace (x :: pre ++ b :: l ++ rest) with (x :: (pre ++ [b]) ++ l ++ rest)
      by now rewrite <- app_assoc.
    rewrite IH; [f_equal; ring|assumption|lia|nia].
Qed.

Lemma parse_der_length_long k l rest :
  1 <= k <= 4 -> len l = k -> wf_bytes l = true ->
  parse_der_length ((0x80 + k) :: l ++ rest) = Ok (rest, from_be l).
Proof.
  intros K L W. unfold parse_der_length, guard.
  replace (len ((0x80 + k) :: l ++ rest) =? 0) with false
    by (symmetry; apply Z.eqb_neq; len_lia).
  change (index ((0x80 + k) :: l ++ rest) 0) with (@Ok DerError Z (0x80 + k)). cbn [bind].
  destruct (Z.ltb_spec (128 + k) 128); [lia|].
  assert (E : Z.land (128 + k) 127 = k)
    by (change 127 with (Z.ones 7); rewrite Z.land_ones by lia; change (2 ^ 7) with 128;
        replace (128 + k) with (k + 1 * 128) by lia;
        rewrite Z.mod_add by lia; apply Z.mod_small; lia).
  rewrite E.
  destruct (Z.eqb_spec k 0), (Z.ltb_spec 4 k); try lia. cbn [orb].
  destruct (Z.ltb_spec (len ((128 + k) :: l ++ rest)) (1 + k)); [len_lia|].
  replace (Z.to_nat k) with (List.length l) by (unfold len in L; lia).
  pose proof (from_be_bound l W) as F.
  assert (256 ^ len l <= 256 ^ 4) by (apply Z.pow_le_mono_r; lia).
  pose proof (der_length_loop_spec (128 + k) [] l rest 0 W) as Loop.
  change (len (@nil Z)) with 0 in Loop. cbn [app] in Loop. rewrite Loop by lia. cbn [bind].
  replace ((128 + k) :: l ++ rest) with (((128 + k) :: l) ++ rest) by reflexivity.
  rewrite slice_from_app by len_lia. reflexivity.
Qed.

Lemma parse_der_length_short n rest :
  0 <= n < 0x80 -> parse_der_length (n :: rest) = Ok (rest, n).
Proof.
  intros. unfold parse_der_length, guard.
  replace (len (n :: rest) =? 0) with false by (symmetry; apply Z.eqb_neq; len_lia).
  change (index (n :: rest) 0) with (@Ok DerError Z n). cbn [bind].
  destruct (Z.ltb_spec n 128); [|lia].
  change (n :: rest) with ([n] ++ rest). rewrite slice_from_app by reflexivity. reflexivity.
Qed.

(** The length field holds the low 32 bits of the length. *)
Lemma parse_der_len n rest :
  0 <= n -> parse_der_length (der_len n ++ rest) = Ok (rest, n mod 2 ^ 32).
Proof.
  intros N. unfold der_len.
  assert (Long : forall k : nat, (1 <= k <= 4)%nat -> n mod 256 ^ Z.of_nat k = n mod 2 ^ 32 ->
     parse_der_length (((0x80 + Z.of_nat k) :: be_bytes k n) ++ rest) = Ok (rest, n mod 2 ^ 32)).
  { intros k K M. cbn [app]. rewrite parse_der_length_long;
      [now rewrite from_be_bytes, M | lia | apply len_be_bytes | apply wf_be_bytes]. }
  repeat case_cmp.
  - cbn [app]. rewrite as_u8_small, Z.mod_small by lia. apply parse_der_length_short. lia.
  - apply (Long 1%nat); [lia|]. change (256 ^ Z.of_nat 1) with 256. rewrite !Z.mod_small; lia.
  - apply (Long 2%nat); [lia|]. change (256 ^ Z.of_nat 2) with 65536. rewrite !Z.mod_small; lia.
  - apply (Long 3%nat); [lia|]. change (256 ^ Z.of_nat 3) with 16777216. rewrite !Z.mod_small; lia.
  - apply (Long 4%nat); [lia|reflexivity].
Qed.

Lemma parse_der_len_small n rest :
  0 <= n < 2 ^ 32 -> parse_der_length (der_len n ++ rest) = Ok (rest, n).
Proof. intros. rewrite parse_der_len, Z.mod_small by lia. reflexivity. Qed.

(** ** Tag-length-value *)

Lemma parse_tlv_encoded tag bad trunc contents rest :
  len contents < 2 ^ 32 ->
  parse_tlv tag bad trunc (([tag] ++ der_len (len contents) ++ contents) ++ rest)
  = Ok (rest, contents).
Proof.
  intros L. unfold parse_tlv, guard. rewrite <- !app_assoc. cbn [app].
  set (tl := der_len (len contents) ++ contents ++ rest).
  replace (len (tag :: tl) =? 0) with false by (symmetry; apply Z.eqb_neq; len_lia).
  change (index (tag :: tl) 0) with (@Ok DerError Z tag). cbn [bind].
  rewrite Z.eqb_refl. cbn [negb].
  change (tag :: tl) with ([tag] ++ tl). rewrite slice_from_app by reflexivity. cbn [bind].
  unfold tl. rewrite parse_der_len_small by len_lia. cbn [bind].
  destruct (Z.ltb_spec (len (contents ++ rest)) (len contents)); [len_lia|].
  rewrite slice_from_app, slice_to_app by reflexivity. reflexivity.
Qed.

Lemma der_length_loop_no_panic data i n acc :
  0 <= i -> 1 + i + Z.of_nat n <= len data -> wf_bytes data = true -> 0 <= acc ->
  exists v, der_length_loop data i n acc = Ok v /\ 0 <= v.
Proof.
  revert i acc; induction n; intros i acc I L W A; cbn [der_length_loop]; [eauto|].
  destruct (@index_in DerError _ data (1 + i) ltac:(lia)) as (b & -> & Hb).
  cbn [bind]. apply IHn; try lia; try assumption.
  apply Z.lor_nonneg; split; [apply Z.mod_pos_bound; lia|].
  unfold wf_bytes in W. rewrite forallb_forall in W. apply W, is_byte_iff in Hb. lia.
Qed.

Lemma parse_der_length_sound data :
  wf_bytes data = true ->
  no_panic (parse_der_length data) /\
  (forall rest n, parse_der_length data = Ok (rest, n) ->
     0 <= n /\ exists hdr, data = hdr ++ rest /\ 1 <= len hdr <= 5).
Proof.
  intros W. unfold parse_der_length, guard, no_panic.
  destruct (Z.eqb_spec (len data) 0); [now split|].
  destruct data as [|f data]; [now contradiction n|]. clear n.
  change (index (f :: data) 0) with (@Ok DerError Z f). cbn [bind].
  rewrite wf_bytes_cons in W. apply andb_true_iff in W as [F%is_byte_iff W].
  destruct (Z.ltb_spec f 0x80).
  - change (f :: data) with ([f] ++ data). rewrite slice_from_app by reflexivity. cbn [bind].
    split; [discriminate|]. intros rest n [= <- <-]. split; [lia|]. exists [f]. split; [reflexivity|len_lia].
  - set (k := Z.land f 127).
    destruct (Z.eqb_spec k 0), (Z.ltb_spec 4 k); cbn [orb]; try (now split).
    assert (0 <= k) by (apply Z.land_nonneg; lia).
    destruct (Z.ltb_spec (len (f :: data)) (1 + k)); [now split|].
    destruct (der_length_loop_no_panic (f :: data) 0 (Z.to_nat k) 0) as (v & -> & V);
      try lia; [rewrite wf_bytes_cons, W, andb_true_r; now apply is_byte_iff|].
    cbn [bind]. rewrite slice_from_ok by lia. cbn [bind].
    split; [discriminate|]. intros rest m [= <- <-]. split; [assumption|].
    exists (firstn (Z.to_nat (1 + k)) (f :: data)). split.
    + now rewrite firstn_skipn.
    + rewrite len_firstn by lia. lia.
Qed.

(** A tag parser never panics, and what it returns is a split of its input
    into a header that starts with the tag, the contents and the rest. *)
Lemma parse_tlv_sound tag bad trunc data :
  wf_bytes data = true ->
  no_panic (parse_tlv tag bad trunc data) /\
  (forall rest contents, parse_tlv tag bad trunc data = Ok (rest, contents) ->
     exists hdr, data = (tag :: hdr) ++ contents ++ rest /\ 1 <= len hdr <= 5).
Proof.
  intros W. unfold parse_tlv, guard, no_panic.
  destruct (Z.eqb_spec (len data) 0); [now split|].
  destruct data as [|t data]; [now contradiction n|]. clear n.
  change (index (t :: data) 0) with (@Ok DerError Z t). cbn [bind].
  rewrite wf_bytes_cons in W. apply andb_true_iff in W as [_ W].
  destruct (Z.eqb_spec t tag) as [->|]; cbn [negb]; [|now split].
  change (tag :: data) with ([tag] ++ data). rewrite slice_from_app by reflexivity. cbn [bind].
  destruct (parse_der_length_sound data W) as [NP SP].
  destruct (parse_der_length data) as [[rem n]|e|] eqn:P; cbn [bind]; [|now split|now contradiction NP].
  destruct (SP rem n eq_refl) as (Hn & hdr & -> & Hh).
  destruct (Z.ltb_spec (len rem) n); [now split|].
  rewrite slice_from_ok, slice_to_ok by lia. cbn [bind].
  split; [discriminate|]. intros rest contents [= <- <-].
  exists hdr. split; [|lia]. cbn [app]. now rewrite firstn_skipn.
Qed.

Lemma fold_app_concat (items : list bytes) acc :
  fold_left (fun v item => v ++ item) items acc = acc ++ List.concat items.
Proof.
  revert acc; induction items; intros; cbn [fold_left List.concat].
  - now rewrite app_nil_r.
  - rewrite IHitems. now rewrite app_assoc.
Qed.

Lemma sum_len_concat items : sum_len items = len (List.concat items).
Proof.
  unfold sum_len.
  assert (G : forall acc, fold_left Z.add (map len items) acc = acc + len (List.concat items)).
  { induction items; intros; cbn [map fold_left List.concat].
    - rewrite len_nil. lia.
    - rewrite IHitems, len_app. lia. }
  apply G.
Qed.

(** ** The properties of the crate *)

(** Every [der_len] length field below [2^32] parses back to the length it
    encodes, and the bytes after it are returned untouched. *)
Theorem der_len_roundtrip (n : Z) (rest : bytes) :
  0 <= n < 2 ^ 32 -> parse_der_length (der_len n ++ rest) = Ok (rest, n).
Proof. apply parse_der_len_small. Qed.

Lemma der_len_roundtrip_witness :
  parse_der_length (der_len 70000 ++ [7; 8]) = Ok ([7; 8], 70000).
Proof. apply (der_len_roundtrip 70000 [7; 8]). lia. Defined.

(** Each tag encoder is inverted by its parser: SEQUENCE (from contents and
    from items), INTEGER contents, OID, OCTET STRING, BIT STRING (with its
    unused-bits byte) and EXPLICIT context tags, followed by any bytes. *)
Theorem der_tlv_roundtrip (c : bytes) (items : list bytes) (tag : Z) (rest : bytes) :
  len c + 1 < 2 ^ 32 -> len (List.concat items) < 2 ^ 32 ->
  parse_der_sequence (der_sequence c ++ rest) = Ok (rest, c) /\
  parse_der_sequence (der_sequence_v items ++ rest) = Ok (rest, List.concat items) /\
  parse_der_oid (encode_oid c ++ rest) = Ok (rest, c) /\
  parse_der_octet_string (der_octet_string c ++ rest) = Ok (rest, c) /\
  parse_der_bit_string (der_bit_string c ++ rest) = Ok (rest, 0 :: c) /\
  parse_der_explicit (der_explicit_context tag c ++ rest) tag = Ok (rest, c).
Proof.
  intros Lc Li. unfold der_sequence_v. rewrite fold_app_concat, sum_len_concat.
  rewrite <- (app_assoc [48] _ (List.concat items)).
  do 4 (split; [apply parse_tlv_encoded; lia|]). split; [|apply parse_tlv_encoded; lia].
  unfold der_bit_string. replace (len c + 1) with (len (0 :: c)) by len_lia.
  apply (parse_tlv_encoded 3 _ _ (0 :: c)). len_lia.
Qed.

Lemma der_tlv_roundtrip_witness :
  parse_der_bit_string (der_bit_string [5; 6] ++ [9]) = Ok ([9], [0; 5; 6]) /\
  parse_der_sequence (der_sequence_v [[1]; [2; 3]] ++ [9]) = Ok ([9], [1; 2; 3]).
Proof.
  destruct (der_tlv_roundtrip [5; 6] [[1]; [2; 3]] 0 [9]) as (_ & S & _ & _ & B & _);
    [reflexivity|reflexivity|].
  exact (conj B S).
Defined.

(** C39. On any byte string no parser of the crate panics, and a successful
    parse splits the input: tag byte, a length field of one to five bytes,
    the returned contents, the returned rest. *)
Theorem der_parsers_safe (data : bytes) (tag : Z) :
  wf_bytes data = true ->
  Forall (fun '(t, parse) =>
      no_panic (parse data) /\
      forall rest contents, parse data = Ok (rest, contents) ->
        exists hdr, data = (t :: hdr) ++ contents ++ rest /\ 1 <= len hdr <= 5)
    [(0x30, parse_der_sequence); (Z.lor 0xA0 tag, fun d => parse_der_explicit d tag);
     (0x02, parse_der_integer); (0x06, parse_der_oid);
     (0x04, parse_der_octet_string); (0x03, parse_der_bit_string)].
Proof. intros W. repeat constructor; now apply parse_tlv_sound. Qed.

Lemma der_parsers_safe_witness :
  exists hdr, [0x30; 0x81; 1; 7; 9] = (0x30 :: hdr) ++ [7] ++ [9].
Proof.
  pose proof (der_parsers_safe [0x30; 0x81; 1; 7; 9] 0 eq_refl) as H.
  apply Forall_inv in H. destruct H as [_ H0]. destruct (H0 [9] [7] eq_refl) as (hdr & E & _).
  exists hdr. exact E.
Defined.

(** The value of DER INTEGER contents, a two's complement big-endian number. *)
Definition der_integer_value (c : bytes) : Z :=
  from_be c - (match c with b :: _ => if 0x80 <=? b then 256 ^ len c else 0 | [] => 0 end).

(** [der_integer_positive] encodes the unsigned value of its bytes: the
    contents its parser returns denote, as a signed INTEGER, exactly that
    value, so no magnitude is read back negative. *)
Theorem der_integer_positive_value (bs rest : bytes) :
  wf_bytes bs = true -> len bs + 1 < 2 ^ 32 ->
  exists c, parse_der_integer (der_integer_positive bs ++ rest) = Ok (rest, c)
            /\ der_integer_value c = from_be bs.
Proof.
  intros W L. unfold der_integer_positive, parse_der_integer.
  set (c := match bs with [] => bs | b :: _ => if 128 <=? b then 0 :: bs else bs end).
  exists c. split.
  - apply parse_tlv_encoded. subst c. destruct bs; [len_lia|]. case_cmp; len_lia.
  - subst c. unfold der_integer_value. destruct bs as [|b l]; [reflexivity|].
    destruct (Z.leb_spec 128 b).
    + rewrite from_be_cons. cbn [Z.leb Z.compare]. lia.
    + destruct (Z.leb_spec 128 b); lia.
Qed.

Lemma der_integer_positive_value_witness :
  exists c, parse_der_integer (der_integer_positive [0x80; 1] ++ [5]) = Ok ([5], c)
            /\ der_integer_value c = 32769.
Proof. apply (der_integer_positive_value [0x80; 1] [5]); [reflexivity|vm_compute; reflexivity]. Defined.

(** The fixed-width readers invert the big-endian writers and fail exactly
    on short input: [read_u16] inverts [der_len_u16], [read_u32] a four-byte
    big-endian value, [read_bytes] returns the prefix it is asked for. *)
Theorem der_readers_roundtrip (n m : Z) (c rest : bytes) :
  0 <= n < 2 ^ 16 -> 0 <= m < 2 ^ 32 ->
  read_u16 (der_len_u16 n ++ rest) = Ok (rest, n) /\
  read_u32 (be_bytes 4 m ++ rest) = Ok (rest, m) /\
  read_bytes (c ++ rest) (len c) = Ok (rest, c) /\
  (exists e, read_bytes c (len c + 1) = Err e).
Proof.
  intros N M. repeat split.
  - change (der_len_u16 n) with (be_bytes 2 n). unfold read_u16, guard.
    destruct (Z.ltb_spec (len (be_bytes 2 n ++ rest)) 2); [len_lia|].
    rewrite slice_from_app by (now rewrite len_be_bytes).
    change (Ok (E:=DerError) (rest, from_be (be_bytes 2 n)) = Ok (rest, n)).
    rewrite from_be_bytes_small by (cbn; lia). reflexivity.
  - unfold read_u32, guard.
    destruct (Z.ltb_spec (len (be_bytes 4 m ++ rest)) 4); [len_lia|].
    rewrite slice_from_app by (now rewrite len_be_bytes).
    change (Ok (E:=DerError) (rest, from_be (be_bytes 4 m)) = Ok (rest, m)).
    rewrite from_be_bytes_small by (cbn; lia). reflexivity.
  - unfold read_bytes, guard. destruct (Z.ltb_spec (len (c ++ rest)) (len c)); [len_lia|].
    rewrite slice_from_app, slice_to_app by reflexivity. reflexivity.
  - unfold read_bytes, guard. destruct (Z.ltb_spec (len c) (len c + 1)); [eauto|lia].
Qed.

Lemma der_readers_roundtrip_witness : read_u16 (der_len_u16 513 ++ [1]) = Ok ([1], 513).
Proof. apply (der_readers_roundtrip 513 0 [] [1]); lia. Defined.

(** Above [2^32 - 1] the length field is truncated: only the low 32 bits of
    the length are encoded, so such a field parses to a different length. *)
Theorem der_len_truncates (n : Z) (rest : bytes) :
  2 ^ 32 <= n < 2 ^ 64 ->
  parse_der_length (der_len n ++ rest) = Ok (rest, n mod 2 ^ 32) /\ n mod 2 ^ 32 <> n.
Proof.
  intros N. split; [apply parse_der_len; lia|].
  pose proof (Z.mod_pos_bound n (2 ^ 32)). lia.
Qed.

Lemma der_len_truncates_witness :
  parse_der_length (der_len (2 ^ 32 + 3) ++ []) = Ok ([], 3).
Proof. exact (proj1 (der_len_truncates (2 ^ 32 + 3) [] ltac:(lia))). Defined.
