(* ===== verification/Z256.v ===== *)
(** * 256-bit integers in four 64-bit limbs (module [arith::z256] of [gm-sm9-rs])

    [gm-sm9-rs/src/arith/z256.rs]: a [Z256] is an array of four [u64] limbs,
    least significant first, here a list whose well-formedness ([wf256]) fixes
    the length and the limb range. Array writes are [upd], [for] loops are
    [for_range], the [loop]s of the schoolbook division and the [while] of
    [modmul] are [iter_loop] with a binary fuel, and a [debug_assert!] or a
    division by zero is a [Panic]. The meaning of an array is the integer
    [eval]; the theorems relate every operation to integer arithmetic. *)

From Stdlib Require Import ZArith List Lia Bool.
From S2P Require Import Prelude.
Import ListNotations.
Local Open Scope Z_scope.

Abbreviation Z256 := (list Z).

Definition limb (a : list Z) (i : nat) : Z := nth i a 0.

Fixpoint upd (i : nat) (x : Z) (l : list Z) : list Z :=
  match i, l with
  | _, [] => []
  | O, _ :: t => x :: t
  | S i', h :: t => h :: upd i' x t
  end.

(** The integer an array of limbs stands for. *)
Fixpoint eval (l : list Z) : Z :=
  match l with
  | [] => 0
  | x :: t => x + 2 ^ 64 * eval t
  end.

Definition is_u64 (x : Z) : bool := (0 <=? x) && (x <? 2 ^ 64).
Definition wf_limbs (n : nat) (l : list Z) : Prop :=
  List.length l = n /\ Forall (fun x => 0 <= x < 2 ^ 64) l.
Definition wf256 (a : Z256) : bool :=
  Nat.eqb (List.length a) 4 && forallb is_u64 a.

(** ** Constants *)

Definition ZERO : Z256 := [0; 0; 0; 0].
Definition ONE : Z256 := [1; 0; 0; 0].

Definition P : Z256 :=
  [0xE56F9B27E351457D; 0x21F2934B1A7AEEDB; 0xD603AB4FF58EC745; 0xB640000002A3A6F1].
Definition N : Z256 :=
  [0xE56EE19CD69ECF25; 0x49F2934B18EA8BEE; 0xD603AB4FF58EC744; 0xB640000002A3A6F1].
Definition MU_N_LOW : Z256 :=
  [0x74DF4FD4DFC97C2F; 0x9C95D85EC9C073B0; 0x55F73AEBDCD1312C; 0x67980E0BEB5759A6].
Definition MU_P_LOW : Z256 :=
  [0x71188F90D5C22146; 0xF2665F6D1E36081C; 0x55F73AEBDCD1312A; 0x67980E0BEB5759A6].

(** ** Predicates and bit access *)

Definition is_zero (a : Z256) : bool :=
  (limb a 0 =? 0) && (limb a 1 =? 0) && (limb a 2 =? 0) && (limb a 3 =? 0).

Definition is_one (a : Z256) : bool :=
  (limb a 0 =? 1) && (limb a 1 =? 0) && (limb a 2 =? 0) && (limb a 3 =? 0).

Definition bit (a : Z256) (n : Z) : bool :=
  let l := n / 64 in
  let b := n mod 64 in
  if l <? 4 then Z.land (Z.shiftr (limb a (Z.to_nat l)) b) 1 =? 1 else false.

Definition ct_bit (a : Z256) (n : Z) : bool :=
  let l := n / 64 in
  let b := n mod 64 in
  if l <? 4 then
    let bit_val := Z.land (Z.shiftr (limb a (Z.to_nat l)) b) 1 in
    negb (as_u8 bit_val =? 0)
  else false.

(** [u64::leading_zeros]. *)
Definition leading_zeros (x : Z) : Z := if x =? 0 then 64 else 63 - Z.log2 x.

Fixpoint bits_from (n : nat) (a : Z256) : Z :=
  match n with
  | O => 0
  | S i => if negb (limb a i =? 0)
           then Z.of_nat i * 64 + (64 - leading_zeros (limb a i))
           else bits_from i a
  end.
Definition bits (a : Z256) : Z := bits_from 4 a.

Definition shr1 (a : Z256) : Z256 :=
  let f i := Z.lor (Z.shiftr (limb a i) 1) (as_u64 (Z.shiftl (Z.land (limb a (i + 1)) 1) 63)) in
  [f 0%nat; f 1%nat; f 2%nat; Z.shiftr (limb a 3) 1].

Definition z256_eq (a b : Z256) : bool :=
  (limb a 0 =? limb b 0) && (limb a 1 =? limb b 1) &&
  (limb a 2 =? limb b 2) && (limb a 3 =? limb b 3).

Definition ct_eq (a b : Z256) : bool :=
  let diff0 := Z.lxor (limb a 0) (limb b 0) in
  let diff1 := Z.lxor (limb a 1) (limb b 1) in
  let diff2 := Z.lxor (limb a 2) (limb b 2) in
  let diff3 := Z.lxor (limb a 3) (limb b 3) in
  Z.lor (Z.lor (Z.lor diff0 diff1) diff2) diff3 =? 0.

Definition ct_is_zero (a : Z256) : bool := ct_eq a ZERO.

(** [ConditionallySelectable::conditional_select] on limbs: [b] when the
    choice is set. *)
Definition select_choice (a b : Z256) (choice : bool) : Z256 :=
  let s i := if choice then limb b i else limb a i in
  [s 0%nat; s 1%nat; s 2%nat; s 3%nat].

(** ** Addition, subtraction, multiplication *)

Definition add_step (a b : Z256) (i : nat) (s : Z256 * Z) : Z256 * Z :=
  let '(r, carry) := s in
  let '(sum1, c1) := overflowing_add (limb a i) (limb b i) in
  let '(sum2, c2) := overflowing_add sum1 carry in
  (upd i sum2 r, if c1 || c2 then 1 else 0).

Definition add_with_carry (a b : Z256) : Z256 * Z :=
  for_range 4 (add_step a b) (ZERO, 0).

Definition sub_step (a b : list Z) (i : nat) (s : list Z * Z) : list Z * Z :=
  let '(r, borrow) := s in
  let '(diff1, b1) := overflowing_sub (limb a i) (limb b i) in
  let '(diff2, b2) := overflowing_sub diff1 borrow in
  (upd i diff2 r, if b1 || b2 then 1 else 0).

Definition sub_with_borrow (a b : Z256) : Z256 * Z :=
  for_range 4 (sub_step a b) (ZERO, 0).

Definition mul64 (a b : Z) : Z * Z :=
  let prod := a * b in
  (as_u64 prod, as_u64 (Z.shiftr prod 64)).

(** The body of the inner loops: [t[k] += x * y + carry]. *)
Definition mac_step (x y : Z) (k : nat) (s : list Z * Z) : list Z * Z :=
  let '(t, carry) := s in
  let '(prod, c) := mul64 x y in
  let '(sum1, c1) := overflowing_add (limb t k) prod in
  let '(sum2, c2) := overflowing_add sum1 carry in
  (upd k sum2 t, as_u64 (c + Z.b2z c1 + Z.b2z c2)).

Definition mul_row (x : Z) (b : Z256) (i : nat) (t : list Z) : list Z * Z :=
  for_range 4 (fun j => mac_step x (limb b j) (i + j)) (t, 0).

Definition mul_wide_step (a b : Z256) (i : nat) (t : list Z) : list Z :=
  let '(t', carry) := mul_row (limb a i) b i t in
  upd (i + 4) carry t'.

Definition mul_wide (a b : Z256) : Z256 * Z256 :=
  let t := for_range 4 (mul_wide_step a b) [0; 0; 0; 0; 0; 0; 0; 0] in
  ([limb t 0; limb t 1; limb t 2; limb t 3], [limb t 4; limb t 5; limb t 6; limb t 7]).

Fixpoint cmp_from (n : nat) (a b : list Z) : Z :=
  match n with
  | O => 0
  | S i => if limb b i <? limb a i then 1
           else if limb a i <? limb b i then -1
           else cmp_from i a b
  end.
Definition cmp (a b : Z256) : Z := cmp_from 4 a b.

(** ** Masked selection *)

Definition mask_of (choice : Z) : Z := if negb (choice =? 0) then u64_max else 0.
Definition not64 (x : Z) : Z := Z.lxor x u64_max.

Definition conditional_select (a b : Z256) (choice : Z) : Z256 :=
  let mask := mask_of choice in
  let s i := Z.lor (Z.land (limb a i) (not64 mask)) (Z.land (limb b i) mask) in
  [s 0%nat; s 1%nat; s 2%nat; s 3%nat].

Definition cswap (a b : Z256) (swap : Z) : Z256 * Z256 :=
  let mask := mask_of swap in
  for_range 4 (fun i '(a, b) =>
    let t := Z.land (Z.lxor (limb a i) (limb b i)) mask in
    (upd i (Z.lxor (limb a i) t) a, upd i (Z.lxor (limb b i) t) b)) (a, b).

Definition ccopy (dst src : Z256) (copy : Z) : Z256 :=
  let mask := mask_of copy in
  for_range 4 (fun i dst =>
    upd i (Z.lor (Z.land (limb dst i) (not64 mask)) (Z.land (limb src i) mask)) dst) dst.

(** ** Bytes *)

Definition from_bytes_be (bs : bytes) : option Z256 :=
  if 32 <? len bs then None
  else
    let padded := repeat 0 (32 - List.length bs) ++ bs in
    let word a := from_be (firstn 8 (skipn a padded)) in
    Some [word 24%nat; word 16%nat; word 8%nat; word 0%nat].

Definition to_bytes_be (a : Z256) : bytes :=
  be_bytes 8 (limb a 3) ++ be_bytes 8 (limb a 2) ++ be_bytes 8 (limb a 1) ++ be_bytes 8 (limb a 0).

(** ** Loops with a binary fuel: at most [2^n] iterations *)

Fixpoint iter_loop {S R : Type} (n : nat) (step : S -> S + R) (s : S) : S + R :=
  match n with
  | O => step s
  | Datatypes.S n' =>
      match iter_loop n' step s with
      | inl s' => iter_loop n' step s'
      | inr r => inr r
      end
  end.

(** ** Reduction modulo [m] *)

(** The comparisons by scanning limbs from the top. *)
Fixpoint scan_lt (n : nat) (rem m : list Z) (is_lt : bool) : bool :=
  match n with
  | O => is_lt
  | S i => if limb rem i <? limb m i then true
           else if limb m i <? limb rem i then is_lt
           else scan_lt i rem m is_lt
  end.

Fixpoint scan_ge (n : nat) (rem qm : list Z) : bool :=
  match n with
  | O => true
  | S i => if limb qm i <? limb rem i then true
           else if limb rem i <? limb qm i then false
           else scan_ge i rem qm
  end.

(** [rem[i] -= b[i]] with borrow. *)
Definition sub_in_place_step (b : list Z) (i : nat) (s : list Z * Z) : list Z * Z :=
  let '(rem, borrow) := s in
  let '(d1, b1) := overflowing_sub (limb rem i) (limb b i) in
  let '(d2, b2) := overflowing_sub d1 borrow in
  (upd i d2 rem, if b1 || b2 then 1 else 0).

(** [q * m] in five limbs, through [u128] products. *)
Definition mul_small (q : Z) (m : Z256) : list Z :=
  let '(qm, carry) :=
    for_range 4 (fun i '(qm, carry) =>
      let prod := q * limb m i + carry in
      (upd i (as_u64 prod) qm, Z.shiftr prod 64)) ([0; 0; 0; 0; 0], 0) in
  upd 4 (as_u64 carry) qm.

(** First [loop]: lower the quotient estimate until [q * m <= rem]. *)
Definition quotient_step (m : Z256) (s : Z * list Z) : (Z * list Z) + list Z :=
  let '(q, rem) := s in
  let qm := mul_small q m in
  if scan_ge 5 rem qm then inr (fst (for_range 5 (sub_in_place_step qm) (rem, 0)))
  else
    let q' := q - 1 in
    if q' =? 0 then inr rem else inl (q', rem).

(** Second [loop]: subtract [m] while [rem >= m]. *)
Definition correct_step (m : Z256) (rem : list Z) : list Z + list Z :=
  let is_ge :=
    if 0 <? limb rem 4 then true
    else if limb m 3 <=? limb rem 3 then scan_ge 4 rem m else false in
  if negb is_ge then inr rem
  else inl (fst (for_range 5 (sub_in_place_step m) (rem, 0))).

(** One iteration of [for limb in limbs.iter()]; [None] is the division by
    zero of a modulus whose top limb is zero. *)
Definition schoolbook_step (m : Z256) (rem : list Z) (x : Z) : option (list Z) :=
  let rem := [x; limb rem 0; limb rem 1; limb rem 2; limb rem 3] in
  let is_lt :=
    if limb rem 4 =? 0 then
      let is_lt := limb rem 3 <? limb m 3 in
      if limb rem 3 =? limb m 3 then scan_lt 3 rem m is_lt else is_lt
    else false in
  if is_lt then Some rem
  else if limb m 3 =? 0 then None
  else
    let q_est :=
      if 0 <? limb rem 4
      then Z.lor (Z.shiftl (limb rem 4) 64) (limb rem 3) / limb m 3
      else limb rem 3 / limb m 3 in
    let q := if u64_max <? q_est then u64_max else as_u64 q_est in
    match iter_loop 64 (quotient_step m) (q, rem) with
    | inr rem =>
        match iter_loop 64 (correct_step m) rem with
        | inr rem => Some rem
        | inl _ => None
        end
    | inl _ => None
    end.

Definition mod_reduce_512_schoolbook (low high m : Z256) : option Z256 :=
  let limbs := [limb high 3; limb high 2; limb high 1; limb high 0;
                limb low 3; limb low 2; limb low 1; limb low 0] in
  match fold_left (fun o x => match o with Some rem => schoolbook_step m rem x | None => None end)
          limbs (Some [0; 0; 0; 0; 0]) with
  | Some rem => Some [limb rem 0; limb rem 1; limb rem 2; limb rem 3]
  | None => None
  end.

(** The Barrett path of [mod_reduce_512], for a modulus whose constant
    [mu_low] is known; [None] is a failed [debug_assert!]. *)
Definition barrett_reduce (low high m mu_low : Z256) : option Z256 :=
  let '(hmu_lo, hmu_hi) := mul_wide high mu_low in
  let '(mid_lo, mid_carry) := add_with_carry hmu_lo low in
  let '(_, lmu_hi) := mul_wide low mu_low in
  let '(_, last_carry) := add_with_carry mid_lo lmu_hi in
  let '(q_lo, carry1) := add_with_carry high hmu_hi in
  let '(q_lo, carry2) := add_with_carry q_lo [mid_carry; 0; 0; 0] in
  let '(q_lo, carry3) := add_with_carry q_lo [last_carry; 0; 0; 0] in
  let q_hi := carry1 + carry2 + carry3 in
  let '(qm_lo, qm_hi) := mul_wide q_lo m in
  let '(qm_hi_final, qm_overflow) :=
    if negb (q_hi =? 0) then add_with_carry qm_hi m else (qm_hi, 0) in
  if negb (qm_overflow =? 0) then None else
  let '(r_lo, borrow1) := sub_with_borrow low qm_lo in
  let '(r_hi, borrow2) := sub_with_borrow high qm_hi_final in
  let '(r_hi, borrow3) := sub_with_borrow r_hi [borrow1; 0; 0; 0] in
  let total_borrow := borrow2 + borrow3 in
  let '(r_hi, r_lo) :=
    if negb (total_borrow =? 0) then
      let '(sum_lo, carry) := add_with_carry r_lo m in
      let '(sum_hi, _) := add_with_carry r_hi [carry; 0; 0; 0] in
      (sum_hi, sum_lo)
    else (r_hi, r_lo) in
  let r_ge_m := negb (is_zero r_hi) || (0 <=? cmp r_lo m) in
  if r_ge_m then
    let '(diff_lo, borrow) := sub_with_borrow r_lo m in
    let '(diff_hi, _) := sub_with_borrow r_hi [borrow; 0; 0; 0] in
    if negb (is_zero diff_hi) then None else Some diff_lo
  else Some r_lo.

Definition mod_reduce_512 (low high m : Z256) : option Z256 :=
  if z256_eq m N then barrett_reduce low high m MU_N_LOW
  else if z256_eq m P then barrett_reduce low high m MU_P_LOW
  else mod_reduce_512_schoolbook low high m.

(** The [while cmp(&result, m) >= 0] of [modmul]. *)
Definition modmul_step (m : Z256) (result : Z256) : Z256 + Z256 :=
  if 0 <=? cmp result m then
    let '(diff, borrow) := sub_with_borrow result m in
    if borrow =? 0 then inl diff else inr result
  else inr result.

Definition modmul (a b m : Z256) : option Z256 :=
  let '(low, high) := mul_wide a b in
  if is_zero high then
    match iter_loop 256 (modmul_step m) low with
    | inr result => Some result
    | inl _ => None
    end
  else mod_reduce_512 low high m.

Definition double_mod_step (m : Z256) (r : Z256) : Z256 :=
  let '(r_doubled, carry) := add_with_carry r r in
  if negb (carry =? 0) || (0 <=? cmp r_doubled m)
  then fst (sub_with_borrow r_doubled m)
  else r_doubled.

Definition compute_2_256_mod_m (m : Z256) : Z256 :=
  for_range 256 (fun _ r => double_mod_step m r) ONE.

Definition sub_mod (a b m : Z256) : Z256 :=
  let '(diff, borrow) := sub_with_borrow a b in
  if negb (borrow =? 0) then fst (add_with_carry diff m) else diff.

(** ** Limb arrays *)

Lemma length_upd i x l : List.length (upd i x l) = List.length l.
Proof. revert i; induction l; destruct i; cbn; auto. Qed.

Lemma limb_upd_eq i x l : (i < List.length l)%nat -> limb (upd i x l) i = x.
Proof.
  unfold limb. revert i; induction l; destruct i; cbn; intros; try lia; auto.
  apply IHl. lia.
Qed.

Lemma limb_upd_ne i j x l : i <> j -> limb (upd i x l) j = limb l j.
Proof.
  unfold limb. revert i j; induction l; destruct i, j; cbn; intros; try congruence; auto.
Qed.

Lemma eval_upd i x l :
  (i < List.length l)%nat -> eval (upd i x l) = eval l + (x - limb l i) * 2 ^ (64 * Z.of_nat i).
Proof.
  unfold limb. revert i; induction l as [|h l IH]; destruct i; cbn [upd eval nth List.length]; intros; try lia.
  rewrite IH by lia.
  replace (64 * Z.of_nat (S i)) with (64 + 64 * Z.of_nat i) by lia.
  rewrite Z.pow_add_r by lia. lia.
Qed.

Lemma Forall_upd (Q : Z -> Prop) i x l : Forall Q l -> Q x -> Forall Q (upd i x l).
Proof. intros H; revert i; induction H; destruct i; cbn; constructor; auto. Qed.

Lemma limb_range l i : Forall (fun x => 0 <= x < 2 ^ 64) l -> 0 <= limb l i < 2 ^ 64.
Proof.
  intros F. unfold limb. destruct (Nat.lt_ge_cases i (List.length l)).
  - rewrite Forall_forall in F. apply F, nth_In; assumption.
  - rewrite nth_overflow by assumption. lia.
Qed.

Lemma eval_firstn_S i l :
  eval (firstn (S i) l) = eval (firstn i l) + limb l i * 2 ^ (64 * Z.of_nat i).
Proof.
  unfold limb. revert i; induction l as [|h l IH]; intros i.
  - rewrite !firstn_nil. destruct i; cbn; lia.
  - destruct i.
    + cbn. lia.
    + change (firstn (S (S i)) (h :: l)) with (h :: firstn (S i) l).
      change (firstn (S i) (h :: l)) with (h :: firstn i l).
      cbn [eval nth]. rewrite IH.
      replace (64 * Z.of_nat (S i)) with (64 + 64 * Z.of_nat i) by lia.
      rewrite Z.pow_add_r by lia. lia.
Qed.

Lemma eval_bound l :
  Forall (fun x => 0 <= x < 2 ^ 64) l -> 0 <= eval l < 2 ^ (64 * len l).
Proof.
  induction 1 as [|x l X F IH]; [cbn; lia|].
  cbn [eval]. rewrite len_cons. rewrite Z.mul_add_distr_l, Z.pow_add_r
    by (pose proof (len_nonneg l); lia). nia.
Qed.

Lemma wf256_iff a : wf256 a = true <-> wf_limbs 4 a.
Proof.
  unfold wf256, wf_limbs. rewrite andb_true_iff, Nat.eqb_eq, forallb_forall, Forall_forall.
  split; intros [L F]; split; try assumption; intros x Hx; specialize (F x Hx);
    unfold is_u64 in *; rewrite ?andb_true_iff, ?Z.leb_le, ?Z.ltb_lt in *; lia.
Qed.

Lemma wf256_eval_bound a : wf_limbs 4 a -> 0 <= eval a < 2 ^ 256.
Proof.
  intros [L F]. apply eval_bound in F. unfold len in F. rewrite L in F. exact F.
Qed.

(** ** Carries *)

Lemma overflowing_add_spec x y :
  0 <= x < 2 ^ 64 -> 0 <= y < 2 ^ 64 ->
  0 <= fst (overflowing_add x y) < 2 ^ 64 /\
  fst (overflowing_add x y) + 2 ^ 64 * Z.b2z (snd (overflowing_add x y)) = x + y.
Proof.
  intros X Y. unfold overflowing_add, as_u64; cbn [fst snd].
  split; [apply Z.mod_pos_bound; lia|].
  destruct (Z.leb_spec (2 ^ 64) (x + y)); cbn [Z.b2z].
  - rewrite <- (Z.mod_unique (x + y) (2 ^ 64) 1 (x + y - 2 ^ 64)); lia.
  - rewrite Z.mod_small; lia.
Qed.

Lemma overflowing_sub_spec x y :
  0 <= x < 2 ^ 64 -> 0 <= y < 2 ^ 64 ->
  0 <= fst (overflowing_sub x y) < 2 ^ 64 /\
  fst (overflowing_sub x y) - 2 ^ 64 * Z.b2z (snd (overflowing_sub x y)) = x - y.
Proof.
  intros X Y. unfold overflowing_sub, as_u64; cbn [fst snd].
  split; [apply Z.mod_pos_bound; lia|].
  destruct (Z.ltb_spec x y); cbn [Z.b2z].
  - rewrite <- (Z.mod_unique (x - y) (2 ^ 64) (-1) (x - y + 2 ^ 64)); lia.
  - rewrite Z.mod_small; lia.
Qed.

(** Name the result and the flag of an overflowing operation, with its spec. *)
Ltac oflow :=
  match goal with
  | |- context [overflowing_add ?x ?y] =>
      let S := fresh "S" in
      pose proof (overflowing_add_spec x y) as S;
      destruct (overflowing_add x y) as [? []]; cbn [fst snd Z.b2z] in S
  | |- context [overflowing_sub ?x ?y] =>
      let S := fresh "S" in
      pose proof (overflowing_sub_spec x y) as S;
      destruct (overflowing_sub x y) as [? []]; cbn [fst snd Z.b2z] in S
  end.

Lemma mul64_spec x y :
  0 <= x < 2 ^ 64 -> 0 <= y < 2 ^ 64 ->
  let '(lo, hi) := mul64 x y in
  0 <= lo < 2 ^ 64 /\ 0 <= hi < 2 ^ 64 /\ lo + 2 ^ 64 * hi = x * y.
Proof.
  intros X Y. unfold mul64, as_u64.
  assert (0 <= x * y < 2 ^ 64 * 2 ^ 64) by nia.
  rewrite Z.shiftr_div_pow2 by lia.
  rewrite (Z.mod_small (x * y / 2 ^ 64))
    by (split; [apply Z.div_pos; lia | apply Z.div_lt_upper_bound; lia]).
  pose proof (Z.mod_pos_bound (x * y) (2 ^ 64)). pose proof (Z.div_mod (x * y) (2 ^ 64)).
  pose proof (Z.div_lt_upper_bound (x * y) (2 ^ 64) (2 ^ 64)).
  pose proof (Z.div_pos (x * y) (2 ^ 64)). lia.
Qed.

(** A limb array in which [x] replaced a limb, by its value. *)
Lemma wf_upd n i x l : wf_limbs n l -> 0 <= x < 2 ^ 64 -> wf_limbs n (upd i x l).
Proof.
  intros [L F] X. split; [now rewrite length_upd|]. now apply Forall_upd.
Qed.

Lemma wf_limb n l i : wf_limbs n l -> 0 <= limb l i < 2 ^ 64.
Proof. intros [_ F]. now apply limb_range. Qed.

Lemma firstn_wf n l : wf_limbs n l -> firstn n l = l.
Proof. intros [<- _]. apply firstn_all. Qed.

#[export] Hint Resolve wf_upd wf_limb : wf.

(** ** Addition and subtraction *)

Lemma add_step_spec n a b i r c :
  (i < n)%nat -> wf_limbs n r -> limb r i = 0 -> 0 <= c <= 1 ->
  0 <= limb a i < 2 ^ 64 -> 0 <= limb b i < 2 ^ 64 ->
  exists r' c', add_step a b i (r, c) = (r', c') /\ wf_limbs n r' /\ 0 <= c' <= 1 /\
    (forall j, (i < j)%nat -> limb r' j = limb r j) /\
    eval r' + c' * 2 ^ (64 * Z.of_nat (S i)) =
    eval r + (limb a i + limb b i + c) * 2 ^ (64 * Z.of_nat i).
Proof.
  intros I W R C A B. unfold add_step. destruct W as [L F].
  replace (64 * Z.of_nat (S i)) with (64 + 64 * Z.of_nat i) by lia.
  rewrite Z.pow_add_r by lia.
  oflow; oflow; cbn [orb]; do 2 eexists; (split; [reflexivity|]);
    (split; [apply wf_upd; [now split|lia]|]); (split; [lia|]);
    (split; [intros; apply limb_upd_ne; lia|]);
    rewrite eval_upd, R by lia; set (W := 2 ^ (64 * Z.of_nat i)); try lia; nia.
Qed.

Definition add_inv (a b : list Z) (i : nat) (s : list Z * Z) : Prop :=
  let '(r, c) := s in
  wf_limbs 4 r /\ (forall j, (i <= j)%nat -> limb r j = 0) /\ 0 <= c <= 1 /\
  eval r + c * 2 ^ (64 * Z.of_nat i) = eval (firstn i a) + eval (firstn i b).

(** Well-formedness of an explicit array. *)
Ltac wf_const :=
  split; [reflexivity | repeat (apply Forall_cons; [first [assumption | lia]|]); apply Forall_nil].

Lemma wf_ZERO : wf_limbs 4 ZERO.
Proof. wf_const. Qed.

Lemma limb_ZERO j : limb ZERO j = 0.
Proof. unfold limb, ZERO. do 4 (destruct j; [reflexivity|]). now destruct j. Qed.

Lemma add_with_carry_spec a b :
  wf_limbs 4 a -> wf_limbs 4 b ->
  exists r c, add_with_carry a b = (r, c) /\ wf_limbs 4 r /\ 0 <= c <= 1 /\
    eval r + c * 2 ^ 256 = eval a + eval b.
Proof.
  intros A B.
  assert (I : add_inv a b 4 (add_with_carry a b)).
  { apply (for_range_ind (add_inv a b)).
    - split; [apply wf_ZERO|]. split; [intros; apply limb_ZERO|]. cbn. lia.
    - intros i [r c] Hi (W & Z0 & C & E).
      destruct (add_step_spec 4 a b i r c) as (r' & c' & -> & W' & C' & K & E');
        auto with wf; [eapply wf_limb; eauto..|].
      repeat split; try apply W'; try lia.
      + intros j J. rewrite K by lia. apply Z0. lia.
      + rewrite E', !eval_firstn_S. lia. }
  destruct (add_with_carry a b) as [r c]. destruct I as (W & _ & C & E).
  rewrite !firstn_wf in E by assumption. exists r, c. auto.
Qed.

Lemma sub_step_spec n a b i r c :
  (i < n)%nat -> wf_limbs n r -> limb r i = 0 -> 0 <= c <= 1 ->
  0 <= limb a i < 2 ^ 64 -> 0 <= limb b i < 2 ^ 64 ->
  exists r' c', sub_step a b i (r, c) = (r', c') /\ wf_limbs n r' /\ 0 <= c' <= 1 /\
    (forall j, (i < j)%nat -> limb r' j = limb r j) /\
    eval r' - c' * 2 ^ (64 * Z.of_nat (S i)) =
    eval r + (limb a i - limb b i - c) * 2 ^ (64 * Z.of_nat i).
Proof.
  intros I W R C A B. unfold sub_step. destruct W as [L F].
  replace (64 * Z.of_nat (S i)) with (64 + 64 * Z.of_nat i) by lia.
  rewrite Z.pow_add_r by lia.
  oflow; oflow; cbn [orb]; do 2 eexists; (split; [reflexivity|]);
    (split; [apply wf_upd; [now split|lia]|]); (split; [lia|]);
    (split; [intros; apply limb_upd_ne; lia|]);
    rewrite eval_upd, R by lia; set (W := 2 ^ (64 * Z.of_nat i)); try lia; nia.
Qed.

Definition sub_inv (a b : list Z) (i : nat) (s : list Z * Z) : Prop :=
  let '(r, c) := s in
  wf_limbs 4 r /\ (forall j, (i <= j)%nat -> limb r j = 0) /\ 0 <= c <= 1 /\
  eval r - c * 2 ^ (64 * Z.of_nat i) = eval (firstn i a) - eval (firstn i b).

Lemma sub_with_borrow_spec a b :
  wf_limbs 4 a -> wf_limbs 4 b ->
  exists r c, sub_with_borrow a b = (r, c) /\ wf_limbs 4 r /\ 0 <= c <= 1 /\
    eval r - c * 2 ^ 256 = eval a - eval b.
Proof.
  intros A B.
  assert (I : sub_inv a b 4 (sub_with_borrow a b)).
  { apply (for_range_ind (sub_inv a b)).
    - split; [apply wf_ZERO|]. split; [intros; apply limb_ZERO|]. cbn. lia.
    - intros i [r c] Hi (W & Z0 & C & E).
      destruct (sub_step_spec 4 a b i r c) as (r' & c' & -> & W' & C' & K & E');
        auto with wf; [eapply wf_limb; eauto..|].
      repeat split; try apply W'; try lia.
      + intros j J. rewrite K by lia. apply Z0. lia.
      + rewrite E', !eval_firstn_S. lia. }
  destruct (sub_with_borrow a b) as [r c]. destruct I as (W & _ & C & E).
  rewrite !firstn_wf in E by assumption. exists r, c. auto.
Qed.

(** ** Multiplication *)

Lemma mac_step_spec n x y k t c :
  (k < n)%nat -> wf_limbs n t -> 0 <= x < 2 ^ 64 -> 0 <= y < 2 ^ 64 -> 0 <= c < 2 ^ 64 ->
  exists t' c', mac_step x y k (t, c) = (t', c') /\ wf_limbs n t' /\ 0 <= c' < 2 ^ 64 /\
    (forall j, j <> k -> limb t' j = limb t j) /\
    eval t' + c' * 2 ^ (64 * Z.of_nat (S k)) = eval t + (x * y + c) * 2 ^ (64 * Z.of_nat k).
Proof.
  intros K W X Y C. pose proof (wf_limb _ _ k W) as T. unfold mac_step.
  pose proof (mul64_spec x y X Y) as M. destruct (mul64 x y) as [lo hi].
  destruct M as (Lo & Hi & M).
  replace (64 * Z.of_nat (S k)) with (64 + 64 * Z.of_nat k) by lia.
  rewrite Z.pow_add_r by lia.
  assert (x * y <= (2 ^ 64 - 1) * (2 ^ 64 - 1)) by nia.
  set (p := x * y) in *. clearbody p.
  oflow; oflow; cbn [Z.b2z]; do 2 eexists; (split; [reflexivity|]);
    (split; [apply wf_upd; [assumption|lia]|]);
    unfold as_u64; (rewrite Z.mod_small by lia); (split; [lia|]);
    (split; [intros; apply limb_upd_ne; lia|]);
    (rewrite eval_upd by (destruct W; lia));
    set (W2 := 2 ^ (64 * Z.of_nat k)); clearbody W2; nia.
Qed.

Definition row_inv (n : nat) (x : Z) (b : list Z) (i : nat) (t : list Z) (j : nat)
    (s : list Z * Z) : Prop :=
  let '(t', c) := s in
  wf_limbs n t' /\ 0 <= c < 2 ^ 64 /\
  (forall k, (k < i \/ i + j <= k)%nat -> limb t' k = limb t k) /\
  eval t' + c * 2 ^ (64 * Z.of_nat (i + j)) =
  eval t + x * eval (firstn j b) * 2 ^ (64 * Z.of_nat i).

Lemma mul_row_spec n x b i t :
  (i + 4 <= n)%nat -> wf_limbs n t -> wf_limbs 4 b -> 0 <= x < 2 ^ 64 ->
  row_inv n x b i t 4 (mul_row x b i t).
Proof.
  intros I W B X. apply (for_range_ind (row_inv n x b i t)).
  - repeat split; try apply W; try lia. cbn [firstn eval]. lia.
  - intros j [t' c] J (W' & C & K & E).
    destruct (mac_step_spec n x (limb b j) (i + j) t' c) as (t2 & c2 & -> & W2 & C2 & K2 & E2);
      auto; [lia|eapply wf_limb; eauto|].
    repeat split; try apply W2; try lia.
    + intros k Hk. rewrite K2 by lia. apply K. lia.
    + replace (i + S j)%nat with (S (i + j)) by lia. rewrite E2.
      rewrite eval_firstn_S, Nat2Z.inj_add, (Z.mul_add_distr_l 64), Z.pow_add_r in * by lia.
      lia.
Qed.

Definition mul_inv (a b : list Z) (i : nat) (t : list Z) : Prop :=
  wf_limbs 8 t /\ (forall k, (i + 4 <= k)%nat -> limb t k = 0) /\
  eval t = eval (firstn i a) * eval b.

Lemma mul_wide_step_spec a b i t :
  wf_limbs 4 a -> wf_limbs 4 b -> (i < 4)%nat ->
  mul_inv a b i t -> mul_inv a b (S i) (mul_wide_step a b i t).
Proof.
  intros A B I (W & Z0 & E). unfold mul_wide_step.
  pose proof (mul_row_spec 8 (limb a i) b i t ltac:(lia) W B ltac:(eapply wf_limb; eauto)) as R.
  destruct (mul_row (limb a i) b i t) as [t' c]. destruct R as (W' & C & K & E').
  rewrite firstn_wf in E' by assumption.
  split; [now apply wf_upd|]. split.
  - intros k Hk. rewrite limb_upd_ne, K by lia. apply Z0. lia.
  - rewrite eval_upd by (destruct W'; lia). rewrite K, Z0 by lia.
    rewrite eval_firstn_S. lia.
Qed.

Lemma mul_wide_spec a b :
  wf_limbs 4 a -> wf_limbs 4 b ->
  exists lo hi, mul_wide a b = (lo, hi) /\ wf_limbs 4 lo /\ wf_limbs 4 hi /\
    eval lo + 2 ^ 256 * eval hi = eval a * eval b.
Proof.
  intros A B. unfold mul_wide.
  assert (I : mul_inv a b 4 (for_range 4 (mul_wide_step a b) [0; 0; 0; 0; 0; 0; 0; 0])).
  { apply (for_range_ind (mul_inv a b)).
    - split; [wf_const|]. split.
      + intros k Hk. unfold limb. do 8 (destruct k; [reflexivity|]). now destruct k.
      + cbn. lia.
    - intros i t Hi. now apply mul_wide_step_spec. }
  set (t := for_range 4 (mul_wide_step a b) [0; 0; 0; 0; 0; 0; 0; 0]) in *. clearbody t.
  destruct I as ([L F] & _ & E). rewrite firstn_wf in E by assumption.
  do 2 eexists. split; [reflexivity|].
  do 8 (destruct t as [|? t]; [discriminate|]). destruct t; [|discriminate].
  repeat match goal with H : Forall _ (_ :: _) |- _ => inversion H; clear H; subst end.
  unfold limb; cbn [nth]. split; [wf_const|]. split; [wf_const|].
  rewrite <- E. cbn [eval]. lia.
Qed.

(** ** Comparison and equality *)

Lemma eval_firstn_bound n i a :
  wf_limbs n a -> 0 <= eval (firstn i a) < 2 ^ (64 * Z.of_nat i).
Proof.
  intros [_ F]. pose proof (eval_bound (firstn i a) ltac:(now apply Forall_firstn)) as E.
  split; [apply E|]. eapply Z.lt_le_trans; [apply E|].
  apply Z.pow_le_mono_r; [lia|]. unfold len. rewrite length_firstn. lia.
Qed.

Lemma cmp_from_spec n i a b :
  wf_limbs n a -> wf_limbs n b ->
  cmp_from i a b = Z.sgn (eval (firstn i a) - eval (firstn i b)).
Proof.
  intros A B. induction i; cbn [cmp_from]; [reflexivity|].
  rewrite !eval_firstn_S.
  pose proof (eval_firstn_bound n i a A). pose proof (eval_firstn_bound n i b B).
  destruct (Z.ltb_spec (limb b i) (limb a i)); [symmetry; apply Z.sgn_pos; nia|].
  destruct (Z.ltb_spec (limb a i) (limb b i)); [symmetry; apply Z.sgn_neg; nia|].
  rewrite IHi. f_equal. replace (limb b i) with (limb a i) by lia. lia.
Qed.

Lemma cmp_spec a b :
  wf_limbs 4 a -> wf_limbs 4 b -> cmp a b = Z.sgn (eval a - eval b).
Proof.
  intros A B. unfold cmp. rewrite (cmp_from_spec 4) by assumption. now rewrite !firstn_wf.
Qed.

Lemma cmp_ge a b :
  wf_limbs 4 a -> wf_limbs 4 b -> (0 <=? cmp a b) = (eval b <=? eval a).
Proof.
  intros A B. rewrite cmp_spec by assumption.
  destruct (Z.leb_spec (eval b) (eval a)), (Z.leb_spec 0 (Z.sgn (eval a - eval b))); try reflexivity;
    pose proof (Z.sgn_nonneg (eval a - eval b)); lia.
Qed.

Lemma wf_limbs4_inv a :
  wf_limbs 4 a -> exists x0 x1 x2 x3, a = [x0; x1; x2; x3] /\
    0 <= x0 < 2 ^ 64 /\ 0 <= x1 < 2 ^ 64 /\ 0 <= x2 < 2 ^ 64 /\ 0 <= x3 < 2 ^ 64.
Proof.
  intros [L F]. do 4 (destruct a as [|? a]; [discriminate|]). destruct a; [|discriminate].
  repeat match goal with H : Forall _ (_ :: _) |- _ => inversion H; clear H; subst end.
  do 4 eexists. split; [reflexivity|]. auto.
Qed.

(** Expose the four limbs of a well-formed value. *)
Ltac limbs4 H :=
  let E := fresh in
  apply wf_limbs4_inv in H; destruct H as (? & ? & ? & ? & E & ? & ? & ? & ?);
  subst; unfold limb in *; cbn [nth eval] in *.

Lemma eval_inj n a b : wf_limbs n a -> wf_limbs n b -> eval a = eval b -> a = b.
Proof.
  revert a b; induction n; intros a b [La Fa] [Lb Fb] E.
  - destruct a, b; try discriminate; reflexivity.
  - destruct a as [|x a], b as [|y b]; try discriminate. inversion Fa; inversion Fb; subst.
    cbn [eval] in E.
    assert (x = y) by lia. subst y. f_equal. apply IHn; [split; auto..|lia].
Qed.

Lemma z256_eq_spec a b : wf_limbs 4 a -> wf_limbs 4 b -> z256_eq a b = (eval a =? eval b).
Proof.
  intros A B. unfold z256_eq. destruct (Z.eqb_spec (eval a) (eval b)) as [E|E].
  - apply (eval_inj 4) in E; try assumption. subst. now rewrite !Z.eqb_refl.
  - limbs4 A. limbs4 B.
    repeat match goal with |- context [?x =? ?y] => destruct (Z.eqb_spec x y) end; cbn [andb]; try reflexivity; subst; lia.
Qed.

Lemma wf_ONE : wf_limbs 4 ONE.
Proof. wf_const. Qed.

Lemma is_zero_spec a : wf_limbs 4 a -> is_zero a = (eval a =? 0).
Proof. intros W. exact (z256_eq_spec a ZERO W wf_ZERO). Qed.

Lemma is_one_spec a : wf_limbs 4 a -> is_one a = (eval a =? 1).
Proof. intros W. exact (z256_eq_spec a ONE W wf_ONE). Qed.

(** ** Barrett reduction *)

(** Replace a call by its result, with the integer equation it satisfies. *)
Tactic Notation "call_add" ident(r) ident(c) ident(W) ident(C) ident(E) :=
  match goal with
  | |- context [add_with_carry ?a ?b] =>
      destruct (add_with_carry_spec a b) as (r & c & -> & W & C & E); [assumption || wf_const..|]
  end.
Tactic Notation "call_sub" ident(r) ident(c) ident(W) ident(C) ident(E) :=
  match goal with
  | |- context [sub_with_borrow ?a ?b] =>
      destruct (sub_with_borrow_spec a b) as (r & c & -> & W & C & E); [assumption || wf_const..|]
  end.
Tactic Notation "call_mul" ident(lo) ident(hi) ident(Wl) ident(Wh) ident(E) :=
  match goal with
  | |- context [mul_wide ?a ?b] =>
      destruct (mul_wide_spec a b) as (lo & hi & -> & Wl & Wh & E); [assumption..|]
  end.

(** The estimated quotient is at most one below the true one. *)
Lemma barrett_quotient R X M mu q s :
  0 < M -> 0 <= X < R * R -> mu * M <= R * R < mu * M + M ->
  X * mu = q * (R * R) + s -> 0 <= s < R * R ->
  0 <= X - q * M < 2 * M.
Proof.
  intros HM HX Hmu Hq Hs. split.
  - assert (q * M * (R * R) <= X * (R * R)) by nia. nia.
  - assert (X * (R * R) < (q + 2) * M * (R * R)) by nia. nia.
Qed.

Lemma eval_single c : eval [c; 0; 0; 0] = c.
Proof. cbn [eval]. lia. Qed.

Lemma small_multiple R a k : 0 <= a < R -> 0 <= a + R * k < R -> k = 0.
Proof. intros. nia. Qed.

(** [q * m] with the carry of the quotient folded in: no overflow of 512 bits. *)
Lemma barrett_product q qc m :
  wf_limbs 4 q -> wf_limbs 4 m -> qc = 0 \/ qc = 1 ->
  (eval q + 2 ^ 256 * qc) * eval m < 2 ^ 512 ->
  exists lo hi, mul_wide q m = (lo, hi) /\ wf_limbs 4 lo /\
  exists fin, (if negb (qc =? 0) then add_with_carry hi m else (hi, 0)) = (fin, 0) /\
    wf_limbs 4 fin /\ eval lo + 2 ^ 256 * eval fin = (eval q + 2 ^ 256 * qc) * eval m.
Proof.
  intros Wq Wm Q B. call_mul lo hi Wlo Whi E. exists lo, hi.
  do 2 (split; [trivial|]).
  destruct Q as [-> | ->]; cbn [Z.eqb negb].
  - exists hi. split; [reflexivity|]. split; [assumption|]. lia.
  - call_add fin ov Wf Cf Ef. exists fin.
    pose proof (wf256_eval_bound _ Wlo). pose proof (wf256_eval_bound _ Wf).
    assert (ov = 0) as -> by lia. split; [reflexivity|]. split; [assumption|]. lia.
Qed.

(** The last conditional subtraction takes a remainder below [2m] under [m]. *)
Lemma barrett_final r_lo r_hi m X q :
  wf_limbs 4 r_lo -> wf_limbs 4 r_hi -> wf_limbs 4 m ->
  eval r_lo + 2 ^ 256 * eval r_hi = X - q * eval m -> 0 <= X - q * eval m < 2 * eval m ->
  exists r,
    (if negb (is_zero r_hi) || (0 <=? cmp r_lo m) then
       let '(diff_lo, borrow) := sub_with_borrow r_lo m in
       let '(diff_hi, _) := sub_with_borrow r_hi [borrow; 0; 0; 0] in
       if negb (is_zero diff_hi) then None else Some diff_lo
     else Some r_lo) = Some r /\ wf_limbs 4 r /\ eval r = X mod eval m.
Proof.
  intros Wl Wh Wm E B. rewrite is_zero_spec, cmp_ge by assumption.
  pose proof (wf256_eval_bound _ Wl). pose proof (wf256_eval_bound _ Wh).
  pose proof (wf256_eval_bound _ Wm).
  assert (Mod : forall v, (v = X - q * eval m \/ v = X - q * eval m - eval m) ->
            0 <= v < eval m -> v = X mod eval m).
  { intros v [->| ->] V; [apply (Z.mod_unique _ _ q) | apply (Z.mod_unique _ _ (q + 1))]; lia. }
  destruct (Z.eqb_spec (eval r_hi) 0), (Z.leb_spec (eval m) (eval r_lo)); cbn [negb orb].
  2: { exists r_lo. split; [reflexivity|]. split; [assumption|]. apply Mod; lia. }
  all: call_sub d b4 W16 C16 E16; call_sub dh b5 W17 C17 E17; rewrite eval_single in *;
    pose proof (wf256_eval_bound _ W16); pose proof (wf256_eval_bound _ W17);
    rewrite is_zero_spec by assumption;
    assert (eval dh = 0) as -> by lia; cbn [Z.eqb negb];
    exists d; (split; [reflexivity|]); (split; [assumption|]); apply Mod; lia.
Qed.

Lemma barrett_reduce_spec low high m mu :
  wf_limbs 4 low -> wf_limbs 4 high -> wf_limbs 4 m -> wf_limbs 4 mu ->
  2 ^ 256 < 2 * eval m -> eval mu = 2 ^ 512 / eval m - 2 ^ 256 ->
  exists r, barrett_reduce low high m mu = Some r /\ wf_limbs 4 r /\
    eval r = (eval low + 2 ^ 256 * eval high) mod eval m.
Proof.
  intros Wl Wh Wm Wmu HM Hmu. unfold barrett_reduce.
  assert (Bl := wf256_eval_bound _ Wl). assert (Bh := wf256_eval_bound _ Wh).
  assert (Bm := wf256_eval_bound _ Wm).
  call_mul hmu_lo hmu_hi W1 W2 E1. call_add mid_lo midc W3 C3 E3.
  call_mul lmu_lo lmu_hi W4 W5 E5. call_add last lastc W6 C6 E6.
  call_add q1 c1 W7 C7 E7. call_add q2 c2 W8 C8 E8. call_add q3 c3 W9 C9 E9.
  rewrite eval_single in *.
  set (X := eval low + 2 ^ 256 * eval high). set (M := eval m) in *.
  set (q := eval q3 + 2 ^ 256 * (c1 + c2 + c3)).
  assert (Hq : 0 <= X - q * M < 2 * M).
  { apply (barrett_quotient (2 ^ 256) X M (2 ^ 256 + eval mu) q
             (2 ^ 256 * eval last + eval lmu_lo)).
    - lia.
    - subst X. lia.
    - rewrite Hmu. change (2 ^ 256 * 2 ^ 256) with (2 ^ 512).
      pose proof (Z.div_mod (2 ^ 512) M). pose proof (Z.mod_pos_bound (2 ^ 512) M). lia.
    - subst X q. rewrite Z.mul_add_distr_r, Z.mul_add_distr_l. lia.
    - pose proof (wf256_eval_bound _ W4). pose proof (wf256_eval_bound _ W6). lia. }
  pose proof (wf256_eval_bound _ W9) as B9.
  assert (Q : c1 + c2 + c3 = 0 \/ c1 + c2 + c3 = 1).
  { assert (q * M < 2 * M * 2 ^ 256) by (subst X; lia).
    assert (q < 2 * 2 ^ 256) by nia. subst q. lia. }
  destruct (barrett_product q3 (c1 + c2 + c3) m W9 Wm Q) as (qm_lo & qm_hi & -> & W10 & fin & -> & W12 & E12).
  { fold M q. subst X. lia. }
  fold M q in E12. cbn [Z.eqb negb].
  call_sub r_lo b1 W13 C13 E13. call_sub rh b2 W14 C14 E14. call_sub rh' b3 W15 C15 E15.
  rewrite eval_single in *.
  pose proof (wf256_eval_bound _ W13). pose proof (wf256_eval_bound _ W15).
  assert (ER : eval r_lo + 2 ^ 256 * eval rh' - 2 ^ 512 * (b2 + b3) = X - q * M) by (subst X; lia).
  assert (Hb : b2 + b3 = 0) by lia.
  rewrite Hb in *. cbn [Z.eqb negb].
  apply (barrett_final r_lo rh' m X q); try assumption; fold M; lia.
Qed.

(** ** Schoolbook reduction *)

Section IterLoop.
Context {S R : Type} (step : S -> S + R).
Context (Inv : S -> Prop) (Q : R -> Prop) (mu : S -> Z).
Hypothesis Hstep : forall s, Inv s ->
  match step s with inl s' => Inv s' /\ 0 <= mu s' < mu s | inr r => Q r end.

Lemma iter_loop_progress n s :
  Inv s -> 0 <= mu s ->
  match iter_loop n step s with
  | inl s' => Inv s' /\ 0 <= mu s' <= mu s - 2 ^ Z.of_nat n
  | inr r => Q r
  end.
Proof.
  revert s; induction n; intros s I M; cbn [iter_loop].
  - specialize (Hstep s I). destruct (step s); [|assumption]. split; [tauto|]. cbn. lia.
  - pose proof (IHn s I M) as H1. destruct (iter_loop n step s) as [s'|r]; [|assumption].
    destruct H1 as [I' M']. pose proof (IHn s' I' ltac:(lia)) as H2.
    destruct (iter_loop n step s') as [s2|r]; [|assumption].
    split; [tauto|]. rewrite Nat2Z.inj_succ, Z.pow_succ_r by lia. lia.
Qed.

(** A loop whose measure is below [2^n] ends within its fuel. *)
Lemma iter_loop_ends n s :
  Inv s -> 0 <= mu s < 2 ^ Z.of_nat n -> exists r, iter_loop n step s = inr r /\ Q r.
Proof.
  intros I M. pose proof (iter_loop_progress n s I ltac:(lia)) as H.
  destruct (iter_loop n step s) as [s'|r]; [lia|eauto].
Qed.
End IterLoop.

Lemma scan_ge_spec n k a b :
  wf_limbs n a -> wf_limbs n b ->
  scan_ge k a b = (eval (firstn k b) <=? eval (firstn k a)).
Proof.
  intros A B. induction k; cbn [scan_ge]; [reflexivity|]. rewrite !eval_firstn_S.
  pose proof (eval_firstn_bound n k a A). pose proof (eval_firstn_bound n k b B).
  destruct (Z.ltb_spec (limb b k) (limb a k)); [symmetry; apply Z.leb_le; nia|].
  destruct (Z.ltb_spec (limb a k) (limb b k)); [symmetry; apply Z.leb_gt; nia|].
  rewrite IHk. replace (limb b k) with (limb a k) by lia.
  destruct (Z.leb_spec (eval (firstn k b)) (eval (firstn k a))); symmetry;
    [apply Z.leb_le | apply Z.leb_gt]; lia.
Qed.

Lemma scan_lt_spec n n' k a b :
  wf_limbs n a -> wf_limbs n' b ->
  scan_lt k a b false = (eval (firstn k a) <? eval (firstn k b)).
Proof.
  intros A B. induction k; cbn [scan_lt]; [reflexivity|]. rewrite !eval_firstn_S.
  pose proof (eval_firstn_bound n k a A). pose proof (eval_firstn_bound n' k b B).
  destruct (Z.ltb_spec (limb a k) (limb b k)); [symmetry; apply Z.ltb_lt; nia|].
  destruct (Z.ltb_spec (limb b k) (limb a k)); [symmetry; apply Z.ltb_ge; nia|].
  rewrite IHk. replace (limb b k) with (limb a k) by lia.
  destruct (Z.ltb_spec (eval (firstn k a)) (eval (firstn k b))); symmetry;
    [apply Z.ltb_lt | apply Z.ltb_ge]; lia.
Qed.

Definition sub_in_place_inv (n : nat) (rem b : list Z) (i : nat) (s : list Z * Z) : Prop :=
  let '(r, c) := s in
  wf_limbs n r /\ (forall j, (i <= j)%nat -> limb r j = limb rem j) /\ 0 <= c <= 1 /\
  eval r - c * 2 ^ (64 * Z.of_nat i) = eval rem - eval (firstn i b).

Lemma sub_in_place_spec n k rem b :
  wf_limbs n rem -> wf_limbs k b ->
  sub_in_place_inv n rem b n (for_range n (sub_in_place_step b) (rem, 0)).
Proof.
  intros W B. apply (for_range_ind (sub_in_place_inv n rem b)).
  - split; [assumption|]. split; [auto|]. cbn [firstn eval]. lia.
  - intros i [r c] I (Wr & K & C & E). unfold sub_in_place_step, sub_in_place_inv.
    pose proof (wf_limb _ _ i Wr) as Ri. pose proof (wf_limb _ _ i B) as Bi.
    rewrite eval_firstn_S.
    replace (64 * Z.of_nat (S i)) with (64 + 64 * Z.of_nat i) by lia.
    rewrite Z.pow_add_r by lia.
    oflow; oflow; cbn [orb]; (split; [apply wf_upd; [assumption|lia]|]);
      (split; [intros j J; rewrite limb_upd_ne by lia; apply K; lia|]); (split; [lia|]);
      (rewrite eval_upd by (destruct Wr; lia));
      set (W2 := 2 ^ (64 * Z.of_nat i)) in *; clearbody W2; nia.
Qed.

Definition mul_small_inv (q : Z) (m : list Z) (i : nat) (s : list Z * Z) : Prop :=
  let '(r, c) := s in
  wf_limbs 5 r /\ (forall j, (i <= j)%nat -> limb r j = 0) /\ 0 <= c < 2 ^ 64 /\
  eval r + c * 2 ^ (64 * Z.of_nat i) = q * eval (firstn i m).

Lemma mul_small_spec q m :
  wf_limbs 4 m -> 0 <= q < 2 ^ 64 ->
  wf_limbs 5 (mul_small q m) /\ eval (mul_small q m) = q * eval m.
Proof.
  intros W Q. unfold mul_small.
  set (f := fun i '(qm, carry) => _).
  assert (I : mul_small_inv q m 4 (for_range 4 f ([0; 0; 0; 0; 0], 0))).
  { apply (for_range_ind (mul_small_inv q m)).
    - split; [wf_const|]. split; [|cbn; lia].
      intros j _. unfold limb. do 5 (destruct j; [reflexivity|]). now destruct j.
    - intros i [r c] I (Wr & K & C & E). subst f. unfold mul_small_inv.
      pose proof (wf_limb _ _ i W) as Mi.
      assert (0 <= q * limb m i + c < 2 ^ 64 * 2 ^ 64) by nia.
      set (p := q * limb m i + c) in *.
      pose proof (Z.div_mod p (2 ^ 64)) as DM. pose proof (Z.mod_pos_bound p (2 ^ 64)).
      rewrite Z.shiftr_div_pow2 by lia. unfold as_u64.
      split; [apply wf_upd; [assumption|lia]|].
      split; [intros j J; rewrite limb_upd_ne by lia; apply K; lia|].
      split; [split; [apply Z.div_pos | apply Z.div_lt_upper_bound]; lia|].
      rewrite eval_upd, K, eval_firstn_S by (destruct Wr; lia).
      replace (64 * Z.of_nat (S i)) with (64 + 64 * Z.of_nat i) by lia.
      rewrite Z.pow_add_r by lia. subst p.
      set (d := (q * limb m i + c) / 2 ^ 64) in *. set (e := (q * limb m i + c) mod 2 ^ 64) in *.
      set (W2 := 2 ^ (64 * Z.of_nat i)) in *. clearbody d e W2. nia. }
  destruct (for_range 4 f ([0; 0; 0; 0; 0], 0)) as [r c]. destruct I as (Wr & K & C & E).
  rewrite firstn_wf in E by assumption. unfold as_u64. rewrite Z.mod_small by lia.
  split; [apply wf_upd; [assumption|lia]|].
  rewrite eval_upd, K by (destruct Wr; lia). lia.
Qed.

Lemma iter_loop_done {S R} (step : S -> S + R) n s r :
  step s = inr r -> iter_loop n step s = inr r.
Proof. intros H. induction n; cbn [iter_loop]; [assumption|]. now rewrite IHn. Qed.

(** Lowering the estimate ends at the true quotient, which leaves the remainder. *)
Lemma quotient_loop_spec m rem q :
  wf_limbs 4 m -> wf_limbs 5 rem -> 0 < eval m ->
  1 <= eval rem / eval m <= q -> q < 2 ^ 64 ->
  exists r, iter_loop 64 (quotient_step m) (q, rem) = inr r /\
    wf_limbs 5 r /\ eval r = eval rem mod eval m.
Proof.
  intros Wm Wr HM T Q. set (t := eval rem / eval m) in *.
  pose proof (Z.div_mod (eval rem) (eval m)) as DM. fold t in DM.
  pose proof (Z.mod_pos_bound (eval rem) (eval m)).
  apply (iter_loop_ends _ (fun '(q, rem') => rem' = rem /\ t <= q < 2 ^ 64) _ (fun '(q, _) => q - t)).
  - intros [q' rem'] [-> Q']. unfold quotient_step.
    destruct (mul_small_spec q' m Wm ltac:(lia)) as [W5 E5].
    rewrite (scan_ge_spec 5) by assumption. rewrite !firstn_wf, E5 by assumption.
    destruct (Z.leb_spec (q' * eval m) (eval rem)).
    + pose proof (sub_in_place_spec 5 5 rem (mul_small q' m) Wr W5) as S.
      destruct (for_range 5 _ _) as [r c]. destruct S as (W' & _ & C & E).
      rewrite firstn_wf, E5 in E by assumption. cbn [fst]. split; [assumption|].
      assert (q' = t) by nia. subst q'.
      pose proof (eval_bound r (proj2 W')) as Br. unfold len in Br. rewrite (proj1 W') in Br.
      assert (c = 0 \/ c = 1) as [-> | ->] by lia; lia.
    + assert (t < q') by nia. destruct (Z.eqb_spec (q' - 1) 0); [lia|].
      split; [split; [reflexivity|lia]|lia].
  - split; [reflexivity|lia].
  - change (2 ^ Z.of_nat 64) with (2 ^ 64). lia.
Qed.

Lemma limb4_zero rem : wf_limbs 5 rem -> eval rem < 2 ^ 256 -> limb rem 4 = 0.
Proof.
  intros W E. pose proof (eval_firstn_S 4 rem) as S.
  rewrite (firstn_wf 5) in S by assumption.
  pose proof (eval_firstn_bound 5 4 rem W). pose proof (wf_limb _ _ 4%nat W).
  change (2 ^ (64 * Z.of_nat 4)) with (2 ^ 256) in *. nia.
Qed.

Lemma firstn4_eval rem : wf_limbs 5 rem -> limb rem 4 = 0 -> eval (firstn 4 rem) = eval rem.
Proof.
  intros W Z0. pose proof (eval_firstn_S 4 rem) as S. rewrite Z0 in S.
  rewrite (firstn_wf 5) in S by assumption. lia.
Qed.

Lemma correct_loop_done m rem n :
  wf_limbs 4 m -> wf_limbs 5 rem -> eval rem < eval m ->
  iter_loop n (correct_step m) rem = inr rem.
Proof.
  intros Wm Wr L. apply iter_loop_done. unfold correct_step.
  pose proof (wf256_eval_bound m Wm).
  pose proof (limb4_zero rem Wr ltac:(lia)) as Z0. rewrite Z0. cbn [Z.ltb Z.compare].
  destruct (limb m 3 <=? limb rem 3); [|reflexivity].
  assert (G : scan_ge 4 rem m = false); [|now rewrite G].
  assert (W4 : wf_limbs 4 (firstn 4 rem)).
  { destruct Wr as [Lr Fr]. split; [rewrite length_firstn; lia|now apply Forall_firstn]. }
  assert (Eq : forall k, (k <= 4)%nat -> scan_ge k rem m = scan_ge k (firstn 4 rem) m).
  { intros k; induction k; cbn [scan_ge]; intros; [reflexivity|].
    rewrite IHk by lia. unfold limb. now rewrite nth_firstn, (proj2 (Nat.ltb_lt k 4)) by lia. }
  rewrite Eq, (scan_ge_spec 4) by (assumption || lia). rewrite (firstn_wf 4 (firstn 4 rem)) by assumption.
  rewrite (firstn4_eval rem), (firstn_wf 4 m) by assumption. now apply Z.leb_gt.
Qed.

(** The quotient estimate from the top limbs is never below the quotient. *)
Lemma quotient_estimate m rem :
  wf_limbs 4 m -> wf_limbs 5 rem -> 0 < limb m 3 ->
  eval rem / eval m <=
  (if 0 <? limb rem 4 then Z.lor (Z.shiftl (limb rem 4) 64) (limb rem 3) / limb m 3
   else limb rem 3 / limb m 3).
Proof.
  intros Wm Wr M3.
  pose proof (eval_firstn_S 3 m) as Em. rewrite (firstn_wf 4) in Em by assumption.
  pose proof (eval_firstn_bound 4 3 m Wm) as Bm.
  pose proof (eval_firstn_S 3 rem) as E3. pose proof (eval_firstn_S 4 rem) as E4.
  rewrite (firstn_wf 5) in E4 by assumption.
  pose proof (eval_firstn_bound 5 3 rem Wr) as Br.
  pose proof (wf_limb _ _ 3%nat Wr) as R3. pose proof (wf_limb _ _ 4%nat Wr) as R4.
  change (2 ^ (64 * Z.of_nat 3)) with (2 ^ 192) in *.
  change (2 ^ (64 * Z.of_nat 4)) with (2 ^ 64 * 2 ^ 192) in *.
  assert (Top : forall top, eval rem < (top + 1) * 2 ^ 192 -> 0 <= top ->
            eval rem / eval m <= top / limb m 3).
  { intros top Ht H0. apply Z.div_le_lower_bound; [assumption|].
    assert (0 < eval m) by nia.
    pose proof (Z.mul_div_le (eval rem) (eval m) ltac:(lia)).
    assert (0 <= eval rem / eval m) by (apply Z.div_pos; nia).
    nia. }
  destruct (Z.ltb_spec 0 (limb rem 4)).
  - rewrite lor_shiftl_add by lia. apply Top; nia.
  - apply Top; nia.
Qed.

Lemma schoolbook_is_lt m nr :
  wf_limbs 4 m -> wf_limbs 5 nr ->
  (if limb nr 4 =? 0 then
     let is_lt := limb nr 3 <? limb m 3 in
     if limb nr 3 =? limb m 3 then scan_lt 3 nr m is_lt else is_lt
   else false) = (eval nr <? eval m).
Proof.
  intros Wm Wn.
  pose proof (eval_firstn_S 3 m) as Em. rewrite (firstn_wf 4) in Em by assumption.
  pose proof (eval_firstn_S 3 nr) as E3. pose proof (eval_firstn_S 4 nr) as E4.
  rewrite (firstn_wf 5) in E4 by assumption.
  pose proof (eval_firstn_bound 4 3 m Wm). pose proof (eval_firstn_bound 5 3 nr Wn).
  pose proof (wf_limb _ _ 4%nat Wn). pose proof (wf_limb _ _ 3%nat Wn).
  pose proof (wf256_eval_bound m Wm).
  change (2 ^ (64 * Z.of_nat 3)) with (2 ^ 192) in *.
  change (2 ^ (64 * Z.of_nat 4)) with (2 ^ 64 * 2 ^ 192) in *.
  destruct (Z.eqb_spec (limb nr 4) 0) as [Z4|Z4]; [|symmetry; apply Z.ltb_ge; nia].
  cbv zeta. destruct (Z.eqb_spec (limb nr 3) (limb m 3)) as [Z3|Z3].
  - rewrite Z3, Z.ltb_irrefl, (scan_lt_spec 5 4) by assumption.
    destruct (Z.ltb_spec (eval (firstn 3 nr)) (eval (firstn 3 m))); symmetry;
      [apply Z.ltb_lt|apply Z.ltb_ge]; lia.
  - destruct (Z.ltb_spec (limb nr 3) (limb m 3)); symmetry; [apply Z.ltb_lt|apply Z.ltb_ge]; nia.
Qed.

(** Shifting the next limb into a remainder below [2^256]. *)
Lemma shift_in rem x :
  wf_limbs 5 rem -> eval rem < 2 ^ 256 -> 0 <= x < 2 ^ 64 ->
  wf_limbs 5 [x; limb rem 0; limb rem 1; limb rem 2; limb rem 3] /\
  eval [x; limb rem 0; limb rem 1; limb rem 2; limb rem 3] = eval rem * 2 ^ 64 + x.
Proof.
  intros Wr L X. assert (R4 : limb rem 4 = 0) by (apply limb4_zero; assumption). split.
  - split; [reflexivity|]. repeat (apply Forall_cons; [eauto with wf|]). apply Forall_nil.
  - rewrite <- (firstn4_eval rem) by assumption.
    destruct Wr as [Lr _]. do 5 (destruct rem as [|? rem]; [discriminate|]).
    unfold limb; cbn [nth eval firstn]. lia.
Qed.

Lemma schoolbook_step_spec m rem x :
  wf_limbs 4 m -> 0 < limb m 3 -> wf_limbs 5 rem -> eval rem < eval m -> 0 <= x < 2 ^ 64 ->
  exists r, schoolbook_step m rem x = Some r /\ wf_limbs 5 r /\
    eval r = (eval rem * 2 ^ 64 + x) mod eval m.
Proof.
  intros Wm M3 Wr L X. unfold schoolbook_step.
  pose proof (wf256_eval_bound m Wm) as Bm.
  destruct (shift_in rem x Wr ltac:(lia) X) as [Wn En]. rewrite <- En.
  set (nr := [x; limb rem 0; limb rem 1; limb rem 2; limb rem 3]) in *. clearbody nr.
  pose proof (schoolbook_is_lt m nr Wm Wn) as LT. cbv zeta in LT |- *. rewrite LT. clear LT.
  destruct (Z.ltb_spec (eval nr) (eval m)) as [Hlt|Hge].
  - exists nr. split; [reflexivity|]. split; [assumption|].
    pose proof (eval_bound nr (proj2 Wn)). now rewrite Z.mod_small by lia.
  - destruct (Z.eqb_spec (limb m 3) 0); [lia|].
    pose proof (quotient_estimate m nr Wm Wn M3) as QE.
    match goal with |- context [if u64_max <? ?q then _ else _] => set (q_est := q) in * end.
    set (q := if u64_max <? q_est then u64_max else as_u64 q_est).
    assert (T : 1 <= eval nr / eval m < 2 ^ 64).
    { split; [apply Z.div_le_lower_bound; lia|]. apply Z.div_lt_upper_bound; [lia|]. nia. }
    assert (Hq : eval nr / eval m <= q < 2 ^ 64).
    { subst q. unfold as_u64, u64_max. destruct (Z.ltb_spec (2 ^ 64 - 1) q_est); [lia|].
      rewrite Z.mod_small; lia. }
    destruct (quotient_loop_spec m nr q Wm Wn ltac:(lia) ltac:(lia) ltac:(lia)) as (r & -> & W' & E').
    pose proof (Z.mod_pos_bound (eval nr) (eval m) ltac:(lia)).
    rewrite correct_loop_done by (assumption || lia).
    exists r. auto.
Qed.

(** A modulus whose top limb is zero divides by that limb as soon as the
    remainder reaches the modulus. *)
Lemma schoolbook_step_zero_top m rem x :
  wf_limbs 4 m -> limb m 3 = 0 -> wf_limbs 5 rem -> eval rem < eval m -> 0 <= x < 2 ^ 64 ->
  if eval rem * 2 ^ 64 + x <? eval m
  then exists r, schoolbook_step m rem x = Some r /\ wf_limbs 5 r /\ eval r = eval rem * 2 ^ 64 + x
  else schoolbook_step m rem x = None.
Proof.
  intros Wm M3 Wr L X. unfold schoolbook_step.
  pose proof (wf256_eval_bound m Wm) as Bm.
  destruct (shift_in rem x Wr ltac:(lia) X) as [Wn <-].
  set (nr := [x; limb rem 0; limb rem 1; limb rem 2; limb rem 3]) in *. clearbody nr.
  pose proof (schoolbook_is_lt m nr Wm Wn) as LT. cbv zeta in LT |- *. rewrite LT. clear LT.
  destruct (eval nr <? eval m).
  - exists nr. auto.
  - now rewrite M3.
Qed.

Lemma schoolbook_spec low high m :
  wf_limbs 4 low -> wf_limbs 4 high -> wf_limbs 4 m -> 0 < limb m 3 ->
  exists r, mod_reduce_512_schoolbook low high m = Some r /\ wf_limbs 4 r /\
    eval r = (eval low + 2 ^ 256 * eval high) mod eval m.
Proof.
  intros Wl Wh Wm M3. unfold mod_reduce_512_schoolbook.
  pose proof (wf256_eval_bound m Wm) as Bm.
  assert (HM : 0 < eval m).
  { pose proof (eval_firstn_S 3 m) as Em. rewrite (firstn_wf 4) in Em by assumption.
    pose proof (eval_firstn_bound 4 3 m Wm). nia. }
  assert (Fold : forall l rem v, Forall (fun x => 0 <= x < 2 ^ 64) l ->
     wf_limbs 5 rem -> eval rem = v mod eval m ->
     exists r, fold_left (fun o x => match o with Some rem => schoolbook_step m rem x | None => None end)
                 l (Some rem) = Some r /\ wf_limbs 5 r /\
       eval r = fold_left (fun v x => v * 2 ^ 64 + x) l v mod eval m).
  { induction l as [|x l IH]; intros rem v F W E; cbn [fold_left]; [eauto|].
    inversion F; subst. pose proof (Z.mod_pos_bound v (eval m) HM).
    destruct (schoolbook_step_spec m rem x) as (r & -> & W' & E'); try assumption; [lia|].
    apply IH; try assumption. rewrite E', E.
    rewrite <- Z.add_mod_idemp_l, Z.mul_mod_idemp_l, Z.add_mod_idemp_l by lia. reflexivity. }
  limbs4 Wl. limbs4 Wh.
  match goal with |- context [fold_left _ ?l _] =>
    destruct (Fold l [0; 0; 0; 0; 0] 0) as (r & -> & W & E) end.
  - repeat (apply Forall_cons; [assumption|]). apply Forall_nil.
  - wf_const.
  - rewrite Z.mod_0_l by lia. reflexivity.
  - cbn [fold_left] in E.
    assert (R4 : limb r 4 = 0).
    { apply limb4_zero; [assumption|]. rewrite E.
      match goal with |- ?v mod _ < _ => pose proof (Z.mod_pos_bound v (eval m) HM) end. lia. }
    rewrite <- (firstn4_eval r W R4) in E.
    destruct W as [Lr Fr]. do 5 (destruct r as [|? r]; [discriminate|]). destruct r; [|discriminate].
    repeat match goal with H : Forall _ (_ :: _) |- _ => inversion H; clear H; subst end.
    unfold limb; cbn [nth firstn] in *.
    eexists. split; [reflexivity|]. split; [wf_const|]. rewrite E. f_equal. lia.
Qed.

(** ** Modular operations *)

Lemma wf_P : wf_limbs 4 P.
Proof. wf_const. Qed.
Lemma wf_N : wf_limbs 4 N.
Proof. wf_const. Qed.

Lemma mod_reduce_512_spec low high m :
  wf_limbs 4 low -> wf_limbs 4 high -> wf_limbs 4 m -> 0 < limb m 3 ->
  exists r, mod_reduce_512 low high m = Some r /\ wf_limbs 4 r /\
    eval r = (eval low + 2 ^ 256 * eval high) mod eval m.
Proof.
  intros Wl Wh Wm M3. unfold mod_reduce_512.
  rewrite !z256_eq_spec by (assumption || apply wf_P || apply wf_N).
  destruct (Z.eqb_spec (eval m) (eval N)) as [E|_].
  { apply (eval_inj 4) in E; [subst m|assumption|apply wf_N].
    apply barrett_reduce_spec; first [assumption | wf_const | reflexivity]. }
  destruct (Z.eqb_spec (eval m) (eval P)) as [E|_].
  { apply (eval_inj 4) in E; [subst m|assumption|apply wf_P].
    apply barrett_reduce_spec; first [assumption | wf_const | reflexivity]. }
  now apply schoolbook_spec.
Qed.

Lemma modmul_loop_spec m v :
  wf_limbs 4 m -> wf_limbs 4 v -> 0 < eval m ->
  exists r, iter_loop 256 (modmul_step m) v = inr r /\
    wf_limbs 4 r /\ eval r = eval v mod eval m.
Proof.
  intros Wm Wv HM.
  apply (iter_loop_ends _ (fun s => wf_limbs 4 s /\ eval s mod eval m = eval v mod eval m) _ eval).
  - intros s [Ws Es]. unfold modmul_step. rewrite cmp_ge by assumption.
    pose proof (wf256_eval_bound s Ws).
    destruct (Z.leb_spec (eval m) (eval s)).
    + call_sub d b Wd Cb E. pose proof (wf256_eval_bound d Wd). pose proof (wf256_eval_bound m Wm).
      assert (b = 0) as -> by lia. cbn [Z.eqb].
      split; [|lia]. split; [assumption|]. rewrite <- Es.
      replace (eval d) with (eval s + (-1) * eval m) by lia. apply Z.mod_add. lia.
    + split; [assumption|]. rewrite <- Es. symmetry. apply Z.mod_small. lia.
  - auto.
  - exact (wf256_eval_bound v Wv).
Qed.

Lemma modmul_spec a b m :
  wf_limbs 4 a -> wf_limbs 4 b -> wf_limbs 4 m -> 0 < limb m 3 ->
  exists r, modmul a b m = Some r /\ wf_limbs 4 r /\ eval r = (eval a * eval b) mod eval m.
Proof.
  intros Wa Wb Wm M3. unfold modmul. call_mul lo hi Wl Wh E.
  rewrite is_zero_spec by assumption. destruct (Z.eqb_spec (eval hi) 0) as [Z0|_].
  - assert (HM : 0 < eval m).
    { pose proof (eval_firstn_S 3 m) as Em. rewrite (firstn_wf 4) in Em by assumption.
      pose proof (eval_firstn_bound 4 3 m Wm). nia. }
    destruct (modmul_loop_spec m lo Wm Wl HM) as (r & -> & Wr & Er).
    exists r. split; [reflexivity|]. split; [assumption|]. rewrite Er. f_equal. lia.
  - rewrite <- E. now apply mod_reduce_512_spec.
Qed.

Lemma double_mod_step_spec m r :
  wf_limbs 4 m -> wf_limbs 4 r -> 0 <= eval r < eval m ->
  wf_limbs 4 (double_mod_step m r) /\ eval (double_mod_step m r) = (2 * eval r) mod eval m.
Proof.
  intros Wm Wr R. unfold double_mod_step. pose proof (wf256_eval_bound m Wm).
  call_add d c Wd C E. rewrite cmp_ge by assumption. pose proof (wf256_eval_bound d Wd).
  destruct (Z.eqb_spec c 0) as [-> |], (Z.leb_spec (eval m) (eval d)); cbn [negb orb].
  2: { split; [assumption|]. rewrite Z.mod_small; lia. }
  all: call_sub e b We Cb E'; cbn [fst]; pose proof (wf256_eval_bound e We);
    (split; [assumption|]); apply (Z.mod_unique _ _ 1); [lia|];
    assert (b = 0 \/ b = 1) as [-> | ->] by lia; lia.
Qed.

Lemma compute_2_256_spec m :
  wf_limbs 4 m -> 1 < eval m ->
  wf_limbs 4 (compute_2_256_mod_m m) /\ eval (compute_2_256_mod_m m) = 2 ^ 256 mod eval m.
Proof.
  intros Wm HM. unfold compute_2_256_mod_m. change 256 with (Z.of_nat 256).
  apply (for_range_ind (fun i r => wf_limbs 4 r /\ eval r = 2 ^ Z.of_nat i mod eval m)).
  - split; [apply wf_ONE|]. cbn. rewrite Z.mod_small; lia.
  - intros i r _ [Wr Er]. pose proof (Z.mod_pos_bound (2 ^ Z.of_nat i) (eval m)).
    destruct (double_mod_step_spec m r) as [W E]; try assumption; [lia|].
    split; [assumption|]. rewrite E, Er, Z.mul_mod_idemp_r by lia.
    now rewrite Nat2Z.inj_succ, Z.pow_succ_r by lia.
Qed.

Lemma sub_mod_spec a b m :
  wf_limbs 4 a -> wf_limbs 4 b -> wf_limbs 4 m -> eval a < eval m -> eval b < eval m ->
  wf_limbs 4 (sub_mod a b m) /\ eval (sub_mod a b m) = (eval a - eval b) mod eval m.
Proof.
  intros Wa Wb Wm A B. unfold sub_mod.
  pose proof (wf256_eval_bound a Wa). pose proof (wf256_eval_bound b Wb). pose proof (wf256_eval_bound m Wm).
  call_sub d c Wd C E. pose proof (wf256_eval_bound d Wd).
  destruct (Z.eqb_spec c 0) as [-> |]; cbn [negb].
  - split; [assumption|]. rewrite Z.mod_small; lia.
  - assert (c = 1) as -> by lia. call_add s k Ws Ck E'. cbn [fst].
    pose proof (wf256_eval_bound s Ws). split; [assumption|].
    apply (Z.mod_unique _ _ (-1)); [lia|]. assert (k = 0 \/ k = 1) as [-> | ->] by lia; lia.
Qed.

(** ** Bits and selection *)

Lemma testbit_eval l n :
  Forall (fun x => 0 <= x < 2 ^ 64) l -> 0 <= n ->
  Z.testbit (eval l) n = Z.testbit (limb l (Z.to_nat (n / 64))) (n mod 64).
Proof.
  intros F. revert n; induction F as [|x l X F IH]; intros n Hn.
  - unfold limb. cbn [eval]. destruct (Z.to_nat (n / 64)); cbn [nth]; now rewrite !Z.testbit_0_l.
  - cbn [eval]. replace (x + 2 ^ 64 * eval l) with (Z.lor (Z.shiftl (eval l) 64) x)
      by (rewrite lor_shiftl_add by lia; lia).
    rewrite Z.lor_spec. destruct (Z.ltb_spec n 64).
    + rewrite Z.shiftl_spec_low by lia. rewrite Z.div_small, Z.mod_small by lia. reflexivity.
    + rewrite Z.shiftl_spec, IH by lia.
      rewrite <- (Z.mod_small x (2 ^ 64)), Z.mod_pow2_bits_high, orb_false_r by lia.
      replace n with (n - 64 + 1 * 64) at 3 4 by lia.
      rewrite Z.div_add, Z.mod_add by lia.
      pose proof (Z.div_pos (n - 64) 64).
      replace (Z.to_nat ((n - 64) / 64 + 1)) with (S (Z.to_nat ((n - 64) / 64))) by lia.
      reflexivity.
Qed.

Lemma land_1_testbit x b : 0 <= b -> Z.land (Z.shiftr x b) 1 = Z.b2z (Z.testbit x b).
Proof.
  intros. change 1 with (Z.ones 1) at 1. rewrite Z.land_ones by lia.
  change (2 ^ 1) with 2. rewrite <- Z.bit0_mod, Z.shiftr_spec by lia. reflexivity.
Qed.

Lemma bit_spec a n : wf_limbs 4 a -> 0 <= n -> bit a n = Z.testbit (eval a) n.
Proof.
  intros [L F] Hn. unfold bit. rewrite testbit_eval by assumption.
  pose proof (Z.mod_pos_bound n 64). rewrite land_1_testbit by lia.
  destruct (Z.ltb_spec (n / 64) 4).
  - now destruct (Z.testbit _ _).
  - unfold limb. rewrite nth_overflow by lia. now rewrite Z.testbit_0_l.
Qed.

Lemma ct_bit_spec a n : wf_limbs 4 a -> 0 <= n -> ct_bit a n = Z.testbit (eval a) n.
Proof.
  intros W Hn. rewrite <- bit_spec by assumption. unfold ct_bit, bit.
  pose proof (Z.mod_pos_bound n 64). rewrite land_1_testbit by lia.
  destruct (n / 64 <? 4); [|reflexivity]. now destruct (Z.testbit _ _).
Qed.

Lemma ct_eq_spec a b : ct_eq a b = z256_eq a b.
Proof.
  unfold ct_eq, z256_eq. apply eq_true_iff_eq.
  rewrite !andb_true_iff, !Z.eqb_eq, !Z.lor_eq_0_iff, !Z.lxor_eq_0_iff. tauto.
Qed.

Lemma land_u64_max x : 0 <= x < 2 ^ 64 -> Z.land x u64_max = x.
Proof. intros. change u64_max with (Z.ones 64). rewrite Z.land_ones by lia. apply Z.mod_small. lia. Qed.

Lemma select_limb x y c :
  0 <= x < 2 ^ 64 -> 0 <= y < 2 ^ 64 ->
  Z.lor (Z.land x (not64 (mask_of c))) (Z.land y (mask_of c)) = if c =? 0 then x else y.
Proof.
  intros X Y. unfold mask_of, not64. destruct (c =? 0); cbn [negb].
  - rewrite Z.lxor_0_l, land_u64_max, Z.land_0_r, Z.lor_0_r by lia. reflexivity.
  - rewrite Z.lxor_nilpotent, land_u64_max, Z.land_0_r, Z.lor_0_l by lia. reflexivity.
Qed.

Lemma conditional_select_spec a b c :
  wf_limbs 4 a -> wf_limbs 4 b -> conditional_select a b c = if c =? 0 then a else b.
Proof.
  intros A B. unfold conditional_select. limbs4 A. limbs4 B.
  rewrite !select_limb by assumption. now destruct (c =? 0).
Qed.

Lemma select_choice_spec a b c :
  wf_limbs 4 a -> wf_limbs 4 b -> select_choice a b c = if c then b else a.
Proof. intros A B. unfold select_choice. limbs4 A. limbs4 B. now destruct c. Qed.

Lemma swap_limb x y c :
  0 <= x < 2 ^ 64 -> 0 <= y < 2 ^ 64 ->
  Z.lxor x (Z.land (Z.lxor x y) (mask_of c)) = (if c =? 0 then x else y) /\
  Z.lxor y (Z.land (Z.lxor x y) (mask_of c)) = (if c =? 0 then y else x).
Proof.
  intros X Y. unfold mask_of. destruct (c =? 0); cbn [negb].
  - rewrite Z.land_0_r, !Z.lxor_0_r. auto.
  - assert (L : 0 <= Z.lxor x y < 2 ^ 64).
    { split; [apply Z.lxor_nonneg; lia|]. destruct (Z.eqb_spec (Z.lxor x y) 0); [lia|].
      apply Z.log2_lt_pow2; [assert (0 <= Z.lxor x y) by (apply Z.lxor_nonneg; lia); lia|].
      eapply Z.le_lt_trans; [apply Z.log2_lxor; lia|].
      apply Z.max_lub_lt; (destruct (Z.eq_dec x 0), (Z.eq_dec y 0); subst;
        try (cbn; lia); apply Z.log2_lt_pow2; lia). }
    rewrite land_u64_max by lia. split.
    + now rewrite <- Z.lxor_assoc, Z.lxor_nilpotent, Z.lxor_0_l.
    + now rewrite (Z.lxor_comm x y), <- Z.lxor_assoc, Z.lxor_nilpotent, Z.lxor_0_l.
Qed.

Lemma cswap_spec a b c :
  wf_limbs 4 a -> wf_limbs 4 b -> cswap a b c = if c =? 0 then (a, b) else (b, a).
Proof.
  intros A B. unfold cswap. limbs4 A. limbs4 B. unfold for_range. cbn [seq fold_left upd limb nth].
  repeat match goal with
         | |- context [Z.lxor ?x (Z.land (Z.lxor ?x ?y) (mask_of c))] =>
             destruct (swap_limb x y c) as [-> ->]; [assumption..|]
         end.
  now destruct (c =? 0).
Qed.

Lemma ccopy_spec dst src c :
  wf_limbs 4 dst -> wf_limbs 4 src -> ccopy dst src c = if c =? 0 then dst else src.
Proof.
  intros A B. unfold ccopy. limbs4 A. limbs4 B. unfold for_range. cbn [seq fold_left upd limb nth].
  rewrite !select_limb by assumption. now destruct (c =? 0).
Qed.

Lemma shr1_limb x y :
  0 <= x < 2 ^ 64 ->
  Z.lor (Z.shiftr x 1) (as_u64 (Z.shiftl (Z.land y 1) 63)) = x / 2 + 2 ^ 63 * (y mod 2).
Proof.
  intros X. change 1 with (Z.ones 1) at 2. rewrite Z.land_ones by lia. change (2 ^ 1) with 2.
  pose proof (Z.mod_pos_bound y 2). unfold as_u64.
  rewrite Z.mod_small by (rewrite Z.shiftl_mul_pow2 by lia; lia).
  rewrite Z.shiftr_div_pow2 by lia. change (2 ^ 1) with 2.
  rewrite Z.lor_comm, lor_shiftl_add by (Z.div_mod_to_equations; lia). lia.
Qed.

Lemma shr1_spec a : wf_limbs 4 a -> wf_limbs 4 (shr1 a) /\ eval (shr1 a) = eval a / 2.
Proof.
  intros W. unfold shr1. limbs4 W. cbn [Nat.add nth].
  rewrite !shr1_limb by assumption. rewrite Z.shiftr_div_pow2 by lia. change (2 ^ 1) with 2.
  split.
  - split; [reflexivity|].
    repeat (apply Forall_cons; [Z.div_mod_to_equations; lia|]). apply Forall_nil.
  - cbn [eval]. apply (Z.div_unique _ _ _ (x mod 2)); [Z.div_mod_to_equations; lia|].
    Z.div_mod_to_equations. lia.
Qed.

Lemma bits_from_spec n a i :
  wf_limbs n a ->
  bits_from i a = (if eval (firstn i a) =? 0 then 0 else Z.log2 (eval (firstn i a)) + 1).
Proof.
  intros W. induction i; cbn [bits_from]; [reflexivity|].
  pose proof (wf_limb _ _ i W) as L. pose proof (eval_firstn_bound n i a W) as B.
  rewrite eval_firstn_S, IHi. destruct (Z.eqb_spec (limb a i) 0) as [-> |NZ]; cbn [negb].
  - now rewrite Z.mul_0_l, Z.add_0_r.
  - unfold leading_zeros. destruct (Z.eqb_spec (limb a i) 0); [lia|].
    set (e := eval (firstn i a)) in *. set (k := 64 * Z.of_nat i) in *.
    assert (0 < 2 ^ k) by (apply Z.pow_pos_nonneg; lia).
    destruct (Z.eqb_spec (e + limb a i * 2 ^ k) 0); [nia|].
    assert (Z.log2 (e + limb a i * 2 ^ k) = k + Z.log2 (limb a i)); [|lia].
    pose proof (Z.log2_spec (limb a i) ltac:(lia)). pose proof (Z.log2_nonneg (limb a i)).
    apply Z.log2_unique; [lia|]. rewrite Z.pow_succ_r, !Z.pow_add_r by lia.
    rewrite Z.pow_succ_r in * by lia. nia.
Qed.

(** ** Byte encodings *)

Lemma from_be_zeros n l : from_be (repeat 0 n ++ l) = from_be l.
Proof.
  induction n; cbn [repeat app]; [reflexivity|]. rewrite from_be_cons. lia.
Qed.

Lemma wf_bytes_zeros n : wf_bytes (repeat 0 n) = true.
Proof. induction n; [reflexivity|]. cbn [repeat]. rewrite wf_bytes_cons, IHn. reflexivity. Qed.

Lemma from_be_word l : wf_bytes l = true -> List.length l = 8%nat -> 0 <= from_be l < 2 ^ 64.
Proof. intros W L. apply from_be_bound in W. unfold len in W. rewrite L in W. exact W. Qed.

Lemma from_be_words w3 w2 w1 w0 :
  List.length w2 = 8%nat -> List.length w1 = 8%nat -> List.length w0 = 8%nat ->
  from_be (w3 ++ w2 ++ w1 ++ w0) = eval [from_be w0; from_be w1; from_be w2; from_be w3].
Proof.
  intros L2 L1 L0. rewrite !from_be_app. unfold len. rewrite !length_app, L2, L1, L0.
  cbn [eval Nat.add Z.of_nat]. change (256 ^ Z.of_nat 8) with (2 ^ 64).
  change (256 ^ Z.of_nat 16) with (2 ^ 128). change (256 ^ Z.of_nat 24) with (2 ^ 192). lia.
Qed.

Lemma split_words (l : bytes) :
  List.length l = 32%nat ->
  exists w3 w2 w1 w0, l = w3 ++ w2 ++ w1 ++ w0 /\ List.length w3 = 8%nat /\
    List.length w2 = 8%nat /\ List.length w1 = 8%nat /\ List.length w0 = 8%nat.
Proof.
  intros L.
  exists (firstn 8 l), (firstn 8 (skipn 8 l)), (firstn 8 (skipn 16 l)), (skipn 24 l).
  rewrite !length_firstn, !length_skipn, L. split; [|auto].
  rewrite <- (firstn_skipn 8 l) at 1. f_equal.
  rewrite <- (firstn_skipn 8 (skipn 8 l)) at 1. f_equal.
  rewrite skipn_skipn. cbn [Nat.add].
  rewrite <- (firstn_skipn 8 (skipn 16 l)) at 1. f_equal. rewrite skipn_skipn. reflexivity.
Qed.

(** The words read from a 32-byte buffer, from its four 8-byte parts. *)
Lemma words_app (w3 w2 w1 w0 : bytes) :
  List.length w3 = 8%nat -> List.length w2 = 8%nat -> List.length w1 = 8%nat -> List.length w0 = 8%nat ->
  let l := w3 ++ w2 ++ w1 ++ w0 in
  firstn 8 (skipn 0 l) = w3 /\ firstn 8 (skipn 8 l) = w2 /\
  firstn 8 (skipn 16 l) = w1 /\ firstn 8 (skipn 24 l) = w0.
Proof.
  intros L3 L2 L1 L0.
  repeat match goal with
         | H : List.length ?w = _ |- _ =>
             do 8 (destruct w; [discriminate|]); destruct w; [|discriminate]; clear H
         end.
  repeat split.
Qed.

Lemma from_bytes_be_spec bs :
  wf_bytes bs = true -> len bs <= 32 ->
  exists a, from_bytes_be bs = Some a /\ wf_limbs 4 a /\ eval a = from_be bs /\
    to_bytes_be a = repeat 0 (32 - List.length bs) ++ bs.
Proof.
  intros W L. unfold from_bytes_be. destruct (Z.ltb_spec 32 (len bs)); [lia|].
  cbv zeta. rewrite <- (from_be_zeros (32 - List.length bs) bs).
  assert (Wp : wf_bytes (repeat 0 (32 - List.length bs) ++ bs) = true)
    by (rewrite wf_bytes_app, wf_bytes_zeros, W; reflexivity).
  destruct (split_words (repeat 0 (32 - List.length bs) ++ bs)) as (w3 & w2 & w1 & w0 & E & L3 & L2 & L1 & L0).
  { rewrite length_app, repeat_length. unfold len in *. lia. }
  rewrite E in *. destruct (words_app w3 w2 w1 w0 L3 L2 L1 L0) as (-> & -> & -> & ->).
  rewrite !wf_bytes_app, !andb_true_iff in Wp. destruct Wp as (B3 & B2 & B1 & B0).
  eexists. split; [reflexivity|]. split; [|split].
  - split; [reflexivity|]. repeat (apply Forall_cons; [now apply from_be_word|]). apply Forall_nil.
  - symmetry. now apply from_be_words.
  - unfold to_bytes_be, limb; cbn [nth].
    repeat (f_equal; [match goal with L : List.length ?w = 8%nat |- be_bytes 8 (from_be ?w) = _ =>
      rewrite <- L; now apply be_bytes_from_be end|]).
    rewrite <- L0 at 1. now apply be_bytes_from_be.
Qed.

Lemma to_bytes_be_spec a :
  wf_limbs 4 a ->
  len (to_bytes_be a) = 32 /\ wf_bytes (to_bytes_be a) = true /\
  from_be (to_bytes_be a) = eval a /\ from_bytes_be (to_bytes_be a) = Some a.
Proof.
  intros W.
  assert (L : List.length (to_bytes_be a) = 32%nat)
    by (unfold to_bytes_be; now rewrite !length_app, !length_be_bytes).
  assert (B : wf_bytes (to_bytes_be a) = true)
    by (unfold to_bytes_be; now rewrite !wf_bytes_app, !wf_be_bytes).
  assert (E : from_be (to_bytes_be a) = eval a).
  { unfold to_bytes_be. rewrite from_be_words by apply length_be_bytes. limbs4 W.
    unfold limb; cbn [nth]. rewrite !from_be_bytes_small by assumption. reflexivity. }
  split; [unfold len; lia|]. split; [assumption|]. split; [assumption|].
  destruct (from_bytes_be_spec (to_bytes_be a) B) as (a' & -> & W' & E' & _); [unfold len; lia|].
  f_equal. apply (eval_inj 4); [assumption..|lia].
Qed.

(** ** A modulus with a zero top limb *)

Lemma fold_none {A B : Type} (f : A -> B -> option A) l :
  fold_left (fun o x => match o with Some a => f a x | None => None end) l None = None.
Proof. induction l; auto. Qed.

Lemma fold_limbs_ge l v :
  Forall (fun x => 0 <= x < 2 ^ 64) l -> 0 <= v -> v <= fold_left (fun v x => v * 2 ^ 64 + x) l v.
Proof.
  intros F; revert v; induction F; intros v V; cbn [fold_left]; [lia|].
  eapply Z.le_trans; [|apply IHF]; nia.
Qed.

Lemma schoolbook_fold_zero_top m l rem :
  wf_limbs 4 m -> limb m 3 = 0 -> wf_limbs 5 rem -> eval rem < eval m ->
  Forall (fun x => 0 <= x < 2 ^ 64) l ->
  let v := fold_left (fun v x => v * 2 ^ 64 + x) l (eval rem) in
  let run := fold_left (fun o x => match o with Some rem => schoolbook_step m rem x | None => None end)
               l (Some rem) in
  if v <? eval m then exists r, run = Some r /\ wf_limbs 5 r /\ eval r = v else run = None.
Proof.
  intros Wm M3. revert rem; induction l as [|x l IH]; intros rem Wr L F; cbn [fold_left].
  - rewrite (proj2 (Z.ltb_lt _ _) L). exists rem. auto.
  - inversion F as [|? ? X F']; subst.
    pose proof (schoolbook_step_zero_top m rem x Wm M3 Wr L X) as S.
    destruct (Z.ltb_spec (eval rem * 2 ^ 64 + x) (eval m)).
    + destruct S as (r & -> & Wr' & Er). rewrite <- Er in *. apply IH; assumption.
    + rewrite S, fold_none.
      pose proof (eval_bound rem (proj2 Wr)).
      pose proof (fold_limbs_ge l (eval rem * 2 ^ 64 + x) F').
      destruct (Z.ltb_spec (fold_left (fun v x => v * 2 ^ 64 + x) l (eval rem * 2 ^ 64 + x)) (eval m));
        [nia|reflexivity].
Qed.

Lemma schoolbook_zero_top_spec low high m :
  wf_limbs 4 low -> wf_limbs 4 high -> wf_limbs 4 m -> limb m 3 = 0 -> 0 < eval m ->
  mod_reduce_512_schoolbook low high m =
  (if eval low + 2 ^ 256 * eval high <? eval m then Some low else None).
Proof.
  intros Wl Wh Wm M3 HM. unfold mod_reduce_512_schoolbook. pose proof (wf256_eval_bound m Wm).
  assert (V : fold_left (fun v x => v * 2 ^ 64 + x)
    [limb high 3; limb high 2; limb high 1; limb high 0; limb low 3; limb low 2; limb low 1; limb low 0]
    (eval [0; 0; 0; 0; 0]) = eval low + 2 ^ 256 * eval high).
  { clear - Wl Wh. limbs4 Wl. limbs4 Wh. unfold limb; cbn [nth fold_left eval]. lia. }
  match goal with |- context [fold_left _ ?l (Some ?r)] =>
    pose proof (schoolbook_fold_zero_top m l r Wm M3) as Z; cbv zeta in Z; rewrite V in Z end.
  destruct (Z.ltb_spec (eval low + 2 ^ 256 * eval high) (eval m)) as [Lt|Ge].
  - destruct Z as (r & -> & Wr & Er); [wf_const|exact HM|repeat (apply Forall_cons; [eauto with wf|]); apply Forall_nil|].
    pose proof (wf256_eval_bound low Wl). pose proof (wf256_eval_bound high Wh).
    assert (R4 : limb r 4 = 0) by (apply limb4_zero; [assumption|lia]).
    f_equal. apply (eval_inj 4).
    + split; [reflexivity|]. repeat (apply Forall_cons; [eauto with wf|]). apply Forall_nil.
    + assumption.
    + rewrite <- (firstn4_eval r Wr R4) in Er.
      destruct Wr as [Lr _]. do 5 (destruct r as [|? r]; [discriminate|]).
      cbn [firstn] in Er. unfold limb; cbn [nth]. rewrite Er. lia.
  - rewrite Z; [reflexivity|wf_const|exact HM|repeat (apply Forall_cons; [eauto with wf|]); apply Forall_nil].
Qed.

(** ** Properties *)

(** The carry chains are exact: for any two 256-bit values the sum with its
    carry, the difference with its borrow and the 512-bit product represent the
    integer results, on well-formed limbs, and [cmp] is the sign of the
    difference. *)
Theorem z256_arith_exact (a b : Z256) :
  wf256 a = true -> wf256 b = true ->
  (let '(r, c) := add_with_carry a b in
   wf256 r = true /\ (c = 0 \/ c = 1) /\ eval r + c * 2 ^ 256 = eval a + eval b) /\
  (let '(r, c) := sub_with_borrow a b in
   wf256 r = true /\ (c = 0 \/ c = 1) /\ eval r - c * 2 ^ 256 = eval a - eval b) /\
  (let '(lo, hi) := mul_wide a b in
   wf256 lo = true /\ wf256 hi = true /\ eval lo + 2 ^ 256 * eval hi = eval a * eval b) /\
  cmp a b = Z.sgn (eval a - eval b).
Proof.
  rewrite !wf256_iff. intros A B.
  call_add r c W C E. call_sub r' c' W' C' E'. call_mul lo hi W1 W2 E1.
  rewrite cmp_spec by assumption.
  repeat split; try (apply wf256_iff; assumption); lia.
Qed.

Lemma z256_arith_exact_witness :
  (let '(lo, hi) := mul_wide P N in eval lo + 2 ^ 256 * eval hi = eval P * eval N) /\
  cmp P N = 1.
Proof.
  destruct (z256_arith_exact P N) as (_ & _ & M & C); [reflexivity..|].
  split; [|rewrite C; reflexivity].
  destruct (mul_wide P N). exact (proj2 (proj2 M)).
Defined.

(** C29. The reduction of a 512-bit value returns the remainder for every modulus
    with a non-zero top limb: Barrett's path (the SM9 modulus and group order)
    never fails a debug assertion and needs no more than the single final
    subtraction, the schoolbook path ends. A modulus with a zero top limb is
    handled only when the value is already reduced; otherwise the schoolbook
    path divides by the zero limb. *)
Theorem mod_reduce_512_correct (low high m : Z256) :
  wf256 low = true -> wf256 high = true -> wf256 m = true ->
  (0 < limb m 3 ->
   exists r, mod_reduce_512 low high m = Some r /\ wf256 r = true /\
     eval r = (eval low + 2 ^ 256 * eval high) mod eval m) /\
  (limb m 3 = 0 -> 0 < eval m ->
   mod_reduce_512 low high m =
   if eval low + 2 ^ 256 * eval high <? eval m then Some low else None).
Proof.
  rewrite !wf256_iff. intros Wl Wh Wm. split.
  - intros M3. destruct (mod_reduce_512_spec low high m) as (r & E & W & V); try assumption.
    exists r. split; [assumption|]. split; [now apply wf256_iff|assumption].
  - intros M3 HM. unfold mod_reduce_512, z256_eq. rewrite M3.
    change (0 =? limb N 3) with false. change (0 =? limb P 3) with false.
    rewrite !andb_false_r. now apply schoolbook_zero_top_spec.
Qed.

Lemma mod_reduce_512_correct_witness :
  (exists r, mod_reduce_512 [1; 2; 3; 4] [5; 6; 7; 8] N = Some r /\
     eval r = (eval [1; 2; 3; 4] + 2 ^ 256 * eval [5; 6; 7; 8]) mod eval N) /\
  mod_reduce_512 [5; 0; 0; 0] [1; 0; 0; 0] [7; 0; 0; 0] = None.
Proof.
  destruct (mod_reduce_512_correct [1; 2; 3; 4] [5; 6; 7; 8] N) as [A _]; [reflexivity..|].
  destruct (mod_reduce_512_correct [5; 0; 0; 0] [1; 0; 0; 0] [7; 0; 0; 0]) as [_ B]; [reflexivity..|].
  split.
  - destruct (A eq_refl) as (r & E & _ & V). exists r. auto.
  - apply (B eq_refl eq_refl).
Defined.

(** Modular operations on 256-bit values: [modmul] is the product modulo any
    modulus with a non-zero top limb, for operands that need not be reduced (the
    subtraction loop of its one-word path ends), [sub_mod] of reduced operands is
    the reduced difference, and [compute_2_256_mod_m] is the power of two. *)
Theorem modular_ops_correct (a b m : Z256) :
  wf256 a = true -> wf256 b = true -> wf256 m = true -> 0 < limb m 3 ->
  (exists r, modmul a b m = Some r /\ wf256 r = true /\ eval r = (eval a * eval b) mod eval m) /\
  (eval a < eval m -> eval b < eval m ->
   wf256 (sub_mod a b m) = true /\ eval (sub_mod a b m) = (eval a - eval b) mod eval m) /\
  (1 < eval m -> eval (compute_2_256_mod_m m) = 2 ^ 256 mod eval m).
Proof.
  rewrite !wf256_iff. intros A B M M3. split; [|split].
  - destruct (modmul_spec a b m) as (r & E & W & V); try assumption.
    exists r. split; [assumption|]. split; [now apply wf256_iff|assumption].
  - intros. now apply sub_mod_spec.
  - intros. now apply compute_2_256_spec.
Qed.

Lemma modular_ops_correct_witness :
  (exists r, modmul P ONE N = Some r /\ eval r = (eval P * eval ONE) mod eval N) /\
  eval (sub_mod ONE [7; 0; 0; 0] N) = (1 - 7) mod eval N.
Proof.
  destruct (modular_ops_correct P ONE N) as [(r & E & _ & V) _]; [reflexivity..|].
  destruct (modular_ops_correct ONE [7; 0; 0; 0] N) as [_ [S _]]; [reflexivity..|].
  split; [exists r; auto|]. exact (proj2 (S eq_refl eq_refl)).
Defined.

(** The 32-byte encoding and the limbs agree: encoding is 32 big-endian bytes
    of the value and decodes to the same limbs; a shorter string decodes as its
    zero-padded value and re-encodes to the padding; a longer one is refused. *)
Theorem z256_bytes_roundtrip (a : Z256) (bs : bytes) :
  wf256 a = true -> wf_bytes bs = true ->
  (len (to_bytes_be a) = 32 /\ from_be (to_bytes_be a) = eval a /\
   from_bytes_be (to_bytes_be a) = Some a) /\
  (if len bs <=? 32 then
     exists v, from_bytes_be bs = Some v /\ wf256 v = true /\ eval v = from_be bs /\
       to_bytes_be v = repeat 0 (32 - List.length bs) ++ bs
   else from_bytes_be bs = None).
Proof.
  intros A B. split.
  - apply wf256_iff in A. destruct (to_bytes_be_spec a A) as (? & _ & ? & ?). auto.
  - destruct (Z.leb_spec (len bs) 32).
    + destruct (from_bytes_be_spec bs B) as (v & E & W & V & T); [assumption|].
      exists v. split; [assumption|]. split; [now apply wf256_iff|]. auto.
    + unfold from_bytes_be. now rewrite (proj2 (Z.ltb_lt _ _)).
Qed.

Lemma z256_bytes_roundtrip_witness :
  from_bytes_be (to_bytes_be N) = Some N /\
  exists v, from_bytes_be [1; 2; 3] = Some v /\ eval v = 66051.
Proof.
  destruct (z256_bytes_roundtrip N [1; 2; 3]) as [(_ & _ & R) S]; [reflexivity..|].
  cbn in S. destruct S as (v & E & _ & V & _). split; [exact R|exists v; auto].
Defined.

(** Bit access and the branch-free helpers compute what their branching
    readings say: [bit] and [ct_bit] are the bits of the value, [ct_eq] is
    equality of values, the masked selections, the conditional swap and copy
    return one operand or the other whole, [shr1] halves, [bits] is the bit
    length. *)
Theorem z256_bits_and_selection (a b : Z256) (n c : Z) :
  wf256 a = true -> wf256 b = true -> 0 <= n ->
  bit a n = Z.testbit (eval a) n /\ ct_bit a n = Z.testbit (eval a) n /\
  ct_eq a b = (eval a =? eval b) /\
  conditional_select a b c = (if c =? 0 then a else b) /\
  select_choice a b (negb (c =? 0)) = (if c =? 0 then a else b) /\
  cswap a b c = (if c =? 0 then (a, b) else (b, a)) /\
  ccopy a b c = (if c =? 0 then a else b) /\
  eval (shr1 a) = eval a / 2 /\
  bits a = (if eval a =? 0 then 0 else Z.log2 (eval a) + 1).
Proof.
  rewrite !wf256_iff. intros A B Hn.
  rewrite bit_spec, ct_bit_spec, ct_eq_spec, z256_eq_spec, conditional_select_spec,
    select_choice_spec, cswap_spec, ccopy_spec, (proj2 (shr1_spec a A)) by assumption.
  unfold bits. rewrite (bits_from_spec 4), (firstn_wf 4) by assumption.
  repeat split. now destruct (c =? 0).
Qed.

Lemma z256_bits_and_selection_witness :
  ct_bit P 255 = true /\ cswap P N 1 = (N, P) /\ bits N = 256.
Proof.
  destruct (z256_bits_and_selection P N 255 1) as (_ & B & _ & _ & _ & S & _); [reflexivity..|lia|].
  destruct (z256_bits_and_selection N P 0 0) as (_ & _ & _ & _ & _ & _ & _ & _ & L); [reflexivity..|lia|].
  split; [rewrite B; reflexivity|]. split; [exact S|]. rewrite L. reflexivity.
Defined.
