(* ===== verification/Primality.v ===== *)
(** Primality certificates, and the primality of the SM9 field modulus.

    [Fp] inverts by Fermat's theorem and reduces products by a single
    subtraction; both are right because the modulus [Z256.P] is prime. The
    proof is Pocklington's: a base [a] of order divisible by each prime of a
    partial factorisation [F] of [n - 1] forces every prime divisor of [n] to
    be 1 modulo [F], which excludes factorisations when [F > n^(1/2)], and, with
    a discriminant that is not a square, already when [F >= n^(1/3)]. *)

From Stdlib Require Import Bool ZArith Lia List Znumtheory Zmod.
From S2P Require Import Prelude Z256.
Import ListNotations.
Open Scope Z_scope.

(** ** Modular exponentiation and certificates *)

Fixpoint powmod_pos (n a : Z) (e : positive) : Z :=
  match e with
  | xH => a mod n
  | xO e' => let r := powmod_pos n a e' in (r * r) mod n
  | xI e' => let r := powmod_pos n a e' in (((r * r) mod n) * a) mod n
  end.
Definition powmod (n a e : Z) : Z :=
  match e with Zpos p => powmod_pos n a p | _ => 1 mod n end.

Definition product (qs : list Z) : Z := fold_right Z.mul 1 qs.

(** [b = a^((n-1)/F)] has order exactly divisible by every [q] of [qs]. *)
Definition order_check (n a : Z) (qs : list Z) : bool :=
  let F := product qs in
  let b := powmod n a ((n - 1) / F) in
  ((n - 1) mod F =? 0) && (powmod n b F =? 1) &&
  forallb (fun q => Z.gcd (powmod n b (F / q) - 1) n =? 1) qs.

Fixpoint distinct (qs : list Z) : bool :=
  match qs with
  | [] => true
  | q :: t => negb (existsb (Z.eqb q) t) && distinct t
  end.

Definition trial_check (n : Z) (fuel : nat) : bool :=
  (Z.of_nat fuel * Z.of_nat fuel >? n) &&
  forallb (fun d => negb (n mod Z.of_nat d =? 0)) (seq 2 (fuel - 2)).

Definition q1 : Z := 1548931712415341.
Definition q2 : Z := 1148033837.
(** The primes whose product, above the cube root of the modulus, divides its
    predecessor. *)
Definition p_factors : list Z := [2; 47; q1; q2].

(** ** Lemmas *)

Lemma powmod_pos_spec n a e : 0 < n -> powmod_pos n a e = a ^ Zpos e mod n.
Proof.
  intros Hn. induction e as [e IH|e IH|]; cbn [powmod_pos].
  - rewrite IH, <- (Z.mul_mod (a ^ Z.pos e)), Z.mul_mod_idemp_l by lia. f_equal. rewrite Pos2Z.inj_xI, Z.pow_add_r, Z.pow_1_r by lia. f_equal.
    rewrite <- Z.add_diag, Z.pow_add_r by lia. reflexivity.
  - rewrite IH, <- Z.mul_mod by lia. f_equal.
    rewrite Pos2Z.inj_xO, <- Z.add_diag, Z.pow_add_r by lia. reflexivity.
  - now rewrite Z.pow_1_r.
Qed.

Lemma powmod_spec n a e : 0 < n -> 0 <= e -> powmod n a e = a ^ e mod n.
Proof.
  intros Hn He. destruct e; cbn [powmod]; [reflexivity|now apply powmod_pos_spec|lia].
Qed.

Lemma pow_mod_divide n d a e : (d | n) -> 0 < d -> 0 < n -> (a ^ e mod n) mod d = a ^ e mod d.
Proof. intros D Hd Hn. now apply Z.mod_mod_divide. Qed.

Lemma pow_mod_1 d b k : 1 < d -> 0 <= k -> b mod d = 1 -> b ^ k mod d = 1.
Proof. intros Hd Hk E. rewrite <- Z.mod_pow_l, E, Z.pow_1_l by lia. now apply Z.mod_small. Qed.

(** An element whose exponents [q] and [p - 1], coprime, both give 1 is 1. *)
Lemma coprime_exponents p b q r :
  1 < p -> 0 < q -> 0 < r -> Z.coprime q r ->
  b ^ q mod p = 1 -> b ^ r mod p = 1 -> b mod p = 1.
Proof.
  intros Hp Hq Hr C Eq Er.
  apply Z.Bezout_coprime_iff in C. destruct C as (u & v & UV).
  set (k := Z.abs u + Z.abs v).
  assert (U : (u + k * r) * q = 1 + (k * q - v) * r) by lia.
  assert (0 <= u + k * r) by (subst k; nia). assert (0 <= k * q - v) by (subst k; nia).
  pose proof (pow_mod_1 p (b ^ q) (u + k * r) Hp ltac:(assumption) Eq) as E1.
  rewrite <- Z.pow_mul_r, Z.mul_comm, U, Z.pow_add_r, Z.pow_1_r in E1 by nia.
  rewrite (Z.mul_comm (k * q - v)), Z.pow_mul_r in E1 by lia.
  rewrite <- Z.mul_mod_idemp_r, pow_mod_1, Z.mul_1_r in E1 by (assumption || lia).
  exact E1.
Qed.

Lemma product_pos qs : Forall (fun q => 0 < q) qs -> 0 < product qs.
Proof. induction 1; cbn [product fold_right]; [lia|]. unfold product in *. nia. Qed.

Lemma product_factor qs q :
  Forall (fun q => 0 < q) qs -> In q qs -> exists k, 0 < k /\ product qs = k * q.
Proof.
  induction 1 as [|x t X T IH]; [easy|]. pose proof (product_pos t T).
  change (product (x :: t)) with (x * product t). intros [->|I].
  - exists (product t). lia.
  - destruct (IH I) as (k & K & E). exists (x * k). rewrite E. nia.
Qed.

Lemma order_divides n a qs q p :
  1 < n -> Forall (fun q => 0 < q) qs -> In q qs -> Z.prime q -> Z.prime p -> (p | n) ->
  order_check n a qs = true -> (q | p - 1).
Proof.
  intros Hn Pos Iq Q Pp D C. unfold order_check in C.
  apply andb_true_iff in C as [C Ca]. apply andb_true_iff in C as [Cf Cb].
  rewrite forallb_forall in Ca. specialize (Ca q Iq). apply Z.eqb_eq in Ca, Cb, Cf.
  set (b := powmod n a ((n - 1) / product qs)) in *. set (F := product qs) in *.
  pose proof (Z.prime_ge_2 _ Q). pose proof (Z.prime_ge_2 _ Pp).
  pose proof (product_factor qs q Pos Iq) as Fq.
  destruct Fq as (k & K & EF). fold F in EF. rewrite EF, Z.div_mul in Ca by lia. rewrite EF in Cb.
  rewrite powmod_spec in Ca, Cb by nia.
  destruct (Z.BoolSpec_divide q (p - 1)) as [|ND]; [assumption|exfalso].
  assert (C : Z.coprime q (p - 1)) by (now apply Z.coprime_prime_l).
  assert (Eq : (b ^ k) ^ q mod p = 1).
  { rewrite <- Z.pow_mul_r by lia. rewrite <- (pow_mod_divide n p), Cb by (assumption || lia).
    apply Z.mod_small. lia. }
  assert (NZ : b ^ k mod p <> 0).
  { intros Z0. rewrite <- Z.mod_pow_l, Z0, Z.pow_0_l, Z.mod_0_l in Eq by lia. lia. }
  pose proof (Z.fermat_nz p (b ^ k) Pp NZ) as Er.
  pose proof (coprime_exponents p (b ^ k) q (p - 1) ltac:(lia) ltac:(lia) ltac:(lia) C Eq Er) as E1.
  rewrite <- (pow_mod_divide n p) in E1 by (assumption || lia).
  assert (Dd : (p | Z.gcd (b ^ k mod n - 1) n)).
  { apply Z.gcd_greatest; [|assumption]. apply Z.mod_divide; [lia|].
    rewrite Zminus_mod, E1, (Z.mod_small 1), Z.sub_diag by lia. reflexivity. }
  rewrite Ca in Dd. apply Z.divide_1_r_nonneg in Dd; lia.
Qed.

Lemma distinct_product_divides qs m :
  Forall Z.prime qs -> distinct qs = true -> (forall q, In q qs -> (q | m)) -> (product qs | m).
Proof.
  induction qs as [|q t IH]; intros Pr Di Dv; cbn [product fold_right]; [apply Z.divide_1_l|].
  inversion Pr as [|? ? Hq Ht]; subst. cbn [distinct] in Di.
  apply andb_true_iff in Di as [Nq Di]. apply negb_true_iff in Nq.
  destruct (IH Ht Di ltac:(intros; apply Dv; now right)) as [k Ek].
  assert (C : Z.coprime q (product t)).
  { apply Z.coprime_prime_l; [assumption|]. intros D. clear - Ht Nq D Hq.
    induction t as [|x t IH]; cbn [product fold_right existsb] in *.
    - apply Z.divide_1_r_nonneg in D; pose proof (Z.prime_ge_2 _ Hq); lia.
    - inversion Ht; subst. apply orb_false_iff in Nq as [Nx Nt]. apply Z.eqb_neq in Nx.
      apply Z.divide_prime_mul in D as [D|D]; [|now apply IH|assumption].
      apply Nx. now apply Z.divide_prime_prime. }
  destruct (Dv q ltac:(now left)) as [j Ej].
  assert (D : (q | k)).
  { apply (Z.gauss _ (product t)); [|exact C]. exists j. lia. }
  destruct D as [i ->]. exists i. unfold product in *. lia.
Qed.

(** A number that is not prime has a prime divisor, with a cofactor above 1. *)
Lemma not_prime_factor n :
  1 < n -> ~ Z.prime n -> exists p d, Z.prime p /\ n = p * d /\ 1 < d.
Proof.
  intros Hn. assert (H0 : 0 <= n) by lia. revert n H0 Hn.
  apply (Z_lt_induction (fun n => 1 < n -> ~ Z.prime n -> exists p d, Z.prime p /\ n = p * d /\ 1 < d)).
  intros n IH Hn NP.
  destruct (List.existsb (fun k => n mod Z.of_nat k =? 0) (seq 2 (Z.to_nat (n - 2)))) eqn:E.
  - apply existsb_exists in E as (k & Ik & Ek). apply in_seq in Ik. apply Z.eqb_eq in Ek.
    apply Z.mod_divide in Ek as [c Ec]; [|lia].
    destruct (Znumtheory.prime_dec (Z.of_nat k)) as [Pk|Pk].
    + exists (Z.of_nat k), c. split; [now apply prime_alt|]. split; nia.
    + destruct (IH (Z.of_nat k)) as (p & d & Pp & Ed & Hd); [lia|lia|now rewrite prime_alt|].
      exists p, (d * c). split; [assumption|]. split; nia.
  - exfalso. apply NP. split; [assumption|]. intros m Hm [c Ec].
    assert (T : existsb (fun k => n mod Z.of_nat k =? 0) (seq 2 (Z.to_nat (n - 2))) = true); [|congruence].
    apply existsb_exists. exists (Z.to_nat m). split; [apply in_seq; lia|].
    apply Z.eqb_eq. rewrite Z2Nat.id by lia. apply Z.mod_divide; [lia|]. now exists c.
Qed.

Lemma prime_by_contra n : (~ Z.prime n -> False) -> Z.prime n.
Proof. intros H. destruct (Znumtheory.prime_dec n) as [P|P]; [now apply prime_alt|]. exfalso. apply H. now rewrite prime_alt. Qed.

Lemma trial_prime n fuel : 1 < n -> trial_check n fuel = true -> Z.prime n.
Proof.
  intros Hn C. apply andb_true_iff in C as [B C]. apply Z.gtb_lt in B.
  apply prime_by_contra. intros NP.
  destruct (not_prime_factor n Hn NP) as (p & d & Pp & E & Hd). pose proof (Z.prime_ge_2 _ Pp).
  rewrite forallb_forall in C.
  assert (M : forall m, 2 <= m -> (m | n) -> Z.of_nat fuel <= m).
  { intros m Hm [c Ec]. destruct (Z.leb_spec (Z.of_nat fuel) m); [assumption|exfalso].
    specialize (C (Z.to_nat m) ltac:(apply in_seq; lia)).
    rewrite Z2Nat.id in C by lia. rewrite Ec, Z.mod_mul in C by lia. discriminate. }
  pose proof (M p ltac:(lia) ltac:(exists d; lia)). pose proof (M d ltac:(lia) ltac:(exists p; lia)). nia.
Qed.

Section Pocklington.
Context (n a : Z) (qs : list Z).
Hypothesis Hn : 1 < n.
Hypothesis Hq : Forall Z.prime qs.
Hypothesis Hd : distinct qs = true.
Hypothesis Ho : order_check n a qs = true.

Let F := product qs.

Lemma primes_pos : Forall (fun q => 0 < q) qs.
Proof. eapply Forall_impl; [|exact Hq]. intros q Q. pose proof (Z.prime_ge_2 _ Q). lia. Qed.

(** Any proper factorisation of [n] has factors [1 + xF] and [1 + yF]. *)
Lemma factor_shape :
  1 < F -> ~ Z.prime n -> exists x y, 1 <= x /\ 1 <= y /\ n = (1 + x * F) * (1 + y * F).
Proof.
  intros HF NP. destruct (not_prime_factor n Hn NP) as (p & d & Pp & E & Dd).
  pose proof (Z.prime_ge_2 _ Pp).
  assert (DF : (F | p - 1)).
  { apply distinct_product_divides; try assumption. intros q Iq.
    apply (order_divides n a qs q p); try assumption; [apply primes_pos| |exists d; lia].
    rewrite Forall_forall in Hq. auto. }
  destruct DF as [x Ex].
  assert (DN : (F | n - 1)).
  { unfold order_check in Ho. apply andb_true_iff in Ho as [H1 _]. apply andb_true_iff in H1 as [H1 _].
    apply Z.eqb_eq in H1. apply Z.mod_divide in H1; [assumption|unfold F in HF; lia]. }
  destruct DN as [c Ec].
  exists x, (c - x * d). assert (Ep : p = 1 + x * F) by lia.
  assert (Ed : d = 1 + (c - x * d) * F) by nia.
  split; [nia|]. split; [nia|]. rewrite <- Ed, <- Ep. exact E.
Qed.

Lemma pocklington_half : 1 < F -> n < F * F -> Z.prime n.
Proof.
  intros HF B. apply prime_by_contra. intros NP.
  destruct (factor_shape HF NP) as (x & y & X & Y & E). clearbody F.
  assert (F < 1 + x * F) by nia. assert (F < 1 + y * F) by nia. nia.
Qed.

Lemma pocklington_third c1 c2 s :
  1 < F -> n < F * F * F -> n = 1 + c1 * F + c2 * (F * F) -> 0 <= c1 < F ->
  0 <= s -> s * s < c1 * c1 - 4 * c2 < (s + 1) * (s + 1) -> Z.prime n.
Proof.
  intros HF B En C1 S D. apply prime_by_contra. intros NP.
  destruct (factor_shape HF NP) as (x & y & X & Y & E). clearbody F.
  assert (E1 : (x + y) + x * y * F = c1 + c2 * F) by nia.
  assert (XY : x * y < F) by nia.
  assert (Sum : x + y <= x * y + 1) by nia.
  assert (Lt : x + y < F).
  { destruct (Z.eq_dec (x + y) F); [|lia]. exfalso. nia. }
  assert (x * y = c2 /\ x + y = c1) as [E2 E3].
  { assert (x * y = c2) by nia. split; [assumption|]. subst c2. lia. }
  assert (Sq : c1 * c1 - 4 * c2 = (x - y) * (x - y)) by (subst; lia).
  rewrite Sq in D. clear - D S. set (t := x - y) in *. clearbody t.
  rewrite <- Z.abs_square in D. pose proof (Z.abs_nonneg t).
  destruct (Z.le_gt_cases (Z.abs t) s); nia.
Qed.
End Pocklington.

(** Euler's criterion from a certificate: the base is not a square. *)
Lemma certificate_nonresidue n a qs :
  Z.prime n -> Forall (fun q => 0 < q) qs -> In 2 qs -> order_check n a qs = true ->
  a ^ ((n - 1) / 2) mod n = n - 1.
Proof.
  intros Pn Pos I2 C. pose proof (Z.prime_ge_2 _ Pn). unfold order_check in C.
  apply andb_true_iff in C as [C Ca]. apply andb_true_iff in C as [Cf Cb].
  rewrite forallb_forall in Ca. specialize (Ca 2 I2). apply Z.eqb_eq in Ca, Cb, Cf.
  destruct (product_factor qs 2 Pos I2) as (k & K & EF). rewrite EF in *.
  rewrite Z.div_mul in Ca by lia. apply Z.mod_divide in Cf as [c Ec]; [|lia].
  assert (0 <= c) by nia. rewrite Ec, Z.div_mul in * by lia.
  rewrite !powmod_spec, Z.mod_pow_l, <- Z.pow_mul_r in Ca, Cb by nia.
  replace (c * (k * 2) / 2) with (c * k) by (replace (c * (k * 2)) with (c * k * 2) by lia; now rewrite Z.div_mul).
  assert (X2 : ((a ^ (c * k) mod n) * (a ^ (c * k) mod n)) mod n = 1).
  { rewrite <- Z.mul_mod, <- Z.pow_add_r by nia. rewrite <- Cb. f_equal. f_equal. lia. }
  set (x := a ^ (c * k) mod n) in *.
  assert (B : 0 <= x < n) by (apply Z.mod_pos_bound; lia). clearbody x.
  assert (D : (n | (x - 1) * (x + 1))).
  { apply Z.mod_divide; [lia|]. replace ((x - 1) * (x + 1)) with (x * x - 1) by lia.
    rewrite Zminus_mod, X2, Z.mod_1_l by lia. reflexivity. }
  apply Z.divide_prime_mul in D as [D|D]; [| |assumption].
  - exfalso. assert (G : (n | Z.gcd (x - 1) n)) by (apply Z.gcd_greatest; [assumption|apply Z.divide_refl]).
    rewrite Ca in G. apply Z.divide_1_r_nonneg in G; lia.
  - apply Z.divide_pos_le in D; lia.
Qed.

(** ** The SM9 modulus *)


Lemma prime_287008459 : Z.prime 287008459.
Proof.
  apply (pocklington_half 287008459 2 [461; 9433]); [lia| |reflexivity..].
  repeat constructor; [apply (trial_prime 461 22)|apply (trial_prime 9433 98)]; reflexivity.
Qed.

Lemma prime_1434514811 : Z.prime 1434514811.
Proof.
  apply (pocklington_half 1434514811 2 [8179; 17539]); [lia| |vm_compute; reflexivity..].
  repeat constructor; [apply (trial_prime 8179 91)|apply (trial_prime 17539 133)]; reflexivity.
Qed.

Lemma prime_17214177733 : Z.prime 17214177733.
Proof.
  apply (pocklington_half 17214177733 2 [1434514811]); [lia| |vm_compute; reflexivity..].
  repeat constructor. apply prime_1434514811.
Qed.

Lemma prime_q1 : Z.prime q1.
Proof.
  apply (pocklington_half q1 2 [17214177733]); [reflexivity| |vm_compute; reflexivity..].
  repeat constructor. apply prime_17214177733.
Qed.

Lemma prime_q2 : Z.prime q2.
Proof.
  apply (pocklington_half q2 2 [287008459]); [reflexivity| |vm_compute; reflexivity..].
  repeat constructor. apply prime_287008459.
Qed.

Lemma p_order_check : order_check (eval P) 2 p_factors = true.
Proof. vm_cast_no_check (eq_refl true). Qed.

Lemma p_factors_prime : Forall Z.prime p_factors.
Proof.
  repeat constructor; [apply Z.prime_2|apply (trial_prime 47 7); reflexivity|apply prime_q1|apply prime_q2].
Qed.

Lemma P_prime : Z.prime (eval P).
Proof.
  apply (pocklington_third (eval P) 2 p_factors) with
    (c1 := 34118248581931835505071182) (c2 := 2950372383895854464220974) (s := 34118248581931835505071181);
    [reflexivity|apply p_factors_prime|reflexivity|apply p_order_check|..].
  all: repeat split; vm_compute; congruence || reflexivity.
Qed.

(** 2 is not a square modulo [P]. *)
Lemma two_nonresidue : 2 ^ ((eval P - 1) / 2) mod eval P = eval P - 1.
Proof.
  apply (certificate_nonresidue (eval P) 2 p_factors);
    [apply P_prime|repeat constructor|now left|apply p_order_check].
Qed.
