(* ===== verification/Fp.v ===== *)
(** The prime field [Fp] of SM9 (gm-sm9-rs/src/arith/fp.rs), with the trait
    [FieldElement] of arith/mod.rs.

    An element is a 256-bit value in Montgomery form. [mont_mul] is the word by
    word (CIOS) Montgomery product on a nine-limb accumulator, as written. The
    theorems relate every operation to the field of integers modulo [P]
    (primality from [Primality]) through [val]. *)

From Stdlib Require Import Bool ZArith Lia List String Zmod Znumtheory.
From S2P Require Import Prelude Z256 Primality.
Import ListNotations.
Open Scope Z_scope.

(** ** The trait *)

Class FieldElement (A : Type) := {
  fe_ZERO : A;
  fe_ONE : A;
  fe_add : A -> A -> A;
  fe_sub : A -> A -> A;
  fe_mul : A -> A -> A;
  fe_neg : A -> A;
  fe_square : A -> A;
  fe_inv : A -> option A;
  fe_double : A -> A;
  fe_is_zero : A -> bool;
  fe_is_one : A -> bool
}.

Inductive ArithError :=
| InvalidParameter (msg : string).

(** ** Constants *)

Definition R : Z256 :=
  [0x1a9064d81caeba83; 0xde0d6cb4e5851124; 0x29fc54b00a7138ba; 0x49bffffffd5c590e].
Definition R_SQUARED : Z256 :=
  [0x27dea312b417e2d2; 0x88f8105fae1a5d3f; 0xe479b522d6706e7b; 0x2ea795a656f62fbd].
Definition R_INV : Z256 :=
  [0x0a1c7970e5df544d; 0xe74504e9a96b56cc; 0xcda02d92d4d62924; 0x7d2bc576fdf597d1].
Definition P_INV : Z := 0x892BC42C2F2EE42B.

(** [pub struct Fp(pub Z256)] *)
Definition Fp : Type := Z256.

(** ** Montgomery multiplication *)

(** One round [i] of the outer loop: add [a[i] * b], then the multiple [m] of
    the modulus that clears limb [i]. *)
Definition mont_step (a b : Z256) (i : nat) (t : list Z) : list Z :=
  let '(t, carry) := mul_row (limb a i) b i t in
  let '(sum, c) := overflowing_add (limb t (i + 4)) carry in
  let t := upd (i + 4) sum t in
  let t := upd (i + 5) (Z.b2z c) t in
  let m := as_u64 (limb t i * P_INV) in
  let '(t, carry) := mul_row m P i t in
  let '(sum1, c1) := overflowing_add (limb t (i + 4)) carry in
  let '(sum2, c2) := overflowing_add sum1 (limb t (i + 5)) in
  let t := upd (i + 4) sum2 t in
  upd (i + 5) (Z.b2z (c1 || c2)) t.

(** The scan [for i in (0..WORDS).rev()] that sets [needs_sub]: equality of all
    limbs leaves it unset. *)
Fixpoint needs_sub_scan (n : nat) (result : list Z) : bool :=
  match n with
  | O => false
  | S i => if limb P i <? limb result i then true
           else if limb result i <? limb P i then false
           else needs_sub_scan i result
  end.

Definition mont_mul (a b : Z256) : Z256 :=
  let t := for_range 4 (mont_step a b) [0; 0; 0; 0; 0; 0; 0; 0; 0] in
  let result := [limb t 4; limb t 5; limb t 6; limb t 7] in
  let carry_out := limb t 8 in
  let needs_sub := if negb (carry_out =? 0) then true else needs_sub_scan 4 result in
  if needs_sub then fst (for_range 4 (sub_step result P) ([0; 0; 0; 0], 0)) else result.

Definition regular_mul (a b : Z256) : Z256 :=
  let a_mont := mont_mul a R_SQUARED in
  let b_mont := mont_mul b R_SQUARED in
  let prod_mont := mont_mul a_mont b_mont in
  mont_mul prod_mont Z256.ONE.

(** The in-place right shift of the exponent: limbs from the top, the low bit of
    each carried into the next. *)
Definition shift_step (s : Z256 * Z) (i : nat) : Z256 * Z :=
  let '(exp, carry) := s in
  let new_carry := as_u64 (Z.shiftl (limb exp i) 63) in
  (upd i (Z.lor (Z.shiftr (limb exp i) 1) carry) exp, new_carry).
Definition shift_right (exp : Z256) : Z256 := fst (fold_left shift_step [3; 2; 1; 0]%nat (exp, 0)).

(** The [while !exp.is_zero()] loop over any multiplication and squaring; 256
    rounds exhaust a 256-bit exponent. *)
Fixpoint pow_loop {A : Type} (mul : A -> A -> A) (sq : A -> A) (fuel : nat)
    (result base : A) (exp : Z256) : A :=
  match fuel with
  | O => result
  | S fuel =>
      if Z256.is_zero exp then result
      else
        let result := if Z.land (limb exp 0) 1 =? 1 then mul result base else result in
        pow_loop mul sq fuel result (sq base) (shift_right exp)
  end.
Definition pow_fuel : nat := 256.

Definition pow (base exp : Z256) : Z256 :=
  pow_loop regular_mul (fun b => regular_mul b b) pow_fuel Z256.ONE base exp.

(** ** Elements *)

Definition ZERO : Fp := Z256.ZERO.
Definition ONE : Fp := R.

Definition from_raw (raw : Z256) : Fp := mont_mul raw R_SQUARED.
Definition from_montgomery (x : Fp) : Fp := regular_mul x R_INV.
Definition from_u64 (v : Z) : Fp := mont_mul [v; 0; 0; 0] R_SQUARED.
Definition to_bytes (x : Fp) : bytes := to_bytes_be (regular_mul x R_INV).
Definition from_bytes (bs : bytes) : outcome ArithError Fp :=
  if negb (len bs =? 32)
  then Err (InvalidParameter ("Expected 32 bytes for Fp, got " +++ dec (len bs)))
  else
    match from_bytes_be bs with
    | Some raw => Ok (from_raw raw)
    | None => Err (InvalidParameter "Invalid Fp bytes")
    end.

Definition is_zero (x : Fp) : bool := Z256.is_zero x.
Definition is_one (x : Fp) : bool := z256_eq x R.

Definition add (x y : Fp) : Fp :=
  let '(sum, carry) := add_with_carry x y in
  let '(diff, borrow) := sub_with_borrow sum P in
  let underflow := negb (carry =? 0) || (borrow =? 0) in
  conditional_select sum diff (Z.b2z underflow).

Definition sub (x y : Fp) : Fp :=
  let '(diff, borrow) := sub_with_borrow x y in
  let '(sum, _) := add_with_carry diff P in
  conditional_select diff sum (Z.b2z (negb (borrow =? 0))).

Definition neg (x : Fp) : Fp :=
  if is_zero x then ZERO else fst (sub_with_borrow P x).

Definition mul (x y : Fp) : Fp := mont_mul x y.
Definition square (x : Fp) : Fp := mul x x.
Definition double (x : Fp) : Fp := add x x.

Definition inv (x : Fp) : option Fp :=
  if is_zero x then None
  else
    let raw := mont_mul x Z256.ONE in
    let p_minus_2 := [limb P 0 - 2; limb P 1; limb P 2; limb P 3] in
    let raw_inv := pow raw p_minus_2 in
    Some (mont_mul raw_inv R_SQUARED).

Definition fp_eq (x y : Fp) : bool := z256_eq x y.
Definition fp_ct_eq (x y : Fp) : bool := ct_eq x y.
Definition fp_conditional_select (a b : Fp) (choice : bool) : Fp := select_choice a b choice.

#[export] Instance FieldElement_Fp : FieldElement Fp := {|
  fe_ZERO := ZERO; fe_ONE := ONE; fe_add := add; fe_sub := sub; fe_mul := mul; fe_neg := neg;
  fe_square := square; fe_inv := inv; fe_double := double; fe_is_zero := is_zero; fe_is_one := is_one
|}.

(** ** Abstraction: the field of integers modulo [P] *)

Definition p : Z := eval P.
Abbreviation ZP := (Zmod p).

(** A canonical element: four limbs, below the modulus. *)
Definition fp_ok (x : Fp) : bool := wf256 x && (eval x <? p).

(** The field element that a Montgomery form stands for. *)
Definition val (x : Fp) : ZP := Zmod.of_Z p (eval x * eval R_INV).

(** ** Montgomery multiplication: lemmas *)

Lemma p_prime : Z.prime p.
Proof. exact P_prime. Qed.
Lemma p_value : p = 0xB640000002A3A6F1D603AB4FF58EC74521F2934B1A7AEEDBE56F9B27E351457D.
Proof. reflexivity. Qed.
Lemma P_inv_spec : (eval P * P_INV) mod 2 ^ 64 = 2 ^ 64 - 1.
Proof. reflexivity. Qed.
Lemma R_inv_spec : (2 ^ 256 * eval R_INV) mod p = 1.
Proof. reflexivity. Qed.

(** After [i] rounds the limbs below [i] are zero and the rest holds
    [V <= b + p] with [V * 2^(64 i) = a[0..i] * b + M * p]. *)
Definition mont_inv (a b : Z256) (i : nat) (t : list Z) : Prop :=
  wf_limbs 9 t /\ (forall k, (i + 4 < k)%nat -> limb t k = 0) /\
  exists V M, eval t = V * 2 ^ (64 * Z.of_nat i) /\ 0 <= V <= eval b + p /\
    0 <= M < 2 ^ (64 * Z.of_nat i) /\
    V * 2 ^ (64 * Z.of_nat i) = eval (firstn i a) * eval b + M * p.

(** The value of a limb array whose upper limbs are zero is below the power. *)
Lemma eval_high_zero n k t :
  wf_limbs n t -> (forall j, (k <= j)%nat -> limb t j = 0) -> eval t < 2 ^ (64 * Z.of_nat k).
Proof.
  intros W Z0.
  assert (E : forall d, eval (firstn (k + d) t) = eval (firstn k t)).
  { induction d; [now rewrite Nat.add_0_r|].
    rewrite Nat.add_succ_r, eval_firstn_S, IHd, Z0 by lia. lia. }
  pose proof (E n) as En. rewrite firstn_all2 in En by (destruct W; lia).
  rewrite En. now apply (eval_firstn_bound n).
Qed.

(** Adding a carry into limb [k] of an array whose value stays below
    [2^(64 (k+1))] does not overflow. *)
Lemma add_carry_no_overflow n k t c :
  wf_limbs n t -> (k < n)%nat -> 0 <= c < 2 ^ 64 ->
  eval t + c * 2 ^ (64 * Z.of_nat k) < 2 ^ (64 * Z.of_nat (S k)) ->
  (forall j, (k < j)%nat -> limb t j = 0) ->
  overflowing_add (limb t k) c = (limb t k + c, false).
Proof.
  intros W K C B Z0. pose proof (wf_limb n t k W) as L.
  pose proof (eval_firstn_bound n k t W) as F. pose proof (eval_firstn_S k t) as S.
  replace (64 * Z.of_nat (Datatypes.S k)) with (64 + 64 * Z.of_nat k) in B by lia.
  rewrite Z.pow_add_r in B by lia.
  assert (E : eval t = eval (firstn (Datatypes.S k) t)).
  { assert (G : forall d, eval (firstn (Datatypes.S k + d) t) = eval (firstn (Datatypes.S k) t)).
    { induction d; [now rewrite Nat.add_0_r|].
      rewrite Nat.add_succ_r, eval_firstn_S, IHd, Z0 by lia. lia. }
    rewrite <- (G n), firstn_all2 by (destruct W; lia). reflexivity. }
  assert (limb t k + c < 2 ^ 64) by nia.
  unfold overflowing_add, as_u64. rewrite Z.mod_small by lia.
  now rewrite (proj2 (Z.leb_gt _ _)) by lia.
Qed.

Lemma eval_split k t :
  eval t = eval (firstn k t) + 2 ^ (64 * Z.of_nat k) * eval (skipn k t).
Proof.
  revert k; induction t as [|x t IH]; intros [|k]; cbn [firstn skipn eval];
    rewrite ?Z.mul_0_r, ?Z.add_0_l; try reflexivity.
  { change (2 ^ (64 * Z.of_nat 0)) with 1. lia. }
  rewrite (IH k). replace (64 * Z.of_nat (S k)) with (64 + 64 * Z.of_nat k) by lia.
  rewrite Z.pow_add_r by lia. lia.
Qed.

(** The lowest limb of a shifted value. *)
Lemma limb_of_shifted n i t X :
  wf_limbs n t -> eval t = X * 2 ^ (64 * Z.of_nat i) -> limb t i = X mod 2 ^ 64.
Proof.
  intros W E. pose proof (eval_split (S i) t) as S. rewrite eval_firstn_S in S.
  pose proof (eval_firstn_bound n i t W) as B. pose proof (wf_limb n t i W) as L.
  replace (64 * Z.of_nat (Datatypes.S i)) with (64 + 64 * Z.of_nat i) in S by lia.
  rewrite Z.pow_add_r in S by lia. set (w := 2 ^ (64 * Z.of_nat i)) in *.
  set (rest := eval (skipn (Datatypes.S i) t)) in *. set (low := eval (firstn i t)) in *.
  assert (Z0 : low = 0).
  { assert (E0 : low = (X - limb t i - 2 ^ 64 * rest) * w) by lia.
    clear - E0 B. set (d := X - limb t i - 2 ^ 64 * rest) in *. clearbody d low w.
    assert (d = 0) by nia. subst d. lia. }
  assert (EX : X = limb t i + 2 ^ 64 * rest) by nia.
  rewrite EX, Z.mul_comm, Z.mod_add, Z.mod_small by lia. reflexivity.
Qed.

Lemma p_bounds : 2 ^ 255 < p /\ p * (2 ^ 64 + 1) < 2 ^ 320.
Proof. split; reflexivity. Qed.

(** The first half of a round: [t += a[i] * b * 2^(64 i)], without overflow. *)
Lemma mont_add_row x b i t V :
  (i < 4)%nat -> wf_limbs 4 b -> eval b <= p -> 0 <= x < 2 ^ 64 ->
  wf_limbs 9 t -> (forall k, (i + 4 < k)%nat -> limb t k = 0) ->
  eval t = V * 2 ^ (64 * Z.of_nat i) -> 0 <= V <= eval b + p ->
  exists t1 c s, mul_row x b i t = (t1, c) /\ overflowing_add (limb t1 (i + 4)) c = (s, false) /\
    let t2 := upd (i + 5) 0 (upd (i + 4) s t1) in
    wf_limbs 9 t2 /\ (forall k, (i + 4 < k)%nat -> limb t2 k = 0) /\
    eval t2 = (V + x * eval b) * 2 ^ (64 * Z.of_nat i).
Proof.
  intros I Wb Bb X Wt Z0 E HV.
  pose proof (mul_row_spec 9 x b i t ltac:(lia) Wt Wb X) as R.
  destruct (mul_row x b i t) as [t1 c]. destruct R as (W1 & C & K & E1).
  rewrite firstn_wf in E1 by assumption.
  pose proof p_bounds as [_ PB].
  assert (H0 : 0 < 2 ^ (64 * Z.of_nat i)) by (apply Z.pow_pos_nonneg; lia).
  assert (Hz : forall j, (i + 4 < j)%nat -> limb t1 j = 0) by (intros; rewrite K by lia; apply Z0; lia).
  assert (NO : overflowing_add (limb t1 (i + 4)) c = (limb t1 (i + 4) + c, false)).
  { apply (add_carry_no_overflow 9); try assumption; [lia|].
    rewrite E1, E. replace (64 * Z.of_nat (S (i + 4))) with (320 + 64 * Z.of_nat i) by lia.
    rewrite Z.pow_add_r by lia. set (w := 2 ^ (64 * Z.of_nat i)) in *.
    assert (V + x * eval b < 2 ^ 320) by nia. nia. }
  assert (B : 0 <= limb t1 (i + 4) + c < 2 ^ 64).
  { unfold overflowing_add in NO. injection NO as N1 N2. apply Z.leb_gt in N2.
    pose proof (wf_limb 9 t1 (i + 4) W1). lia. }
  exists t1, c, (limb t1 (i + 4) + c). split; [reflexivity|]. split; [exact NO|]. cbv zeta.
  pose proof (wf_upd 9 (i + 4) _ t1 W1 B) as W2.
  split; [apply wf_upd; [assumption|lia]|]. split.
  - intros k Hk. destruct (Nat.eq_dec k (i + 5)) as [->|Ne].
    + apply limb_upd_eq. destruct W2; lia.
    + rewrite !limb_upd_ne by lia. now apply Hz.
  - rewrite eval_upd by (destruct W2; lia). rewrite limb_upd_ne, (Hz (i + 5)%nat) by lia.
    rewrite eval_upd by (destruct W1; lia). rewrite Z.mul_add_distr_r, <- E. lia.
Qed.

(** The second half: [t += m * p * 2^(64 i)], the carry kept in limb [i + 5]. *)
Lemma mont_reduce_row m i t X :
  (i < 4)%nat -> 0 <= m < 2 ^ 64 -> wf_limbs 9 t -> (forall k, (i + 4 < k)%nat -> limb t k = 0) ->
  eval t = X * 2 ^ (64 * Z.of_nat i) ->
  exists t1 c s ov, mul_row m P i t = (t1, c) /\ overflowing_add (limb t1 (i + 4)) c = (s, ov) /\
    overflowing_add s (limb t1 (i + 5)) = (s, false) /\
    let t2 := upd (i + 5) (Z.b2z ov) (upd (i + 4) s t1) in
    wf_limbs 9 t2 /\ (forall k, (i + 5 < k)%nat -> limb t2 k = 0) /\
    eval t2 = (X + m * p) * 2 ^ (64 * Z.of_nat i).
Proof.
  intros I Hm Wt Z0 E.
  pose proof (mul_row_spec 9 m P i t ltac:(lia) Wt wf_P Hm) as R.
  destruct (mul_row m P i t) as [t1 c]. destruct R as (W1 & C & K & E1).
  rewrite firstn_wf in E1 by apply wf_P. fold p in E1.
  assert (Hz : forall j, (i + 4 < j)%nat -> limb t1 j = 0) by (intros; rewrite K by lia; apply Z0; lia).
  pose proof (overflowing_add_spec (limb t1 (i + 4)) c (wf_limb _ _ _ W1) C) as S.
  destruct (overflowing_add (limb t1 (i + 4)) c) as [s ov] eqn:EO. cbn [fst snd] in S.
  exists t1, c, s, ov. split; [reflexivity|]. split; [exact EO|].
  rewrite (Hz (i + 5)%nat) by lia. destruct S as [Bs S].
  split; [unfold overflowing_add, as_u64; rewrite Z.add_0_r, Z.mod_small, (proj2 (Z.leb_gt _ _)) by lia; reflexivity|].
  cbv zeta. pose proof (wf_upd 9 (i + 4) s t1 W1 Bs) as W2.
  split; [apply wf_upd; [assumption|destruct ov; cbn; lia]|]. split.
  - intros k Hk. rewrite !limb_upd_ne by lia. apply Hz. lia.
  - rewrite eval_upd by (destruct W2; lia). rewrite limb_upd_ne, (Hz (i + 5)%nat) by lia.
    rewrite eval_upd by (destruct W1; lia).
    replace (64 * Z.of_nat (i + 5)) with (64 + 64 * Z.of_nat (i + 4)) by lia.
    rewrite Z.pow_add_r by lia. rewrite Z.mul_add_distr_r, <- E, <- E1. nia.
Qed.

(** [m] clears the lowest limb. *)
Lemma mont_factor X : (X + (X mod 2 ^ 64 * P_INV) mod 2 ^ 64 * p) mod 2 ^ 64 = 0.
Proof.
  rewrite <- Z.add_mod_idemp_r, Z.mul_mod_idemp_l by lia.
  rewrite <- Z.mul_assoc, Z.mul_mod_idemp_l, Z.add_mod_idemp_r by lia.
  replace (X + X * (P_INV * p)) with (X * (1 + P_INV * p)) by lia.
  rewrite <- Z.mul_mod_idemp_r by lia. change ((1 + P_INV * p) mod 2 ^ 64) with 0.
  now rewrite Z.mul_0_r.
Qed.

Lemma mont_step_spec a b i t :
  (i < 4)%nat -> wf_limbs 4 a -> wf_limbs 4 b -> eval b <= p ->
  mont_inv a b i t -> mont_inv a b (S i) (mont_step a b i t).
Proof.
  intros I Wa Wb Bb (Wt & Z0 & V & M & E & HV & HM & EM). unfold mont_step.
  pose proof (wf_limb 4 a i Wa) as X.
  destruct (mont_add_row (limb a i) b i t V) as (t1 & c & s & -> & -> & R1); try assumption.
  cbv zeta in R1. cbn [Z.b2z]. set (t2 := upd (i + 5) 0 (upd (i + 4) s t1)) in *.
  destruct R1 as (W2 & Z2 & E2). clearbody t2. clear t1 c s.
  rewrite (limb_of_shifted 9 i t2 _ W2 E2).
  set (X2 := V + limb a i * eval b) in *. set (m := as_u64 (X2 mod 2 ^ 64 * P_INV)).
  assert (Hm : 0 <= m < 2 ^ 64) by (apply Z.mod_pos_bound; lia).
  assert (D : (X2 + m * p) mod 2 ^ 64 = 0) by apply mont_factor.
  destruct (mont_reduce_row m i t2 X2) as (t1 & c & s & ov & -> & -> & -> & R2); try assumption.
  rewrite orb_false_r. cbv zeta in R2. set (t3 := upd (i + 5) (Z.b2z ov) (upd (i + 4) s t1)) in *.
  destruct R2 as (W3 & Z3 & E3). clearbody t3 m.
  apply Z.mod_divide in D as [V' D]; [|lia].
  assert (PW : 2 ^ (64 * Z.of_nat (S i)) = 2 ^ 64 * 2 ^ (64 * Z.of_nat i))
    by (rewrite <- Z.pow_add_r by lia; f_equal; lia).
  assert (0 < 2 ^ (64 * Z.of_nat i)) by (apply Z.pow_pos_nonneg; lia).
  assert (Hp : 0 < p) by (rewrite p_value; lia).
  pose proof (eval_bound b (proj2 Wb)) as [B0 _].
  split; [assumption|]. split; [intros; apply Z3; lia|].
  exists V', (M + m * 2 ^ (64 * Z.of_nat i)). rewrite PW, eval_firstn_S.
  split; [rewrite E3, D; lia|]. split; [nia|]. split; [nia|].
  transitivity ((X2 + m * p) * 2 ^ (64 * Z.of_nat i)); [rewrite D; lia|]. subst X2. lia.
Qed.

(** The accumulator after the four rounds: [V <= b + p] with
    [V * 2^256 = a * b + M * p]. *)
Lemma mont_rounds_spec a b :
  wf_limbs 4 a -> wf_limbs 4 b -> eval b <= p ->
  let t := for_range 4 (mont_step a b) [0; 0; 0; 0; 0; 0; 0; 0; 0] in
  wf_limbs 9 t /\
  exists V M, eval t = V * 2 ^ 256 /\ 0 <= M < 2 ^ 256 /\ V * 2 ^ 256 = eval a * eval b + M * p.
Proof.
  intros Wa Wb Bb. cbv zeta.
  assert (I : mont_inv a b 4 (for_range 4 (mont_step a b) [0; 0; 0; 0; 0; 0; 0; 0; 0])).
  { apply (for_range_ind (mont_inv a b)).
    - split; [wf_const|]. split.
      + intros k _. unfold limb. do 9 (destruct k; [reflexivity|]). now destruct k.
      + exists 0, 0. pose proof (eval_bound b (proj2 Wb)). pose proof p_bounds.
        cbn [firstn eval]. repeat split; try reflexivity; lia.
    - intros. now apply mont_step_spec. }
  destruct I as (W & _ & V & M & E & HV & HM & EM). rewrite firstn_wf in EM by assumption.
  split; [assumption|]. exists V, M. auto.
Qed.

Lemma needs_sub_spec r n :
  wf_limbs 4 r -> needs_sub_scan n r = (eval (firstn n P) <? eval (firstn n r)).
Proof.
  intros W. induction n; cbn [needs_sub_scan]; [reflexivity|].
  rewrite (eval_firstn_S n r), (eval_firstn_S n P), IHn.
  pose proof (eval_firstn_bound 4 n r W). pose proof (eval_firstn_bound 4 n P wf_P).
  destruct (Z.ltb_spec (limb P n) (limb r n)); [symmetry; apply Z.ltb_lt; nia|].
  destruct (Z.ltb_spec (limb r n) (limb P n)); [symmetry; apply Z.ltb_ge; nia|].
  replace (limb r n) with (limb P n) by lia.
  destruct (Z.ltb_spec (eval (firstn n P)) (eval (firstn n r))); symmetry;
    [apply Z.ltb_lt|apply Z.ltb_ge]; lia.
Qed.

Lemma mont_mul_spec a b :
  wf_limbs 4 a -> wf_limbs 4 b -> eval b <= p ->
  wf_limbs 4 (mont_mul a b) /\ 0 <= eval (mont_mul a b) <= p /\
  (eval (mont_mul a b) * 2 ^ 256) mod p = (eval a * eval b) mod p /\
  (eval (mont_mul a b) = p -> eval a * eval b <> 0) /\
  (eval (mont_mul a b) = 0 -> eval a * eval b = 0).
Proof.
  intros Wa Wb Bb. unfold mont_mul.
  destruct (mont_rounds_spec a b Wa Wb Bb) as (Wt & V & M & Et & HM & EM).
  set (t := for_range 4 (mont_step a b) _) in *. clearbody t.
  pose proof (wf256_eval_bound a Wa). pose proof (wf256_eval_bound b Wb).
  assert (Hp : 0 < p < 2 ^ 256) by (rewrite p_value; lia).
  assert (HV : 0 <= V < 2 * p) by nia.
  set (res := [limb t 4; limb t 5; limb t 6; limb t 7]).
  assert (Wr : wf_limbs 4 res).
  { split; [reflexivity|]. repeat (apply Forall_cons; [eauto with wf|]). apply Forall_nil. }
  assert (EV : V = eval res + 2 ^ 256 * limb t 8).
  { pose proof (eval_split 4 t) as S. pose proof (eval_firstn_bound 9 4 t Wt) as B4.
    assert (Sk : eval (skipn 4 t) = eval res + 2 ^ 256 * limb t 8).
    { subst res. clear - Wt. destruct Wt as [L _].
      do 9 (destruct t as [|? t]; [discriminate|]). destruct t; [|discriminate].
      unfold limb; cbn [nth skipn eval]. lia. }
    rewrite Sk in S. change (64 * Z.of_nat 4) with 256 in *. lia. }
  pose proof (wf256_eval_bound res Wr). pose proof (wf_limb 9 t 8 Wt).
  assert (Mod : forall r, r = V \/ r = V - p -> (r * 2 ^ 256) mod p = (eval a * eval b) mod p).
  { intros r [->| ->].
    - rewrite EM. apply Z.mod_add. lia.
    - replace ((V - p) * 2 ^ 256) with (eval a * eval b + (M - 2 ^ 256) * p) by lia. apply Z.mod_add. lia. }
  assert (NS : (if negb (limb t 8 =? 0) then true else needs_sub_scan 4 res) = (p <? V)).
  { rewrite needs_sub_spec, !(firstn_wf 4) by (assumption || apply wf_P). fold p.
    destruct (Z.eqb_spec (limb t 8) 0) as [E8|E8]; cbn [negb].
    - rewrite EV, E8. f_equal. lia.
    - symmetry. apply Z.ltb_lt. nia. }
  rewrite NS. clear NS. clearbody res. destruct (Z.ltb_spec p V).
  - change (for_range 4 (sub_step res P) ([0; 0; 0; 0], 0)) with (sub_with_borrow res P).
    destruct (sub_with_borrow_spec res P Wr wf_P) as (r & c & -> & W & C & E). cbn [fst].
    fold p in E. pose proof (wf256_eval_bound r W).
    assert (Er : eval r = V - p) by nia.
    split; [assumption|]. split; [lia|]. split; [apply Mod; auto|]. lia.
  - assert (limb t 8 = 0) by nia. assert (Er : eval res = V) by lia.
    split; [assumption|]. split; [lia|]. split; [apply Mod; auto|]. nia.
Qed.

(** ** Canonical elements *)

Lemma fp_ok_iff x : fp_ok x = true <-> wf_limbs 4 x /\ 0 <= eval x < p.
Proof.
  unfold fp_ok. rewrite andb_true_iff, wf256_iff, Z.ltb_lt. split; [|tauto].
  intros [W L]. pose proof (wf256_eval_bound x W). split; [assumption|lia].
Qed.

(** The product is canonical as soon as the factors' product is zero or not a
    multiple of the modulus. *)
Lemma mont_mul_value a b :
  wf_limbs 4 a -> fp_ok b = true -> (eval a = 0 \/ eval a mod p <> 0) ->
  fp_ok (mont_mul a b) = true /\
  eval (mont_mul a b) = (eval a * eval b * eval R_INV) mod p.
Proof.
  intros Wa [Wb Bb]%fp_ok_iff Ha.
  destruct (mont_mul_spec a b Wa Wb ltac:(lia)) as (W & B & E & NZ & _).
  assert (Hp : 1 < p) by (rewrite p_value; lia).
  assert (Lt : eval (mont_mul a b) < p).
  { destruct (Z.eq_dec (eval (mont_mul a b)) p) as [Ep|]; [exfalso|lia].
    specialize (NZ Ep). rewrite Ep, Z.mul_comm, Z.mod_mul in E by lia.
    symmetry in E. apply Z.mod_divide in E; [|lia].
    apply Z.divide_prime_mul in E as [D|D]; [| |apply p_prime].
    - destruct Ha as [Ha|Ha]; [rewrite Ha in NZ; lia|]. apply Ha. apply Z.mod_divide; [lia|assumption].
    - destruct (Z.eq_dec (eval b) 0) as [Eb|Eb]; [rewrite Eb in NZ; lia|].
      apply Z.divide_pos_le in D; lia. }
  split; [apply fp_ok_iff; split; [assumption|lia]|].
  rewrite <- Z.mul_mod_idemp_l, <- E, Z.mul_mod_idemp_l by lia.
  rewrite <- Z.mul_assoc, <- Z.mul_mod_idemp_r, R_inv_spec, Z.mul_1_r by lia.
  symmetry. apply Z.mod_small. lia.
Qed.

Lemma fp_nonmultiple x : fp_ok x = true -> eval x = 0 \/ eval x mod p <> 0.
Proof.
  intros [W B]%fp_ok_iff. destruct (Z.eq_dec (eval x) 0); [auto|right].
  rewrite Z.mod_small; lia.
Qed.

(** ** The operations in the field *)

Lemma val_to_Z x : Zmod.to_Z (val x) = (eval x * eval R_INV) mod p.
Proof. apply Zmod.to_Z_of_Z. Qed.

Lemma val_inj x y : fp_ok x = true -> fp_ok y = true -> val x = val y -> x = y.
Proof.
  intros [Wx Bx]%fp_ok_iff [Wy By]%fp_ok_iff E.
  apply (f_equal Zmod.to_Z) in E. rewrite !val_to_Z in E.
  assert (Hp : 1 < p) by (rewrite p_value; lia).
  assert (M : forall z, 0 <= z < p -> ((z * eval R_INV) mod p * 2 ^ 256) mod p = z).
  { intros z Hz. rewrite Z.mul_mod_idemp_l, <- Z.mul_assoc by lia.
    rewrite <- Z.mul_mod_idemp_r, (Z.mul_comm (eval R_INV)), R_inv_spec, Z.mul_1_r by lia.
    now apply Z.mod_small. }
  apply (eval_inj 4); try assumption. rewrite <- (M (eval x) Bx), <- (M (eval y) By). now rewrite E.
Qed.

Lemma val_eq r (v : ZP) : (eval r * eval R_INV) mod p = Zmod.to_Z v -> val r = v.
Proof. intros E. apply Zmod.to_Z_inj. now rewrite val_to_Z. Qed.

Lemma p_gt_1 : 1 < p.
Proof. rewrite p_value. lia. Qed.

(** An operation whose limbs compute [z] modulo [p]. *)
Lemma val_mod r z (v : ZP) :
  eval r = z mod p -> (z * eval R_INV) mod p = Zmod.to_Z v -> val r = v.
Proof.
  intros E Ev. apply val_eq. rewrite E, Z.mul_mod_idemp_l by (pose proof p_gt_1; lia). exact Ev.
Qed.

Lemma fp_add_spec x y :
  fp_ok x = true -> fp_ok y = true ->
  fp_ok (add x y) = true /\ val (add x y) = Zmod.add (val x) (val y).
Proof.
  intros [Wx Bx]%fp_ok_iff [Wy By]%fp_ok_iff. pose proof p_gt_1.
  assert (S : wf_limbs 4 (add x y) /\ eval (add x y) = (eval x + eval y) mod p).
  { unfold add. call_add sum c Ws Cs Es.
    destruct (sub_with_borrow_spec sum P Ws wf_P) as (d & b & -> & Wd & Cd & Ed). fold p in Ed.
    rewrite conditional_select_spec by assumption.
    pose proof (wf256_eval_bound _ Ws). pose proof (wf256_eval_bound _ Wd).
    assert (p < 2 ^ 256) by (rewrite p_value; lia).
    destruct (Z.leb_spec p (eval x + eval y)).
    - replace (negb (c =? 0) || (b =? 0)) with true.
      2: { destruct (Z.eqb_spec c 0); [|reflexivity]. cbn [negb orb]. symmetry. apply Z.eqb_eq. lia. }
      cbn [Z.b2z Z.eqb]. split; [assumption|]. apply (Z.mod_unique _ _ 1); lia.
    - assert (c = 0) as -> by lia. assert (b = 1) as -> by lia. cbn [Z.eqb negb orb Z.b2z].
      split; [assumption|]. rewrite Z.mod_small; lia. }
  destruct S as [W E]. split.
  - apply fp_ok_iff. split; [assumption|]. rewrite E. apply Z.mod_pos_bound. lia.
  - apply (val_mod _ _ _ E). rewrite Zmod.to_Z_add, !val_to_Z, <- Z.add_mod by lia. f_equal. lia.
Qed.

Lemma fp_sub_spec x y :
  fp_ok x = true -> fp_ok y = true ->
  fp_ok (sub x y) = true /\ val (sub x y) = Zmod.sub (val x) (val y).
Proof.
  intros [Wx Bx]%fp_ok_iff [Wy By]%fp_ok_iff. pose proof p_gt_1.
  assert (S : wf_limbs 4 (sub x y) /\ eval (sub x y) = (eval x - eval y) mod p).
  { unfold sub. call_sub d b Wd Cd Ed.
    destruct (add_with_carry_spec d P Wd wf_P) as (s & c & -> & Ws & Cs & Es). fold p in Es.
    rewrite conditional_select_spec by assumption.
    pose proof (wf256_eval_bound _ Ws). pose proof (wf256_eval_bound _ Wd).
    assert (p < 2 ^ 256) by (rewrite p_value; lia).
    destruct (Z.leb_spec (eval y) (eval x)).
    - assert (b = 0) as -> by lia. cbn [Z.eqb negb Z.b2z]. split; [assumption|]. rewrite Z.mod_small; lia.
    - assert (b = 1) as -> by lia. cbn [Z.eqb negb Z.b2z]. split; [assumption|].
      apply (Z.mod_unique _ _ (-1)); lia. }
  destruct S as [W E]. split.
  - apply fp_ok_iff. split; [assumption|]. rewrite E. apply Z.mod_pos_bound. lia.
  - apply (val_mod _ _ _ E). rewrite Zmod.to_Z_sub, !val_to_Z, <- Zminus_mod. f_equal. lia.
Qed.

Lemma is_zero_val x : fp_ok x = true -> is_zero x = (eval x =? 0).
Proof. intros [W _]%fp_ok_iff. now apply is_zero_spec. Qed.

Lemma fp_zero_spec : fp_ok ZERO = true /\ val ZERO = Zmod.zero.
Proof. split; reflexivity. Qed.
Lemma fp_one_spec : fp_ok ONE = true /\ val ONE = Zmod.one.
Proof. split; [reflexivity|]. now apply val_eq. Qed.

Lemma fp_neg_spec x :
  fp_ok x = true -> fp_ok (neg x) = true /\ val (neg x) = Zmod.opp (val x).
Proof.
  intros Ok. assert (Ok' := Ok). apply fp_ok_iff in Ok as [W B]. pose proof p_gt_1.
  assert (S : wf_limbs 4 (neg x) /\ eval (neg x) = (- eval x) mod p).
  { unfold neg. rewrite is_zero_val by assumption. destruct (Z.eqb_spec (eval x) 0) as [E|E].
    - rewrite E. split; [wf_const|reflexivity].
    - destruct (sub_with_borrow_spec P x wf_P W) as (r & c & -> & Wr & C & Er). fold p in Er. cbn [fst].
      pose proof (wf256_eval_bound _ Wr). split; [assumption|]. apply (Z.mod_unique _ _ (-1)); lia. }
  destruct S as [Wn E]. split.
  - apply fp_ok_iff. split; [assumption|]. rewrite E. apply Z.mod_pos_bound. lia.
  - apply (val_mod _ _ _ E). rewrite Zmod.to_Z_opp, val_to_Z.
    rewrite <- (Z.sub_0_l ((eval x * eval R_INV) mod p)), Zminus_mod_idemp_r. f_equal. lia.
Qed.

Lemma fp_mul_spec x y :
  fp_ok x = true -> fp_ok y = true ->
  fp_ok (mul x y) = true /\ val (mul x y) = Zmod.mul (val x) (val y).
Proof.
  intros Hx Hy. pose proof (fp_nonmultiple x Hx) as N. pose proof p_gt_1.
  apply fp_ok_iff in Hx as [Wx Bx].
  destruct (mont_mul_value x y Wx Hy N) as [Ok E]. split; [assumption|].
  apply (val_mod _ _ _ E). rewrite Zmod.to_Z_mul, !val_to_Z, <- Z.mul_mod by lia. f_equal. lia.
Qed.

Lemma fp_square_spec x :
  fp_ok x = true -> fp_ok (square x) = true /\ val (square x) = Zmod.mul (val x) (val x).
Proof. intros. unfold square. apply fp_mul_spec; assumption. Qed.

Lemma fp_double_spec x :
  fp_ok x = true -> fp_ok (double x) = true /\ val (double x) = Zmod.add (val x) (val x).
Proof. intros. unfold double. apply fp_add_spec; assumption. Qed.

Lemma R_squared_ok : fp_ok R_SQUARED = true.
Proof. reflexivity. Qed.

(** Conversion into Montgomery form. *)
Lemma from_raw_spec raw :
  wf_limbs 4 raw -> (eval raw = 0 \/ eval raw mod p <> 0) ->
  fp_ok (from_raw raw) = true /\ val (from_raw raw) = Zmod.of_Z p (eval raw).
Proof.
  intros W N. destruct (mont_mul_value raw R_SQUARED W R_squared_ok N) as [Ok E].
  split; [assumption|]. apply (val_mod _ _ _ E). rewrite Zmod.to_Z_of_Z.
  pose proof p_gt_1.
  rewrite <- !Z.mul_assoc, <- Z.mul_mod_idemp_r by lia.
  change ((eval R_SQUARED * (eval R_INV * eval R_INV)) mod p) with 1. f_equal. lia.
Qed.

(** ** Regular multiplication and exponentiation *)

Lemma one_raw_ok : fp_ok Z256.ONE = true.
Proof. reflexivity. Qed.

(** Back from Montgomery form. *)
Lemma to_raw_spec x :
  fp_ok x = true -> fp_ok (mont_mul x Z256.ONE) = true /\
  eval (mont_mul x Z256.ONE) = Zmod.to_Z (val x).
Proof.
  intros Hx. pose proof (fp_nonmultiple x Hx) as N. apply fp_ok_iff in Hx as [Wx Bx].
  destruct (mont_mul_value x Z256.ONE Wx one_raw_ok N) as [Ok E]. split; [assumption|].
  rewrite E, val_to_Z. f_equal. change (eval Z256.ONE) with 1. lia.
Qed.

Lemma regular_mul_unfold a b :
  regular_mul a b = mont_mul (mul (from_raw a) (from_raw b)) Z256.ONE.
Proof. unfold regular_mul, mul, from_raw. cbv zeta. reflexivity. Qed.

Lemma regular_mul_spec a b :
  fp_ok a = true -> fp_ok b = true ->
  fp_ok (regular_mul a b) = true /\ eval (regular_mul a b) = (eval a * eval b) mod p.
Proof.
  intros Ha Hb. pose proof p_gt_1.
  rewrite regular_mul_unfold.
  destruct (from_raw_spec a) as [Oa Va]; [now apply fp_ok_iff|now apply fp_nonmultiple|].
  destruct (from_raw_spec b) as [Ob Vb]; [now apply fp_ok_iff|now apply fp_nonmultiple|].
  destruct (fp_mul_spec (from_raw a) (from_raw b) Oa Ob) as [Om Vm].
  destruct (to_raw_spec _ Om) as [Or Er]. split; [assumption|].
  rewrite Er, Vm, Va, Vb, Zmod.to_Z_mul, !Zmod.to_Z_of_Z. now rewrite <- Z.mul_mod by lia.
Qed.

Lemma shift_carry x y :
  0 <= x < 2 ^ 64 ->
  Z.lor (Z.shiftr x 1) (as_u64 (Z.shiftl y 63)) = Z.lor (Z.shiftr x 1) (as_u64 (Z.shiftl (Z.land y 1) 63)).
Proof.
  intros X. f_equal. unfold as_u64. rewrite !Z.shiftl_mul_pow2 by lia.
  change 1 with (Z.ones 1). rewrite Z.land_ones by lia. change (2 ^ 1) with 2.
  change (2 ^ 64) with (2 * 2 ^ 63). rewrite !Zmult_mod_distr_r, Z.mod_mod by lia. reflexivity.
Qed.

Lemma shift_right_spec e : wf_limbs 4 e -> shift_right e = shr1 e.
Proof.
  intros W. unfold shift_right, shr1. limbs4 W. cbn [fold_left shift_step upd limb nth fst Nat.add].
  rewrite Z.lor_0_r. now rewrite (shift_carry x x0), (shift_carry x0 x1), (shift_carry x1 x2) by assumption.
Qed.

Section PowLoop.
Context {A M : Type} (amul : A -> A -> A) (asq : A -> A) (good : A -> Prop) (f : A -> M).
Context (mm : M -> M -> M) (m1 : M).
Hypothesis mm_assoc : forall x y z, mm x (mm y z) = mm (mm x y) z.
Hypothesis mm_1_l : forall x, mm m1 x = x.
Hypothesis mm_1_r : forall x, mm x m1 = x.
Hypothesis amul_spec : forall x y, good x -> good y -> good (amul x y) /\ f (amul x y) = mm (f x) (f y).
Hypothesis asq_spec : forall x, good x -> good (asq x) /\ f (asq x) = mm (f x) (f x).

Definition mpow (x : M) (n : nat) : M := Nat.iter n (mm x) m1.

Lemma mpow_add x n m : mpow x (n + m) = mm (mpow x n) (mpow x m).
Proof.
  induction n; cbn [Nat.add]; [now rewrite mm_1_l|].
  change (mpow x (S (n + m))) with (mm x (mpow x (n + m))). rewrite IHn, mm_assoc. reflexivity.
Qed.

Lemma mpow_square x n : mpow (mm x x) n = mpow x (n + n).
Proof.
  induction n; [reflexivity|]. rewrite Nat.add_succ_r. cbn [Nat.add].
  change (mm (mm x x) (mpow (mm x x) n) = mm x (mm x (mpow x (n + n)))). now rewrite IHn, mm_assoc.
Qed.

Lemma pow_loop_spec fuel result base e :
  wf_limbs 4 e -> eval e < 2 ^ Z.of_nat fuel -> good result -> good base ->
  good (pow_loop amul asq fuel result base e) /\
  f (pow_loop amul asq fuel result base e) = mm (f result) (mpow (f base) (Z.to_nat (eval e))).
Proof.
  revert result base e; induction fuel as [|fuel IH]; intros result base e W B Gr Gb; cbn [pow_loop];
    pose proof (wf256_eval_bound e W) as Be.
  { assert (eval e = 0) as -> by (cbn in B; lia). now rewrite mm_1_r. }
  rewrite is_zero_spec by assumption. destruct (Z.eqb_spec (eval e) 0) as [E0|E0].
  { rewrite E0. now rewrite mm_1_r. }
  rewrite shift_right_spec by assumption. destruct (shr1_spec e W) as [Ws Es].
  rewrite Nat2Z.inj_succ, Z.pow_succ_r in B by lia.
  destruct (asq_spec base Gb) as [Gs Fs].
  assert (Bit : Z.land (limb e 0) 1 = eval e mod 2).
  { change 1 with (Z.ones 1). rewrite Z.land_ones by lia. change (2 ^ 1) with 2.
    clear - W. limbs4 W. unfold limb. cbn [nth eval]. Z.div_mod_to_equations. lia. }
  rewrite Bit. pose proof (Z.div_mod (eval e) 2 ltac:(lia)) as DM.
  pose proof (Z.mod_pos_bound (eval e) 2 ltac:(lia)).
  assert (Hs : eval (shr1 e) < 2 ^ Z.of_nat fuel) by lia.
  assert (En : Z.to_nat (eval e) = (Z.to_nat (eval e mod 2) + (Z.to_nat (eval (shr1 e)) + Z.to_nat (eval (shr1 e))))%nat)
    by lia.
  destruct (Z.eqb_spec (eval e mod 2) 1) as [Eb|Eb].
  - destruct (amul_spec result base Gr Gb) as [Gm Fm].
    destruct (IH (amul result base) (asq base) (shr1 e) Ws Hs Gm Gs) as [G E]. split; [assumption|].
    rewrite E, Fm, Fs, mpow_square, En, Eb. rewrite <- mm_assoc. reflexivity.
  - destruct (IH result (asq base) (shr1 e) Ws Hs Gr Gs) as [G E]. split; [assumption|].
    rewrite E, Fs, mpow_square, En. replace (eval e mod 2) with 0 by lia. reflexivity.
Qed.
End PowLoop.

(** ** Inversion *)

Lemma pow_spec base e :
  fp_ok base = true -> wf_limbs 4 e ->
  fp_ok (pow base e) = true /\ eval (pow base e) = eval base ^ eval e mod p.
Proof.
  intros Hb We. pose proof p_gt_1. pose proof (wf256_eval_bound e We).
  destruct (pow_loop_spec regular_mul (fun b => regular_mul b b) (fun x => fp_ok x = true)
    (fun x => Zmod.of_Z p (eval x)) (@Zmod.mul p) Zmod.one) with (fuel := pow_fuel)
    (result := Z256.ONE) (base := base) (e := e) as [G E];
    [apply Zmod.mul_assoc|apply Zmod.mul_1_r| | |assumption|apply H0|reflexivity|assumption|].
  - intros x y Hx Hy. destruct (regular_mul_spec x y Hx Hy) as [O V]. split; [assumption|].
    rewrite V. apply Zmod.to_Z_inj. rewrite Zmod.to_Z_mul, !Zmod.to_Z_of_Z.
    now rewrite Z.mod_mod, <- Z.mul_mod by lia.
  - intros x Hx. destruct (regular_mul_spec x x Hx Hx) as [O V]. split; [assumption|].
    rewrite V. apply Zmod.to_Z_inj. rewrite Zmod.to_Z_mul, !Zmod.to_Z_of_Z.
    now rewrite Z.mod_mod, <- Z.mul_mod by lia.
  - split; [exact G|]. apply (f_equal Zmod.to_Z) in E. rewrite Zmod.to_Z_of_Z in E.
    apply fp_ok_iff in G as [_ B]. rewrite Z.mod_small in E by exact B.
    unfold pow. rewrite E. change (Zmod.of_Z p (eval Z256.ONE)) with (@Zmod.one p).
    rewrite Zmod.mul_1_l.
    assert (Mp : forall n, Zmod.to_Z (mpow (@Zmod.mul p) Zmod.one (Zmod.of_Z p (eval base)) n)
                   = eval base ^ Z.of_nat n mod p).
    { induction n as [|n IHn]; [reflexivity|].
      change (mpow Zmod.mul Zmod.one (Zmod.of_Z p (eval base)) (S n))
        with (Zmod.mul (Zmod.of_Z p (eval base)) (mpow Zmod.mul Zmod.one (Zmod.of_Z p (eval base)) n)).
      rewrite Zmod.to_Z_mul, IHn, Zmod.to_Z_of_Z, <- Z.mul_mod by lia.
      rewrite Nat2Z.inj_succ, Z.pow_succ_r by lia. reflexivity. }
    rewrite Mp, Z2Nat.id by lia. reflexivity.
Qed.

Lemma val_zero_iff x : fp_ok x = true -> (val x = Zmod.zero <-> eval x = 0).
Proof.
  intros Ok. destruct fp_zero_spec as [OZ VZ]. split; intros E.
  - rewrite <- VZ in E. apply val_inj in E; [now subst|assumption..].
  - apply val_eq. rewrite E. reflexivity.
Qed.

Lemma p_minus_2_value : eval [limb P 0 - 2; limb P 1; limb P 2; limb P 3] = p - 2.
Proof. vm_compute. reflexivity. Qed.

Lemma inv_unfold x :
  inv x = if is_zero x then None
          else Some (from_raw (pow (mont_mul x Z256.ONE) [limb P 0 - 2; limb P 1; limb P 2; limb P 3])).
Proof. unfold inv, from_raw. cbv zeta. reflexivity. Qed.

Lemma fp_inv_spec x :
  fp_ok x = true ->
  match inv x with
  | Some y => fp_ok y = true /\ val x <> Zmod.zero /\ Zmod.mul (val x) (val y) = Zmod.one
  | None => val x = Zmod.zero
  end.
Proof.
  intros Ok. rewrite inv_unfold, is_zero_val by assumption.
  destruct (Z.eqb_spec (eval x) 0) as [E|E]; [now apply val_zero_iff|].
  pose proof p_gt_1.
  destruct (to_raw_spec x Ok) as [Or Er].
  set (e := [limb P 0 - 2; limb P 1; limb P 2; limb P 3]).
  assert (Ee : eval e = p - 2) by apply p_minus_2_value.
  assert (We : wf_limbs 4 e) by (apply wf256_iff; reflexivity). clearbody e.
  destruct (pow_spec (mont_mul x Z256.ONE) e Or We) as [Op Ep]. rewrite Ee in Ep.
  destruct (from_raw_spec (pow (mont_mul x Z256.ONE) e)) as [Of Ef];
    [now apply fp_ok_iff|now apply fp_nonmultiple|].
  split; [assumption|].
  assert (NZ : val x <> Zmod.zero) by (now rewrite val_zero_iff). split; [assumption|].
  apply Zmod.to_Z_inj. rewrite Ef, Ep, Er, Zmod.to_Z_mul, Zmod.to_Z_of_Z, Z.mod_mod by lia.
  set (v := Zmod.to_Z (val x)). rewrite Z.mul_mod_idemp_r by lia.
  rewrite <- Z.pow_succ_r by lia. replace (Z.succ (p - 2)) with (p - 1) by lia.
  rewrite Z.fermat_nz; [symmetry; apply Zmod.to_Z_1_pos; lia|apply p_prime|].
  subst v. pose proof (Zmod.to_Z_pos_bound (val x) ltac:(lia)). rewrite Z.mod_small by lia.
  intros Z0. apply NZ. apply Zmod.to_Z_inj. rewrite Z0. symmetry. apply Zmod.to_Z_0.
Qed.

(** ** Encodings *)

Lemma R_inv_ok : fp_ok R_INV = true.
Proof. reflexivity. Qed.

Lemma to_bytes_spec x :
  fp_ok x = true ->
  len (to_bytes x) = 32 /\ wf_bytes (to_bytes x) = true /\ from_be (to_bytes x) = Zmod.to_Z (val x).
Proof.
  intros Ok. unfold to_bytes. destruct (regular_mul_spec x R_INV Ok R_inv_ok) as [Or Er].
  apply fp_ok_iff in Or as [W _]. destruct (to_bytes_be_spec _ W) as (L & B & E & _).
  rewrite E, Er, val_to_Z. auto.
Qed.

Lemma from_bytes_spec bs :
  wf_bytes bs = true -> len bs = 32 -> from_be bs = 0 \/ from_be bs mod p <> 0 ->
  exists x, from_bytes bs = Ok x /\ fp_ok x = true /\ val x = Zmod.of_Z p (from_be bs).
Proof.
  intros W L N. unfold from_bytes. rewrite L. cbn [Z.eqb negb Pos.eqb].
  destruct (from_bytes_be_spec bs W) as (a & -> & Wa & Ea & _); [lia|].
  rewrite <- Ea in N |- *. exists (from_raw a). split; [reflexivity|]. now apply from_raw_spec.
Qed.

(** ** Properties *)

(** The word-by-word Montgomery product of any 256-bit [a] with any [b <= p]
    is [a * b / 2^256] modulo [p], on well-formed limbs and at most [p]. The
    accumulator never loses a carry. The result is the non-canonical [p], not
    zero, exactly when the product is a non-zero multiple of [p]: the final
    comparison subtracts only from results strictly above the modulus. *)
Theorem mont_mul_correct (a b : Z256) :
  wf256 a = true -> wf256 b = true -> eval b <= p ->
  wf256 (mont_mul a b) = true /\ 0 <= eval (mont_mul a b) <= p /\
  (eval (mont_mul a b) * 2 ^ 256) mod p = (eval a * eval b) mod p /\
  (eval (mont_mul a b) = p <-> eval a * eval b <> 0 /\ (eval a * eval b) mod p = 0).
Proof.
  rewrite !wf256_iff. intros Wa Wb Bb. pose proof p_gt_1.
  destruct (mont_mul_spec a b Wa Wb Bb) as (W & B & E & NZ & Z0).
  split; [assumption|]. split; [assumption|]. split; [assumption|]. split.
  - intros Ep. split; [auto|]. rewrite <- E, Ep, Z.mul_comm. apply Z.mod_mul. lia.
  - intros [N M]. rewrite M, Z.mul_comm in E. apply Z.mod_divide in E; [|lia].
    apply Z.gauss in E.
    2: { apply Z.coprime_prime_l; [apply p_prime|]. intros D.
         apply Z.divide_prime_pp in D; [discriminate|apply p_prime|apply Z.prime_2|lia]. }
    destruct (Z.eq_dec (eval (mont_mul a b)) 0) as [E0|E0]; [now apply Z0 in E0|].
    apply Z.divide_pos_le in E; lia.
Qed.

Lemma mont_mul_correct_witness :
  eval (mont_mul R_SQUARED [5; 0; 0; 0]) * 2 ^ 256 mod p = (eval R_SQUARED * 5) mod p /\
  eval (mont_mul P R_SQUARED) = p.
Proof.
  destruct (mont_mul_correct R_SQUARED [5; 0; 0; 0]) as (_ & _ & E & _); [reflexivity|reflexivity|vm_compute; congruence|].
  destruct (mont_mul_correct P R_SQUARED) as (_ & _ & _ & Q); [reflexivity|reflexivity|vm_compute; congruence|].
  split; [exact E|]. apply Q. split; vm_compute; congruence.
Defined.

(** C28. [Fp] implements the field of integers modulo the prime [p]: on canonical
    elements every operation is canonical and [val] carries it to the field
    operation, [val] is injective, and [inv] returns the inverse of every
    non-zero element and [None] for zero. *)
Theorem fp_implements_field (x y : Fp) :
  fp_ok x = true -> fp_ok y = true ->
  Z.prime p /\ (val x = val y -> x = y) /\
  (fp_ok (add x y) = true /\ val (add x y) = Zmod.add (val x) (val y)) /\
  (fp_ok (sub x y) = true /\ val (sub x y) = Zmod.sub (val x) (val y)) /\
  (fp_ok (mul x y) = true /\ val (mul x y) = Zmod.mul (val x) (val y)) /\
  (fp_ok (neg x) = true /\ val (neg x) = Zmod.opp (val x)) /\
  (fp_ok (square x) = true /\ val (square x) = Zmod.mul (val x) (val x)) /\
  (fp_ok (double x) = true /\ val (double x) = Zmod.add (val x) (val x)) /\
  (is_zero x = true <-> val x = Zmod.zero) /\ (is_one x = true <-> val x = Zmod.one) /\
  match inv x with
  | Some z => fp_ok z = true /\ Zmod.mul (val x) (val z) = Zmod.one
  | None => val x = Zmod.zero
  end.
Proof.
  intros Hx Hy. split; [apply p_prime|]. split; [now apply val_inj|].
  split; [now apply fp_add_spec|]. split; [now apply fp_sub_spec|]. split; [now apply fp_mul_spec|].
  split; [now apply fp_neg_spec|]. split; [now apply fp_square_spec|]. split; [now apply fp_double_spec|].
  split; [rewrite is_zero_val, Z.eqb_eq by assumption; symmetry; now apply val_zero_iff|].
  split.
  - unfold is_one. destruct fp_one_spec as [O1 V1]. assert (H1 := O1). assert (H2 := Hx).
    apply fp_ok_iff in H1 as [W1 _], H2 as [W2 _]. unfold ONE in *.
    rewrite z256_eq_spec, Z.eqb_eq, <- V1 by assumption. split.
    + intros E. apply (eval_inj 4) in E; [now subst|assumption..].
    + intros E. apply val_inj in E; [now subst|assumption..].
  - pose proof (fp_inv_spec x Hx) as I. destruct (inv x); tauto.
Qed.

Lemma fp_implements_field_witness :
  val (add (from_u64 3) (from_u64 5)) = Zmod.add (val (from_u64 3)) (val (from_u64 5)) /\
  exists z, inv (from_u64 3) = Some z /\ Zmod.mul (val (from_u64 3)) (val z) = Zmod.one.
Proof.
  destruct (fp_implements_field (from_u64 3) (from_u64 5)) as
    (_ & _ & [_ A] & _ & _ & _ & _ & _ & Hz & _ & I); [vm_compute; reflexivity..|].
  split; [exact A|]. destruct (inv (from_u64 3)) as [z|] eqn:E.
  - exists z. split; [reflexivity|]. exact (proj2 I).
  - apply Hz in I. vm_compute in I. discriminate.
Defined.

(** The 32-byte encoding of field elements: [to_bytes] is the big-endian
    representative and [from_bytes] inverts it; any 32 bytes whose value is zero
    or not a multiple of [p] give the canonical element of that residue, other
    lengths are refused; the bytes of [p] itself are accepted and give the
    non-canonical element [p], which stands for zero while [is_zero] says no. *)
Theorem fp_bytes_roundtrip (x : Fp) (bs : bytes) :
  fp_ok x = true -> wf_bytes bs = true ->
  (len (to_bytes x) = 32 /\ from_be (to_bytes x) = Zmod.to_Z (val x) /\ from_bytes (to_bytes x) = Ok x) /\
  (len bs <> 32 -> exists msg, from_bytes bs = Err (InvalidParameter msg)) /\
  (len bs = 32 -> from_be bs = 0 \/ from_be bs mod p <> 0 ->
   exists y, from_bytes bs = Ok y /\ fp_ok y = true /\ val y = Zmod.of_Z p (from_be bs)) /\
  (from_bytes (to_bytes_be P) = Ok P /\ val P = Zmod.zero /\ is_zero P = false /\ fp_ok P = false).
Proof.
  intros Ok W. pose proof p_gt_1. destruct (to_bytes_spec x Ok) as (L & B & E).
  split; [split; [assumption|split; [assumption|]]|].
  - pose proof (Zmod.to_Z_pos_bound (val x) ltac:(lia)) as Bv.
    destruct (from_bytes_spec (to_bytes x) B L) as (y & Ey & Oy & Vy).
    { rewrite E. destruct (Z.eq_dec (Zmod.to_Z (val x)) 0); [auto|right]. rewrite Z.mod_small; lia. }
    rewrite Ey. f_equal. apply val_inj; try assumption. rewrite Vy, E. apply Zmod.of_Z_to_Z.
  - split; [|split].
    + intros NL. unfold from_bytes. rewrite (proj2 (Z.eqb_neq _ _) NL). cbn [negb]. eexists. reflexivity.
    + intros L32 N. now apply from_bytes_spec.
    + split; [vm_compute; reflexivity|]. split; [now apply val_eq|]. split; reflexivity.
Qed.

Lemma fp_bytes_roundtrip_witness :
  from_bytes (to_bytes (from_u64 42)) = Ok (from_u64 42) /\
  (exists msg, from_bytes [1; 2; 3] = Err (InvalidParameter msg)).
Proof.
  destruct (fp_bytes_roundtrip (from_u64 42) [1; 2; 3]) as ((_ & _ & R) & L & _);
    [vm_compute; reflexivity|reflexivity|].
  split; [exact R|]. apply L. vm_compute. congruence.
Defined.
