(* ===== verification/FieldRep.v ===== *)
(** What a level of the SM9 field tower promises to the level above it.

    [FieldRep A E] states that the operations of a [FieldElement A] compute, on
    the elements accepted by [rep_ok], the operations of a commutative ring [E]
    through an evaluation [rep]. The tower files prove their instance from the
    instance of the level below; the base instance is [Fp] with any ring that
    the integers modulo [p] map into. *)

From Stdlib Require Import Bool ZArith Lia List Zmod Ring_theory.
From S2P Require Import Prelude Z256 Fp.
Open Scope Z_scope.

Record CRing := {
  car :> Type;
  r0 : car;
  r1 : car;
  radd : car -> car -> car;
  rmul : car -> car -> car;
  rsub : car -> car -> car;
  ropp : car -> car;
  rth : ring_theory r0 r1 radd rmul rsub ropp eq
}.

Arguments r0 {_}.
Arguments r1 {_}.
Arguments radd {_} _ _.
Arguments rmul {_} _ _.
Arguments rsub {_} _ _.
Arguments ropp {_} _.

Declare Scope cring_scope.
Delimit Scope cring_scope with cr.
Bind Scope cring_scope with car.
Notation "0" := r0 : cring_scope.
Notation "1" := r1 : cring_scope.
Infix "+" := radd : cring_scope.
Infix "*" := rmul : cring_scope.
Infix "-" := rsub : cring_scope.
Notation "- x" := (ropp x) : cring_scope.

(** The integers modulo [p]. *)
Definition ZP_ring : CRing := {|
  car := ZP; r0 := Zmod.zero; r1 := Zmod.one; radd := Zmod.add; rmul := Zmod.mul;
  rsub := Zmod.sub; ropp := Zmod.opp; rth := Zmod.ring_theory p
|}.

(** Reference extensions: [K[t]/(t^2 - c)] on pairs and [K[t]/(t^3 - c)] on
    triples of coefficients. *)
Section Quotients.
Context (K : CRing) (c : K).
Add Ring Kring : (rth K).

Lemma quad_ring_theory :
  ring_theory (r0, r0) (r1, r0)
    (fun x y : K * K => (radd (fst x) (fst y), radd (snd x) (snd y)))
    (fun x y => (radd (rmul (fst x) (fst y)) (rmul c (rmul (snd x) (snd y))),
                 radd (rmul (fst x) (snd y)) (rmul (snd x) (fst y))))
    (fun x y => (rsub (fst x) (fst y), rsub (snd x) (snd y)))
    (fun x => (ropp (fst x), ropp (snd x))) eq.
Proof.
  constructor; intros;
    repeat match goal with x : (_ * _)%type |- _ => destruct x end; cbn [fst snd]; f_equal; ring.
Qed.
Definition quad : CRing := {| rth := quad_ring_theory |}.

Lemma triple_eq {A B C : Type} (a a' : A) (b b' : B) (c1 c1' : C) :
  a = a' -> b = b' -> c1 = c1' -> (a, b, c1) = (a', b', c1').
Proof. now intros -> -> ->. Qed.

Lemma cubic_ring_theory :
  ring_theory (r0, r0, r0) (r1, r0, r0)
    (fun x y : K * K * K => let '(x0, x1, x2) := x in let '(y0, y1, y2) := y in
       (radd x0 y0, radd x1 y1, radd x2 y2))
    (fun x y => let '(x0, x1, x2) := x in let '(y0, y1, y2) := y in
       (radd (rmul x0 y0) (rmul c (radd (rmul x1 y2) (rmul x2 y1))),
        radd (radd (rmul x0 y1) (rmul x1 y0)) (rmul c (rmul x2 y2)),
        radd (radd (rmul x0 y2) (rmul x1 y1)) (rmul x2 y0)))
    (fun x y => let '(x0, x1, x2) := x in let '(y0, y1, y2) := y in
       (rsub x0 y0, rsub x1 y1, rsub x2 y2))
    (fun x => let '(x0, x1, x2) := x in (ropp x0, ropp x1, ropp x2)) eq.
Proof.
  constructor; intros;
    repeat match goal with x : (_ * _)%type |- _ => destruct x end;
    apply triple_eq; ring.
Qed.
Definition cubic : CRing := {| rth := cubic_ring_theory |}.
End Quotients.

(** Powers of a ring element, by repeated multiplication. *)
Definition rpow {E : CRing} (x : E) (n : nat) : E := mpow (@rmul E) r1 x n.

Class FieldRep (A : Type) `{FieldElement A} (E : CRing) := {
  rep_ok : A -> bool;
  rep : A -> E;
  ok_zero : rep_ok fe_ZERO = true;
  ok_one : rep_ok fe_ONE = true;
  ok_add : forall x y, rep_ok x = true -> rep_ok y = true -> rep_ok (fe_add x y) = true;
  ok_sub : forall x y, rep_ok x = true -> rep_ok y = true -> rep_ok (fe_sub x y) = true;
  ok_mul : forall x y, rep_ok x = true -> rep_ok y = true -> rep_ok (fe_mul x y) = true;
  ok_neg : forall x, rep_ok x = true -> rep_ok (fe_neg x) = true;
  ok_square : forall x, rep_ok x = true -> rep_ok (fe_square x) = true;
  ok_double : forall x, rep_ok x = true -> rep_ok (fe_double x) = true;
  ok_inv : forall x y, rep_ok x = true -> fe_inv x = Some y -> rep_ok y = true;
  rep_zero : rep fe_ZERO = r0;
  rep_one : rep fe_ONE = r1;
  rep_add : forall x y, rep_ok x = true -> rep_ok y = true -> rep (fe_add x y) = radd (rep x) (rep y);
  rep_sub : forall x y, rep_ok x = true -> rep_ok y = true -> rep (fe_sub x y) = rsub (rep x) (rep y);
  rep_mul : forall x y, rep_ok x = true -> rep_ok y = true -> rep (fe_mul x y) = rmul (rep x) (rep y);
  rep_neg : forall x, rep_ok x = true -> rep (fe_neg x) = ropp (rep x);
  rep_square : forall x, rep_ok x = true -> rep (fe_square x) = rmul (rep x) (rep x);
  rep_double : forall x, rep_ok x = true -> rep (fe_double x) = radd (rep x) (rep x);
  rep_inv : forall x y, rep_ok x = true -> fe_inv x = Some y -> rmul (rep x) (rep y) = r1;
  rep_is_zero : forall x, rep_ok x = true -> fe_is_zero x = true -> rep x = r0;
  rep_is_one : forall x, rep_ok x = true -> fe_is_one x = true -> rep x = r1
}.

Create HintDb rep.
#[export] Hint Resolve ok_zero ok_one ok_add ok_sub ok_mul ok_neg ok_square ok_double : rep.

(** Acceptance of a term built from accepted terms. *)
Ltac rep_accept :=
  lazymatch goal with
  | |- rep_ok (fe_add _ _) = true => apply ok_add; rep_accept
  | |- rep_ok (fe_sub _ _) = true => apply ok_sub; rep_accept
  | |- rep_ok (fe_mul _ _) = true => apply ok_mul; rep_accept
  | |- rep_ok (fe_neg _) = true => apply ok_neg; rep_accept
  | |- rep_ok (fe_square _) = true => apply ok_square; rep_accept
  | |- rep_ok (fe_double _) = true => apply ok_double; rep_accept
  | |- rep_ok fe_ZERO = true => apply ok_zero
  | |- rep_ok fe_ONE = true => apply ok_one
  | |- _ => first [assumption | auto 20 with rep]
  end.

(** Push [rep] through the operations, proving acceptance on the way. *)
Ltac rep_push :=
  repeat first
    [ rewrite rep_add by rep_accept | rewrite rep_sub by rep_accept
    | rewrite rep_mul by rep_accept | rewrite rep_neg by rep_accept
    | rewrite rep_square by rep_accept | rewrite rep_double by rep_accept
    | rewrite rep_zero | rewrite rep_one ].

(** Name a subterm [t] as [h], keeping only that it is accepted and its value. *)
Tactic Notation "share" ident(h) constr(t) "as" ident(E) :=
  set (h := t) in *; assert (rep_ok h = true) by (unfold h; rep_accept);
  eassert (E : rep h = _) by (unfold h; rep_push; reflexivity); clearbody h.

(** ** The base instance *)

(** A ring morphism from the integers modulo [p]. *)
Record from_ZP (E : CRing) := {
  phi :> ZP -> E;
  phi_0 : phi Zmod.zero = r0;
  phi_1 : phi Zmod.one = r1;
  phi_add : forall x y, phi (Zmod.add x y) = radd (phi x) (phi y);
  phi_mul : forall x y, phi (Zmod.mul x y) = rmul (phi x) (phi y)
}.

Definition ZP_id : from_ZP ZP_ring :=
  Build_from_ZP ZP_ring (fun x => x) eq_refl eq_refl (fun x y => eq_refl) (fun x y => eq_refl).

Section Base.
Context (E : CRing) (f : from_ZP E).

Add Ring Ering : (rth E).

Lemma phi_opp x : f (Zmod.opp x) = ropp (f x).
Proof.
  assert (H : radd (f x) (f (Zmod.opp x)) = r0).
  { rewrite <- phi_add, Zmod.add_opp_same_r. apply phi_0. }
  transitivity (radd (f (Zmod.opp x)) (radd (f x) (ropp (f x)))); [ring|].
  transitivity (radd (radd (f x) (f (Zmod.opp x))) (ropp (f x))); [ring|]. rewrite H. ring.
Qed.

Lemma phi_sub x y : f (Zmod.sub x y) = rsub (f x) (f y).
Proof. rewrite <- Zmod.add_opp_r, phi_add, phi_opp. ring. Qed.

Definition FieldRep_Fp : FieldRep Fp E.
Proof.
  refine {| rep_ok := fp_ok; rep := fun x => f (val x) |}.
  - apply fp_zero_spec.
  - apply fp_one_spec.
  - intros x y Hx Hy. exact (proj1 (fp_add_spec x y Hx Hy)).
  - intros x y Hx Hy. exact (proj1 (fp_sub_spec x y Hx Hy)).
  - intros x y Hx Hy. exact (proj1 (fp_mul_spec x y Hx Hy)).
  - intros x Hx. exact (proj1 (fp_neg_spec x Hx)).
  - intros x Hx. exact (proj1 (fp_square_spec x Hx)).
  - intros x Hx. exact (proj1 (fp_double_spec x Hx)).
  - intros x y Hx I. pose proof (fp_inv_spec x Hx) as S. change (fe_inv x) with (inv x) in I.
    rewrite I in S. tauto.
  - cbn [fe_ZERO FieldElement_Fp]. rewrite (proj2 fp_zero_spec). apply (phi_0 E f).
  - cbn [fe_ONE FieldElement_Fp]. rewrite (proj2 fp_one_spec). apply (phi_1 E f).
  - intros x y Hx Hy. cbn [fe_add FieldElement_Fp]. rewrite (proj2 (fp_add_spec x y Hx Hy)). apply (phi_add E f).
  - intros x y Hx Hy. cbn [fe_sub FieldElement_Fp]. rewrite (proj2 (fp_sub_spec x y Hx Hy)). apply phi_sub.
  - intros x y Hx Hy. cbn [fe_mul FieldElement_Fp]. rewrite (proj2 (fp_mul_spec x y Hx Hy)). apply (phi_mul E f).
  - intros x Hx. cbn [fe_neg FieldElement_Fp]. rewrite (proj2 (fp_neg_spec x Hx)). apply phi_opp.
  - intros x Hx. cbn [fe_square FieldElement_Fp]. rewrite (proj2 (fp_square_spec x Hx)). apply (phi_mul E f).
  - intros x Hx. cbn [fe_double FieldElement_Fp]. rewrite (proj2 (fp_double_spec x Hx)). apply (phi_add E f).
  - intros x y Hx I. pose proof (fp_inv_spec x Hx) as S. change (fe_inv x) with (inv x) in I.
    rewrite I in S. destruct S as (_ & _ & E1). rewrite <- (phi_mul E f), E1. apply (phi_1 E f).
  - intros x Hx Hz. cbn [fe_is_zero FieldElement_Fp] in Hz. rewrite is_zero_val in Hz by assumption.
    apply Z.eqb_eq, (val_zero_iff x Hx) in Hz. rewrite Hz. apply (phi_0 E f).
  - intros x Hx Hz. cbn [fe_is_one FieldElement_Fp] in Hz. unfold is_one in Hz.
    assert (W1 := proj1 fp_one_spec). assert (W2 := Hx).
    apply fp_ok_iff in W1 as [W1 _], W2 as [W2 _]. unfold ONE in *.
    rewrite z256_eq_spec, Z.eqb_eq in Hz by assumption. apply (eval_inj 4) in Hz; try assumption.
    rewrite Hz. change R with ONE. rewrite (proj2 fp_one_spec). apply (phi_1 E f).
Defined.
End Base.
