(* ===== verification/Fp2.v ===== *)
(** The quadratic extension [Fp2 = Fp[u]/(u^2 + 2)] (gm-sm9-rs/src/arith/fp2.rs).

    The theorems are proved against the interface of [Fp]: evaluation at any
    [u] with [u * u = -2] turns the operations of [Fp2] into ring operations. *)

From Stdlib Require Import Bool ZArith Lia List Zmod Ring.
From S2P Require Import Prelude Z256 Primality Fp FieldRep.
Import ListNotations.
Open Scope Z_scope.

Record Fp2 := { c0 : Fp; c1 : Fp }.

Definition new (a b : Fp) : Fp2 := {| c0 := a; c1 := b |}.

Definition mul_u (x : Fp2) : Fp2 :=
  {| c0 := fe_double (fe_neg (c1 x)); c1 := c0 x |}.

Definition frobenius (x : Fp2) : Fp2 := {| c0 := c0 x; c1 := fe_neg (c1 x) |}.

Definition mul_fp (x : Fp2) (k : Fp) : Fp2 :=
  {| c0 := fe_mul (c0 x) k; c1 := fe_mul (c1 x) k |}.

Definition to_bytes (x : Fp2) : bytes := Fp.to_bytes (c0 x) ++ Fp.to_bytes (c1 x).

Definition ZERO : Fp2 := {| c0 := fe_ZERO; c1 := fe_ZERO |}.
Definition ONE : Fp2 := {| c0 := fe_ONE; c1 := fe_ZERO |}.

Definition add (x y : Fp2) : Fp2 := {| c0 := fe_add (c0 x) (c0 y); c1 := fe_add (c1 x) (c1 y) |}.
Definition sub (x y : Fp2) : Fp2 := {| c0 := fe_sub (c0 x) (c0 y); c1 := fe_sub (c1 x) (c1 y) |}.
Definition neg (x : Fp2) : Fp2 := {| c0 := fe_neg (c0 x); c1 := fe_neg (c1 x) |}.

Definition mul (x y : Fp2) : Fp2 :=
  let ac := fe_mul (c0 x) (c0 y) in
  let bd := fe_mul (c1 x) (c1 y) in
  let ad := fe_mul (c0 x) (c1 y) in
  let bc := fe_mul (c1 x) (c0 y) in
  {| c0 := fe_sub ac (fe_add bd bd); c1 := fe_add ad bc |}.

Definition square (x : Fp2) : Fp2 :=
  let a2 := fe_square (c0 x) in
  let b2 := fe_square (c1 x) in
  let ab := fe_mul (c0 x) (c1 x) in
  {| c0 := fe_sub a2 (fe_add b2 b2); c1 := fe_add ab ab |}.

Definition norm (x : Fp2) : Fp := fe_add (fe_square (c0 x)) (fe_double (fe_square (c1 x))).

Definition inv (x : Fp2) : option Fp2 :=
  match fe_inv (norm x) with
  | Some norm_inv => Some {| c0 := fe_mul (c0 x) norm_inv; c1 := fe_mul (fe_neg (c1 x)) norm_inv |}
  | None => None
  end.

Definition double (x : Fp2) : Fp2 := add x x.
Definition is_zero (x : Fp2) : bool := fe_is_zero (c0 x) && fe_is_zero (c1 x).
Definition is_one (x : Fp2) : bool := fe_is_one (c0 x) && fe_is_zero (c1 x).

Definition fp2_eq (x y : Fp2) : bool := fp_eq (c0 x) (c0 y) && fp_eq (c1 x) (c1 y).
Definition fp2_ct_eq (x y : Fp2) : bool := fp_ct_eq (c0 x) (c0 y) && fp_ct_eq (c1 x) (c1 y).
Definition fp2_conditional_select (a b : Fp2) (choice : bool) : Fp2 :=
  {| c0 := fp_conditional_select (c0 a) (c0 b) choice;
     c1 := fp_conditional_select (c1 a) (c1 b) choice |}.

#[export] Instance FieldElement_Fp2 : FieldElement Fp2 := {|
  fe_ZERO := ZERO; fe_ONE := ONE; fe_add := add; fe_sub := sub; fe_mul := mul; fe_neg := neg;
  fe_square := square; fe_inv := inv; fe_double := double; fe_is_zero := is_zero; fe_is_one := is_one
|}.

Lemma fe_inv_fp2 (x : Fp2) : fe_inv x = inv x.
Proof. cbn [fe_inv FieldElement_Fp2]. reflexivity. Qed.

Lemma inv_some x y :
  fe_inv x = Some y -> exists k, fe_inv (norm x) = Some k /\
    y = {| c0 := fe_mul (c0 x) k; c1 := fe_mul (fe_neg (c1 x)) k |}.
Proof.
  rewrite fe_inv_fp2. unfold inv. destruct (fe_inv (norm x)) as [k|]; intros I; [|discriminate].
  exists k. split; [reflexivity|]. symmetry. exact (some_inj _ _ I).
Qed.

(** ** Evaluation *)

Section Rep.
Context (E : CRing) (RF : FieldRep Fp E).
Context (u : E).
Hypothesis u2 : rmul u u = ropp (radd r1 r1).

Add Ring Ering : (rth E).

Definition fp2_ok (x : Fp2) : bool := rep_ok (c0 x) && rep_ok (c1 x).
Definition ev2 (x : Fp2) : E := radd (rep (c0 x)) (rmul (rep (c1 x)) u).

Lemma fp2_ok_iff x : fp2_ok x = true <-> rep_ok (c0 x) = true /\ rep_ok (c1 x) = true.
Proof. apply andb_true_iff. Qed.

(** Push the evaluation through an operation defined on the components, and
    close the resulting ring equation with [u * u = -2]. *)
Ltac ev2_solve :=
  intros; repeat match goal with H : fp2_ok _ = true |- _ => apply fp2_ok_iff in H as [? ?] end;
  first [ apply fp2_ok_iff; cbn [c0 c1]; split; auto 20 with rep
        | unfold ev2; cbn [c0 c1]; rep_push; ring [u2] ].

Lemma ev2_mul_u x : fp2_ok x = true -> fp2_ok (mul_u x) = true /\ ev2 (mul_u x) = rmul (ev2 x) u.
Proof. intros H; split; revert H; unfold mul_u; ev2_solve. Qed.

Lemma ev2_mul_fp x k :
  fp2_ok x = true -> rep_ok k = true ->
  fp2_ok (mul_fp x k) = true /\ ev2 (mul_fp x k) = rmul (ev2 x) (rep k).
Proof. intros H K; split; revert H; unfold mul_fp; ev2_solve. Qed.

Lemma ev2_frobenius_ok x : fp2_ok x = true -> fp2_ok (frobenius x) = true.
Proof. unfold frobenius. ev2_solve. Qed.

Lemma norm_rep x :
  fp2_ok x = true -> rep_ok (norm x) = true /\
  rep (norm x) = rmul (ev2 x) (ev2 {| c0 := c0 x; c1 := fe_neg (c1 x) |}).
Proof.
  intros [? ?]%fp2_ok_iff. unfold norm. split; [auto 20 with rep|]. unfold ev2; cbn [c0 c1]; rep_push; ring [u2].
Qed.

Lemma ev2_zero : fp2_ok ZERO = true /\ ev2 ZERO = r0.
Proof. unfold ZERO. split; ev2_solve. Qed.
Lemma ev2_one : fp2_ok ONE = true /\ ev2 ONE = r1.
Proof. unfold ONE. split; ev2_solve. Qed.
Lemma ev2_add x y :
  fp2_ok x = true -> fp2_ok y = true -> fp2_ok (add x y) = true /\ ev2 (add x y) = radd (ev2 x) (ev2 y).
Proof. unfold add. split; ev2_solve. Qed.
Lemma ev2_sub x y :
  fp2_ok x = true -> fp2_ok y = true -> fp2_ok (sub x y) = true /\ ev2 (sub x y) = rsub (ev2 x) (ev2 y).
Proof. unfold sub. split; ev2_solve. Qed.
Lemma ev2_mul x y :
  fp2_ok x = true -> fp2_ok y = true -> fp2_ok (mul x y) = true /\ ev2 (mul x y) = rmul (ev2 x) (ev2 y).
Proof. unfold mul; cbv zeta. split; ev2_solve. Qed.
Lemma ev2_neg x : fp2_ok x = true -> fp2_ok (neg x) = true /\ ev2 (neg x) = ropp (ev2 x).
Proof. unfold neg. split; ev2_solve. Qed.
Lemma ev2_square x : fp2_ok x = true -> fp2_ok (square x) = true /\ ev2 (square x) = rmul (ev2 x) (ev2 x).
Proof. unfold square; cbv zeta. split; ev2_solve. Qed.
Lemma ev2_double x : fp2_ok x = true -> fp2_ok (double x) = true /\ ev2 (double x) = radd (ev2 x) (ev2 x).
Proof. unfold double. intros. now apply ev2_add. Qed.

Lemma ev2_inv x y :
  fp2_ok x = true -> fe_inv x = Some y -> fp2_ok y = true /\ rmul (ev2 x) (ev2 y) = r1.
Proof.
  intros Hx I. apply inv_some in I as (k & Ek & ->). destruct (norm_rep x Hx) as [On En].
  pose proof (ok_inv _ _ On Ek) as Ok. pose proof (rep_inv _ _ On Ek) as R1.
  split; [ev2_solve|]. rewrite En in R1.
  apply fp2_ok_iff in Hx as [? ?]. unfold ev2 in *; cbn [c0 c1] in *.
  rewrite !rep_mul, rep_neg in * by auto 20 with rep. rewrite <- R1. ring.
Qed.

Lemma ev2_is_zero x : fp2_ok x = true -> is_zero x = true -> ev2 x = r0.
Proof.
  intros [H0 H1]%fp2_ok_iff [Z0 Z1]%andb_true_iff.
  unfold ev2. rewrite (rep_is_zero _ H0 Z0), (rep_is_zero _ H1 Z1). ring.
Qed.
Lemma ev2_is_one x : fp2_ok x = true -> is_one x = true -> ev2 x = r1.
Proof.
  intros [H0 H1]%fp2_ok_iff [Z0 Z1]%andb_true_iff.
  unfold ev2. rewrite (rep_is_one _ H0 Z0), (rep_is_zero _ H1 Z1). ring.
Qed.

#[export] Instance FieldRep_Fp2 : FieldRep Fp2 E := {|
  rep_ok := fp2_ok; rep := ev2;
  ok_zero := proj1 ev2_zero; ok_one := proj1 ev2_one;
  ok_add x y Hx Hy := proj1 (ev2_add x y Hx Hy);
  ok_sub x y Hx Hy := proj1 (ev2_sub x y Hx Hy);
  ok_mul x y Hx Hy := proj1 (ev2_mul x y Hx Hy);
  ok_neg x Hx := proj1 (ev2_neg x Hx);
  ok_square x Hx := proj1 (ev2_square x Hx);
  ok_double x Hx := proj1 (ev2_double x Hx);
  ok_inv x y Hx I := proj1 (ev2_inv x y Hx I);
  rep_zero := proj2 ev2_zero; rep_one := proj2 ev2_one;
  rep_add x y Hx Hy := proj2 (ev2_add x y Hx Hy);
  rep_sub x y Hx Hy := proj2 (ev2_sub x y Hx Hy);
  rep_mul x y Hx Hy := proj2 (ev2_mul x y Hx Hy);
  rep_neg x Hx := proj2 (ev2_neg x Hx);
  rep_square x Hx := proj2 (ev2_square x Hx);
  rep_double x Hx := proj2 (ev2_double x Hx);
  rep_inv x y Hx I := proj2 (ev2_inv x y Hx I);
  rep_is_zero := ev2_is_zero; rep_is_one := ev2_is_one
|}.
End Rep.

(** ** The norm vanishes only at zero *)

(** Half the order of the multiplicative group. *)
Definition half : Z := (p - 1) / 2.

Lemma half_spec : 0 <= half /\ 2 * half = p - 1 /\ Z.Even half.
Proof.
  split; [vm_compute; congruence|]. split; [vm_compute; reflexivity|].
  apply Z.even_spec. vm_compute. reflexivity.
Qed.

Lemma fermat_square A : A mod p <> 0 -> (A * A) ^ half mod p = 1.
Proof.
  intros N. destruct half_spec as (H0 & H2 & _).
  rewrite <- Z.pow_2_r, <- Z.pow_mul_r, H2 by lia. apply Z.fermat_nz; [apply p_prime|assumption].
Qed.

(** [a^2 = k b^2] with [k] not a square has only the zero solution. *)
Lemma nonresidue_form k (a b : ZP) :
  k ^ half mod p = p - 1 -> Zmod.mul a a = Zmod.mul (Zmod.of_Z p k) (Zmod.mul b b) ->
  a = Zmod.zero /\ b = Zmod.zero.
Proof.
  intros K E. pose proof p_gt_1. destruct half_spec as (H0 & H2 & _).
  apply (f_equal Zmod.to_Z) in E. rewrite !Zmod.to_Z_mul, Zmod.to_Z_of_Z, <- Z.mul_mod in E by lia.
  set (A := Zmod.to_Z a) in *. set (B := Zmod.to_Z b) in *.
  pose proof (Zmod.to_Z_pos_bound a ltac:(lia)) as BA. pose proof (Zmod.to_Z_pos_bound b ltac:(lia)) as BB.
  fold A in BA. fold B in BB.
  assert (Zero : forall z : ZP, Zmod.to_Z z = 0 -> z = Zmod.zero)
    by (intros z Hz; apply Zmod.to_Z_inj; rewrite Hz; symmetry; apply Zmod.to_Z_0).
  assert (SqZ : forall z, 0 <= z < p -> (z * z) mod p = 0 -> z = 0).
  { intros z Hz Z0. apply Z.mod_divide in Z0; [|lia].
    apply Z.divide_prime_mul in Z0; [|apply p_prime].
    destruct (Z.eq_dec z 0); [assumption|]. destruct Z0 as [D|D]; apply Z.divide_pos_le in D; lia. }
  assert (B0 : B = 0).
  { destruct (Z.eq_dec B 0); [assumption|exfalso].
    assert (Eh : ((A * A) mod p) ^ half mod p = (k * (B * B)) ^ half mod p) by (rewrite E; apply Z.mod_pow_l).
    rewrite Z.mod_pow_l, (Z.pow_mul_l k), <- (Z.mul_mod_idemp_l (k ^ half)), K in Eh by lia.
    rewrite <- (Z.mul_mod_idemp_r (p - 1)), (fermat_square B), Z.mul_1_r, (Z.mod_small (p - 1)) in Eh
      by (try rewrite Z.mod_small by lia; lia).
    assert (p > 2) by (rewrite p_value; lia).
    destruct (Z.eq_dec A 0) as [EA|EA].
    - rewrite EA, Z.mul_0_l, Z.pow_0_l, Z.mod_0_l in Eh by lia. lia.
    - rewrite (fermat_square A) in Eh by (rewrite Z.mod_small by lia; assumption). lia. }
  split; apply Zero; [|exact B0]. fold A. apply SqZ; [assumption|]. rewrite E, B0. now rewrite Z.mul_0_r.
Qed.

Lemma two_half : 2 ^ half mod p = p - 1.
Proof. exact two_nonresidue. Qed.

Lemma minus_two_half : (-2) ^ half mod p = p - 1.
Proof. change (-2) with (- (2)). rewrite Z.pow_opp_even by apply half_spec. exact two_half. Qed.

Definition fp2_canonical (x : Fp2) : bool := fp_ok (c0 x) && fp_ok (c1 x).

Add Ring ZPring : (Zmod.ring_theory p).

Definition norm2 (a b : ZP) : ZP := Zmod.add (Zmod.mul a a) (Zmod.add (Zmod.mul b b) (Zmod.mul b b)).

Lemma of_Z_minus_two : Zmod.of_Z p (-2) = Zmod.opp (Zmod.add Zmod.one Zmod.one).
Proof. apply Zmod.to_Z_inj. vm_compute. reflexivity. Qed.
Lemma of_Z_two : Zmod.of_Z p 2 = Zmod.add Zmod.one Zmod.one.
Proof. apply Zmod.to_Z_inj. vm_compute. reflexivity. Qed.

Lemma norm2_zero a b : norm2 a b = Zmod.zero -> a = Zmod.zero /\ b = Zmod.zero.
Proof.
  intros N. apply (nonresidue_form (-2)); [apply minus_two_half|].
  rewrite of_Z_minus_two.
  transitivity (Zmod.sub (norm2 a b) (Zmod.add (Zmod.mul b b) (Zmod.mul b b))); [unfold norm2; ring|].
  rewrite N. ring.
Qed.

Lemma norm_val x :
  fp2_canonical x = true -> fp_ok (norm x) = true /\ val (norm x) = norm2 (val (c0 x)) (val (c1 x)).
Proof.
  intros [H0 H1]%andb_true_iff. unfold norm, norm2.
  cbn [fe_add fe_square fe_double FieldElement_Fp].
  destruct (fp_square_spec _ H0) as [O0 V0]. destruct (fp_square_spec _ H1) as [O1 V1].
  destruct (fp_double_spec _ O1) as [O2 V2]. destruct (fp_add_spec _ _ O0 O2) as [O3 V3].
  split; [assumption|]. now rewrite V3, V0, V2, V1.
Qed.

Lemma fe_inv_none (x : Fp) : fp_ok x = true -> fe_inv x = None -> val x = Zmod.zero.
Proof.
  intros Ok. cbn [fe_inv FieldElement_Fp]. intros I. pose proof (fp_inv_spec x Ok) as S.
  rewrite I in S. exact S.
Qed.

Lemma fe_is_zero_val (x : Fp) : fp_ok x = true -> (fe_is_zero x = true <-> val x = Zmod.zero).
Proof.
  intros Ok. cbn [fe_is_zero FieldElement_Fp]. rewrite is_zero_val, Z.eqb_eq by assumption.
  symmetry. now apply val_zero_iff.
Qed.

Lemma inv_none x : fp2_canonical x = true -> fe_inv x = None -> fe_is_zero x = true.
Proof.
  intros Ok. rewrite fe_inv_fp2. unfold inv. destruct (norm_val x Ok) as [On Vn].
  destruct (fe_inv (norm x)) as [k|] eqn:E; [discriminate|]. intros _.
  apply (fe_inv_none _ On) in E. rewrite Vn in E. apply norm2_zero in E as [E0 E1].
  apply andb_true_iff in Ok as [O0 O1]. cbn [fe_is_zero FieldElement_Fp2]. unfold is_zero.
  apply andb_true_iff. split; apply fe_is_zero_val; assumption.
Qed.

(** ** The reference field of pairs *)

Definition E2 : CRing := quad ZP_ring (Zmod.opp (Zmod.add Zmod.one Zmod.one)).
Definition gen_u : E2 := (Zmod.zero, Zmod.one).

Lemma gen_u_spec : rmul gen_u gen_u = ropp (radd r1 r1).
Proof.
  change ((Zmod.add (Zmod.mul Zmod.zero Zmod.zero)
            (Zmod.mul (Zmod.opp (Zmod.add Zmod.one Zmod.one)) (Zmod.mul Zmod.one Zmod.one)),
           Zmod.add (Zmod.mul Zmod.zero Zmod.one) (Zmod.mul Zmod.one Zmod.zero)) =
          (Zmod.opp (Zmod.add (@Zmod.one p) Zmod.one), Zmod.opp (Zmod.add (@Zmod.zero p) Zmod.zero))).
  f_equal; ring.
Qed.

Definition phi2 : from_ZP E2.
Proof.
  refine (Build_from_ZP E2 (fun k : ZP => (k, Zmod.zero) : E2) eq_refl eq_refl _ _).
  - intros x y. change ((Zmod.add x y, Zmod.zero) = (Zmod.add x y, Zmod.add (@Zmod.zero p) Zmod.zero)).
    f_equal; ring.
  - intros x y. change ((Zmod.mul x y, Zmod.zero) =
      (Zmod.add (Zmod.mul x y) (Zmod.mul (Zmod.opp (Zmod.add Zmod.one Zmod.one)) (Zmod.mul (@Zmod.zero p) Zmod.zero)),
       Zmod.add (Zmod.mul x Zmod.zero) (Zmod.mul Zmod.zero y))).
    f_equal; ring.
Defined.

Definition rep2 : FieldRep Fp2 E2 := FieldRep_Fp2 E2 (FieldRep_Fp E2 phi2) gen_u gen_u_spec.

Definition pair2 (x : Fp2) : E2 := (val (c0 x), val (c1 x)).

Lemma rep2_pair (x : Fp2) : @rep _ _ _ rep2 x = pair2 x.
Proof.
  unfold pair2.
  change ((Zmod.add (val (c0 x)) (Zmod.add (Zmod.mul (val (c1 x)) Zmod.zero)
             (Zmod.mul (Zmod.opp (Zmod.add Zmod.one Zmod.one)) (Zmod.mul Zmod.zero Zmod.one))),
           Zmod.add Zmod.zero (Zmod.add (Zmod.mul (val (c1 x)) Zmod.one) (Zmod.mul Zmod.zero Zmod.zero)))
          = (val (c0 x), val (c1 x))).
  f_equal; ring.
Qed.

Lemma rep2_inj x y :
  fp2_canonical x = true -> fp2_canonical y = true -> @rep _ _ _ rep2 x = @rep _ _ _ rep2 y -> x = y.
Proof.
  intros [X0 X1]%andb_true_iff [Y0 Y1]%andb_true_iff. rewrite !rep2_pair. unfold pair2. intros E.
  pose proof (f_equal fst E) as E0. pose proof (f_equal snd E) as E1. cbn [fst snd] in E0, E1.
  apply val_inj in E0; [|assumption..]. apply val_inj in E1; [|assumption..].
  destruct x, y. cbn [c0 c1] in E0, E1. now subst.
Qed.
