(* ===== verification/Fp4.v ===== *)
(** The quartic extension [Fp4 = Fp2[v]/(v^2 - u)] (gm-sm9-rs/src/arith/fp4.rs).

    As in [Fp2], evaluation at any [v] with [v * v = u] turns the operations
    into ring operations; inversion fails only at zero. *)

From Stdlib Require Import Bool ZArith Lia List Zmod Ring.
From S2P Require Import Prelude Z256 Primality Fp FieldRep Fp2.
Import ListNotations.
Open Scope Z_scope.

Record Fp4 := { c0 : Fp2; c1 : Fp2 }.

Definition new (a b : Fp2) : Fp4 := {| c0 := a; c1 := b |}.

Definition mul_v (x : Fp4) : Fp4 := {| c0 := mul_u (c1 x); c1 := c0 x |}.

Definition frobenius (x : Fp4) : Fp4 :=
  {| c0 := Fp2.frobenius (c0 x); c1 := fe_neg (Fp2.frobenius (c1 x)) |}.

Definition conjugate (x : Fp4) : Fp4 := {| c0 := c0 x; c1 := fe_neg (c1 x) |}.
Definition frobenius_sq (x : Fp4) : Fp4 := conjugate x.

Definition mul_fp (x : Fp4) (k : Fp) : Fp4 :=
  {| c0 := Fp2.mul_fp (c0 x) k; c1 := Fp2.mul_fp (c1 x) k |}.

Definition to_bytes (x : Fp4) : bytes := Fp2.to_bytes (c0 x) ++ Fp2.to_bytes (c1 x).

Definition ZERO : Fp4 := {| c0 := fe_ZERO; c1 := fe_ZERO |}.
Definition ONE : Fp4 := {| c0 := fe_ONE; c1 := fe_ZERO |}.

Definition add (x y : Fp4) : Fp4 := {| c0 := fe_add (c0 x) (c0 y); c1 := fe_add (c1 x) (c1 y) |}.
Definition sub (x y : Fp4) : Fp4 := {| c0 := fe_sub (c0 x) (c0 y); c1 := fe_sub (c1 x) (c1 y) |}.
Definition neg (x : Fp4) : Fp4 := {| c0 := fe_neg (c0 x); c1 := fe_neg (c1 x) |}.

Definition mul (x y : Fp4) : Fp4 :=
  let ac := fe_mul (c0 x) (c0 y) in
  let bd := fe_mul (c1 x) (c1 y) in
  let ad := fe_mul (c0 x) (c1 y) in
  let bc := fe_mul (c1 x) (c0 y) in
  {| c0 := fe_add ac (mul_u bd); c1 := fe_add ad bc |}.

Definition square (x : Fp4) : Fp4 :=
  let a2 := fe_square (c0 x) in
  let b2 := fe_square (c1 x) in
  let ab := fe_mul (c0 x) (c1 x) in
  {| c0 := fe_add a2 (mul_u b2); c1 := fe_add ab ab |}.

Definition norm (x : Fp4) : Fp2 := fe_sub (fe_square (c0 x)) (mul_u (fe_square (c1 x))).

Definition inv (x : Fp4) : option Fp4 :=
  match fe_inv (norm x) with
  | Some norm_inv => Some {| c0 := fe_mul (c0 x) norm_inv; c1 := fe_mul (fe_neg (c1 x)) norm_inv |}
  | None => None
  end.

Definition double (x : Fp4) : Fp4 := add x x.
Definition is_zero (x : Fp4) : bool := fe_is_zero (c0 x) && fe_is_zero (c1 x).
Definition is_one (x : Fp4) : bool := fe_is_one (c0 x) && fe_is_zero (c1 x).

Definition fp4_eq (x y : Fp4) : bool := fp2_eq (c0 x) (c0 y) && fp2_eq (c1 x) (c1 y).
Definition fp4_conditional_select (a b : Fp4) (choice : bool) : Fp4 :=
  {| c0 := fp2_conditional_select (c0 a) (c0 b) choice;
     c1 := fp2_conditional_select (c1 a) (c1 b) choice |}.

#[export] Instance FieldElement_Fp4 : FieldElement Fp4 := {|
  fe_ZERO := ZERO; fe_ONE := ONE; fe_add := add; fe_sub := sub; fe_mul := mul; fe_neg := neg;
  fe_square := square; fe_inv := inv; fe_double := double; fe_is_zero := is_zero; fe_is_one := is_one
|}.

Lemma fe_inv_fp4 (x : Fp4) : fe_inv x = inv x.
Proof. cbn [fe_inv FieldElement_Fp4]. reflexivity. Qed.

Lemma inv4_some x y :
  fe_inv x = Some y -> exists k, fe_inv (norm x) = Some k /\
    y = {| c0 := fe_mul (c0 x) k; c1 := fe_mul (fe_neg (c1 x)) k |}.
Proof.
  rewrite fe_inv_fp4. unfold inv. destruct (fe_inv (norm x)) as [k|]; intros I; [|discriminate].
  exists k. split; [reflexivity|]. symmetry. exact (some_inj _ _ I).
Qed.

(** ** Evaluation *)

Section Rep.
Context (E : CRing) (RF : FieldRep Fp E) (u v : E).
Hypothesis u2 : rmul u u = ropp (radd r1 r1).
Hypothesis v2 : rmul v v = u.

Add Ring Ering : (rth E).

#[local] Instance R2 : FieldRep Fp2 E := FieldRep_Fp2 E RF u u2.

Lemma ok_mul_u x : rep_ok x = true -> rep_ok (mul_u x) = true.
Proof. intros H. exact (proj1 (ev2_mul_u E RF u u2 x H)). Qed.
Lemma rep_mul_u x : rep_ok x = true -> rep (mul_u x) = rmul (rep x) u.
Proof. intros H. exact (proj2 (ev2_mul_u E RF u u2 x H)). Qed.
#[local] Hint Resolve ok_mul_u : rep.

Definition fp4_ok (x : Fp4) : bool := rep_ok (c0 x) && rep_ok (c1 x).
Definition ev4 (x : Fp4) : E := radd (rep (c0 x)) (rmul (rep (c1 x)) v).

Lemma fp4_ok_iff x : fp4_ok x = true <-> rep_ok (c0 x) = true /\ rep_ok (c1 x) = true.
Proof. apply andb_true_iff. Qed.

Ltac ev4_solve :=
  intros; repeat match goal with H : fp4_ok _ = true |- _ => apply fp4_ok_iff in H as [? ?] end;
  first [ apply fp4_ok_iff; cbn [c0 c1]; split; auto 20 with rep
        | unfold ev4; cbn [c0 c1];
          repeat first [progress rep_push | rewrite rep_mul_u by auto 20 with rep]; ring [u2 v2] ].

Lemma ev4_mul_v x : fp4_ok x = true -> fp4_ok (mul_v x) = true /\ ev4 (mul_v x) = rmul (ev4 x) v.
Proof. unfold mul_v. split; ev4_solve. Qed.

Lemma ev4_zero : fp4_ok ZERO = true /\ ev4 ZERO = r0.
Proof. unfold ZERO. split; ev4_solve. Qed.
Lemma ev4_one : fp4_ok ONE = true /\ ev4 ONE = r1.
Proof. unfold ONE. split; ev4_solve. Qed.
Lemma ev4_add x y :
  fp4_ok x = true -> fp4_ok y = true -> fp4_ok (add x y) = true /\ ev4 (add x y) = radd (ev4 x) (ev4 y).
Proof. unfold add. split; ev4_solve. Qed.
Lemma ev4_sub x y :
  fp4_ok x = true -> fp4_ok y = true -> fp4_ok (sub x y) = true /\ ev4 (sub x y) = rsub (ev4 x) (ev4 y).
Proof. unfold sub. split; ev4_solve. Qed.
Lemma ev4_mul x y :
  fp4_ok x = true -> fp4_ok y = true -> fp4_ok (mul x y) = true /\ ev4 (mul x y) = rmul (ev4 x) (ev4 y).
Proof. unfold mul; cbv zeta. split; ev4_solve. Qed.
Lemma ev4_neg x : fp4_ok x = true -> fp4_ok (neg x) = true /\ ev4 (neg x) = ropp (ev4 x).
Proof. unfold neg. split; ev4_solve. Qed.
Lemma ev4_square x : fp4_ok x = true -> fp4_ok (square x) = true /\ ev4 (square x) = rmul (ev4 x) (ev4 x).
Proof. unfold square; cbv zeta. split; ev4_solve. Qed.
Lemma ev4_double x : fp4_ok x = true -> fp4_ok (double x) = true /\ ev4 (double x) = radd (ev4 x) (ev4 x).
Proof. unfold double. intros. now apply ev4_add. Qed.

Lemma norm4_rep x :
  fp4_ok x = true -> rep_ok (norm x) = true /\
  rep (norm x) = rsub (rmul (rep (c0 x)) (rep (c0 x))) (rmul (rmul (rep (c1 x)) (rep (c1 x))) u).
Proof.
  intros [? ?]%fp4_ok_iff. unfold norm. split; [auto 20 with rep|].
  rep_push. now rewrite rep_mul_u, rep_square by auto 20 with rep.
Qed.

Lemma ev4_inv x y :
  fp4_ok x = true -> fe_inv x = Some y -> fp4_ok y = true /\ rmul (ev4 x) (ev4 y) = r1.
Proof.
  intros Hx I. apply inv4_some in I as (k & Ek & ->). destruct (norm4_rep x Hx) as [On En].
  pose proof (ok_inv _ _ On Ek) as Ok. pose proof (rep_inv _ _ On Ek) as R1.
  split; [ev4_solve|]. rewrite En in R1.
  apply fp4_ok_iff in Hx as [? ?]. unfold ev4; cbn [c0 c1].
  rewrite !rep_mul, rep_neg by auto 20 with rep. rewrite <- R1. ring [v2].
Qed.

Lemma ev4_is_zero x : fp4_ok x = true -> is_zero x = true -> ev4 x = r0.
Proof.
  intros [H0 H1]%fp4_ok_iff [Z0 Z1]%andb_true_iff.
  unfold ev4. rewrite (rep_is_zero _ H0 Z0), (rep_is_zero _ H1 Z1). ring.
Qed.
Lemma ev4_is_one x : fp4_ok x = true -> is_one x = true -> ev4 x = r1.
Proof.
  intros [H0 H1]%fp4_ok_iff [Z0 Z1]%andb_true_iff.
  unfold ev4. rewrite (rep_is_one _ H0 Z0), (rep_is_zero _ H1 Z1). ring.
Qed.

#[export] Instance FieldRep_Fp4 : FieldRep Fp4 E := {|
  rep_ok := fp4_ok; rep := ev4;
  ok_zero := proj1 ev4_zero; ok_one := proj1 ev4_one;
  ok_add x y Hx Hy := proj1 (ev4_add x y Hx Hy);
  ok_sub x y Hx Hy := proj1 (ev4_sub x y Hx Hy);
  ok_mul x y Hx Hy := proj1 (ev4_mul x y Hx Hy);
  ok_neg x Hx := proj1 (ev4_neg x Hx);
  ok_square x Hx := proj1 (ev4_square x Hx);
  ok_double x Hx := proj1 (ev4_double x Hx);
  ok_inv x y Hx I := proj1 (ev4_inv x y Hx I);
  rep_zero := proj2 ev4_zero; rep_one := proj2 ev4_one;
  rep_add x y Hx Hy := proj2 (ev4_add x y Hx Hy);
  rep_sub x y Hx Hy := proj2 (ev4_sub x y Hx Hy);
  rep_mul x y Hx Hy := proj2 (ev4_mul x y Hx Hy);
  rep_neg x Hx := proj2 (ev4_neg x Hx);
  rep_square x Hx := proj2 (ev4_square x Hx);
  rep_double x Hx := proj2 (ev4_double x Hx);
  rep_inv x y Hx I := proj2 (ev4_inv x y Hx I);
  rep_is_zero := ev4_is_zero; rep_is_one := ev4_is_one
|}.
End Rep.

(** ** Inversion fails only at zero *)

Definition fp4_canonical (x : Fp4) : bool := fp2_canonical (c0 x) && fp2_canonical (c1 x).

Add Ring ZPring4 : (Zmod.ring_theory p).

(** [a^2 = u b^2] over pairs: taking norms, [N(a)^2 = 2 N(b)^2]. *)
Lemma norm4_zero (a0 a1 b0 b1 : ZP) :
  let sq0 := fun x y => Zmod.sub (Zmod.mul x x) (Zmod.add (Zmod.mul y y) (Zmod.mul y y)) in
  let sq1 := fun x y => Zmod.add (Zmod.mul x y) (Zmod.mul x y) in
  sq0 a0 a1 = Zmod.opp (Zmod.add (sq1 b0 b1) (sq1 b0 b1)) -> sq1 a0 a1 = sq0 b0 b1 ->
  a0 = Zmod.zero /\ a1 = Zmod.zero /\ b0 = Zmod.zero /\ b1 = Zmod.zero.
Proof.
  cbv zeta. intros E0 E1.
  assert (N : Zmod.mul (norm2 a0 a1) (norm2 a0 a1) =
              Zmod.mul (Zmod.of_Z p 2) (Zmod.mul (norm2 b0 b1) (norm2 b0 b1))).
  { rewrite of_Z_two.
    transitivity (norm2 (Zmod.sub (Zmod.mul a0 a0) (Zmod.add (Zmod.mul a1 a1) (Zmod.mul a1 a1)))
                        (Zmod.add (Zmod.mul a0 a1) (Zmod.mul a0 a1))); [unfold norm2; ring|].
    rewrite E0, E1. unfold norm2. ring. }
  apply nonresidue_form in N as [Na Nb]; [|apply two_half].
  apply norm2_zero in Na as [-> ->], Nb as [-> ->]. auto.
Qed.

Lemma rep2_zero x : fp2_canonical x = true -> fe_is_zero x = true -> @rep _ _ _ rep2 x = r0.
Proof. intros Ok Z0. exact (@rep_is_zero _ _ _ rep2 x Ok Z0). Qed.

Lemma fp2_zero_of_vals x :
  fp2_canonical x = true -> val (Fp2.c0 x) = Zmod.zero -> val (Fp2.c1 x) = Zmod.zero -> fe_is_zero x = true.
Proof.
  intros [O0 O1]%andb_true_iff V0 V1. cbn [fe_is_zero FieldElement_Fp2]. unfold Fp2.is_zero.
  apply andb_true_iff. split; apply fe_is_zero_val; assumption.
Qed.

Lemma rep2_ok : @rep_ok _ _ _ rep2 = fp2_canonical.
Proof. reflexivity. Qed.
Lemma R2_rep2 : R2 E2 (FieldRep_Fp E2 phi2) gen_u gen_u_spec = rep2.
Proof. reflexivity. Qed.
Lemma fp4_ok_canonical x : fp4_ok E2 (FieldRep_Fp E2 phi2) gen_u gen_u_spec x = fp4_canonical x.
Proof. unfold fp4_ok, fp4_canonical. now rewrite R2_rep2, rep2_ok. Qed.

Lemma norm4_components x :
  fp4_canonical x = true -> fp2_canonical (norm x) = true /\
  @rep _ _ _ rep2 (norm x) =
    rsub (rmul (pair2 (c0 x)) (pair2 (c0 x))) (rmul (rmul (pair2 (c1 x)) (pair2 (c1 x))) gen_u).
Proof.
  intros Ok. rewrite <- fp4_ok_canonical in Ok.
  destruct (norm4_rep E2 (FieldRep_Fp E2 phi2) gen_u gen_u_spec x Ok) as [On En].
  rewrite R2_rep2 in On, En. rewrite rep2_ok in On. split; [exact On|]. rewrite En.
  now rewrite !rep2_pair.
Qed.

Lemma Zmod_sub_0_inj (x y : ZP) : Zmod.sub x y = Zmod.zero -> x = y.
Proof. intros E. transitivity (Zmod.add (Zmod.sub x y) y); [ring|]. rewrite E. ring. Qed.

Lemma norm4_pair_zero (a b : E2) :
  r0 = rsub (rmul a a) (rmul (rmul b b) gen_u) ->
  fst a = Zmod.zero /\ snd a = Zmod.zero /\ fst b = Zmod.zero /\ snd b = Zmod.zero.
Proof.
  destruct a as [a0 a1], b as [b0 b1]. intros E. cbn [fst snd].
  set (sq0 := fun x y : ZP => Zmod.add (Zmod.mul x x) (Zmod.mul (Zmod.opp (Zmod.add Zmod.one Zmod.one)) (Zmod.mul y y))).
  set (sq1 := fun x y : ZP => Zmod.add (Zmod.mul x y) (Zmod.mul y x)).
  assert (E0 : @Zmod.zero p = Zmod.sub (sq0 a0 a1) (Zmod.add (Zmod.mul (sq0 b0 b1) Zmod.zero)
    (Zmod.mul (Zmod.opp (Zmod.add Zmod.one Zmod.one)) (Zmod.mul (sq1 b0 b1) Zmod.one)))) by exact (f_equal fst E).
  assert (E1 : @Zmod.zero p = Zmod.sub (sq1 a0 a1) (Zmod.add (Zmod.mul (sq0 b0 b1) Zmod.one)
    (Zmod.mul (sq1 b0 b1) Zmod.zero))) by exact (f_equal snd E).
  apply (norm4_zero a0 a1 b0 b1); apply Zmod_sub_0_inj; [rewrite E0|rewrite E1]; unfold sq0, sq1; ring.
Qed.

Lemma inv4_none x : fp4_canonical x = true -> fe_inv x = None -> fe_is_zero x = true.
Proof.
  intros Ok. rewrite fe_inv_fp4. unfold inv. destruct (norm4_components x Ok) as [On En].
  destruct (fe_inv (norm x)) as [k|] eqn:E; [discriminate|]. intros _.
  apply (Fp2.inv_none _ On) in E. apply (rep2_zero _ On) in E. rewrite E in En. clear E.
  apply norm4_pair_zero in En as (A0 & A1 & B0 & B1).
  apply andb_true_iff in Ok as [Oa Ob]. cbn [fe_is_zero FieldElement_Fp4]. unfold is_zero.
  apply andb_true_iff. split; now apply fp2_zero_of_vals.
Qed.

(** ** The reference field of pairs of pairs *)

Definition E4 : CRing := quad E2 gen_u.
Definition in_E4 (a : E2) : E4 := (a, r0).
Definition gen_v : E4 := (r0, r1).

Section E4Lemmas.
Add Ring E2ring : (rth E2).

Lemma in_E4_add a b : in_E4 (radd a b) = radd (in_E4 a) (in_E4 b).
Proof. change (in_E4 (radd a b) = (radd a b, radd (@r0 E2) r0)). unfold in_E4. f_equal; ring. Qed.
Lemma in_E4_mul a b : in_E4 (rmul a b) = rmul (in_E4 a) (in_E4 b).
Proof.
  change (in_E4 (rmul a b) = (radd (rmul a b) (rmul gen_u (rmul (@r0 E2) r0)), radd (rmul a r0) (rmul r0 b))).
  unfold in_E4. f_equal; ring.
Qed.
Lemma in_E4_opp a : in_E4 (ropp a) = ropp (in_E4 a).
Proof. change (in_E4 (ropp a) = (ropp a, ropp (@r0 E2))). unfold in_E4. f_equal; ring. Qed.
Lemma gen_v_spec : rmul gen_v gen_v = in_E4 gen_u.
Proof.
  change ((radd (rmul (@r0 E2) r0) (rmul gen_u (rmul r1 r1)), radd (rmul (@r0 E2) r1) (rmul r1 r0)) = in_E4 gen_u).
  unfold in_E4. f_equal; ring.
Qed.
Lemma E4_pair (a b : E2) : radd (in_E4 a) (rmul (in_E4 b) gen_v) = ((a, b) : E4).
Proof.
  change ((radd a (radd (rmul b r0) (rmul gen_u (rmul r0 r1))), radd (@r0 E2) (radd (rmul b r1) (rmul r0 r0))) = (a, b)).
  f_equal; ring.
Qed.
End E4Lemmas.

Lemma gen_u4_spec : rmul (in_E4 gen_u) (in_E4 gen_u) = ropp (radd r1 r1).
Proof. rewrite <- in_E4_mul, gen_u_spec, in_E4_opp, in_E4_add. reflexivity. Qed.

Definition phi4 : from_ZP E4.
Proof.
  refine (Build_from_ZP E4 (fun k => in_E4 (phi2 k)) eq_refl eq_refl _ _).
  - intros x y. now rewrite (phi_add E2 phi2), in_E4_add.
  - intros x y. now rewrite (phi_mul E2 phi2), in_E4_mul.
Defined.

Definition rep4 : FieldRep Fp4 E4 :=
  FieldRep_Fp4 E4 (FieldRep_Fp E4 phi4) (in_E4 gen_u) gen_v gen_u4_spec gen_v_spec.

Definition pair4 (x : Fp4) : E4 := (pair2 (c0 x), pair2 (c1 x)).

Lemma rep2_in_E4 (x : Fp2) :
  ev2 E4 (FieldRep_Fp E4 phi4) (in_E4 gen_u) x = in_E4 (pair2 x).
Proof.
  rewrite <- rep2_pair. unfold ev2. change (@rep _ _ _ rep2 x) with
    (radd (phi2 (val (Fp2.c0 x))) (rmul (phi2 (val (Fp2.c1 x))) gen_u)).
  rewrite in_E4_add, in_E4_mul. reflexivity.
Qed.

Lemma rep4_pair (x : Fp4) : @rep _ _ _ rep4 x = pair4 x.
Proof.
  change (@rep _ _ _ rep4 x) with
    (radd (ev2 E4 (FieldRep_Fp E4 phi4) (in_E4 gen_u) (c0 x))
       (rmul (ev2 E4 (FieldRep_Fp E4 phi4) (in_E4 gen_u) (c1 x)) gen_v)).
  rewrite !rep2_in_E4. apply E4_pair.
Qed.

Lemma pair2_inj x y :
  fp2_canonical x = true -> fp2_canonical y = true -> pair2 x = pair2 y -> x = y.
Proof. intros X Y E. apply rep2_inj; try assumption. now rewrite !rep2_pair. Qed.

Lemma pair4_inj x y :
  fp4_canonical x = true -> fp4_canonical y = true -> pair4 x = pair4 y -> x = y.
Proof.
  intros [X0 X1]%andb_true_iff [Y0 Y1]%andb_true_iff E.
  pose proof (f_equal fst E) as E0. pose proof (f_equal snd E) as E1. unfold pair4 in E0, E1. cbn [fst snd] in E0, E1.
  apply pair2_inj in E0; [|assumption..]. apply pair2_inj in E1; [|assumption..].
  destruct x, y. cbn [c0 c1] in E0, E1. now subst.
Qed.

Lemma rep4_ok : @rep_ok _ _ _ rep4 = fp4_canonical.
Proof. reflexivity. Qed.

(** ** Properties *)

(** [Fp4] implements the field [Fp[u, v]/(u^2 + 2, v^2 - u)]: on canonical
    elements the coefficients determine the element, addition, subtraction,
    negation, multiplication, squaring and the product with [v] are those of the
    quotient ring and stay canonical, and [inv] returns the inverse of every
    non-zero element and [None] only for zero (2 and -2 are not squares modulo
    [p]). *)
Theorem fp4_implements_field (x y : Fp4) :
  fp4_canonical x = true -> fp4_canonical y = true ->
  (pair4 x = pair4 y -> x = y) /\
  (fp4_canonical (add x y) = true /\ pair4 (add x y) = radd (pair4 x) (pair4 y)) /\
  (fp4_canonical (sub x y) = true /\ pair4 (sub x y) = rsub (pair4 x) (pair4 y)) /\
  (fp4_canonical (neg x) = true /\ pair4 (neg x) = ropp (pair4 x)) /\
  (fp4_canonical (mul x y) = true /\ pair4 (mul x y) = rmul (pair4 x) (pair4 y)) /\
  (fp4_canonical (square x) = true /\ pair4 (square x) = rmul (pair4 x) (pair4 x)) /\
  (fp4_canonical (mul_v x) = true /\ pair4 (mul_v x) = rmul (pair4 x) gen_v) /\
  match fe_inv x with
  | Some z => fp4_canonical z = true /\ rmul (pair4 x) (pair4 z) = r1
  | None => is_zero x = true
  end.
Proof.
  rewrite <- !rep4_ok. intros Hx Hy. rewrite <- !rep4_pair.
  split; [rewrite !rep4_pair; rewrite rep4_ok in *; now apply pair4_inj|].
  split; [split; [exact (ok_add _ _ Hx Hy)|exact (rep_add _ _ Hx Hy)]|].
  split; [split; [exact (ok_sub _ _ Hx Hy)|exact (rep_sub _ _ Hx Hy)]|].
  split; [split; [exact (ok_neg _ Hx)|exact (rep_neg _ Hx)]|].
  split; [split; [exact (ok_mul _ _ Hx Hy)|exact (rep_mul _ _ Hx Hy)]|].
  split; [split; [exact (ok_square _ Hx)|exact (rep_square _ Hx)]|].
  split; [exact (ev4_mul_v E4 (FieldRep_Fp E4 phi4) (in_E4 gen_u) gen_v gen_u4_spec gen_v_spec x Hx)|].
  destruct (fe_inv x) as [z|] eqn:E.
  - rewrite <- rep4_pair. split; [exact (ok_inv _ _ Hx E)|exact (rep_inv _ _ Hx E)].
  - rewrite rep4_ok in Hx. exact (inv4_none x Hx E).
Qed.

Definition sample4 : Fp4 :=
  {| c0 := {| Fp2.c0 := from_u64 3; Fp2.c1 := from_u64 1 |};
     c1 := {| Fp2.c0 := from_u64 4; Fp2.c1 := from_u64 7 |} |}.

Lemma fp4_implements_field_witness :
  pair4 (mul sample4 sample4) = rmul (pair4 sample4) (pair4 sample4) /\
  exists z, fe_inv sample4 = Some z /\ rmul (pair4 sample4) (pair4 z) = r1.
Proof.
  destruct (fp4_implements_field sample4 sample4) as (_ & _ & _ & _ & [_ M] & _ & _ & I);
    [vm_compute; reflexivity..|].
  split; [exact M|]. destruct (fe_inv sample4) as [z|].
  - exists z. split; [reflexivity|exact (proj2 I)].
  - vm_compute in I. discriminate.
Defined.

Definition elt_v : Fp4 := {| c0 := fe_ZERO; c1 := fe_ONE |}.

(** [Fp4::frobenius] is not a ring homomorphism, hence not the [p]-power map
    it is documented to be: it sends [v] to [-v], while [v * v = u] goes to
    [-u]. The comment assumes [p = 3 mod 4]; the SM9 modulus is 5 modulo 8. *)
Theorem fp4_frobenius_not_multiplicative :
  fp4_canonical elt_v = true /\
  frobenius (mul elt_v elt_v) <> mul (frobenius elt_v) (frobenius elt_v) /\
  frobenius (mul elt_v elt_v) = neg (mul (frobenius elt_v) (frobenius elt_v)) /\
  p mod 8 = 5.
Proof.
  split; [reflexivity|]. split; [|split; [vm_compute; reflexivity|reflexivity]].
  intros E. apply (f_equal (fun x => Fp2.c1 (c0 x))) in E. vm_compute in E. discriminate.
Qed.
