(* ===== verification/Fp12.v ===== *)
(** The degree-12 extension [Fp12 = Fp4[w]/(w^3 - v)] (gm-sm9-rs/src/arith/fp12.rs).

    An element is evaluated as a polynomial of degree 11 in [w] over [Fp]: the
    coefficient [c_i.c_j.c_k] stands at [w^(i + 3j + 6k)]. Evaluation at any [w]
    with [w^12 = -2] of any ring over [Fp] is a ring homomorphism; the Frobenius
    maps are the substitutions of [w^p], [w^(p^2)], [w^(p^3)] and [w^(p^6)];
    inversion fails only at zero. *)

From Stdlib Require Import Bool ZArith Lia List Zmod Ring.
From S2P Require Import Prelude Z256 Primality Fp FieldRep Fp2 Fp4.
Import ListNotations.
Open Scope Z_scope.

Record Fp12 := { c0 : Fp4; c1 : Fp4; c2 : Fp4 }.

Definition new (a b c : Fp4) : Fp12 := {| c0 := a; c1 := b; c2 := c |}.

Definition mul_w (x : Fp12) : Fp12 := {| c0 := mul_v (c1 x); c1 := c0 x; c2 := c2 x |}.

(** ** Frobenius constants, in Montgomery form *)

Definition alpha1 : Fp := [0x1a98dfbd4575299f; 0x9ec8547b245c54fd; 0xf51f5eac13df846c; 0x9ef74015d5a16393].
Definition alpha2 : Fp := [0xb626197dce4736ca; 0x08296b3557ed0186; 0x9c705db2fd91512a; 0x1c753e748601c992].
Definition alpha3 : Fp := [0x39b4ef0f3ee72529; 0xdb043bf508582782; 0xb8554ab054ac91e3; 0x9848eec25498cab5].
Definition alpha4 : Fp := [0x81054fcd94e9c1c4; 0x4c0e91cb8ce2df3e; 0x4877b452e8aedfb4; 0x88f53e748b491776].
Definition alpha5 : Fp := [0x048baa79dcc34107; 0x5e2e7ac4fe76c161; 0x99399754365bd4bc; 0xaf91aeac819b0e13].
Definition beta : Fp2 :=
  Fp2.new [0x39b4ef0f3ee72529; 0xdb043bf508582782; 0xb8554ab054ac91e3; 0x9848eec25498cab5] fe_ZERO.

Definition frobenius (x : Fp12) : Fp12 :=
  {| c0 := Fp4.new (Fp2.frobenius (Fp4.c0 (c0 x)))
                   (Fp2.mul_fp (Fp2.frobenius (Fp4.c1 (c0 x))) alpha3);
     c1 := Fp4.new (Fp2.mul_fp (Fp2.frobenius (Fp4.c0 (c1 x))) alpha1)
                   (Fp2.mul_fp (Fp2.frobenius (Fp4.c1 (c1 x))) alpha4);
     c2 := Fp4.new (Fp2.mul_fp (Fp2.frobenius (Fp4.c0 (c2 x))) alpha2)
                   (Fp2.mul_fp (Fp2.frobenius (Fp4.c1 (c2 x))) alpha5) |}.

Definition frobenius_sq (x : Fp12) : Fp12 :=
  {| c0 := Fp4.frobenius_sq (c0 x);
     c1 := Fp4.mul_fp (Fp4.frobenius_sq (c1 x)) alpha2;
     c2 := Fp4.mul_fp (Fp4.frobenius_sq (c2 x)) alpha4 |}.

Definition frobenius3 (x : Fp2) : Fp2 := Fp2.frobenius (Fp2.frobenius (Fp2.frobenius x)).

Definition frobenius_cu (x : Fp12) : Fp12 :=
  {| c0 := Fp4.new (frobenius3 (Fp4.c0 (c0 x))) (fe_neg (fe_mul (frobenius3 (Fp4.c1 (c0 x))) beta));
     c1 := Fp4.new (fe_mul (frobenius3 (Fp4.c0 (c1 x))) beta) (frobenius3 (Fp4.c1 (c1 x)));
     c2 := Fp4.new (fe_neg (frobenius3 (Fp4.c0 (c2 x)))) (fe_mul (frobenius3 (Fp4.c1 (c2 x))) beta) |}.

Definition frobenius_six (x : Fp12) : Fp12 :=
  {| c0 := conjugate (c0 x); c1 := fe_neg (conjugate (c1 x)); c2 := conjugate (c2 x) |}.

(** ** Field operations *)

Definition ZERO : Fp12 := {| c0 := fe_ZERO; c1 := fe_ZERO; c2 := fe_ZERO |}.
Definition ONE : Fp12 := {| c0 := fe_ONE; c1 := fe_ZERO; c2 := fe_ZERO |}.

Definition add (x y : Fp12) : Fp12 :=
  {| c0 := fe_add (c0 x) (c0 y); c1 := fe_add (c1 x) (c1 y); c2 := fe_add (c2 x) (c2 y) |}.
Definition sub (x y : Fp12) : Fp12 :=
  {| c0 := fe_sub (c0 x) (c0 y); c1 := fe_sub (c1 x) (c1 y); c2 := fe_sub (c2 x) (c2 y) |}.
Definition neg (x : Fp12) : Fp12 :=
  {| c0 := fe_neg (c0 x); c1 := fe_neg (c1 x); c2 := fe_neg (c2 x) |}.

Definition mul (x y : Fp12) : Fp12 :=
  let ad := fe_mul (c0 x) (c0 y) in
  let ae := fe_mul (c0 x) (c1 y) in
  let af := fe_mul (c0 x) (c2 y) in
  let bd := fe_mul (c1 x) (c0 y) in
  let be := fe_mul (c1 x) (c1 y) in
  let bf := fe_mul (c1 x) (c2 y) in
  let cd := fe_mul (c2 x) (c0 y) in
  let ce := fe_mul (c2 x) (c1 y) in
  let cf := fe_mul (c2 x) (c2 y) in
  {| c0 := fe_add ad (mul_v (fe_add bf ce));
     c1 := fe_add (fe_add ae bd) (mul_v cf);
     c2 := fe_add (fe_add af be) cd |}.

Definition square (x : Fp12) : Fp12 :=
  let s0 := fe_square (c0 x) in
  let s1 := fe_square (c1 x) in
  let s2 := fe_square (c2 x) in
  let t0 := fe_mul (c0 x) (c1 x) in
  let t1 := fe_mul (c0 x) (c2 x) in
  let t2 := fe_mul (c1 x) (c2 x) in
  {| c0 := fe_add s0 (fe_add (mul_v t2) (mul_v t2));
     c1 := fe_add (fe_add t0 t0) (mul_v s2);
     c2 := fe_add s1 (fe_add t1 t1) |}.

(** The cofactors [A], [B], [C] and the norm [D] of [inv]. *)
Definition a_val (x : Fp12) : Fp4 := fe_sub (fe_square (c0 x)) (mul_v (fe_mul (c1 x) (c2 x))).
Definition b_val (x : Fp12) : Fp4 := fe_sub (mul_v (fe_square (c2 x))) (fe_mul (c0 x) (c1 x)).
Definition c_val (x : Fp12) : Fp4 := fe_sub (fe_square (c1 x)) (fe_mul (c0 x) (c2 x)).
Definition norm12 (x : Fp12) : Fp4 :=
  let a3 := fe_mul (fe_square (c0 x)) (c0 x) in
  let b3_v := mul_v (fe_mul (fe_square (c1 x)) (c1 x)) in
  let c3_v2 := mul_v (mul_v (fe_mul (fe_square (c2 x)) (c2 x))) in
  let abc_v := mul_v (fe_mul (fe_mul (c0 x) (c1 x)) (c2 x)) in
  fe_sub (fe_sub (fe_add (fe_add a3 b3_v) c3_v2) (fe_double abc_v)) abc_v.

Definition inv (x : Fp12) : option Fp12 :=
  match fe_inv (norm12 x) with
  | Some d_inv => Some {| c0 := fe_mul (a_val x) d_inv; c1 := fe_mul (b_val x) d_inv;
                          c2 := fe_mul (c_val x) d_inv |}
  | None => None
  end.

Definition double (x : Fp12) : Fp12 := add x x.
Definition is_zero (x : Fp12) : bool := fe_is_zero (c0 x) && fe_is_zero (c1 x) && fe_is_zero (c2 x).
Definition is_one (x : Fp12) : bool := fe_is_one (c0 x) && fe_is_zero (c1 x) && fe_is_zero (c2 x).

Definition cyclotomic_square (x : Fp12) : Fp12 := square x.
Definition pow (x : Fp12) (exp : Z256) : Fp12 := pow_loop mul square pow_fuel ONE x exp.

Definition to_bytes (x : Fp12) : bytes :=
  Fp4.to_bytes (c0 x) ++ Fp4.to_bytes (c1 x) ++ Fp4.to_bytes (c2 x).

Definition fp4_bytes_gmssl (x : Fp4) : bytes :=
  Fp.to_bytes (Fp2.c1 (Fp4.c1 x)) ++ Fp.to_bytes (Fp2.c0 (Fp4.c1 x)) ++
  Fp.to_bytes (Fp2.c1 (Fp4.c0 x)) ++ Fp.to_bytes (Fp2.c0 (Fp4.c0 x)).
Definition to_bytes_gmssl (x : Fp12) : bytes :=
  fp4_bytes_gmssl (c2 x) ++ fp4_bytes_gmssl (c1 x) ++ fp4_bytes_gmssl (c0 x).

Definition fp12_eq (x y : Fp12) : bool :=
  fp4_eq (c0 x) (c0 y) && fp4_eq (c1 x) (c1 y) && fp4_eq (c2 x) (c2 y).
Definition fp12_conditional_select (a b : Fp12) (choice : bool) : Fp12 :=
  {| c0 := fp4_conditional_select (c0 a) (c0 b) choice;
     c1 := fp4_conditional_select (c1 a) (c1 b) choice;
     c2 := fp4_conditional_select (c2 a) (c2 b) choice |}.

#[export] Instance FieldElement_Fp12 : FieldElement Fp12 := {|
  fe_ZERO := ZERO; fe_ONE := ONE; fe_add := add; fe_sub := sub; fe_mul := mul; fe_neg := neg;
  fe_square := square; fe_inv := inv; fe_double := double; fe_is_zero := is_zero; fe_is_one := is_one
|}.

Lemma fe_inv_fp12 (x : Fp12) : fe_inv x = inv x.
Proof. cbn [fe_inv FieldElement_Fp12]. reflexivity. Qed.

Lemma inv12_some x y :
  fe_inv x = Some y -> exists k, fe_inv (norm12 x) = Some k /\
    y = {| c0 := fe_mul (a_val x) k; c1 := fe_mul (b_val x) k; c2 := fe_mul (c_val x) k |}.
Proof.
  rewrite fe_inv_fp12. unfold inv. destruct (fe_inv (norm12 x)) as [k|]; intros I; [|discriminate].
  exists k. split; [reflexivity|]. symmetry. exact (some_inj _ _ I).
Qed.

(** ** Evaluation *)

Section Rep.
Context (E : CRing) (RF : FieldRep Fp E) (u v w : E).
Hypothesis u2 : rmul u u = ropp (radd r1 r1).
Hypothesis v2 : rmul v v = u.
Hypothesis w3 : rmul (rmul w w) w = v.

Add Ring Ering : (rth E).

#[local] Instance R4 : FieldRep Fp4 E := FieldRep_Fp4 E RF u v u2 v2.

Lemma ok_mul_v x : rep_ok x = true -> rep_ok (mul_v x) = true.
Proof. intros H. exact (proj1 (ev4_mul_v E RF u v u2 v2 x H)). Qed.
Lemma rep_mul_v x : rep_ok x = true -> rep (mul_v x) = rmul (rep x) v.
Proof. intros H. exact (proj2 (ev4_mul_v E RF u v u2 v2 x H)). Qed.
#[local] Hint Resolve ok_mul_v : rep.

Definition fp12_ok (x : Fp12) : bool := rep_ok (c0 x) && rep_ok (c1 x) && rep_ok (c2 x).
Definition ev12 (x : Fp12) : E :=
  radd (radd (rep (c0 x)) (rmul (rep (c1 x)) w)) (rmul (rep (c2 x)) (rmul w w)).

Lemma fp12_ok_iff x :
  fp12_ok x = true <-> rep_ok (c0 x) = true /\ rep_ok (c1 x) = true /\ rep_ok (c2 x) = true.
Proof. unfold fp12_ok. rewrite !andb_true_iff. tauto. Qed.

Ltac push4 := repeat first [progress rep_push | rewrite rep_mul_v by auto 20 with rep].
Ltac ev12_solve :=
  intros; repeat match goal with H : fp12_ok _ = true |- _ => apply fp12_ok_iff in H as (? & ? & ?) end;
  first [ apply fp12_ok_iff; cbn [c0 c1 c2]; repeat split; auto 20 with rep
        | unfold ev12; cbn [c0 c1 c2]; push4; ring [u2 v2 w3] ].

Lemma ev12_zero : fp12_ok ZERO = true /\ ev12 ZERO = r0.
Proof. unfold ZERO. split; ev12_solve. Qed.
Lemma ev12_one : fp12_ok ONE = true /\ ev12 ONE = r1.
Proof. unfold ONE. split; ev12_solve. Qed.
Lemma ev12_add x y :
  fp12_ok x = true -> fp12_ok y = true -> fp12_ok (add x y) = true /\ ev12 (add x y) = radd (ev12 x) (ev12 y).
Proof. unfold add. split; ev12_solve. Qed.
Lemma ev12_sub x y :
  fp12_ok x = true -> fp12_ok y = true -> fp12_ok (sub x y) = true /\ ev12 (sub x y) = rsub (ev12 x) (ev12 y).
Proof. unfold sub. split; ev12_solve. Qed.
Lemma ev12_neg x : fp12_ok x = true -> fp12_ok (neg x) = true /\ ev12 (neg x) = ropp (ev12 x).
Proof. unfold neg. split; ev12_solve. Qed.
Lemma ev12_mul x y :
  fp12_ok x = true -> fp12_ok y = true -> fp12_ok (mul x y) = true /\ ev12 (mul x y) = rmul (ev12 x) (ev12 y).
Proof. unfold mul; cbv zeta. split; ev12_solve. Qed.
Lemma ev12_square x :
  fp12_ok x = true -> fp12_ok (square x) = true /\ ev12 (square x) = rmul (ev12 x) (ev12 x).
Proof. unfold square; cbv zeta. split; ev12_solve. Qed.
Lemma ev12_double x :
  fp12_ok x = true -> fp12_ok (double x) = true /\ ev12 (double x) = radd (ev12 x) (ev12 x).
Proof. unfold double. intros. now apply ev12_add. Qed.

Lemma norm12_rep x :
  fp12_ok x = true ->
  let a := rep (c0 x) in let b := rep (c1 x) in let c := rep (c2 x) in
  (rep_ok (a_val x) = true /\ rep (a_val x) = rsub (rmul a a) (rmul (rmul b c) v)) /\
  (rep_ok (b_val x) = true /\ rep (b_val x) = rsub (rmul (rmul c c) v) (rmul a b)) /\
  (rep_ok (c_val x) = true /\ rep (c_val x) = rsub (rmul b b) (rmul a c)) /\
  rep_ok (norm12 x) = true /\
  rep (norm12 x) =
    radd (rmul a (rep (a_val x))) (rmul v (radd (rmul b (rep (c_val x))) (rmul c (rep (b_val x))))).
Proof.
  intros (? & ? & ?)%fp12_ok_iff. cbv zeta. unfold a_val, b_val, c_val, norm12.
  repeat split; try (auto 20 with rep); push4; ring.
Qed.

Lemma ev12_inv x y :
  fp12_ok x = true -> fe_inv x = Some y -> fp12_ok y = true /\ rmul (ev12 x) (ev12 y) = r1.
Proof.
  intros Hx I. apply inv12_some in I as (k & Ek & ->).
  destruct (norm12_rep x Hx) as ([Oa Ea] & [Ob Eb] & [Oc Ec] & On & En).
  pose proof (ok_inv _ _ On Ek) as Ok. pose proof (rep_inv _ _ On Ek) as R1. rewrite En in R1.
  split.
  - apply fp12_ok_iff; cbn [c0 c1 c2]; auto with rep.
  - unfold ev12; cbn [c0 c1 c2]. rewrite !rep_mul by assumption.
    rewrite <- R1, Ea, Eb, Ec. ring [w3].
Qed.

Lemma ev12_pow x e :
  fp12_ok x = true -> wf_limbs 4 e ->
  fp12_ok (pow x e) = true /\ ev12 (pow x e) = rpow (ev12 x) (Z.to_nat (eval e)).
Proof.
  intros Hx We. pose proof (wf256_eval_bound e We) as [_ B].
  destruct (pow_loop_spec mul square (fun y => fp12_ok y = true) ev12 (@rmul E) r1) with
    (fuel := pow_fuel) (result := ONE) (base := x) (e := e) as [G V];
    [intros; ring|intros; ring|intros; now apply ev12_mul|intros; now apply ev12_square|
     assumption|exact B|apply ev12_one|assumption|].
  split; [exact G|]. unfold pow. rewrite V, (proj2 ev12_one). unfold rpow. ring.
Qed.
End Rep.

(** ** Polynomial form *)

(** The coefficients of [1, w, ..., w^11]. *)
Definition coeffs (x : Fp12) : list Fp :=
  [Fp2.c0 (Fp4.c0 (c0 x)); Fp2.c0 (Fp4.c0 (c1 x)); Fp2.c0 (Fp4.c0 (c2 x));
   Fp2.c0 (Fp4.c1 (c0 x)); Fp2.c0 (Fp4.c1 (c1 x)); Fp2.c0 (Fp4.c1 (c2 x));
   Fp2.c1 (Fp4.c0 (c0 x)); Fp2.c1 (Fp4.c0 (c1 x)); Fp2.c1 (Fp4.c0 (c2 x));
   Fp2.c1 (Fp4.c1 (c0 x)); Fp2.c1 (Fp4.c1 (c1 x)); Fp2.c1 (Fp4.c1 (c2 x))].

(** Horner evaluation at [w]. *)
Definition poly_ev {E : CRing} (f : from_ZP E) (w : E) (x : Fp12) : E :=
  fold_right (fun a acc => radd (f (val a)) (rmul w acc)) r0 (coeffs x).

Definition fp12_canonical (x : Fp12) : bool :=
  fp4_canonical (c0 x) && fp4_canonical (c1 x) && fp4_canonical (c2 x).

Section Poly.
Context (E : CRing) (f : from_ZP E) (w : E).
Hypothesis w12 : rpow w 12 = ropp (radd r1 r1).
Add Ring Ering12 : (rth E).

Let v := rmul (rmul w w) w.
Let u := rmul v v.

Lemma poly_u2 : rmul u u = ropp (radd r1 r1).
Proof. rewrite <- w12. unfold u, v. cbn [rpow mpow Nat.iter nat_rect]. unfold rpow, mpow, Nat.iter, nat_rect. ring. Qed.

Lemma poly_ev_ev12 x :
  poly_ev f w x = ev12 E (FieldRep_Fp E f) u v w poly_u2 eq_refl x.
Proof.
  unfold poly_ev, coeffs, fold_right, ev12.
  change (@rep _ _ _ (R4 E (FieldRep_Fp E f) u v poly_u2 eq_refl)) with
    (fun y => radd (ev2 E (FieldRep_Fp E f) u (Fp4.c0 y)) (rmul (ev2 E (FieldRep_Fp E f) u (Fp4.c1 y)) v)).
  cbv beta.
  change (ev2 E (FieldRep_Fp E f) u) with (fun y => radd (f (val (Fp2.c0 y))) (rmul (f (val (Fp2.c1 y))) u)).
  cbv beta. unfold u, v. ring.
Qed.

Lemma fp12_ok_canonical : fp12_ok E (FieldRep_Fp E f) u v poly_u2 eq_refl = fp12_canonical.
Proof. reflexivity. Qed.
End Poly.

(** ** The norm vanishes only at zero *)

(** [2^((p-1)/3)] is not 1: with [(-2)^((p-1)/12)] in Montgomery form as
    [alpha1], its fourth power is not the unit. *)
Definition twelfth : Z := (p - 1) / 12.
Definition alpha1_raw : Z := powmod p (-2) twelfth.

Lemma twelfth_spec : 0 <= twelfth /\ 12 * twelfth = p - 1.
Proof. split; vm_compute; congruence. Qed.

Lemma alpha1_certificate : (eval alpha1 * eval R_INV) mod p = alpha1_raw.
Proof. vm_cast_no_check (eq_refl alpha1_raw). Qed.

Lemma alpha1_value : Zmod.to_Z (val alpha1) = (-2) ^ twelfth mod p.
Proof.
  rewrite val_to_Z, alpha1_certificate. unfold alpha1_raw. pose proof p_gt_1.
  apply powmod_spec; [lia|apply twelfth_spec].
Qed.

Lemma alpha1_of_Z : val alpha1 = Zmod.of_Z p ((-2) ^ twelfth).
Proof.
  apply Zmod.to_Z_inj. rewrite alpha1_value. generalize ((-2) ^ twelfth). intros z.
  symmetry. apply Zmod.to_Z_of_Z.
Qed.

Lemma alpha1_ok : fp_ok alpha1 = true.
Proof. reflexivity. Qed.

(** The relations between the constants, by evaluation. *)
Lemma alpha_powers :
  Fp.mul alpha1 alpha1 = alpha2 /\ Fp.mul alpha2 alpha1 = alpha3 /\ Fp.mul alpha3 alpha1 = alpha4 /\
  Fp.mul alpha4 alpha1 = alpha5 /\ Fp.mul alpha3 alpha3 = Fp.neg Fp.ONE /\ z256_eq alpha4 Fp.ONE = false.
Proof.
  split; [vm_cast_no_check (eq_refl alpha2)|]. split; [vm_cast_no_check (eq_refl alpha3)|].
  split; [vm_cast_no_check (eq_refl alpha4)|]. split; [vm_cast_no_check (eq_refl alpha5)|].
  split; [vm_cast_no_check (eq_refl (Fp.neg Fp.ONE))|reflexivity].
Qed.

Lemma val_mul x y : fp_ok x = true -> fp_ok y = true -> val (Fp.mul x y) = Zmod.mul (val x) (val y).
Proof. intros. now apply fp_mul_spec. Qed.

Lemma alpha_vals :
  val alpha2 = Zmod.mul (val alpha1) (val alpha1) /\
  val alpha3 = Zmod.mul (val alpha2) (val alpha1) /\
  val alpha4 = Zmod.mul (val alpha3) (val alpha1) /\
  val alpha5 = Zmod.mul (val alpha4) (val alpha1) /\
  Zmod.mul (val alpha3) (val alpha3) = Zmod.opp Zmod.one /\ val alpha4 <> Zmod.one.
Proof.
  destruct alpha_powers as (E2' & E3 & E4' & E5 & E6 & N).
  assert (O : fp_ok alpha1 = true /\ fp_ok alpha2 = true /\ fp_ok alpha3 = true /\ fp_ok alpha4 = true)
    by (repeat split; reflexivity).
  destruct O as (O1 & O2 & O3 & O4). destruct fp_one_spec as [OO VO].
  split; [now rewrite <- E2', val_mul|]. split; [now rewrite <- E3, val_mul|].
  split; [now rewrite <- E4', val_mul|]. split; [now rewrite <- E5, val_mul|].
  split; [rewrite <- val_mul, E6, (proj2 (fp_neg_spec _ OO)), VO by assumption; reflexivity|].
  rewrite <- VO. intros E. apply val_inj in E; [|assumption..]. rewrite E in N.
  vm_compute in N. discriminate.
Qed.

Lemma pow_minus_two k : 0 <= k -> (-2) ^ k * (-2) ^ k * (-2) ^ k * (-2) ^ k = 2 ^ (4 * k).
Proof.
  intros Hk. replace (4 * k) with (k + k + k + k) by lia. rewrite !Z.pow_add_r by lia.
  assert (Sq : (-2) ^ k * (-2) ^ k = 2 ^ k * 2 ^ k) by (rewrite <- !Z.pow_mul_l; reflexivity).
  rewrite <- (Z.mul_assoc ((-2) ^ k * (-2) ^ k)), Sq. lia.
Qed.

(** 2 is not a cube modulo [p]. *)
Lemma two_not_cube (t : ZP) : Zmod.mul t (Zmod.mul t t) <> Zmod.of_Z p 2.
Proof.
  intros E. pose proof p_gt_1. destruct twelfth_spec as [T0 T12].
  set (z := Zmod.to_Z t). apply (f_equal Zmod.to_Z) in E.
  rewrite !Zmod.to_Z_mul, Zmod.to_Z_of_Z, Z.mul_mod_idemp_r in E by lia. fold z in E.
  assert (C : 2 ^ (4 * twelfth) mod p = 1).
  { rewrite <- Z.mod_pow_l, <- E, Z.mod_pow_l.
    replace (z * (z * z)) with (z ^ 3) by ring. rewrite <- Z.pow_mul_r by lia.
    replace (3 * (4 * twelfth)) with (p - 1) by lia.
    apply Z.fermat_nz; [apply p_prime|]. intros Z0.
    rewrite <- Z.mul_mod_idemp_l, Z0, Z.mul_0_l, Z.mod_0_l in E by lia.
    assert (2 < p) by (rewrite p_value; lia). rewrite Z.mod_small in E by lia. clear - E. discriminate. }
  destruct alpha_vals as (V2 & V3 & V4 & _ & _ & N4). apply N4.
  apply Zmod.to_Z_inj. rewrite V4, V3, V2, !Zmod.to_Z_mul, alpha1_value.
  rewrite Zmod.to_Z_1_pos by lia.
  rewrite <- (pow_minus_two twelfth T0) in C. set (a := (-2) ^ twelfth) in *. clearbody a.
  clear - C H. rewrite <- (Z.mul_mod a a), <- (Z.mul_mod (a * a) a), <- (Z.mul_mod (a * a * a) a) by lia.
  exact C.
Qed.

(** *** The norm from the reference [Fp4] down to [Fp] *)

Definition n2 (a : E2) : ZP := norm2 (fst a) (snd a).
Definition n42 (x : E4) : E2 := rsub (rmul (fst x) (fst x)) (rmul (rmul (snd x) (snd x)) gen_u).
Definition n4 (x : E4) : ZP := n2 (n42 x).

Section Norms.
Add Ring ZPring12 : (Zmod.ring_theory p).
Add Ring E2ring12 : (rth E2).
Add Ring E4ring12 : (rth E4).

Lemma n2_mul (a b : E2) : n2 (rmul a b) = Zmod.mul (n2 a) (n2 b).
Proof.
  destruct a as [a0 a1], b as [b0 b1].
  change (norm2 (Zmod.add (Zmod.mul a0 b0) (Zmod.mul (Zmod.opp (Zmod.add Zmod.one Zmod.one)) (Zmod.mul a1 b1)))
                (Zmod.add (Zmod.mul a0 b1) (Zmod.mul a1 b0)) = Zmod.mul (norm2 a0 a1) (norm2 b0 b1)).
  unfold norm2. ring.
Qed.

Lemma n42_mul (x y : E4) : n42 (rmul x y) = rmul (n42 x) (n42 y).
Proof.
  destruct x as [x0 x1], y as [y0 y1]. unfold n42.
  change (fst (rmul ((x0, x1) : E4) (y0, y1))) with (radd (rmul x0 y0) (rmul gen_u (rmul x1 y1))).
  change (snd (rmul ((x0, x1) : E4) (y0, y1))) with (radd (rmul x0 y1) (rmul x1 y0)).
  cbn [fst snd]. ring.
Qed.

Lemma n4_mul (x y : E4) : n4 (rmul x y) = Zmod.mul (n4 x) (n4 y).
Proof. unfold n4. now rewrite n42_mul, n2_mul. Qed.

Lemma n4_zero (x : E4) : n4 x = Zmod.zero -> x = r0.
Proof.
  unfold n4, n2. intros N. apply norm2_zero in N as [N0 N1].
  assert (Z0 : r0 = n42 x) by (rewrite (surjective_pairing (n42 x)), N0, N1; reflexivity).
  unfold n42 in Z0. apply norm4_pair_zero in Z0 as (A0 & A1 & B0 & B1).
  destruct x as [[x0 x1] [y0 y1]]. cbn [fst snd] in *. now subst.
Qed.

Lemma n4_of_zero : n4 r0 = Zmod.zero.
Proof. apply Zmod.to_Z_inj. vm_compute. reflexivity. Qed.
Lemma n4_gen_v : n4 gen_v = Zmod.of_Z p 2.
Proof. apply Zmod.to_Z_inj. vm_compute. reflexivity. Qed.

Lemma n4_square_zero (x : E4) : rmul x x = r0 -> x = r0.
Proof.
  intros S. apply n4_zero. apply (f_equal n4) in S. rewrite n4_mul, n4_of_zero in S.
  apply (Zmod.mul_0_iff_prime p_prime) in S. tauto.
Qed.

(** [b^3 = c^3 v] forces [c = 0]: 2 is not a cube. *)
Lemma cube_form (b c : E4) :
  rmul b (rmul b b) = rmul (rmul c (rmul c c)) gen_v -> c = r0.
Proof.
  intros S. apply n4_zero. apply (f_equal n4) in S. rewrite !n4_mul, n4_gen_v in S.
  set (y := n4 b) in *. set (z := n4 c) in *.
  destruct (Zmod.eqb_spec z Zmod.zero) as [|NZ]; [assumption|exfalso].
  apply (two_not_cube (Zmod.mul y (Zmod.inv z))).
  pose proof (Zmod.mul_inv_same_l_prime z p_prime NZ) as I.
  set (i := Zmod.inv z) in *.
  transitivity (Zmod.mul (Zmod.mul y (Zmod.mul y y)) (Zmod.mul i (Zmod.mul i i))); [ring|]. rewrite S.
  transitivity (Zmod.mul (Zmod.mul (Zmod.mul i z) (Zmod.mul (Zmod.mul i z) (Zmod.mul i z))) (Zmod.of_Z p 2)); [ring|].
  rewrite I. ring.
Qed.

Lemma E4_sub_0 (x y : E4) : rsub x y = r0 -> x = y.
Proof. intros H. transitivity (radd (rsub x y) y); [ring|]. rewrite H. ring. Qed.

Lemma adj_zero (a b c : E4) :
  rsub (rmul a a) (rmul (rmul b c) gen_v) = r0 -> rsub (rmul (rmul c c) gen_v) (rmul a b) = r0 ->
  rsub (rmul b b) (rmul a c) = r0 -> a = r0 /\ b = r0 /\ c = r0.
Proof.
  intros A B C. apply E4_sub_0 in A, B, C.
  assert (c = r0) as ->.
  { apply (cube_form b c). rewrite C.
    transitivity (rmul c (rmul a b)); [ring|]. rewrite <- B. ring. }
  assert (b = r0) as -> by (apply n4_square_zero; rewrite C; ring).
  assert (a = r0) as -> by (apply n4_square_zero; rewrite A; ring). auto.
Qed.

(** The cubic norm form over the reference [Fp4] has only the trivial zero. *)
Lemma cubic_norm_zero (a b c : E4) :
  let A := rsub (rmul a a) (rmul (rmul b c) gen_v) in
  let B := rsub (rmul (rmul c c) gen_v) (rmul a b) in
  let C := rsub (rmul b b) (rmul a c) in
  radd (rmul a A) (rmul gen_v (radd (rmul b C) (rmul c B))) = r0 -> a = r0 /\ b = r0 /\ c = r0.
Proof.
  cbv zeta. intros D.
  match type of D with ?d = _ => set (n := d) in * end.
  apply adj_zero; apply (adj_zero
    (rsub (rmul a a) (rmul (rmul b c) gen_v)) (rsub (rmul (rmul c c) gen_v) (rmul a b)) (rsub (rmul b b) (rmul a c)));
    [transitivity (rmul n a)|transitivity (rmul n b)|transitivity (rmul n c)
    |transitivity (rmul n a)|transitivity (rmul n b)|transitivity (rmul n c)
    |transitivity (rmul n a)|transitivity (rmul n b)|transitivity (rmul n c)];
    first [unfold n; ring | rewrite D; ring].
Qed.
End Norms.

Lemma R4_rep4 : R4 E4 (FieldRep_Fp E4 phi4) (in_E4 gen_u) gen_v gen_u4_spec gen_v_spec = rep4.
Proof. reflexivity. Qed.

Lemma fp4_zero_of_pair (x : Fp4) : fp4_canonical x = true -> pair4 x = r0 -> fe_is_zero x = true.
Proof.
  intros [O0 O1]%andb_true_iff E.
  pose proof (f_equal fst E) as Ea. pose proof (f_equal snd E) as Eb. unfold pair4 in Ea, Eb. cbn [fst snd] in Ea, Eb.
  cbn [fe_is_zero FieldElement_Fp4]. unfold Fp4.is_zero. apply andb_true_iff. unfold pair2 in *.
  split; (apply fp2_zero_of_vals; [assumption| |]); [now apply (f_equal fst) in Ea|now apply (f_equal snd) in Ea
    |now apply (f_equal fst) in Eb|now apply (f_equal snd) in Eb].
Qed.

Lemma inv12_none x : fp12_canonical x = true -> fe_inv x = None -> is_zero x = true.
Proof.
  intros Ok. rewrite fe_inv_fp12. unfold inv.
  assert (Ok' : fp12_ok E4 (FieldRep_Fp E4 phi4) (in_E4 gen_u) gen_v gen_u4_spec gen_v_spec x = true).
  { unfold fp12_ok. rewrite R4_rep4, rep4_ok. exact Ok. }
  destruct (norm12_rep E4 _ _ _ gen_u4_spec gen_v_spec x Ok') as ([_ Ea] & [_ Eb] & [_ Ec] & On & En).
  rewrite R4_rep4 in *. rewrite rep4_ok in On.
  destruct (fe_inv (norm12 x)) as [k|] eqn:E; [discriminate|]. intros _.
  apply (inv4_none _ On) in E. rewrite Ea, Eb, Ec in En.
  assert (Z0 : @rep _ _ _ rep4 (norm12 x) = r0) 
    by (apply (@rep_is_zero _ _ _ rep4); [rewrite rep4_ok; exact On|exact E]).
  rewrite Z0, !rep4_pair in En. symmetry in En. apply cubic_norm_zero in En as (A0 & B0 & C0).
  apply andb_true_iff in Ok as [Ok O2]. apply andb_true_iff in Ok as [O0 O1].
  unfold is_zero. rewrite !andb_true_iff. split; [split|]; now apply fp4_zero_of_pair.
Qed.

(** ** Frobenius maps *)

Section Frobenius.
Context (E : CRing) (f : from_ZP E).
Add Ring EringF : (rth E).
#[local] Instance RF : FieldRep Fp E := FieldRep_Fp E f.

Definition a1 : E := f (val alpha1).

Lemma alpha_reps :
  rep alpha1 = a1 /\ rep alpha2 = rmul a1 a1 /\ rep alpha3 = rmul (rmul a1 a1) a1 /\
  rep alpha4 = rmul (rmul (rmul a1 a1) a1) a1 /\ rep alpha5 = rmul (rmul (rmul (rmul a1 a1) a1) a1) a1 /\
  rmul (rmul (rmul (rmul (rmul a1 a1) a1) a1) a1) a1 = ropp r1.
Proof.
  destruct alpha_vals as (V2 & V3 & V4 & V5 & V6 & _).
  change (@rep _ _ _ RF) with (fun x => f (val x)). cbv beta. fold a1.
  rewrite V5, V4. rewrite V3 in V6 |- *. rewrite V2 in V6 |- *.
  rewrite !(phi_mul E f). fold a1.
  apply (f_equal f) in V6. rewrite !(phi_mul E f), phi_opp, (phi_1 E f) in V6. fold a1 in V6.
  repeat split. rewrite <- V6. ring.
Qed.

Lemma alphas_ok :
  rep_ok alpha1 = true /\ rep_ok alpha2 = true /\ rep_ok alpha3 = true /\ rep_ok alpha4 = true /\
  rep_ok alpha5 = true.
Proof. repeat split; reflexivity. Qed.

Lemma poly_ev_rep w x :
  poly_ev f w x = fold_right (fun a acc => radd (rep a) (rmul w acc)) r0 (coeffs x).
Proof. reflexivity. Qed.

(** Expose the twelve canonical coefficients of an element. *)
Ltac components x H :=
  destruct x as [[[? ?] [? ?]] [[? ?] [? ?]] [[? ?] [? ?]]];
  unfold fp12_canonical, fp4_canonical, fp2_canonical in H;
  cbn [c0 c1 c2 Fp4.c0 Fp4.c1 Fp2.c0 Fp2.c1] in H;
  change fp_ok with (@rep_ok _ _ _ RF) in H;
  rewrite !andb_true_iff in H; decompose [and] H; clear H.
Ltac frob_solve :=
  destruct alpha_reps as (A1 & A2 & A3 & A4 & A5 & A6);
  destruct alphas_ok as (O1 & O2 & O3 & O4 & O5);
  rewrite !poly_ev_rep; unfold coeffs, fold_right;
  cbn [c0 c1 c2 Fp4.c0 Fp4.c1 Fp2.c0 Fp2.c1 Fp4.new Fp2.new Fp2.mul_fp Fp2.frobenius Fp4.mul_fp
       Fp4.frobenius_sq conjugate frobenius3 beta fe_neg fe_mul FieldElement_Fp2 FieldElement_Fp4
       Fp2.neg Fp4.neg Fp2.mul];
  cbv zeta; rep_push; rewrite ?A1, ?A2, ?A3, ?A4, ?A5; ring [A6].

Lemma poly_ev_frobenius w x :
  fp12_canonical x = true -> poly_ev f w (frobenius x) = poly_ev f (rmul a1 w) x.
Proof. intros H. unfold frobenius. components x H. frob_solve. Qed.

Lemma poly_ev_frobenius_sq w x :
  fp12_canonical x = true -> poly_ev f w (frobenius_sq x) = poly_ev f (rmul a1 (rmul a1 w)) x.
Proof. intros H. unfold frobenius_sq. components x H. frob_solve. Qed.

Lemma poly_ev_frobenius_cu w x :
  fp12_canonical x = true -> poly_ev f w (frobenius_cu x) = poly_ev f (rmul a1 (rmul a1 (rmul a1 w))) x.
Proof.
  intros H. unfold frobenius_cu. components x H.
  change (fe_ZERO : Fp) with (@fe_ZERO Fp _) in *. unfold beta.
  change [0x39b4ef0f3ee72529; 0xdb043bf508582782; 0xb8554ab054ac91e3; 0x9848eec25498cab5] with alpha3.
  frob_solve.
Qed.

Lemma poly_ev_frobenius_six w x :
  fp12_canonical x = true -> poly_ev f w (frobenius_six x) = poly_ev f (ropp w) x.
Proof. intros H. unfold frobenius_six. components x H. frob_solve. Qed.

Lemma mpow_mul (x : E) n m : mpow (@rmul E) r1 x (n * m) = mpow (@rmul E) r1 (mpow (@rmul E) r1 x n) m.
Proof.
  induction m; [now rewrite Nat.mul_0_r|]. rewrite Nat.mul_succ_r, Nat.add_comm.
  rewrite (mpow_add _ r1) by (intros; ring). rewrite IHm. reflexivity.
Qed.

Lemma phi_pow z n : f (Zmod.of_Z p (z ^ Z.of_nat n)) = rpow (f (Zmod.of_Z p z)) n.
Proof.
  induction n.
  - change (z ^ Z.of_nat 0) with 1. exact (phi_1 E f).
  - rewrite Nat2Z.inj_succ, Z.pow_succ_r, Zmod.of_Z_mul, (phi_mul E f), IHn by lia. reflexivity.
Qed.

(** The [p]-power of [w] is [alpha1 * w]. *)
Lemma w_pow_p w :
  rpow w 12 = ropp (radd r1 r1) -> rpow w (Z.to_nat p) = rmul a1 w.
Proof.
  intros W. destruct twelfth_spec as [T0 T12]. pose proof p_gt_1.
  replace (Z.to_nat p) with (1 + 12 * Z.to_nat twelfth)%nat by lia.
  unfold rpow. rewrite (mpow_add _ r1) by (intros; ring). rewrite mpow_mul.
  change (mpow (@rmul E) r1 w 12) with (rpow w 12). rewrite W.
  assert (Two : ropp (radd (@r1 E) r1) = f (Zmod.of_Z p (-2))).
  { rewrite of_Z_minus_two, phi_opp, (phi_add E f), (phi_1 E f). reflexivity. }
  rewrite Two. change (mpow (@rmul E) r1 ?x ?n) with (rpow x n).
  rewrite <- phi_pow, Z2Nat.id by lia.
  rewrite <- alpha1_of_Z. fold a1. unfold rpow, mpow. cbn [Nat.iter nat_rect]. ring.
Qed.

Lemma a1_w_pow_12 w :
  rpow w 12 = ropp (radd r1 r1) -> rpow (rmul a1 w) 12 = ropp (radd r1 r1).
Proof.
  intros <-. destruct alpha_reps as (_ & _ & _ & _ & _ & A6).
  unfold rpow, mpow. cbn [Nat.iter nat_rect]. ring [A6].
Qed.

Lemma a1_six w : rmul a1 (rmul a1 (rmul a1 (rmul a1 (rmul a1 (rmul a1 w))))) = ropp w.
Proof. destruct alpha_reps as (_ & _ & _ & _ & _ & A6). ring [A6]. Qed.

(** [n] applications of the [p]-power map. *)
Definition pth_power (w : E) (n : nat) : E := Nat.iter n (fun w => rpow w (Z.to_nat p)) w.

Lemma pth_power_spec w n :
  rpow w 12 = ropp (radd r1 r1) ->
  pth_power w n = Nat.iter n (rmul a1) w /\ rpow (pth_power w n) 12 = ropp (radd r1 r1).
Proof.
  intros W. induction n as [|n [IH1 IH2]]; [auto|].
  change (pth_power w (S n)) with (rpow (pth_power w n) (Z.to_nat p)).
  rewrite w_pow_p by assumption. split; [now rewrite IH1|now apply a1_w_pow_12].
Qed.
End Frobenius.

(** ** The reference field of triples *)

Definition E12 : CRing := cubic E4 gen_v.
Definition in_E12 (a : E4) : E12 := (a, r0, r0).
Definition gen_w : E12 := (r0, r1, r0).

Section E12Lemmas.
Add Ring E4ringR : (rth E4).
Add Ring E12ringR : (rth E12).

Lemma in_E12_add a b : in_E12 (radd a b) = radd (in_E12 a) (in_E12 b).
Proof.
  change (in_E12 (radd a b) = (radd a b, radd (@r0 E4) r0, radd (@r0 E4) r0)).
  unfold in_E12. apply triple_eq; ring.
Qed.
Lemma in_E12_mul a b : in_E12 (rmul a b) = rmul (in_E12 a) (in_E12 b).
Proof.
  change (in_E12 (rmul a b) =
    (radd (rmul a b) (rmul gen_v (radd (rmul r0 r0) (rmul r0 r0))),
     radd (radd (rmul a r0) (rmul r0 b)) (rmul gen_v (rmul r0 r0)),
     radd (radd (rmul a r0) (rmul r0 r0)) (rmul (@r0 E4) b))).
  unfold in_E12. apply triple_eq; ring.
Qed.
Lemma in_E12_opp a : in_E12 (ropp a) = ropp (in_E12 a).
Proof. change (in_E12 (ropp a) = (ropp a, ropp (@r0 E4), ropp (@r0 E4))). unfold in_E12. apply triple_eq; ring. Qed.

Lemma gen_w3 : rmul (rmul gen_w gen_w) gen_w = in_E12 gen_v.
Proof.
  transitivity (rmul ((r0, r0, r1) : E12) gen_w).
  - apply (f_equal (fun t => rmul t gen_w)). change (
      (radd (rmul r0 r0) (rmul gen_v (radd (rmul r1 r0) (rmul r0 r1))),
       radd (radd (rmul r0 r1) (rmul r1 r0)) (rmul gen_v (rmul r0 r0)),
       radd (radd (rmul r0 r0) (rmul r1 r1)) (rmul (@r0 E4) r0)) = ((@r0 E4, @r0 E4, @r1 E4))).
    apply triple_eq; ring.
  - change (
      (radd (rmul r0 r0) (rmul gen_v (radd (rmul r0 r0) (rmul r1 r1))),
       radd (radd (rmul r0 r1) (rmul r0 r0)) (rmul gen_v (rmul r1 r0)),
       radd (radd (rmul r0 r0) (rmul r0 r1)) (rmul (@r1 E4) r0)) = in_E12 gen_v).
    unfold in_E12. apply triple_eq; ring.
Qed.

Lemma gen_w_spec : rpow gen_w 12 = ropp (radd r1 r1).
Proof.
  transitivity (let t := rmul (rmul gen_w gen_w) gen_w in rmul (rmul t t) (rmul t t)).
  - unfold rpow, mpow. cbn [Nat.iter nat_rect]. cbv zeta. ring.
  - cbv zeta. rewrite gen_w3, <- !in_E12_mul, gen_v_spec, gen_u4_spec, in_E12_opp, in_E12_add. reflexivity.
Qed.
End E12Lemmas.

Definition phi12 : from_ZP E12.
Proof.
  refine (Build_from_ZP E12 (fun k => in_E12 (phi4 k)) eq_refl eq_refl _ _).
  - intros x y. now rewrite (phi_add E4 phi4), in_E12_add.
  - intros x y. now rewrite (phi_mul E4 phi4), in_E12_mul.
Defined.

(** ** Properties *)

(** [Fp12] is the ring [Fp[w]/(w^12 + 2)]: for every commutative ring with a
    map from the integers modulo [p] and every element [w] of it with
    [w^12 = -2], evaluating the twelve coefficients at [w] carries the
    operations of [Fp12], squaring and exponentiation by a 256-bit scalar
    included, to those of the ring; results stay canonical. *)
Theorem fp12_evaluation (E : CRing) (f : from_ZP E) (w : E) (x y : Fp12) (e : Z256) :
  rpow w 12 = ropp (radd r1 r1) ->
  fp12_canonical x = true -> fp12_canonical y = true -> wf256 e = true ->
  (fp12_canonical (add x y) = true /\ poly_ev f w (add x y) = radd (poly_ev f w x) (poly_ev f w y)) /\
  (fp12_canonical (sub x y) = true /\ poly_ev f w (sub x y) = rsub (poly_ev f w x) (poly_ev f w y)) /\
  (fp12_canonical (neg x) = true /\ poly_ev f w (neg x) = ropp (poly_ev f w x)) /\
  (fp12_canonical (mul x y) = true /\ poly_ev f w (mul x y) = rmul (poly_ev f w x) (poly_ev f w y)) /\
  (fp12_canonical (square x) = true /\ poly_ev f w (square x) = rmul (poly_ev f w x) (poly_ev f w x)) /\
  (fp12_canonical (pow x e) = true /\ poly_ev f w (pow x e) = rpow (poly_ev f w x) (Z.to_nat (eval e))).
Proof.
  intros W. rewrite wf256_iff, <- (fp12_ok_canonical E f w W), !(poly_ev_ev12 E f w W). intros Hx Hy He.
  split; [now apply ev12_add|]. split; [now apply ev12_sub|]. split; [now apply ev12_neg|].
  split; [now apply ev12_mul|]. split; [now apply ev12_square|]. now apply ev12_pow.
Qed.

Definition sample12 : Fp12 := {| c0 := sample4; c1 := fe_ONE; c2 := elt_v |}.

Lemma fp12_evaluation_witness :
  poly_ev phi12 gen_w (mul sample12 sample12) =
    rmul (poly_ev phi12 gen_w sample12) (poly_ev phi12 gen_w sample12) /\
  poly_ev phi12 gen_w (pow sample12 [3; 0; 0; 0]) = rpow (poly_ev phi12 gen_w sample12) 3.
Proof.
  destruct (fp12_evaluation E12 phi12 gen_w sample12 sample12 [3; 0; 0; 0] gen_w_spec)
    as (_ & _ & _ & [_ M] & _ & [_ P3]); [vm_compute; reflexivity..|].
  split; [exact M|exact P3].
Defined.

(** [Fp12] is a field: [inv] returns, for every canonical element other than
    zero, a canonical inverse (at every evaluation [w^12 = -2]), and [None] only
    for zero. The cubic norm [D] of the code has no non-trivial zero because 2 is
    not a cube modulo [p]. *)
Theorem fp12_inverse (x : Fp12) :
  fp12_canonical x = true ->
  match fe_inv x with
  | Some z => fp12_canonical z = true /\
      forall (E : CRing) (f : from_ZP E) (w : E), rpow w 12 = ropp (radd r1 r1) ->
        rmul (poly_ev f w x) (poly_ev f w z) = r1
  | None => is_zero x = true
  end.
Proof.
  intros Hx. destruct (fe_inv x) as [z|] eqn:I; [|now apply inv12_none].
  assert (G : forall (E : CRing) (f : from_ZP E) (w : E), rpow w 12 = ropp (radd r1 r1) ->
    fp12_canonical z = true /\ rmul (poly_ev f w x) (poly_ev f w z) = r1).
  { intros E f w W. rewrite <- (fp12_ok_canonical E f w W) in *. rewrite !(poly_ev_ev12 E f w W).
    exact (ev12_inv _ _ _ _ _ _ _ eq_refl x z Hx I). }
  split; [exact (proj1 (G E12 phi12 gen_w gen_w_spec))|]. intros E f w W. exact (proj2 (G E f w W)).
Qed.

Lemma fp12_inverse_witness :
  exists z, fe_inv sample12 = Some z /\ fp12_canonical z = true /\
    rmul (poly_ev phi12 gen_w sample12) (poly_ev phi12 gen_w z) = r1.
Proof.
  pose proof (fp12_inverse sample12 ltac:(vm_compute; reflexivity)) as I.
  destruct (fe_inv sample12) as [z|].
  - exists z. destruct I as [C I]. split; [reflexivity|]. split; [exact C|]. exact (I E12 phi12 gen_w gen_w_spec).
  - vm_compute in I. discriminate.
Defined.

(** The Frobenius maps of [Fp12] are the powers [p], [p^2], [p^3] and [p^6]
    on the generator: evaluating the image at [w] is evaluating the element at
    [w^p] taken once, twice, three and six times (the coefficients lie in [Fp],
    which these powers fix). The Montgomery constants are therefore
    [(-2)^(k (p-1)/12)], and [w^(p^6) = -w]. *)
Theorem fp12_frobenius_powers (E : CRing) (f : from_ZP E) (w : E) (x : Fp12) :
  rpow w 12 = ropp (radd r1 r1) -> fp12_canonical x = true ->
  poly_ev f w (frobenius x) = poly_ev f (pth_power E w 1) x /\
  poly_ev f w (frobenius_sq x) = poly_ev f (pth_power E w 2) x /\
  poly_ev f w (frobenius_cu x) = poly_ev f (pth_power E w 3) x /\
  poly_ev f w (frobenius_six x) = poly_ev f (pth_power E w 6) x /\
  pth_power E w 6 = ropp w.
Proof.
  intros W Hx.
  rewrite (proj1 (pth_power_spec E f w 1 W)), (proj1 (pth_power_spec E f w 2 W)),
    (proj1 (pth_power_spec E f w 3 W)), (proj1 (pth_power_spec E f w 6 W)).
  cbn [Nat.iter nat_rect].
  assert (S6 : rmul (a1 E f) (rmul (a1 E f) (rmul (a1 E f) (rmul (a1 E f) (rmul (a1 E f) (rmul (a1 E f) w))))) = ropp w)
    by apply a1_six.
  rewrite S6.
  split; [now apply poly_ev_frobenius|]. split; [now apply poly_ev_frobenius_sq|].
  split; [now apply poly_ev_frobenius_cu|]. split; [now apply poly_ev_frobenius_six|reflexivity].
Qed.

Lemma fp12_frobenius_powers_witness :
  poly_ev phi12 gen_w (frobenius sample12) = poly_ev phi12 (pth_power E12 gen_w 1) sample12 /\
  poly_ev phi12 gen_w (frobenius_cu sample12) = poly_ev phi12 (pth_power E12 gen_w 3) sample12.
Proof.
  destruct (fp12_frobenius_powers E12 phi12 gen_w sample12 gen_w_spec) as (F1 & _ & F3 & _);
    [vm_compute; reflexivity|].
  split; [exact F1|exact F3].
Defined.

Definition elt_w : Fp12 := {| c0 := fe_ZERO; c1 := fe_ONE; c2 := fe_ZERO |}.

(** [mul_w] is not multiplication by [w], whichever of [c1] and [c2] is read
    as the coefficient of [w]: on the element [w] it returns [v] instead of
    [w * w], and on the other generator it leaves [c2] where it is. With the
    product of the code, [c1] is the coefficient of [w] (not of [w^2], as the
    documentation of the struct says). *)
Theorem fp12_mul_w_wrong :
  fp12_canonical elt_w = true /\
  mul_w elt_w <> mul elt_w elt_w /\
  mul elt_w elt_w = {| c0 := fe_ZERO; c1 := fe_ZERO; c2 := fe_ONE |} /\
  mul (mul elt_w elt_w) elt_w = {| c0 := elt_v; c1 := fe_ZERO; c2 := fe_ZERO |} /\
  mul_w {| c0 := fe_ZERO; c1 := fe_ZERO; c2 := fe_ONE |} = {| c0 := fe_ZERO; c1 := fe_ZERO; c2 := fe_ONE |}.
Proof.
  assert (M2 : mul elt_w elt_w = {| c0 := fe_ZERO; c1 := fe_ZERO; c2 := fe_ONE |})
    by (vm_compute; reflexivity).
  split; [vm_compute; reflexivity|]. split.
  - rewrite M2. intros E. apply (f_equal (fun x => Fp2.c0 (Fp4.c0 (c2 x)))) in E. vm_compute in E. discriminate.
  - split; [exact M2|]. split; vm_compute; reflexivity.
Qed.
