(* ===== verification/Curve.v ===== *)
(** The group law of the SM9 curves (gm-sm9-rs/src/pairing/curve/mod.rs).

    The specification is the chord-and-tangent law on affine points over a
    field. [CurveRep] states what the coordinate type of a curve promises: its
    operations implement the field, and equality, constant-time equality and
    selection are exact. The Jacobian formulas shared by both curves are related
    to the affine law here; [G1] and [G2] instantiate them. *)

From Stdlib Require Import Bool ZArith Lia List Zmod Field.
From S2P Require Import Prelude Z256 Primality Fp FieldRep Fp2.
Import ListNotations.
Open Scope Z_scope.

(** ** Traits of the module *)

Class Identity (A : Type) := { identity : A; is_identity : A -> bool }.
Class ScalarMul (A : Type) := { scalar_mul : A -> Z256 -> A }.

Definition curve_b : Fp := from_raw [5; 0; 0; 0].

Definition is_on_curve_g1 (x y : Fp) : bool :=
  let y2 := fe_square y in
  let x3 := fe_mul (fe_square x) x in
  let rhs := fe_add x3 curve_b in
  fp_eq y2 rhs.

Definition is_on_curve_g2 (x y : Fp2) : bool :=
  let y2 := fe_square y in
  let x3 := fe_mul (fe_square x) x in
  let b_u := Fp2.new fe_ZERO curve_b in
  let rhs := fe_add x3 b_u in
  fp2_eq y2 rhs.

(** ** The affine group law over a field *)

Record CField := {
  cring :> CRing;
  cdiv : cring -> cring -> cring;
  cinv : cring -> cring;
  cfield_theory : field_theory r0 r1 radd rmul rsub ropp cdiv cinv (@eq cring);
  ceq_dec : forall x y : cring, {x = y} + {x <> y};
  two_nonzero : radd r1 r1 <> (r0 : cring)
}.

Arguments cdiv {_} _ _.
Arguments cinv {_} _.

Inductive apoint (E : CField) := Inf | Aff (x y : E).
Arguments Inf {E}.
Arguments Aff {E} x y.

Section Law.
Context (E : CField).

Add Field Efield : (cfield_theory E).

Definition aff_double (P : apoint E) : apoint E :=
  match P with
  | Inf => Inf
  | Aff x y =>
      if ceq_dec E y r0 then Inf
      else
        let l := cdiv (rmul (radd (radd r1 r1) r1) (rmul x x)) (radd y y) in
        let x3 := rsub (rsub (rmul l l) x) x in
        Aff x3 (rsub (rmul l (rsub x x3)) y)
  end.

Definition aff_add (P Q : apoint E) : apoint E :=
  match P, Q with
  | Inf, _ => Q
  | _, Inf => P
  | Aff x1 y1, Aff x2 y2 =>
      if ceq_dec E x1 x2 then (if ceq_dec E y1 y2 then aff_double P else Inf)
      else
        let l := cdiv (rsub y2 y1) (rsub x2 x1) in
        let x3 := rsub (rsub (rmul l l) x1) x2 in
        Aff x3 (rsub (rmul l (rsub x1 x3)) y1)
  end.

Definition aff_neg (P : apoint E) : apoint E :=
  match P with Inf => Inf | Aff x y => Aff x (ropp y) end.

(** The multiple of a point by the binary method. *)
Fixpoint aff_mul_pos (k : positive) (P : apoint E) : apoint E :=
  match k with
  | xH => P
  | xO k => aff_double (aff_mul_pos k P)
  | xI k => aff_add (aff_double (aff_mul_pos k P)) P
  end.
Definition aff_mul (k : Z) (P : apoint E) : apoint E :=
  match k with Zpos k => aff_mul_pos k P | _ => Inf end.

Definition on_curve (b : E) (P : apoint E) : Prop :=
  match P with Inf => True | Aff x y => rmul y y = radd (rmul x (rmul x x)) b end.

(** The point that Jacobian coordinates stand for. *)
Definition jac (x y z : E) : apoint E :=
  if ceq_dec E z r0 then Inf
  else Aff (cdiv x (rmul z z)) (cdiv y (rmul z (rmul z z))).

(** ** Lemmas on the law *)

Lemma cf_mul_zero (a b : E) : rmul a b = r0 -> a = r0 \/ b = r0.
Proof.
  intros H. destruct (ceq_dec E a r0) as [|N]; [auto|right].
  transitivity (rmul (cinv a) (rmul a b)); [field; assumption|]. rewrite H. ring.
Qed.

Lemma cf_mul_nonzero (a b : E) : a <> r0 -> b <> r0 -> rmul a b <> r0.
Proof. intros A B H. apply cf_mul_zero in H as [H|H]; auto. Qed.

Lemma cf_double_nonzero (a : E) : a <> r0 -> radd a a <> r0.
Proof.
  intros A H. apply (cf_mul_nonzero (radd r1 r1) a); [apply two_nonzero|assumption|]. rewrite <- H. ring.
Qed.

Lemma cf_sub_nonzero (a b : E) : a <> b -> rsub a b <> r0.
Proof. intros N H. apply N. transitivity (radd (rsub a b) b); [ring|]. rewrite H. ring. Qed.

Lemma cf_div_eq (a b c d : E) : b <> r0 -> d <> r0 -> (cdiv a b = cdiv c d <-> rmul a d = rmul c b).
Proof.
  intros B D. split; intros H.
  - transitivity (rmul (rmul (cdiv a b) b) d); [field; assumption|]. rewrite H. field. assumption.
  - transitivity (cdiv (rmul a d) (rmul b d)); [field; auto|]. rewrite H. field. auto.
Qed.

Lemma aff_mul_succ_double (m : Z) (b : bool) P :
  0 <= m ->
  aff_mul (2 * m + Z.b2z b) P =
  (if b then aff_add (aff_double (aff_mul m P)) P else aff_double (aff_mul m P)).
Proof.
  intros Hm. destruct m as [|m|m]; [| |lia]; destruct b; reflexivity.
Qed.

#[local] Ltac nonzero := repeat split; auto using cf_mul_nonzero, cf_double_nonzero, cf_sub_nonzero, two_nonzero.

(** Jacobian doubling. *)
Lemma jac_double x y z :
  let x2 := rmul x x in let y2 := rmul y y in let y4 := rmul y2 y2 in
  let l1 := radd (radd x2 x2) x2 in
  let xy2 := rmul x y2 in
  let l2 := radd (radd xy2 xy2) (radd xy2 xy2) in
  let y4_4 := radd (radd y4 y4) (radd y4 y4) in
  let l3 := radd y4_4 y4_4 in
  let x' := rsub (rmul l1 l1) (radd l2 l2) in
  let y' := rsub (rmul l1 (rsub l2 x')) l3 in
  let z' := radd (rmul y z) (rmul y z) in
  jac x' y' z' = aff_double (jac x y z).
Proof.
  cbv zeta. unfold jac at 2. destruct (ceq_dec E z r0) as [-> |Z0].
  { unfold jac. destruct (ceq_dec E _ r0) as [|N]; [reflexivity|]. exfalso. apply N. ring. }
  cbn [aff_double]. destruct (ceq_dec E y r0) as [-> |Y0].
  { unfold jac. destruct (ceq_dec E _ r0) as [|N]; [|exfalso; apply N; ring].
    destruct (ceq_dec E _ r0) as [|N]; [reflexivity|]. exfalso. apply N. field. assumption. }
  unfold jac. destruct (ceq_dec E (radd (rmul y z) (rmul y z)) r0) as [H|_].
  { exfalso. refine (cf_double_nonzero (rmul y z) _ H). nonzero. }
  destruct (ceq_dec E (cdiv y (rmul z (rmul z z))) r0) as [H|_].
  { exfalso. apply Y0. transitivity (rmul (cdiv y (rmul z (rmul z z))) (rmul z (rmul z z))); [field; nonzero|].
    rewrite H. ring. }
  f_equal; field; nonzero.
Qed.

Lemma jac_one x y z : z = r1 -> jac x y z = Aff x y.
Proof.
  intros ->. unfold jac. destruct (ceq_dec E r1 r0) as [H|N].
  - exfalso. apply (two_nonzero E). rewrite H. ring.
  - f_equal; field; assumption.
Qed.

(** Jacobian addition: when the cross-multiplied coordinates agree. *)
Section Addition.
Context (x1 y1 z1 x2 y2 z2 : E).
Hypothesis Z1 : z1 <> r0.
Hypothesis Z2 : z2 <> r0.
Let u1 := rmul x1 (rmul z2 z2).
Let u2 := rmul x2 (rmul z1 z1).
Let s1 := rmul y1 (rmul (rmul z2 z2) z2).
Let s2 := rmul y2 (rmul (rmul z1 z1) z1).

Lemma jac_nonzero x y z : z <> r0 -> jac x y z = Aff (cdiv x (rmul z z)) (cdiv y (rmul z (rmul z z))).
Proof. intros N. unfold jac. destruct (ceq_dec E z r0); [contradiction|reflexivity]. Qed.

Lemma cross_x : cdiv x1 (rmul z1 z1) = cdiv x2 (rmul z2 z2) <-> u1 = u2.
Proof. unfold u1, u2. apply cf_div_eq; nonzero. Qed.

Lemma cross_y : cdiv y1 (rmul z1 (rmul z1 z1)) = cdiv y2 (rmul z2 (rmul z2 z2)) <-> s1 = s2.
Proof.
  unfold s1, s2. rewrite cf_div_eq by nonzero.
  split; intros H; [transitivity (rmul y1 (rmul z2 (rmul z2 z2)))|transitivity (rmul y1 (rmul (rmul z2 z2) z2))];
    try ring; rewrite H; ring.
Qed.

Lemma jac_add_same : u1 = u2 -> s1 = s2 -> aff_add (jac x1 y1 z1) (jac x2 y2 z2) = aff_double (jac x1 y1 z1).
Proof.
  intros U S. apply cross_x in U. apply cross_y in S.
  rewrite (jac_nonzero x1), (jac_nonzero x2) by assumption. cbn [aff_add].
  destruct (ceq_dec E _ _) as [_|N]; [|contradiction]. destruct (ceq_dec E _ _) as [_|N]; [reflexivity|contradiction].
Qed.

Lemma jac_add_opposite : u1 = u2 -> s1 <> s2 -> aff_add (jac x1 y1 z1) (jac x2 y2 z2) = Inf.
Proof.
  intros U S. apply cross_x in U. rewrite <- cross_y in S.
  rewrite (jac_nonzero x1), (jac_nonzero x2) by assumption. cbn [aff_add].
  destruct (ceq_dec E _ _) as [_|N]; [|contradiction]. destruct (ceq_dec E _ _) as [N|_]; [contradiction|reflexivity].
Qed.

(** The chord, up to the scaling [k] of the third coordinate. *)
Lemma jac_add_chord k :
  u1 <> u2 -> k <> r0 ->
  let h := rsub u2 u1 in let r := rmul k (rsub s2 s1) in
  let i := rmul (rmul k k) (rmul h h) in let j := rmul h i in let v := rmul u1 i in
  let x3 := rsub (rsub (rmul r r) j) (radd v v) in
  let y3 := rsub (rmul r (rsub v x3)) (rmul k (rmul s1 j)) in
  let z3 := rmul k (rmul (rmul z1 z2) h) in
  jac x3 y3 z3 = aff_add (jac x1 y1 z1) (jac x2 y2 z2).
Proof.
  intros U K. cbv zeta.
  assert (H : rsub u2 u1 <> r0) by (apply cf_sub_nonzero; congruence).
  rewrite (jac_nonzero _ _ (rmul k _)) by nonzero.
  rewrite (jac_nonzero x1), (jac_nonzero x2) by assumption. cbn [aff_add].
  destruct (ceq_dec E _ _) as [N|_]; [apply cross_x in N; contradiction|].
  assert (X : rsub (rmul x2 (rmul z1 z1)) (rmul x1 (rmul z2 z2)) <> r0) by exact H.
  unfold u1, u2, s1, s2 in *. f_equal; field; nonzero.
Qed.
End Addition.

(** ** The law preserves the curve *)

Lemma aff_double_on_curve b P : on_curve b P -> on_curve b (aff_double P).
Proof.
  destruct P as [|x y]; [auto|]. cbn [on_curve aff_double]. intros C.
  destruct (ceq_dec E y r0) as [|Y]; [exact I|]. cbn [on_curve].
  assert (B : b = rsub (rmul y y) (rmul x (rmul x x))) by (rewrite C; ring). rewrite B. field. nonzero.
Qed.

Lemma aff_add_on_curve b P Q : on_curve b P -> on_curve b Q -> on_curve b (aff_add P Q).
Proof.
  destruct P as [|x1 y1], Q as [|x2 y2]; auto. intros C1 C2. cbn [aff_add].
  destruct (ceq_dec E x1 x2) as [|X].
  - destruct (ceq_dec E y1 y2); [now apply aff_double_on_curve|exact I].
  - cbn [on_curve] in *.
    assert (N : rsub x2 x1 <> r0) by (apply cf_sub_nonzero; congruence).
    set (l := cdiv (rsub y2 y1) (rsub x2 x1)).
    assert (L : y2 = radd y1 (rmul l (rsub x2 x1))) by (unfold l; field; assumption).
    assert (B : b = rsub (rmul y1 y1) (rmul x1 (rmul x1 x1))) by (rewrite C1; ring).
    clearbody l. subst y2 b.
    (* both points on the chord: the slope satisfies the Vieta relation *)
    assert (V : radd (radd (rmul (radd r1 r1) (rmul l y1)) (rmul (rmul l l) (rsub x2 x1)))
                  (ropp (radd (radd (rmul x2 x2) (rmul x2 x1)) (rmul x1 x1))) = r0).
    { destruct (cf_mul_zero (rsub x2 x1) (radd (radd (rmul (radd r1 r1) (rmul l y1)) (rmul (rmul l l) (rsub x2 x1)))
                  (ropp (radd (radd (rmul x2 x2) (rmul x2 x1)) (rmul x1 x1))))) as [H|H]; [|contradiction|exact H].
      transitivity (rsub (rmul (radd y1 (rmul l (rsub x2 x1))) (radd y1 (rmul l (rsub x2 x1))))
         (radd (rmul x2 (rmul x2 x2)) (rsub (rmul y1 y1) (rmul x1 (rmul x1 x1))))); [ring|].
      rewrite C2. ring. }
    match goal with |- ?a = ?c => transitivity (rsub a (rmul (rsub (rsub (rmul l l) x1) (radd x1 x2)) r0)); [ring|] end.
    rewrite <- V. ring.
Qed.

Lemma aff_mul_on_curve b (k : Z) P : on_curve b P -> on_curve b (aff_mul k P).
Proof.
  intros C. destruct k as [|k|k]; [exact I| |exact I]. cbn [aff_mul].
  induction k as [k IH|k IH|]; cbn [aff_mul_pos]; [|now apply aff_double_on_curve|assumption].
  apply aff_add_on_curve; [now apply aff_double_on_curve|assumption].
Qed.
End Law.
