(* ===== verification/Jacobian.v ===== *)
(** Points in Jacobian coordinates, for the operations that g1.rs and g2.rs write
    with the same formulas over their coordinate field
    (gm-sm9-rs/src/pairing/curve/g1.rs, g2.rs), and the interface [CoordRep] of
    that field.

    A point [(X : Y : Z)] stands for [(X/Z^2, Y/Z^3)], or for the point at
    infinity when [Z = 0]. *)

From Stdlib Require Import Bool ZArith Lia List Field.
From S2P Require Import Prelude Z256 Fp FieldRep Fp2 Curve.
Import ListNotations.
Open Scope Z_scope.

(** The traits [PartialEq], [ConstantTimeEq] and [ConditionallySelectable] of a
    coordinate type. *)
Class Coord (A : Type) := {
  peq : A -> A -> bool;
  cteq : A -> A -> bool;
  select : A -> A -> bool -> A
}.

#[export] Instance Coord_Fp : Coord Fp := {| peq := fp_eq; cteq := fp_ct_eq; select := fp_conditional_select |}.
#[export] Instance Coord_Fp2 : Coord Fp2 := {| peq := fp2_eq; cteq := fp2_ct_eq; select := fp2_conditional_select |}.

Record point (A : Type) := mkpoint { px : A; py : A; pz : A }.
Arguments mkpoint {A} px py pz.
Arguments px {A} p.
Arguments py {A} p.
Arguments pz {A} p.

Section Ops.
Context {A : Type} {FE : FieldElement A} {CO : Coord A}.

Definition j_identity : point A := mkpoint fe_ONE fe_ONE fe_ZERO.
Definition j_is_identity (P : point A) : bool := fe_is_zero (pz P).
Definition j_from_affine (x y : A) : point A := mkpoint x y fe_ONE.

Definition j_to_affine (P : point A) : option (A * A) :=
  if j_is_identity P then None
  else
    match fe_inv (pz P) with
    | None => None
    | Some z_inv =>
        let z_inv2 := fe_square z_inv in
        let z_inv3 := fe_mul z_inv2 z_inv in
        Some (fe_mul (px P) z_inv2, fe_mul (py P) z_inv3)
    end.

Definition j_double_ct (P : point A) : point A :=
  let x2 := fe_square (px P) in
  let y2 := fe_square (py P) in
  let y4 := fe_square y2 in
  let lambda1 := fe_add (fe_add x2 x2) x2 in
  let lambda2 := fe_double (fe_double (fe_mul (px P) y2)) in
  let lambda3 := fe_double (fe_double (fe_double y4)) in
  let x_prime := fe_sub (fe_square lambda1) (fe_double lambda2) in
  let y_prime := fe_sub (fe_mul lambda1 (fe_sub lambda2 x_prime)) lambda3 in
  let z_prime := fe_double (fe_mul (py P) (pz P)) in
  mkpoint x_prime y_prime z_prime.

Definition j_double (P : point A) : point A :=
  if j_is_identity P then j_identity else j_double_ct P.

Definition j_neg (P : point A) : point A := mkpoint (px P) (fe_neg (py P)) (pz P).

Definition j_eq (P Q : point A) : bool :=
  if j_is_identity P && j_is_identity Q then true
  else if j_is_identity P || j_is_identity Q then false
  else
    let z1_2 := fe_square (pz P) in
    let z2_2 := fe_square (pz Q) in
    let z1_3 := fe_mul z1_2 (pz P) in
    let z2_3 := fe_mul z2_2 (pz Q) in
    let x1 := fe_mul (px P) z2_2 in
    let x2 := fe_mul (px Q) z1_2 in
    let y1 := fe_mul (py P) z2_3 in
    let y2 := fe_mul (py Q) z1_3 in
    peq x1 x2 && peq y1 y2.

Definition j_select (P Q : point A) (choice : bool) : point A :=
  mkpoint (select (px P) (px Q) choice) (select (py P) (py Q) choice) (select (pz P) (pz Q) choice).

(** The bodies of [add] and [add_ct], over the formula for distinct
    x-coordinates [chord P Q z1_2 z2_2 u1 u2 s1 s2]. *)
Definition j_add (chord : point A -> point A -> A -> A -> A -> A -> A -> A -> point A) (P Q : point A) : point A :=
  if j_is_identity P then Q
  else if j_is_identity Q then P
  else
    let z1_2 := fe_square (pz P) in
    let z2_2 := fe_square (pz Q) in
    let u1 := fe_mul (px P) z2_2 in
    let u2 := fe_mul (px Q) z1_2 in
    let z2_3 := fe_mul z2_2 (pz Q) in
    let z1_3 := fe_mul z1_2 (pz P) in
    let s1 := fe_mul (py P) z2_3 in
    let s2 := fe_mul (py Q) z1_3 in
    if peq u1 u2 then (if peq s1 s2 then j_double P else j_identity)
    else chord P Q z1_2 z2_2 u1 u2 s1 s2.

Definition j_add_ct (chord : point A -> point A -> A -> A -> A -> A -> A -> A -> point A) (P Q : point A) : point A :=
  let self_is_id := cteq (pz P) fe_ZERO in
  let other_is_id := cteq (pz Q) fe_ZERO in
  let z1_2 := fe_square (pz P) in
  let z2_2 := fe_square (pz Q) in
  let u1 := fe_mul (px P) z2_2 in
  let u2 := fe_mul (px Q) z1_2 in
  let z2_3 := fe_mul z2_2 (pz Q) in
  let z1_3 := fe_mul z1_2 (pz P) in
  let s1 := fe_mul (py P) z2_3 in
  let s2 := fe_mul (py Q) z1_3 in
  let u_eq := cteq u1 u2 in
  let s_eq := cteq s1 s2 in
  let is_double := u_eq && s_eq && negb self_is_id && negb other_is_id in
  let is_inverse := u_eq && negb s_eq && negb self_is_id && negb other_is_id in
  let add_result := chord P Q z1_2 z2_2 u1 u2 s1 s2 in
  let double_result := j_double_ct P in
  let base := j_select add_result Q self_is_id in
  let base := j_select base P other_is_id in
  let result := j_select base double_result is_double in
  j_select result j_identity is_inverse.

(** The part of [add_mixed] after its early returns: the second point is affine. *)
Definition j_add_mixed (P : point A) (qx qy : A) : point A :=
  let z2 := fe_square (pz P) in
  let z3 := fe_mul z2 (pz P) in
  let u2 := fe_mul qx z2 in
  let s2 := fe_mul qy z3 in
  if peq (px P) u2 then (if peq (py P) s2 then j_double P else j_identity)
  else
    let h := fe_sub u2 (px P) in
    let r := fe_sub s2 (py P) in
    let h2 := fe_square h in
    let h3 := fe_mul h2 h in
    let x_prime := fe_sub (fe_sub (fe_square r) h3) (fe_double (fe_mul (px P) h2)) in
    let y_prime := fe_sub (fe_mul r (fe_sub (fe_mul (px P) h2) x_prime)) (fe_mul (py P) h3) in
    let z_prime := fe_mul (pz P) h in
    mkpoint x_prime y_prime z_prime.

(** [for i in (0..256).rev()]: the rounds for the bits [n - 1] down to 0. *)
Fixpoint j_scalar_rounds (add_ct : point A -> point A -> point A) (n : nat)
    (result P : point A) (scalar : Z256) : point A :=
  match n with
  | O => result
  | S i =>
      let result := j_double_ct result in
      let bit := ct_bit scalar (Z.of_nat i) in
      let added := add_ct result P in
      j_scalar_rounds add_ct i (j_select result added bit) P scalar
  end.
Definition j_scalar_mul_ct (add_ct : point A -> point A -> point A) (P : point A) (scalar : Z256) : point A :=
  j_scalar_rounds add_ct 256 j_identity P scalar.
End Ops.

(** ** What a coordinate field promises *)

Class CoordRep (A : Type) `{FieldElement A} `{Coord A} (E : CField) := {
  cr_rep :: FieldRep A E;
  cr_inj : forall x y, rep_ok x = true -> rep_ok y = true -> rep x = rep y -> x = y;
  cr_peq : forall x y, rep_ok x = true -> rep_ok y = true -> (peq x y = true <-> x = y);
  cr_cteq : forall x y, rep_ok x = true -> rep_ok y = true -> cteq x y = peq x y;
  cr_select : forall x y c, rep_ok x = true -> rep_ok y = true -> select x y c = if c then y else x;
  cr_inv_none : forall x, rep_ok x = true -> fe_inv x = None -> rep x = r0;
  cr_nonzero : forall x, rep_ok x = true -> fe_is_zero x = false -> rep x <> r0
}.

Section Refinement.
Context {A : Type} {FE : FieldElement A} {CO : Coord A} (E : CField) {CR : CoordRep A E}.

Add Field EfieldJ : (cfield_theory E).

Definition pt_ok (P : point A) : bool := rep_ok (px P) && rep_ok (py P) && rep_ok (pz P).

(** The affine point of Jacobian coordinates. *)
Definition aff (P : point A) : apoint E := jac E (rep (px P)) (rep (py P)) (rep (pz P)).

Lemma pt_ok_iff P :
  pt_ok P = true <-> rep_ok (px P) = true /\ rep_ok (py P) = true /\ rep_ok (pz P) = true.
Proof. unfold pt_ok. rewrite !andb_true_iff. tauto. Qed.

Lemma is_zero_rep x : rep_ok x = true -> (fe_is_zero x = true <-> rep x = r0).
Proof.
  intros Ok. split; [now apply rep_is_zero|]. intros Z0.
  destruct (fe_is_zero x) eqn:Ez; [reflexivity|]. now apply cr_nonzero in Ez.
Qed.

Lemma peq_rep x y : rep_ok x = true -> rep_ok y = true -> (peq x y = true <-> rep x = rep y).
Proof.
  intros X Y. rewrite cr_peq by assumption. split; [now intros ->|now apply cr_inj].
Qed.

Lemma cteq_zero x : rep_ok x = true -> cteq x fe_ZERO = fe_is_zero x.
Proof.
  intros Ok. rewrite cr_cteq by (assumption || apply ok_zero). apply eq_true_iff_eq.
  rewrite peq_rep, is_zero_rep, rep_zero by (assumption || apply ok_zero). reflexivity.
Qed.

Lemma aff_identity P : pt_ok P = true -> (j_is_identity P = true <-> aff P = Inf).
Proof.
  intros (_ & _ & Z)%pt_ok_iff. unfold j_is_identity. rewrite is_zero_rep by assumption.
  unfold aff, jac. destruct (ceq_dec E (rep (pz P)) r0); split; intros; try reflexivity; try discriminate; tauto.
Qed.

Lemma identity_spec : pt_ok j_identity = true /\ aff j_identity = Inf.
Proof.
  assert (Ok : pt_ok j_identity = true) by (apply pt_ok_iff; cbn [j_identity px py pz]; auto with rep).
  split; [exact Ok|]. apply aff_identity; [exact Ok|].
  unfold j_is_identity. cbn [j_identity pz]. apply is_zero_rep; auto with rep. apply rep_zero.
Qed.

Lemma j_double_ct_spec P :
  pt_ok P = true -> pt_ok (j_double_ct P) = true /\ aff (j_double_ct P) = aff_double E (aff P).
Proof.
  intros (X & Y & Z)%pt_ok_iff. unfold j_double_ct; cbv zeta. split.
  - apply pt_ok_iff. cbn [px py pz]. auto 20 with rep.
  - unfold aff. cbn [px py pz]. rewrite <- jac_double. rep_push. reflexivity.
Qed.

Lemma j_double_spec P :
  pt_ok P = true -> pt_ok (j_double P) = true /\ aff (j_double P) = aff_double E (aff P).
Proof.
  intros Ok. unfold j_double. destruct (j_is_identity P) eqn:I; [|now apply j_double_ct_spec].
  apply aff_identity in I; [|assumption]. rewrite I. apply identity_spec.
Qed.

Lemma j_neg_spec P : pt_ok P = true -> pt_ok (j_neg P) = true /\ aff (j_neg P) = aff_neg E (aff P).
Proof.
  intros (X & Y & Z)%pt_ok_iff. split.
  - apply pt_ok_iff. unfold j_neg; cbn [px py pz]. auto with rep.
  - unfold aff, j_neg, jac; cbn [px py pz]. rep_push.
    destruct (ceq_dec E (rep (pz P)) r0); [reflexivity|]. cbn [aff_neg]. f_equal. field. assumption.
Qed.

Lemma j_select_spec P Q c :
  pt_ok P = true -> pt_ok Q = true -> j_select P Q c = if c then Q else P.
Proof.
  intros (? & ? & ?)%pt_ok_iff (? & ? & ?)%pt_ok_iff. unfold j_select.
  rewrite !cr_select by assumption. destruct P, Q, c; reflexivity.
Qed.

Lemma j_to_affine_spec P :
  pt_ok P = true ->
  match j_to_affine P with
  | None => aff P = Inf
  | Some (x, y) => rep_ok x = true /\ rep_ok y = true /\ aff P = Aff (rep x) (rep y)
  end.
Proof.
  intros Ok. unfold j_to_affine. destruct (j_is_identity P) eqn:I; [now apply aff_identity|].
  assert (NI : aff P <> Inf) by (intros H; apply aff_identity in H; [congruence|assumption]).
  apply pt_ok_iff in Ok as (X & Y & Z).
  destruct (fe_inv (pz P)) as [k|] eqn:Ek.
  - pose proof (ok_inv _ _ Z Ek) as Ok. pose proof (rep_inv _ _ Z Ek) as R1. cbv zeta.
    split; [auto with rep|]. split; [auto with rep|]. rep_push. revert NI. unfold aff, jac.
    destruct (ceq_dec E (rep (pz P)) r0) as [|NZ]; [congruence|]. intros _.
    assert (K : rep k = cinv (rep (pz P))).
    { transitivity (rmul (cinv (rep (pz P))) (rmul (rep (pz P)) (rep k))); [field; assumption|]. rewrite R1. ring. }
    rewrite K. f_equal; field; assumption.
  - exfalso. apply NI. unfold aff, jac. rewrite (cr_inv_none _ Z Ek).
    destruct (ceq_dec E r0 r0); [reflexivity|contradiction].
Qed.

Lemma j_eq_spec P Q : pt_ok P = true -> pt_ok Q = true -> (j_eq P Q = true <-> aff P = aff Q).
Proof.
  intros HP HQ. unfold j_eq.
  pose proof (aff_identity P HP) as IP. pose proof (aff_identity Q HQ) as IQ.
  assert (HP' := HP). assert (HQ' := HQ). apply pt_ok_iff in HP' as (X1 & Y1 & Z1), HQ' as (X2 & Y2 & Z2).
  destruct (j_is_identity P) eqn:EP, (j_is_identity Q) eqn:EQ; cbn [andb orb].
  - rewrite (proj1 IP eq_refl), (proj1 IQ eq_refl). tauto.
  - rewrite (proj1 IP eq_refl). split; [discriminate|]. intros H. symmetry in H. apply IQ in H. discriminate.
  - rewrite (proj1 IQ eq_refl). split; [discriminate|]. intros H. apply IP in H. discriminate.
  - clear IP IQ. unfold j_is_identity in EP, EQ.
    apply cr_nonzero in EP; [|assumption]. apply cr_nonzero in EQ; [|assumption]. cbv zeta.
    rewrite andb_true_iff, !peq_rep by rep_accept. rep_push. unfold aff.
    rewrite !jac_nonzero by assumption. rewrite <- cross_x, <- cross_y by assumption.
    split; [now intros [-> ->]|]. intros H. now injection H.
Qed.

Lemma on_curve_check x y b :
  rep_ok x = true -> rep_ok y = true -> rep_ok b = true ->
  (peq (fe_square y) (fe_add (fe_mul (fe_square x) x) b) = true <->
   on_curve E (rep b) (Aff (rep x) (rep y))).
Proof.
  intros X Y B. rewrite peq_rep by rep_accept. rep_push. cbn [on_curve].
  split; intros H; rewrite H; ring.
Qed.

Lemma j_add_mixed_spec P qx qy :
  pt_ok P = true -> rep_ok qx = true -> rep_ok qy = true -> rep (pz P) <> r0 ->
  pt_ok (j_add_mixed P qx qy) = true /\
  aff (j_add_mixed P qx qy) = aff_add E (aff P) (Aff (rep qx) (rep qy)).
Proof.
  intros HP QX QY ZP'. assert (HP' := HP). apply pt_ok_iff in HP' as (X1 & Y1 & Z1). unfold j_add_mixed.
  rewrite <- (jac_one E (rep qx) (rep qy) r1 eq_refl). unfold aff at 2.
  assert (ZQ : (r1 : E) <> r0) by (intros H; apply (two_nonzero E); rewrite H; ring).
  share u2 (fe_mul qx (fe_square (pz P))) as Eu2. share s2 (fe_mul qy (fe_mul (fe_square (pz P)) (pz P))) as Es2.
  assert (EU : rmul (rep qx) (rmul (rep (pz P)) (rep (pz P))) = rep u2) by (symmetry; exact Eu2).
  assert (ES : rmul (rep qy) (rmul (rmul (rep (pz P)) (rep (pz P))) (rep (pz P))) = rep s2) by (symmetry; exact Es2).
  pose proof (peq_rep (px P) u2 X1 ltac:(assumption)) as U. pose proof (peq_rep (py P) s2 Y1 ltac:(assumption)) as S.
  destruct (peq (px P) u2); [destruct (peq (py P) s2)|].
  - pose proof (proj1 U eq_refl). pose proof (proj1 S eq_refl).
    rewrite jac_add_same; try assumption; [now apply j_double_spec|rewrite EU; rewrite <- H1; ring|rewrite ES; rewrite <- H2; ring].
  - pose proof (proj1 U eq_refl). rewrite jac_add_opposite; try assumption; [apply identity_spec|rewrite EU, <- H1; ring|].
    rewrite ES. intros N. assert (C : false = true); [apply S; rewrite <- N; ring|discriminate].
  - assert (NU : rmul (rep (px P)) (rmul r1 r1) <> rmul (rep qx) (rmul (rep (pz P)) (rep (pz P)))).
    { rewrite EU. intros N. assert (C : false = true); [apply U; rewrite <- N; ring|discriminate]. }
    rewrite <- (jac_add_chord E) with (k := r1) by assumption. rewrite EU, ES.
    share h (fe_sub u2 (px P)) as Eh. share r (fe_sub s2 (py P)) as Er. share h2 (fe_square h) as Eh2. share h3 (fe_mul h2 h) as Eh3.
    share x3 (fe_sub (fe_sub (fe_square r) h3) (fe_double (fe_mul (px P) h2))) as Ex3.
    split; [apply pt_ok_iff; cbn [px py pz]; repeat split; rep_accept|].
    unfold aff; cbn [px py pz]. rep_push.
    rewrite Ex3, Eh3, Eh2, Er, Eh. f_equal; ring.
Qed.

(** *** Addition, from the chord formula of a curve *)
Section Addition.
Context (chord : point A -> point A -> A -> A -> A -> A -> A -> A -> point A).
Hypothesis chord_ok : forall P Q a b c d e f,
  pt_ok P = true -> pt_ok Q = true -> rep_ok a = true -> rep_ok b = true -> rep_ok c = true ->
  rep_ok d = true -> rep_ok e = true -> rep_ok f = true -> pt_ok (chord P Q a b c d e f) = true.
Hypothesis chord_aff : forall P Q,
  pt_ok P = true -> pt_ok Q = true -> rep (pz P) <> r0 -> rep (pz Q) <> r0 ->
  let z1_2 := fe_square (pz P) in let z2_2 := fe_square (pz Q) in
  let u1 := fe_mul (px P) z2_2 in let u2 := fe_mul (px Q) z1_2 in
  let s1 := fe_mul (py P) (fe_mul z2_2 (pz Q)) in let s2 := fe_mul (py Q) (fe_mul z1_2 (pz P)) in
  rep u1 <> rep u2 ->
  aff (chord P Q z1_2 z2_2 u1 u2 s1 s2) = aff_add E (aff P) (aff Q).

(** The comparisons of [add] decide between chord, tangent and infinity. *)
Lemma add_cases P Q :
  pt_ok P = true -> pt_ok Q = true -> rep (pz P) <> r0 -> rep (pz Q) <> r0 ->
  let z1_2 := fe_square (pz P) in let z2_2 := fe_square (pz Q) in
  let u1 := fe_mul (px P) z2_2 in let u2 := fe_mul (px Q) z1_2 in
  let s1 := fe_mul (py P) (fe_mul z2_2 (pz Q)) in let s2 := fe_mul (py Q) (fe_mul z1_2 (pz P)) in
  aff_add E (aff P) (aff Q) =
  (if peq u1 u2 then (if peq s1 s2 then aff_double E (aff P) else Inf)
   else aff (chord P Q z1_2 z2_2 u1 u2 s1 s2)).
Proof.
  intros HP HQ ZP' ZQ. assert (HP' := HP). assert (HQ' := HQ).
  apply pt_ok_iff in HP' as (X1 & Y1 & Z1), HQ' as (X2 & Y2 & Z2). cbv zeta.
  pose proof (peq_rep (fe_mul (px P) (fe_square (pz Q))) (fe_mul (px Q) (fe_square (pz P)))
    ltac:(auto with rep) ltac:(auto with rep)) as U.
  pose proof (peq_rep (fe_mul (py P) (fe_mul (fe_square (pz Q)) (pz Q))) (fe_mul (py Q) (fe_mul (fe_square (pz P)) (pz P)))
    ltac:(auto with rep) ltac:(auto with rep)) as S.
  destruct (peq (fe_mul (px P) _) _).
  - assert (U' := proj1 U eq_refl). revert U'. rep_push. intros U'.
    destruct (peq (fe_mul (py P) _) _).
    + assert (S' := proj1 S eq_refl). revert S'. rep_push. intros S'. now apply jac_add_same.
    + apply jac_add_opposite; try assumption.
      intros N. assert (C : false = true); [apply S; rep_push; exact N|discriminate].
  - symmetry. apply chord_aff; try assumption. intros N. apply U in N. discriminate.
Qed.

Lemma j_add_spec P Q :
  pt_ok P = true -> pt_ok Q = true ->
  pt_ok (j_add chord P Q) = true /\ aff (j_add chord P Q) = aff_add E (aff P) (aff Q).
Proof.
  intros HP HQ. unfold j_add.
  destruct (j_is_identity P) eqn:IP; [apply aff_identity in IP; [now rewrite IP|assumption]|].
  destruct (j_is_identity Q) eqn:IQ.
  { apply aff_identity in IQ; [|assumption]. rewrite IQ. split; [assumption|]. now destruct (aff P). }
  assert (HP' := HP). assert (HQ' := HQ). apply pt_ok_iff in HP' as (X1 & Y1 & Z1), HQ' as (X2 & Y2 & Z2).
  unfold j_is_identity in IP, IQ. apply cr_nonzero in IP; [|assumption]. apply cr_nonzero in IQ; [|assumption].
  rewrite (add_cases P Q HP HQ IP IQ). cbv zeta.
  destruct (peq _ _); [destruct (peq _ _)|].
  - now apply j_double_spec.
  - apply identity_spec.
  - split; [|reflexivity]. apply chord_ok; auto with rep.
Qed.

Lemma j_add_ct_spec P Q :
  pt_ok P = true -> pt_ok Q = true ->
  pt_ok (j_add_ct chord P Q) = true /\ aff (j_add_ct chord P Q) = aff_add E (aff P) (aff Q).
Proof.
  intros HP HQ. unfold j_add_ct; cbv zeta.
  assert (HP' := HP). assert (HQ' := HQ). apply pt_ok_iff in HP' as (X1 & Y1 & Z1), HQ' as (X2 & Y2 & Z2).
  destruct (j_double_ct_spec P HP) as [Od Ed]. destruct identity_spec as [Oi Ei].
  set (ch := chord P Q _ _ _ _ _ _).
  assert (Oc : pt_ok ch = true) by (apply chord_ok; auto with rep).
  rewrite !cteq_zero by assumption. rewrite !(cr_cteq (fe_mul _ _)) by auto with rep.
  rewrite (j_select_spec ch Q) by assumption.
  rewrite (j_select_spec _ P) by (destruct (fe_is_zero (pz P)); assumption).
  set (base := if fe_is_zero (pz Q) then P else if fe_is_zero (pz P) then Q else ch).
  assert (Ob : pt_ok base = true) by (subst base; destruct (fe_is_zero (pz Q)), (fe_is_zero (pz P)); assumption).
  rewrite (j_select_spec base) by assumption.
  rewrite j_select_spec by (assumption || (destruct (_ && _); assumption)).
  destruct (fe_is_zero (pz P)) eqn:IP.
  { cbn [negb]. rewrite !andb_false_r. cbn [andb].
    assert (A0 : aff P = Inf) by (now apply aff_identity). rewrite A0. subst base.
    destruct (fe_is_zero (pz Q)) eqn:IQ; [|now split].
    assert (B0 : aff Q = Inf) by (now apply aff_identity). rewrite B0. now split. }
  destruct (fe_is_zero (pz Q)) eqn:IQ.
  { cbn [negb]. rewrite !andb_false_r. subst base.
    assert (B0 : aff Q = Inf) by (now apply aff_identity). rewrite B0.
    split; [assumption|]. now destruct (aff P). }
  apply cr_nonzero in IP; [|assumption]. apply cr_nonzero in IQ; [|assumption].
  rewrite (add_cases P Q HP HQ IP IQ). cbv zeta. fold ch. cbn [negb]. rewrite !andb_true_r.
  destruct (peq (fe_mul (px P) _) _); [destruct (peq (fe_mul (py P) _) _)|]; cbn [andb negb]; auto.
Qed.

Lemma j_scalar_rounds_spec n R P k :
  pt_ok R = true -> pt_ok P = true -> wf_limbs 4 k ->
  aff R = aff_mul E (eval k / 2 ^ Z.of_nat n) (aff P) ->
  pt_ok (j_scalar_rounds (j_add_ct chord) n R P k) = true /\
  aff (j_scalar_rounds (j_add_ct chord) n R P k) = aff_mul E (eval k) (aff P).
Proof.
  intros HR HP Wk. pose proof (wf256_eval_bound k Wk) as [K0 _].
  revert R HR; induction n as [|n IH]; intros R HR ER; cbn [j_scalar_rounds].
  { rewrite Z.div_1_r in ER. auto. }
  destruct (j_double_ct_spec R HR) as [Od Ed].
  destruct (j_add_ct_spec (j_double_ct R) P Od HP) as [Oa Ea].
  rewrite ct_bit_spec by (assumption || lia). rewrite j_select_spec by assumption.
  set (m := eval k / 2 ^ Z.of_nat (S n)) in *.
  assert (Hm : eval k / 2 ^ Z.of_nat n = 2 * m + Z.b2z (Z.testbit (eval k) (Z.of_nat n))).
  { rewrite Z.testbit_spec' by lia. subst m. rewrite Nat2Z.inj_succ, Z.pow_succ_r by lia.
    rewrite (Z.mul_comm 2 (2 ^ Z.of_nat n)), <- Z.div_div by lia. apply Z.div_mod. lia. }
  apply IH; [destruct (Z.testbit _ _); assumption|].
  rewrite Hm, aff_mul_succ_double by (subst m; apply Z.div_pos; lia). rewrite <- ER.
  destruct (Z.testbit (eval k) (Z.of_nat n)); congruence.
Qed.

Lemma j_scalar_mul_ct_spec P k :
  pt_ok P = true -> wf_limbs 4 k ->
  pt_ok (j_scalar_mul_ct (j_add_ct chord) P k) = true /\
  aff (j_scalar_mul_ct (j_add_ct chord) P k) = aff_mul E (eval k) (aff P).
Proof.
  intros HP Wk. apply j_scalar_rounds_spec; try assumption; [apply identity_spec|].
  pose proof (wf256_eval_bound k Wk) as B.
  rewrite Z.div_small by (change (Z.of_nat 256) with 256; lia). apply identity_spec.
Qed.
End Addition.
End Refinement.
