(* ===== verification/G1.v ===== *)
(** The curve [G1 : y^2 = x^3 + 5] over [Fp] (gm-sm9-rs/src/pairing/curve/g1.rs)
    and its parameters (pairing/params.rs).

    The Jacobian operations are related to the chord-and-tangent law on affine
    points over the integers modulo [p]. *)

From Stdlib Require Import Bool ZArith Lia List Zmod Field.
From S2P Require Import Prelude Z256 Primality Fp FieldRep Fp2 Curve Jacobian.
Import ListNotations.
Open Scope Z_scope.

Definition G1Point : Type := point Fp.

Definition new (x y z : Fp) : G1Point := mkpoint x y z.
Definition from_affine (x y : Fp) : G1Point := j_from_affine x y.
Definition to_affine (P : G1Point) : option (Fp * Fp) := j_to_affine P.
Definition double (P : G1Point) : G1Point := j_double P.
Definition double_ct (P : G1Point) : G1Point := j_double_ct P.
Definition neg (P : G1Point) : G1Point := j_neg P.
Definition g1_eq (P Q : G1Point) : bool := j_eq P Q.
Definition g1_conditional_select (P Q : G1Point) (choice : bool) : G1Point := j_select P Q choice.

#[export] Instance Identity_G1 : Identity G1Point := {| identity := j_identity; is_identity := j_is_identity |}.

(** The addition formula for points with different x-coordinates, with [r]
    doubled. *)
Definition chord {A : Type} `{FieldElement A} (P Q : point A) (z1_2 z2_2 u1 u2 s1 s2 : A) : point A :=
  let h := fe_sub u2 u1 in
  let r := fe_double (fe_sub s2 s1) in
  let h2 := fe_square h in
  let i := fe_double (fe_double h2) in
  let j := fe_mul h i in
  let v := fe_mul u1 i in
  let x3 := fe_sub (fe_sub (fe_square r) j) (fe_double v) in
  let y3 := fe_sub (fe_mul r (fe_sub v x3)) (fe_double (fe_mul s1 j)) in
  let z_sum := fe_add (pz P) (pz Q) in
  let z3 := fe_mul (fe_sub (fe_sub (fe_square z_sum) z1_2) z2_2) h in
  mkpoint x3 y3 z3.

Definition add (P Q : G1Point) : G1Point := j_add chord P Q.
Definition add_ct (P Q : G1Point) : G1Point := j_add_ct chord P Q.
Definition scalar_mul_ct (P : G1Point) (scalar : Z256) : G1Point := j_scalar_mul_ct (j_add_ct chord) P scalar.
#[export] Instance ScalarMul_G1 : ScalarMul G1Point := {| scalar_mul := scalar_mul_ct |}.

(** ** Affine points and mixed addition *)

Record G1Affine := { ax : Fp; ay : Fp }.
Definition to_projective (q : G1Affine) : G1Point := from_affine (ax q) (ay q).
Definition g1affine_is_identity (q : G1Affine) : bool := false.
Definition g1affine_identity : G1Affine := {| ax := fe_ZERO; ay := fe_ZERO |}.

Definition add_mixed (P : G1Point) (q : G1Affine) : G1Point :=
  if is_identity P then to_projective q
  else if g1affine_is_identity q then P
  else j_add_mixed P (ax q) (ay q).

Definition is_on_curve (P : G1Point) : bool :=
  if is_identity P then true
  else
    match to_affine P with
    | Some (x, y) => is_on_curve_g1 x y
    | None => false
    end.

(** ** Parameters (params.rs) *)

Definition SM9_P : Z256 := [0xE351457DE56F9B27; 0x1A7AEEDB21F2934B; 0xFF58EC745D603AB4; 0xB640000002A3A6F1].
Definition SM9_B : Z256 := [5; 0; 0; 0].
Definition P1_X : Z256 := [0xE8C4E4817C66DDDD; 0xE1E4086909DC3280; 0xF5ED0704487D01D6; 0x93DE051D62BF718F].
Definition P1_Y : Z256 := [0x0C464CD70A3EA616; 0x1C1C00CBFA602435; 0x631065125C395BBC; 0x21FE8DDA4F21E607].
Definition g1_generator : G1Point := from_affine (from_raw P1_X) (from_raw P1_Y).

(** ** The coordinate field *)

Lemma zp_two_nonzero : Zmod.add Zmod.one Zmod.one <> (Zmod.zero : ZP).
Proof. intros H. apply (f_equal Zmod.to_Z) in H. vm_compute in H. discriminate. Qed.

Definition zp_eq_dec (x y : ZP) : {x = y} + {x <> y}.
Proof. destruct (Z.eq_dec (Zmod.to_Z x) (Zmod.to_Z y)) as [H|H]; [left; now apply Zmod.to_Z_inj|right; congruence]. Defined.

Definition ZP_field : CField := {|
  cring := ZP_ring; cdiv := @Zmod.mdiv p; cinv := @Zmod.inv p;
  cfield_theory := Zmod.field_theory p p_prime;
  ceq_dec := zp_eq_dec; two_nonzero := zp_two_nonzero
|}.

Definition ZP_rep : FieldRep Fp ZP_field := FieldRep_Fp ZP_ring ZP_id.

Lemma fp_peq_spec x y : fp_ok x = true -> fp_ok y = true -> (fp_eq x y = true <-> x = y).
Proof.
  intros [X _]%fp_ok_iff [Y _]%fp_ok_iff. unfold fp_eq. rewrite z256_eq_spec, Z.eqb_eq by assumption.
  split; [now apply (eval_inj 4)|now intros ->].
Qed.

Lemma fp_select_spec x y c :
  fp_ok x = true -> fp_ok y = true -> fp_conditional_select x y c = if c then y else x.
Proof. intros [X _]%fp_ok_iff [Y _]%fp_ok_iff. now apply select_choice_spec. Qed.

#[export] Instance CoordRep_Fp : CoordRep Fp ZP_field.
Proof.
  refine {| cr_rep := ZP_rep |}.
  - intros x y X Y H. exact (val_inj x y X Y H).
  - intros x y X Y. exact (fp_peq_spec x y X Y).
  - intros x y X Y. exact (ct_eq_spec x y).
  - intros x y c X Y. exact (fp_select_spec x y c X Y).
  - intros x X H. exact (fe_inv_none x X H).
  - intros x X H Z0. assert (T : fe_is_zero x = true) by exact (proj2 (fe_is_zero_val x X) Z0). congruence.
Defined.

(** ** Refinement *)

Section Chord.
Context {A : Type} {FE : FieldElement A} {CO : Coord A} (E : CField) {CR : CoordRep A E}.
Add Field EfieldG1 : (cfield_theory E).

Lemma chord_ok (P Q : point A) a b c d e f :
  pt_ok E P = true -> pt_ok E Q = true -> rep_ok a = true -> rep_ok b = true ->
  rep_ok c = true -> rep_ok d = true -> rep_ok e = true -> rep_ok f = true ->
  pt_ok E (chord P Q a b c d e f) = true.
Proof.
  intros (? & ? & ?)%pt_ok_iff (? & ? & ?)%pt_ok_iff ? ? ? ? ? ?. unfold chord; cbv zeta.
  apply pt_ok_iff. cbn [px py pz]. auto 20 with rep.
Qed.

Lemma chord_aff (P Q : point A) :
  pt_ok E P = true -> pt_ok E Q = true -> rep (pz P) <> r0 -> rep (pz Q) <> r0 ->
  let z1_2 := fe_square (pz P) in let z2_2 := fe_square (pz Q) in
  let u1 := fe_mul (px P) z2_2 in let u2 := fe_mul (px Q) z1_2 in
  let s1 := fe_mul (py P) (fe_mul z2_2 (pz Q)) in let s2 := fe_mul (py Q) (fe_mul z1_2 (pz P)) in
  rep u1 <> rep u2 ->
  aff E (chord P Q z1_2 z2_2 u1 u2 s1 s2) = aff_add E (aff E P) (aff E Q).
Proof.
  intros (? & ? & ?)%pt_ok_iff (? & ? & ?)%pt_ok_iff ZP' ZQ. cbv zeta. rep_push. intros U.
  unfold aff at 2 3. rewrite <- (jac_add_chord E) with (k := radd r1 r1); try assumption; [|apply two_nonzero].
  share u1 (fe_mul (px P) (fe_square (pz Q))) as Eu1. share u2 (fe_mul (px Q) (fe_square (pz P))) as Eu2.
  share s1 (fe_mul (py P) (fe_mul (fe_square (pz Q)) (pz Q))) as Es1.
  share s2 (fe_mul (py Q) (fe_mul (fe_square (pz P)) (pz P))) as Es2.
  unfold aff, chord; cbv zeta. cbn [px py pz].
  share h (fe_sub u2 u1) as Eh. share r (fe_double (fe_sub s2 s1)) as Er.
  share i (fe_double (fe_double (fe_square h))) as Ei. share j (fe_mul h i) as Ej. share v (fe_mul u1 i) as Ev.
  share x3 (fe_sub (fe_sub (fe_square r) j) (fe_double v)) as Ex3.
  rep_push. rewrite Ex3, Ev, Ej, Ei, Er, Eh, Es2, Es1, Eu2, Eu1. f_equal; ring.
Qed.
End Chord.

Lemma from_affine_spec x y :
  fp_ok x = true -> fp_ok y = true ->
  pt_ok ZP_field (from_affine x y) = true /\ aff ZP_field (from_affine x y) = Aff (val x : ZP_field) (val y).
Proof.
  intros X Y. split.
  - apply pt_ok_iff. cbn [from_affine j_from_affine px py pz]. split; [exact X|]. split; [exact Y|]. apply ok_one.
  - exact (jac_one ZP_field (val x) (val y) (val Fp.ONE) (proj2 fp_one_spec)).
Qed.

Lemma add_spec P Q :
  pt_ok ZP_field P = true -> pt_ok ZP_field Q = true ->
  pt_ok ZP_field (add P Q) = true /\ aff ZP_field (add P Q) = aff_add ZP_field (aff ZP_field P) (aff ZP_field Q).
Proof. apply j_add_spec; [apply chord_ok|apply chord_aff]. Qed.

Lemma add_ct_spec P Q :
  pt_ok ZP_field P = true -> pt_ok ZP_field Q = true ->
  pt_ok ZP_field (add_ct P Q) = true /\ aff ZP_field (add_ct P Q) = aff_add ZP_field (aff ZP_field P) (aff ZP_field Q).
Proof. apply j_add_ct_spec; [apply chord_ok|apply chord_aff]. Qed.

Lemma scalar_mul_ct_spec P k :
  pt_ok ZP_field P = true -> wf_limbs 4 k ->
  pt_ok ZP_field (scalar_mul_ct P k) = true /\
  aff ZP_field (scalar_mul_ct P k) = aff_mul ZP_field (eval k) (aff ZP_field P).
Proof. apply j_scalar_mul_ct_spec; [apply chord_ok|apply chord_aff]. Qed.

Lemma curve_b_spec : fp_ok curve_b = true /\ val curve_b = Zmod.of_Z p 5.
Proof.
  destruct (from_raw_spec [5; 0; 0; 0]) as [O V]; [now apply wf256_iff|right; vm_compute; congruence|].
  split; [exact O|exact V].
Qed.

Definition b1 : ZP_field := Zmod.of_Z p 5.

Lemma rep_val : @rep Fp _ ZP_field (cr_rep (CoordRep := CoordRep_Fp)) = val.
Proof. reflexivity. Qed.
Lemma rep_ok_fp : @rep_ok Fp _ ZP_field (cr_rep (CoordRep := CoordRep_Fp)) = fp_ok.
Proof. reflexivity. Qed.

Lemma is_on_curve_g1_unfold x y :
  is_on_curve_g1 x y = peq (fe_square y) (fe_add (fe_mul (fe_square x) x) curve_b).
Proof. unfold is_on_curve_g1. cbv zeta. cbn [peq Coord_Fp]. reflexivity. Qed.

Lemma is_on_curve_g1_spec x y :
  fp_ok x = true -> fp_ok y = true ->
  (is_on_curve_g1 x y = true <-> on_curve ZP_field b1 (Aff (val x : ZP_field) (val y))).
Proof.
  intros X Y. destruct curve_b_spec as [Ob Vb]. rewrite is_on_curve_g1_unfold.
  rewrite <- rep_ok_fp in *. rewrite (on_curve_check ZP_field) by assumption.
  rewrite rep_val, Vb. reflexivity.
Qed.

Lemma is_on_curve_spec P :
  pt_ok ZP_field P = true -> (is_on_curve P = true <-> on_curve ZP_field b1 (aff ZP_field P)).
Proof.
  intros Ok. unfold is_on_curve, to_affine.
  pose proof (aff_identity ZP_field P Ok) as I. change (is_identity P) with (j_is_identity P).
  destruct (j_is_identity P) eqn:E; [rewrite (proj1 I eq_refl); cbn; tauto|].
  pose proof (j_to_affine_spec ZP_field P Ok) as T. destruct (j_to_affine P) as [[x y]|].
  - destruct T as (X & Y & ->). now apply is_on_curve_g1_spec.
  - apply I in T. discriminate.
Qed.

Lemma add_mixed_spec P q :
  pt_ok ZP_field P = true -> fp_ok (ax q) = true -> fp_ok (ay q) = true ->
  pt_ok ZP_field (add_mixed P q) = true /\
  aff ZP_field (add_mixed P q) = aff_add ZP_field (aff ZP_field P) (Aff (val (ax q) : ZP_field) (val (ay q))).
Proof.
  intros HP QX QY. unfold add_mixed, g1affine_is_identity.
  change (is_identity P) with (j_is_identity P).
  pose proof (aff_identity ZP_field P HP) as I. destruct (j_is_identity P) eqn:E.
  - rewrite (proj1 I eq_refl). now apply from_affine_spec.
  - rewrite <- rep_ok_fp in QX, QY. rewrite <- rep_val.
    apply j_add_mixed_spec; try assumption.
    apply pt_ok_iff in HP as (_ & _ & Z). now apply cr_nonzero.
Qed.

(** The generator is canonical and on the curve. *)
Lemma generator_spec :
  pt_ok ZP_field g1_generator = true /\
  aff ZP_field g1_generator = Aff (Zmod.of_Z p (eval P1_X) : ZP_field) (Zmod.of_Z p (eval P1_Y)).
Proof.
  destruct (from_raw_spec P1_X) as [X Vx]; [now apply wf256_iff|right; vm_compute; congruence|].
  destruct (from_raw_spec P1_Y) as [Y Vy]; [now apply wf256_iff|right; vm_compute; congruence|].
  destruct (from_affine_spec _ _ X Y) as [O V]. rewrite Vx, Vy in V. split; [exact O|exact V].
Qed.

Lemma generator_on_curve : on_curve ZP_field b1 (aff ZP_field g1_generator).
Proof. rewrite (proj2 generator_spec). apply Zmod.to_Z_inj. vm_compute. reflexivity. Qed.

(** ** Properties *)

(** C21. The Jacobian operations of G1 are the chord-and-tangent group law: on all
    points with canonical coordinates, doubling, addition (the branching and the
    constant-time versions, on every case: identities, equal points, opposite
    points), mixed addition and negation represent the affine result, and
    equality of points is equality of the affine points they stand for. *)
Theorem g1_group_law (P Q : G1Point) (q : G1Affine) :
  pt_ok ZP_field P = true -> pt_ok ZP_field Q = true -> fp_ok (ax q) = true -> fp_ok (ay q) = true ->
  let A := aff ZP_field in
  A identity = Inf /\
  (pt_ok ZP_field (double P) = true /\ A (double P) = aff_double ZP_field (A P)) /\
  (pt_ok ZP_field (double_ct P) = true /\ A (double_ct P) = aff_double ZP_field (A P)) /\
  (pt_ok ZP_field (add P Q) = true /\ A (add P Q) = aff_add ZP_field (A P) (A Q)) /\
  (pt_ok ZP_field (add_ct P Q) = true /\ A (add_ct P Q) = aff_add ZP_field (A P) (A Q)) /\
  (pt_ok ZP_field (add_mixed P q) = true /\
   A (add_mixed P q) = aff_add ZP_field (A P) (Aff (val (ax q) : ZP_field) (val (ay q)))) /\
  (pt_ok ZP_field (neg P) = true /\ A (neg P) = aff_neg ZP_field (A P)) /\
  (g1_eq P Q = true <-> A P = A Q) /\
  match to_affine P with
  | None => A P = Inf
  | Some (x, y) => fp_ok x = true /\ fp_ok y = true /\ A P = Aff (val x : ZP_field) (val y)
  end.
Proof.
  intros HP HQ QX QY. cbv zeta.
  split; [apply identity_spec|]. split; [now apply j_double_spec|]. split; [now apply j_double_ct_spec|].
  split; [now apply add_spec|]. split; [now apply add_ct_spec|]. split; [now apply add_mixed_spec|].
  split; [now apply j_neg_spec|]. split; [now apply j_eq_spec|].
  rewrite <- rep_ok_fp, <- rep_val. now apply j_to_affine_spec.
Qed.

(** A canonical affine point, for the examples. *)
Definition sample_affine : G1Affine := {| ax := from_u64 4; ay := from_u64 9 |}.

Lemma g1_group_law_witness :
  aff ZP_field (add g1_generator g1_generator) =
    aff_add ZP_field (aff ZP_field g1_generator) (aff ZP_field g1_generator) /\
  aff ZP_field (add_ct g1_generator identity) =
    aff_add ZP_field (aff ZP_field g1_generator) (aff ZP_field identity).
Proof.
  destruct (g1_group_law g1_generator g1_generator sample_affine) as (_ & _ & _ & [_ D] & _);
    [apply generator_spec|apply generator_spec|vm_compute; reflexivity..|].
  destruct (g1_group_law g1_generator identity sample_affine) as (_ & _ & _ & _ & [_ Z] & _);
    [apply generator_spec|apply identity_spec|vm_compute; reflexivity..|].
  split; [exact D|exact Z].
Defined.

(** Constant-time scalar multiplication on G1 computes the multiple by the
    256-bit scalar (binary method on the affine law) and never leaves the curve:
    a point that passes [is_on_curve] has multiples that pass it; the generator
    of the standard is on the curve. *)
Theorem g1_scalar_mul (P : G1Point) (k : Z256) :
  pt_ok ZP_field P = true -> wf256 k = true ->
  (pt_ok ZP_field (scalar_mul P k) = true /\
   aff ZP_field (scalar_mul P k) = aff_mul ZP_field (eval k) (aff ZP_field P)) /\
  (is_on_curve P = true <-> on_curve ZP_field b1 (aff ZP_field P)) /\
  (is_on_curve P = true -> is_on_curve (scalar_mul P k) = true) /\
  (pt_ok ZP_field g1_generator = true /\ is_on_curve g1_generator = true).
Proof.
  rewrite wf256_iff. intros HP Wk. destruct (scalar_mul_ct_spec P k HP Wk) as [O E].
  change (scalar_mul P k) with (scalar_mul_ct P k).
  split; [now split|]. split; [now apply is_on_curve_spec|]. split.
  - intros C. apply is_on_curve_spec in C; [|assumption]. apply is_on_curve_spec; [assumption|].
    rewrite E. exact (aff_mul_on_curve ZP_field b1 _ _ C).
  - split; [apply generator_spec|apply is_on_curve_spec; [apply generator_spec|apply generator_on_curve]].
Qed.

Lemma g1_scalar_mul_witness :
  aff ZP_field (scalar_mul g1_generator N) = aff_mul ZP_field (eval N) (aff ZP_field g1_generator) /\
  is_on_curve (scalar_mul g1_generator N) = true.
Proof.
  destruct (g1_scalar_mul g1_generator N) as ([_ E] & _ & C & [_ G]); [apply generator_spec|reflexivity|].
  split; [exact E|exact (C G)].
Defined.

(** The constant [SM9_P] of the parameters is not the modulus [p] its comment
    gives: the limbs are permuted, so it differs from the prime the field
    arithmetic uses. *)
Theorem sm9_p_constant_wrong :
  wf256 SM9_P = true /\ eval SM9_P <> p /\
  p = 0xB640000002A3A6F1D603AB4FF58EC74521F2934B1A7AEEDBE56F9B27E351457D /\ eval SM9_B = 5.
Proof. repeat split; try reflexivity. vm_compute. congruence. Qed.
