(* ===== verification/G2.v ===== *)
(** The twist [G2 : y^2 = x^3 + 5u] over [Fp2] (gm-sm9-rs/src/pairing/curve/g2.rs)
    and its generator (pairing/params.rs).

    The pairs over the integers modulo [p] with [u^2 = -2] are a field, [Fp2]
    represents it, and the Jacobian operations follow the affine law over it. *)

From Stdlib Require Import Bool ZArith Lia List Zmod Field.
From S2P Require Import Prelude Z256 Primality Fp FieldRep Fp2 Curve Jacobian G1.
Import ListNotations.
Open Scope Z_scope.

Definition G2Point : Type := point Fp2.

Definition new (x y z : Fp2) : G2Point := mkpoint x y z.
Definition from_affine (x y : Fp2) : G2Point := j_from_affine x y.
Definition to_affine (P : G2Point) : option (Fp2 * Fp2) := j_to_affine P.
Definition double (P : G2Point) : G2Point := j_double P.
Definition double_ct (P : G2Point) : G2Point := j_double_ct P.
Definition neg (P : G2Point) : G2Point := j_neg P.
Definition g2_eq (P Q : G2Point) : bool := j_eq P Q.
Definition g2_conditional_select (P Q : G2Point) (choice : bool) : G2Point := j_select P Q choice.

#[export] Instance Identity_G2 : Identity G2Point := {| identity := j_identity; is_identity := j_is_identity |}.

(** The addition formula for points with different x-coordinates; unlike the
    one of G1, [r] is not doubled. *)
Definition chord {A : Type} `{FieldElement A} (P Q : point A) (z1_2 z2_2 u1 u2 s1 s2 : A) : point A :=
  let h := fe_sub u2 u1 in
  let r := fe_sub s2 s1 in
  let h2 := fe_square h in
  let j := fe_mul h h2 in
  let v := fe_mul u1 h2 in
  let x3 := fe_sub (fe_sub (fe_square r) j) (fe_double v) in
  let y3 := fe_sub (fe_mul r (fe_sub v x3)) (fe_mul s1 j) in
  let z3 := fe_mul (fe_mul (pz P) (pz Q)) h in
  mkpoint x3 y3 z3.

Definition add (P Q : G2Point) : G2Point := j_add chord P Q.
Definition add_ct (P Q : G2Point) : G2Point := j_add_ct chord P Q.
Definition scalar_mul_ct (P : G2Point) (scalar : Z256) : G2Point := j_scalar_mul_ct (j_add_ct chord) P scalar.
#[export] Instance ScalarMul_G2 : ScalarMul G2Point := {| scalar_mul := scalar_mul_ct |}.

Definition is_on_curve (P : G2Point) : bool :=
  if is_identity P then true
  else
    match to_affine P with
    | Some (x, y) => is_on_curve_g2 x y
    | None => false
    end.

(** ** Parameters (params.rs) *)

Definition P2_X0 : Z256 := [0xF9B7213BAF82D65B; 0xEE265948D19C17AB; 0xD2AAB97FD34EC120; 0x3722755292130B08].
Definition P2_X1 : Z256 := [0x54806C11D8806141; 0xF1DD2C190F5E93C4; 0x597B6027B441A01F; 0x85AEF3D078640C98].
Definition P2_Y0 : Z256 := [0x6215BBA5C999A7C7; 0x47EFBA98A71A0811; 0x5F3170153D278FF2; 0xA7CF28D519BE3DA6].
Definition P2_Y1 : Z256 := [0x856DC76B84EBEB96; 0x0736A96FA347C8BD; 0x66BA0D262CBEE6ED; 0x17509B092E845C12].

Definition g2_generator : G2Point :=
  let x0 := from_raw P2_X0 in
  let x1 := from_raw P2_X1 in
  let y0 := from_raw P2_Y0 in
  let y1 := from_raw P2_Y1 in
  let x := Fp2.new x0 x1 in
  let y := Fp2.new y0 y1 in
  from_affine x y.

(** ** The field of pairs *)

Section PairField.
Add Field ZPfieldG2 : (Zmod.field_theory p p_prime).

Definition inv2 (x : E2) : E2 :=
  let n := norm2 (fst x) (snd x) in
  (Zmod.mdiv (fst x) n, Zmod.opp (Zmod.mdiv (snd x) n)).
Definition div2 (x y : E2) : E2 := rmul x (inv2 y).

Lemma inv2_l (x : E2) : x <> r0 -> rmul (inv2 x) x = r1.
Proof.
  destruct x as [a b]. intros H.
  assert (N : norm2 a b <> Zmod.zero).
  { intros Z0. apply norm2_zero in Z0 as [-> ->]. now apply H. }
  unfold inv2. cbn [fst snd].
  change ((Zmod.add (Zmod.mul (Zmod.mdiv a (norm2 a b)) a)
            (Zmod.mul (Zmod.opp (Zmod.add Zmod.one Zmod.one)) (Zmod.mul (Zmod.opp (Zmod.mdiv b (norm2 a b))) b)),
           Zmod.add (Zmod.mul (Zmod.mdiv a (norm2 a b)) b) (Zmod.mul (Zmod.opp (Zmod.mdiv b (norm2 a b))) a)) =
          ((Zmod.one, Zmod.zero) : ZP * ZP)).
  unfold norm2 in *. f_equal; field; exact N.
Qed.

Lemma E2_field_theory : field_theory r0 r1 radd rmul rsub ropp div2 inv2 (@eq E2).
Proof.
  constructor.
  - exact (rth E2).
  - intros H. apply (f_equal fst) in H. apply (f_equal Zmod.to_Z) in H. vm_compute in H. discriminate.
  - reflexivity.
  - exact inv2_l.
Qed.

Lemma e2_two_nonzero : radd r1 r1 <> (r0 : E2).
Proof. intros H. apply (f_equal fst) in H. exact (zp_two_nonzero H). Qed.

Definition e2_eq_dec (x y : E2) : {x = y} + {x <> y}.
Proof.
  destruct x as [a b], y as [c d].
  destruct (zp_eq_dec a c) as [->|N]; [|right; intros H; apply N; exact (f_equal fst H)].
  destruct (zp_eq_dec b d) as [->|N]; [now left|right; intros H; apply N; exact (f_equal snd H)].
Defined.
End PairField.

Definition E2_field : CField := {|
  cring := E2; cdiv := div2; cinv := inv2; cfield_theory := E2_field_theory;
  ceq_dec := e2_eq_dec; two_nonzero := e2_two_nonzero
|}.

Lemma fp2_canonical_iff x : fp2_canonical x = true <-> fp_ok (c0 x) = true /\ fp_ok (c1 x) = true.
Proof. apply andb_true_iff. Qed.

Lemma fp2_eq_iff (x y : Fp2) : c0 x = c0 y /\ c1 x = c1 y <-> x = y.
Proof. destruct x, y; cbn. split; [intros [-> ->]; reflexivity|intros H; split; congruence]. Qed.

Lemma fp2_peq_spec x y : fp2_canonical x = true -> fp2_canonical y = true -> (fp2_eq x y = true <-> x = y).
Proof.
  intros [X0 X1]%fp2_canonical_iff [Y0 Y1]%fp2_canonical_iff. unfold fp2_eq.
  rewrite andb_true_iff, !fp_peq_spec by assumption. apply fp2_eq_iff.
Qed.

Lemma fp2_cteq_spec x y : fp2_ct_eq x y = fp2_eq x y.
Proof. unfold fp2_ct_eq, fp2_eq. now rewrite !ct_eq_spec. Qed.

Lemma fp2_select_spec x y c :
  fp2_canonical x = true -> fp2_canonical y = true -> fp2_conditional_select x y c = if c then y else x.
Proof.
  intros [X0 X1]%fp2_canonical_iff [Y0 Y1]%fp2_canonical_iff. unfold fp2_conditional_select.
  rewrite !fp_select_spec by assumption. destruct c, x, y; reflexivity.
Qed.


Lemma pair2_zero x : fp2_canonical x = true -> (fe_is_zero x = true <-> pair2 x = r0).
Proof.
  intros [X0 X1]%fp2_canonical_iff. cbn [fe_is_zero FieldElement_Fp2]. unfold is_zero.
  rewrite andb_true_iff, !fe_is_zero_val by assumption. unfold pair2.
  change (@r0 E2) with ((Zmod.zero, Zmod.zero) : ZP * ZP). split; [intros [-> ->]; reflexivity|].
  intros H. split; [exact (f_equal fst H)|exact (f_equal snd H)].
Qed.

#[export] Instance CoordRep_Fp2 : CoordRep Fp2 E2_field.
Proof.
  refine {| cr_rep := rep2 : FieldRep Fp2 (cring E2_field) |}.
  - intros x y X Y H. exact (rep2_inj x y X Y H).
  - intros x y X Y. exact (fp2_peq_spec x y X Y).
  - intros x y X Y. exact (fp2_cteq_spec x y).
  - intros x y c X Y. exact (fp2_select_spec x y c X Y).
  - intros x X H. rewrite rep2_pair. apply pair2_zero; [exact X|]. exact (inv_none x X H).
  - intros x X H Z0. rewrite rep2_pair in Z0. apply pair2_zero in Z0; [|exact X].
    exact (eq_true_false_abs _ Z0 H).
Defined.

(** ** Refinement *)

Section Chord.
Context {A : Type} {FE : FieldElement A} {CO : Coord A} (E : CField) {CR : CoordRep A E}.
Add Field EfieldG2 : (cfield_theory E).

Lemma g2_chord_ok (P Q : point A) a b c d e f :
  pt_ok E P = true -> pt_ok E Q = true -> rep_ok a = true -> rep_ok b = true ->
  rep_ok c = true -> rep_ok d = true -> rep_ok e = true -> rep_ok f = true ->
  pt_ok E (chord P Q a b c d e f) = true.
Proof.
  intros (? & ? & ?)%pt_ok_iff (? & ? & ?)%pt_ok_iff ? ? ? ? ? ?. unfold chord; cbv zeta.
  apply pt_ok_iff. cbn [px py pz]. auto 20 with rep.
Qed.

Lemma cf_one_nonzero : r1 <> (r0 : E).
Proof. exact (F_1_neq_0 (cfield_theory E)). Qed.

Lemma g2_chord_aff (P Q : point A) :
  pt_ok E P = true -> pt_ok E Q = true -> rep (pz P) <> r0 -> rep (pz Q) <> r0 ->
  let z1_2 := fe_square (pz P) in let z2_2 := fe_square (pz Q) in
  let u1 := fe_mul (px P) z2_2 in let u2 := fe_mul (px Q) z1_2 in
  let s1 := fe_mul (py P) (fe_mul z2_2 (pz Q)) in let s2 := fe_mul (py Q) (fe_mul z1_2 (pz P)) in
  rep u1 <> rep u2 ->
  aff E (chord P Q z1_2 z2_2 u1 u2 s1 s2) = aff_add E (aff E P) (aff E Q).
Proof.
  intros (? & ? & ?)%pt_ok_iff (? & ? & ?)%pt_ok_iff ZP' ZQ. cbv zeta. rep_push. intros U.
  unfold aff at 2 3. rewrite <- (jac_add_chord E) with (k := r1); try assumption; [|apply cf_one_nonzero].
  share u1 (fe_mul (px P) (fe_square (pz Q))) as Eu1. share u2 (fe_mul (px Q) (fe_square (pz P))) as Eu2.
  share s1 (fe_mul (py P) (fe_mul (fe_square (pz Q)) (pz Q))) as Es1.
  share s2 (fe_mul (py Q) (fe_mul (fe_square (pz P)) (pz P))) as Es2.
  unfold aff, chord; cbv zeta. cbn [px py pz].
  share h (fe_sub u2 u1) as Eh. share r (fe_sub s2 s1) as Er.
  share i (fe_square h) as Ei. share j (fe_mul h i) as Ej. share v (fe_mul u1 i) as Ev.
  share x3 (fe_sub (fe_sub (fe_square r) j) (fe_double v)) as Ex3.
  rep_push. rewrite Ex3, Ev, Ej, Ei, Er, Eh, Es2, Es1, Eu2, Eu1. f_equal; ring.
Qed.
End Chord.

Lemma g2_rep : @rep Fp2 _ E2_field (cr_rep (CoordRep := CoordRep_Fp2)) = @rep Fp2 _ E2 rep2.
Proof. reflexivity. Qed.
Lemma g2_rep_ok : @rep_ok Fp2 _ E2_field (cr_rep (CoordRep := CoordRep_Fp2)) = fp2_canonical.
Proof. reflexivity. Qed.

(** [5 u] *)
Definition b2 : E2_field := (Zmod.zero, Zmod.of_Z p 5).

Lemma is_on_curve_g2_unfold x y :
  is_on_curve_g2 x y = peq (fe_square y) (fe_add (fe_mul (fe_square x) x) (Fp2.new fe_ZERO curve_b)).
Proof. unfold is_on_curve_g2. cbv zeta. cbn [peq Coord_Fp2]. reflexivity. Qed.

Lemma b_u_spec : fp2_canonical (Fp2.new fe_ZERO curve_b) = true /\ pair2 (Fp2.new fe_ZERO curve_b) = b2.
Proof.
  destruct curve_b_spec as [Ob Vb]. destruct fp_zero_spec as [Oz Vz]. split.
  - apply fp2_canonical_iff. cbn [Fp2.new c0 c1]. split; [exact Oz|exact Ob].
  - unfold pair2. cbn [Fp2.new c0 c1]. rewrite Vb. cbn [fe_ZERO FieldElement_Fp]. rewrite Vz. reflexivity.
Qed.

Lemma is_on_curve_g2_spec x y :
  fp2_canonical x = true -> fp2_canonical y = true ->
  (is_on_curve_g2 x y = true <-> on_curve E2_field b2 (Aff (pair2 x : E2_field) (pair2 y))).
Proof.
  intros X Y. destruct b_u_spec as [Ob Vb]. rewrite is_on_curve_g2_unfold.
  rewrite <- g2_rep_ok in *. rewrite (on_curve_check E2_field) by assumption.
  rewrite g2_rep, !rep2_pair, Vb. reflexivity.
Qed.

Lemma g2_on_curve_spec P :
  pt_ok E2_field P = true -> (is_on_curve P = true <-> on_curve E2_field b2 (aff E2_field P)).
Proof.
  intros Ok. unfold is_on_curve, to_affine.
  pose proof (aff_identity E2_field P Ok) as I. change (is_identity P) with (j_is_identity P).
  destruct (j_is_identity P) eqn:E; [rewrite (proj1 I eq_refl); cbn; tauto|].
  pose proof (j_to_affine_spec E2_field P Ok) as T. destruct (j_to_affine P) as [[x y]|].
  - destruct T as (X & Y & ->). rewrite g2_rep, !rep2_pair. rewrite g2_rep_ok in X, Y. now apply is_on_curve_g2_spec.
  - apply I in T. discriminate.
Qed.

Lemma from_raw_val a :
  wf256 a = true -> (eval a mod p =? 0) = false ->
  fp_ok (from_raw a) = true /\ val (from_raw a) = Zmod.of_Z p (eval a).
Proof. intros W L. apply from_raw_spec; [now apply wf256_iff|right; now apply Z.eqb_neq]. Qed.

Definition gen_x : E2_field := (Zmod.of_Z p (eval P2_X0), Zmod.of_Z p (eval P2_X1)).
Definition gen_y : E2_field := (Zmod.of_Z p (eval P2_Y0), Zmod.of_Z p (eval P2_Y1)).

Lemma g2_from_affine_spec x y :
  fp2_canonical x = true -> fp2_canonical y = true ->
  pt_ok E2_field (from_affine x y) = true /\ aff E2_field (from_affine x y) = Aff (pair2 x : E2_field) (pair2 y).
Proof.
  intros X Y. destruct (ev2_one E2 (FieldRep_Fp E2 phi2) gen_u gen_u_spec) as [O1 V1]. split.
  - apply pt_ok_iff. cbn [from_affine j_from_affine px py pz]. split; [exact X|]. split; [exact Y|exact O1].
  - rewrite <- !rep2_pair. exact (jac_one E2_field _ _ _ V1).
Qed.

Lemma fp2_from_raw a b :
  wf256 a = true -> (eval a mod p =? 0) = false -> wf256 b = true -> (eval b mod p =? 0) = false ->
  let x := Fp2.new (from_raw a) (from_raw b) in
  fp2_canonical x = true /\ pair2 x = (Zmod.of_Z p (eval a), Zmod.of_Z p (eval b)).
Proof.
  intros Wa La Wb Lb. cbv zeta. destruct (from_raw_val a Wa La) as [Oa Va]. destruct (from_raw_val b Wb Lb) as [Ob Vb].
  split; [apply fp2_canonical_iff; now split|]. unfold pair2. cbn [Fp2.new c0 c1]. now rewrite Va, Vb.
Qed.

Lemma g2_generator_spec : pt_ok E2_field g2_generator = true /\ aff E2_field g2_generator = Aff gen_x gen_y.
Proof.
  destruct (fp2_from_raw P2_X0 P2_X1) as [Ox Vx]; [vm_compute; reflexivity..|].
  destruct (fp2_from_raw P2_Y0 P2_Y1) as [Oy Vy]; [vm_compute; reflexivity..|].
  destruct (g2_from_affine_spec _ _ Ox Oy) as [O V]. rewrite Vx, Vy in V. split; [exact O|exact V].
Qed.

Lemma e2_eq (x y : E2) :
  Zmod.to_Z (fst x) = Zmod.to_Z (fst y) -> Zmod.to_Z (snd x) = Zmod.to_Z (snd y) -> x = y.
Proof. destruct x, y. cbn [fst snd]. intros H1%Zmod.to_Z_inj H2%Zmod.to_Z_inj. now rewrite H1, H2. Qed.

Lemma g2_generator_on_curve : on_curve E2_field b2 (aff E2_field g2_generator).
Proof. rewrite (proj2 g2_generator_spec). apply e2_eq; vm_compute; reflexivity. Qed.

(** ** Properties *)

(** C22. The Jacobian operations of the twist G2 are the chord-and-tangent group law
    over [Fp2], a field with [u^2 = -2]: on all points with canonical coordinates,
    doubling, addition (the branching and the constant-time versions, on every
    case) and negation represent the affine result, equality of points is equality
    of the affine points, and [to_affine] gives the affine coordinates. *)
Theorem g2_group_law (P Q : G2Point) :
  pt_ok E2_field P = true -> pt_ok E2_field Q = true ->
  let A := aff E2_field in
  A identity = Inf /\
  (pt_ok E2_field (double P) = true /\ A (double P) = aff_double E2_field (A P)) /\
  (pt_ok E2_field (double_ct P) = true /\ A (double_ct P) = aff_double E2_field (A P)) /\
  (pt_ok E2_field (add P Q) = true /\ A (add P Q) = aff_add E2_field (A P) (A Q)) /\
  (pt_ok E2_field (add_ct P Q) = true /\ A (add_ct P Q) = aff_add E2_field (A P) (A Q)) /\
  (pt_ok E2_field (neg P) = true /\ A (neg P) = aff_neg E2_field (A P)) /\
  (g2_eq P Q = true <-> A P = A Q) /\
  match to_affine P with
  | None => A P = Inf
  | Some (x, y) =>
      fp2_canonical x = true /\ fp2_canonical y = true /\ A P = Aff (pair2 x : E2_field) (pair2 y)
  end.
Proof.
  intros HP HQ. cbv zeta.
  split; [apply identity_spec|]. split; [now apply j_double_spec|]. split; [now apply j_double_ct_spec|].
  split; [apply j_add_spec; auto using g2_chord_ok, g2_chord_aff|].
  split; [apply j_add_ct_spec; auto using g2_chord_ok, g2_chord_aff|].
  split; [now apply j_neg_spec|]. split; [now apply j_eq_spec|].
  pose proof (j_to_affine_spec E2_field P HP) as T. unfold to_affine. destruct (j_to_affine P) as [[x y]|]; [|exact T].
  destruct T as (X & Y & T). rewrite g2_rep, !rep2_pair in T. split; [exact X|]. split; [exact Y|exact T].
Qed.

Lemma g2_group_law_witness :
  aff E2_field (add g2_generator g2_generator) =
    aff_add E2_field (aff E2_field g2_generator) (aff E2_field g2_generator) /\
  aff E2_field (add_ct g2_generator identity) =
    aff_add E2_field (aff E2_field g2_generator) (aff E2_field identity).
Proof.
  destruct (g2_group_law g2_generator g2_generator) as (_ & _ & _ & [_ D] & _);
    [apply g2_generator_spec|apply g2_generator_spec|].
  destruct (g2_group_law g2_generator identity) as (_ & _ & _ & _ & [_ Z] & _);
    [apply g2_generator_spec|apply identity_spec|].
  split; [exact D|exact Z].
Defined.

(** Constant-time scalar multiplication on G2 computes the multiple by the
    256-bit scalar and stays on the twist [y^2 = x^3 + 5u] that [is_on_curve]
    decides; the generator of the standard is on it. *)
Theorem g2_scalar_mul (P : G2Point) (k : Z256) :
  pt_ok E2_field P = true -> wf256 k = true ->
  (pt_ok E2_field (scalar_mul P k) = true /\
   aff E2_field (scalar_mul P k) = aff_mul E2_field (eval k) (aff E2_field P)) /\
  (is_on_curve P = true <-> on_curve E2_field b2 (aff E2_field P)) /\
  (is_on_curve P = true -> is_on_curve (scalar_mul P k) = true) /\
  (pt_ok E2_field g2_generator = true /\ is_on_curve g2_generator = true).
Proof.
  rewrite wf256_iff. intros HP Wk.
  assert (S : pt_ok E2_field (scalar_mul_ct P k) = true /\
              aff E2_field (scalar_mul_ct P k) = aff_mul E2_field (eval k) (aff E2_field P)).
  { apply j_scalar_mul_ct_spec; auto using g2_chord_ok, g2_chord_aff. }
  change (scalar_mul P k) with (scalar_mul_ct P k). destruct S as [O E].
  split; [now split|]. split; [now apply g2_on_curve_spec|]. split.
  - intros C. apply g2_on_curve_spec in C; [|assumption]. apply g2_on_curve_spec; [assumption|].
    rewrite E. exact (aff_mul_on_curve E2_field b2 _ _ C).
  - split; [apply g2_generator_spec|apply g2_on_curve_spec; [apply g2_generator_spec|apply g2_generator_on_curve]].
Qed.

Lemma g2_scalar_mul_witness :
  aff E2_field (scalar_mul g2_generator N) = aff_mul E2_field (eval N) (aff E2_field g2_generator) /\
  is_on_curve (scalar_mul g2_generator N) = true.
Proof.
  destruct (g2_scalar_mul g2_generator N) as ([_ E] & _ & C & [_ G]); [apply g2_generator_spec|reflexivity|].
  split; [exact E|exact (C G)].
Defined.
