(* ===== verification/Sm9Hash.v ===== *)
(** The hash functions of SM9 (gm-sm9-rs/src/pairing/hash.rs).

    [hash1] and [hash2] hash twice with SM3, a parameter here, and map the first
    40 bytes of the result to a scalar by a Barrett reduction modulo the order
    [N]. The [u128] additions of the reduction stop a debug build when they
    overflow: [None] in the model, as is a loop that does not end. *)

From Stdlib Require Import Bool ZArith Lia List.
From S2P Require Import Prelude Bytes Z256.
Import ListNotations.
Open Scope Z_scope.

(** ** Column products and carries *)

Definition add_u128 (a b : Z) : option Z := if a + b <? 2 ^ 128 then Some (a + b) else None.

(** [t[i + j] += x[i] * y[j]] *)
Definition column_step (x y : list Z) (i j : nat) (t : option (list Z)) : option (list Z) :=
  match t with
  | Some t =>
      match add_u128 (limb t (i + j)) (limb x i * limb y j) with
      | Some s => Some (upd (i + j) s t)
      | None => None
      end
  | None => None
  end.

Definition columns (n m size : nat) (x y : list Z) : option (list Z) :=
  for_range n (fun i => for_range m (fun j => column_step x y i j)) (Some (repeat 0 size)).

Definition carry_step (cols : list Z) (i : nat) (s : option (list Z * Z)) : option (list Z * Z) :=
  match s with
  | Some (r, carry) =>
      match add_u128 (limb cols i) carry with
      | Some v => Some (upd i (as_u64 v) r, Z.shiftr v 64)
      | None => None
      end
  | None => None
  end.

Definition carries (size : nat) (cols : list Z) : option (list Z) :=
  match for_range size (carry_step cols) (Some (repeat 0 size, 0)) with
  | Some (r, _) => Some r
  | None => None
  end.

(** ** The reduction *)

Definition MU : list Z := [0x55F73AEBDCD1312C; 0x67980E0BEB5759A6; 1; 0; 0; 0].

Definition borrow_step (z qn : list Z) (i : nat) (s : list Z * Z) : list Z * Z :=
  let '(r, borrow) := s in
  let zi := limb z i in
  let sub := limb qn i + borrow in
  if sub <=? zi then (upd i (as_u64 (zi - sub)) r, 0)
  else (upd i (as_u64 (zi + 2 ^ 64 - sub)) r, 1).

Definition add_back_step (i : nat) (s : list Z * Z) : list Z * Z :=
  let '(r, carry) := s in
  let '(s1, c1) := overflowing_add (limb r i) (limb N i) in
  let '(s2, c2) := overflowing_add s1 carry in
  (upd i s2 r, Z.b2z c1 + Z.b2z c2).

(** [while cmp(&acc, &n) >= 0] *)
Definition final_step (acc : Z256) : Z256 + Z256 :=
  if 0 <=? cmp acc N then inl (fst (sub_with_borrow acc N)) else inr acc.

Definition hash_words (ha : bytes) : list Z :=
  let word i := from_be (firstn 8 (skipn (i * 8) ha)) in
  [word 4%nat; word 3%nat; word 2%nat; word 1%nat; word 0%nat].

Definition modn_from_hash (ha : bytes) : option Z256 :=
  let z := hash_words ha in
  match columns 5 3 11 z MU with
  | None => None
  | Some product =>
  match carries 11 product with
  | None => None
  | Some prod =>
  let q := [limb prod 6; limb prod 7; limb prod 8; limb prod 9] in
  match columns 4 4 8 q N with
  | None => None
  | Some qn =>
  match carries 8 qn with
  | None => None
  | Some qn_result =>
  let '(r, borrow) := for_range 4 (borrow_step z qn_result) ([0; 0; 0; 0], 0) in
  let sub4 := limb qn_result 4 + borrow in
  let r := if limb z 4 <? sub4 then fst (for_range 4 add_back_step (r, 0)) else r in
  match iter_loop 256 final_step r with
  | inl _ => None
  | inr acc =>
  let '(result, carry) := add_with_carry acc ONE in
  Some (if negb (carry =? 0) || (0 <=? cmp result N) then fst (sub_with_borrow result N) else result)
  end end end end end.

(** ** The hash functions *)

Section Hashes.
Variable sm3 : bytes -> bytes.

Definition hash1 (identity : bytes) (hid : Z) : option Z256 :=
  let ha := sm3 ([1] ++ identity ++ [hid] ++ [0; 0; 0; 1]) ++ sm3 ([1] ++ identity ++ [hid] ++ [0; 0; 0; 2]) in
  modn_from_hash ha.

Definition hash2 (message w_bytes : bytes) : option Z256 :=
  let ha := sm3 ([2] ++ message ++ w_bytes ++ [0; 0; 0; 1]) ++ sm3 ([2] ++ message ++ w_bytes ++ [0; 0; 0; 2]) in
  modn_from_hash ha.
End Hashes.

(** ** Lemmas *)

Lemma add_u128_ok a b : a + b < 2 ^ 128 -> add_u128 a b = Some (a + b).
Proof. intros H. unfold add_u128. now rewrite (proj2 (Z.ltb_lt _ _) H). Qed.

Lemma firstn_upd n x l : firstn n (upd n x l) = firstn n l.
Proof. revert l. induction n; intros [|h l]; cbn [upd firstn]; [reflexivity..|]. now rewrite IHn. Qed.

Definition small_col (x : Z) : Prop := 0 <= x <= 2 ^ 128 - 2 ^ 64.

Lemma carry_steps n size cols :
  List.length cols = size -> Forall small_col cols -> (n <= size)%nat ->
  exists r c,
    for_range n (carry_step cols) (Some (repeat 0 size, 0)) = Some (r, c) /\
    wf_limbs size r /\ 0 <= c < 2 ^ 64 /\
    eval (firstn n r) + 2 ^ (64 * Z.of_nat n) * c = eval (firstn n cols).
Proof.
  intros L F. induction n as [|n IH]; intros Le.
  - exists (repeat 0 size), 0. cbn [for_range]. unfold for_range; cbn [seq fold_left firstn eval].
    split; [reflexivity|]. split; [split; [apply repeat_length|]|lia].
    apply Forall_forall. intros x ->%repeat_spec. lia.
  - destruct IH as (r & c & E & W & C & V); [lia|]. unfold for_range in *.
    rewrite seq_S, fold_left_app, E. cbn [fold_left Nat.add carry_step].
    assert (Sc : small_col (limb cols n)) by (eapply Forall_forall; [exact F|apply nth_In; lia]).
    unfold small_col in Sc. rewrite add_u128_ok by lia. set (v := limb cols n + c).
    exists (upd n (as_u64 v) r), (Z.shiftr v 64). rewrite Z.shiftr_div_pow2 by lia.
    assert (M : 0 <= as_u64 v < 2 ^ 64) by (apply Z.mod_pos_bound; lia).
    assert (D : v = 2 ^ 64 * (v / 2 ^ 64) + as_u64 v) by (apply Z.div_mod; lia).
    split; [reflexivity|]. split; [now apply wf_upd|]. split; [subst v; lia|].
    destruct W as [Lr _].
    rewrite eval_firstn_S, (eval_firstn_S n cols) by (rewrite ?length_upd; lia).
    rewrite limb_upd_eq by lia. rewrite firstn_upd.
    replace (64 * Z.of_nat (S n)) with (64 + 64 * Z.of_nat n) by lia. rewrite Z.pow_add_r by lia.
    rewrite <- V. subst v. nia.
Qed.

Lemma carries_spec size cols :
  List.length cols = size -> Forall small_col cols -> eval cols < 2 ^ (64 * Z.of_nat size) ->
  exists r, carries size cols = Some r /\ wf_limbs size r /\ eval r = eval cols.
Proof.
  intros L F B. destruct (carry_steps size size cols L F (le_n _)) as (r & c & E & W & C & V).
  exists r. unfold carries. rewrite E. split; [reflexivity|]. split; [assumption|].
  rewrite (firstn_wf size r W) in V. rewrite <- L, firstn_all, L in V.
  destruct W as [Lr Fr]. pose proof (eval_bound r Fr) as R. unfold len in R. rewrite Lr in R.
  assert (c = 0) by nia. subst c. lia.
Qed.

(** One column step with concrete indices. *)
Ltac column_steps :=
  repeat (cbn [column_step limb nth Nat.add upd fold_left]; rewrite add_u128_ok by lia).

Lemma columns_MU z0 z1 z2 z3 z4 :
  wf_limbs 5 [z0; z1; z2; z3; z4] ->
  exists cols, columns 5 3 11 [z0; z1; z2; z3; z4] MU = Some cols /\ List.length cols = 11%nat /\
    Forall small_col cols /\ eval cols = eval [z0; z1; z2; z3; z4] * eval MU.
Proof.
  intros [_ F]. repeat (apply Forall_cons_iff in F as [? F]).
  unfold columns, for_range. cbn [seq repeat fold_left]. unfold MU. column_steps.
  eexists. split; [reflexivity|]. split; [reflexivity|]. split.
  - repeat (apply Forall_cons; [unfold small_col; lia|]). apply Forall_nil.
  - cbn [eval]. lia.
Qed.

Lemma columns_N q0 q1 :
  0 <= q0 < 2 ^ 64 -> 0 <= q1 <= 1 ->
  exists cols, columns 4 4 8 [q0; q1; 0; 0] N = Some cols /\ List.length cols = 8%nat /\
    Forall small_col cols /\ eval cols = eval [q0; q1; 0; 0] * eval N.
Proof.
  intros H0 H1. unfold columns, for_range. cbn [seq repeat fold_left]. unfold N. column_steps.
  eexists. split; [reflexivity|]. split; [reflexivity|]. split.
  - repeat (apply Forall_cons; [unfold small_col; lia|]). apply Forall_nil.
  - cbn [eval]. lia.
Qed.

Lemma borrow_steps n z qn :
  (n <= 4)%nat -> wf_limbs 5 z -> wf_limbs 8 qn ->
  exists r b, for_range n (borrow_step z qn) ([0; 0; 0; 0], 0) = (r, b) /\ wf_limbs 4 r /\ 0 <= b <= 1 /\
    eval (firstn n r) - 2 ^ (64 * Z.of_nat n) * b = eval (firstn n z) - eval (firstn n qn).
Proof.
  intros Le Wz Wq. induction n as [|n IH].
  - exists [0; 0; 0; 0], 0. unfold for_range; cbn [seq fold_left firstn eval].
    split; [reflexivity|]. split; [exact wf_ZERO|lia].
  - destruct IH as (r & b & E & W & B & V); [lia|]. unfold for_range in *.
    rewrite seq_S, fold_left_app, E. cbn [fold_left Nat.add]. unfold borrow_step.
    pose proof (wf_limb 5 z n Wz). pose proof (wf_limb 8 qn n Wq). pose proof W as [Lr _].
    rewrite (eval_firstn_S n z), (eval_firstn_S n qn).
    replace (64 * Z.of_nat (S n)) with (64 + 64 * Z.of_nat n) by lia. rewrite Z.pow_add_r by lia.
    destruct (Z.leb_spec (limb qn n + b) (limb z n)); (do 2 eexists; split; [reflexivity|]);
      unfold as_u64; rewrite Z.mod_small by lia;
      (split; [apply wf_upd; [assumption|lia]|]); (split; [lia|]);
      rewrite eval_firstn_S, limb_upd_eq, firstn_upd by lia; nia.
Qed.

Lemma final_loop v :
  wf_limbs 4 v -> exists r, iter_loop 256 final_step v = inr r /\ wf_limbs 4 r /\ eval r = eval v mod eval N.
Proof.
  intros Wv. pose proof wf_N as Wm. assert (HM : 0 < eval N) by reflexivity.
  apply (iter_loop_ends _ (fun s => wf_limbs 4 s /\ eval s mod eval N = eval v mod eval N) _ eval).
  - intros s [Ws Es]. unfold final_step. rewrite cmp_ge by assumption.
    pose proof (wf256_eval_bound s Ws). destruct (Z.leb_spec (eval N) (eval s)).
    + destruct (sub_with_borrow_spec s N Ws Wm) as (d & b & -> & Wd & Cb & E). cbn [fst].
      pose proof (wf256_eval_bound d Wd). pose proof (wf256_eval_bound N Wm).
      assert (b = 0) as -> by lia. split; [|lia]. split; [assumption|]. rewrite <- Es.
      replace (eval d) with (eval s + (-1) * eval N) by lia. apply Z.mod_add. lia.
    + split; [assumption|]. rewrite <- Es. symmetry. apply Z.mod_small. lia.
  - auto.
  - exact (wf256_eval_bound v Wv).
Qed.

(** The estimate of the quotient is at most one too small, and the remainder it
    leaves fits 256 bits. *)
Lemma quotient_320 Z1 :
  0 <= Z1 < 2 ^ 320 ->
  let q := Z1 * eval MU / 2 ^ 384 in
  0 <= q < 2 ^ 65 /\ 0 <= Z1 - q * eval N < 2 ^ 256.
Proof.
  intros H. cbv zeta. pose proof (Z.div_mod (Z1 * eval MU) (2 ^ 384) ltac:(lia)) as D.
  pose proof (Z.mod_pos_bound (Z1 * eval MU) (2 ^ 384) ltac:(lia)) as M.
  set (q := Z1 * eval MU / 2 ^ 384) in *. set (m := (Z1 * eval MU) mod 2 ^ 384) in *. clearbody q m.
  let v := eval vm_compute in (eval MU) in change (eval MU) with v in *.
  let v := eval vm_compute in (eval N) in change (eval N) with v in *. lia.
Qed.

(** The middle limbs of an 11-limb product below [2^449]. *)
Lemma quotient_limbs prod :
  wf_limbs 11 prod -> eval prod < 2 ^ 449 ->
  exists q0 q1, [limb prod 6; limb prod 7; limb prod 8; limb prod 9] = [q0; q1; 0; 0] /\
    0 <= q0 < 2 ^ 64 /\ 0 <= q1 <= 1 /\ eval [q0; q1; 0; 0] = eval prod / 2 ^ 384.
Proof.
  intros [L F] B. do 11 (destruct prod as [|? prod]; [discriminate|]). destruct prod; [|discriminate].
  repeat (apply Forall_cons_iff in F as [? F]). unfold limb; cbn [nth]. cbn [eval] in *.
  exists z5, z6. assert (z7 = 0 /\ z8 = 0 /\ z9 = 0 /\ z6 <= 1) as (-> & -> & -> & ?) by lia.
  split; [reflexivity|]. split; [assumption|]. split; [lia|].
  apply Z.div_unique_pos with (r := z + 2 ^ 64 * (z0 + 2 ^ 64 * (z1 + 2 ^ 64 * (z2 + 2 ^ 64 * (z3 + 2 ^ 64 * z4))))); lia.
Qed.

(** The last step: add one modulo [N]. *)
Lemma add_one_spec acc :
  wf_limbs 4 acc -> eval acc < eval N ->
  exists r c, add_with_carry acc ONE = (r, c) /\
    let v := if negb (c =? 0) || (0 <=? cmp r N) then fst (sub_with_borrow r N) else r in
    wf_limbs 4 v /\ eval v = (eval acc + 1) mod eval N.
Proof.
  intros W L. destruct (add_with_carry_spec acc ONE W wf_ONE) as (r & c & E & Wr & C & V).
  exists r, c. split; [assumption|]. cbv zeta. pose proof (wf256_eval_bound acc W). change (eval ONE) with 1 in V.
  pose proof (wf256_eval_bound r Wr). pose proof (wf256_eval_bound N wf_N). assert (c = 0) as -> by lia.
  cbn [Z.eqb negb orb]. rewrite cmp_ge by (assumption || apply wf_N).
  destruct (Z.leb_spec (eval N) (eval r)).
  - destruct (sub_with_borrow_spec r N Wr wf_N) as (d & b & -> & Wd & B & Vd). cbn [fst].
    pose proof (wf256_eval_bound d Wd).
    split; [assumption|]. replace (eval acc + 1) with (eval N) by lia. rewrite Z.mod_same by lia. lia.
  - split; [assumption|]. rewrite Z.mod_small by lia. lia.
Qed.

Lemma split_hash (ha : bytes) :
  wf_bytes ha = true -> (40 <= List.length ha)%nat ->
  wf_limbs 5 (hash_words ha) /\ eval (hash_words ha) = from_be (firstn 40 ha).
Proof.
  intros W L. set (w i := firstn 8 (skipn (i * 8) ha)).
  assert (Lw : forall i, (i < 5)%nat -> List.length (w i) = 8%nat)
    by (intros i I; unfold w; rewrite length_firstn, length_skipn; lia).
  assert (Ww : forall i, wf_bytes (w i) = true)
    by (intros i; now apply wf_bytes_firstn, wf_bytes_skipn).
  assert (E : firstn 40 ha = w 0%nat ++ w 1%nat ++ w 2%nat ++ w 3%nat ++ w 4%nat).
  { unfold w. rewrite <- (firstn_skipn 40 ha) at 2 3 4 5 6. set (h := firstn 40 ha).
    assert (List.length h = 40%nat) by (unfold h; rewrite length_firstn; lia). clearbody h.
    do 40 (destruct h as [|? h]; [discriminate|]). destruct h; [reflexivity|discriminate]. }
  split.
  - split; [reflexivity|]. unfold hash_words.
    repeat (apply Forall_cons; [apply from_be_word; [apply (Ww _)|apply Lw; lia]|]). apply Forall_nil.
  - rewrite E, !from_be_app. unfold len. rewrite !length_app, !Lw by lia. cbn [Nat.add].
    unfold hash_words. fold (w 0%nat) (w 1%nat) (w 2%nat) (w 3%nat) (w 4%nat). cbn [eval].
    change (256 ^ Z.of_nat 8) with (2 ^ 64). change (256 ^ Z.of_nat 16) with (2 ^ 128).
    change (256 ^ Z.of_nat 24) with (2 ^ 192). change (256 ^ Z.of_nat 32) with (2 ^ 256). lia.
Qed.

Lemma high_limb qn :
  wf_limbs 8 qn -> exists h, 0 <= h /\
    eval qn = eval (firstn 4 qn) + limb qn 4 * 2 ^ 256 + h * 2 ^ 320.
Proof.
  intros [L F]. do 8 (destruct qn as [|? qn]; [discriminate|]). destruct qn; [|discriminate].
  repeat (apply Forall_cons_iff in F as [? F]). unfold limb; cbn [nth firstn eval].
  exists (z4 + 2 ^ 64 * (z5 + 2 ^ 64 * z6)). lia.
Qed.

Lemma modn_spec ha :
  wf_bytes ha = true -> (40 <= List.length ha)%nat ->
  exists r, modn_from_hash ha = Some r /\ wf_limbs 4 r /\
    eval r = (from_be (firstn 40 ha) + 1) mod eval N.
Proof.
  intros W L. destruct (split_hash ha W L) as [Wz Ez]. unfold modn_from_hash. rewrite <- Ez. clear Ez W L.
  set (z := hash_words ha) in *. clearbody z. clear ha.
  assert (Bz : 0 <= eval z < 2 ^ 320) by (destruct Wz as [Lz Fz]; pose proof (eval_bound z Fz) as B;
    unfold len in B; rewrite Lz in B; exact B).
  assert (C : exists cols, columns 5 3 11 z MU = Some cols /\ List.length cols = 11%nat /\
    Forall small_col cols /\ eval cols = eval z * eval MU).
  { pose proof Wz as [Lz _]. do 5 (destruct z as [|? z]; [discriminate|]). destruct z; [|discriminate].
    now apply columns_MU. }
  destruct C as (cols & -> & Lc & Fc & Ec).
  assert (BM : 0 <= eval MU < 2 ^ 129) by (vm_compute; split; congruence).
  destruct (carries_spec 11 cols Lc Fc) as (prod & -> & Wp & Ep); [rewrite Ec; change (64 * Z.of_nat 11) with 704; nia|].
  cbv zeta.
  destruct (quotient_limbs prod Wp) as (q0 & q1 & -> & Q0 & Q1 & Eq); [rewrite Ep, Ec; nia|].
  rewrite Ep, Ec in Eq. destruct (quotient_320 (eval z) Bz) as [Bq Br]. rewrite <- Eq in Bq, Br.
  destruct (columns_N q0 q1 Q0 Q1) as (qc & -> & Lq & Fq & Eqc).
  destruct (carries_spec 8 qc Lq Fq) as (qn & -> & Wq & Eqn);
    [rewrite Eqc; change (64 * Z.of_nat 8) with 512; pose proof (wf256_eval_bound N wf_N); nia|].
  rewrite Eqc in Eqn. set (q := eval [q0; q1; 0; 0]) in *. clearbody q. clear Eqc Fq Lq qc Q0 Q1 Eq Ep Wp prod Lc Fc Ec cols.
  destruct (borrow_steps 4 z qn (le_n _) Wz Wq) as (r & b & -> & Wr & B & V).
  rewrite (firstn_wf 4 r Wr) in V. change (64 * Z.of_nat 4) with 256 in V.
  pose proof (eval_firstn_S 4 z) as Sz. rewrite (firstn_wf 5 z Wz) in Sz.
  destruct (high_limb qn Wq) as (h & Hh & Sq). change (64 * Z.of_nat 4) with 256 in *.
  pose proof (wf256_eval_bound r Wr). pose proof (wf_limb 5 z 4 Wz). pose proof (wf_limb 8 qn 4 Wq).
  destruct (Z.ltb_spec (limb z 4) (limb qn 4 + b)); [nia|].
  assert (Er : eval r = eval z - q * eval N) by nia.
  destruct (final_loop r Wr) as (acc & -> & Wa & Ea).
  destruct (add_one_spec acc Wa) as (s & c & -> & Ws & Es); [rewrite Ea; now apply Z.mod_pos_bound|].
  eexists. split; [reflexivity|]. split; [exact Ws|]. rewrite Es, Ea, Er.
  rewrite Z.add_mod_idemp_l by (vm_compute; congruence).
  replace (eval z - q * eval N + 1) with (eval z + 1 + (- q) * eval N) by ring. apply Z.mod_add. vm_compute. congruence.
Qed.

(** ** Properties *)

(** A 64-byte input with the value [N - 1] in its first 40 bytes. *)
Definition zero_preimage : bytes := repeat 0 8 ++ be_bytes 32 (eval N - 1) ++ repeat 0 24.

Lemma mod_succ_zero x n : 1 < n -> ((x + 1) mod n = 0 <-> x mod n = n - 1).
Proof.
  intros H. pose proof (Z.mod_pos_bound x n ltac:(lia)). rewrite <- Z.add_mod_idemp_l by lia.
  destruct (Z.eq_dec (x mod n) (n - 1)) as [->|Ne].
  - replace (n - 1 + 1) with n by lia. rewrite Z.mod_same by lia. tauto.
  - rewrite Z.mod_small by lia. lia.
Qed.

Lemma modn_digests sm3 a b :
  digest32 sm3 ->
  let H := from_be (firstn 40 (sm3 a ++ sm3 b)) in
  exists r, modn_from_hash (sm3 a ++ sm3 b) = Some r /\ wf256 r = true /\
    eval r = (H + 1) mod eval N /\ 0 <= eval r < eval N /\ (eval r = 0 <-> H mod eval N = eval N - 1).
Proof.
  intros D. cbv zeta. destruct (D a) as [Wa La], (D b) as [Wb Lb].
  destruct (modn_spec (sm3 a ++ sm3 b)) as (r & -> & W & E).
  - now rewrite wf_bytes_app, Wa, Wb.
  - rewrite length_app, La, Lb. lia.
  - assert (B : 1 < eval N) by reflexivity.
    exists r. rewrite wf256_iff, E, mod_succ_zero by assumption.
    split; [reflexivity|]. split; [assumption|]. split; [reflexivity|]. split; [apply Z.mod_pos_bound; lia|tauto].
Qed.

(** For every digest function with 32-byte outputs, [hash1] and [hash2] return
    (no [u128] addition overflows, the loop ends) the scalar
    [(H + 1) mod N], [H] the first 40 bytes of the two digests over the inputs
    with counters 1 and 2. It is below [N], and it is 0 exactly when
    [H mod N = N - 1], a case the mapping does reach, so the range is not the
    [[1, N-1]] its comment promises. *)
Theorem sm9_hashes_correct (sm3 : bytes -> bytes) (identity : bytes) (hid : Z) (message w : bytes) :
  digest32 sm3 ->
  let H t m := from_be (firstn 40 (sm3 ([t] ++ m ++ [0; 0; 0; 1]) ++ sm3 ([t] ++ m ++ [0; 0; 0; 2]))) in
  (exists r, hash1 sm3 identity hid = Some r /\ wf256 r = true /\
     eval r = (H 1 (identity ++ [hid]) + 1) mod eval N /\ 0 <= eval r < eval N /\
     (eval r = 0 <-> H 1 (identity ++ [hid]) mod eval N = eval N - 1)) /\
  (exists r, hash2 sm3 message w = Some r /\ wf256 r = true /\
     eval r = (H 2 (message ++ w) + 1) mod eval N /\ 0 <= eval r < eval N) /\
  (List.length zero_preimage = 64%nat /\ modn_from_hash zero_preimage = Some ZERO).
Proof.
  intros D. cbv zeta. split; [|split].
  - unfold hash1. rewrite <- !app_assoc. apply (modn_digests sm3 _ _ D).
  - unfold hash2. rewrite <- !app_assoc.
    destruct (modn_digests sm3 ([2] ++ message ++ w ++ [0; 0; 0; 1]) ([2] ++ message ++ w ++ [0; 0; 0; 2]) D)
      as (r & E & W & V & B & _). exists r. auto.
  - split; [reflexivity|].
    destruct (modn_spec zero_preimage) as (r & -> & W & E); [vm_compute; reflexivity|vm_compute; lia|].
    f_equal. apply (eval_inj 4); [assumption|apply wf_ZERO|]. rewrite E. vm_compute. reflexivity.
Qed.

Lemma sm9_hashes_correct_witness :
  exists r, hash1 (fun m => repeat (as_u8 (len m)) 32) [65; 66] 1 = Some r /\ 0 <= eval r < eval N.
Proof.
  destruct (sm9_hashes_correct (fun m => repeat (as_u8 (len m)) 32) [65; 66] 1 [] []) as [(r & E & _ & _ & B & _) _].
  - intros m. split; [|apply repeat_length]. apply forallb_forall. intros x ->%repeat_spec.
    apply is_byte_iff, as_u8_range.
  - exists r. split; [exact E|exact B].
Defined.
