(* ===== verification/Frobenius.v ===== *)
(** The [p]-power map on rings over the integers modulo [p].

    [(x + y)^p = x^p + y^p], so evaluating an [Fp12] element at [w^p] is raising
    its value at [w] to the [p]: the Frobenius functions of
    gm-sm9-rs/src/arith/fp12.rs compute powers. The pairing uses these facts. *)

From Stdlib Require Import Bool ZArith Lia List Zmod Ring.
From S2P Require Import Prelude Z256 Primality Fp FieldRep Fp2 Fp4 Fp12.
Import ListNotations.
Open Scope Z_scope.

(** ** Binomial coefficients *)

Fixpoint choose (n k : nat) : Z :=
  match n, k with
  | _, O => 1
  | O, S _ => 0
  | S m, S j => choose m j + choose m (S j)
  end.

Lemma choose_0 n : choose n 0 = 1.
Proof. now destruct n. Qed.

Lemma choose_large n k : (n < k)%nat -> choose n k = 0.
Proof.
  revert k. induction n as [|n IH]; intros [|k] H; try lia; [reflexivity|].
  cbn [choose]. rewrite !IH by lia. lia.
Qed.

Lemma choose_diag n : choose n n = 1.
Proof. induction n as [|n IH]; [reflexivity|]. cbn [choose]. rewrite IH, choose_large by lia. lia. Qed.

Lemma choose_absorb n k : Z.of_nat (S k) * choose (S n) (S k) = Z.of_nat (S n) * choose n k.
Proof.
  revert k. induction n as [|n IH]; intros k.
  - destruct k; [reflexivity|]. cbn [choose]. lia.
  - change (choose (S (S n)) (S k)) with (choose (S n) k + choose (S n) (S k)).
    destruct k as [|k].
    + specialize (IH 0%nat). rewrite choose_0 in *. lia.
    + pose proof (IH k) as A. pose proof (IH (S k)) as B.
      change (choose (S n) (S k)) with (choose n k + choose n (S k)) in *. lia.
Qed.

Lemma choose_prime_div n k : Z.prime (Z.of_nat n) -> (0 < k < n)%nat -> (Z.of_nat n | choose n k).
Proof.
  intros Pr K. destruct n as [|n], k as [|k]; try lia.
  pose proof (choose_absorb n k) as A.
  assert (D : (Z.of_nat (S n) | Z.of_nat (S k) * choose (S n) (S k))) by (rewrite A; apply Z.divide_factor_l).
  apply Z.divide_prime_mul in D; [|assumption]. destruct D as [D|D]; [|assumption].
  apply Z.divide_pos_le in D; lia.
Qed.

(** ** The binomial expansion in a ring over the integers modulo [p] *)

Section Powers.
Context (E : CRing) (f : from_ZP E).
Add Ring EringFr : (rth E).

Lemma rpow_add (x : E) n m : rpow x (n + m) = rmul (rpow x n) (rpow x m).
Proof. apply mpow_add; intros; ring. Qed.

Lemma rpow_mul (x : E) n m : rpow x (n * m) = rpow (rpow x n) m.
Proof. apply mpow_mul. Qed.

Lemma rpow_S (x : E) n : rpow x (S n) = rmul x (rpow x n).
Proof. reflexivity. Qed.

Lemma rpow_1 (n : nat) : rpow (@r1 E) n = r1.
Proof. induction n; [reflexivity|]. rewrite rpow_S, IHn. ring. Qed.

Lemma rpow_0 (n : nat) : n <> 0%nat -> rpow (@r0 E) n = r0.
Proof. destruct n; [easy|]. intros _. rewrite rpow_S. ring. Qed.

Lemma rpow_rmul (x y : E) n : rpow (rmul x y) n = rmul (rpow x n) (rpow y n).
Proof. induction n; [unfold rpow, mpow; cbn; ring|]. rewrite !rpow_S, IHn. ring. Qed.

(** An integer in the ring. *)
Definition zz (k : Z) : E := f (Zmod.of_Z p k).

Lemma zz_add a b : zz (a + b) = radd (zz a) (zz b).
Proof. unfold zz. rewrite Zmod.of_Z_add. apply phi_add. Qed.

(** [sum_(k <= n) c k x^k y^(n-k)] *)
Fixpoint hsum (x y : E) (c : nat -> Z) (n : nat) : E :=
  match n with
  | O => zz (c 0%nat)
  | S m => radd (rmul (zz (c 0%nat)) (rpow y (S m))) (rmul x (hsum x y (fun k => c (S k)) m))
  end.

Lemma hsum_ext x y c d n : (forall k, c k = d k) -> hsum x y c n = hsum x y d n.
Proof. intros H. revert c d H. induction n; intros c d H; cbn [hsum]; rewrite H; [reflexivity|]. now rewrite (IHn _ (fun k => d (S k))). Qed.

Lemma hsum_add x y c d n : hsum x y (fun k => c k + d k) n = radd (hsum x y c n) (hsum x y d n).
Proof.
  revert c d. induction n; intros c d; cbn [hsum]; rewrite zz_add; [reflexivity|].
  rewrite (IHn (fun k => c (S k)) (fun k => d (S k))). ring.
Qed.

Lemma zz_0 : zz 0 = r0.
Proof. exact (phi_0 E f). Qed.
Lemma zz_1 : zz 1 = r1.
Proof. exact (phi_1 E f). Qed.

Lemma hsum_top x y c n : c (S n) = 0 -> hsum x y c (S n) = rmul y (hsum x y c n).
Proof.
  revert c. induction n as [|n IH]; intros c H.
  - cbn [hsum]. rewrite H, zz_0. unfold rpow, mpow; cbn [Nat.iter nat_rect]. ring.
  - change (hsum x y c (S (S n))) with
      (radd (rmul (zz (c 0%nat)) (rpow y (S (S n)))) (rmul x (hsum x y (fun k => c (S k)) (S n)))).
    rewrite IH by assumption. cbn [hsum]. rewrite (rpow_S y (S n)). ring.
Qed.

Lemma binomial x y n : rpow (radd x y) n = hsum x y (choose n) n.
Proof.
  induction n as [|n IH]; [symmetry; exact zz_1|].
  rewrite rpow_S, IH. cbn [hsum].
  rewrite (hsum_ext _ _ (fun k => choose (S n) (S k)) (fun k => choose n k + choose n (S k))) by reflexivity.
  rewrite hsum_add.
  pose proof (hsum_top x y (choose n) n (choose_large n (S n) (le_n _))) as T. cbn [hsum] in T.
  rewrite choose_0 in *. transitivity (radd (rmul x (hsum x y (choose n) n)) (rmul y (hsum x y (choose n) n))); [ring|].
  rewrite <- T. ring.
Qed.

Lemma hsum_last x y c n : (forall k, (k < n)%nat -> zz (c k) = r0) -> zz (c n) = r1 -> hsum x y c n = rpow x n.
Proof.
  revert c. induction n as [|n IH]; intros c H L; cbn [hsum]; [exact L|].
  rewrite (H 0%nat), IH by (try intros; try apply H; try assumption; lia). rewrite (rpow_S x n). ring.
Qed.

(** The exponent [p] as a natural number, never computed. *)
Lemma rpow_p_add (x y : E) :
  rpow (radd x y) (Z.to_nat p) = radd (rpow x (Z.to_nat p)) (rpow y (Z.to_nat p)).
Proof.
  remember (Z.to_nat p) as n eqn:En. assert (Zn : Z.of_nat n = p) by (pose proof p_gt_1; lia).
  assert (Zc : forall k, (0 < k < n)%nat -> zz (choose n k) = r0).
  { intros k K. destruct (choose_prime_div n k) as [q Hq]; [rewrite Zn; exact p_prime|assumption|].
    unfold zz. rewrite Hq, Zn. rewrite <- (phi_0 E f). f_equal. apply Zmod.to_Z_inj.
    rewrite Zmod.to_Z_of_Z, Z.mod_mul, Zmod.to_Z_0 by (pose proof p_gt_1; lia). reflexivity. }
  rewrite binomial. pose proof p_gt_1. destruct n as [|n]; [lia|]. cbn [hsum].
  rewrite (hsum_last x y (fun k => choose (S n) (S k)) n).
  - rewrite choose_0, zz_1, (rpow_S x n). ring.
  - intros k K. apply Zc. lia.
  - rewrite choose_diag. apply zz_1.
Qed.

(** Fermat: the image of [Fp] is fixed. *)
Lemma rpow_p_phi (a : ZP) : rpow (f a) (Z.to_nat p) = f a.
Proof.
  rewrite <- (Zmod.of_Z_to_Z a), <- phi_pow. apply (f_equal (fun z => f z)). apply Zmod.to_Z_inj.
  pose proof p_gt_1. rewrite Z2Nat.id by (clear -H; lia). rewrite !Zmod.to_Z_of_Z.
  apply Z.fermat. exact p_prime.
Qed.

Lemma rpow_p_poly (w : E) (l : list Fp) :
  rpow (fold_right (fun a acc => radd (f (val a)) (rmul w acc)) r0 l) (Z.to_nat p) =
  fold_right (fun a acc => radd (f (val a)) (rmul (rpow w (Z.to_nat p)) acc)) r0 l.
Proof.
  induction l as [|a l IH]; cbn [fold_right].
  - apply rpow_0. pose proof p_gt_1. lia.
  - rewrite rpow_p_add, rpow_p_phi, rpow_rmul, IH. reflexivity.
Qed.

Lemma poly_ev_pth (w : E) (x : Fp12) : poly_ev f (rpow w (Z.to_nat p)) x = rpow (poly_ev f w x) (Z.to_nat p).
Proof. symmetry. apply rpow_p_poly. Qed.

(** [x^(p^n)] *)
Fixpoint powp (x : E) (n : nat) : E :=
  match n with O => x | S m => rpow (powp x m) (Z.to_nat p) end.

Lemma poly_ev_powp (w : E) (x : Fp12) n : poly_ev f (pth_power E w n) x = powp (poly_ev f w x) n.
Proof.
  induction n as [|n IH]; [reflexivity|].
  change (pth_power E w (S n)) with (rpow (pth_power E w n) (Z.to_nat p)). rewrite poly_ev_pth, IH. cbn [powp]. reflexivity.
Qed.

Lemma powp_rpow (x : E) n : powp x n = rpow x (Z.to_nat p ^ n).
Proof.
  induction n as [|n IH]; [cbn [powp Nat.pow]; rewrite rpow_S; unfold rpow, mpow; cbn [Nat.iter nat_rect]; ring|].
  cbn [powp]. rewrite IH, <- rpow_mul, Nat.pow_succ_r'. f_equal. lia.
Qed.
End Powers.
