(* ===== verification/FinalExp.v ===== *)
(** The final exponentiation of the pairing (gm-sm9-rs/src/pairing/ate.rs).

    [final_exponentiation] raises a non-zero element of [Fp12] to
    [(p^12 - 1) / N]: the easy part through Frobenius maps and one inversion, the
    hard part by the addition chain in the powers [a2], [a3] of the code. *)

From Stdlib Require Import Bool ZArith Lia List Zmod Ring.
From S2P Require Import Prelude Z256 Primality Fp FieldRep Fp2 Fp4 Fp12 Frobenius.
Import ListNotations.
Open Scope Z_scope.

Definition unwrap_or_one (o : option Fp12) : Fp12 := match o with Some x => x | None => Fp12.ONE end.

Definition a2 : Z256 := [0x0000b98b0cb27659; 0xd8000000019062ed; 0; 0].
Definition a3 : Z256 := [0x400000000215d941; 0x2; 0; 0].
Definition nine : Z256 := [9; 0; 0; 0].

Definition final_exponentiation_hard_part (f : Fp12) : Fp12 :=
  let t0 := Fp12.pow f a3 in
  let t0 := unwrap_or_one (fe_inv t0) in
  let t1 := Fp12.frobenius t0 in
  let t1 := Fp12.mul t0 t1 in
  let t0 := Fp12.mul t0 t1 in
  let t2 := Fp12.frobenius f in
  let t3 := Fp12.mul t2 f in
  let t3 := Fp12.pow t3 nine in
  let t0 := Fp12.mul t0 t3 in
  let t3 := Fp12.square f in
  let t3 := Fp12.square t3 in
  let t0 := Fp12.mul t0 t3 in
  let t2 := Fp12.square t2 in
  let t2 := Fp12.mul t2 t1 in
  let t1 := Fp12.frobenius_sq f in
  let t1 := Fp12.mul t1 t2 in
  let t2 := Fp12.pow t1 a2 in
  let t0 := Fp12.mul t2 t0 in
  let t1 := Fp12.frobenius_cu f in
  Fp12.mul t1 t0.

Definition final_exponentiation (f : Fp12) : Fp12 :=
  let f_p6 := Fp12.frobenius_six f in
  let f_inv := unwrap_or_one (fe_inv f) in
  let f1 := Fp12.mul f_p6 f_inv in
  let f1_p2 := Fp12.frobenius_sq f1 in
  let f2 := Fp12.mul f1_p2 f1 in
  final_exponentiation_hard_part f2.

(** The exponents: [(p^4 - p^2 + 1) / N] and [(p^12 - 1) / N]. *)
Definition hard_exp : Z := (p ^ 4 - p ^ 2 + 1) / eval N.
Definition final_exp : Z := (p ^ 12 - 1) / eval N.

Lemma exponents_exact : (p ^ 4 - p ^ 2 + 1) mod eval N = 0 /\ (p ^ 12 - 1) mod eval N = 0.
Proof. split; vm_compute; reflexivity. Qed.

Lemma exponent_split : 0 <= hard_exp /\ final_exp = (p ^ 6 - 1) * ((p ^ 2 + 1) * hard_exp).
Proof. split; vm_compute; [congruence|reflexivity]. Qed.

Lemma hard_identity :
  p ^ 3 + eval a2 * (p ^ 2 + 2 * p) + 9 * (p + 1) + 4 = hard_exp + eval a3 * (eval a2 * (p + 1) + (p + 2)).
Proof. vm_compute. reflexivity. Qed.

Lemma wf_exponents : wf_limbs 4 a2 /\ wf_limbs 4 a3 /\ wf_limbs 4 nine.
Proof. rewrite <- !wf256_iff. repeat split. Qed.

(** ** Integer exponents *)

(** [x^k] for [k >= 0]; the exponents are never expanded. *)
Definition zpow {E : CRing} (x : E) (k : Z) : E := rpow x (Z.to_nat k).

Section ZPow.
Context (E : CRing) (f : from_ZP E).
Add Ring EringZ : (rth E).

Lemma zpow_def (x : E) k : zpow x k = rpow x (Z.to_nat k).
Proof. reflexivity. Qed.

Lemma zpow_add (x : E) a b : 0 <= a -> 0 <= b -> zpow x (a + b) = rmul (zpow x a) (zpow x b).
Proof. intros A B. unfold zpow. rewrite Z2Nat.inj_add by assumption. apply rpow_add. Qed.

Lemma zpow_mul (x : E) a b : 0 <= a -> 0 <= b -> zpow x (a * b) = zpow (zpow x a) b.
Proof. intros A B. unfold zpow. rewrite Z2Nat.inj_mul by assumption. apply rpow_mul. Qed.

Lemma zpow_rmul (x y : E) a : zpow (rmul x y) a = rmul (zpow x a) (zpow y a).
Proof. apply rpow_rmul. Qed.

Lemma zpow_one a : zpow (@r1 E) a = r1.
Proof. apply rpow_1. Qed.

Lemma zpow_zero a : 0 < a -> zpow (@r0 E) a = r0.
Proof. intros H. unfold zpow. apply rpow_0. lia. Qed.

Lemma zpow_2 (x : E) : zpow x 2 = rmul x x.
Proof. unfold zpow, rpow, mpow. change (Z.to_nat 2) with 2%nat. cbn [Nat.iter nat_rect]. ring. Qed.

Lemma zpow_1 (x : E) : zpow x 1 = x.
Proof. unfold zpow, rpow, mpow. change (Z.to_nat 1) with 1%nat. cbn [Nat.iter nat_rect]. ring. Qed.

Lemma zpow_0 (x : E) : zpow x 0 = r1.
Proof. unfold zpow, rpow, mpow. change (Z.to_nat 0) with 0%nat. cbn [Nat.iter nat_rect]. ring. Qed.

Lemma powp_zpow (x : E) n : powp E x n = zpow x (p ^ Z.of_nat n).
Proof.
  rewrite powp_rpow. unfold zpow. apply (f_equal (rpow x)).
  apply Nat2Z.inj. rewrite Nat2Z.inj_pow. pose proof p_gt_1.
  rewrite !Z2Nat.id by (try apply Z.pow_nonneg; lia). reflexivity.
Qed.
End ZPow.
#[global] Opaque zpow.

(** ** The chain of the hard part *)

Section Chain.
Context (E : CRing).
Add Ring EringC : (rth E).

(** With [G] the inverse of [F^a], [F^A G^M = F^e] when [A = e + a M]. *)
Lemma cancel_powers (F G : E) a A M e :
  0 <= a -> 0 <= M -> 0 <= e -> rmul (zpow F a) G = r1 -> A = e + a * M ->
  rmul (zpow F A) (zpow G M) = zpow F e.
Proof.
  intros Ha HM He I ->. rewrite zpow_add, zpow_mul by nia.
  transitivity (rmul (zpow F e) (rmul (zpow (zpow F a) M) (zpow G M))); [ring|].
  rewrite <- zpow_rmul, I, zpow_one. ring.
Qed.

Lemma hard_chain (F G : E) q a b e :
  0 <= q -> 0 <= a -> 0 <= b -> 0 <= e -> rmul (zpow F a) G = r1 ->
  q ^ 3 + b * (q ^ 2 + 2 * q) + 9 * (q + 1) + 4 = e + a * (b * (q + 1) + (q + 2)) ->
  let t1 := rmul G (zpow G q) in
  let t2 := zpow F q in
  let t0 := rmul (rmul (rmul G t1) (zpow (rmul t2 F) 9)) (rmul (rmul F F) (rmul F F)) in
  let t2' := zpow (rmul (zpow F (q ^ 2)) (rmul (rmul t2 t2) t1)) b in
  rmul (zpow F (q ^ 3)) (rmul t2' t0) = zpow F e.
Proof.
  intros Hq Ha Hb He I K. cbv zeta.
  assert (M0 : 0 <= b * (q + 1) + (q + 2)) by nia.
  rewrite <- (cancel_powers F G a _ _ e Ha M0 He I K).
  pose proof (Z.pow_nonneg q 3 Hq). pose proof (Z.pow_nonneg q 2 Hq). clear K I.
  set (q3 := q ^ 3) in *. set (q2 := q ^ 2) in *. clearbody q3 q2.
  assert (EF : zpow F (q3 + b * (q2 + 2 * q) + 9 * (q + 1) + 4) =
    rmul (rmul (rmul (zpow F q3) (zpow (rmul (zpow F q2) (rmul (zpow F q) (zpow F q))) b))
      (zpow (rmul (zpow F q) F) 9)) (rmul (rmul F F) (rmul F F))).
  { rewrite !(zpow_add _ F) by nia. rewrite (Z.mul_comm b), (Z.mul_comm 9), !(zpow_mul _ F) by nia.
    rewrite !(zpow_add _ F) by nia. rewrite (zpow_mul _ F 2 q), !zpow_2, zpow_1, zpow_rmul by nia.
    change 4 with (2 + 2). rewrite (zpow_add _ F 2 2), zpow_2, !zpow_rmul by lia. reflexivity. }
  assert (EG : zpow G (b * (q + 1) + (q + 2)) =
    rmul (zpow (rmul (zpow G q) G) b) (rmul (zpow G q) (rmul G G))).
  { rewrite !(zpow_add _ G) by nia. rewrite (Z.mul_comm b), (zpow_mul _ G) by nia.
    rewrite !(zpow_add _ G) by nia. rewrite zpow_1, zpow_2. reflexivity. }
  rewrite EF, EG, !zpow_rmul. ring.
Qed.
End Chain.

(** ** The Frobenius maps keep elements canonical *)

Lemma fp2_neg_ok x : fp2_canonical x = true -> fp2_canonical (fe_neg x) = true.
Proof. rewrite <- rep2_ok. apply ok_neg. Qed.
Lemma fp2_mul_ok x y : fp2_canonical x = true -> fp2_canonical y = true -> fp2_canonical (fe_mul x y) = true.
Proof. rewrite <- rep2_ok. apply ok_mul. Qed.
Lemma fp2_frobenius_ok x : fp2_canonical x = true -> fp2_canonical (Fp2.frobenius x) = true.
Proof.
  intros [X0 X1]%andb_true_iff. apply andb_true_iff. unfold Fp2.frobenius. cbn [Fp2.c0 Fp2.c1 fe_neg FieldElement_Fp].
  split; [assumption|now apply fp_neg_spec].
Qed.
Lemma fp2_mul_fp_ok x k : fp2_canonical x = true -> fp_ok k = true -> fp2_canonical (Fp2.mul_fp x k) = true.
Proof.
  intros [X0 X1]%andb_true_iff K. apply andb_true_iff. unfold Fp2.mul_fp. cbn [Fp2.c0 Fp2.c1 fe_mul FieldElement_Fp].
  split; apply fp_mul_spec; assumption.
Qed.
Lemma beta_ok : fp2_canonical beta = true.
Proof. reflexivity. Qed.
Create HintDb canon.
#[local] Hint Resolve fp2_neg_ok fp2_mul_ok fp2_frobenius_ok fp2_mul_fp_ok beta_ok : canon.

Lemma frobenius_ok x :
  fp12_canonical x = true ->
  fp12_canonical (frobenius x) = true /\ fp12_canonical (frobenius_sq x) = true /\
  fp12_canonical (frobenius_cu x) = true /\ fp12_canonical (frobenius_six x) = true.
Proof.
  intros H. destruct x as [[x0 x1] [x2 x3] [x4 x5]].
  unfold fp12_canonical, fp4_canonical in H. cbn [Fp12.c0 Fp12.c1 Fp12.c2 Fp4.c0 Fp4.c1] in H.
  rewrite !andb_true_iff in H. destruct H as [[[H0 H1] [H2 H3]] [H4 H5]].
  destruct (alphas_ok E12 phi12) as (O1 & O2 & O3 & O4 & O5).
  change (@rep_ok _ _ _ (RF E12 phi12)) with fp_ok in *.
  unfold frobenius, frobenius_sq, frobenius_cu, frobenius_six, frobenius3, Fp4.mul_fp, Fp4.frobenius_sq, conjugate,
    fp12_canonical, fp4_canonical, Fp4.new.
  cbn [Fp12.c0 Fp12.c1 Fp12.c2 Fp4.c0 Fp4.c1]. 
  cbn [fe_neg FieldElement_Fp4]. unfold Fp4.neg. cbn [Fp4.c0 Fp4.c1].
  rewrite !andb_true_iff. auto 20 with canon.
Qed.

(** ** Powers of [Fp12] elements *)

Section Values.
Context (E : CRing) (f : from_ZP E) (w : E).
Hypothesis w12 : rpow w 12 = ropp (radd r1 r1).
Add Ring EringV : (rth E).

Abbreviation value := (poly_ev f w).

(** [x] is canonical with value [v]. *)
Definition has (x : Fp12) (v : E) : Prop := fp12_canonical x = true /\ value x = v.

Lemma has_mul x y a b : has x a -> has y b -> has (mul x y) (rmul a b).
Proof.
  unfold has. rewrite <- (fp12_ok_canonical E f w w12), !(poly_ev_ev12 E f w w12).
  intros [Hx <-] [Hy <-]. now apply ev12_mul.
Qed.

Lemma has_square x a : has x a -> has (square x) (rmul a a).
Proof.
  unfold has. rewrite <- (fp12_ok_canonical E f w w12), !(poly_ev_ev12 E f w w12).
  intros [Hx <-]. now apply ev12_square.
Qed.

Lemma has_pow x a e : wf_limbs 4 e -> has x a -> has (pow x e) (zpow a (eval e)).
Proof.
  intros We. unfold has. rewrite <- (fp12_ok_canonical E f w w12), !(poly_ev_ev12 E f w w12).
  intros [Hx <-]. rewrite zpow_def. now apply ev12_pow.
Qed.

Lemma has_one : has ONE r1.
Proof.
  unfold has. rewrite <- (fp12_ok_canonical E f w w12), !(poly_ev_ev12 E f w w12). now apply ev12_one.
Qed.


(** The Frobenius maps are powers. *)
Lemma has_frobenius x a :
  has x a ->
  has (frobenius x) (zpow a (p ^ 1)) /\ has (frobenius_sq x) (zpow a (p ^ 2)) /\
  has (frobenius_cu x) (zpow a (p ^ 3)) /\ has (frobenius_six x) (zpow a (p ^ 6)).
Proof.
  intros [C <-]. destruct (frobenius_ok x C) as (C1 & C2 & C3 & C6).
  assert (V : forall n y, value y = poly_ev f (Nat.iter n (rmul (a1 E f)) w) x -> value y = zpow (value x) (p ^ Z.of_nat n)).
  { intros n y ->. rewrite <- powp_zpow by exact f. rewrite <- poly_ev_powp. now rewrite (proj1 (pth_power_spec E f w n w12)). }
  unfold has. split; [|split; [|split]]; (split; [assumption|]).
  - apply (V 1%nat). exact (poly_ev_frobenius E f w x C).
  - apply (V 2%nat). exact (poly_ev_frobenius_sq E f w x C).
  - apply (V 3%nat). exact (poly_ev_frobenius_cu E f w x C).
  - apply (V 6%nat). change (Nat.iter 6 (rmul (a1 E f)) w) with
      (rmul (a1 E f) (rmul (a1 E f) (rmul (a1 E f) (rmul (a1 E f) (rmul (a1 E f) (rmul (a1 E f) w)))))).
    rewrite a1_six. exact (poly_ev_frobenius_six E f w x C).
Qed.

Lemma has_zero x : fp12_canonical x = true -> is_zero x = true -> value x = r0.
Proof.
  intros C Z0. rewrite (poly_ev_ev12 E f w w12). unfold is_zero in Z0. rewrite !andb_true_iff in Z0.
  destruct Z0 as [[Z0 Z1] Z2]. rewrite <- (fp12_ok_canonical E f w w12) in C. apply fp12_ok_iff in C as (H0 & H1 & H2).
  unfold ev12. rewrite (rep_is_zero _ H0 Z0), (rep_is_zero _ H1 Z1), (rep_is_zero _ H2 Z2). ring.
Qed.

(** In a ring where [0 = 1] every equation holds. *)
Lemma trivial_ring : @r0 E = r1 -> forall a b : E, a = b.
Proof. intros H a b. transitivity (rmul a r1); [ring|]. rewrite <- H. transitivity (rmul b r0); [ring|]. rewrite H. ring. Qed.

(** The inverse of an element whose value is invertible. *)
Lemma has_inv x a b : has x a -> rmul a b = r1 -> exists a', has (unwrap_or_one (fe_inv x)) a' /\ rmul a a' = r1.
Proof.
  intros [C <-] I. destruct (fe_inv x) as [z|] eqn:Ez; cbn [unwrap_or_one].
  - exists (value z). unfold has. rewrite <- (fp12_ok_canonical E f w w12), !(poly_ev_ev12 E f w w12) in *.
    destruct (ev12_inv _ _ _ _ _ _ _ eq_refl x z C Ez) as [Cz Iz]. auto.
  - exists r1. split; [apply has_one|]. apply inv12_none in Ez; [|assumption]. apply has_zero in Ez; [|assumption].
    apply trivial_ring. rewrite <- I, Ez. ring.
Qed.

Lemma has_eq x a b : has x a -> a = b -> has x b.
Proof. now intros H <-. Qed.

Lemma inverse_pow (a b : E) k : rmul a b = r1 -> rmul (zpow a k) (zpow b k) = r1.
Proof. intros I. rewrite <- zpow_rmul, I. apply zpow_one. Qed.

(** The value of a term built from known values. *)
Ltac has_solve :=
  lazymatch goal with
  | |- has (mul _ _) _ => eapply has_mul; has_solve
  | |- has (square _) _ => eapply has_square; has_solve
  | |- has (pow _ _) _ => eapply has_pow; [assumption|has_solve]
  | _ => eassumption
  end.

Lemma hard_part_power x a b :
  has x a -> rmul a b = r1 -> has (final_exponentiation_hard_part x) (zpow a hard_exp).
Proof.
  intros H I. destruct wf_exponents as (W2 & W3 & W9). destruct exponent_split as [Hh _].
  pose proof (has_pow x a a3 W3 H) as H3.
  destruct (has_inv _ _ _ H3 (inverse_pow a b (eval a3) I)) as (g & Hg & Ig).
  destruct (has_frobenius _ _ Hg) as [Hgp _]. destruct (has_frobenius _ _ H) as (Hp & Hp2 & Hp3 & _).
  rewrite Z.pow_1_r in Hgp, Hp. pose proof p_gt_1.
  unfold final_exponentiation_hard_part. cbv zeta. clear H3.
  generalize dependent (frobenius (unwrap_or_one (fe_inv (pow x a3)))).
  generalize dependent (unwrap_or_one (fe_inv (pow x a3))). intros t0 Ht0 t0p Ht0p.
  generalize dependent (frobenius x). generalize dependent (frobenius_sq x).
  generalize dependent (frobenius_cu x). intros x3 Hx3 x2 Hx2 x1 Hx1.
  eapply has_eq.
  - has_solve.
  - change (eval nine) with 9.
    refine (hard_chain E a g p (eval a3) (eval a2) hard_exp _ _ _ Hh Ig hard_identity);
      [lia|vm_compute; congruence..].
Qed.

(** The whole exponentiation, on values with an inverse. *)
Lemma final_power x a b :
  has x a -> rmul a b = r1 -> has (final_exponentiation x) (zpow a final_exp).
Proof.
  intros H I. destruct (has_inv _ _ _ H I) as (a' & H' & I'). destruct exponent_split as [Hh ->]. pose proof p_gt_1.
  destruct (has_frobenius _ _ H) as (_ & _ & _ & H6).
  assert (H1 : has (mul (frobenius_six x) (unwrap_or_one (fe_inv x))) (zpow a (p ^ 6 - 1))).
  { eapply has_eq; [eapply has_mul; [exact H6|exact H']|].
    replace (p ^ 6) with ((p ^ 6 - 1) + 1) at 1 by lia.
    rewrite zpow_add, zpow_1 by (pose proof (Z.pow_pos_nonneg p 6); lia).
    transitivity (rmul (zpow a (p ^ 6 - 1)) (rmul a a')); [ring|]. rewrite I'. ring. }
  unfold final_exponentiation. cbv zeta.
  generalize dependent (mul (frobenius_six x) (unwrap_or_one (fe_inv x))). intros f1 H1.
  destruct (has_frobenius _ _ H1) as (_ & Hf & _).
  generalize dependent (frobenius_sq f1). intros f1q Hf.
  pose proof (Z.pow_pos_nonneg p 6). pose proof (Z.pow_pos_nonneg p 2).
  rewrite zpow_mul, zpow_mul by nia.
  apply (hard_part_power _ _ (zpow (zpow b (p ^ 6 - 1)) (p ^ 2 + 1))); [|now apply inverse_pow, inverse_pow].
  rewrite (zpow_add _ _ (p ^ 2) 1), zpow_1 by lia. now apply has_mul.
Qed.

(** Zero stays zero. *)
Lemma unwrap_canonical x a : has x a -> exists c, has (unwrap_or_one (fe_inv x)) c.
Proof.
  intros [C _]. destruct (fe_inv x) as [z|] eqn:Ez; cbn [unwrap_or_one]; [|exists r1; apply has_one].
  exists (value z). split; [|reflexivity]. rewrite <- (fp12_ok_canonical E f w w12) in *.
  apply (ev12_inv _ _ _ _ _ _ _ eq_refl x z C Ez).
Qed.

Lemma hard_part_zero x : has x r0 -> has (final_exponentiation_hard_part x) r0.
Proof.
  intros H. destruct wf_exponents as (W2 & W3 & W9).
  destruct (unwrap_canonical _ _ (has_pow x _ a3 W3 H)) as [g Hg].
  destruct (has_frobenius _ _ Hg) as [Hgp _]. destruct (has_frobenius _ _ H) as (Hp & Hp2 & Hp3 & _).
  unfold final_exponentiation_hard_part. cbv zeta.
  generalize dependent (frobenius (unwrap_or_one (fe_inv (pow x a3)))).
  generalize dependent (unwrap_or_one (fe_inv (pow x a3))). intros t0 Ht0 t0p Ht0p.
  generalize dependent (frobenius x). generalize dependent (frobenius_sq x).
  generalize dependent (frobenius_cu x). intros x3 Hx3 x2 Hx2 x1 Hx1.
  eapply has_eq; [has_solve|]. rewrite (zpow_zero E (p ^ 3)) by (vm_compute; reflexivity). ring.
Qed.

Lemma final_zero x : has x r0 -> has (final_exponentiation x) r0.
Proof.
  intros H. destruct (unwrap_canonical _ _ H) as [c Hc]. destruct (has_frobenius _ _ H) as (_ & _ & _ & H6).
  assert (H1 : has (mul (frobenius_six x) (unwrap_or_one (fe_inv x))) r0).
  { eapply has_eq; [eapply has_mul; [exact H6|exact Hc]|].
    rewrite (zpow_zero E (p ^ 6)) by (vm_compute; reflexivity). ring. }
  unfold final_exponentiation. cbv zeta.
  generalize dependent (mul (frobenius_six x) (unwrap_or_one (fe_inv x))). intros f1 H1.
  destruct (has_frobenius _ _ H1) as (_ & Hf & _). generalize dependent (frobenius_sq f1). intros f1q Hf.
  apply hard_part_zero. eapply has_eq; [eapply has_mul; [exact Hf|exact H1]|]. ring.
Qed.
End Values.

(** ** Properties *)

(** C3. [final_exponentiation] raises a non-zero element of [Fp12] to exactly
    [(p^12 - 1) / N] (an exact division), at every evaluation [w^12 = -2] of every
    ring over the integers modulo [p]: the Frobenius maps of the easy part are the
    powers [p^2] and [p^6], and the addition chain with the constants [a2], [a3]
    and 9 is the power [(p^4 - p^2 + 1) / N]. Zero is sent to zero. *)
Theorem final_exponentiation_correct (E : CRing) (f : from_ZP E) (w : E) (x : Fp12) :
  rpow w 12 = ropp (radd r1 r1) -> fp12_canonical x = true ->
  (p ^ 12 - 1) mod eval N = 0 /\
  fp12_canonical (final_exponentiation x) = true /\
  poly_ev f w (final_exponentiation x) =
    if is_zero x then r0 else zpow (poly_ev f w x) ((p ^ 12 - 1) / eval N).
Proof.
  intros W C. split; [apply exponents_exact|].
  assert (Fe : (p ^ 12 - 1) / eval N = final_exp) by (unfold final_exp; reflexivity). rewrite Fe.
  destruct (is_zero x) eqn:Z0.
  - apply (final_zero E f w W). split; [assumption|]. now apply has_zero.
  - destruct (fe_inv x) as [z|] eqn:I; [|apply inv12_none in I; [congruence|assumption]].
    refine (final_power E f w W x _ (poly_ev f w z) (conj C eq_refl) _).
    rewrite <- (fp12_ok_canonical E f w W) in C. rewrite !(poly_ev_ev12 E f w W).
    apply (ev12_inv _ _ _ _ _ _ _ eq_refl x z C I).
Qed.

Lemma final_exponentiation_correct_witness :
  poly_ev phi12 gen_w (final_exponentiation sample12) =
    zpow (poly_ev phi12 gen_w sample12) ((p ^ 12 - 1) / eval N) /\
  poly_ev phi12 gen_w (final_exponentiation ZERO) = r0.
Proof.
  destruct (final_exponentiation_correct E12 phi12 gen_w sample12 gen_w_spec) as (_ & _ & V);
    [vm_compute; reflexivity|].
  destruct (final_exponentiation_correct E12 phi12 gen_w ZERO gen_w_spec) as (_ & _ & Z0);
    [vm_compute; reflexivity|].
  split; [|exact Z0]. assert (S : is_zero sample12 = false) by (vm_compute; reflexivity).
  rewrite S in V. exact V.
Defined.
