(* ===== verification/Lines.v ===== *)
(** The line functions of the Miller loop (gm-sm9-rs/src/pairing/ate.rs).

    A step of the loop moves the Jacobian point [T] of the twist and returns three
    coefficients [lw0 + lw1 w^2 + lw2 w^3] of the line used. The functions that
    take [&mut T] return the new point. They are written over a coordinate field
    [A] with a scalar multiplication [mul_fp] by [F], and related to the affine
    chord and tangent. *)

From Stdlib Require Import Bool ZArith Lia List Field.
From S2P Require Import Prelude Z256 Fp FieldRep Curve Jacobian.
Import ListNotations.
Open Scope Z_scope.

Section Lines.
Context {A : Type} {FE : FieldElement A} {F : Type} (mul_fp : A -> F -> A).

(** [line_function_double_lw]: the coefficients of the tangent and [2T]. *)
Definition line_double (t : point A) (p_aff : F * F) : (A * A * A) * point A :=
  if j_is_identity t then ((fe_ZERO, fe_ZERO, fe_ZERO), t)
  else
    let x1 := px t in
    let y1 := py t in
    let z1 := pz t in
    let t1 := fe_square z1 in
    let a := fe_square x1 in
    let b := fe_square y1 in
    let c := fe_square b in
    let d := fe_double (fe_sub (fe_sub (fe_square (fe_add x1 b)) a) c) in
    let z3 := fe_sub (fe_sub (fe_square (fe_add y1 z1)) b) t1 in
    let lw0 := fe_add (fe_double (fe_double b)) a in
    let a_tri := fe_add (fe_add a a) a in
    let b_new := fe_square a_tri in
    let x3 := fe_sub b_new (fe_double d) in
    let lw0 := fe_add lw0 b_new in
    let y3 := fe_sub (fe_mul (fe_sub d x3) a_tri) (fe_double (fe_double (fe_double c))) in
    let lw2 := fe_double (fe_mul z3 t1) in
    let lw1 := fe_neg (fe_double (fe_mul a_tri t1)) in
    let a_new := fe_square (fe_add x1 a_tri) in
    let lw0 := fe_sub a_new lw0 in
    let lw1 := mul_fp lw1 (fst p_aff) in
    let lw2 := mul_fp lw2 (snd p_aff) in
    ((lw0, lw1, lw2), mkpoint x3 y3 z3).

(** The common body of [line_function_add_lw] and [line_function_add_lw_no_pre]. *)
Definition line_add_body (t q : point A) (pre0 pre1 pre2 pre3 pre4 : A) : (A * A * A) * point A :=
  let x1 := px t in
  let y1 := py t in
  let z1 := pz t in
  let x2 := px q in
  let y2 := py q in
  let z2 := pz q in
  let t1 := fe_square z1 in
  let t2 := fe_square z2 in
  let z3 := fe_sub (fe_sub (fe_square (fe_add z1 z2)) t1) t2 in
  let a := fe_mul x1 t2 in
  let b := fe_mul x2 t1 in
  let c := fe_double (fe_mul y1 pre1) in
  let d := fe_mul (fe_sub (fe_sub (fe_square (fe_add y2 z1)) pre0) t1) t1 in
  let b := fe_sub b a in
  let z3 := fe_mul z3 b in
  let t1 := fe_square (fe_double b) in
  let x3 := fe_mul b t1 in
  let y3 := fe_mul c x3 in
  let a := fe_mul a t1 in
  let b := fe_sub d c in
  let t2 := fe_double a in
  let x3 := fe_add x3 t2 in
  let t2 := fe_square b in
  let x3 := fe_sub t2 x3 in
  let t2 := fe_sub a x3 in
  let t2 := fe_mul t2 b in
  let y3 := fe_sub t2 y3 in
  let lw2 := fe_mul z3 pre2 in
  let lw1 := fe_mul b pre3 in
  let b := fe_mul b pre4 in
  let lw0 := fe_double (fe_mul y2 z3) in
  let lw0 := fe_sub b lw0 in
  ((lw0, lw1, lw2), mkpoint x3 y3 z3).

(** The values [pre0 .. pre4] precomputed from the added point. *)
Definition pre_values (q : point A) (p_aff : F * F) : A * A * A * A * A :=
  let pre0 := fe_square (py q) in
  let pre4 := fe_double (fe_mul (px q) (pz q)) in
  let q_z2 := fe_square (pz q) in
  let pre1 := fe_mul q_z2 (pz q) in
  let pre2 := fe_double (mul_fp pre1 (snd p_aff)) in
  let pre3 := fe_neg (fe_double (mul_fp pre1 (fst p_aff))) in
  (pre0, pre1, pre2, pre3, pre4).

Definition line_add (t q : point A) (pre : A * A * A * A * A) : (A * A * A) * point A :=
  if j_is_identity t || j_is_identity q then ((fe_ZERO, fe_ZERO, fe_ZERO), t)
  else let '(pre0, pre1, pre2, pre3, pre4) := pre in line_add_body t q pre0 pre1 pre2 pre3 pre4.

Definition line_add_no_pre (p t : point A) (q_aff : F * F) : (A * A * A) * point A :=
  if j_is_identity p || j_is_identity t then ((fe_ZERO, fe_ZERO, fe_ZERO), p)
  else let '(pre0, pre1, pre2, pre3, pre4) := pre_values t q_aff in line_add_body p t pre0 pre1 pre2 pre3 pre4.
End Lines.


(** ** The lines they compute *)

(** The slopes of the tangent and of the chord. *)
Definition tangent_slope {E : CField} (x y : E) : E :=
  cdiv (rmul (radd (radd r1 r1) r1) (rmul x x)) (radd y y).
Definition chord_slope {E : CField} (x1 y1 x2 y2 : E) : E := cdiv (rsub y2 y1) (rsub x2 x1).

(** The coefficients of [y_P w^3 - lam x_P w^2 + (lam x - y)], up to [c]. *)
Definition line_through {E : CField} (c lam x y xP yP l0 l1 l2 : E) : Prop :=
  l0 = rmul c (rsub (rmul lam x) y) /\ l1 = ropp (rmul c (rmul lam xP)) /\ l2 = rmul c yP.

Section LineSpecs.
Context {A : Type} {FE : FieldElement A} {CO : Coord A} (E : CField) {CR : CoordRep A E}.
Context {F : Type} (mul_fp : A -> F -> A) (ok_fp : F -> bool) (emb : F -> E).
Hypothesis ok_mul_fp : forall x k, rep_ok x = true -> ok_fp k = true -> rep_ok (mul_fp x k) = true.
Hypothesis rep_mul_fp : forall x k, rep_ok x = true -> ok_fp k = true -> rep (mul_fp x k) = rmul (rep x) (emb k).
Add Field EfieldL : (cfield_theory E).
#[local] Hint Resolve ok_mul_fp : rep.

Lemma aff_cases (t : point A) x y :
  aff E t = Aff x y -> rep (pz t) <> r0 /\
    x = cdiv (rep (px t)) (rmul (rep (pz t)) (rep (pz t))) /\
    y = cdiv (rep (py t)) (rmul (rep (pz t)) (rmul (rep (pz t)) (rep (pz t)))).
Proof.
  unfold aff, jac. destruct (ceq_dec E (rep (pz t)) r0) as [|N]; [discriminate|].
  intros H. injection H as <- <-. auto.
Qed.

Lemma not_identity (t : point A) x y : pt_ok E t = true -> aff E t = Aff x y -> j_is_identity t = false.
Proof.
  intros Ok H. destruct (j_is_identity t) eqn:I; [|reflexivity]. apply (aff_identity E t Ok) in I.
  congruence.
Qed.

#[local] Ltac nonzero := repeat split; auto using cf_mul_nonzero, cf_double_nonzero, cf_sub_nonzero, two_nonzero.

(** What a line function returns on a step of slope [lam] through [(x, y)] to [T']. *)
Definition line_step (r : (A * A * A) * point A) (lam x y : E) (xP yP : F) (T' : apoint E) : Prop :=
  let '((l0, l1, l2), t') := r in
  rep_ok l0 = true /\ rep_ok l1 = true /\ rep_ok l2 = true /\ pt_ok E t' = true /\ aff E t' = T' /\
  exists c, c <> r0 /\ line_through c lam x y (emb xP) (emb yP) (rep l0) (rep l1) (rep l2).

Lemma line_double_spec t xP yP x y :
  pt_ok E t = true -> ok_fp xP = true -> ok_fp yP = true -> aff E t = Aff x y -> y <> r0 ->
  line_step (line_double mul_fp t (xP, yP)) (tangent_slope x y) x y xP yP (aff_double E (Aff x y)).
Proof.
  intros Ok KX KY Ht Y0. pose proof (not_identity t x y Ok Ht) as I.
  destruct (aff_cases t x y Ht) as (Z0 & Ex & Ey). rewrite <- Ht. apply pt_ok_iff in Ok as (X & Y & Z).
  assert (YR : rep (py t) <> r0) by (intros H; apply Y0; rewrite Ey, H; field; assumption).
  unfold line_double. rewrite I. cbv zeta. cbn [fst snd]. unfold line_step.
  share a (fe_square (px t)) as Ea. share b (fe_square (py t)) as Eb. share c (fe_square b) as Ec.
  share t1 (fe_square (pz t)) as Et1.
  share d (fe_double (fe_sub (fe_sub (fe_square (fe_add (px t) b)) a) c)) as Ed.
  share z3 (fe_sub (fe_sub (fe_square (fe_add (py t) (pz t))) b) t1) as Ez3.
  share a3 (fe_add (fe_add a a) a) as Ea3. share b3 (fe_square a3) as Eb3.
  share x3 (fe_sub b3 (fe_double d)) as Ex3.
  split; [rep_accept|]. split; [apply ok_mul_fp; [rep_accept|assumption]|].
  split; [apply ok_mul_fp; [rep_accept|assumption]|]. split; [apply pt_ok_iff; cbn [px py pz]; auto 20 with rep|].
  split.
  - unfold aff. cbn [px py pz]. rewrite <- jac_double. rep_push.
    rewrite Ex3, Eb3, Ea3, Ez3, Ed, Et1, Ec, Eb, Ea. f_equal; ring.
  - set (Y' := rep (py t)) in *. set (Z' := rep (pz t)) in *.
    exists (rmul (radd (radd Y' Y') (radd Y' Y')) (rmul Z' (rmul Z' Z'))).
    split; [nonzero|]. unfold line_through, tangent_slope.
    rewrite !rep_mul_fp by first [assumption|rep_accept]. rep_push.
    rewrite Eb3, Ea3, Ez3, Et1, Eb, Ea. fold Y' Z'. rewrite Ex, Ey.
    repeat split; field; nonzero.
Qed.

Lemma line_add_body_spec t q xP yP x1 y1 x2 y2 :
  pt_ok E t = true -> pt_ok E q = true -> ok_fp xP = true -> ok_fp yP = true ->
  aff E t = Aff x1 y1 -> aff E q = Aff x2 y2 -> x1 <> x2 ->
  let '(pre0, pre1, pre2, pre3, pre4) := pre_values mul_fp q (xP, yP) in
  line_step (line_add_body t q pre0 pre1 pre2 pre3 pre4) (chord_slope x1 y1 x2 y2) x2 y2 xP yP
    (aff_add E (Aff x1 y1) (Aff x2 y2)).
Proof.
  intros Ot Oq KX KY Ht Hq NX. destruct (aff_cases t x1 y1 Ht) as (Z1 & Ex1 & Ey1).
  destruct (aff_cases q x2 y2 Hq) as (Z2 & Ex2 & Ey2). rewrite <- Ht, <- Hq.
  apply pt_ok_iff in Ot as (Ox1 & Oy1 & Oz1). apply pt_ok_iff in Oq as (Ox2 & Oy2 & Oz2).
  unfold pre_values. cbv zeta. cbn [fst snd].
  share pre1 (fe_mul (fe_square (pz q)) (pz q)) as Ep1.
  assert (Oky : rep_ok (mul_fp pre1 yP) = true) by now apply ok_mul_fp.
  assert (Okx : rep_ok (mul_fp pre1 xP) = true) by now apply ok_mul_fp.
  unfold line_add_body. cbv zeta. unfold line_step.
  share t1 (fe_square (pz t)) as Et1. share t2 (fe_square (pz q)) as Et2.
  share a (fe_mul (px t) t2) as Ea. share c (fe_double (fe_mul (py t) pre1)) as Ec.
  share d (fe_mul (fe_sub (fe_sub (fe_square (fe_add (py q) (pz t))) (fe_square (py q))) t1) t1) as Ed.
  share h (fe_sub (fe_mul (px q) t1) a) as Eh.
  share z3 (fe_mul (fe_sub (fe_sub (fe_square (fe_add (pz t) (pz q))) t1) t2) h) as Ez3.
  share k (fe_square (fe_double h)) as Ek. share hk (fe_mul h k) as Ehk. share ak (fe_mul a k) as Eak.
  share b (fe_sub d c) as Eb. share x3 (fe_sub (fe_square b) (fe_add hk (fe_double ak))) as Ex3.
  split; [rep_accept|]. split; [rep_accept|]. split; [rep_accept|].
  split; [apply pt_ok_iff; cbn [px py pz]; auto 20 with rep|].
  set (X1 := rep (px t)) in *. set (Y1 := rep (py t)) in *. set (Z1' := rep (pz t)) in *.
  set (X2 := rep (px q)) in *. set (Y2 := rep (py q)) in *. set (Z2' := rep (pz q)) in *.
  assert (U : rmul X1 (rmul Z2' Z2') <> rmul X2 (rmul Z1' Z1'))
    by (intros HU; apply NX; rewrite Ex1, Ex2; now apply cross_x).
  split.
  - unfold aff. cbn [px py pz]. fold X1 Y1 Z1' X2 Y2 Z2'.
    rewrite <- (jac_add_chord E) with (k := radd r1 r1); try assumption; [|apply two_nonzero].
    rep_push. rewrite Ex3, Eb, Eak, Ehk, Ek, Ez3, Eh, Ed, Ec, Ea, Et2, Et1, Ep1. f_equal; ring.
  - assert (N : rsub (rmul X2 (rmul Z1' Z1')) (rmul X1 (rmul Z2' Z2')) <> r0)
      by (apply cf_sub_nonzero; congruence).
    exists (rmul (radd (rmul Z2' (rmul Z2' Z2')) (rmul Z2' (rmul Z2' Z2'))) (rep z3)).
    assert (Ez : rep z3 = rmul (radd (rmul Z1' Z2') (rmul Z1' Z2'))
      (rsub (rmul X2 (rmul Z1' Z1')) (rmul X1 (rmul Z2' Z2')))) by (rewrite Ez3, Eh, Ea, Et2, Et1; ring).
    split; [rewrite Ez; nonzero|]. unfold line_through, chord_slope. rep_push.
    rewrite !rep_mul_fp by assumption. rewrite Ez, Eb, Ed, Ec, Et1, Ep1. fold Y1 Y2 X2 Z2' Z1'.
    rewrite Ex1, Ey1, Ex2, Ey2. repeat split; field; nonzero.
Qed.

Lemma line_add_spec t q xP yP x1 y1 x2 y2 :
  pt_ok E t = true -> pt_ok E q = true -> ok_fp xP = true -> ok_fp yP = true ->
  aff E t = Aff x1 y1 -> aff E q = Aff x2 y2 -> x1 <> x2 ->
  line_step (line_add t q (pre_values mul_fp q (xP, yP))) (chord_slope x1 y1 x2 y2) x2 y2 xP yP
    (aff_add E (Aff x1 y1) (Aff x2 y2)) /\
  line_step (line_add_no_pre mul_fp t q (xP, yP)) (chord_slope x1 y1 x2 y2) x2 y2 xP yP
    (aff_add E (Aff x1 y1) (Aff x2 y2)).
Proof.
  intros Ot Oq KX KY Ht Hq NX. pose proof (line_add_body_spec t q xP yP x1 y1 x2 y2 Ot Oq KX KY Ht Hq NX) as S.
  unfold line_add, line_add_no_pre. rewrite (not_identity t x1 y1 Ot Ht), (not_identity q x2 y2 Oq Hq). cbn [orb].
  destruct (pre_values mul_fp q (xP, yP)) as [[[[? ?] ?] ?] ?]. auto.
Qed.
End LineSpecs.
