(* ===== verification/Pairing.v ===== *)
(** The R-ate pairing (gm-sm9-rs/src/pairing/ate.rs).

    The Miller loop works on a Jacobian point of the twist and multiplies the
    accumulator by sparse line values; the final exponentiation raises the result
    to [(p^12 - 1) / N]. The functions that take [&mut T] return the new point.
    The reference is the same walk with affine points and the line through them
    ([miller_ref]); the two differ by a factor in [Fp2], which the final
    exponentiation removes. *)

From Stdlib Require Import Bool ZArith Lia List String Ascii Zmod Field.
From S2P Require Import Prelude Z256 Primality Fp FieldRep Fp2 Fp4 Fp12 Curve Jacobian G1 G2 Frobenius FinalExp Lines.
Import ListNotations.
Open Scope Z_scope.

Definition RATE_ABITS : string := "00100000000000000000000000000000000000010000101100020200101000020".

Definition line_function_double_lw (t : G2Point) (p_aff : Fp * Fp) := line_double Fp2.mul_fp t p_aff.
Definition line_function_add_lw (t q : G2Point) (pre : Fp2 * Fp2 * Fp2 * Fp2 * Fp2) := line_add t q pre.
Definition line_function_add_lw_no_pre (p t : G2Point) (q_aff : Fp * Fp) := line_add_no_pre Fp2.mul_fp p t q_aff.

Definition fp12_line_mul (a : Fp12) (l : Fp2 * Fp2 * Fp2) : Fp12 :=
  let '(lw0, lw1, lw2) := l in
  let lw4 := Fp4.new lw0 lw2 in
  let a0 := Fp12.c0 a in
  let a1 := Fp12.c1 a in
  let a2 := Fp12.c2 a in
  let r0 := fe_mul a0 lw4 in
  let r1 := fe_mul a1 lw4 in
  let r2 := fe_mul a2 lw4 in
  let r2 := Fp4.new (fe_add (Fp4.c0 r2) (fe_mul (Fp4.c0 a0) lw1)) (Fp4.c1 r2) in
  let r2 := Fp4.new (Fp4.c0 r2) (fe_add (Fp4.c1 r2) (fe_mul (Fp4.c1 a0) lw1)) in
  let r0 := Fp4.new (Fp4.c0 r0) (fe_add (Fp4.c1 r0) (fe_mul (Fp4.c0 a1) lw1)) in
  let r0 := Fp4.new (fe_add (Fp4.c0 r0) (fe_mul (Fp2.mul_u (Fp4.c1 a1)) lw1)) (Fp4.c1 r0) in
  let r1 := Fp4.new (Fp4.c0 r1) (fe_add (Fp4.c1 r1) (fe_mul (Fp4.c0 a2) lw1)) in
  let r1 := Fp4.new (fe_add (Fp4.c0 r1) (fe_mul (Fp2.mul_u (Fp4.c1 a2)) lw1)) (Fp4.c1 r1) in
  Fp12.new r0 r1 r2.

(** ** The Miller loop *)

(** [f = fp12_line_mul(&f, ..)] with the line of a step that moves [T]. *)
Definition apply_line (f : Fp12) (l : (Fp2 * Fp2 * Fp2) * G2Point) : Fp12 * G2Point :=
  let '(lw, t) := l in (fp12_line_mul f lw, t).

Definition miller_step (q q_neg : G2Point) (p_aff : Fp * Fp) (pre : Fp2 * Fp2 * Fp2 * Fp2 * Fp2)
    (s : Fp12 * G2Point) (ch : ascii) : Fp12 * G2Point :=
  let '(f, t) := s in
  let f := Fp12.square f in
  let '(f, t) := apply_line f (line_function_double_lw t p_aff) in
  if Ascii.eqb ch "1" then apply_line f (line_function_add_lw t q pre)
  else if Ascii.eqb ch "2" then apply_line f (line_function_add_lw_no_pre t q_neg p_aff)
  else (f, t).

(** [pi_1(Q)] and [-pi_2(Q)] on the twist. The constants are the limbs of
    [alpha1] and [alpha2] of the Frobenius maps. *)
Definition frobenius_q1 (q : G2Point) : G2Point :=
  G2.new (Fp2.frobenius (px q)) (Fp2.frobenius (py q)) (Fp2.mul_fp (Fp2.frobenius (pz q)) alpha1).
Definition frobenius_q2 (q : G2Point) : G2Point :=
  G2.new (px q) (fe_neg (py q)) (Fp2.mul_fp (pz q) alpha2).

(** [for ch in RATE_ABITS.chars()] *)
Definition miller_rounds (digits : list ascii) (p_aff : Fp * Fp) (q : G2Point) : Fp12 * G2Point :=
  let q_neg := G2.neg q in
  let pre := pre_values Fp2.mul_fp q p_aff in
  fold_left (miller_step q q_neg p_aff pre) digits (Fp12.ONE, q).

(** [miller_loop] once [P] is affine. *)
Definition miller_body (digits : list ascii) (p_aff : Fp * Fp) (q : G2Point) : Fp12 :=
  let '(f, t) := miller_rounds digits p_aff q in
  let q1 := frobenius_q1 q in
  let q2 := frobenius_q2 q in
  let '(f, t) := apply_line f (line_function_add_lw_no_pre t q1 p_aff) in
  let '(f, t) := apply_line f (line_function_add_lw_no_pre t q2 p_aff) in
  f.

Definition miller_loop (p : G1Point) (q : G2Point) : Fp12 :=
  match G1.to_affine p with
  | None => Fp12.ONE
  | Some p_aff => miller_body (list_ascii_of_string RATE_ABITS) p_aff q
  end.

(** ** The pairing *)

Definition pairing (p : G1Point) (q : G2Point) : Fp12 :=
  let f := miller_loop p q in
  final_exponentiation f.

(** ** The sparse product *)

Section LineMul.
Context (E : CRing) (RF : FieldRep Fp E) (u v w : E).
Hypothesis u2 : rmul u u = ropp (radd r1 r1).
Hypothesis v2 : rmul v v = u.
Hypothesis w3 : rmul (rmul w w) w = v.
Add Ring EringLM : (rth E).

#[local] Instance LR2 : FieldRep Fp2 E := FieldRep_Fp2 E RF u u2.
#[local] Instance LR4 : FieldRep Fp4 E := FieldRep_Fp4 E RF u v u2 v2.

(** An [Fp4] element with [lw1 * x] added to its two halves. *)
Lemma rep4_add_halves (r : Fp4) (a b : Fp2) :
  rep_ok r = true -> rep_ok a = true -> rep_ok b = true ->
  rep_ok (Fp4.new (fe_add (Fp4.c0 r) a) (fe_add (Fp4.c1 r) b)) = true /\
  rep (Fp4.new (fe_add (Fp4.c0 r) a) (fe_add (Fp4.c1 r) b)) = radd (rep r) (radd (rep a) (rmul (rep b) v)).
Proof.
  intros [H0 H1]%(fp4_ok_iff E RF u u2) Ha Hb. split.
  - apply (fp4_ok_iff E RF u u2). cbn [Fp4.new Fp4.c0 Fp4.c1]. split; now apply (ok_add (FieldRep := LR2)).
  - change (@rep Fp4 _ E LR4) with (ev4 E RF u v u2). unfold ev4, Fp4.new. cbn [Fp4.c0 Fp4.c1].
    rewrite !rep_add by assumption. change (R2 E RF u u2) with LR2. ring.
Qed.

Lemma rep4_halves (x : Fp4) :
  rep_ok x = true -> rep_ok (Fp4.c0 x) = true /\ rep_ok (Fp4.c1 x) = true /\
  rep x = radd (rep (Fp4.c0 x)) (rmul (rep (Fp4.c1 x)) v).
Proof. intros [H0 H1]%(fp4_ok_iff E RF u u2). split; [exact H0|]. split; [exact H1|reflexivity]. Qed.

Lemma rep4_new (a b : Fp2) :
  rep_ok a = true -> rep_ok b = true ->
  rep_ok (Fp4.new a b) = true /\ rep (Fp4.new a b) = radd (rep a) (rmul (rep b) v).
Proof. intros Ha Hb. split; [apply (fp4_ok_iff E RF u u2); now split|reflexivity]. Qed.

Lemma line_mul_unfold (a0 a1 a2 : Fp4) (l0 l1 l2 : Fp2) :
  let l4 := Fp4.new l0 l2 in
  fp12_line_mul (Fp12.new a0 a1 a2) (l0, l1, l2) =
  Fp12.new
    (Fp4.new (fe_add (Fp4.c0 (fe_mul a0 l4)) (fe_mul (Fp2.mul_u (Fp4.c1 a1)) l1))
             (fe_add (Fp4.c1 (fe_mul a0 l4)) (fe_mul (Fp4.c0 a1) l1)))
    (Fp4.new (fe_add (Fp4.c0 (fe_mul a1 l4)) (fe_mul (Fp2.mul_u (Fp4.c1 a2)) l1))
             (fe_add (Fp4.c1 (fe_mul a1 l4)) (fe_mul (Fp4.c0 a2) l1)))
    (Fp4.new (fe_add (Fp4.c0 (fe_mul a2 l4)) (fe_mul (Fp4.c0 a0) l1))
             (fe_add (Fp4.c1 (fe_mul a2 l4)) (fe_mul (Fp4.c1 a0) l1))).
Proof.
  unfold fp12_line_mul. cbv zeta. unfold Fp12.new. cbn [Fp12.c0 Fp12.c1 Fp12.c2].
  generalize (fe_mul a0 (Fp4.new l0 l2)) (fe_mul a1 (Fp4.new l0 l2)) (fe_mul a2 (Fp4.new l0 l2)).
  intros m0 m1 m2. unfold Fp4.new. cbn [Fp4.c0 Fp4.c1]. reflexivity.
Qed.

Lemma ev12_new (a0 a1 a2 : Fp4) :
  (fp12_ok E RF u v u2 v2 (Fp12.new a0 a1 a2) = true <-> rep_ok a0 = true /\ rep_ok a1 = true /\ rep_ok a2 = true) /\
  ev12 E RF u v w u2 v2 (Fp12.new a0 a1 a2) =
    radd (radd (rep a0) (rmul (rep a1) w)) (rmul (rep a2) (rmul w w)).
Proof. split; [apply fp12_ok_iff|reflexivity]. Qed.

Lemma ev12_line_mul (a : Fp12) (l0 l1 l2 : Fp2) :
  fp12_ok E RF u v u2 v2 a = true -> rep_ok l0 = true -> rep_ok l1 = true -> rep_ok l2 = true ->
  fp12_ok E RF u v u2 v2 (fp12_line_mul a (l0, l1, l2)) = true /\
  ev12 E RF u v w u2 v2 (fp12_line_mul a (l0, l1, l2)) =
    rmul (ev12 E RF u v w u2 v2 a)
      (radd (rep l0) (radd (rmul (rep l1) (rmul w w)) (rmul (rep l2) v))).
Proof.
  destruct a as [a0 a1 a2]. change (Build_Fp12 a0 a1 a2) with (Fp12.new a0 a1 a2).
  intros Ha H0 H1 H2. apply ev12_new in Ha as (A0 & A1 & A2). destruct (rep4_new l0 l2 H0 H2) as [Ol El].
  destruct (rep4_halves _ A0) as (P0 & Q0 & E0). destruct (rep4_halves _ A1) as (P1 & Q1 & E1).
  destruct (rep4_halves _ A2) as (P2 & Q2 & E2).
  pose proof (ok_mul_u E RF u u2 _ Q1) as U1. pose proof (ok_mul_u E RF u u2 _ Q2) as U2.
  destruct (rep4_add_halves _ _ _ (ok_mul _ _ A0 Ol) (ok_mul _ _ U1 H1) (ok_mul _ _ P1 H1)) as [R0 S0].
  destruct (rep4_add_halves _ _ _ (ok_mul _ _ A1 Ol) (ok_mul _ _ U2 H1) (ok_mul _ _ P2 H1)) as [R1 S1].
  destruct (rep4_add_halves _ _ _ (ok_mul _ _ A2 Ol) (ok_mul _ _ P0 H1) (ok_mul _ _ Q0 H1)) as [R2' S2].
  rewrite line_mul_unfold. split; [apply ev12_new; auto|].
  rewrite (proj2 (ev12_new _ _ _)), S0, S1, S2, (proj2 (ev12_new _ _ _)).
  rewrite !rep_mul by assumption. rewrite El.
  pose proof (rep_mul_u E RF u u2 _ Q1) as M1. pose proof (rep_mul_u E RF u u2 _ Q2) as M2.
  change (R2 E RF u u2) with LR2 in M1, M2. rewrite M1, M2, E0, E1, E2. ring [u2 v2 w3].
Qed.
End LineMul.

(** ** The reference walk on affine points *)

(** The conjugate [a - b u] of [a + b u]. *)
Definition conj2 (x : E2_field) : E2_field := (fst x, Zmod.opp (snd x)).
Definition in_E2 (k : ZP) : E2_field := (k, Zmod.zero).

(** [pi_1(Q)] and [-pi_2(Q)] in twist coordinates, [w^p = alpha1 w]. *)
Definition ref_q1 (Q : apoint E2_field) : apoint E2_field :=
  match Q with
  | Inf => Inf
  | Aff x y =>
      let a := in_E2 (val alpha1) in
      Aff (cdiv (conj2 x) (rmul a a)) (cdiv (conj2 y) (rmul a (rmul a a)))
  end.
Definition ref_q2 (Q : apoint E2_field) : apoint E2_field :=
  match Q with
  | Inf => Inf
  | Aff x y =>
      let a := in_E2 (val alpha2) in
      Aff (cdiv x (rmul a a)) (cdiv (ropp y) (rmul a (rmul a a)))
  end.

Section Reference.
Context (E : CRing) (f : from_ZP E) (w : E).

Definition tw_v : E := rmul (rmul w w) w.
Definition tw_u : E := rmul tw_v tw_v.

(** [Fp2] in the ring, with [u = w^6]. *)
Definition iota (x : E2_field) : E := radd (f (fst x)) (rmul (f (snd x)) tw_u).

(** The line of slope [lam] through [(x, y)] at [P = (xP, yP)], scaled by [w^3]. *)
Definition line_value (lam x y : E2_field) (xP yP : ZP) : E :=
  radd (iota (rsub (rmul lam x) y))
    (radd (rmul (ropp (rmul (iota lam) (f xP))) (rmul w w)) (rmul (f yP) tw_v)).

(** A step of the walk; [None] where the line is not defined by a slope. *)
Definition ref_double (xP yP : ZP) (s : E * apoint E2_field) : option (E * apoint E2_field) :=
  let '(F, T) := s in
  match T with
  | Inf => None
  | Aff x y =>
      if ceq_dec E2_field y r0 then None
      else Some (rmul (rmul F F) (line_value (tangent_slope x y) x y xP yP), aff_double E2_field T)
  end.

Definition ref_add (xP yP : ZP) (Q : apoint E2_field) (s : E * apoint E2_field) : option (E * apoint E2_field) :=
  let '(F, T) := s in
  match T, Q with
  | Aff x1 y1, Aff x2 y2 =>
      if ceq_dec E2_field x1 x2 then None
      else Some (rmul F (line_value (chord_slope x1 y1 x2 y2) x2 y2 xP yP), aff_add E2_field T Q)
  | _, _ => None
  end.

Definition ref_step (xP yP : ZP) (Q : apoint E2_field) (s : E * apoint E2_field) (ch : ascii)
    : option (E * apoint E2_field) :=
  match ref_double xP yP s with
  | None => None
  | Some s =>
      if Ascii.eqb ch "1" then ref_add xP yP Q s
      else if Ascii.eqb ch "2" then ref_add xP yP (aff_neg E2_field Q) s
      else Some s
  end.

Fixpoint ref_walk (xP yP : ZP) (Q : apoint E2_field) (s : E * apoint E2_field) (digits : list ascii)
    : option (E * apoint E2_field) :=
  match digits with
  | [] => Some s
  | ch :: digits =>
      match ref_step xP yP Q s ch with
      | Some s => ref_walk xP yP Q s digits
      | None => None
      end
  end.

(** The walk over the digits and the two Frobenius additions. *)
Definition miller_ref_digits (digits : list ascii) (xP yP : ZP) (Q : apoint E2_field) : option E :=
  match ref_walk xP yP Q (r1, Q) digits with
  | None => None
  | Some s =>
      match ref_add xP yP (ref_q1 Q) s with
      | None => None
      | Some s =>
          match ref_add xP yP (ref_q2 Q) s with
          | None => None
          | Some (F, _) => Some F
          end
      end
  end.

(** The Miller function of the R-ate pairing at [P = (xP, yP)]. *)
Definition miller_ref (xP yP : ZP) (Q : apoint E2_field) : option E :=
  miller_ref_digits (list_ascii_of_string RATE_ABITS) xP yP Q.
End Reference.

(** ** The loop follows the reference up to a factor in [Fp2] *)

Section Refine.
Context (E : CRing) (f : from_ZP E) (w : E).
Hypothesis w12 : rpow w 12 = ropp (radd r1 r1).
Add Ring EringPR : (rth E).
Add Ring ZPringPR : (Zmod.ring_theory p).

Abbreviation iota' := (iota E f w).
Abbreviation u := (tw_u E w).
Abbreviation v := (tw_v E w).
Abbreviation has' := (has E f w).

Lemma tw_u2 : rmul u u = ropp (radd r1 r1).
Proof. exact (poly_u2 E w w12). Qed.

Lemma iota_add x y : iota' (radd x y) = radd (iota' x) (iota' y).
Proof.
  destruct x as [a b], y as [c d]. unfold iota.
  change (radd ((a, b) : E2_field) (c, d)) with ((Zmod.add a c, Zmod.add b d) : E2_field). cbn [fst snd].
  rewrite !(phi_add E f). ring.
Qed.

Lemma iota_mul x y : iota' (rmul x y) = rmul (iota' x) (iota' y).
Proof.
  destruct x as [a b], y as [c d]. unfold iota.
  change (rmul ((a, b) : E2_field) (c, d)) with
    ((Zmod.add (Zmod.mul a c) (Zmod.mul (Zmod.opp (Zmod.add Zmod.one Zmod.one)) (Zmod.mul b d)),
      Zmod.add (Zmod.mul a d) (Zmod.mul b c)) : E2_field).
  cbn [fst snd].
  rewrite !(phi_add E f), !(phi_mul E f), (phi_opp E f), (phi_add E f), (phi_1 E f). ring [tw_u2].
Qed.

Lemma iota_opp x : iota' (ropp x) = ropp (iota' x).
Proof.
  destruct x as [a b]. unfold iota. change (ropp ((a, b) : E2_field)) with ((Zmod.opp a, Zmod.opp b) : E2_field).
  cbn [fst snd]. rewrite !(phi_opp E f). ring.
Qed.

Lemma iota_1 : iota' r1 = r1.
Proof.
  unfold iota. change (@r1 E2_field) with ((Zmod.one, Zmod.zero) : E2_field). cbn [fst snd].
  rewrite (phi_0 E f), (phi_1 E f). ring.
Qed.

Lemma iota_in k : iota' (in_E2 k) = f k.
Proof. unfold iota, in_E2. cbn [fst snd]. rewrite (phi_0 E f). ring. Qed.

(** The scalar multiplication of the line functions. *)
Lemma mul_fp_ok x k :
  @rep_ok _ _ _ (cr_rep (CoordRep := CoordRep_Fp2)) x = true -> fp_ok k = true ->
  @rep_ok _ _ _ (cr_rep (CoordRep := CoordRep_Fp2)) (Fp2.mul_fp x k) = true.
Proof. rewrite g2_rep_ok. apply fp2_mul_fp_ok. Qed.

Lemma mul_fp_rep x k :
  @rep_ok _ _ _ (cr_rep (CoordRep := CoordRep_Fp2)) x = true -> fp_ok k = true ->
  @rep _ _ _ (cr_rep (CoordRep := CoordRep_Fp2)) (Fp2.mul_fp x k) =
    rmul (@rep _ _ _ (cr_rep (CoordRep := CoordRep_Fp2)) x) (in_E2 (val k)).
Proof.
  rewrite g2_rep_ok, g2_rep, !rep2_pair. intros X K. apply fp2_canonical_iff in X as [X0 X1]. unfold pair2, in_E2.
  unfold Fp2.mul_fp. cbn [Fp2.c0 Fp2.c1 fe_mul FieldElement_Fp].
  rewrite (proj2 (fp_mul_spec _ _ X0 K)), (proj2 (fp_mul_spec _ _ X1 K)).
  generalize (val (Fp2.c0 x)) (val (Fp2.c1 x)) (val k). intros a b c. symmetry.
  change ((Zmod.add (Zmod.mul a c) (Zmod.mul (Zmod.opp (Zmod.add Zmod.one Zmod.one)) (Zmod.mul b Zmod.zero)),
           Zmod.add (Zmod.mul a Zmod.zero) (Zmod.mul b c)) = (Zmod.mul a c, Zmod.mul b c)).
  f_equal; ring.
Qed.

Abbreviation step_ok := (line_step E2_field (fun k => in_E2 (val k))).

Lemma line_rep_ok : @rep_ok _ _ _ (LR2 E (FieldRep_Fp E f) u (poly_u2 E w w12)) = fp2_canonical.
Proof. reflexivity. Qed.
Lemma line_rep x : @rep _ _ _ (LR2 E (FieldRep_Fp E f) u (poly_u2 E w w12)) x = iota' (pair2 x).
Proof. reflexivity. Qed.

Lemma has_line_mul a F l0 l1 l2 :
  has' a F -> fp2_canonical l0 = true -> fp2_canonical l1 = true -> fp2_canonical l2 = true ->
  has' (fp12_line_mul a (l0, l1, l2))
    (rmul F (radd (iota' (pair2 l0)) (radd (rmul (iota' (pair2 l1)) (rmul w w)) (rmul (iota' (pair2 l2)) v)))).
Proof.
  intros [C <-] H0 H1 H2. unfold has.
  rewrite <- (fp12_ok_canonical E f w w12) in *. rewrite !(poly_ev_ev12 E f w w12).
  rewrite <- line_rep_ok in H0, H1, H2. rewrite <- !line_rep.
  apply ev12_line_mul; assumption || reflexivity.
Qed.

(** The state of the loop stands for a reference state. *)
Definition follows (s : Fp12 * G2Point) (r : E * apoint E2_field) : Prop :=
  pt_ok E2_field (snd s) = true /\ aff E2_field (snd s) = snd r /\
  exists c : E2_field, c <> r0 /\ has' (fst s) (rmul (iota' c) (fst r)).

Lemma apply_line_follows a c F r lam x y xP yP T' :
  c <> (r0 : E2_field) -> has' a (rmul (iota' c) F) ->
  step_ok r lam x y xP yP T' ->
  follows (apply_line a r) (rmul F (line_value E f w lam x y (val xP) (val yP)), T').
Proof.
  intros C0 Ha. destruct r as [[[l0 l1] l2] t']. cbn [line_step apply_line].
  rewrite g2_rep_ok, g2_rep, !rep2_pair. intros (H0 & H1 & H2 & Ot & At & d & D0 & L0 & L1 & L2).
  unfold follows. cbn [fst snd]. split; [assumption|]. split; [assumption|].
  exists (rmul c d). split; [now apply cf_mul_nonzero|].
  eapply has_eq; [apply has_line_mul; eassumption|]. rewrite L0, L1, L2. unfold line_value.
  rewrite iota_opp, !iota_mul, !iota_in. ring.
Qed.

Lemma double_follows a t F T xP yP r :
  fp_ok xP = true -> fp_ok yP = true ->
  follows (a, t) (F, T) -> ref_double E f w (val xP) (val yP) (F, T) = Some r ->
  follows (apply_line (Fp12.square a) (line_function_double_lw t (xP, yP))) r.
Proof.
  intros KX KY (Ot & At & c & C0 & Ha) R. cbn [fst snd] in *. unfold ref_double in R.
  destruct T as [|x y]; [discriminate|]. destruct (ceq_dec E2_field y r0) as [|Y0]; [discriminate|].
  apply some_inj in R. subst r.
  apply (apply_line_follows _ (rmul c c)); [now apply cf_mul_nonzero|..].
  - eapply has_eq; [apply has_square; eassumption|]. rewrite iota_mul. ring.
  - exact (line_double_spec E2_field Fp2.mul_fp fp_ok (fun k => in_E2 (val k)) mul_fp_ok mul_fp_rep
      t xP yP x y Ot KX KY At Y0).
Qed.

Lemma add_follows a t q F T Q xP yP r :
  fp_ok xP = true -> fp_ok yP = true -> pt_ok E2_field q = true -> aff E2_field q = Q ->
  follows (a, t) (F, T) -> ref_add E f w (val xP) (val yP) Q (F, T) = Some r ->
  follows (apply_line a (line_function_add_lw t q (pre_values Fp2.mul_fp q (xP, yP)))) r /\
  follows (apply_line a (line_function_add_lw_no_pre t q (xP, yP))) r.
Proof.
  intros KX KY Oq Aq (Ot & At & c & C0 & Ha) R. cbn [fst snd] in *. unfold ref_add in R.
  destruct T as [|x1 y1]; [discriminate|]. destruct Q as [|x2 y2]; [discriminate|].
  destruct (ceq_dec E2_field x1 x2) as [|NX]; [discriminate|]. apply some_inj in R. subst r.
  pose proof (line_add_spec E2_field Fp2.mul_fp fp_ok (fun k => in_E2 (val k)) mul_fp_ok mul_fp_rep
    t q xP yP x1 y1 x2 y2 Ot Oq KX KY At Aq NX) as [S1 S2].
  split; eapply apply_line_follows; eassumption.
Qed.

Lemma step_follows q xP yP s r r' ch :
  fp_ok xP = true -> fp_ok yP = true -> pt_ok E2_field q = true -> follows s r ->
  ref_step E f w (val xP) (val yP) (aff E2_field q) r ch = Some r' ->
  follows (miller_step q (G2.neg q) (xP, yP) (pre_values Fp2.mul_fp q (xP, yP)) s ch) r'.
Proof.
  intros KX KY Oq Hs R. destruct s as [a t], r as [F T]. unfold ref_step in R.
  destruct (ref_double E f w (val xP) (val yP) (F, T)) as [[F1 T1]|] eqn:D; [|discriminate].
  pose proof (double_follows a t F T xP yP _ KX KY Hs D) as Hd. unfold miller_step.
  destruct (apply_line (Fp12.square a) (line_function_double_lw t (xP, yP))) as [a1 t1].
  destruct (j_neg_spec E2_field q Oq) as [On An].
  destruct (Ascii.eqb ch "1"); [now apply (add_follows _ _ _ _ _ _ _ _ _ KX KY Oq eq_refl Hd R)|].
  destruct (Ascii.eqb ch "2"); [|apply some_inj in R; now subst r'].
  now apply (add_follows _ _ _ _ _ _ _ _ _ KX KY On An Hd R).
Qed.

Lemma walk_follows q xP yP digits s r r' :
  fp_ok xP = true -> fp_ok yP = true -> pt_ok E2_field q = true -> follows s r ->
  ref_walk E f w (val xP) (val yP) (aff E2_field q) r digits = Some r' ->
  follows (fold_left (miller_step q (G2.neg q) (xP, yP) (pre_values Fp2.mul_fp q (xP, yP))) digits s) r'.
Proof.
  intros KX KY Oq. revert s r. induction digits as [|ch digits IH]; intros s r Hs R; cbn [ref_walk fold_left] in *.
  - apply some_inj in R. now subst r'.
  - destruct (ref_step E f w (val xP) (val yP) (aff E2_field q) r ch) as [r1|] eqn:S; [|discriminate].
    exact (IH _ r1 (step_follows q xP yP s r r1 ch KX KY Oq Hs S) R).
Qed.
End Refine.

(** ** The Frobenius images of [Q] *)

Section TwistFrobenius.
Add Ring ZPringTF : (Zmod.ring_theory p).
Add Field E2fieldTF : (cfield_theory E2_field).

Lemma conj2_mul x y : conj2 (rmul x y) = rmul (conj2 x) (conj2 y).
Proof.
  destruct x as [a b], y as [c d]. unfold conj2.
  change ((Zmod.add (Zmod.mul a c) (Zmod.mul (Zmod.opp (Zmod.add Zmod.one Zmod.one)) (Zmod.mul b d)),
           Zmod.opp (Zmod.add (Zmod.mul a d) (Zmod.mul b c))) =
          (Zmod.add (Zmod.mul a c) (Zmod.mul (Zmod.opp (Zmod.add Zmod.one Zmod.one)) (Zmod.mul (Zmod.opp b) (Zmod.opp d))),
           Zmod.add (Zmod.mul a (Zmod.opp d)) (Zmod.mul (Zmod.opp b) c))).
  f_equal; ring.
Qed.

Lemma conj2_conj2 x : conj2 (conj2 x) = x.
Proof. destruct x as [a b]. apply (f_equal (@pair ZP ZP a)). cbn [conj2 fst snd]. ring. Qed.

Lemma conj2_0 : conj2 r0 = r0.
Proof. apply e2_eq; vm_compute; reflexivity. Qed.

Lemma conj2_nonzero x : x <> r0 -> conj2 x <> r0.
Proof. intros N H. apply N. rewrite <- (conj2_conj2 x), H. apply conj2_0. Qed.

Lemma conj2_div x y : y <> r0 -> conj2 (cdiv x y) = cdiv (conj2 x) (conj2 y).
Proof.
  intros N. pose proof (conj2_nonzero y N) as N'.
  assert (H : rmul (conj2 (cdiv x y)) (conj2 y) = conj2 x).
  { rewrite <- conj2_mul. apply f_equal. field. assumption. }
  rewrite <- H. field. assumption.
Qed.

Lemma pair2_frobenius x : fp2_canonical x = true -> pair2 (Fp2.frobenius x) = conj2 (pair2 x).
Proof.
  intros [X0 X1]%fp2_canonical_iff. unfold pair2, conj2, Fp2.frobenius. cbn [Fp2.c0 Fp2.c1 fst snd fe_neg FieldElement_Fp].
  now rewrite (proj2 (fp_neg_spec _ X1)).
Qed.

Lemma alphas_nonzero : in_E2 (val alpha1) <> r0 /\ in_E2 (val alpha2) <> r0.
Proof.
  split; intros H; apply (f_equal fst) in H; apply (f_equal Zmod.to_Z) in H; vm_compute in H; discriminate.
Qed.

Lemma alphas_canonical : fp_ok alpha1 = true /\ fp_ok alpha2 = true.
Proof. split; reflexivity. Qed.

Lemma frobenius_q1_spec q :
  pt_ok E2_field q = true ->
  pt_ok E2_field (frobenius_q1 q) = true /\ aff E2_field (frobenius_q1 q) = ref_q1 (aff E2_field q).
Proof.
  intros (X & Y & Z)%pt_ok_iff. destruct alphas_canonical as [K1 _]. destruct alphas_nonzero as [N1 _].
  rewrite g2_rep_ok in X, Y, Z.
  assert (Zf : fp2_canonical (Fp2.frobenius (pz q)) = true) by now apply fp2_frobenius_ok.
  unfold frobenius_q1, G2.new. split.
  - apply pt_ok_iff. rewrite g2_rep_ok. cbn [px py pz]. auto using fp2_frobenius_ok, fp2_mul_fp_ok.
  - unfold aff. cbn [px py pz]. rewrite <- g2_rep_ok in Zf. rewrite (mul_fp_rep _ _ Zf K1).
    rewrite g2_rep, !rep2_pair, !pair2_frobenius by assumption.
    set (a := in_E2 (val alpha1)) in *. generalize (pair2 (px q)) (pair2 (py q)) (pair2 (pz q)). intros x y z.
    unfold jac. destruct (ceq_dec E2_field z r0) as [->|Z0].
    + destruct (ceq_dec E2_field _ r0) as [_|N]; [reflexivity|]. exfalso. apply N. rewrite conj2_0. ring.
    + pose proof (conj2_nonzero z Z0) as Zc.
      destruct (ceq_dec E2_field _ r0) as [H|_]; [exfalso; revert H; now apply cf_mul_nonzero|].
      cbn [ref_q1]. fold a. rewrite !conj2_div by auto using cf_mul_nonzero. rewrite !conj2_mul. f_equal; field; auto.
Qed.

Lemma frobenius_q2_spec q :
  pt_ok E2_field q = true ->
  pt_ok E2_field (frobenius_q2 q) = true /\ aff E2_field (frobenius_q2 q) = ref_q2 (aff E2_field q).
Proof.
  intros (X & Y & Z)%pt_ok_iff. destruct alphas_canonical as [_ K2]. destruct alphas_nonzero as [_ N2].
  unfold frobenius_q2, G2.new. split.
  - apply pt_ok_iff. cbn [px py pz]. split; [assumption|]. split; [now apply ok_neg|]. now apply mul_fp_ok.
  - unfold aff. cbn [px py pz]. rewrite (mul_fp_rep _ _ Z K2), rep_neg by assumption.
    set (a := in_E2 (val alpha2)) in *. set (x := rep (px q)). set (y := rep (py q)). set (z := rep (pz q)).
    clearbody x y z. unfold jac. destruct (ceq_dec E2_field z r0) as [->|Z0].
    + destruct (ceq_dec E2_field _ r0) as [_|N]; [reflexivity|]. exfalso. apply N. ring.
    + destruct (ceq_dec E2_field _ r0) as [H|_]; [exfalso; revert H; now apply cf_mul_nonzero|].
      unfold ref_q2. change (in_E2 (val alpha2)) with a. cbv zeta. f_equal; field; auto.
Qed.
End TwistFrobenius.

(** ** The factor in [Fp2] disappears *)

Lemma final_exp_factor : 0 <= final_exp / (p ^ 2 - 1) /\ final_exp = (p ^ 2 - 1) * (final_exp / (p ^ 2 - 1)) /\ 0 < final_exp.
Proof. vm_compute. repeat split; congruence. Qed.

Section Main.
Context (E : CRing) (f : from_ZP E) (w : E).
Hypothesis w12 : rpow w 12 = ropp (radd r1 r1).
Add Ring EringPM : (rth E).

Abbreviation iota' := (iota E f w).
Abbreviation has' := (has E f w).

Lemma tw_u_pth : rpow (tw_u E w) (Z.to_nat p) = ropp (tw_u E w).
Proof.
  unfold tw_u, tw_v. rewrite !rpow_rmul, (w_pow_p E f w w12).
  destruct (alpha_reps E f) as (_ & _ & _ & _ & _ & A6). ring [A6].
Qed.

Lemma iota_pth x : rpow (iota' x) (Z.to_nat p) = iota' (conj2 x).
Proof.
  destruct x as [a b]. unfold iota, conj2. cbn [fst snd].
  rewrite (rpow_p_add E f), rpow_rmul, !(rpow_p_phi E f), tw_u_pth, (phi_opp E f). ring.
Qed.

Lemma iota_inverse (c : E2_field) : c <> r0 -> rmul (iota' c) (iota' (cinv c)) = r1.
Proof.
  intros C. rewrite <- (iota_mul E f w w12), <- (iota_1 E f w). apply f_equal.
  rewrite (Rmul_comm (rth E2)). exact (inv2_l c C).
Qed.

Lemma iota_final (c : E2_field) : c <> r0 -> zpow (iota' c) final_exp = r1.
Proof.
  intros C. destruct final_exp_factor as (K0 & -> & _). pose proof p_gt_1.
  assert (P2 : 1 < p ^ 2) by nia.
  generalize dependent (final_exp / (p ^ 2 - 1)). intros k K0. rewrite zpow_mul by lia.
  assert (Z1 : zpow (iota' c) (p ^ 2 - 1) = r1); [|rewrite Z1; apply zpow_one].
  assert (Q : zpow (iota' c) (p ^ 2) = iota' c).
  { rewrite <- (powp_zpow E (iota' c) 2 : _ = zpow (iota' c) (p ^ 2)). cbn [powp]. rewrite !iota_pth. now rewrite conj2_conj2. }
  replace (p ^ 2) with ((p ^ 2 - 1) + 1) in Q by lia. rewrite zpow_add, zpow_1 in Q by lia.
  transitivity (rmul (rmul (zpow (iota' c) (p ^ 2 - 1)) (iota' c)) (iota' (cinv c))); [|rewrite Q; now apply iota_inverse].
  transitivity (rmul (zpow (iota' c) (p ^ 2 - 1)) (rmul (iota' c) (iota' (cinv c)))); [|ring].
  rewrite iota_inverse by assumption. ring.
Qed.

(** The final exponentiation on any canonical element. *)
Lemma final_has x a : has' x a -> has' (final_exponentiation x) (zpow a final_exp).
Proof.
  intros H. destruct (is_zero x) eqn:Z0.
  - destruct H as [C <-]. pose proof (has_zero E f w w12 x C Z0) as V. rewrite V.
    rewrite zpow_zero by apply final_exp_factor. apply (final_zero E f w w12). split; assumption.
  - pose proof H as [C Va]. destruct (fe_inv x) as [z|] eqn:I; [|apply inv12_none in I; [congruence|assumption]].
    apply (final_power E f w w12 x a (poly_ev f w z) H). rewrite <- Va.
    rewrite <- (fp12_ok_canonical E f w w12) in C. rewrite !(poly_ev_ev12 E f w w12).
    apply (ev12_inv _ _ _ _ _ _ _ eq_refl x z C I).
Qed.

Lemma rounds_follow digits Q xP yP r :
  fp_ok xP = true -> fp_ok yP = true -> pt_ok E2_field Q = true ->
  ref_walk E f w (val xP) (val yP) (aff E2_field Q) (r1, aff E2_field Q) digits = Some r ->
  follows E f w (miller_rounds digits (xP, yP) Q) r.
Proof.
  intros KX KY OQ W. apply (walk_follows E f w w12 Q xP yP _ _ _ _ KX KY OQ) with (2 := W).
  split; [exact OQ|]. split; [reflexivity|]. exists r1. split; [apply cf_one_nonzero|].
  cbn [fst]. eapply has_eq; [apply (has_one E f w w12)|]. rewrite (iota_1 E f w). ring.
Qed.

Lemma miller_body_follows digits Q xP yP F :
  fp_ok xP = true -> fp_ok yP = true -> pt_ok E2_field Q = true ->
  miller_ref_digits E f w digits (val xP) (val yP) (aff E2_field Q) = Some F ->
  exists c : E2_field, c <> r0 /\ has' (miller_body digits (xP, yP) Q) (rmul (iota' c) F).
Proof.
  intros KX KY OQ R. unfold miller_body. unfold miller_ref_digits in R.
  destruct (ref_walk E f w (val xP) (val yP) (aff E2_field Q) (r1, aff E2_field Q) digits)
    as [[F0 T0]|] eqn:W; [|discriminate].
  destruct (ref_add E f w (val xP) (val yP) (ref_q1 (aff E2_field Q)) (F0, T0)) as [[F1 T1]|] eqn:A1; [|discriminate].
  destruct (ref_add E f w (val xP) (val yP) (ref_q2 (aff E2_field Q)) (F1, T1)) as [[F2 T2]|] eqn:A2; [|discriminate].
  apply some_inj in R. subst F2.
  pose proof (rounds_follow _ Q xP yP _ KX KY OQ W) as S1.
  destruct (miller_rounds _ (xP, yP) Q) as [f1 t1].
  destruct (frobenius_q1_spec Q OQ) as [O1 E1]. destruct (frobenius_q2_spec Q OQ) as [O2 E2].
  destruct (add_follows E f w w12 _ _ _ _ _ _ _ _ _ KX KY O1 E1 S1 A1) as [_ S2].
  destruct (apply_line f1 _) as [f2 t2].
  destruct (add_follows E f w w12 _ _ _ _ _ _ _ _ _ KX KY O2 E2 S2 A2) as [_ S3].
  destruct (apply_line f2 _) as [f3 t3]. destruct S3 as (_ & _ & c & C0 & H). exists c. split; [exact C0|exact H].
Qed.

(** ** Degenerate inputs *)

Lemma zero_line a F : has' a F -> has' (fp12_line_mul a (fe_ZERO, fe_ZERO, fe_ZERO)) r0.
Proof.
  intros H. assert (C : fp2_canonical fe_ZERO = true) by (rewrite <- rep2_ok; apply ok_zero).
  eapply has_eq; [apply (has_line_mul E f w w12); eassumption|].
  assert (Z0 : pair2 fe_ZERO = r0) by (rewrite <- rep2_pair; apply rep_zero).
  assert (I0 : iota' r0 = r0) by exact (eq_trans (iota_in E f w Zmod.zero) (phi_0 E f)).
  rewrite Z0. change (@r0 E2) with (@r0 E2_field). rewrite I0. ring.
Qed.

Lemma identity_step q p_aff pre a F t ch :
  has' a F -> j_is_identity t = true ->
  exists a' F', miller_step q (G2.neg q) p_aff pre (a, t) ch = (a', t) /\ has' a' F'.
Proof.
  intros H I. pose proof (zero_line _ _ (has_square E f w w12 _ _ H)) as H2. pose proof (zero_line _ _ H2) as H3.
  unfold miller_step, line_function_double_lw, line_function_add_lw, line_function_add_lw_no_pre,
    line_double, line_add, line_add_no_pre, apply_line. rewrite I. cbn [orb].
  destruct (Ascii.eqb ch "1"); [|destruct (Ascii.eqb ch "2")]; rewrite ?I; cbn [orb]; do 2 eexists; (split; [reflexivity|]);
    first [exact H3 | exact H2].
Qed.

Lemma identity_rounds q p_aff pre digits a F t :
  has' a F -> j_is_identity t = true ->
  exists a' F', fold_left (miller_step q (G2.neg q) p_aff pre) digits (a, t) = (a', t) /\ has' a' F'.
Proof.
  intros H I. revert a F H. induction digits as [|ch digits IH]; intros a F H; cbn [fold_left]; [eauto|].
  destruct (identity_step q p_aff pre a F t ch H I) as (a1 & F1 & -> & H1). eauto.
Qed.

Lemma identity_body digits q p_aff :
  j_is_identity q = true -> has' (miller_body digits p_aff q) r0.
Proof.
  intros I. unfold miller_body.
  assert (R : exists a' F', miller_rounds digits p_aff q = (a', q) /\ has' a' F')
    by exact (identity_rounds q p_aff _ digits _ _ q (has_one E f w w12) I).
  destruct R as (a & F & -> & H).
  unfold line_function_add_lw_no_pre, line_add_no_pre, apply_line. rewrite I. cbn [orb]. rewrite I.
  exact (zero_line _ _ (zero_line _ _ H)).
Qed.
End Main.

(** ** A family of points on which the walk is easy to follow

    The points [(1/s^2, 1/s^3)] satisfy [y^2 = x^3] and the chord-and-tangent law
    adds their parameters, so the walk from [s] is integer arithmetic on [s]. *)

Section Cusp.
Context (K : CField).
Add Field KfieldCu : (cfield_theory K).

Definition cusp (s : K) : apoint K := Aff (cdiv r1 (rmul s s)) (cdiv r1 (rmul s (rmul s s))).

Lemma cusp_y (s : K) : s <> r0 -> cdiv r1 (rmul s (rmul s s)) <> (r0 : K).
Proof.
  intros S H. apply (cf_one_nonzero K).
  transitivity (rmul (cdiv r1 (rmul s (rmul s s))) (rmul s (rmul s s))); [field; assumption|]. rewrite H. ring.
Qed.

Lemma cusp_double (s : K) : s <> r0 -> aff_double K (cusp s) = cusp (radd s s).
Proof.
  intros S. pose proof (cf_double_nonzero K s S). unfold cusp, aff_double.
  destruct (ceq_dec K _ r0) as [H0|_]; [exfalso; revert H0; now apply cusp_y|].
  f_equal; field; repeat split; auto using two_nonzero.
Qed.

Lemma cusp_x (s t : K) : s <> r0 -> t <> r0 -> rsub s t <> r0 -> radd s t <> r0 ->
  cdiv r1 (rmul s s) <> (cdiv r1 (rmul t t) : K).
Proof.
  intros S T D A H. apply (cf_div_eq K r1 (rmul s s) r1 (rmul t t)) in H; [|auto using cf_mul_nonzero..].
  apply (cf_mul_nonzero K _ _ D A). transitivity (rsub (rmul r1 (rmul s s)) (rmul r1 (rmul t t))); [ring|].
  rewrite H. ring.
Qed.

Lemma cusp_add (s t : K) : s <> r0 -> t <> r0 -> rsub s t <> r0 -> radd s t <> r0 ->
  aff_add K (cusp s) (cusp t) = cusp (radd s t).
Proof.
  intros S T D A. unfold cusp, aff_add.
  destruct (ceq_dec K _ _) as [H|_]; [exfalso; revert H; now apply cusp_x|].
  assert (N : rsub (rmul s s) (rmul t t) <> r0).
  { intros H. apply (cf_mul_nonzero K _ _ D A). rewrite <- H. ring. }
  f_equal; field; repeat split; auto.
Qed.
End Cusp.

(** The walk from the parameter 1, on integers modulo [p]. *)
Definition cpoint (n : Z) : apoint E2_field := cusp E2_field (in_E2 (Zmod.of_Z p n)).
Definition cdouble (n : Z) : option Z := if n mod p =? 0 then None else Some (n + n).
Definition cadd (e n : Z) : option Z :=
  if (n mod p =? 0) || (e mod p =? 0) || ((n - e) mod p =? 0) || ((n + e) mod p =? 0) then None else Some (n + e).

Fixpoint cwalk (n : Z) (digits : list ascii) : option Z :=
  match digits with
  | [] => Some n
  | ch :: digits =>
      match cdouble n with
      | None => None
      | Some n =>
          match (if Ascii.eqb ch "1" then cadd 1 n else if Ascii.eqb ch "2" then cadd (-1) n else Some n) with
          | Some n => cwalk n digits
          | None => None
          end
      end
  end.

Section CuspWalk.
Context (E : CRing) (f : from_ZP E) (w : E).
Add Ring ZPringCW : (Zmod.ring_theory p).
Add Field E2fieldCW : (cfield_theory E2_field).

Lemma in_E2_add a b : in_E2 (Zmod.add a b) = radd (in_E2 a) (in_E2 b).
Proof. exact (phi_add E2 phi2 a b). Qed.
Lemma in_E2_sub a b : in_E2 (Zmod.sub a b) = rsub (in_E2 a) (in_E2 b).
Proof. exact (phi_sub E2 phi2 a b). Qed.

Lemma param_nonzero n : (n mod p =? 0) = false -> in_E2 (Zmod.of_Z p n) <> r0.
Proof.
  intros H Z0. apply Z.eqb_neq in H. apply H. apply (f_equal fst) in Z0. apply (f_equal Zmod.to_Z) in Z0.
  cbn [in_E2 fst] in Z0. rewrite Zmod.to_Z_of_Z in Z0. exact Z0.
Qed.

Lemma cdouble_defined xP yP F n n' :
  cdouble n = Some n' -> exists F', ref_double E f w xP yP (F, cpoint n) = Some (F', cpoint n').
Proof.
  unfold cdouble. destruct (n mod p =? 0) eqn:N; [discriminate|]. intros H. apply some_inj in H. subst n'.
  apply param_nonzero in N. unfold ref_double, cpoint. rewrite Zmod.of_Z_add, in_E2_add, <- cusp_double by assumption.
  unfold cusp at 1. destruct (ceq_dec E2_field _ r0) as [Z0|_]; [exfalso; revert Z0; now apply cusp_y|]. eauto.
Qed.

Lemma cadd_defined xP yP F e n n' :
  cadd e n = Some n' -> exists F', ref_add E f w xP yP (cpoint e) (F, cpoint n) = Some (F', cpoint n').
Proof.
  unfold cadd. destruct (_ || _) eqn:C; [discriminate|]. intros H. apply some_inj in H. subst n'.
  rewrite !orb_false_iff in C. destruct C as [[[N1 N2] N3] N4]. apply param_nonzero in N1, N2, N3, N4.
  unfold ref_add, cpoint. rewrite Zmod.of_Z_sub, in_E2_sub in N3. rewrite Zmod.of_Z_add, in_E2_add in N4.
  rewrite Zmod.of_Z_add, in_E2_add, <- cusp_add by assumption.
  unfold cusp at 1 2. destruct (ceq_dec E2_field _ _) as [Z0|_]; [exfalso; revert Z0; now apply cusp_x|]. eauto.
Qed.

Lemma cpoint_neg n : (n mod p =? 0) = false -> cpoint (- n) = aff_neg E2_field (cpoint n).
Proof.
  intros N%param_nonzero. unfold cpoint, cusp. cbn [aff_neg].
  assert (O : in_E2 (Zmod.of_Z p (- n)) = ropp (in_E2 (Zmod.of_Z p n)))
    by (rewrite Zmod.of_Z_opp; exact (phi_opp E2 phi2 _)).
  assert (N' : ropp (in_E2 (Zmod.of_Z p n)) <> r0).
  { intros H. apply N. transitivity (ropp (ropp (in_E2 (Zmod.of_Z p n)))); [ring|]. rewrite H. ring. }
  rewrite O. f_equal; field; auto.
Qed.

Lemma cwalk_defined xP yP digits F n n' :
  cwalk n digits = Some n' ->
  exists F', ref_walk E f w xP yP (cpoint 1) (F, cpoint n) digits = Some (F', cpoint n').
Proof.
  revert F n. induction digits as [|ch digits IH]; intros F n H; cbn [cwalk ref_walk] in *.
  - apply some_inj in H. subst n'. eauto.
  - destruct (cdouble n) as [m|] eqn:D; [|discriminate].
    destruct (cdouble_defined xP yP F n m D) as [F1 R1]. unfold ref_step. rewrite R1.
    destruct (Ascii.eqb ch "1"); [|destruct (Ascii.eqb ch "2")].
    + destruct (cadd 1 m) as [m2|] eqn:A; [|discriminate].
      destruct (cadd_defined xP yP F1 1 m m2 A) as [F2 ->]. now apply IH.
    + destruct (cadd (-1) m) as [m2|] eqn:A; [|discriminate].
      destruct (cadd_defined xP yP F1 (-1) m m2 A) as [F2 R2].
      pose proof (cpoint_neg 1 eq_refl : cpoint (-1) = _) as PN. rewrite PN in R2. rewrite R2. now apply IH.
    + now apply IH.
Qed.

Lemma conj2_in k : conj2 (in_E2 k) = in_E2 k.
Proof. apply (f_equal (@pair ZP ZP k)). cbn [in_E2 conj2 fst snd]. ring. Qed.

Lemma cusp_frobenius a : a <> r0 ->
  (in_E2 (val alpha1) = a -> ref_q1 (cpoint 1) = cusp E2_field a) /\
  (in_E2 (val alpha2) = a -> ref_q2 (cpoint 1) = aff_neg E2_field (cusp E2_field a)).
Proof.
  intros A. assert (One : in_E2 (Zmod.of_Z p 1) = r1) by reflexivity. pose proof (cf_one_nonzero E2_field) as N1.
  unfold ref_q1, ref_q2, cpoint, cusp. rewrite One. cbv zeta. split; intros ->.
  - rewrite !conj2_div by auto using cf_mul_nonzero. rewrite !conj2_mul.
    assert (C1 : conj2 r1 = r1) by exact (conj2_in Zmod.one). rewrite !C1. f_equal; field; auto.
  - cbn [aff_neg]. f_equal; field; auto.
Qed.

(** The integers the constants [alpha1], [alpha2] stand for. *)
Definition a1_int : Z := Zmod.to_Z (val alpha1).
Definition a2_int : Z := Zmod.to_Z (val alpha2).

Lemma cusp_defined xP yP :
  match cwalk 1 (list_ascii_of_string RATE_ABITS) with
  | Some n => match cadd a1_int n with Some n => match cadd (- a2_int) n with Some _ => true | None => false end | None => false end
  | None => false
  end = true ->
  exists F, miller_ref E f w xP yP (cpoint 1) = Some F.
Proof.
  intros H. unfold miller_ref. generalize dependent (list_ascii_of_string RATE_ABITS). intros digits H.
  unfold miller_ref_digits. destruct (cwalk 1 digits) as [n|] eqn:W; [|discriminate].
  destruct (cwalk_defined xP yP digits r1 1 n W) as [F0 ->].
  destruct alphas_nonzero as [N1 N2].
  rewrite (proj1 (cusp_frobenius _ N1) eq_refl), (proj2 (cusp_frobenius _ N2) eq_refl).
  assert (P1 : cusp E2_field (in_E2 (val alpha1)) = cpoint a1_int) by (unfold cpoint, a1_int; now rewrite Zmod.of_Z_to_Z).
  assert (P2 : cusp E2_field (in_E2 (val alpha2)) = cpoint a2_int) by (unfold cpoint, a2_int; now rewrite Zmod.of_Z_to_Z).
  rewrite P1, P2, <- cpoint_neg by (vm_compute; reflexivity). clear P1 P2 N1 N2 W.
  destruct (cadd a1_int n) as [n1|] eqn:A1; [|discriminate]. destruct (cadd_defined xP yP F0 _ n n1 A1) as [F1 ->].
  destruct (cadd (- a2_int) n1) as [n2|] eqn:A2; [|discriminate]. destruct (cadd_defined xP yP F1 _ n1 n2 A2) as [F2 ->].
  eauto.
Qed.
End CuspWalk.

Lemma miller_ref_unfold E f w x y Q :
  miller_ref E f w x y Q = miller_ref_digits E f w (list_ascii_of_string RATE_ABITS) x y Q.
Proof. unfold miller_ref. reflexivity. Qed.

Lemma pairing_some P Q p_aff :
  G1.to_affine P = Some p_aff ->
  pairing P Q = final_exponentiation (miller_body (list_ascii_of_string RATE_ABITS) p_aff Q).
Proof. intros H. unfold pairing, miller_loop. cbv zeta. rewrite H. reflexivity. Qed.

Lemma pairing_none P Q : G1.to_affine P = None -> pairing P Q = final_exponentiation Fp12.ONE.
Proof. intros H. unfold pairing, miller_loop. cbv zeta. rewrite H. reflexivity. Qed.

(** ** Properties *)

(** C1. The pairing computes the reduced R-ate pairing. For canonical points, with
    [P = (x, y)] affine and [Q] a point of the twist for which every line of the
    Miller walk has a slope ([miller_ref] is defined), the value of [pairing P Q]
    is [F^((p^12 - 1)/N)], [F] the product of the tangent and chord lines of the
    affine walk along the signed digits [RATE_ABITS] and the two Frobenius images
    of [Q]. The identity of G1 is sent to 1. When [Q] is the identity and [P] is
    not, the result is 0, not the unit: the line functions return zero lines. *)
Theorem pairing_correct (E : CRing) (f : from_ZP E) (w : E) (P : G1Point) (Q : G2Point) :
  rpow w 12 = ropp (radd r1 r1) -> pt_ok ZP_field P = true -> pt_ok E2_field Q = true ->
  match aff ZP_field P, aff E2_field Q with
  | Inf, _ => poly_ev f w (pairing P Q) = r1
  | Aff _ _, Inf => poly_ev f w (pairing P Q) = r0
  | Aff x y, Q' =>
      forall F, miller_ref E f w x y Q' = Some F ->
        fp12_canonical (pairing P Q) = true /\
        poly_ev f w (pairing P Q) = zpow F ((p ^ 12 - 1) / eval N)
  end.
Proof.
  intros W OP OQ. pose proof (j_to_affine_spec ZP_field P OP) as T. pose proof (aff_identity E2_field Q OQ) as IQ.
  destruct (j_to_affine P) as [[xP yP]|] eqn:TA.
  - rewrite (pairing_some P Q _ TA).
    destruct T as (KX & KY & ->). rewrite rep_ok_fp in KX, KY. rewrite rep_val.
    destruct (aff E2_field Q) as [|x y] eqn:AQ.
    + apply (final_zero E f w W). apply (identity_body E f w W). now apply IQ.
    + intros F R. rewrite miller_ref_unfold, <- AQ in R.
      destruct (miller_body_follows E f w W _ Q xP yP F KX KY OQ R) as (c & C0 & H).
      destruct (final_has E f w W _ _ H) as [Ok V]. split; [exact Ok|]. rewrite V, zpow_rmul.
      rewrite (iota_final E f w W c C0). apply (Rmul_1_l (rth E)).
  - rewrite T, (pairing_none P Q TA). destruct (final_has E f w W _ _ (has_one E f w W)) as [_ V].
    rewrite V. apply zpow_one.
Qed.


(** The point [(1, 1)] of the cuspidal family. *)
Definition sample_q : G2Point := G2.from_affine fe_ONE fe_ONE.

Lemma sample_q_spec : pt_ok E2_field sample_q = true /\ aff E2_field sample_q = cpoint 1.
Proof.
  assert (C : fp2_canonical fe_ONE = true) by (rewrite <- rep2_ok; apply ok_one).
  destruct (g2_from_affine_spec fe_ONE fe_ONE C C) as [O A]. split; [exact O|].
  transitivity (Aff (pair2 fe_ONE : E2_field) (pair2 fe_ONE)); [exact A|].
  assert (P1 : pair2 fe_ONE = r1) by (rewrite <- rep2_pair; apply rep_one). rewrite P1.
  symmetry. unfold cpoint, cusp. apply (f_equal2 (@Aff E2_field)); apply e2_eq; vm_compute; reflexivity.
Qed.

Lemma pairing_correct_witness :
  (exists F, miller_ref E12 phi12 gen_w (Zmod.of_Z p (eval P1_X)) (Zmod.of_Z p (eval P1_Y)) (aff E2_field sample_q) = Some F /\
     poly_ev phi12 gen_w (pairing g1_generator sample_q) = zpow F ((p ^ 12 - 1) / eval N)) /\
  poly_ev phi12 gen_w (pairing g1_generator identity) = r0.
Proof.
  destruct sample_q_spec as [Oq Aq]. destruct generator_spec as [Og Ag]. split.
  - destruct (cusp_defined E12 phi12 gen_w (Zmod.of_Z p (eval P1_X)) (Zmod.of_Z p (eval P1_Y))) as [F R];
      [vm_compute; reflexivity|].
    exists F. pose proof (pairing_correct E12 phi12 gen_w g1_generator sample_q gen_w_spec Og Oq) as T.
    rewrite Ag, Aq in T. rewrite Aq. split; [exact R|]. exact (proj2 (T F R)).
  - destruct (identity_spec E2_field) as [Oi Ai].
    pose proof (pairing_correct E12 phi12 gen_w g1_generator identity gen_w_spec Og Oi) as T.
    change (@identity G2Point Identity_G2) with (@j_identity Fp2 FieldElement_Fp2) in *.
    rewrite Ag, Ai in T. exact T.
Defined.
