(* ===== verification/PairingMirror.v ===== *)
(** Negating both arguments of the pairing (gm-sm9-rs/src/pairing/ate.rs).

    [pairing (-P) (-Q) = pairing P Q], limb for limb and on every canonical pair
    of points, those included on which a line of the walk has no slope. The two
    runs of the Miller loop keep points that are mirror images up to the sign of
    the Jacobian [z]; their accumulators differ by a sign, which the final
    exponentiation removes. *)

From Stdlib Require Import Bool ZArith Lia List String Ascii Zmod Field.
From S2P Require Import Prelude Z256 Primality Fp FieldRep Fp2 Fp4 Fp12 Curve Jacobian G1 G2 Frobenius FinalExp Lines Pairing.
Import ListNotations.
Open Scope Z_scope.

Section Mirror.
Context {A : Type} {FE : FieldElement A} {CO : Coord A} (E : CField) {CR : CoordRep A E}.
Context {F : Type} (mul_fp : A -> F -> A) (ok_fp : F -> bool) (emb : F -> E).
Hypothesis ok_mul_fp : forall x k, rep_ok x = true -> ok_fp k = true -> rep_ok (mul_fp x k) = true.
Hypothesis rep_mul_fp : forall x k, rep_ok x = true -> ok_fp k = true -> rep (mul_fp x k) = rmul (rep x) (emb k).
Add Field EfieldM : (cfield_theory E).
#[local] Hint Resolve ok_mul_fp : rep.

(** [1], or [-1] when the bit is set. *)
Definition sgn (b : bool) : E := if b then ropp r1 else r1.

(** [t'] has the coordinates of [-t], with [z] and [y] changed by a sign. *)
Definition mirrored (b : bool) (t t' : point A) : Prop :=
  pt_ok E t = true /\ pt_ok E t' = true /\ rep (px t') = rep (px t) /\
  rep (py t') = ropp (rmul (sgn b) (rep (py t))) /\ rep (pz t') = rmul (sgn b) (rep (pz t)).

Definition line_signed (b : bool) (l l' : A * A * A) : Prop :=
  let '(l0, l1, l2) := l in
  let '(m0, m1, m2) := l' in
  rep_ok l0 = true /\ rep_ok l1 = true /\ rep_ok l2 = true /\
  rep_ok m0 = true /\ rep_ok m1 = true /\ rep_ok m2 = true /\
  rep m0 = rmul (sgn b) (rep l0) /\ rep m1 = rmul (sgn b) (rep l1) /\ rep m2 = rmul (sgn b) (rep l2).

Definition step_signed (b b' : bool) (r r' : (A * A * A) * point A) : Prop :=
  line_signed b (fst r) (fst r') /\ mirrored b' (snd r) (snd r').

Lemma mirrored_identity b t t' : mirrored b t t' -> j_is_identity t' = j_is_identity t.
Proof.
  intros ((_ & _ & O)%pt_ok_iff & (_ & _ & O')%pt_ok_iff & _ & _ & Ez). unfold j_is_identity. apply eq_true_iff_eq.
  rewrite !(is_zero_rep E) by assumption. rewrite Ez. destruct b; cbn [sgn]; split; intros H.
  - transitivity (ropp (rmul (ropp r1) (rep (pz t)))); [ring|]. rewrite H. ring.
  - rewrite H. ring.
  - rewrite <- H. ring.
  - rewrite H. ring.
Qed.

Lemma zero_signed b : line_signed b (fe_ZERO, fe_ZERO, fe_ZERO) (fe_ZERO, fe_ZERO, fe_ZERO).
Proof. unfold line_signed. rewrite !rep_zero. repeat split; auto with rep; ring. Qed.

(** ** What the line functions compute, as polynomials *)

(** The line and the point of [line_double]. *)
Definition double_vals (x y z xP yP : E) : (E * E * E) * (E * E * E) :=
  let a := (x * x)%cr in let b := (y * y)%cr in let t := (z * z)%cr in
  let d := (x * b + x * b)%cr in let d := (d + d)%cr in
  let a3 := (a + a + a)%cr in
  let x3 := (a3 * a3 - (d + d))%cr in
  let c := (b * b)%cr in let c2 := (c + c)%cr in let c4 := (c2 + c2)%cr in
  let z3 := (y * z + y * z)%cr in
  let l0 := (x * a3 + x * a3 - (b + b + (b + b)))%cr in
  let l1 := (- (a3 * t + a3 * t) * xP)%cr in
  let l2 := ((z3 * t + z3 * t) * yP)%cr in
  ((l0, l1, l2), (x3, ((d - x3) * a3 - (c4 + c4))%cr, z3)).

(** The line and the point of [line_add_body] on [pre_values]. *)
Definition add_vals (x1 y1 z1 x2 y2 z2 xP yP : E) : (E * E * E) * (E * E * E) :=
  let t1 := (z1 * z1)%cr in let t2 := (z2 * z2)%cr in let t3 := (t2 * z2)%cr in
  let a := (x1 * t2)%cr in let c := (y1 * t3 + y1 * t3)%cr in
  let d := ((y2 * z1 + y2 * z1) * t1)%cr in
  let h := (x2 * t1 - a)%cr in let z3 := ((z1 * z2 + z1 * z2) * h)%cr in
  let k := ((h + h) * (h + h))%cr in let b := (d - c)%cr in
  let x3 := (b * b - (h * k + (a * k + a * k)))%cr in
  let l0 := (b * (x2 * z2 + x2 * z2) - (y2 * z3 + y2 * z3))%cr in
  let l1 := (b * - (t3 * xP + t3 * xP))%cr in
  let l2 := (z3 * (t3 * yP + t3 * yP))%cr in
  ((l0, l1, l2), (x3, ((a * k - x3) * b - c * (h * k))%cr, z3)).

Lemma six_eq {B : Type} (a b c d e f a' b' c' d' e' f' : B) :
  a = a' -> b = b' -> c = c' -> d = d' -> e = e' -> f = f' -> ((a, b, c), (d, e, f)) = ((a', b', c'), (d', e', f')).
Proof. congruence. Qed.

(** A result of a line function with its values. *)
Definition vals (r : (A * A * A) * point A) (v : (E * E * E) * (E * E * E)) : Prop :=
  let '((l0, l1, l2), t) := r in
  rep_ok l0 = true /\ rep_ok l1 = true /\ rep_ok l2 = true /\ pt_ok E t = true /\
  v = ((rep l0, rep l1, rep l2), (rep (px t), rep (py t), rep (pz t))).

Lemma line_double_vals t xP yP : pt_ok E t = true -> ok_fp xP = true -> ok_fp yP = true -> j_is_identity t = false ->
  vals (line_double mul_fp t (xP, yP)) (double_vals (rep (px t)) (rep (py t)) (rep (pz t)) (emb xP) (emb yP)).
Proof.
  intros (X & Y & Z)%pt_ok_iff KX KY I. unfold line_double. rewrite I. cbv zeta. cbn [fst snd]. unfold vals.
  share a (fe_square (px t)) as Ea. share b (fe_square (py t)) as Eb. share c (fe_square b) as Ec.
  share t1 (fe_square (pz t)) as Et1.
  share d (fe_double (fe_sub (fe_sub (fe_square (fe_add (px t) b)) a) c)) as Ed.
  share z3 (fe_sub (fe_sub (fe_square (fe_add (py t) (pz t))) b) t1) as Ez3.
  share a3 (fe_add (fe_add a a) a) as Ea3. share b3 (fe_square a3) as Eb3.
  share x3 (fe_sub b3 (fe_double d)) as Ex3.
  split; [rep_accept|]. split; [apply ok_mul_fp; [rep_accept|assumption]|].
  split; [apply ok_mul_fp; [rep_accept|assumption]|]. split; [apply pt_ok_iff; cbn [px py pz]; auto 20 with rep|].
  cbn [px py pz]. rewrite !rep_mul_fp by first [assumption|rep_accept]. rep_push.
  rewrite Ex3, Eb3, Ea3, Ez3, Ed, Et1, Ec, Eb, Ea. apply six_eq; cbv zeta; ring.
Qed.

Lemma line_add_vals t q xP yP : pt_ok E t = true -> pt_ok E q = true -> ok_fp xP = true -> ok_fp yP = true ->
  let '(pre0, pre1, pre2, pre3, pre4) := pre_values mul_fp q (xP, yP) in
  vals (line_add_body t q pre0 pre1 pre2 pre3 pre4)
    (add_vals (rep (px t)) (rep (py t)) (rep (pz t)) (rep (px q)) (rep (py q)) (rep (pz q)) (emb xP) (emb yP)).
Proof.
  intros (Ox1 & Oy1 & Oz1)%pt_ok_iff (Ox2 & Oy2 & Oz2)%pt_ok_iff KX KY.
  unfold pre_values. cbv zeta. cbn [fst snd].
  share pre1 (fe_mul (fe_square (pz q)) (pz q)) as Ep1.
  share ky (mul_fp pre1 yP) as Ek0. rewrite rep_mul_fp in Ek0 by assumption.
  share kx (mul_fp pre1 xP) as Ek1. rewrite rep_mul_fp in Ek1 by assumption.
  unfold line_add_body. cbv zeta. unfold vals.
  share t1 (fe_square (pz t)) as Et1. share t2 (fe_square (pz q)) as Et2.
  share a (fe_mul (px t) t2) as Ea. share c (fe_double (fe_mul (py t) pre1)) as Ec.
  share d (fe_mul (fe_sub (fe_sub (fe_square (fe_add (py q) (pz t))) (fe_square (py q))) t1) t1) as Ed.
  share h (fe_sub (fe_mul (px q) t1) a) as Eh.
  share z3 (fe_mul (fe_sub (fe_sub (fe_square (fe_add (pz t) (pz q))) t1) t2) h) as Ez3.
  share k (fe_square (fe_double h)) as Ek. share hk (fe_mul h k) as Ehk. share ak (fe_mul a k) as Eak.
  share b (fe_sub d c) as Eb. share x3 (fe_sub (fe_square b) (fe_add hk (fe_double ak))) as Ex3.
  split; [rep_accept|]. split; [rep_accept|]. split; [rep_accept|].
  split; [apply pt_ok_iff; cbn [px py pz]; auto 20 with rep|]. cbn [px py pz]. rep_push.
  rewrite Ex3, Eb, Eak, Ehk, Ek, Ez3, Eh, Ed, Ec, Ea, Et2, Et1, Ek0, Ek1, Ep1. apply six_eq; cbv zeta; ring.
Qed.

(** ** Mirrored steps *)

(** Six values against six others, the line by one sign and the point by another. *)
Definition signed (b b' : bool) (v v' : (E * E * E) * (E * E * E)) : Prop :=
  let '((l0, l1, l2), (x, y, z)) := v in
  v' = (((sgn b * l0)%cr, (sgn b * l1)%cr, (sgn b * l2)%cr), (x, (- (sgn b' * y))%cr, (sgn b' * z)%cr)).

Lemma vals_signed b b' r r' v v' : vals r v -> vals r' v' -> signed b b' v v' -> step_signed b b' r r'.
Proof.
  destruct r as [[[l0 l1] l2] t], r' as [[[m0 m1] m2] t']. unfold vals, step_signed, line_signed, mirrored. cbn [fst snd].
  intros (A0 & A1 & A2 & O & ->) (B0 & B1 & B2 & O' & ->) S. injection S as -> -> -> -> -> ->. tauto.
Qed.

Lemma double_vals_signed b x y z xP yP :
  signed false true (double_vals x y z xP yP) (double_vals x (ropp (rmul (sgn b) y)) (rmul (sgn b) z) xP (ropp yP)).
Proof. destruct b; cbn [sgn]; apply six_eq; cbv zeta; cbn [sgn]; ring. Qed.

Lemma add_vals_signed b bq x1 y1 z1 x2 y2 z2 xP yP :
  signed (negb b) (xorb b bq) (add_vals x1 y1 z1 x2 y2 z2 xP yP)
    (add_vals x1 (ropp (rmul (sgn b) y1)) (rmul (sgn b) z1) x2 (ropp (rmul (sgn bq) y2)) (rmul (sgn bq) z2) xP (ropp yP)).
Proof. destruct b, bq; cbn [sgn negb xorb]; apply six_eq; cbv zeta; cbn [sgn]; ring. Qed.

Context (xP yP yP' : F).
Hypothesis KX : ok_fp xP = true.
Hypothesis KY : ok_fp yP = true.
Hypothesis KY' : ok_fp yP' = true.
Hypothesis opposite : emb yP' = ropp (emb yP).

Lemma double_signed b t t' : mirrored b t t' ->
  exists b', step_signed false b' (line_double mul_fp t (xP, yP)) (line_double mul_fp t' (xP, yP')).
Proof.
  intros M. pose proof (mirrored_identity b t t' M) as I. destruct (j_is_identity t) eqn:It.
  - exists b. unfold line_double. rewrite I, It. split; [apply zero_signed|exact M].
  - exists true. destruct M as (O & O' & Ex & Ey & Ez).
    apply (vals_signed _ _ _ _ _ _ (line_double_vals t xP yP O KX KY It) (line_double_vals t' xP yP' O' KX KY' I)).
    rewrite Ex, Ey, Ez, opposite. apply double_vals_signed.
Qed.

Lemma add_signed b bq t t' q q' : mirrored b t t' -> mirrored bq q q' ->
  exists s b', step_signed s b' (line_add t q (pre_values mul_fp q (xP, yP))) (line_add t' q' (pre_values mul_fp q' (xP, yP'))) /\
    step_signed s b' (line_add_no_pre mul_fp t q (xP, yP)) (line_add_no_pre mul_fp t' q' (xP, yP')).
Proof.
  intros M N. unfold line_add, line_add_no_pre. rewrite (mirrored_identity b t t' M), (mirrored_identity bq q q' N).
  destruct (j_is_identity t || j_is_identity q).
  - exists false, b. split; (split; [apply zero_signed|exact M]).
  - exists (negb b), (xorb b bq). destruct M as (O & O' & Ex & Ey & Ez), N as (Q & Q' & Fx & Fy & Fz).
    pose proof (line_add_vals t q xP yP O Q KX KY) as V. pose proof (line_add_vals t' q' xP yP' O' Q' KX KY') as V'.
    destruct (pre_values mul_fp q (xP, yP)) as [[[[k0 k1] k2] k3] k4], (pre_values mul_fp q' (xP, yP')) as [[[[m0 m1] m2] m3] m4].
    assert (S : step_signed (negb b) (xorb b bq) (line_add_body t q k0 k1 k2 k3 k4) (line_add_body t' q' m0 m1 m2 m3 m4)).
    { apply (vals_signed _ _ _ _ _ _ V V'). rewrite Ex, Ey, Ez, Fx, Fy, Fz, opposite. apply add_vals_signed. }
    split; exact S.
Qed.

Lemma neg_mirrored t : pt_ok E t = true -> mirrored false t (j_neg t).
Proof.
  intros O. destruct (j_neg_spec E t O) as [O' _]. split; [exact O|]. split; [exact O'|].
  apply pt_ok_iff in O as (X & Y & Z). unfold j_neg. cbn [px py pz sgn]. rewrite rep_neg by assumption. repeat split; ring.
Qed.

Lemma mirrored_neg b t t' : mirrored b t t' -> mirrored b (j_neg t) (j_neg t').
Proof.
  intros (O & O' & Ex & Ey & Ez). destruct (j_neg_spec E t O) as [N _]. destruct (j_neg_spec E t' O') as [N' _].
  split; [exact N|]. split; [exact N'|]. apply pt_ok_iff in O as (_ & Y & _), O' as (_ & Y' & _).
  unfold j_neg. cbn [px py pz]. rewrite !rep_neg by assumption. rewrite Ey. repeat split; [assumption|ring|assumption].
Qed.
End Mirror.

(** ** The two runs of the Miller loop *)

Section Runs.
Context (E : CRing) (f : from_ZP E) (w : E).
Hypothesis w12 : rpow w 12 = ropp (radd r1 r1).
Add Ring EringMR : (rth E).
Add Field E2fieldMR : (cfield_theory E2_field).

Abbreviation iota' := (iota E f w).
Abbreviation has' := (has E f w).
Abbreviation sgn2 := (sgn E2_field).

(** Accumulators that differ by a sign, points that are mirror images. *)
Definition opposed (s s' : Fp12 * G2Point) : Prop :=
  exists v c b, has' (fst s) v /\ has' (fst s') (rmul (iota' (sgn2 c)) v) /\ mirrored E2_field b (snd s) (snd s').

Lemma sgn2_mul c d : rmul (sgn2 c) (sgn2 d) = sgn2 (xorb c d).
Proof. destruct c, d; cbn [sgn xorb]; ring. Qed.

Lemma apply_line_opposed a a' v c s b r r' :
  has' a v -> has' a' (rmul (iota' (sgn2 c)) v) -> step_signed E2_field s b r r' -> opposed (apply_line a r) (apply_line a' r').
Proof.
  intros H H' [L M]. destruct r as [[[l0 l1] l2] t], r' as [[[m0 m1] m2] t']. cbn [fst snd apply_line] in *.
  unfold line_signed in L. rewrite g2_rep_ok, g2_rep, !rep2_pair in L. destruct L as (A0 & A1 & A2 & B0 & B1 & B2 & L0 & L1 & L2).
  unfold opposed. cbn [fst snd]. eexists _, (xorb c s), b. split; [apply (has_line_mul E f w w12); eassumption|]. split; [|exact M].
  eapply has_eq; [apply (has_line_mul E f w w12); eassumption|]. rewrite L0, L1, L2, <- sgn2_mul, !(iota_mul E f w w12). ring.
Qed.

Context (xP yP yP' : Fp).
Hypothesis KX : fp_ok xP = true.
Hypothesis KY : fp_ok yP = true.
Hypothesis KY' : fp_ok yP' = true.
Hypothesis opposite : in_E2 (val yP') = ropp (in_E2 (val yP)).

Lemma double_opposed s s' : opposed s s' ->
  opposed (apply_line (Fp12.square (fst s)) (line_function_double_lw (snd s) (xP, yP)))
    (apply_line (Fp12.square (fst s')) (line_function_double_lw (snd s') (xP, yP'))).
Proof.
  intros (v & c & b & H & H' & M).
  destruct (double_signed E2_field Fp2.mul_fp fp_ok (fun k => in_E2 (val k)) mul_fp_ok mul_fp_rep xP yP yP' KX KY KY' opposite b _ _ M) as [b' S].
  apply (apply_line_opposed _ _ (rmul v v) (xorb c c) false b'); [now apply has_square| |exact S].
  eapply has_eq; [apply has_square; eassumption|]. rewrite <- sgn2_mul, (iota_mul E f w w12). ring.
Qed.

Lemma add_opposed s s' bq q q' : opposed s s' -> mirrored E2_field bq q q' ->
  opposed (apply_line (fst s) (line_function_add_lw (snd s) q (pre_values Fp2.mul_fp q (xP, yP))))
    (apply_line (fst s') (line_function_add_lw (snd s') q' (pre_values Fp2.mul_fp q' (xP, yP')))) /\
  opposed (apply_line (fst s) (line_function_add_lw_no_pre (snd s) q (xP, yP)))
    (apply_line (fst s') (line_function_add_lw_no_pre (snd s') q' (xP, yP'))).
Proof.
  intros (v & c & b & H & H' & M) N.
  destruct (add_signed E2_field Fp2.mul_fp fp_ok (fun k => in_E2 (val k)) mul_fp_ok mul_fp_rep xP yP yP' KX KY KY' opposite b bq _ _ _ _ M N)
    as (d & b' & S1 & S2).
  split; eapply apply_line_opposed; eassumption.
Qed.

Lemma step_opposed bq q q' s s' ch : opposed s s' -> mirrored E2_field bq q q' ->
  opposed (miller_step q (G2.neg q) (xP, yP) (pre_values Fp2.mul_fp q (xP, yP)) s ch)
    (miller_step q' (G2.neg q') (xP, yP') (pre_values Fp2.mul_fp q' (xP, yP')) s' ch).
Proof.
  intros H N. pose proof (double_opposed s s' H) as D. destruct s as [a t], s' as [a' t']. unfold miller_step. cbn [fst snd] in D.
  destruct (apply_line (Fp12.square a) _) as [a1 t1], (apply_line (Fp12.square a') _) as [a1' t1'].
  destruct (Ascii.eqb ch "1"); [exact (proj1 (add_opposed _ _ _ _ _ D N))|]. destruct (Ascii.eqb ch "2"); [|exact D].
  exact (proj2 (add_opposed _ _ _ _ _ D (mirrored_neg E2_field _ _ _ N))).
Qed.

Lemma walk_opposed digits bq q q' s s' : opposed s s' -> mirrored E2_field bq q q' ->
  opposed (fold_left (miller_step q (G2.neg q) (xP, yP) (pre_values Fp2.mul_fp q (xP, yP))) digits s)
    (fold_left (miller_step q' (G2.neg q') (xP, yP') (pre_values Fp2.mul_fp q' (xP, yP'))) digits s').
Proof.
  intros H N. revert s s' H. induction digits as [|ch digits IH]; intros s s' H; cbn [fold_left]; [exact H|].
  apply IH. now apply (step_opposed bq).
Qed.

Lemma rounds_opposed digits bq q q' : mirrored E2_field bq q q' ->
  opposed (miller_rounds digits (xP, yP) q) (miller_rounds digits (xP, yP') q').
Proof.
  intros N. unfold miller_rounds. cbv zeta.
  assert (H : opposed (Fp12.ONE, q) (Fp12.ONE, q')).
  { exists r1, false, bq. cbn [fst snd sgn]. pose proof (has_one E f w w12) as O. split; [exact O|]. split; [|exact N].
    eapply has_eq; [exact O|]. rewrite iota_1. ring. }
  exact (walk_opposed digits bq q q' _ _ H N).
Qed.

Lemma frobenius_q1_mirrored b q q' : mirrored E2_field b q q' -> mirrored E2_field b (frobenius_q1 q) (frobenius_q1 q').
Proof.
  intros (O & O' & Ex & Ey & Ez). destruct (frobenius_q1_spec q O) as [N _]. destruct (frobenius_q1_spec q' O') as [N' _].
  split; [exact N|]. split; [exact N'|]. destruct alphas_canonical as [K1 _]. apply pt_ok_iff in O as (X & Y & Z), O' as (X' & Y' & Z').
  rewrite g2_rep_ok in *. rewrite g2_rep, !rep2_pair in *. unfold frobenius_q1, G2.new. cbn [px py pz].
  pose proof (mul_fp_rep _ _ (fp2_frobenius_ok _ Z) K1) as F1. pose proof (mul_fp_rep _ _ (fp2_frobenius_ok _ Z') K1) as F2.
  rewrite g2_rep, !rep2_pair in F1, F2. rewrite F1, F2, !pair2_frobenius, Ex, Ey, Ez by assumption.
  assert (S : forall x, conj2 (rmul (sgn2 b) x) = rmul (sgn2 b) (conj2 x)).
  { intros x. rewrite conj2_mul. f_equal. destruct b; apply e2_eq; vm_compute; reflexivity. }
  assert (P : forall x, conj2 (ropp x) = ropp (conj2 x)).
  { intros x. transitivity (conj2 (rmul (sgn2 true) x)); [f_equal; cbn [sgn]; ring|]. rewrite conj2_mul.
    replace (conj2 (sgn2 true)) with (sgn2 true) by (apply e2_eq; vm_compute; reflexivity). cbn [sgn]. ring. }
  rewrite P, !S. repeat split. ring.
Qed.

Lemma frobenius_q2_mirrored b q q' : mirrored E2_field b q q' -> mirrored E2_field b (frobenius_q2 q) (frobenius_q2 q').
Proof.
  intros (O & O' & Ex & Ey & Ez). destruct (frobenius_q2_spec q O) as [N _]. destruct (frobenius_q2_spec q' O') as [N' _].
  split; [exact N|]. split; [exact N'|]. destruct alphas_canonical as [_ K2]. apply pt_ok_iff in O as (X & Y & Z), O' as (X' & Y' & Z').
  unfold frobenius_q2, G2.new. cbn [px py pz]. rewrite !rep_neg, !mul_fp_rep, Ey, Ez by assumption. repeat split; [exact Ex|ring..].
Qed.

Lemma body_opposed digits bq q q' : mirrored E2_field bq q q' ->
  exists v c, has' (miller_body digits (xP, yP) q) v /\ has' (miller_body digits (xP, yP') q') (rmul (iota' (sgn2 c)) v).
Proof.
  intros N. unfold miller_body. pose proof (rounds_opposed digits bq q q' N) as H0.
  destruct (miller_rounds digits (xP, yP) q) as [a t], (miller_rounds digits (xP, yP') q') as [a' t'].
  pose proof (proj2 (add_opposed _ _ _ _ _ H0 (frobenius_q1_mirrored _ _ _ N))) as H1. cbn [fst snd] in H1.
  destruct (apply_line a _) as [a1 t1], (apply_line a' _) as [a1' t1'].
  pose proof (proj2 (add_opposed _ _ _ _ _ H1 (frobenius_q2_mirrored _ _ _ N))) as H2. cbn [fst snd] in H2.
  destruct (apply_line a1 _) as [a2 t2], (apply_line a1' _) as [a2' t2'].
  destruct H2 as (v & c & b & V & V' & _). exists v, c. split; [exact V|exact V'].
Qed.

Lemma sgn2_nonzero c : sgn2 c <> r0.
Proof. destruct c; intros H; apply (f_equal fst), (f_equal Zmod.to_Z) in H; vm_compute in H; discriminate. Qed.

(** After the final exponentiation the two runs have the same value. *)
Lemma final_opposed digits bq q q' : mirrored E2_field bq q q' ->
  exists v, has' (final_exponentiation (miller_body digits (xP, yP) q)) v /\ has' (final_exponentiation (miller_body digits (xP, yP') q')) v.
Proof.
  intros N. destruct (body_opposed digits bq q q' N) as (v & c & V & V'). apply (final_has E f w w12) in V, V'.
  eexists. split; [exact V|]. eapply has_eq; [exact V'|]. rewrite zpow_rmul, (iota_final E f w w12 _ (sgn2_nonzero c)). ring.
Qed.
End Runs.

(** ** Canonical elements of [Fp12] are determined by their value *)

Lemma has_sub (E : CRing) (f : from_ZP E) (w : E) x y a b : rpow w 12 = ropp (radd r1 r1) ->
  has E f w x a -> has E f w y b -> has E f w (Fp12.sub x y) (rsub a b).
Proof.
  intros W. unfold has. rewrite <- (fp12_ok_canonical E f w W), !(poly_ev_ev12 E f w W).
  intros [Hx <-] [Hy <-]. now apply ev12_sub.
Qed.

Lemma has_sub_self (E : CRing) (f : from_ZP E) (w : E) x y a : rpow w 12 = ropp (radd r1 r1) ->
  has E f w x a -> has E f w y a -> has E f w (Fp12.sub x y) r0.
Proof.
  intros W X Y. eapply has_eq; [exact (has_sub E f w x y a a W X Y)|].
  rewrite (Rsub_def (rth E)). apply (Ropp_def (rth E)).
Qed.

Section Injective.
Add Ring E4ringInj : (rth E4).
Add Ring E12ringInj : (rth E12).

Lemma fp4_sub_zero a b : fp4_canonical a = true -> fp4_canonical b = true -> fe_is_zero (fe_sub a b) = true -> a = b.
Proof.
  rewrite <- !rep4_ok. intros A B Z0. apply (rep_is_zero (FieldRep := rep4)) in Z0; [|now apply ok_sub].
  rewrite rep_sub in Z0 by assumption. apply pair4_inj; [assumption..|]. rewrite <- !rep4_pair.
  revert Z0. generalize (@rep _ _ _ rep4 a) (@rep _ _ _ rep4 b). intros x y Z0.
  transitivity (radd (rsub x y) y); [ring|]. rewrite Z0. ring.
Qed.

Lemma zero_times (a : E12) : rmul r0 a = r0.
Proof. ring. Qed.

Lemma E12_nontrivial : @r0 E12 <> r1.
Proof.
  intros H. apply (f_equal (fun t : E12 => Zmod.to_Z (fst (fst (fst (fst t)))))) in H. vm_compute in H. discriminate.
Qed.

Lemma has_value x : fp12_canonical x = true -> has E12 phi12 gen_w x (poly_ev phi12 gen_w x).
Proof. now split. Qed.

Lemma fp12_value_inj x y : fp12_canonical x = true -> fp12_canonical y = true ->
  poly_ev phi12 gen_w x = poly_ev phi12 gen_w y -> x = y.
Proof.
  intros X Y V.
  pose proof (has_sub_self E12 phi12 gen_w x y _ gen_w_spec (conj X V) (has_value y Y)) as [C Z0]. assert (I : is_zero (Fp12.sub x y) = true).
  { destruct (fe_inv (Fp12.sub x y)) as [z|] eqn:I; [|now apply inv12_none]. exfalso. apply E12_nontrivial.
    revert C Z0. rewrite <- (fp12_ok_canonical E12 phi12 gen_w gen_w_spec), !(poly_ev_ev12 E12 phi12 gen_w gen_w_spec). intros C Z0.
    rewrite <- (proj2 (ev12_inv _ _ _ _ _ _ _ eq_refl _ _ C I)), Z0. symmetry. apply zero_times. }
  unfold is_zero, Fp12.sub in I. cbn [Fp12.c0 Fp12.c1 Fp12.c2] in I. rewrite !andb_true_iff in I. destruct I as [[I0 I1] I2].
  unfold fp12_canonical in X, Y. rewrite !andb_true_iff in X, Y. destruct X as [[X0 X1] X2], Y as [[Y0 Y1] Y2].
  apply fp4_sub_zero in I0, I1, I2; [|assumption..]. destruct x, y. cbn [Fp12.c0 Fp12.c1 Fp12.c2] in *. congruence.
Qed.

(** Two canonical elements with a value in common. *)
Lemma has_unique x y v : has E12 phi12 gen_w x v -> has E12 phi12 gen_w y v -> x = y.
Proof. intros [X VX] [Y VY]. apply fp12_value_inj; congruence. Qed.

Lemma fp12_pow_one x : fp12_canonical x = true -> Fp12.pow x Z256.ONE = x.
Proof.
  intros X. apply (has_unique _ _ (poly_ev phi12 gen_w x)); [|now apply has_value].
  eapply has_eq; [apply (has_pow E12 phi12 gen_w gen_w_spec); [now apply wf256_iff|now apply has_value]|].
  change (eval Z256.ONE) with 1. apply zpow_1.
Qed.

Lemma fp12_pow_comm x a b : fp12_canonical x = true -> wf_limbs 4 a -> wf_limbs 4 b ->
  Fp12.pow (Fp12.pow x a) b = Fp12.pow (Fp12.pow x b) a.
Proof.
  intros X A B. pose proof (has_value x X) as V. pose proof (wf256_eval_bound a A) as Ra. pose proof (wf256_eval_bound b B) as Rb.
  eapply has_unique; [apply (has_pow E12 phi12 gen_w gen_w_spec); [exact B|]; apply (has_pow E12 phi12 gen_w gen_w_spec); eassumption|].
  eapply has_eq; [apply (has_pow E12 phi12 gen_w gen_w_spec); [exact A|]; apply (has_pow E12 phi12 gen_w gen_w_spec); eassumption|].
  rewrite <- !zpow_mul by lia. now rewrite Z.mul_comm.
Qed.
End Injective.

(** ** The pairing *)

Lemma aff_coords (E : CField) (x y x' y' : E) : Aff x y = Aff x' y' -> x = x' /\ y = y'.
Proof. intros H. injection H. auto. Qed.

Section Negated.
Add Ring ZPringMN : (Zmod.ring_theory p).
Add Ring E2ringMN : (rth E2).

Lemma affine_negated P P' xy : pt_ok ZP_field P = true -> pt_ok ZP_field P' = true ->
  aff ZP_field P' = aff_neg ZP_field (aff ZP_field P) -> G1.to_affine P = Some xy ->
  fp_ok (fst xy) = true /\ fp_ok (snd xy) = true /\
  exists y', G1.to_affine P' = Some (fst xy, y') /\ fp_ok y' = true /\ in_E2 (val y') = ropp (in_E2 (val (snd xy))).
Proof.
  intros O O' N T. pose proof (j_to_affine_spec ZP_field P O) as S. pose proof (j_to_affine_spec ZP_field P' O') as S'.
  unfold G1.to_affine in *. rewrite T in S. destruct xy as [x y]. destruct S as (X & Y & Ea). rewrite rep_ok_fp in X, Y.
  rewrite Ea in N. cbn [aff_neg] in N. cbn [fst snd]. split; [exact X|]. split; [exact Y|].
  destruct (j_to_affine P') as [[x' y']|]; [|congruence]. destruct S' as (X' & Y' & Ea'). rewrite rep_ok_fp in X', Y'.
  rewrite Ea', !rep_val in N. apply (aff_coords ZP_field) in N as [Nx Ny]. apply val_inj in Nx; [|assumption..]. subst x'. exists y'.
  split; [reflexivity|]. split; [exact Y'|]. transitivity (in_E2 (Zmod.opp (val y))); [exact (f_equal in_E2 Ny)|exact (phi_opp E2 phi2 _)].
Qed.

Lemma shared_value (a b a' b' : Fp12) : a = a' -> b = b' ->
  (exists v, has E12 phi12 gen_w a' v /\ has E12 phi12 gen_w b' v) -> exists v, has E12 phi12 gen_w a v /\ has E12 phi12 gen_w b v.
Proof. now intros -> ->. Qed.

(** The common value of the two pairings, whatever the canonical points. *)
Lemma pairing_negated_value P P' Q : pt_ok ZP_field P = true -> pt_ok ZP_field P' = true -> pt_ok E2_field Q = true ->
  aff ZP_field P' = aff_neg ZP_field (aff ZP_field P) ->
  exists v, has E12 phi12 gen_w (pairing P Q) v /\ has E12 phi12 gen_w (pairing P' (G2.neg Q)) v.
Proof.
  intros O O' OQ N. destruct (G1.to_affine P) as [xy|] eqn:T.
  - destruct (affine_negated P P' xy O O' N T) as (X & Y & y' & T' & Y' & Opp). destruct xy as [x y]. cbn [fst snd] in *.
    apply (shared_value _ _ _ _ (pairing_some P Q _ T) (pairing_some P' (G2.neg Q) _ T')).
    exact (final_opposed E12 phi12 gen_w gen_w_spec x y y' X Y Y' Opp _ false Q (G2.neg Q) (neg_mirrored E2_field Q OQ)).
  - pose proof (j_to_affine_spec ZP_field P O) as S. pose proof (j_to_affine_spec ZP_field P' O') as S'. unfold G1.to_affine in T. rewrite T in S.
    assert (T' : G1.to_affine P' = None).
    { unfold G1.to_affine. destruct (j_to_affine P') as [[x y]|]; [|reflexivity]. destruct S' as (_ & _ & S'). rewrite S', S in N. discriminate. }
    apply (shared_value _ _ _ _ (pairing_none P Q T) (pairing_none P' (G2.neg Q) T')). eexists. split; apply (final_has E12 phi12 gen_w gen_w_spec), (has_one E12 phi12 gen_w gen_w_spec).
Qed.

Lemma pairing_canonical P Q : pt_ok ZP_field P = true -> pt_ok E2_field Q = true -> fp12_canonical (pairing P Q) = true.
Proof.
  intros O OQ. destruct (j_neg_spec ZP_field P O) as [O' N]. destruct (pairing_negated_value P _ Q O O' OQ N) as (v & [C _] & _). exact C.
Qed.

(** [e(-P, -Q) = e(P, Q)], on every canonical pair and for any Jacobian form of [-P]. *)
Lemma pairing_negated P P' Q : pt_ok ZP_field P = true -> pt_ok ZP_field P' = true -> pt_ok E2_field Q = true ->
  aff ZP_field P' = aff_neg ZP_field (aff ZP_field P) -> pairing P' (G2.neg Q) = pairing P Q.
Proof. intros O O' OQ N. destruct (pairing_negated_value P P' Q O O' OQ N) as (v & V & V'). exact (has_unique _ _ v V' V). Qed.
End Negated.
