(* ===== verification/Sm4.v ===== *)
(** SM4 modes of operation (gm-crypto/src/sm4.rs): ECB, CBC with and without
    PKCS#7 padding, and GCM.

    The block cipher (crate sm4), the GHASH function (crate ghash) and the CTR
    stream (crate ctr) are parameters, the operations of [Sm4Crates]; what the
    modes rely on is stated by [Sm4Laws]: SM4 is a permutation of the 16-byte
    blocks, GHASH returns a block, and [Ctr128BE] XORs the encryptions of
    successive 128-bit big-endian counters. GCM is compared with the definition
    of NIST SP 800-38D. *)

From Stdlib Require Import String Ascii Bool ZArith Lia List.
From S2P Require Import Prelude Bytes.
Import ListNotations.
Open Scope Z_scope.
Local Open Scope list_scope.

Definition SM4_KEY_LENGTH : Z := 16.
Definition SM4_BLOCK_SIZE : Z := 16.
Definition SM4_GCM_TAG_LENGTH : Z := 16.
Definition SM4_GCM_NONCE_LENGTH : Z := 12.

(** [gm_crypto::CryptoError] *)
Inductive CryptoError : Type :=
| Sm2Error (m : string)
| Sm2KexError (m : string)
| Sm3Error (m : string)
| Sm4Error (m : string)
| Sm9Error (m : string)
| InvalidHex (m : string)
| InvalidBase64 (m : string)
| InvalidKeyLength (expected actual : Z)
| InvalidDataLength (m : string)
| SignatureVerificationFailed
| EncryptionFailed (m : string)
| DecryptionFailed (m : string)
| InvalidPadding (expected : Z)
| CryptoCertificateVerificationFailed (m : string)
| CrlVerificationFailed (m : string).

(** ** Texts of the errors of gm-crypto: [Display] and derived [Debug] *)

Definition dquote : string := String (ascii_of_nat 34) EmptyString.
(** The escapes of a string's [Debug]. *)
Fixpoint debug_escape (m : string) : string :=
  match m with
  | EmptyString => EmptyString
  | String c t =>
      let n := nat_of_ascii c in
      let esc x := String (ascii_of_nat 92) (String x (debug_escape t)) in
      if (n =? 34)%nat || (n =? 92)%nat then esc c
      else if (n =? 9)%nat then esc "t"%char
      else if (n =? 10)%nat then esc "n"%char
      else if (n =? 13)%nat then esc "r"%char
      else String c (debug_escape t)
  end.
Definition debug_tuple (name m : string) : string :=
  (name +++ "(" +++ dquote +++ debug_escape m +++ dquote +++ ")")%string.

Definition debug_crypto (e : CryptoError) : string :=
  match e with
  | Sm2Error m => debug_tuple "Sm2Error" m
  | Sm2KexError m => debug_tuple "Sm2KexError" m
  | Sm3Error m => debug_tuple "Sm3Error" m
  | Sm4Error m => debug_tuple "Sm4Error" m
  | Sm9Error m => debug_tuple "Sm9Error" m
  | InvalidHex m => debug_tuple "InvalidHex" m
  | InvalidBase64 m => debug_tuple "InvalidBase64" m
  | InvalidKeyLength e a => ("InvalidKeyLength { expected: " +++ dec e +++ ", actual: " +++ dec a +++ " }")%string
  | InvalidDataLength m => debug_tuple "InvalidDataLength" m
  | SignatureVerificationFailed => "SignatureVerificationFailed"%string
  | EncryptionFailed m => debug_tuple "EncryptionFailed" m
  | DecryptionFailed m => debug_tuple "DecryptionFailed" m
  | InvalidPadding e => ("InvalidPadding { expected: " +++ dec e +++ " }")%string
  | CryptoCertificateVerificationFailed m => debug_tuple "CertificateVerificationFailed" m
  | CrlVerificationFailed m => debug_tuple "CrlVerificationFailed" m
  end.

Definition display_crypto (e : CryptoError) : string :=
  (match e with
   | Sm2Error m => "SM2 error: " +++ m
   | Sm2KexError m => "SM2 KEX error: " +++ m
   | Sm3Error m => "SM3 error: " +++ m
   | Sm4Error m => "SM4 error: " +++ m
   | Sm9Error m => "SM9 error: " +++ m
   | InvalidHex m => "invalid hex string: " +++ m
   | InvalidBase64 m => "invalid Base64 string: " +++ m
   | InvalidKeyLength e a => "invalid key length: expected " +++ dec e +++ ", got " +++ dec a
   | InvalidDataLength m => "invalid data length: " +++ m
   | SignatureVerificationFailed => "signature verification failed"
   | EncryptionFailed m => "encryption failed: " +++ m
   | DecryptionFailed m => "decryption failed: " +++ m
   | InvalidPadding e => "invalid PKCS#7 padding: expected " +++ dec e +++ " padding bytes"
   | CryptoCertificateVerificationFailed m => "certificate verification failed: " +++ m
   | CrlVerificationFailed m => "CRL verification failed: " +++ m
   end)%string.

(** ** The crates *)

Class Sm4Crates := {
  encrypt_block : bytes -> bytes -> bytes;
  decrypt_block : bytes -> bytes -> bytes;
  ghash : bytes -> list bytes -> bytes;
  ctr128be : bytes -> bytes -> bytes -> bytes
}.

Definition is_block (b : bytes) : bool := (len b =? 16) && wf_bytes b.

(** The key stream of [n] blocks from counter [c]. *)
Definition ctr_stream {C : Sm4Crates} (k : bytes) (c : Z) (n : nat) : bytes :=
  concat (map (fun i => encrypt_block k (be_bytes 16 (c + Z.of_nat i))) (seq 0 n)).

Class Sm4Laws (C : Sm4Crates) : Prop := {
  encrypt_block_block k b : is_block b = true -> is_block (encrypt_block k b) = true;
  decrypt_block_block k b : is_block b = true -> is_block (decrypt_block k b) = true;
  decrypt_encrypt_block k b : is_block b = true -> decrypt_block k (encrypt_block k b) = b;
  encrypt_decrypt_block k b : is_block b = true -> encrypt_block k (decrypt_block k b) = b;
  ghash_block h l : is_block (ghash h l) = true;
  ctr128be_spec k iv data n :
    is_block iv = true -> (List.length data <= 16 * n)%nat ->
    ctr128be k iv data = xor_bytes data (ctr_stream k (from_be iv) n)
}.

Section Modes.
Context {C : Sm4Crates}.

(** ** The cipher *)

Record Sm4Cipher : Type := { cipher : bytes; key_bytes : bytes }.

Definition Sm4Cipher_new (key : bytes) : outcome CryptoError Sm4Cipher :=
  guard (negb (len key =? SM4_KEY_LENGTH)) (InvalidKeyLength SM4_KEY_LENGTH (len key))
    (Ok {| cipher := key; key_bytes := key |}).

Definition multiple_of_msg : string :=
  ("Data length must be a multiple of " +++ dec SM4_BLOCK_SIZE +++ " bytes")%string.
Definition iv_msg : string := ("IV length must be " +++ dec SM4_BLOCK_SIZE +++ " bytes")%string.
Definition raw_msg : string :=
  ("Raw CBC input must be a non-empty multiple of " +++ dec SM4_BLOCK_SIZE +++ " bytes")%string.

(** ** ECB *)

Definition ecb_step (f : bytes -> bytes) (result chunk : bytes) : outcome CryptoError bytes :=
  block <- from_slice 16 chunk ;; Ok (result ++ f block).

Definition encrypt_ecb (c : Sm4Cipher) (data : bytes) : outcome CryptoError bytes :=
  guard (negb (len data mod SM4_BLOCK_SIZE =? 0)) (InvalidDataLength multiple_of_msg)
    (try_fold (ecb_step (encrypt_block (cipher c))) (chunks_exact 16 data) []).

Definition decrypt_ecb (c : Sm4Cipher) (encrypted_data : bytes) : outcome CryptoError bytes :=
  guard (negb (len encrypted_data mod SM4_BLOCK_SIZE =? 0)) (InvalidDataLength multiple_of_msg)
    (try_fold (ecb_step (decrypt_block (cipher c))) (chunks_exact 16 encrypted_data) []).

(** ** CBC *)

Definition cbc_encrypt_step (k : bytes) (s : bytes * bytes) (chunk : bytes)
    : outcome CryptoError (bytes * bytes) :=
  let '(result, prev_block) := s in
  let block_data := xor_bytes chunk prev_block in
  block <- from_slice 16 block_data ;;
  let block := encrypt_block k block in
  Ok (result ++ block, block).

(** [for (i, byte) in block.iter().enumerate() { result.push(byte ^ prev_block[i]) }] *)
Fixpoint push_xor (block prev_block : bytes) (i : Z) (result : bytes) : outcome CryptoError bytes :=
  match block with
  | [] => Ok result
  | byte :: block =>
      p <- index prev_block i ;;
      push_xor block prev_block (i + 1) (result ++ [Z.lxor byte p])
  end.

Definition cbc_decrypt_step (k : bytes) (s : bytes * bytes) (chunk : bytes)
    : outcome CryptoError (bytes * bytes) :=
  let '(result, prev_block) := s in
  block <- from_slice 16 chunk ;;
  let block := decrypt_block k block in
  result <- push_xor block prev_block 0 result ;;
  Ok (result, chunk).

Definition encrypt_cbc_raw (c : Sm4Cipher) (data iv : bytes) : outcome CryptoError bytes :=
  guard (negb (len iv =? SM4_BLOCK_SIZE)) (InvalidDataLength iv_msg)
  (guard ((len data =? 0) || negb (len data mod SM4_BLOCK_SIZE =? 0)) (InvalidDataLength raw_msg)
  ('(result, _) <- try_fold (cbc_encrypt_step (cipher c)) (chunks_exact 16 data) ([], iv) ;;
   Ok result)).

Definition decrypt_cbc_raw (c : Sm4Cipher) (encrypted_data iv : bytes) : outcome CryptoError bytes :=
  guard (negb (len iv =? SM4_BLOCK_SIZE)) (InvalidDataLength iv_msg)
  (guard ((len encrypted_data =? 0) || negb (len encrypted_data mod SM4_BLOCK_SIZE =? 0))
     (InvalidDataLength raw_msg)
  ('(result, _) <- try_fold (cbc_decrypt_step (cipher c)) (chunks_exact 16 encrypted_data) ([], iv) ;;
   Ok result)).

(** PKCS#7: [vec![padding_len as u8; padding_len]] appended. *)
Definition pkcs7_pad (data : bytes) : bytes :=
  let padding_len := SM4_BLOCK_SIZE - len data mod SM4_BLOCK_SIZE in
  data ++ repeat (as_u8 padding_len) (Z.to_nat padding_len).

Definition encrypt_cbc (c : Sm4Cipher) (data iv : bytes) : outcome CryptoError bytes :=
  guard (negb (len iv =? SM4_BLOCK_SIZE)) (InvalidDataLength iv_msg)
  ('(result, _) <- try_fold (cbc_encrypt_step (cipher c)) (chunks_exact 16 (pkcs7_pad data)) ([], iv) ;;
   Ok result).

(** [valid &= (b == padding_byte) as u8] over the tail. *)
Definition padding_valid (padding_byte : Z) (tail : bytes) : Z :=
  fold_left (fun valid b => Z.land valid (Z.b2z (b =? padding_byte))) tail 1.

(** The padding check of [decrypt_cbc] on the decrypted bytes. *)
Definition pkcs7_unpad (result : bytes) : outcome CryptoError bytes :=
  match last (map Some result) None with
  | None => Ok result
  | Some padding_byte =>
      let padding_len := padding_byte in
      if (0 <? padding_len) && (padding_len <=? SM4_BLOCK_SIZE) then
        expected_len <- usize_sub (len result) padding_len ;;
        tail <- slice_from result expected_len ;;
        if padding_valid padding_byte tail =? 1
        then Ok (firstn (Z.to_nat expected_len) result)
        else Err (InvalidPadding padding_len)
      else Err (InvalidPadding padding_len)
  end.

Definition decrypt_cbc (c : Sm4Cipher) (encrypted_data iv : bytes) : outcome CryptoError bytes :=
  guard (negb (len iv =? SM4_BLOCK_SIZE)) (InvalidDataLength iv_msg)
  (guard (negb (len encrypted_data mod SM4_BLOCK_SIZE =? 0)) (InvalidDataLength multiple_of_msg)
  ('(result, _) <- try_fold (cbc_decrypt_step (cipher c)) (chunks_exact 16 encrypted_data) ([], iv) ;;
   pkcs7_unpad result)).

(** ** GCM *)

(** A GHASH computation in progress: its key and the blocks absorbed. *)
Record GHash : Type := { ghash_key : bytes; ghash_blocks : list bytes }.

Definition ghash_absorb (g : GHash) (blocks : list bytes) : GHash :=
  {| ghash_key := ghash_key g; ghash_blocks := ghash_blocks g ++ blocks |}.
Definition ghash_finalize (g : GHash) : bytes := ghash (ghash_key g) (ghash_blocks g).

Definition ghash_update (g : GHash) (data : bytes) : GHash :=
  if len data =? 0 then g
  else
    let blocks := chunks_exact 16 data in
    let rem := chunks_remainder 16 data in
    let blocks :=
      if len rem =? 0 then blocks
      else blocks ++ [rem ++ repeat 0 (16 - List.length rem)] in
    if len blocks =? 0 then g else ghash_absorb g blocks.

Definition ghash_lengths (g : GHash) (aad_len c_len : Z) : GHash :=
  let aad_bits := as_u64 (as_u64 aad_len * 8) in
  let c_bits := as_u64 (as_u64 c_len * 8) in
  ghash_absorb g [be_bytes 8 aad_bits ++ be_bytes 8 c_bits].

Definition inc32 (block : bytes) : bytes :=
  let counter := from_be (firstn 4 (skipn 12 block)) in
  let counter := as_u32 (counter + 1) in
  firstn 12 block ++ be_bytes 4 counter.

(** [j0 = nonce || 0x00000001] *)
Definition j0_of (nonce : bytes) : bytes := nonce ++ [0; 0; 0; 1].

Definition nonce_msg : string :=
  ("Nonce length must be " +++ dec SM4_GCM_NONCE_LENGTH +++ " bytes")%string.
Definition tag_msg : string :=
  ("Tag length must be " +++ dec SM4_GCM_TAG_LENGTH +++ " bytes")%string.

Definition gcm_tag (c : Sm4Cipher) (j0 aad ciphertext : bytes) : bytes :=
  let h := encrypt_block (cipher c) (repeat 0 16) in
  let g := {| ghash_key := h; ghash_blocks := [] |} in
  let g := ghash_update g aad in
  let g := ghash_update g ciphertext in
  let g := ghash_lengths g (len aad) (len ciphertext) in
  let s := ghash_finalize g in
  let t_block := encrypt_block (cipher c) j0 in
  xor_bytes t_block s.

Definition encrypt_gcm (c : Sm4Cipher) (data nonce aad : bytes) : outcome CryptoError (bytes * bytes) :=
  guard (negb (len nonce =? SM4_GCM_NONCE_LENGTH)) (InvalidDataLength nonce_msg)
  (let j0 := j0_of nonce in
   let ctr_iv := inc32 j0 in
   let ciphertext := ctr128be (key_bytes c) ctr_iv data in
   Ok (ciphertext, gcm_tag c j0 aad ciphertext)).

Definition decrypt_gcm (c : Sm4Cipher) (encrypted_data nonce aad tag : bytes) : outcome CryptoError bytes :=
  guard (negb (len nonce =? SM4_GCM_NONCE_LENGTH)) (InvalidDataLength nonce_msg)
  (guard (negb (len tag =? SM4_GCM_TAG_LENGTH)) (InvalidDataLength tag_msg)
  (let j0 := j0_of nonce in
   let expected_tag := gcm_tag c j0 aad encrypted_data in
   guard (negb (bytes_eqb expected_tag tag)) (Sm4Error "SM4-GCM authentication failed")
   (let ctr_iv := inc32 j0 in
    Ok (ctr128be (key_bytes c) ctr_iv encrypted_data)))).


(** The cipher of a key, and a cache that is empty or holds it. *)
Definition key_cipher (k : bytes) : Sm4Cipher := {| cipher := k; key_bytes := k |}.

Definition cache_ok (k : bytes) (c : option Sm4Cipher) : Prop := c = None \/ c = Some (key_cipher k).
End Modes.

(** ** Reference definitions *)

Section Reference.
Context {C : Sm4Crates}.

(** CBC on blocks. *)
Fixpoint cbc_enc (k prev : bytes) (bs : list bytes) : list bytes :=
  match bs with
  | [] => []
  | b :: t => let c := encrypt_block k (xor_bytes b prev) in c :: cbc_enc k c t
  end.

Fixpoint cbc_dec (k prev : bytes) (cs : list bytes) : list bytes :=
  match cs with
  | [] => []
  | c :: t => xor_bytes (decrypt_block k c) prev :: cbc_dec k c t
  end.

(** NIST SP 800-38D: the counter increment, GCTR, and authenticated encryption
    with a 96-bit IV. *)
Definition inc_32 (x : Z) : Z := x / 2 ^ 32 * 2 ^ 32 + (x mod 2 ^ 32 + 1) mod 2 ^ 32.

Fixpoint gctr (fuel : nat) (k : bytes) (cb : Z) (x : bytes) : bytes :=
  match fuel with
  | O => []
  | S f => xor_bytes (firstn 16 x) (encrypt_block k (be_bytes 16 cb)) ++ gctr f k (inc_32 cb) (skipn 16 x)
  end.

Definition pad16 (x : bytes) : bytes := x ++ repeat 0 (Z.to_nat ((- len x) mod 16)).

Definition gcm_spec_tag (k iv a c : bytes) : bytes :=
  let h := encrypt_block k (repeat 0 16) in
  let s := ghash h (chunks_exact 16 (pad16 a ++ pad16 c ++ be_bytes 8 (8 * len a) ++ be_bytes 8 (8 * len c))) in
  gctr 1 k (from_be iv * 2 ^ 32 + 1) s.

Definition gcm_spec_crypt (k iv x : bytes) : bytes :=
  gctr (List.length x) k (inc_32 (from_be iv * 2 ^ 32 + 1)) x.
End Reference.

(** ** Blocks *)

Lemma is_block_iff b : is_block b = true <-> List.length b = 16%nat /\ wf_bytes b = true.
Proof. unfold is_block, len. rewrite andb_true_iff, Z.eqb_eq. intuition lia. Qed.

Lemma block_xor a b : is_block a = true -> is_block b = true -> is_block (xor_bytes a b) = true.
Proof.
  rewrite !is_block_iff. intros [La Wa] [Lb Wb]. rewrite length_xor, La, Lb. split; [reflexivity|].
  now apply wf_xor.
Qed.

Lemma blocks_of data : wf_bytes data = true -> len data mod 16 = 0 ->
  Forall (fun b => is_block b = true) (chunks_exact 16 data) /\ concat (chunks_exact 16 data) = data.
Proof.
  intros W M. destruct (chunks_concat 16 data) as [E F]; [lia|now apply mod16_len|].
  split; [|exact E]. rewrite <- E in W. clear E M. induction F as [|b l L F IH]; constructor.
  - apply is_block_iff. cbn [concat] in W. rewrite wf_bytes_app in W. now apply andb_true_iff in W.
  - apply IH. cbn [concat] in W. rewrite wf_bytes_app in W. now apply andb_true_iff in W.
Qed.

Lemma chunks_of_blocks bs : Forall (fun b => is_block b = true) bs -> chunks_exact 16 (concat bs) = bs.
Proof.
  induction 1 as [|b l B F IH]; [reflexivity|]. cbn [concat].
  apply is_block_iff in B as [L _]. rewrite chunks_cons, IH by (lia || assumption). reflexivity.
Qed.

Lemma len_blocks bs : Forall (fun b => is_block b = true) bs -> len (concat bs) = 16 * len bs.
Proof.
  induction 1 as [|b l B F IH]; [reflexivity|]. cbn [concat]. rewrite len_app, len_cons, IH.
  apply is_block_iff in B as [L _]. unfold len at 1. lia.
Qed.

Lemma wf_blocks bs : Forall (fun b => is_block b = true) bs -> wf_bytes (concat bs) = true.
Proof.
  induction 1 as [|b l B F IH]; [reflexivity|]. cbn [concat]. rewrite wf_bytes_app, IH.
  apply is_block_iff in B as [_ ->]. reflexivity.
Qed.

Lemma len_chunks (data : bytes) : len data mod 16 = 0 -> 16 * len (chunks_exact 16 data) = len data.
Proof.
  intros M%mod16_len. revert M.
  apply (blocks_ind 16 (fun data : bytes => 16 * len (chunks_exact 16 data) = len data)); [reflexivity| |lia].
  intros b l L _ IH. rewrite chunks_cons, len_cons, len_app by (lia || assumption). unfold len at 2. lia.
Qed.

(** ** PKCS#7 *)

Lemma padding_valid_iff b tail : padding_valid b tail = 1 <-> tail = repeat b (List.length tail).
Proof.
  unfold padding_valid.
  assert (G : forall v, v = 0 \/ v = 1 ->
    fold_left (fun v x => Z.land v (Z.b2z (x =? b))) tail v = v * Z.b2z (forallb (fun x => x =? b) tail)).
  { induction tail as [|x t IH]; intros v V; cbn [fold_left forallb]; [destruct V; subst; reflexivity|].
    rewrite IH by (destruct V; subst; destruct (x =? b); cbn; auto).
    destruct V; subst; destruct (x =? b); cbn [andb Z.b2z Z.land Pos.land]; lia. }
  rewrite G by auto. rewrite Z.mul_1_l.
  assert (F : forallb (fun x => x =? b) tail = true <-> tail = repeat b (List.length tail)).
  { clear G. induction tail as [|x t IH]; cbn [forallb repeat List.length]; [tauto|].
    rewrite andb_true_iff, Z.eqb_eq, IH. split; [now intros [-> <-]|].
    intros E. injection E as E1 E2. auto. }
  rewrite <- F. destruct (forallb _ tail); cbn; intuition congruence.
Qed.

Lemma last_some_snoc {A} (l : list A) x : last (map Some (l ++ [x])) None = Some x.
Proof. rewrite map_app. apply last_last. Qed.

Lemma pkcs7_pad_len data : len (pkcs7_pad data) = 16 * (len data / 16 + 1).
Proof.
  unfold pkcs7_pad, SM4_BLOCK_SIZE. rewrite len_app. unfold len at 2. rewrite repeat_length.
  pose proof (Z.mod_pos_bound (len data) 16). pose proof (Z.div_mod (len data) 16). lia.
Qed.

Lemma pkcs7_unpad_pad data : wf_bytes data = true -> pkcs7_unpad (pkcs7_pad data) = Ok data.
Proof.
  intros W. unfold pkcs7_unpad, pkcs7_pad, SM4_BLOCK_SIZE.
  pose proof (Z.mod_pos_bound (len data) 16 ltac:(lia)). set (n := 16 - len data mod 16).
  rewrite as_u8_small by lia. set (m := Z.to_nat n).
  assert (M : exists k, m = S k) by (exists (pred m); lia). destruct M as [k M].
  replace (last (map Some (data ++ repeat n m)) None) with (Some n)
    by (rewrite M; cbn [repeat]; now rewrite repeat_cons, app_assoc, last_some_snoc).
  destruct (Z.ltb_spec 0 n), (Z.leb_spec n 16); try lia. cbn [andb].
  assert (L : len (repeat n m) = n) by (unfold len; rewrite repeat_length; lia).
  rewrite usize_sub_ok by len_lia. cbn [bind].
  rewrite slice_from_app by len_lia. cbn [bind].
  rewrite (proj2 (padding_valid_iff _ _)) by (now rewrite repeat_length). cbn [Z.eqb Pos.eqb].
  f_equal. rewrite len_app, L, Z.add_simpl_r, to_nat_len, firstn_app, firstn_all, Nat.sub_diag, firstn_O.
  apply app_nil_r.
Qed.

(** On whole blocks the padding check fails by error only, and what it accepts
    is the padding of its result. *)
Lemma pkcs7_unpad_inv r : wf_bytes r = true -> r <> [] -> len r mod 16 = 0 ->
  (exists p, pkcs7_unpad r = Ok p /\ r = pkcs7_pad p) \/ (exists n, pkcs7_unpad r = Err (InvalidPadding n)).
Proof.
  intros W N M. destruct (exists_last N) as (q & n & ->). unfold pkcs7_unpad, SM4_BLOCK_SIZE.
  rewrite last_some_snoc. rewrite wf_bytes_app, andb_true_iff in W. destruct W as [W B].
  assert (L : 16 <= len (q ++ [n])).
  { assert (0 < len (q ++ [n])) by len_lia. pose proof (Z.div_mod (len (q ++ [n])) 16). lia. }
  destruct (Z.ltb_spec 0 n), (Z.leb_spec n 16); cbn [andb]; try (right; eexists; reflexivity).
  rewrite usize_sub_ok by lia. cbn [bind]. rewrite slice_from_ok by lia. cbn [bind].
  destruct (Z.eqb_spec (padding_valid n (skipn (Z.to_nat (len (q ++ [n]) - n)) (q ++ [n]))) 1) as [V|V];
    [left|right; eexists; reflexivity].
  eexists. split; [reflexivity|]. apply padding_valid_iff in V.
  rewrite length_skipn in V. set (r := q ++ [n]) in *. set (p := firstn (Z.to_nat (len r - n)) r).
  unfold pkcs7_pad, SM4_BLOCK_SIZE.
  assert (P : len p mod 16 = 16 - n).
  { unfold p. rewrite len_firstn by lia. rewrite Zminus_mod, M.
    destruct (Z.eq_dec n 16) as [->|]; [reflexivity|].
    rewrite (Z.mod_small n) by lia. symmetry. apply (Zmod_unique _ _ (-1)); lia. }
  rewrite P. replace (16 - (16 - n)) with n by lia. rewrite as_u8_small by lia.
  unfold len in V. replace (List.length r - Z.to_nat (Z.of_nat (List.length r) - n))%nat with (Z.to_nat n) in V
    by (unfold len in L; lia).
  rewrite <- V. symmetry. apply firstn_skipn.
Qed.

(** ** CBC *)

Section CbcLemmas.
Context {C : Sm4Crates} {L : Sm4Laws C}.
Local Abbreviation blocks := (Forall (fun b => is_block b = true)).

Lemma cbc_enc_blocks k prev bs : is_block prev = true -> blocks bs -> blocks (cbc_enc k prev bs).
Proof.
  intros P F. revert prev P. induction F as [|b bs B F IH]; intros prev P; cbn [cbc_enc]; constructor.
  - now apply encrypt_block_block, block_xor.
  - apply IH. now apply encrypt_block_block, block_xor.
Qed.

Lemma cbc_dec_blocks k prev cs : is_block prev = true -> blocks cs -> blocks (cbc_dec k prev cs).
Proof.
  intros P F. revert prev P. induction F as [|b bs B F IH]; intros prev P; cbn [cbc_dec]; constructor; auto.
  now apply block_xor; [apply decrypt_block_block|].
Qed.

Lemma block_length b : is_block b = true -> List.length b = 16%nat.
Proof. now intros [? _]%is_block_iff. Qed.

Lemma cbc_dec_enc k prev bs : is_block prev = true -> blocks bs -> cbc_dec k prev (cbc_enc k prev bs) = bs.
Proof.
  intros P F. revert prev P. induction F as [|b bs B F IH]; intros prev P; cbn [cbc_enc cbc_dec]; [reflexivity|].
  assert (X : is_block (xor_bytes b prev) = true) by now apply block_xor.
  rewrite decrypt_encrypt_block, xor_cancel, IH by (try apply encrypt_block_block; rewrite ?block_length; auto).
  reflexivity.
Qed.

Lemma cbc_enc_dec k prev cs : is_block prev = true -> blocks cs -> cbc_enc k prev (cbc_dec k prev cs) = cs.
Proof.
  intros P F. revert prev P. induction F as [|c cs B F IH]; intros prev P; cbn [cbc_enc cbc_dec]; [reflexivity|].
  assert (X : is_block (decrypt_block k c) = true) by now apply decrypt_block_block.
  rewrite xor_cancel, encrypt_decrypt_block, IH by (rewrite ?block_length; auto). reflexivity.
Qed.

Lemma cbc_encrypt_fold k prev bs r : is_block prev = true -> blocks bs ->
  exists q, try_fold (cbc_encrypt_step k) bs (r, prev) = Ok (r ++ concat (cbc_enc k prev bs), q).
Proof.
  intros P F. revert prev r P. induction F as [|b bs B F IH]; intros prev r P; cbn [try_fold cbc_enc concat].
  - rewrite app_nil_r. eauto.
  - assert (X : is_block (xor_bytes b prev) = true) by now apply block_xor.
    unfold cbc_encrypt_step at 1. rewrite from_slice_ok by (unfold len; now rewrite block_length). cbn [bind].
    destruct (IH _ (r ++ encrypt_block k (xor_bytes b prev)) (encrypt_block_block k _ X)) as [q ->].
    rewrite <- app_assoc. eauto.
Qed.

Lemma push_xor_ok block pre prev r : (List.length block <= List.length prev)%nat ->
  push_xor block (pre ++ prev) (len pre) r = Ok (r ++ xor_bytes block prev).
Proof.
  revert pre prev r. induction block as [|b block IH]; intros pre prev r Le; cbn [push_xor].
  - now rewrite app_nil_r.
  - destruct prev as [|p prev]; cbn [List.length] in Le; [lia|].
    rewrite index_app by reflexivity. cbn [bind].
    replace (pre ++ p :: prev) with ((pre ++ [p]) ++ prev) by (rewrite <- app_assoc; reflexivity).
    replace (len pre + 1) with (len (pre ++ [p])) by len_lia.
    rewrite IH, <- app_assoc by lia. reflexivity.
Qed.

Lemma cbc_decrypt_fold k prev cs r : is_block prev = true -> blocks cs ->
  exists q, try_fold (cbc_decrypt_step k) cs (r, prev) = Ok (r ++ concat (cbc_dec k prev cs), q).
Proof.
  intros P F. revert prev r P. induction F as [|c cs B F IH]; intros prev r P; cbn [try_fold cbc_dec concat].
  - rewrite app_nil_r. eauto.
  - assert (X : is_block (decrypt_block k c) = true) by now apply decrypt_block_block.
    unfold cbc_decrypt_step at 1. rewrite from_slice_ok by (unfold len; now rewrite block_length). cbn [bind].
    rewrite (push_xor_ok _ [] prev) by (rewrite !block_length; auto). cbn [bind].
    destruct (IH c (r ++ xor_bytes (decrypt_block k c) prev) B) as [q ->].
    rewrite <- app_assoc. eauto.
Qed.

Lemma iv_guard iv : is_block iv = true -> negb (len iv =? SM4_BLOCK_SIZE) = false.
Proof. intros B%block_length. unfold len. rewrite B. reflexivity. Qed.

Lemma mod_guard (d : bytes) : len d mod 16 = 0 -> negb (len d mod SM4_BLOCK_SIZE =? 0) = false.
Proof. unfold SM4_BLOCK_SIZE. now intros ->. Qed.

Lemma nonempty_guard (d : bytes) : d <> [] -> (len d =? 0) = false.
Proof. intros N. apply Z.eqb_neq. destruct d; [easy|]. len_lia. Qed.

Lemma encrypt_cbc_raw_ok c data iv :
  is_block iv = true -> wf_bytes data = true -> len data mod 16 = 0 -> data <> [] ->
  encrypt_cbc_raw c data iv = Ok (concat (cbc_enc (cipher c) iv (chunks_exact 16 data))).
Proof.
  intros I W M N. unfold encrypt_cbc_raw. rewrite iv_guard, mod_guard, nonempty_guard by assumption.
  cbn [guard orb]. destruct (blocks_of data W M) as [F _].
  destruct (cbc_encrypt_fold (cipher c) iv _ [] I F) as [q ->]. reflexivity.
Qed.

Lemma decrypt_cbc_raw_ok c data iv :
  is_block iv = true -> wf_bytes data = true -> len data mod 16 = 0 -> data <> [] ->
  decrypt_cbc_raw c data iv = Ok (concat (cbc_dec (cipher c) iv (chunks_exact 16 data))).
Proof.
  intros I W M N. unfold decrypt_cbc_raw. rewrite iv_guard, mod_guard, nonempty_guard by assumption.
  cbn [guard orb]. destruct (blocks_of data W M) as [F _].
  destruct (cbc_decrypt_fold (cipher c) iv _ [] I F) as [q ->]. reflexivity.
Qed.

Lemma wf_pad data : wf_bytes data = true -> wf_bytes (pkcs7_pad data) = true.
Proof.
  intros W. unfold pkcs7_pad. rewrite wf_bytes_app, W. apply forallb_forall.
  intros x ->%repeat_spec. apply is_byte_iff, as_u8_range.
Qed.

Lemma pad_mod data : len (pkcs7_pad data) mod 16 = 0.
Proof. rewrite pkcs7_pad_len, Z.mul_comm. apply Z.mod_mul. lia. Qed.

Lemma encrypt_cbc_ok c data iv : is_block iv = true -> wf_bytes data = true ->
  encrypt_cbc c data iv = Ok (concat (cbc_enc (cipher c) iv (chunks_exact 16 (pkcs7_pad data)))).
Proof.
  intros I W. unfold encrypt_cbc. rewrite iv_guard by assumption. cbn [guard].
  destruct (blocks_of _ (wf_pad data W) (pad_mod data)) as [F _].
  destruct (cbc_encrypt_fold (cipher c) iv _ [] I F) as [q ->]. reflexivity.
Qed.

Lemma decrypt_cbc_ok c e iv : is_block iv = true -> wf_bytes e = true -> len e mod 16 = 0 ->
  decrypt_cbc c e iv = pkcs7_unpad (concat (cbc_dec (cipher c) iv (chunks_exact 16 e))).
Proof.
  intros I W M. unfold decrypt_cbc. rewrite iv_guard, mod_guard by assumption. cbn [guard].
  destruct (blocks_of _ W M) as [F _].
  destruct (cbc_decrypt_fold (cipher c) iv _ [] I F) as [q ->]. reflexivity.
Qed.

(** What CBC encryption of whole blocks produces, and that decryption inverts it. *)
Lemma cbc_blocks_roundtrip k iv data : is_block iv = true -> wf_bytes data = true -> len data mod 16 = 0 ->
  let e := concat (cbc_enc k iv (chunks_exact 16 data)) in
  wf_bytes e = true /\ len e = len data /\ concat (cbc_dec k iv (chunks_exact 16 e)) = data.
Proof.
  intros I W M e. destruct (blocks_of data W M) as [F E].
  pose proof (cbc_enc_blocks k iv _ I F) as FE. subst e.
  split; [now apply wf_blocks|]. rewrite chunks_of_blocks, cbc_dec_enc by assumption. split; [|exact E].
  rewrite len_blocks, <- (len_chunks data M) by assumption. f_equal. clear.
  revert iv. induction (chunks_exact 16 data); intros; cbn [cbc_enc]; rewrite ?len_cons; congruence.
Qed.

Lemma ecb_fold f g data : (forall b, is_block b = true -> is_block (f b) = true /\ g (f b) = b) ->
  wf_bytes data = true -> len data mod 16 = 0 ->
  exists e, try_fold (ecb_step f) (chunks_exact 16 data) [] = Ok e /\ len e = len data /\ wf_bytes e = true /\
    try_fold (ecb_step g) (chunks_exact 16 e) [] = Ok data.
Proof.
  intros Hf W M. destruct (blocks_of data W M) as [F E].
  assert (G : forall (h : bytes -> bytes) bs r, blocks bs ->
    try_fold (ecb_step h) bs r = Ok (r ++ concat (map h bs))).
  { intros h bs r Fb. revert r. induction Fb as [|b bs B Fb IH]; intros r; cbn [try_fold map concat].
    - now rewrite app_nil_r.
    - unfold ecb_step at 1. rewrite from_slice_ok by (unfold len; now rewrite block_length).
      cbn [bind]. now rewrite IH, app_assoc. }
  assert (FM : blocks (map f (chunks_exact 16 data))).
  { apply Forall_map. eapply Forall_impl; [|exact F]. intros; now apply Hf. }
  eexists. split; [apply (G f _ [] F)|]. cbn [app].
  rewrite chunks_of_blocks, (G g _ [] FM), map_map, len_blocks, <- (len_chunks data M) by assumption.
  split; [unfold len; now rewrite length_map|]. split; [now apply wf_blocks|]. cbn [app]. f_equal.
  rewrite <- E at 2. f_equal. transitivity (map id (chunks_exact 16 data)); [|apply map_id].
  apply map_ext_in. intros b I. now apply Hf, (proj1 (Forall_forall _ _) F).
Qed.

Lemma cbc_dec_shape k iv e : is_block iv = true -> wf_bytes e = true -> len e mod 16 = 0 -> e <> [] ->
  let r := concat (cbc_dec k iv (chunks_exact 16 e)) in
  wf_bytes r = true /\ r <> [] /\ len r mod 16 = 0.
Proof.
  intros I W M N r. destruct (blocks_of e W M) as [F E].
  pose proof (cbc_dec_blocks k iv _ I F) as FD. split; [now apply wf_blocks|]. split.
  - destruct (chunks_exact 16 e) as [|b bs] eqn:Ch; [now rewrite <- E in N|].
    unfold r; cbn [cbc_dec concat] in *. inversion FD as [|? ? B]; subst.
    apply block_length in B. destruct (xor_bytes _ _); [discriminate|easy].
  - unfold r. rewrite len_blocks, Z.mul_comm by assumption. apply Z.mod_mul. lia.
Qed.

(** The ciphertexts of [p] are those that decrypt to the padding of [p]. *)
Lemma encrypt_cbc_iff c p e iv : is_block iv = true -> wf_bytes p = true -> wf_bytes e = true -> len e mod 16 = 0 ->
  encrypt_cbc c p iv = Ok e <-> concat (cbc_dec (cipher c) iv (chunks_exact 16 e)) = pkcs7_pad p.
Proof.
  intros I Wp We M. rewrite encrypt_cbc_ok by assumption. split.
  - intros X. injection X as <-. apply (cbc_blocks_roundtrip (cipher c) iv _ I (wf_pad p Wp) (pad_mod p)).
  - intros <-. destruct (blocks_of e We M) as [F E].
    rewrite chunks_of_blocks, cbc_enc_dec, E by auto using cbc_dec_blocks. reflexivity.
Qed.

Lemma raw_guard (d : bytes) : ((len d =? 0) || negb (len d mod SM4_BLOCK_SIZE =? 0)) = false ->
  d <> [] /\ len d mod 16 = 0.
Proof.
  unfold SM4_BLOCK_SIZE. intros [G1 G2]%orb_false_iff. apply negb_false_iff, Z.eqb_eq in G2.
  split; [now intros ->|exact G2].
Qed.

(** Raw CBC decryption inverts encryption, and accepts nothing else. *)
Lemma encrypt_cbc_raw_inv c d e iv : is_block iv = true -> wf_bytes d = true -> encrypt_cbc_raw c d iv = Ok e ->
  len d mod 16 = 0 /\ wf_bytes e = true /\ len e = len d /\ decrypt_cbc_raw c e iv = Ok d.
Proof.
  intros I W E. destruct ((len d =? 0) || negb (len d mod SM4_BLOCK_SIZE =? 0)) eqn:G.
  - unfold encrypt_cbc_raw in E. rewrite iv_guard, G in E by assumption. discriminate.
  - apply raw_guard in G as [N M]. rewrite encrypt_cbc_raw_ok in E by assumption. injection E as <-.
    destruct (cbc_blocks_roundtrip (cipher c) iv d I W M) as (We & Le & D).
    split; [exact M|]. split; [exact We|]. split; [exact Le|].
    rewrite decrypt_cbc_raw_ok; [now rewrite D|assumption|exact We|now rewrite Le|].
    intros Z. rewrite Z in Le. destruct d; [easy|]. revert Le. len_lia.
Qed.

Lemma decrypt_cbc_raw_inv c d e iv : is_block iv = true -> wf_bytes e = true -> decrypt_cbc_raw c e iv = Ok d ->
  wf_bytes d = true /\ d <> [] /\ encrypt_cbc_raw c d iv = Ok e.
Proof.
  intros I W E. destruct ((len e =? 0) || negb (len e mod SM4_BLOCK_SIZE =? 0)) eqn:G.
  - unfold decrypt_cbc_raw in E. rewrite iv_guard, G in E by assumption. discriminate.
  - apply raw_guard in G as [N M]. rewrite decrypt_cbc_raw_ok in E by assumption. injection E as <-.
    destruct (cbc_dec_shape (cipher c) iv e I W M N) as (Wd & Nd & Md).
    split; [exact Wd|]. split; [exact Nd|]. rewrite encrypt_cbc_raw_ok by assumption.
    destruct (blocks_of e W M) as [F Ee].
    rewrite chunks_of_blocks, cbc_enc_dec, Ee by auto using cbc_dec_blocks. reflexivity.
Qed.

Lemma decrypt_cbc_raw_total c e iv : is_block iv = true -> wf_bytes e = true -> decrypt_cbc_raw c e iv <> Panic.
Proof.
  intros I W. destruct ((len e =? 0) || negb (len e mod SM4_BLOCK_SIZE =? 0)) eqn:G.
  - unfold decrypt_cbc_raw. rewrite iv_guard, G by assumption. discriminate.
  - apply raw_guard in G as [N M]. rewrite decrypt_cbc_raw_ok by assumption. discriminate.
Qed.
End CbcLemmas.

(** ** The correctness of the block modes *)

Section BlockModes.
Context {C : Sm4Crates} {L : Sm4Laws C}.

(** Whatever the 16-byte key, ECB and raw CBC decrypt what they encrypt on
    whole blocks (raw CBC on at least one), and padded CBC on every byte string
    and every IV; the ciphertext is as long as the (padded) data. A key of
    another length is refused. *)
Theorem sm4_block_modes_roundtrip (key iv data : bytes) :
  len key = 16 -> is_block iv = true -> wf_bytes data = true ->
  (forall k, len k <> 16 -> Sm4Cipher_new k = Err (InvalidKeyLength 16 (len k))) /\
  exists c, Sm4Cipher_new key = Ok c /\
  (exists e, encrypt_cbc c data iv = Ok e /\ len e = 16 * (len data / 16 + 1) /\
     decrypt_cbc c e iv = Ok data) /\
  (len data mod 16 = 0 ->
     (exists e, encrypt_ecb c data = Ok e /\ len e = len data /\ decrypt_ecb c e = Ok data) /\
     (data <> [] -> exists e, encrypt_cbc_raw c data iv = Ok e /\ len e = len data /\
        decrypt_cbc_raw c e iv = Ok data)) /\
  (len data mod 16 <> 0 ->
     (exists m, encrypt_ecb c data = Err m) /\ (exists m, encrypt_cbc_raw c data iv = Err m)).
Proof.
  intros K I W. split.
  { intros k Hk. unfold Sm4Cipher_new, SM4_KEY_LENGTH. now rewrite (proj2 (Z.eqb_neq _ _) Hk). }
  exists {| cipher := key; key_bytes := key |}. unfold Sm4Cipher_new, SM4_KEY_LENGTH. rewrite K.
  split; [reflexivity|]. set (c := {| cipher := key; key_bytes := key |}). split; [|split].
  - destruct (cbc_blocks_roundtrip (cipher c) iv _ I (wf_pad data W) (pad_mod data)) as (We & Le & D).
    eexists. split; [now apply encrypt_cbc_ok|]. rewrite Le, <- pkcs7_pad_len. split; [reflexivity|].
    rewrite decrypt_cbc_ok, D by (rewrite ?Le; auto using pad_mod). now apply pkcs7_unpad_pad.
  - intros M. split.
    + destruct (ecb_fold (encrypt_block (cipher c)) (decrypt_block (cipher c)) data) as (e & E & Le & We & D); auto.
      { intros b B. split; [now apply encrypt_block_block|now apply decrypt_encrypt_block]. }
      exists e. unfold encrypt_ecb, decrypt_ecb. rewrite !mod_guard by (rewrite ?Le; assumption). auto.
    + intros N. destruct (cbc_blocks_roundtrip (cipher c) iv data I W M) as (We & Le & D).
      eexists. split; [now apply encrypt_cbc_raw_ok|]. split; [exact Le|].
      rewrite decrypt_cbc_raw_ok, D; try rewrite Le; auto.
      intros Z0. rewrite Z0, len_nil in Le. destruct data; [easy|len_lia].
  - intros M. unfold encrypt_ecb, encrypt_cbc_raw. rewrite iv_guard by assumption. unfold SM4_BLOCK_SIZE.
    rewrite (proj2 (Z.eqb_neq _ _) M), orb_true_r. cbn [negb guard]. eauto.
Qed.

(** Padded CBC decryption never panics and inverts encryption exactly: on
    whole blocks it returns [p] if and only if the input is the encryption of
    [p] (or is empty, with [p] empty), otherwise [InvalidPadding]; an input that is not whole
    blocks is refused. *)
Theorem sm4_cbc_decrypt_exact (c : Sm4Cipher) (e iv : bytes) :
  is_block iv = true -> wf_bytes e = true ->
  (len e mod 16 <> 0 -> decrypt_cbc c e iv = Err (InvalidDataLength multiple_of_msg)) /\
  (decrypt_cbc c [] iv = Ok []) /\
  (len e mod 16 = 0 ->
     (forall p, wf_bytes p = true -> e <> [] ->
        (decrypt_cbc c e iv = Ok p <-> encrypt_cbc c p iv = Ok e)) /\
     ((exists p, decrypt_cbc c e iv = Ok p /\ wf_bytes p = true) \/
      exists n, decrypt_cbc c e iv = Err (InvalidPadding n))).
Proof.
  intros I W. split; [|split].
  - intros M. unfold decrypt_cbc. rewrite iv_guard by assumption. unfold SM4_BLOCK_SIZE.
    rewrite (proj2 (Z.eqb_neq _ _) M). reflexivity.
  - rewrite decrypt_cbc_ok by auto. reflexivity.
  - intros M. destruct (list_eq_dec Z.eq_dec e []) as [->|N].
    { split; [intros ? ? []; reflexivity|]. left. exists []. now rewrite decrypt_cbc_ok. }
    destruct (cbc_dec_shape (cipher c) iv e I W M N) as (Wr & Nr & Mr).
    rewrite decrypt_cbc_ok by assumption.
    destruct (pkcs7_unpad_inv _ Wr Nr Mr) as [(q & U & Rq)|(n & U)]; rewrite U.
    + assert (Wq : wf_bytes q = true).
      { rewrite Rq in Wr. unfold pkcs7_pad in Wr. rewrite wf_bytes_app in Wr.
        now apply andb_true_iff in Wr as [? _]. }
      split; [|left; eauto]. intros p Wp _. rewrite encrypt_cbc_iff, Rq by assumption. split; [now intros [= ->]|].
      intros X. f_equal. apply (f_equal pkcs7_unpad) in X.
      rewrite !pkcs7_unpad_pad in X by assumption. congruence.
    + split; [|right; eauto]. intros p Wp _. rewrite encrypt_cbc_iff by assumption. split; [discriminate|].
      intros X. rewrite X, pkcs7_unpad_pad in U by assumption. discriminate.
Qed.
End BlockModes.

(** ** GCM lemmas *)

Lemma absorb_nil g : ghash_absorb g [] = g.
Proof. destruct g. unfold ghash_absorb. cbn. now rewrite app_nil_r. Qed.

Lemma ghash_update_pad g data : ghash_update g data = ghash_absorb g (chunks_exact 16 (pad16 data)).
Proof.
  unfold ghash_update, pad16. destruct (Z.eqb_spec (len data) 0) as [Z0|NZ].
  { destruct data; [|len_lia]. cbn. now rewrite absorb_nil. }
  destruct (chunks_split 16 data) as (l0 & E & M & Ch & R); [lia|].
  set (rem := chunks_remainder 16 data) in *. rewrite Ch.
  assert (Lr : len rem = len data mod 16) by (unfold len; rewrite R, Nat2Z.inj_mod; reflexivity).
  pose proof (Z.mod_pos_bound (len data) 16 ltac:(lia)).
  assert (P : chunks_exact 16 (data ++ repeat 0 (Z.to_nat (- len data mod 16))) =
    if len rem =? 0 then chunks_exact 16 l0
    else chunks_exact 16 l0 ++ [rem ++ repeat 0 (16 - List.length rem)]).
  { destruct (Z.eqb_spec (len rem) 0) as [R0|RN].
    - rewrite Z.mod_opp_l_z by lia. cbn [Z.to_nat repeat]. rewrite app_nil_r, Ch. reflexivity.
    - rewrite Z.mod_opp_l_nz by lia. rewrite E at 1. rewrite <- app_assoc, chunks_app by (lia || assumption).
      replace (Z.to_nat (16 - len data mod 16)) with (16 - List.length rem)%nat by (unfold len in *; lia).
      rewrite <- (app_nil_r (rem ++ _)), chunks_cons; [now rewrite chunks_nil, app_nil_r|lia|].
      rewrite length_app, repeat_length. unfold len in *. lia. }
  rewrite P. destruct (Z.eqb_spec (len rem) 0) as [R0|RN].
  - destruct (chunks_exact 16 l0); [now rewrite absorb_nil|]. destruct (Z.eqb_spec (len (l :: l1)) 0); [len_lia|reflexivity].
  - destruct (Z.eqb_spec (len (chunks_exact 16 l0 ++ [rem ++ repeat 0 (16 - List.length rem)])) 0); [len_lia|reflexivity].
Qed.

Lemma be_bytes_u64 x : be_bytes 8 (as_u64 x) = be_bytes 8 x.
Proof. exact (be_bytes_mod 8 x). Qed.

Lemma ghash_lengths_spec g a c :
  ghash_lengths g a c = ghash_absorb g [be_bytes 8 (8 * a) ++ be_bytes 8 (8 * c)].
Proof.
  unfold ghash_lengths. rewrite !be_bytes_u64.
  assert (H : forall x, be_bytes 8 (as_u64 x * 8) = be_bytes 8 (8 * x)).
  { intros x. rewrite <- be_bytes_u64, <- (be_bytes_u64 (8 * x)). unfold as_u64. f_equal.
    rewrite Z.mul_mod_idemp_l by lia. f_equal. lia. }
  now rewrite !H.
Qed.

Lemma pad16_mod x : Nat.modulo (List.length (pad16 x)) 16 = 0%nat.
Proof.
  apply mod16_len. unfold pad16. rewrite len_app. unfold len at 2. rewrite repeat_length.
  pose proof (Z.mod_pos_bound (- len x) 16 ltac:(lia)). rewrite Z2Nat.id by lia.
  rewrite Z.add_mod_idemp_r, Z.add_opp_diag_r by lia. reflexivity.
Qed.

Lemma j0_value nonce : len nonce = 12 -> wf_bytes nonce = true ->
  be_bytes 16 (from_be nonce * 2 ^ 32 + 1) = j0_of nonce.
Proof.
  intros Ln W. unfold j0_of.
  assert (V : from_be (nonce ++ [0; 0; 0; 1]) = from_be nonce * 2 ^ 32 + 1) by (rewrite from_be_app; reflexivity).
  rewrite <- V. replace 16%nat with (List.length (nonce ++ [0; 0; 0; 1]))
    by (rewrite length_app; cbn [List.length]; unfold len in Ln; lia).
  apply be_bytes_from_be. rewrite wf_bytes_app, W. reflexivity.
Qed.

Lemma inc32_j0 nonce : len nonce = 12 -> wf_bytes nonce = true ->
  inc32 (j0_of nonce) = be_bytes 16 (inc_32 (from_be nonce * 2 ^ 32 + 1)) /\
  from_be (inc32 (j0_of nonce)) = inc_32 (from_be nonce * 2 ^ 32 + 1) /\
  inc_32 (from_be nonce * 2 ^ 32 + 1) = from_be nonce * 2 ^ 32 + 2.
Proof.
  intros Ln W.
  assert (I : inc_32 (from_be nonce * 2 ^ 32 + 1) = from_be nonce * 2 ^ 32 + 2).
  { unfold inc_32. rewrite Z.div_add_l, (Z.add_comm (_ * _) 1), Z.mod_add by lia.
    rewrite (Z.mod_small 1), (Z.mod_small (1 + 1)), (Z.div_small 1) by lia. lia. }
  assert (J : inc32 (j0_of nonce) = nonce ++ [0; 0; 0; 2]).
  { unfold inc32, j0_of. assert (N : List.length nonce = 12%nat) by (unfold len in Ln; lia).
    rewrite firstn_app, skipn_app, N, Nat.sub_diag, firstn_O, app_nil_r.
    rewrite <- N, firstn_all, skipn_all. reflexivity. }
  assert (V : from_be (nonce ++ [0; 0; 0; 2]) = from_be nonce * 2 ^ 32 + 2) by (rewrite from_be_app; reflexivity).
  rewrite I, J. split; [|auto]. rewrite <- V. symmetry.
  replace 16%nat with (List.length (nonce ++ [0; 0; 0; 2]))
    by (rewrite length_app; cbn [List.length]; unfold len in Ln; lia).
  apply be_bytes_from_be. rewrite wf_bytes_app, W. reflexivity.
Qed.

Section StreamLemmas.
Context {C : Sm4Crates}.

Lemma length_stream_of k cb n :
  (forall x, List.length (encrypt_block k (be_bytes 16 x)) = 16%nat) ->
  List.length (ctr_stream k cb n) = (16 * n)%nat.
Proof.
  intros H. unfold ctr_stream.
  assert (G : forall i, List.length (concat (map (fun i => encrypt_block k (be_bytes 16 (cb + Z.of_nat i)))
    (seq i n))) = (16 * n)%nat).
  { induction n; intros i; [reflexivity|]. cbn [seq map concat]. rewrite length_app, IHn, H. lia. }
  apply G.
Qed.

(** A longer stream changes nothing. *)
Lemma stream_enough k cb n m x :
  (forall x, List.length (encrypt_block k (be_bytes 16 x)) = 16%nat) ->
  (List.length x <= 16 * n)%nat -> (n <= m)%nat ->
  xor_bytes x (ctr_stream k cb m) = xor_bytes x (ctr_stream k cb n).
Proof.
  intros H Lx Le. unfold ctr_stream. replace m with (n + (m - n))%nat by lia.
  rewrite seq_app, map_app, concat_app. apply xor_app_r. fold (ctr_stream k cb n).
  now rewrite length_stream_of.
Qed.

End StreamLemmas.

Section GcmLemmas.
Context {C : Sm4Crates} {L : Sm4Laws C}.

Lemma be16_block x : is_block (be_bytes 16 x) = true.
Proof. apply is_block_iff. split; [apply length_be_bytes|apply wf_be_bytes]. Qed.

Lemma enc_length k x : List.length (encrypt_block k (be_bytes 16 x)) = 16%nat.
Proof. now apply block_length, encrypt_block_block, be16_block. Qed.

Lemma gcm_tag_spec c nonce aad ct : len nonce = 12 -> wf_bytes nonce = true ->
  gcm_tag c (j0_of nonce) aad ct = gcm_spec_tag (cipher c) nonce aad ct.
Proof.
  intros Ln W. unfold gcm_tag, gcm_spec_tag. cbn [gctr].
  rewrite !ghash_update_pad, ghash_lengths_spec, app_nil_r. unfold ghash_finalize. cbn [ghash_absorb ghash_key ghash_blocks app].
  rewrite !chunks_app by (lia || apply pad16_mod). rewrite <- app_assoc.
  rewrite <- (app_nil_r (be_bytes 8 (8 * len aad) ++ _)) at 2.
  rewrite (chunks_cons 16 (be_bytes 8 (8 * len aad) ++ _)) by (rewrite ?length_app, ?length_be_bytes; lia).
  rewrite chunks_nil, j0_value, xor_comm by assumption. f_equal.
  symmetry. apply firstn_all2. rewrite block_length by apply ghash_block. lia.
Qed.

Lemma gctr_nil f k cb : gctr f k cb [] = [].
Proof. revert cb. induction f; intros; cbn [gctr firstn skipn]; [reflexivity|]. now rewrite IHf. Qed.

Lemma ctr_stream_S k cb n : ctr_stream k cb (S n) = encrypt_block k (be_bytes 16 cb) ++ ctr_stream k (cb + 1) n.
Proof.
  unfold ctr_stream. cbn [seq map concat Z.of_nat]. rewrite Z.add_0_r. f_equal. f_equal.
  rewrite <- seq_shift, map_map. apply map_ext. intros i. do 2 f_equal. lia.
Qed.

Lemma length_ctr_stream k cb n : List.length (ctr_stream k cb n) = (16 * n)%nat.
Proof. apply length_stream_of, enc_length. Qed.

(** While the low word does not wrap, GCTR is the CTR stream. *)
Lemma gctr_stream f n k cb x :
  (List.length x <= 16 * n)%nat -> (n <= f)%nat -> cb mod 2 ^ 32 + Z.of_nat n <= 2 ^ 32 ->
  gctr f k cb x = xor_bytes x (ctr_stream k cb n).
Proof.
  revert n cb x. induction f as [|f IH]; intros [|n] cb x Lx Lf B; try lia.
  - destruct x; [reflexivity|cbn [List.length] in Lx; lia].
  - destruct x; [apply gctr_nil|cbn [List.length] in Lx; lia].
  - cbn [gctr]. rewrite ctr_stream_S. destruct (Nat.le_gt_cases 16 (List.length x)) as [G|G].
    + rewrite <- (firstn_skipn 16 x) at 3. rewrite xor_app by (rewrite enc_length, length_firstn; lia). f_equal.
      destruct n.
      { replace (skipn 16 x) with (@nil Z) by (symmetry; apply skipn_all2; lia). apply gctr_nil. }
      assert (inc_32 cb = cb + 1) as ->.
      { unfold inc_32. rewrite (Z.mod_small (_ + 1)) by (pose proof (Z.mod_pos_bound cb (2 ^ 32)); lia).
        pose proof (Z.div_mod cb (2 ^ 32)). lia. }
      apply IH; [rewrite length_skipn; lia|lia|].
      rewrite <- Z.add_mod_idemp_l by lia. pose proof (Z.mod_pos_bound cb (2 ^ 32) ltac:(lia)).
      rewrite Z.mod_small by lia. lia.
    + rewrite firstn_all2, skipn_all2, gctr_nil, app_nil_r by lia.
      rewrite xor_app_r by (rewrite enc_length; lia). reflexivity.
Qed.

Lemma ctr128be_gctr k nonce x : len nonce = 12 -> wf_bytes nonce = true -> len x <= 2 ^ 36 - 32 ->
  ctr128be k (inc32 (j0_of nonce)) x = gcm_spec_crypt k nonce x.
Proof.
  intros Ln W B. destruct (inc32_j0 nonce Ln W) as (E & V & I). unfold gcm_spec_crypt.
  pose proof (Nat.div_mod_eq (List.length x + 15) 16). pose proof (Nat.mod_upper_bound (List.length x + 15) 16).
  set (n := ((List.length x + 15) / 16)%nat) in *.
  rewrite (ctr128be_spec k _ _ n), V by (try (rewrite E; apply be16_block); lia).
  symmetry. apply gctr_stream; [lia| |].
  - destruct x; cbn [List.length] in *; lia.
  - rewrite I, (Z.add_comm (_ * _) 2), Z.mod_add by lia. rewrite Z.mod_small by lia. unfold len in B. lia.
Qed.

(** The CTR stream is an involution, whatever the length. *)
Lemma ctr128be_involutive k iv x : is_block iv = true ->
  ctr128be k iv (ctr128be k iv x) = x /\ List.length (ctr128be k iv x) = List.length x.
Proof.
  intros I. set (n := List.length x).
  assert (Len : List.length (ctr128be k iv x) = n).
  { rewrite (ctr128be_spec k iv x n), length_xor, length_ctr_stream by (assumption || lia). lia. }
  split; [|exact Len]. rewrite (ctr128be_spec k iv (ctr128be k iv x) n) by (assumption || lia).
  rewrite (ctr128be_spec k iv x n) by (assumption || lia). apply xor_cancel. rewrite length_ctr_stream. lia.
Qed.

Lemma nonce_guard (nonce : bytes) : len nonce = 12 -> negb (len nonce =? SM4_GCM_NONCE_LENGTH) = false.
Proof. now intros ->. Qed.

Lemma gcm_tag_length c j0 aad ct : is_block j0 = true -> len (gcm_tag c j0 aad ct) = 16.
Proof.
  intros J. unfold gcm_tag, ghash_finalize. unfold len. rewrite length_xor.
  rewrite (block_length _ (ghash_block _ _)), (block_length _ (encrypt_block_block _ _ J)). reflexivity.
Qed.

Lemma j0_block nonce : len nonce = 12 -> wf_bytes nonce = true -> is_block (j0_of nonce) = true.
Proof. intros Ln W. rewrite <- j0_value by assumption. apply be16_block. Qed.

(** Decryption accepts what encryption produced, at any length. *)
Lemma gcm_roundtrip c data nonce aad : len nonce = 12 -> wf_bytes nonce = true ->
  exists ct tag, encrypt_gcm c data nonce aad = Ok (ct, tag) /\ len ct = len data /\ len tag = 16 /\
    decrypt_gcm c ct nonce aad tag = Ok data.
Proof.
  intros Ln W. unfold encrypt_gcm, decrypt_gcm. rewrite !nonce_guard by assumption. cbn [guard].
  destruct (inc32_j0 nonce Ln W) as (E & _). set (iv := inc32 (j0_of nonce)) in *.
  destruct (ctr128be_involutive (key_bytes c) iv data) as [Inv Len]; [rewrite E; apply be16_block|].
  do 2 eexists. split; [reflexivity|]. split; [unfold len; now rewrite Len|].
  rewrite gcm_tag_length by now apply j0_block. split; [reflexivity|].
  rewrite bytes_eqb_refl. cbn [negb guard Z.eqb Pos.eqb SM4_GCM_TAG_LENGTH]. now rewrite Inv.
Qed.

Lemma wf_ctr128be k nonce data : len nonce = 12 -> wf_bytes nonce = true -> wf_bytes data = true ->
  wf_bytes (ctr128be k (inc32 (j0_of nonce)) data) = true.
Proof.
  intros Ln W Wd. rewrite (ctr128be_spec _ _ data (List.length data)); [|destruct (inc32_j0 nonce Ln W) as (-> & _); apply be16_block|lia].
  apply wf_xor; [exact Wd|]. apply wf_blocks. apply Forall_map, Forall_forall. intros i _. apply encrypt_block_block, be16_block.
Qed.

Lemma wf_encrypt_gcm c data nonce aad ct tag : len nonce = 12 -> wf_bytes nonce = true -> wf_bytes data = true ->
  encrypt_gcm c data nonce aad = Ok (ct, tag) -> wf_bytes ct = true /\ wf_bytes tag = true.
Proof.
  intros Ln W Wd. unfold encrypt_gcm. rewrite nonce_guard by assumption. cbn [guard]. intros X. injection X as <- <-.
  split; [now apply wf_ctr128be|]. unfold gcm_tag, ghash_finalize. apply wf_xor; apply is_block_iff; [|apply ghash_block].
  now apply encrypt_block_block, j0_block.
Qed.

(** Decryption accepts exactly what encryption produces. *)
Lemma decrypt_gcm_iff c e nonce aad tag p : len nonce = 12 -> wf_bytes nonce = true ->
  decrypt_gcm c e nonce aad tag = Ok p <-> encrypt_gcm c p nonce aad = Ok (e, tag).
Proof.
  intros Ln W. split.
  - destruct (inc32_j0 nonce Ln W) as (E & _).
    destruct (ctr128be_involutive (key_bytes c) (inc32 (j0_of nonce)) e) as [Inv _]; [rewrite E; apply be16_block|].
    unfold encrypt_gcm, decrypt_gcm. rewrite !nonce_guard by assumption. cbn [guard].
    destruct (negb (len tag =? _)); [discriminate|]. cbn [guard].
    destruct (bytes_eqb _ tag) eqn:B; [|discriminate]. apply bytes_eqb_eq in B. intros X. cbn [negb guard] in X.
    apply ok_inj in X. subst p. now rewrite Inv, B.
  - intros E. destruct (gcm_roundtrip c p nonce aad Ln W) as (ct & t & E' & _ & _ & D). congruence.
Qed.

(** The plaintext of byte strings is a byte string. *)
Lemma wf_decrypted c p nonce aad e tag : len nonce = 12 -> wf_bytes nonce = true -> wf_bytes e = true ->
  encrypt_gcm c p nonce aad = Ok (e, tag) -> wf_bytes p = true.
Proof.
  intros Ln W We X. apply decrypt_gcm_iff in X; [|assumption..]. unfold decrypt_gcm in X.
  rewrite nonce_guard in X by assumption. cbn [guard] in X. destruct (negb (len tag =? _)); [discriminate|].
  cbn [guard] in X. destruct (negb (bytes_eqb _ _)); [discriminate|]. injection X as <-. now apply wf_ctr128be.
Qed.

Lemma decrypt_gcm_total c e nonce aad tag : decrypt_gcm c e nonce aad tag <> Panic.
Proof. unfold decrypt_gcm. destruct (negb _); [discriminate|]. destruct (negb _); [discriminate|]. now destruct (negb _). Qed.
End GcmLemmas.

(** ** GCM is the standard's GCM *)

(** C27. SM4-GCM is the GCM of NIST SP 800-38D with 96-bit IVs, for every
    message up to the standard's limit of 2^36 - 32 bytes: encryption returns
    the standard's ciphertext and tag, decryption returns the standard's
    plaintext when the tag is the standard's and an authentication error
    otherwise, and so inverts encryption; other nonce and tag lengths are
    refused. *)
Theorem sm4_gcm_correct {C : Sm4Crates} {L : Sm4Laws C} (key nonce aad data e tag : bytes) :
  len key = 16 -> len nonce = 12 -> wf_bytes nonce = true ->
  len data <= 2 ^ 36 - 32 -> len e <= 2 ^ 36 - 32 -> len tag = 16 ->
  let ct := gcm_spec_crypt key nonce data in
  let t := gcm_spec_tag key nonce aad ct in
  exists c, Sm4Cipher_new key = Ok c /\
  encrypt_gcm c data nonce aad = Ok (ct, t) /\
  decrypt_gcm c ct nonce aad t = Ok data /\
  decrypt_gcm c e nonce aad tag =
    (if bytes_eqb (gcm_spec_tag key nonce aad e) tag then Ok (gcm_spec_crypt key nonce e)
     else Err (Sm4Error "SM4-GCM authentication failed")) /\
  (forall n, len n <> 12 ->
     encrypt_gcm c data n aad = Err (InvalidDataLength nonce_msg) /\
     decrypt_gcm c e n aad tag = Err (InvalidDataLength nonce_msg)) /\
  (forall t', len t' <> 16 -> decrypt_gcm c e nonce aad t' = Err (InvalidDataLength tag_msg)).
Proof.
  intros K Ln W Bd Be Lt ct t. exists {| cipher := key; key_bytes := key |}.
  unfold Sm4Cipher_new, SM4_KEY_LENGTH. rewrite K. split; [reflexivity|].
  set (c := {| cipher := key; key_bytes := key |}).
  assert (E : encrypt_gcm c data nonce aad = Ok (ct, t)).
  { unfold encrypt_gcm. rewrite nonce_guard by assumption. cbn [guard].
    now rewrite ctr128be_gctr, gcm_tag_spec by assumption. }
  split; [exact E|]. split; [|split; [|split]].
  - destruct (gcm_roundtrip c data nonce aad Ln W) as (ct' & t' & E' & _ & _ & D). congruence.
  - unfold decrypt_gcm, SM4_GCM_TAG_LENGTH. rewrite nonce_guard, Lt by assumption. cbn [guard negb Z.eqb Pos.eqb].
    rewrite ctr128be_gctr, gcm_tag_spec by assumption. cbn [cipher key_bytes c].
    now destruct (bytes_eqb _ _).
  - intros n Hn. unfold encrypt_gcm, decrypt_gcm, SM4_GCM_NONCE_LENGTH.
    now rewrite (proj2 (Z.eqb_neq _ _) Hn).
  - intros t' Ht. unfold decrypt_gcm, SM4_GCM_TAG_LENGTH. rewrite nonce_guard by assumption.
    now rewrite (proj2 (Z.eqb_neq _ _) Ht).
Qed.

(** ** A concrete instance of the crates *)

Definition toy_key (k : bytes) : bytes := firstn 16 (k ++ repeat 0 16).

Definition toy_encrypt (k b : bytes) : bytes :=
  if is_block (toy_key k) then xor_bytes b (toy_key k) else b.

#[local] Instance toy_crates : Sm4Crates := {
  encrypt_block := toy_encrypt;
  decrypt_block := toy_encrypt;
  ghash h l := be_bytes 16 (from_be (h ++ concat l));
  ctr128be k iv data :=
    xor_bytes data (concat (map (fun i => toy_encrypt k (be_bytes 16 (from_be iv + Z.of_nat i)))
      (seq 0 (List.length data))))
}.

Lemma toy_encrypt_block k b : is_block b = true -> is_block (toy_encrypt k b) = true.
Proof. intros B. unfold toy_encrypt. destruct (is_block (toy_key k)) eqn:K; [now apply block_xor|exact B]. Qed.

Lemma toy_involutive k b : is_block b = true -> toy_encrypt k (toy_encrypt k b) = b.
Proof.
  intros B. unfold toy_encrypt. destruct (is_block (toy_key k)) eqn:K; [|reflexivity].
  apply xor_cancel. apply block_length in B, K. lia.
Qed.

#[local] Instance toy_laws : Sm4Laws toy_crates.
Proof.
  split.
  - apply toy_encrypt_block.
  - exact toy_encrypt_block.
  - exact toy_involutive.
  - exact toy_involutive.
  - intros. apply be16_block.
  - intros k iv data n I Ln. set (m := List.length data).
    assert (H : forall x, List.length (@encrypt_block toy_crates k (be_bytes 16 x)) = 16%nat)
      by (intros; apply block_length, toy_encrypt_block, be16_block).
    transitivity (xor_bytes data (@ctr_stream toy_crates k (from_be iv) m)); [reflexivity|].
    rewrite <- (stream_enough k _ n (n + m)), <- (stream_enough k _ m (n + m)) by (exact H || lia). reflexivity.
Qed.

Lemma sm4_block_modes_roundtrip_witness :
  exists e, encrypt_cbc {| cipher := repeat 7 16; key_bytes := repeat 7 16 |} [1; 2; 3] (repeat 9 16) = Ok e /\
    decrypt_cbc {| cipher := repeat 7 16; key_bytes := repeat 7 16 |} e (repeat 9 16) = Ok [1; 2; 3].
Proof.
  destruct (sm4_block_modes_roundtrip (repeat 7 16) (repeat 9 16) [1; 2; 3]) as (_ & c & E & R & _);
    [reflexivity..|].
  destruct R as (e & Ee & _ & De). injection E as <-. eauto.
Defined.

Lemma sm4_cbc_decrypt_exact_witness :
  decrypt_cbc {| cipher := repeat 7 16; key_bytes := repeat 7 16 |} [] (repeat 9 16) = Ok [] /\
  decrypt_cbc {| cipher := repeat 7 16; key_bytes := repeat 7 16 |} [1] (repeat 9 16) =
    Err (InvalidDataLength multiple_of_msg).
Proof.
  pose proof (sm4_cbc_decrypt_exact {| cipher := repeat 7 16; key_bytes := repeat 7 16 |} [1] (repeat 9 16)
    eq_refl eq_refl) as (A & B & _).
  split; [exact B|]. apply A. discriminate.
Defined.

Lemma sm4_gcm_correct_witness :
  exists c, Sm4Cipher_new (repeat 7 16) = Ok c /\
    encrypt_gcm c [1; 2; 3] (repeat 9 12) [4] =
      Ok (gcm_spec_crypt (repeat 7 16) (repeat 9 12) [1; 2; 3],
          gcm_spec_tag (repeat 7 16) (repeat 9 12) [4] (gcm_spec_crypt (repeat 7 16) (repeat 9 12) [1; 2; 3])).
Proof.
  destruct (sm4_gcm_correct (repeat 7 16) (repeat 9 12) [4] [1; 2; 3] [5] (repeat 0 16)) as (c & E & G & _);
    [reflexivity..|vm_compute; discriminate|vm_compute; discriminate|reflexivity|].
  eauto.
Defined.
