(* ===== verification/Sm3.v ===== *)
(** SM3 hashing and HMAC-SM3 (gm-crypto/src/sm3.rs). The hash function (crate
    sm3) is a parameter with 32-byte digests; HMAC is compared with RFC 2104. *)

From Stdlib Require Import Bool ZArith Lia List.
From S2P Require Import Prelude Bytes Sm4.
Import ListNotations.
Open Scope Z_scope.

Class Sm3Crate := sm3 : bytes -> bytes.
Class Sm3Laws (H : Sm3Crate) : Prop := sm3_digest : digest32 sm3.

(** [dst[..src.len()].copy_from_slice(src)] *)
Definition copy_prefix {E : Type} (dst src : bytes) : outcome E bytes :=
  if len src <=? len dst then Ok (src ++ skipn (List.length src) dst) else Panic.

Section Sm3.
Context {H : Sm3Crate}.

Definition Sm3Hasher_hash (data : bytes) : outcome CryptoError bytes := Ok (sm3 data).

Record Sm3Hmac : Type := Sm3Hmac_new { hmac_key : bytes }.

Definition compute (h : Sm3Hmac) (data : bytes) : outcome CryptoError bytes :=
  let block_size := 64 in
  let key_padded := repeat 0 64 in
  key_padded <-
    (if block_size <? len (hmac_key h) then
       key_hash <- Sm3Hasher_hash (hmac_key h) ;; copy_prefix key_padded key_hash
     else copy_prefix key_padded (hmac_key h)) ;;
  let ipad := xor_bytes (repeat 0x36 64) key_padded in
  let inner_hash := sm3 (ipad ++ data) in
  let opad := xor_bytes (repeat 0x5C 64) key_padded in
  Ok (sm3 (opad ++ inner_hash)).

Definition verify (h : Sm3Hmac) (data hmac : bytes) : outcome CryptoError bool :=
  computed <- compute h data ;;
  if negb (len computed =? len hmac) then Ok false else Ok (bytes_eqb computed hmac).

(** RFC 2104 with blocks of 64 bytes. *)
Definition hmac_ref (k m : bytes) : bytes :=
  let k := if 64 <? len k then sm3 k else k in
  let k0 := k ++ repeat 0 (Z.to_nat (64 - len k)) in
  sm3 (xor_bytes k0 (repeat 0x5C 64) ++ sm3 (xor_bytes k0 (repeat 0x36 64) ++ m)).
End Sm3.

Section Lemmas.
Context {H : Sm3Crate} {L : Sm3Laws H}.

Lemma skipn_repeat {A} (x : A) n m : skipn n (repeat x m) = repeat x (m - n).
Proof. revert m. induction n; intros [|m]; cbn [skipn repeat Nat.sub]; auto. Qed.

Lemma copy_prefix_zeros {E} src : len src <= 64 ->
  copy_prefix (E:=E) (repeat 0 64) src = Ok (src ++ repeat 0 (Z.to_nat (64 - len src))).
Proof.
  intros B. unfold copy_prefix. change (len (repeat 0 64)) with 64.
  rewrite (proj2 (Z.leb_le _ _) B), skipn_repeat. do 3 f_equal. unfold len. lia.
Qed.

Lemma compute_ref h data : compute h data = Ok (hmac_ref (hmac_key h) data).
Proof.
  unfold compute, hmac_ref, Sm3Hasher_hash. cbn [bind].
  destruct (Z.ltb_spec 64 (len (hmac_key h))).
  - destruct (sm3_digest (hmac_key h)) as [_ D].
    rewrite copy_prefix_zeros by (unfold len; lia). cbn [bind].
    now rewrite (xor_comm (repeat 0x36 64)), (xor_comm (repeat 0x5C 64)).
  - rewrite copy_prefix_zeros by lia. cbn [bind].
    now rewrite (xor_comm (repeat 0x36 64)), (xor_comm (repeat 0x5C 64)).
Qed.

Lemma hmac_ref_digest k m : wf_bytes (hmac_ref k m) = true /\ len (hmac_ref k m) = 32.
Proof.
  unfold hmac_ref. destruct (sm3_digest (xor_bytes ((if 64 <? len k then sm3 k else k) ++
    repeat 0 (Z.to_nat (64 - len (if 64 <? len k then sm3 k else k)))) (repeat 0x5C 64) ++
    sm3 (xor_bytes ((if 64 <? len k then sm3 k else k) ++
    repeat 0 (Z.to_nat (64 - len (if 64 <? len k then sm3 k else k)))) (repeat 0x36 64) ++ m))) as [W D].
  split; [exact W|]. unfold len at 1. now rewrite D.
Qed.

Lemma verify_iff h data hmac : verify h data hmac = Ok (bytes_eqb (hmac_ref (hmac_key h) data) hmac).
Proof.
  unfold verify. rewrite compute_ref. cbn [bind]. destruct (Z.eqb_spec (len (hmac_ref (hmac_key h) data)) (len hmac)) as [E|E];
    cbn [negb]; [reflexivity|].
  symmetry. f_equal. apply bytes_eqb_neq. intros X. now rewrite X in E.
Qed.
End Lemmas.

(** A hash with 32-byte digests, for concrete instances. *)
Definition toy_sm3 : Sm3Crate := fun m => be_bytes 32 (from_be m).
Lemma toy_sm3_laws : Sm3Laws toy_sm3.
Proof. intros m. split; [apply wf_be_bytes|apply length_be_bytes]. Qed.
