(* ===== verification/Kdf.v ===== *)
(** Counter-mode key derivation over SM3, as the SM2 key exchange
    (gm-crypto/src/sm2_kex.rs), the TLCP pre-master secret (gm-tlcp/src/tlcp/pms.rs)
    and SM9 (gm-sm9-rs/src/encrypt.rs, key_exchange.rs) write it: the loop, its
    termination, and the key stream it computes. *)

From Stdlib Require Import String Bool ZArith Lia List.
From S2P Require Import Prelude Bytes Sm4 Sm3.
Import ListNotations.
Open Scope Z_scope.

Section Kdf.
Context {H : Sm3Crate}.

(** [while k.len() < klen]: a turn hashes the input with the counter, pushes the
    digest or what remains of it, and moves the counter on. [None] is out of
    fuel. *)
Fixpoint kdf_while {E : Type} (push : Z -> bytes -> bytes) (bump : Z -> outcome E Z) (fuel : nat) (z : bytes) (klen ct : Z) (k : bytes)
    : option (outcome E bytes) :=
  match fuel with
  | O => None
  | S fuel =>
      if len k <? klen then
        let k := k ++ push (klen - len k) (sm3 (z ++ be_bytes 4 ct)) in
        match bump ct with
        | Ok ct => kdf_while push bump fuel z klen ct k
        | Err e => Some (Err e)
        | Panic => Some Panic
        end
      else Some (Ok k)
  end.

(** One turn per 32 bytes and a last test; then [k.truncate(klen)]. *)
Definition kdf_run {E : Type} (push : Z -> bytes -> bytes) (bump : Z -> outcome E Z) (z : bytes) (klen : Z) : outcome E bytes :=
  match kdf_while push bump (S (Z.to_nat ((klen + 31) / 32))) z klen 1 [] with
  | Some o => k <- o ;; Ok (firstn (Z.to_nat klen) k)
  | None => Panic
  end.

(** The digests of the counters from [j] on, and the first [n] bytes of those
    from 1 on (GM/T 0003.4, 5.4.3). *)
Definition sm3_blocks (z : bytes) (j m : nat) : bytes :=
  List.concat (map (fun i => sm3 (z ++ be_bytes 4 (Z.of_nat i))) (seq j m)).
Definition kdf_stream (z : bytes) (n : Z) : bytes := firstn (Z.to_nat n) (sm3_blocks z 1 (Z.to_nat ((n + 31) / 32))).

Context {L : Sm3Laws H}.

Lemma len_sm3 m : len (sm3 m) = 32.
Proof. destruct (sm3_digest m) as [_ E]. unfold len. now rewrite E. Qed.

(** The number of turns. *)
Lemma turns n : n <= 32 * ((n + 31) / 32) < n + 32.
Proof. pose proof (Z.div_mod (n + 31) 32 ltac:(lia)). pose proof (Z.mod_pos_bound (n + 31) 32 ltac:(lia)). lia. Qed.

Lemma len_sm3_blocks z j m : len (sm3_blocks z j m) = 32 * Z.of_nat m.
Proof.
  revert j. induction m as [|m IH]; intros j; [reflexivity|]. unfold sm3_blocks in *. cbn [seq map List.concat].
  rewrite len_app, IH, len_sm3. lia.
Qed.

Lemma sm3_blocks_snoc z j m : sm3_blocks z j (S m) = sm3_blocks z j m ++ sm3 (z ++ be_bytes 4 (Z.of_nat (j + m))).
Proof. unfold sm3_blocks. rewrite seq_S, map_app, concat_app. cbn [map List.concat]. now rewrite app_nil_r. Qed.

Lemma len_kdf_stream z n : 0 <= n -> len (kdf_stream z n) = n.
Proof. intros P. unfold kdf_stream. rewrite len_firstn; [reflexivity|]. pose proof (turns n). rewrite len_sm3_blocks, Z2Nat.id by lia. lia. Qed.

(** A digest is pushed whole or cut to what remains. *)
Definition push_ok (push : Z -> bytes -> bytes) : Prop :=
  forall r h, push r h = h \/ push r h = firstn (Z.to_nat (Z.min 32 r)) h.

Lemma kdf_while_ok {E} push (bump : Z -> outcome E Z) z klen : push_ok push ->
  (forall ct, 0 < ct <= (klen + 31) / 32 -> bump ct = Ok (ct + 1)) ->
  forall m j k fuel, (m < fuel)%nat -> Z.of_nat (j + m) = (klen + 31) / 32 -> 
    (k = sm3_blocks z 1 j \/ len k = klen /\ k = firstn (Z.to_nat klen) (sm3_blocks z 1 j) /\ m = O) ->
    exists k', kdf_while push bump fuel z klen (Z.of_nat (S j)) k = Some (Ok k') /\ firstn (Z.to_nat klen) k' = kdf_stream z klen.
Proof.
  intros Pp Pb. pose proof (turns klen) as T. induction m as [|m IH]; intros j k [|fuel] F Ej Ek; try lia; cbn [kdf_while].
  - assert (Lk : klen <= len k) by (destruct Ek as [-> |(Ek & _)]; [rewrite len_sm3_blocks|]; lia).
    rewrite (proj2 (Z.ltb_ge _ _) Lk). exists k. split; [reflexivity|]. unfold kdf_stream. rewrite <- Ej, Nat2Z.id, Nat.add_0_r.
    destruct Ek as [->|(_ & -> & _)]; [reflexivity|]. now rewrite firstn_firstn, Nat.min_id.
  - destruct Ek as [->|(_ & _ & ?)]; [|lia]. rewrite len_sm3_blocks. rewrite (proj2 (Z.ltb_lt _ _)) by lia. rewrite Pb by lia.
    replace (Z.of_nat (S j) + 1) with (Z.of_nat (S (S j))) by lia. apply (IH (S j)); [lia|lia|].
    rewrite sm3_blocks_snoc. cbn [Nat.add]. set (h := sm3 _). assert (Lh : len h = 32) by apply len_sm3. clearbody h.
    destruct (Pp (klen - 32 * Z.of_nat j) h) as [-> | ->]; [now left|].
    destruct (Z.le_gt_cases 32 (klen - 32 * Z.of_nat j)) as [G|G].
    + left. f_equal. apply firstn_all2. unfold len in Lh. lia.
    + right. rewrite Z.min_r by lia. split; [|split; [|lia]].
      * rewrite len_app, len_sm3_blocks, len_firstn by lia. lia.
      * rewrite firstn_app. f_equal; [|f_equal; pose proof (len_sm3_blocks z 1 j) as Lb; unfold len in Lb; lia].
        symmetry. apply firstn_all2. pose proof (len_sm3_blocks z 1 j) as Lb; unfold len in Lb; lia.
Qed.

Lemma kdf_run_ok {E} push (bump : Z -> outcome E Z) z klen : push_ok push -> 0 <= klen ->
  (forall ct, 0 < ct <= (klen + 31) / 32 -> bump ct = Ok (ct + 1)) ->
  kdf_run push bump z klen = Ok (kdf_stream z klen).
Proof.
  intros Pp P0 Pb. pose proof (turns klen). unfold kdf_run.
  destruct (kdf_while_ok push bump z klen Pp Pb (Z.to_nat ((klen + 31) / 32)) 0 [] (S (Z.to_nat ((klen + 31) / 32)))) as (k & E0 & Ek);
    [lia|lia|now left|]. change (Z.of_nat 1) with 1 in E0. rewrite E0. cbn [bind]. now rewrite Ek.
Qed.
End Kdf.
