(* ===== verification/Sm9Key.v ===== *)
(** The keys of SM9 (gm-sm9-rs/src/key/mod.rs, error.rs): scalars drawn from a
    generator, arithmetic modulo the group order, the master keys of a key
    generation centre, the user keys it extracts for identities, and the byte form
    of a composite master key.

    A generator is the list of the 64-byte blocks it fills buffers with; one that
    has run out panics. SM3 is a parameter ([Sm3Crate]). An arithmetic loop that
    would not end counts as a panic. *)

From Stdlib Require Import String Bool ZArith Lia List Znumtheory Zmod.
From S2P Require Import Prelude Bytes Effects Z256 Primality Fp FieldRep Fp2 Curve Jacobian G1 G2 Sm9Hash Sm4 Sm3.
Import ListNotations.
Open Scope Z_scope.

(** ** Errors *)

Inductive Sm9Error : Type :=
| Sm9InvalidParameter (m : string)
| Sm9KeyNotFound (m : string)
| Sm9SignatureVerificationFailed
| Sm9DecryptionFailed
| Sm9KgcError (m : string)
| Sm9CryptoError (m : string)
| Sm9NotImplemented
| Sm9InvalidPoint
| Sm9SigningError (m : string)
| Sm9EncryptionError (m : string)
| Sm9ArithError (e : ArithError).

Definition display_arith (e : ArithError) : string := match e with Fp.InvalidParameter m => ("invalid parameter: " +++ m)%string end.
Definition debug_arith (e : ArithError) : string := match e with Fp.InvalidParameter m => debug_tuple "InvalidParameter" m end.

Definition display_sm9 (e : Sm9Error) : string :=
  (match e with
   | Sm9InvalidParameter m => "invalid parameter: " +++ m
   | Sm9KeyNotFound m => "key not found: " +++ m
   | Sm9SignatureVerificationFailed => "signature verification failed"
   | Sm9DecryptionFailed => "decryption failed"
   | Sm9KgcError m => "KGC error: " +++ m
   | Sm9CryptoError m => "cryptography error: " +++ m
   | Sm9NotImplemented => "not implemented"
   | Sm9InvalidPoint => "invalid point"
   | Sm9SigningError m => "signing error: " +++ m
   | Sm9EncryptionError m => "encryption error: " +++ m
   | Sm9ArithError e => "arithmetic error: " +++ display_arith e
   end)%string.

(** ** Scalars *)

Definition Rng : Type := list bytes.

(** [u64::from_le_bytes] of four words of a buffer, from byte [o] on. *)
Definition from_le (l : bytes) : Z := from_be (rev l).
Definition le_words (buf : bytes) (o : nat) : Z256 :=
  map (fun i => from_le (firstn 8 (skipn (o + 8 * i) buf))) [0; 1; 2; 3]%nat.

Fixpoint random_scalar (rng : Rng) : Rng * outcome Sm9Error Z256 :=
  match rng with
  | [] => ([], Panic)
  | buf512 :: rng =>
      let hi := le_words buf512 0 in
      let lo := le_words buf512 32 in
      match mod_reduce_512 lo hi N with
      | None => (rng, Panic)
      | Some s_reduced => if Z256.is_zero s_reduced then random_scalar rng else (rng, Ok s_reduced)
      end
  end.

Definition R_MOD_N : Z256 := [0x1A911E63296130DB; 0xB60D6CB4E7157411; 0x29FC54B00A7138BB; 0x49BFFFFFFD5C590E].

(** [key::compute_2_256_mod_m]: the cached value for the group order. *)
Definition cached_2_256_mod_m (m : Z256) : Z256 :=
  let n := [0xE56EE19CD69ECF25; 0x49F2934B18EA8BEE; 0xD603AB4FF58EC744; 0xB640000002A3A6F1] in
  if cmp m n =? 0 then R_MOD_N else compute_2_256_mod_m m.

(** One turn of the square-and-multiply-always loop; [None] is a multiplication
    that does not return. *)
Definition pow_mod_step (exp m : Z256) (i : nat) (s : option (Z256 * Z256)) : option (Z256 * Z256) :=
  match s with
  | Some (result, base) =>
      match modmul result base m, modmul base base m with
      | Some product, Some base' => Some (select_choice result product (ct_bit exp (Z.of_nat i)), base')
      | _, _ => None
      end
  | None => None
  end.

Definition pow_mod (base exp m : Z256) : outcome Sm9Error Z256 :=
  if Z256.is_zero m then Panic
  else
    let base :=
      if 0 <=? cmp base m then
        let '(diff, borrow) := sub_with_borrow base m in if borrow =? 0 then diff else base
      else base in
    some_or_panic (option_map fst (for_range 256 (pow_mod_step exp m) (Some (Z256.ONE, base)))).

Definition modinv (a m : Z256) : outcome Sm9Error (option Z256) :=
  if Z256.is_zero a then Ok None
  else
    let '(diff, borrow) := sub_with_borrow m [2; 0; 0; 0] in
    if negb (borrow =? 0) then Ok None else (r <- pow_mod a diff m ;; Ok (Some r)).

(** ** Keys *)

Record SignMasterKey : Type := { sm_s : Z256; sm_ppubs : G2Point }.
Record SignUserKey : Type := { ds : G1Point; su_ppubs : G2Point }.
Record EncMasterKey : Type := { em_s : Z256; em_ppube : G1Point }.
Record EncUserKey : Type := { de : G2Point; eu_ppube : G1Point }.

Definition identity_error : Sm9Error := Sm9CryptoError "Identity point cannot be serialized".
Definition public_only : Sm9Error :=
  Sm9CryptoError "Cannot extract key: master secret s is zero (public-key-only instance)".

Definition sign_master_generate : M Rng Sm9Error SignMasterKey :=
  s <-- random_scalar ;;; ret {| sm_s := s; sm_ppubs := scalar_mul g2_generator s |}.

Definition sign_master_to_bytes (k : SignMasterKey) : outcome Sm9Error bytes :=
  ' (x, y) <- ok_or_else (G2.to_affine (sm_ppubs k)) identity_error ;;
  Ok (Fp2.to_bytes x ++ Fp2.to_bytes y).

(** A coordinate of a key, with the error its parser's failure is reported as. *)
Definition coordinate (what : string) (b : bytes) (i j : Z) : outcome Sm9Error Fp :=
  c <- slice b i j ;;
  map_err (fun e => Sm9CryptoError ("Invalid " +++ what +++ ": " +++ debug_arith e)%string) (Fp.from_bytes c).

(** The argument is an array of 128 bytes. *)
Definition sign_master_from_bytes (b : bytes) : outcome Sm9Error SignMasterKey :=
  x_c0 <- coordinate "X c0" b 0 32 ;;
  x_c1 <- coordinate "X c1" b 32 64 ;;
  y_c0 <- coordinate "Y c0" b 64 96 ;;
  y_c1 <- coordinate "Y c1" b 96 128 ;;
  Ok {| sm_s := Z256.ZERO; sm_ppubs := G2.from_affine (Fp2.new x_c0 x_c1) (Fp2.new y_c0 y_c1) |}.

(** [s / (s + h1)] modulo the group order. *)
Definition extract_scalar (s h1 : Z256) : outcome Sm9Error Z256 :=
  let '(s_plus_h1, carry) := add_with_carry s h1 in
  let s_plus_h1 := if negb (carry =? 0) || (0 <=? cmp s_plus_h1 N) then fst (sub_with_borrow s_plus_h1 N) else s_plus_h1 in
  inv <- modinv s_plus_h1 N ;;
  inv <- ok_or_else inv (Sm9CryptoError "modular inverse failed") ;;
  some_or_panic (modmul s inv N).

Section Extraction.
Context {H : Sm3Crate}.

Definition sign_extract_key (k : SignMasterKey) (id : bytes) : outcome Sm9Error SignUserKey :=
  guard (Z256.is_zero (sm_s k)) public_only (
  h1 <- some_or_panic (hash1 sm3 id 0x01) ;;
  scalar <- extract_scalar (sm_s k) h1 ;;
  Ok {| ds := scalar_mul g1_generator scalar; su_ppubs := sm_ppubs k |}).

Definition extract_key_with_hid (k : EncMasterKey) (id : bytes) (hid : Z) : outcome Sm9Error EncUserKey :=
  guard (Z256.is_zero (em_s k)) public_only (
  h1 <- some_or_panic (hash1 sm3 id hid) ;;
  scalar <- extract_scalar (em_s k) h1 ;;
  Ok {| de := scalar_mul g2_generator scalar; eu_ppube := em_ppube k |}).
Definition enc_extract_key (k : EncMasterKey) (id : bytes) : outcome Sm9Error EncUserKey := extract_key_with_hid k id 0x02.
Definition extract_key_exchange (k : EncMasterKey) (id : bytes) : outcome Sm9Error EncUserKey := extract_key_with_hid k id 0x03.

Definition enc_master_generate : M Rng Sm9Error EncMasterKey :=
  s <-- random_scalar ;;; ret {| em_s := s; em_ppube := scalar_mul g1_generator s |}.

(** ** The composite key *)

Record KgcMasterKey : Type := { sign_master : SignMasterKey; enc_master : EncMasterKey }.

Definition kgc_generate : M Rng Sm9Error KgcMasterKey :=
  sign_master <-- sign_master_generate ;;;
  enc_master <-- enc_master_generate ;;;
  ret {| sign_master := sign_master; enc_master := enc_master |}.

Definition derive_signing_key (k : KgcMasterKey) (id : bytes) : outcome Sm9Error SignUserKey := sign_extract_key (sign_master k) id.
Definition derive_encryption_key (k : KgcMasterKey) (id : bytes) : outcome Sm9Error EncUserKey := enc_extract_key (enc_master k) id.

Definition le_bytes8 (n : Z) : bytes := rev (be_bytes 8 n).

Definition enc_master_to_bytes (k : EncMasterKey) : outcome Sm9Error bytes :=
  ' (x, y) <- ok_or_else (G1.to_affine (em_ppube k)) identity_error ;;
  Ok (to_bytes_be (em_s k) ++ Fp.to_bytes x ++ Fp.to_bytes y).

Definition kgc_to_bytes (k : KgcMasterKey) : outcome Sm9Error bytes :=
  sign_bytes <- sign_master_to_bytes (sign_master k) ;;
  enc_bytes <- enc_master_to_bytes (enc_master k) ;;
  Ok (le_bytes8 (len sign_bytes) ++ sign_bytes ++ le_bytes8 (len enc_bytes) ++ enc_bytes).

(** The encryption part of [from_bytes]. *)
Definition enc_master_from_bytes (enc_data : bytes) : outcome Sm9Error EncMasterKey :=
  guard (len enc_data <? 96) (Sm9InvalidParameter "enc master key data too short") (
  s_bytes <- slice enc_data 0 32 ;;
  s <- ok_or_else (from_bytes_be s_bytes) (Sm9CryptoError "Invalid enc master s") ;;
  guard (Z256.is_zero s) (Sm9CryptoError "enc master s must not be zero") (
  x <- coordinate "ppube x" enc_data 32 64 ;;
  y <- coordinate "ppube y" enc_data 64 96 ;;
  Ok {| em_s := s; em_ppube := G1.from_affine x y |})).

Definition kgc_from_bytes (b : bytes) : outcome Sm9Error KgcMasterKey :=
  guard (len b <? 16) (Sm9InvalidParameter "insufficient bytes for KgcMasterKey") (
  w <- slice b 0 8 ;;
  let sign_len := from_le w in
  enc_offset <- usize_add 8 sign_len ;;
  n <- usize_add enc_offset 8 ;;
  guard (len b <? n) (Sm9InvalidParameter "insufficient bytes for sign master key") (
  sign_bytes <- slice b 8 enc_offset ;;
  guard (negb (len sign_bytes =? 128)) (Sm9InvalidParameter "invalid sign key length") (
  sign_master <- sign_master_from_bytes sign_bytes ;;
  w <- slice b enc_offset (enc_offset + 8) ;;
  let enc_len := from_le w in
  n <- usize_add (enc_offset + 8) enc_len ;;
  guard (len b <? n) (Sm9InvalidParameter "insufficient bytes for enc master key") (
  enc_data <- slice b (enc_offset + 8) n ;;
  enc_master <- enc_master_from_bytes enc_data ;;
  Ok {| sign_master := sign_master; enc_master := enc_master |})))).
End Extraction.

(** ** The group order is prime *)

Definition n_cofactor : Z := 1986114220967214475817859646585100848354345103812102768231.
Definition cofactor_factors : list Z := [2; 3; 7; 11; 29; q1].

Lemma cofactor_prime : Z.prime n_cofactor.
Proof.
  apply (pocklington_third n_cofactor 3 cofactor_factors) with
    (c1 := 6917529027646912907) (c2 := 4611686018431275271) (s := 6917529027646912905); [reflexivity| |reflexivity| |..].
  - repeat constructor; [apply Z.prime_2|apply (trial_prime 3 3)|apply (trial_prime 7 3)|apply (trial_prime 11 4)|apply (trial_prime 29 6)|apply prime_q1];
      reflexivity.
  - vm_cast_no_check (eq_refl true).
  - vm_compute; reflexivity.
  - vm_compute; reflexivity.
  - vm_compute; reflexivity.
  - split; vm_compute; congruence.
  - vm_compute; congruence.
  - split; vm_compute; reflexivity.
Qed.

Lemma N_prime : Z.prime (eval N).
Proof.
  apply (pocklington_half (eval N) 2 [n_cofactor]); [reflexivity| |reflexivity| |vm_compute; reflexivity..].
  - repeat constructor. apply cofactor_prime.
  - vm_cast_no_check (eq_refl true).
Qed.

(** ** Scalars *)

Lemma N_bounds : 2 < eval N < 2 ^ 256.
Proof. split; reflexivity. Qed.

Lemma N_top : 0 < limb N 3.
Proof. reflexivity. Qed.

Lemma from_le_word l : wf_bytes l = true -> List.length l = 8%nat -> 0 <= from_le l < 2 ^ 64.
Proof.
  intros W L. unfold from_le. apply from_be_word; [|now rewrite length_rev].
  unfold wf_bytes in *. rewrite forallb_forall in *. intros x I. apply W. now apply in_rev.
Qed.

Lemma le_words_wf buf o : wf_bytes buf = true -> (o + 32 <= List.length buf)%nat -> wf_limbs 4 (le_words buf o).
Proof.
  intros W L. split; [reflexivity|]. apply Forall_forall. intros x I. unfold le_words in I. apply in_map_iff in I as (i & <- & I).
  assert (i <= 3)%nat by (repeat (destruct I as [<-|I]; [lia|]); destruct I).
  apply from_le_word; [now apply wf_bytes_firstn, wf_bytes_skipn|]. rewrite length_firstn, length_skipn. lia.
Qed.

(** The value a 64-byte draw stands for. *)
Definition draw_value (buf : bytes) : Z := eval (le_words buf 32) + 2 ^ 256 * eval (le_words buf 0).
Definition draw_ok (buf : bytes) : bool := wf_bytes buf && (len buf =? 64).

Lemma reduced buf : draw_ok buf = true -> exists s, mod_reduce_512 (le_words buf 32) (le_words buf 0) N = Some s /\
  wf_limbs 4 s /\ eval s = draw_value buf mod eval N.
Proof.
  intros D. apply andb_true_iff in D as [W L]. apply Z.eqb_eq in L. unfold len in L.
  apply mod_reduce_512_spec; [apply le_words_wf; trivial; lia..|apply wf_N|apply N_top].
Qed.

Lemma random_scalar_cons buf rng : draw_ok buf = true -> exists s, wf_limbs 4 s /\ eval s = draw_value buf mod eval N /\
  random_scalar (buf :: rng) = if draw_value buf mod eval N =? 0 then random_scalar rng else (rng, Ok s).
Proof.
  intros D. destruct (reduced buf D) as (s & E & W & V). exists s. split; [exact W|]. split; [exact V|].
  cbn [random_scalar]. now rewrite E, is_zero_spec, V by exact W.
Qed.

(** The first draw whose value is not a multiple of the order is taken. *)
Lemma random_scalar_first pre buf rng : forallb draw_ok (pre ++ [buf]) = true ->
  Forall (fun b => draw_value b mod eval N = 0) pre -> draw_value buf mod eval N <> 0 ->
  exists r, random_scalar (pre ++ buf :: rng) = (rng, Ok r) /\ wf_limbs 4 r /\ eval r = draw_value buf mod eval N.
Proof.
  intros D Z0 Nz. induction Z0 as [|b pre Zb Z0 IH]; cbn [app forallb] in *; apply andb_true_iff in D as [Db D].
  - destruct (random_scalar_cons buf rng Db) as (s & W & V & E). exists s. rewrite E, (proj2 (Z.eqb_neq _ _) Nz). auto.
  - destruct (random_scalar_cons b (pre ++ buf :: rng) Db) as (s & W & V & E). rewrite E, Zb. now apply IH.
Qed.

Lemma random_scalar_range rng rng' r : forallb draw_ok rng = true -> random_scalar rng = (rng', Ok r) ->
  wf_limbs 4 r /\ 0 < eval r < eval N.
Proof.
  revert rng'. induction rng as [|b rng IH]; intros rng' D E; [discriminate|]. cbn [forallb] in D. apply andb_true_iff in D as [Db D].
  destruct (random_scalar_cons b rng Db) as (s & W & V & Er). rewrite Er in E. clear Er.
  destruct (Z.eqb_spec (draw_value b mod eval N) 0); [now apply (IH rng')|].
  assert (r = s) as -> by congruence. split; [exact W|]. rewrite V.
  pose proof N_bounds. pose proof (Z.mod_pos_bound (draw_value b) (eval N) ltac:(lia)). lia.
Qed.

(** A draw returns or panics. *)
Lemma random_no_err rng rng' e : random_scalar rng <> (rng', Err e).
Proof. induction rng as [|b rng IH]; [discriminate|]. cbn [random_scalar]. destruct (mod_reduce_512 _ _ _) as [s|]; [|discriminate]. now destruct (Z256.is_zero s). Qed.

Lemma cached_2_256_spec m : wf_limbs 4 m -> 1 < eval m ->
  wf_limbs 4 (cached_2_256_mod_m m) /\ eval (cached_2_256_mod_m m) = 2 ^ 256 mod eval m.
Proof.
  intros W B. unfold cached_2_256_mod_m. change ([_; _; _; 0xB640000002A3A6F1]) with N. rewrite cmp_spec by (assumption || apply wf_N).
  destruct (Z.eqb_spec (Z.sgn (eval m - eval N)) 0) as [E|E]; [|now apply compute_2_256_spec].
  apply Z.sgn_null_iff in E. replace (eval m) with (eval N) by lia. split; [wf_const|reflexivity].
Qed.

(** ** Powers and inverses modulo the order *)

Lemma pow_mod_loop exp m b n : wf_limbs 4 exp -> wf_limbs 4 m -> 0 < limb m 3 -> wf_limbs 4 b -> (n <= 256)%nat ->
  0 < eval m -> exists r c, for_range n (pow_mod_step exp m) (Some (Z256.ONE, b)) = Some (r, c) /\ wf_limbs 4 r /\ wf_limbs 4 c /\
    eval r mod eval m = eval b ^ (eval exp mod 2 ^ Z.of_nat n) mod eval m /\ eval c mod eval m = eval b ^ (2 ^ Z.of_nat n) mod eval m /\
    (n <> O -> 0 < eval exp mod 2 ^ Z.of_nat n -> eval r < eval m).
Proof.
  intros We Wm M3 Wb Hn Pm. pose proof (wf256_eval_bound exp We). induction n as [|n IH].
  - exists Z256.ONE, b. split; [reflexivity|]. split; [apply wf_ONE|]. split; [exact Wb|]. rewrite Z.mod_1_r, !Z.pow_1_r. now split.
  - destruct IH as (r & c & E & Wr & Wc & Vr & Vc & Br); [lia|]. rewrite for_range_S, E. cbn [pow_mod_step].
    destruct (modmul_spec r c m Wr Wc Wm M3) as (pr & -> & Wp & Vp). destruct (modmul_spec c c m Wc Wc Wm M3) as (sq & -> & Ws & Vs).
    eexists _, sq. split; [reflexivity|]. rewrite select_choice_spec, ct_bit_spec by (assumption || lia).
    set (k := eval exp mod 2 ^ Z.of_nat n) in *. assert (Hk : 0 <= k) by (apply Z.mod_pos_bound; lia).
    assert (Split : eval exp mod 2 ^ Z.of_nat (S n) = k + 2 ^ Z.of_nat n * Z.b2z (Z.testbit (eval exp) (Z.of_nat n))).
    { rewrite Nat2Z.inj_succ, Z.pow_succ_r, Z.mul_comm by lia. rewrite Z.rem_mul_r by lia. unfold k. f_equal. f_equal.
      rewrite <- Z.shiftr_div_pow2 by lia. rewrite Z.testbit_odd, Zmod_odd. now destruct (Z.odd _). }
    split; [destruct (Z.testbit _ _); assumption|]. split; [exact Ws|]. split; [|split].
    + rewrite Split. destruct (Z.testbit _ _); cbn [Z.b2z]; [|now rewrite Z.mul_0_r, Z.add_0_r].
      rewrite Vp, Z.mod_mod, Z.mul_mod, Vr, Vc, <- Z.mul_mod, <- Z.pow_add_r by lia. f_equal. f_equal. lia.
    + rewrite Vs, Z.mod_mod, Z.mul_mod, Vc, <- Z.mul_mod, <- Z.pow_add_r by lia. f_equal. f_equal. rewrite Nat2Z.inj_succ, Z.pow_succ_r; lia.
    + intros _. rewrite Split. destruct (Z.testbit _ _); cbn [Z.b2z].
      * intros _. rewrite Vp. apply Z.mod_pos_bound. lia.
      * rewrite Z.mul_0_r, Z.add_0_r. intros Pk. destruct n as [|n]; [unfold k in Pk; rewrite Z.mod_1_r in Pk; lia|]. now apply Br.
Qed.

Lemma pow_mod_spec base exp m : wf_limbs 4 base -> wf_limbs 4 exp -> wf_limbs 4 m -> 0 < limb m 3 -> 0 < eval exp ->
  exists r, pow_mod base exp m = Ok r /\ wf_limbs 4 r /\ eval r = eval base ^ eval exp mod eval m.
Proof.
  intros Wb We Wm M3 Pe. unfold pow_mod. pose proof (wf256_eval_bound base Wb). pose proof (wf256_eval_bound exp We).
  assert (Pm : 0 < eval m).
  { pose proof (eval_firstn_S 3 m) as Em. rewrite (firstn_wf 4) in Em by assumption. pose proof (eval_firstn_bound 4 3 m Wm). nia. }
  rewrite is_zero_spec, (proj2 (Z.eqb_neq _ _)) by (assumption || lia). rewrite cmp_ge by assumption.
  set (b := if eval m <=? eval base then _ else base). assert (Hb : wf_limbs 4 b /\ eval b mod eval m = eval base mod eval m).
  { unfold b. destruct (Z.leb_spec (eval m) (eval base)); [|now split]. call_sub d c Wd C E. destruct (Z.eqb_spec c 0) as [->|]; [|now split].
    split; [exact Wd|]. replace (eval d) with (eval base + (-1) * eval m) by lia. apply Z.mod_add. lia. }
  destruct Hb as [Wb' Eb]. clearbody b. destruct (pow_mod_loop exp m b 256 We Wm M3 Wb' ltac:(lia) Pm) as (r & c & -> & Wr & _ & Vr & _ & Br).
  change (Z.of_nat 256) with 256 in *. rewrite (Z.mod_small (eval exp)) in * by lia. exists r. split; [reflexivity|]. split; [exact Wr|].
  pose proof (wf256_eval_bound r Wr). rewrite <- (Z.mod_small (eval r) (eval m)) by (split; [lia|apply Br; [discriminate|lia]]).
  rewrite Vr, <- Z.mod_pow_l, Eb, Z.mod_pow_l by lia. reflexivity.
Qed.

(** Fermat: the inverse modulo the order, of anything that has one. *)
Lemma modinv_spec a : wf_limbs 4 a -> 0 < eval a -> exists r, modinv a N = Ok (Some r) /\ wf_limbs 4 r /\ 0 <= eval r < eval N /\
  (eval a mod eval N <> 0 -> (eval a * eval r) mod eval N = 1) /\ (eval a mod eval N = 0 -> eval r = 0).
Proof.
  intros W Pa. unfold modinv. rewrite is_zero_spec, (proj2 (Z.eqb_neq _ _)) by (assumption || lia).
  change (sub_with_borrow N [2; 0; 0; 0]) with ([limb N 0 - 2; limb N 1; limb N 2; limb N 3], 0). cbn [Z.eqb negb].
  set (e := [_; _; _; _]). assert (We : wf_limbs 4 e) by (apply wf256_iff; vm_compute; reflexivity). assert (Ve : eval e = eval N - 2) by (vm_compute; reflexivity). pose proof N_bounds as BN.
  destruct (pow_mod_spec a e N W We wf_N N_top ltac:(lia)) as (r & -> & Wr & Vr). exists r. split; [reflexivity|].
  split; [exact Wr|]. rewrite Ve in Vr. split; [rewrite Vr; apply Z.mod_pos_bound; lia|]. split; intros Hz.
  - rewrite Vr, Z.mul_mod_idemp_r, <- Z.pow_succ_r by lia. replace (Z.succ (eval N - 2)) with (eval N - 1) by lia.
    apply Z.fermat_nz; [apply N_prime|exact Hz].
  - rewrite Vr, <- Z.mod_pow_l, Hz, Z.pow_0_l by lia. apply Z.mod_0_l. lia.
Qed.

(** ** Extraction *)

Lemma extract_scalar_spec s h1 : wf_limbs 4 s -> wf_limbs 4 h1 -> 0 < eval s < eval N -> 0 <= eval h1 < eval N ->
  if (eval s + eval h1) mod eval N =? 0 then extract_scalar s h1 = Err (Sm9CryptoError "modular inverse failed")
  else exists k, extract_scalar s h1 = Ok k /\ wf_limbs 4 k /\ 0 < eval k < eval N /\ (eval k * (eval s + eval h1)) mod eval N = eval s.
Proof.
  intros Ws Wh Bs Bh. pose proof N_bounds as BN. unfold extract_scalar. call_add t c Wt C E. pose proof (wf256_eval_bound t Wt).
  rewrite cmp_ge by (assumption || apply wf_N). set (t' := if _ || _ then _ else t).
  assert (T : wf_limbs 4 t' /\ eval t' = (eval s + eval h1) mod eval N).
  { unfold t'. destruct (Z.eqb_spec c 0) as [->|Nc]; cbn [negb orb]; [destruct (Z.leb_spec (eval N) (eval t)); cbn [orb]|].
    2: { split; [exact Wt|]. rewrite Z.mod_small; lia. }
    all: pose proof wf_N as WN; call_sub d b Wd Cb E'; cbn [fst]; pose proof (wf256_eval_bound d Wd); split; [exact Wd|];
      apply (Z.mod_unique _ _ 1); [lia|]; assert (b = 0 \/ b = 1) as [-> | ->] by lia; lia. }
  destruct T as [Wt' Et]. clearbody t'. clear t c Wt C E H. set (d := (eval s + eval h1) mod eval N) in *.
  destruct (Z.eqb_spec d 0) as [Z0|Nz].
  - unfold modinv. rewrite is_zero_spec, Et, Z0 by exact Wt'. reflexivity.
  - assert (Bd : 0 <= d < eval N) by (apply Z.mod_pos_bound; lia).
    destruct (modinv_spec t' Wt') as (r & -> & Wr & Br & I & _); [lia|]. rewrite Et in I. rewrite (Z.mod_small d) in I by lia. specialize (I Nz).
    cbn [bind ok_or_else]. destruct (modmul_spec s r N Ws Wr wf_N N_top) as (k & -> & Wk & Vk). exists k. split; [reflexivity|]. split; [exact Wk|].
    assert (V : (eval k * (eval s + eval h1)) mod eval N = eval s).
    { rewrite Z.mul_mod, Vk by lia. fold d. rewrite Z.mod_mod, <- Z.mul_mod_idemp_l, Z.mod_mod, Z.mul_mod_idemp_l by lia.
      replace (eval s * eval r * d) with (eval s * (d * eval r)) by lia. rewrite <- Z.mul_mod_idemp_r, I, Z.mul_1_r by lia. apply Z.mod_small. lia. }
    split; [|exact V]. assert (0 <= eval k < eval N) by (rewrite Vk; apply Z.mod_pos_bound; lia).
    assert (eval k <> 0); [|lia]. intros K. rewrite K, Z.mul_0_l, Z.mod_0_l in V by lia. lia.
Qed.

Section KeyLemmas.
Context {H : Sm3Crate} {L : Sm3Laws H}.

Lemma hash1_ok id hid : exists h, hash1 sm3 id hid = Some h /\ wf_limbs 4 h /\ 0 <= eval h < eval N.
Proof.
  unfold hash1. destruct (modn_digests sm3 ([1] ++ id ++ [hid] ++ [0; 0; 0; 1]) ([1] ++ id ++ [hid] ++ [0; 0; 0; 2]) sm3_digest)
    as (r & E & W & _ & B & _). exists r. rewrite wf256_iff in W. auto.
Qed.

Lemma hash2_ok m w : exists h, hash2 sm3 m w = Some h /\ wf_limbs 4 h /\ 0 <= eval h < eval N.
Proof.
  unfold hash2. destruct (modn_digests sm3 ([2] ++ m ++ w ++ [0; 0; 0; 1]) ([2] ++ m ++ w ++ [0; 0; 0; 2]) sm3_digest)
    as (r & E & W & _ & B & _). exists r. rewrite wf256_iff in W. auto.
Qed.

(** [P] is the multiple of a generator by [k]. *)
Definition g1_multiple (k : Z) (P : G1Point) : Prop :=
  pt_ok ZP_field P = true /\ G1.is_on_curve P = true /\ aff ZP_field P = aff_mul ZP_field k (aff ZP_field g1_generator).
Definition g2_multiple (k : Z) (P : G2Point) : Prop :=
  pt_ok E2_field P = true /\ G2.is_on_curve P = true /\ aff E2_field P = aff_mul E2_field k (aff E2_field g2_generator).

Lemma g1_multiple_ok k : wf_limbs 4 k -> g1_multiple (eval k) (scalar_mul g1_generator k).
Proof.
  intros W. destruct (g1_scalar_mul g1_generator k) as ((O & V) & _ & C & [_ G]); [apply generator_spec|now apply wf256_iff|].
  split; [exact O|]. split; [exact (C G)|exact V].
Qed.

Lemma g2_multiple_ok k : wf_limbs 4 k -> g2_multiple (eval k) (scalar_mul g2_generator k).
Proof.
  intros W. destruct (g2_scalar_mul g2_generator k) as ((O & V) & _ & C & [_ G]); [apply g2_generator_spec|now apply wf256_iff|].
  split; [exact O|]. split; [exact (C G)|exact V].
Qed.

(** A value built from one draw. *)
Lemma drawn_inv {A} (f : Z256 -> A) rng rng' (k : A) : bindM random_scalar (fun s => ret (f s)) rng = (rng', Ok k) ->
  exists s, random_scalar rng = (rng', Ok s) /\ k = f s.
Proof. unfold bindM, ret. destruct (random_scalar rng) as [r1 [s| |]]; [|discriminate..]. intros [= -> <-]. now exists s. Qed.

(** A step that succeeds makes a key of its result. *)
Lemma bind_made {E A B} (c : outcome E A) (f : A -> B) a : c = Ok a -> (x <- c ;; Ok (f x)) = Ok (f a).
Proof. now intros ->. Qed.

(** ** Properties *)

(** C23. Key extraction. The master keys a centre generates from well-formed
    draws have a secret between 1 and the group order, which is prime, and its
    multiple of a generator for a public key. For such a secret [s] and an
    identity hashed to [h], the signing key is [k P1] and the encryption or
    exchange key [k P2] with [k (s + h) = s] modulo the order, a point on its
    curve, and it carries the public key; exactly when [s + h] is a multiple of
    the order extraction fails, and a key without a secret extracts nothing. *)
Theorem user_keys_extracted (sk : SignMasterKey) (ek : EncMasterKey) (id : bytes) (hid : Z) (rng : Rng) :
  0 < eval (sm_s sk) < eval N -> 0 < eval (em_s ek) < eval N -> wf256 (sm_s sk) = true -> wf256 (em_s ek) = true ->
  forallb draw_ok rng = true ->
  Z.prime (eval N) /\
  (forall rng' k, sign_master_generate rng = (rng', Ok k) ->
     0 < eval (sm_s k) < eval N /\ wf256 (sm_s k) = true /\ g2_multiple (eval (sm_s k)) (sm_ppubs k)) /\
  (forall rng' k, enc_master_generate rng = (rng', Ok k) ->
     0 < eval (em_s k) < eval N /\ wf256 (em_s k) = true /\ g1_multiple (eval (em_s k)) (em_ppube k)) /\
  (exists h, hash1 sm3 id 0x01 = Some h /\
     if (eval (sm_s sk) + eval h) mod eval N =? 0 then sign_extract_key sk id = Err (Sm9CryptoError "modular inverse failed")
     else exists k u, sign_extract_key sk id = Ok u /\ 0 < k < eval N /\ (k * (eval (sm_s sk) + eval h)) mod eval N = eval (sm_s sk) /\
       g1_multiple k (ds u) /\ su_ppubs u = sm_ppubs sk) /\
  (exists h, hash1 sm3 id hid = Some h /\
     if (eval (em_s ek) + eval h) mod eval N =? 0 then extract_key_with_hid ek id hid = Err (Sm9CryptoError "modular inverse failed")
     else exists k u, extract_key_with_hid ek id hid = Ok u /\ 0 < k < eval N /\ (k * (eval (em_s ek) + eval h)) mod eval N = eval (em_s ek) /\
       g2_multiple k (de u) /\ eu_ppube u = em_ppube ek) /\
  (forall P Q, sign_extract_key {| sm_s := Z256.ZERO; sm_ppubs := P |} id = Err public_only /\
     extract_key_with_hid {| em_s := Z256.ZERO; em_ppube := Q |} id hid = Err public_only).
Proof.
  rewrite !wf256_iff. intros Bs Be Ws We D. split; [apply N_prime|]. split; [|split; [|split; [|split]]].
  - intros rng' k E. apply drawn_inv in E as (s & R & ->). destruct (random_scalar_range _ _ _ D R) as [W B]. cbn [sm_s sm_ppubs].
    rewrite wf256_iff. split; [exact B|]. split; [exact W|]. apply g2_multiple_ok, W.
  - intros rng' k E. apply drawn_inv in E as (s & R & ->). destruct (random_scalar_range _ _ _ D R) as [W B]. cbn [em_s em_ppube].
    rewrite wf256_iff. split; [exact B|]. split; [exact W|]. apply g1_multiple_ok, W.
  - destruct (hash1_ok id 0x01) as (h & Eh & Wh & Bh). exists h. split; [exact Eh|]. pose proof (extract_scalar_spec _ _ Ws Wh Bs Bh) as X.
    unfold sign_extract_key, guard. rewrite is_zero_spec, (proj2 (Z.eqb_neq (eval (sm_s sk)) 0)), Eh by (assumption || lia). cbn [some_or_panic bind].
    destruct (_ =? 0); [now rewrite X|]. destruct X as (k & X & Wk & Bk & V). exists (eval k). eexists.
    split; [apply bind_made, X|]. cbn [ds su_ppubs]. split; [exact Bk|]. split; [exact V|]. split; [apply g1_multiple_ok, Wk|reflexivity].
  - destruct (hash1_ok id hid) as (h & Eh & Wh & Bh). exists h. split; [exact Eh|]. pose proof (extract_scalar_spec _ _ We Wh Be Bh) as X.
    unfold extract_key_with_hid, guard. rewrite is_zero_spec, (proj2 (Z.eqb_neq (eval (em_s ek)) 0)), Eh by (assumption || lia). cbn [some_or_panic bind].
    destruct (_ =? 0); [now rewrite X|]. destruct X as (k & X & Wk & Bk & V). exists (eval k). eexists.
    split; [apply bind_made, X|]. cbn [de eu_ppube]. split; [exact Bk|]. split; [exact V|]. split; [apply g2_multiple_ok, Wk|reflexivity].
  - intros P Q. split; reflexivity.
Qed.
End KeyLemmas.

(** Secrets for the examples. *)
Definition sample_sign : SignMasterKey := {| sm_s := [5; 0; 0; 0]; sm_ppubs := g2_generator |}.
Definition sample_enc : EncMasterKey := {| em_s := [7; 0; 0; 0]; em_ppube := g1_generator |}.

Lemma user_keys_extracted_witness :
  Z.prime (eval N) /\
  (exists k u, sign_extract_key (H := toy_sm3) sample_sign [65] = Ok u /\ 0 < k < eval N /\ g1_multiple k (ds u)) /\
  (exists rng' k, enc_master_generate [repeat 1 64] = (rng', Ok k) /\ g1_multiple (eval (em_s k)) (em_ppube k)) /\
  sign_extract_key (H := toy_sm3) {| sm_s := Z256.ZERO; sm_ppubs := g2_generator |} [65] = Err public_only.
Proof.
  destruct (user_keys_extracted (H := toy_sm3) (L := toy_sm3_laws) sample_sign sample_enc [65] 2 [repeat 1 64]) as (P & _ & G & (h & Eh & S) & _ & Z);
    [split; reflexivity|split; reflexivity|reflexivity|reflexivity|reflexivity|].
  split; [exact P|]. split; [|split].
  - destruct (_ =? 0) eqn:E0.
    + exfalso. clear S. vm_compute in Eh. injection Eh as <-. vm_compute in E0. discriminate.
    + destruct S as (k & u & E & B & _ & M & _). exists k, u. auto.
  - destruct (random_scalar_first [] (repeat 1 64) []) as (r & E & _); [reflexivity|constructor|vm_compute; congruence|].
    exists [], {| em_s := r; em_ppube := scalar_mul g1_generator r |}.
    assert (X : enc_master_generate [repeat 1 64] = ([], Ok {| em_s := r; em_ppube := scalar_mul g1_generator r |})).
    { unfold enc_master_generate, bindM. change [repeat 1 64] with ([] ++ repeat 1 64 :: []). now rewrite E. }
    split; [exact X|]. apply (G _ _ X).
  - apply (Z g2_generator g1_generator).
Defined.

(** ** The byte form *)

(** A string that parses to a field element. *)
Definition parses (b : bytes) (x : Fp) : Prop := len b = 32 /\ Fp.from_bytes b = Ok x.

Lemma parses_to_bytes x : fp_ok x = true -> parses (Fp.to_bytes x) x.
Proof. intros O. destruct (fp_bytes_roundtrip x [] O eq_refl) as [(L & _ & E) _]. now split. Qed.

Lemma coordinate_ok what b l1 bx x l3 i j : parses bx x -> b = l1 ++ bx ++ l3 -> i = len l1 -> j = i + 32 ->
  coordinate what b i j = Ok x.
Proof. intros [L P] E -> ->. unfold coordinate. rewrite (slice_at _ _ _ _ _ _ E) by lia. cbn [bind]. now rewrite P. Qed.

Lemma sign_master_parse b0 b1 b2 b3 x0 x1 y0 y1 : parses b0 x0 -> parses b1 x1 -> parses b2 y0 -> parses b3 y1 ->
  len ((b0 ++ b1) ++ b2 ++ b3) = 128 /\
  sign_master_from_bytes ((b0 ++ b1) ++ b2 ++ b3) = Ok {| sm_s := Z256.ZERO; sm_ppubs := G2.from_affine (Fp2.new x0 x1) (Fp2.new y0 y1) |}.
Proof.
  intros P0 P1 P2 P3. pose proof (proj1 P0). pose proof (proj1 P1). pose proof (proj1 P2). pose proof (proj1 P3).
  split; [rewrite !len_app; lia|]. unfold sign_master_from_bytes.
  rewrite (coordinate_ok _ _ [] b0 x0 (b1 ++ b2 ++ b3)) by (rewrite <- ?app_assoc; trivial; reflexivity). cbn [bind].
  rewrite (coordinate_ok _ _ b0 b1 x1 (b2 ++ b3)) by (rewrite <- ?app_assoc; trivial; lia). cbn [bind].
  rewrite (coordinate_ok _ _ (b0 ++ b1) b2 y0 b3) by (rewrite ?len_app; trivial; lia). cbn [bind].
  rewrite (coordinate_ok _ _ (b0 ++ b1 ++ b2) b3 y1 []) by (rewrite ?app_nil_r, ?len_app, ?app_assoc; trivial; lia). reflexivity.
Qed.

Lemma enc_master_parse b0 b1 b2 s x y : len b0 = 32 -> from_bytes_be b0 = Some s -> wf_limbs 4 s -> parses b1 x -> parses b2 y ->
  len (b0 ++ b1 ++ b2) = 96 /\ enc_master_from_bytes (b0 ++ b1 ++ b2) =
    if eval s =? 0 then Err (Sm9CryptoError "enc master s must not be zero") else Ok {| em_s := s; em_ppube := G1.from_affine x y |}.
Proof.
  intros L0 R W P1 P2. pose proof (proj1 P1). pose proof (proj1 P2).
  assert (Lb : len (b0 ++ b1 ++ b2) = 96) by (rewrite !len_app; lia). split; [exact Lb|].
  unfold enc_master_from_bytes, guard. rewrite Lb. cbn [Z.ltb Z.compare Pos.compare Pos.compare_cont].
  rewrite (slice_at _ [] b0 (b1 ++ b2)) by (rewrite ?len_nil; trivial; lia). cbn [bind]. rewrite R. cbn [ok_or_else bind]. rewrite is_zero_spec by exact W.
  destruct (eval s =? 0); [reflexivity|].
  rewrite (coordinate_ok _ _ b0 b1 x b2) by (trivial; lia). cbn [bind].
  rewrite (coordinate_ok _ _ (b0 ++ b1) b2 y []) by (rewrite ?app_nil_r, ?len_app, ?app_assoc; trivial; lia). reflexivity.
Qed.

Lemma from_le_bytes8 n : 0 <= n < 2 ^ 64 -> from_le (le_bytes8 n) = n.
Proof. intros B. unfold from_le, le_bytes8. rewrite rev_involutive. now apply from_be_bytes_small. Qed.

Lemma len_le_bytes8 n : len (le_bytes8 n) = 8.
Proof. unfold le_bytes8, len. now rewrite length_rev, length_be_bytes. Qed.

(** Two canonical points that are the same affine point, not the identity. *)
Definition same_g1 (P Q : G1Point) : Prop := pt_ok ZP_field Q = true /\ aff ZP_field Q = aff ZP_field P.
Definition same_g2 (P Q : G2Point) : Prop := pt_ok E2_field Q = true /\ aff E2_field Q = aff E2_field P.

Lemma g1_affine P : pt_ok ZP_field P = true -> aff ZP_field P <> Inf -> exists x y, G1.to_affine P = Some (x, y) /\
  fp_ok x = true /\ fp_ok y = true /\ same_g1 P (G1.from_affine x y).
Proof.
  intros O NI. pose proof (j_to_affine_spec ZP_field P O) as T. unfold G1.to_affine. destruct (j_to_affine P) as [[x y]|]; [|now destruct NI].
  destruct T as (X & Y & T). exists x, y. split; [reflexivity|]. split; [exact X|]. split; [exact Y|].
  destruct (from_affine_spec x y X Y) as [O' V]. split; [exact O'|]. now rewrite T, V.
Qed.

Lemma g2_affine P : pt_ok E2_field P = true -> aff E2_field P <> Inf -> exists x y, G2.to_affine P = Some (x, y) /\
  fp2_canonical x = true /\ fp2_canonical y = true /\ same_g2 P (G2.from_affine x y).
Proof.
  intros O NI. pose proof (j_to_affine_spec E2_field P O) as T. unfold G2.to_affine. destruct (j_to_affine P) as [[x y]|]; [|now destruct NI].
  destruct T as (X & Y & T). rewrite g2_rep, !rep2_pair in T. exists x, y. split; [reflexivity|]. split; [exact X|]. split; [exact Y|].
  destruct (g2_from_affine_spec x y X Y) as [O' V]. split; [exact O'|]. now rewrite T, V.
Qed.

Lemma sign_master_codec k : pt_ok E2_field (sm_ppubs k) = true -> aff E2_field (sm_ppubs k) <> Inf ->
  exists b Q, sign_master_to_bytes k = Ok b /\ len b = 128 /\
    sign_master_from_bytes b = Ok {| sm_s := Z256.ZERO; sm_ppubs := Q |} /\ same_g2 (sm_ppubs k) Q.
Proof.
  intros O NI. destruct (g2_affine _ O NI) as ([x0 x1] & [y0 y1] & T & X & Y & S). unfold sign_master_to_bytes. rewrite T. cbn [ok_or_else bind].
  apply fp2_canonical_iff in X as [X0 X1], Y as [Y0 Y1]. cbn [c0 c1] in *. unfold Fp2.to_bytes. cbn [c0 c1].
  destruct (sign_master_parse _ _ _ _ _ _ _ _ (parses_to_bytes _ X0) (parses_to_bytes _ X1) (parses_to_bytes _ Y0) (parses_to_bytes _ Y1)) as [L E].
  eexists _, _. split; [reflexivity|]. split; [exact L|]. split; [exact E|exact S].
Qed.

Lemma enc_master_codec k : wf_limbs 4 (em_s k) -> pt_ok ZP_field (em_ppube k) = true -> aff ZP_field (em_ppube k) <> Inf ->
  exists b Q, enc_master_to_bytes k = Ok b /\ len b = 96 /\ same_g1 (em_ppube k) Q /\
    enc_master_from_bytes b = if eval (em_s k) =? 0 then Err (Sm9CryptoError "enc master s must not be zero") else Ok {| em_s := em_s k; em_ppube := Q |}.
Proof.
  intros W O NI. destruct (g1_affine _ O NI) as (x & y & T & X & Y & S). unfold enc_master_to_bytes. rewrite T. cbn [ok_or_else bind].
  destruct (to_bytes_be_spec _ W) as (L0 & _ & _ & R).
  destruct (enc_master_parse _ _ _ _ _ _ L0 R W (parses_to_bytes _ X) (parses_to_bytes _ Y)) as [L E].
  eexists _, _. split; [reflexivity|]. split; [exact L|]. split; [exact S|exact E].
Qed.

(** The length-prefixed parts. *)
Lemma kgc_from_bytes_parts a b : len a = 128 -> len b = 96 ->
  kgc_from_bytes (le_bytes8 (len a) ++ a ++ le_bytes8 (len b) ++ b) =
    (sign_master <- sign_master_from_bytes a ;; enc_master <- enc_master_from_bytes b ;;
     Ok {| sign_master := sign_master; enc_master := enc_master |}).
Proof.
  intros La Lb. unfold kgc_from_bytes, guard. pose proof (from_le_bytes8 (len a)) as Fa. pose proof (from_le_bytes8 (len b)) as Fb.
  pose proof (len_le_bytes8 (len a)) as Lla. pose proof (len_le_bytes8 (len b)) as Llb.
  revert Fa Fb Lla Llb. generalize (le_bytes8 (len a)) as la, (le_bytes8 (len b)) as lb. intros la lb Fa Fb Lla Llb.
  rewrite La in Fa. rewrite Lb in Fb.
  assert (L : len (la ++ a ++ lb ++ b) = 240) by (rewrite !len_app; lia). rewrite L. cbn [Z.ltb Z.compare Pos.compare Pos.compare_cont].
  rewrite (slice_at _ [] la (a ++ lb ++ b)) by (rewrite ?len_nil; trivial; lia). cbn [bind]. rewrite Fa by lia.
  rewrite (usize_add_ok 8) by lia. cbn [bind]. rewrite usize_add_ok by lia. cbn [bind].
  cbn [Z.add Z.ltb Z.compare Pos.compare Pos.compare_cont Pos.add Pos.succ].
  rewrite (slice_at _ la a (lb ++ b)) by (trivial; lia). cbn [bind]. rewrite La. cbn [Z.eqb Pos.eqb negb].
  destruct (sign_master_from_bytes a) as [sm| |]; cbn [bind]; trivial.
  rewrite (slice_at _ (la ++ a) lb b) by (rewrite ?len_app, ?app_assoc; trivial; lia). cbn [bind].
  rewrite Fb, usize_add_ok by lia. cbn [bind].
  cbn [Z.add Z.ltb Z.compare Pos.compare Pos.compare_cont Pos.add Pos.succ].
  rewrite (slice_at _ (la ++ a ++ lb) b []) by (rewrite ?app_nil_r, ?len_app, <- ?app_assoc; trivial; lia). reflexivity.
Qed.

Section ByteForm.
Context {H : Sm3Crate}.

Lemma extract_same_secret (k k' : EncMasterKey) id hid u : em_s k' = em_s k -> extract_key_with_hid k id hid = Ok u ->
  extract_key_with_hid k' id hid = Ok {| de := de u; eu_ppube := em_ppube k' |}.
Proof.
  intros E. unfold extract_key_with_hid, guard. rewrite E. destruct (Z256.is_zero _); [discriminate|].
  destruct (some_or_panic _) as [h| |]; [|discriminate..]. cbn [bind]. destruct (extract_scalar _ h) as [c| |]; [|discriminate..]. cbn [bind].
  generalize (scalar_mul g2_generator c). intros P X. apply ok_inj in X. now subst u.
Qed.

Lemma kgc_overflow n rest : 2 ^ 64 - 16 <= n < 2 ^ 64 -> 8 <= len rest -> kgc_from_bytes (le_bytes8 n ++ rest) = Panic.
Proof.
  intros B L. unfold kgc_from_bytes, guard. pose proof (len_le_bytes8 n) as Ll. rewrite len_app, Ll.
  destruct (Z.ltb_spec (8 + len rest) 16); [lia|]. rewrite (slice_at _ [] (le_bytes8 n) rest) by (rewrite ?len_nil; trivial; lia). cbn [bind].
  rewrite from_le_bytes8 by lia. unfold usize_add at 1. destruct (Z.ltb_spec (8 + n) (2 ^ 64)); [|reflexivity]. cbn [bind].
  unfold usize_add. now destruct (Z.ltb_spec (8 + n + 8) (2 ^ 64)); [lia|].
Qed.

(** The byte form of a composite master key. A key whose public points are
    not the identity is written as 240 bytes, and reading them back gives the
    encryption secret and the same two public points; an encryption secret of
    zero is refused. The signing secret is not written: whatever it was, the key
    that is read back extracts no signing key, while its encryption keys are
    those of the original. A declared length within sixteen of 2^64 makes the
    reader overflow. *)
Theorem kgc_bytes_roundtrip (k : KgcMasterKey) (id rest : bytes) (n : Z) :
  wf256 (em_s (enc_master k)) = true ->
  pt_ok E2_field (sm_ppubs (sign_master k)) = true -> aff E2_field (sm_ppubs (sign_master k)) <> Inf ->
  pt_ok ZP_field (em_ppube (enc_master k)) = true -> aff ZP_field (em_ppube (enc_master k)) <> Inf ->
  2 ^ 64 - 16 <= n < 2 ^ 64 -> 8 <= len rest ->
  (exists b, kgc_to_bytes k = Ok b /\ len b = 240 /\
     if eval (em_s (enc_master k)) =? 0 then kgc_from_bytes b = Err (Sm9CryptoError "enc master s must not be zero")
     else exists k', kgc_from_bytes b = Ok k' /\
       same_g2 (sm_ppubs (sign_master k)) (sm_ppubs (sign_master k')) /\ same_g1 (em_ppube (enc_master k)) (em_ppube (enc_master k')) /\
       em_s (enc_master k') = em_s (enc_master k) /\
       derive_signing_key k' id = Err public_only /\
       (forall u, derive_encryption_key k id = Ok u ->
          derive_encryption_key k' id = Ok {| de := de u; eu_ppube := em_ppube (enc_master k') |})) /\
  kgc_from_bytes (le_bytes8 n ++ rest) = Panic.
Proof.
  rewrite wf256_iff. intros W O2 I2 O1 I1 Bn Lr. split.
  - destruct (sign_master_codec _ O2 I2) as (a & Q2 & Ea & La & Pa & S2). destruct (enc_master_codec _ W O1 I1) as (b & Q1 & Eb & Lb & S1 & Pb).
    unfold kgc_to_bytes. rewrite Ea, Eb. cbn [bind]. eexists. split; [reflexivity|]. split; [rewrite !len_app, !len_le_bytes8; lia|].
    rewrite kgc_from_bytes_parts, Pa, Pb by assumption. cbn [bind]. destruct (eval (em_s (enc_master k)) =? 0); [reflexivity|]. cbn [bind].
    eexists. split; [reflexivity|]. cbn [sign_master enc_master sm_ppubs em_ppube em_s]. split; [exact S2|]. split; [exact S1|]. split; [reflexivity|].
    split; [reflexivity|]. intros u. unfold derive_encryption_key, enc_extract_key. cbn [enc_master]. apply extract_same_secret. reflexivity.
  - apply kgc_overflow; assumption.
Qed.
End ByteForm.

Lemma kgc_bytes_roundtrip_witness :
  (exists b k', kgc_to_bytes {| sign_master := sample_sign; enc_master := sample_enc |} = Ok b /\ len b = 240 /\
     kgc_from_bytes b = Ok k' /\ em_s (enc_master k') = [7; 0; 0; 0] /\
     derive_signing_key (H := toy_sm3) k' [65] = Err public_only) /\
  kgc_from_bytes (repeat 255 16) = Panic.
Proof.
  destruct (kgc_bytes_roundtrip (H := toy_sm3) {| sign_master := sample_sign; enc_master := sample_enc |} [65] (repeat 255 8) (2 ^ 64 - 1)) as [(b & E & L & k' & F & _ & _ & S & D & _) P].
  - reflexivity.
  - apply g2_generator_spec.
  - cbn [sign_master sample_sign sm_ppubs]. rewrite (proj2 g2_generator_spec). discriminate.
  - apply generator_spec.
  - cbn [enc_master sample_enc em_ppube]. rewrite (proj2 generator_spec). discriminate.
  - lia.
  - reflexivity.
  - split; [|exact P]. exists b, k'. auto.
Defined.
