(* ===== verification/Sm9Sign.v ===== *)
(** SM9 signatures (gm-sm9-rs/src/sign.rs): the raw and the DER form of a
    signature, signing with retries and the check of a signature before it is
    handed out, and verification. The pairing, the groups, the hashes and the keys
    are those of the files before; SM3 is a parameter. *)

From Stdlib Require Import String Bool ZArith Lia List.
From S2P Require Import Prelude Bytes Effects Der Z256 Fp FieldRep Fp2 Fp12 Curve Jacobian G1 G2 Sm9Hash Pairing Sm4 Sm3 Sm9Key.
Import ListNotations.
Open Scope Z_scope.

Record Signature : Type := { sg_h : Z256; sg_s : G1Point }.

(** ** Byte forms *)

(** [0x04 || x || y], and zeros for the identity. *)
Definition point_octets (P : G1Point) : bytes :=
  match G1.to_affine P with
  | Some (x, y) => [0x04] ++ Fp.to_bytes x ++ Fp.to_bytes y
  | None => [0x00] ++ repeat 0 64
  end.

Definition signature_to_bytes (sig : Signature) : bytes := to_bytes_be (sg_h sig) ++ point_octets (sg_s sig).

Fixpoint skip_zeros (data : bytes) : bytes :=
  match data with b :: t => if b =? 0 then skip_zeros t else data | [] => [] end.

Definition asn1_integer (data : bytes) : outcome Sm9Error bytes :=
  let trimmed := skip_zeros data in
  let data := if len trimmed =? 0 then [0] else trimmed in
  b <- index data 0 ;;
  let needs_sign_bit := negb (Z.land b 0x80 =? 0) in
  let content_len := len data + (if needs_sign_bit then 1 else 0) in
  Ok ([0x02] ++ der_len content_len ++ (if needs_sign_bit then [0x00] else []) ++ data).

Definition signature_to_der (sig : Signature) : outcome Sm9Error bytes :=
  h_int <- asn1_integer (to_bytes_be (sg_h sig)) ;;
  Ok (der_sequence (h_int ++ der_bit_string (point_octets (sg_s sig)))).

Definition h_value (b : bytes) : outcome Sm9Error Z256 := ok_or_else (from_bytes_be b) (Sm9InvalidParameter "Invalid h value").
Definition field_at (b : bytes) (i j : Z) : outcome Sm9Error Fp := c <- slice b i j ;; map_err Sm9ArithError (Fp.from_bytes c).

Definition signature_from_bytes (b : bytes) : outcome Sm9Error Signature :=
  if len b =? 32 + 65 then
    h <- (c <- slice_to b 32 ;; h_value c) ;;
    tag <- index b 32 ;;
    guard (negb (tag =? 0x04)) (Sm9InvalidParameter ("Invalid S point prefix: expected 0x04, got 0x" +++ hex02l tag)%string) (
    x <- field_at b 33 65 ;;
    y <- field_at b 65 97 ;;
    Ok {| sg_h := h; sg_s := G1.from_affine x y |})
  else if len b =? 32 + 64 then
    h <- (c <- slice_to b 32 ;; h_value c) ;;
    x <- field_at b 32 64 ;;
    y <- field_at b 64 96 ;;
    Ok {| sg_h := h; sg_s := G1.from_affine x y |}
  else Err (Sm9InvalidParameter ("Invalid signature bytes length: expected 97 or 96, got " +++ dec (len b))%string).

Definition invalid_der (e : DerError) : Sm9Error := Sm9InvalidParameter (display_der e).

Definition parse_asn1_length (data : bytes) : outcome Sm9Error (Z * bytes) :=
  ' (rest, length) <- map_err invalid_der (parse_der_length data) ;; Ok (length, rest).
Definition parse_asn1_tag_length (data : bytes) : outcome Sm9Error (Z * Z * bytes) :=
  guard (len data <? 2) (Sm9InvalidParameter "ASN.1 data too short") (
  tag <- index data 0 ;;
  tl <- slice_from data 1 ;;
  ' (length, rest) <- parse_asn1_length tl ;;
  Ok (tag, length, rest)).

Definition parse_asn1_sequence (data : bytes) : outcome Sm9Error bytes :=
  ' (_, content) <- map_err invalid_der (parse_der_sequence data) ;; Ok content.
Definition parse_asn1_octet_string (data : bytes) : outcome Sm9Error (bytes * bytes) := map_err invalid_der (parse_der_octet_string data).

Definition parse_asn1_bit_string (data : bytes) : outcome Sm9Error (bytes * bytes) :=
  ' (rest, content_with_unused) <- map_err invalid_der (parse_der_bit_string data) ;;
  guard ((len content_with_unused =? 0) || negb (nth 0 content_with_unused 0 =? 0)) (Sm9InvalidParameter "Unsupported unused bits in BIT STRING") (
  content <- slice_from content_with_unused 1 ;;
  Ok (content, rest)).

Definition parse_asn1_integer (data : bytes) : outcome Sm9Error (bytes * bytes) :=
  ' (rest, content) <- map_err invalid_der (parse_der_integer data) ;;
  content <- (if (1 <? len content) && (nth 0 content 0 =? 0) then slice_from content 1 else Ok content) ;;
  Ok (content, rest).

Definition s_coordinate (what : string) (b : bytes) (i j : Z) : outcome Sm9Error Fp :=
  c <- slice b i j ;; map_err (fun _ => Sm9InvalidParameter ("Invalid S " +++ what +++ " coordinate")%string) (Fp.from_bytes c).

Definition signature_from_der (der : bytes) : outcome Sm9Error Signature :=
  content <- parse_asn1_sequence der ;;
  ' (h_bytes, rest) <-
    (if negb (len content =? 0) && (nth 0 content 0 =? 0x04) then
       ' (rest, val) <- map_err invalid_der (parse_der_octet_string content) ;; Ok (val, rest)
     else parse_asn1_integer content) ;;
  guard (negb (len h_bytes =? 32)) (Sm9InvalidParameter ("Invalid h length: expected 32, got " +++ dec (len h_bytes))%string) (
  h <- h_value h_bytes ;;
  ' (s_bytes, _) <- parse_asn1_bit_string rest ;;
  guard (negb (len s_bytes =? 65) || negb (nth 0 s_bytes 0 =? 0x04))
    (Sm9InvalidParameter ("Invalid S point format: expected 65 bytes with 0x04 prefix, got " +++ dec (len s_bytes) +++
       " bytes with prefix 0x" +++ hex02l (nth 0 s_bytes 0))%string) (
  x <- s_coordinate "x" s_bytes 1 33 ;;
  y <- s_coordinate "y" s_bytes 33 65 ;;
  Ok {| sg_h := h; sg_s := G1.from_affine x y |})).

(** ** Verification and signing *)

Record Verifier : Type := Verifier_new { vf_identity : bytes; vf_ppubs : G2Point }.
Record Signer : Type := with_identity { sn_key : SignUserKey; sn_identity : bytes }.
Definition Signer_new (key : SignUserKey) : Signer := with_identity key [].

Section Scheme.
Context {H : Sm3Crate}.

Definition sm9_verify (v : Verifier) (message : bytes) (sig : Signature) : outcome Sm9Error bool :=
  if is_identity (sg_s sig) then Ok false
  else
    h1 <- some_or_panic (hash1 sm3 (vf_identity v) 0x01) ;;
    let p := G2.add (scalar_mul g2_generator h1) (vf_ppubs v) in
    let g := pairing g1_generator (vf_ppubs v) in
    let u := pairing (sg_s sig) p in
    let t := Fp12.pow g (sg_h sig) in
    let w_prime := Fp12.mul u t in
    h_prime <- some_or_panic (hash2 sm3 message (Fp12.to_bytes_gmssl w_prime)) ;;
    Ok (Z256.ct_eq h_prime (sg_h sig)).

Definition MAX_SIGN_RETRIES : nat := 128.

(** One turn of the loop: a signature, or none and another turn. *)
Definition sign_turn (s : Signer) (g : Fp12) (message : bytes) : M Rng Sm9Error (option Signature) :=
  r <-- random_scalar ;;;
  h <-- lift (some_or_panic (hash2 sm3 message (Fp12.to_bytes_gmssl (Fp12.pow g r)))) ;;;
  let l := sub_mod r h N in
  if Z256.is_zero l then ret None
  else
    let sig := {| sg_h := h; sg_s := scalar_mul (ds (sn_key s)) l |} in
    if negb (len (sn_identity s) =? 0) then
      ok <-- lift (sm9_verify (Verifier_new (sn_identity s) (su_ppubs (sn_key s))) message sig) ;;;
      ret (if ok then Some sig else None)
    else ret (Some sig).

Fixpoint sign_loop (n : nat) (s : Signer) (g : Fp12) (message : bytes) : M Rng Sm9Error Signature :=
  match n with
  | O => fail (Sm9SigningError ("Max retries exceeded " +++ em_dash +++ " this should never happen")%string)
  | S n =>
      r <-- sign_turn s g message ;;;
      match r with Some sig => ret sig | None => sign_loop n s g message end
  end.

Definition sm9_sign (s : Signer) (message : bytes) : M Rng Sm9Error Signature :=
  let g := pairing g1_generator (su_ppubs (sn_key s)) in
  sign_loop MAX_SIGN_RETRIES s g message.
End Scheme.

(** ** Lemmas *)

Lemma field_at_ok b l1 bx x l3 i j : parses bx x -> b = l1 ++ bx ++ l3 -> i = len l1 -> j = i + 32 -> field_at b i j = Ok x.
Proof. intros [L P] E -> ->. unfold field_at. rewrite (slice_at _ _ _ _ _ _ E) by lia. cbn [bind]. now rewrite P. Qed.

Lemma s_coordinate_ok w b l1 bx x l3 i j : parses bx x -> b = l1 ++ bx ++ l3 -> i = len l1 -> j = i + 32 -> s_coordinate w b i j = Ok x.
Proof. intros [L P] E -> ->. unfold s_coordinate. rewrite (slice_at _ _ _ _ _ _ E) by lia. cbn [bind]. now rewrite P. Qed.

(** A 32-byte string that is read as [h]. *)
Definition reads (b : bytes) (h : Z256) : Prop := len b = 32 /\ from_bytes_be b = Some h.

Lemma raw_forms bh bx by_ h x y : reads bh h -> parses bx x -> parses by_ y ->
  signature_from_bytes (bh ++ [0x04] ++ bx ++ by_) = Ok {| sg_h := h; sg_s := G1.from_affine x y |} /\
  signature_from_bytes (bh ++ bx ++ by_) = Ok {| sg_h := h; sg_s := G1.from_affine x y |}.
Proof.
  intros [Lh Rh] Px Py. pose proof (proj1 Px) as Lx. pose proof (proj1 Py) as Ly. unfold signature_from_bytes, h_value. split.
  - replace (len (bh ++ [4] ++ bx ++ by_)) with 97 by (rewrite !len_app; change (len [4]) with 1; lia). cbn [Z.eqb Z.add Pos.eqb Pos.add Pos.succ].
    rewrite slice_to_app by lia. cbn [bind]. rewrite Rh. cbn [ok_or_else bind]. rewrite (index_at _ bh 4 (bx ++ by_)) by (trivial; lia). cbn [bind guard negb Z.eqb Pos.eqb].
    rewrite (field_at_ok _ (bh ++ [4]) bx x by_) by (rewrite ?len_app, <- ?app_assoc; change (len [4]) with 1; trivial; lia). cbn [bind].
    rewrite (field_at_ok _ (bh ++ [4] ++ bx) by_ y []) by (rewrite ?app_nil_r, ?len_app, <- ?app_assoc; change (len [4]) with 1; trivial; lia). reflexivity.
  - replace (len (bh ++ bx ++ by_)) with 96 by (rewrite !len_app; lia). cbn [Z.eqb Z.add Pos.eqb Pos.add Pos.succ].
    rewrite slice_to_app by lia. cbn [bind]. rewrite Rh. cbn [ok_or_else bind].
    rewrite (field_at_ok _ bh bx x by_) by (trivial; lia). cbn [bind].
    rewrite (field_at_ok _ (bh ++ bx) by_ y []) by (rewrite ?app_nil_r, ?len_app, <- ?app_assoc; trivial; lia). reflexivity.
Qed.

Lemma bit_string_read pt rest : len pt = 65 -> parse_asn1_bit_string (der_bit_string pt ++ rest) = Ok (pt, rest).
Proof.
  intros L. unfold parse_asn1_bit_string. destruct (der_tlv_roundtrip pt [] 0 rest) as (_ & _ & _ & _ & E & _); [lia|reflexivity|].
  rewrite E. cbn [map_err bind]. replace (len (0 :: pt) =? 0) with false by (symmetry; apply Z.eqb_neq; rewrite len_cons; lia). cbn [nth negb Z.eqb orb guard].
  change (0 :: pt) with ([0] ++ pt). now rewrite slice_from_app by reflexivity.
Qed.

Lemma skip_zeros_head l b t : skip_zeros l = b :: t -> b <> 0.
Proof. induction l as [|x l IH]; [discriminate|]. cbn [skip_zeros]. destruct (Z.eqb_spec x 0); [exact IH|]. now intros [= <- <-]. Qed.

Lemma skip_zeros_wf l : wf_bytes l = true -> wf_bytes (skip_zeros l) = true /\ len (skip_zeros l) <= len l.
Proof.
  induction l as [|x l IH]; [now split|]. intros W. pose proof W as W'. rewrite wf_bytes_cons in W. apply andb_true_iff in W as [_ W]. cbn [skip_zeros].
  destruct (x =? 0); [|now split]. destruct (IH W). rewrite len_cons. split; [assumption|lia].
Qed.

(** The bytes of an INTEGER that are read back: those after the zeros. *)
Definition significant (b : bytes) : bytes := if len (skip_zeros b) =? 0 then [0] else skip_zeros b.

Lemma integer_read b rest : wf_bytes b = true -> len b = 32 -> exists e, asn1_integer b = Ok (0x02 :: e) /\ len e < 40 /\
  parse_asn1_integer (0x02 :: e ++ rest) = Ok (significant b, rest).
Proof.
  intros W L. unfold asn1_integer. fold (significant b).
  assert (S : exists x t, significant b = x :: t /\ len (x :: t) <= 32 /\ (x = 0 -> t = [])).
  { unfold significant. destruct (skip_zeros_wf b W) as [_ Lt]. destruct (skip_zeros b) as [|x t] eqn:E.
    - exists 0, []. split; [reflexivity|]. now split.
    - exists x, t. rewrite (proj2 (Z.eqb_neq _ _)) by (rewrite len_cons; pose proof (len_nonneg t); lia). split; [reflexivity|].
      split; [lia|]. intros ->. now apply skip_zeros_head in E. }
  destruct S as (x & t & -> & Lt & X0). change (index (x :: t) 0) with (@Ok Sm9Error Z x). cbn [bind].
  set (nb := negb (Z.land x 0x80 =? 0)). set (c := (if nb then [0] else []) ++ x :: t).
  assert (Lc : len c = len (x :: t) + (if nb then 1 else 0)) by (unfold c; rewrite len_app; destruct nb; [change (len [0]) with 1|change (len []) with 0]; lia).
  rewrite <- Lc. eexists. split; [reflexivity|]. assert (B : len c <= 33) by (destruct nb; lia). split.
  { rewrite len_app. unfold der_len. rewrite (proj2 (Z.ltb_lt _ _)) by lia. change (len [as_u8 (len c)]) with 1. lia. }
  unfold parse_asn1_integer, parse_der_integer. change (2 :: (der_len (len c) ++ c) ++ rest) with (([2] ++ der_len (len c) ++ c) ++ rest).
  rewrite parse_tlv_encoded by lia. cbn [map_err bind]. unfold c. destruct nb eqn:Nb; cbn [app nth].
  - rewrite (proj2 (Z.ltb_lt _ _)) by (rewrite !len_cons; pose proof (len_nonneg t); lia). cbn [Z.eqb andb].
    change (0 :: x :: t) with ([0] ++ x :: t). now rewrite slice_from_app by reflexivity.
  - destruct (Z.eqb_spec x 0) as [->|]; [|now rewrite andb_false_r]. rewrite X0 by reflexivity. reflexivity.
Qed.

Lemma significant_len b : wf_bytes b = true -> len b = 32 ->
  if 2 ^ 248 <=? from_be b then significant b = b else 0 < len (significant b) < 32.
Proof.
  intros W L. destruct b as [|x t]; [discriminate|]. rewrite wf_bytes_cons in W. apply andb_true_iff in W as [Wx W].
  rewrite len_cons in L. rewrite from_be_cons. pose proof (from_be_bound t W) as B. assert (L31 : len t = 31) by lia. rewrite L31 in B |- *.
  change (256 ^ 31) with (2 ^ 248) in *. unfold is_byte in Wx. apply andb_true_iff in Wx as [W0 W1]. rewrite Z.leb_le in W0.
  unfold significant. cbn [skip_zeros]. destruct (Z.eqb_spec x 0) as [->|Nx].
  - rewrite (proj2 (Z.leb_gt _ _)) by lia. destruct (skip_zeros_wf t W) as [_ Lt]. destruct (Z.eqb_spec (len (skip_zeros t)) 0); [now cbn|].
    pose proof (len_nonneg (skip_zeros t)). lia.
  - rewrite (proj2 (Z.leb_le _ _)) by nia. now rewrite (proj2 (Z.eqb_neq _ _)) by (rewrite len_cons; lia).
Qed.

(** Dropping leading zeros does not change the value. *)
Lemma significant_reads b h : wf_limbs 4 h -> reads b h -> wf_bytes b = true -> from_be b = eval h -> from_bytes_be (significant b) = Some h.
Proof.
  intros Wh [L R] W E. assert (V : from_be (significant b) = from_be b /\ wf_bytes (significant b) = true /\ len (significant b) <= 32).
  { unfold significant. destruct (skip_zeros_wf b W) as [Ws Ls]. assert (F : from_be (skip_zeros b) = from_be b).
    { clear. induction b as [|x b IH]; [reflexivity|]. cbn [skip_zeros]. destruct (Z.eqb_spec x 0) as [->|]; [|reflexivity]. rewrite IH, from_be_cons. lia. }
    destruct (Z.eqb_spec (len (skip_zeros b)) 0) as [Z0|]; [|split; [exact F|split; [exact Ws|lia]]].
    rewrite <- F. unfold len in Z0. destruct (skip_zeros b); [now repeat split|cbn in Z0; lia]. }
  destruct V as (V & Ws & Ls). destruct (from_bytes_be_spec _ Ws Ls) as (a & -> & Wa & Ea & _). f_equal. apply (eval_inj 4); [assumption..|lia].
Qed.

(** What is read after the first integer. *)
Lemma der_tail h_bytes h bx by_ x y content rest0 : parses bx x -> parses by_ y -> from_bytes_be h_bytes = Some h ->
  rest0 = der_bit_string ([0x04] ++ bx ++ by_) -> len content < 2 ^ 32 ->
  (if negb (len content =? 0) && (nth 0 content 0 =? 0x04) then ' (rest, val) <- map_err invalid_der (parse_der_octet_string content) ;; Ok (val, rest)
   else parse_asn1_integer content) = Ok (h_bytes, rest0) ->
  signature_from_der (der_sequence content) =
    if len h_bytes =? 32 then Ok {| sg_h := h; sg_s := G1.from_affine x y |}
    else Err (Sm9InvalidParameter ("Invalid h length: expected 32, got " +++ dec (len h_bytes))%string).
Proof.
  intros Px Py Rh -> Lc Eh. pose proof (proj1 Px) as Lx. pose proof (proj1 Py) as Ly. unfold signature_from_der, parse_asn1_sequence.
  rewrite <- (app_nil_r (der_sequence content)). unfold der_sequence, parse_der_sequence. rewrite parse_tlv_encoded by exact Lc. cbn [map_err bind].
  rewrite Eh. cbn [bind]. unfold guard at 1. destruct (len h_bytes =? 32); cbn [negb]; [|reflexivity]. unfold h_value. rewrite Rh. cbn [ok_or_else bind].
  assert (Lp : len ([4] ++ bx ++ by_) = 65) by (rewrite !len_app; change (len [4]) with 1; lia).
  rewrite <- (app_nil_r (der_bit_string _)), bit_string_read by exact Lp. cbn [bind]. rewrite Lp. cbn [Z.eqb Pos.eqb negb orb app nth guard].
  change (4 :: bx ++ by_) with ([4] ++ bx ++ by_).
  rewrite (s_coordinate_ok _ _ [4] bx x by_) by (trivial; reflexivity). cbn [bind].
  rewrite (s_coordinate_ok _ _ ([4] ++ bx) by_ y []) by (rewrite ?app_nil_r, ?len_app, <- ?app_assoc; change (len [4]) with 1; trivial; lia). reflexivity.
Qed.

(** The GmSSL form: an OCTET STRING for [h]. *)
Definition gmssl_form (sig : Signature) : bytes :=
  der_sequence (der_octet_string (to_bytes_be (sg_h sig)) ++ der_bit_string (point_octets (sg_s sig))).

Lemma octets_identity P : pt_ok ZP_field P = true -> aff ZP_field P = Inf -> point_octets P = 0 :: repeat 0 64.
Proof.
  intros O I. unfold point_octets, G1.to_affine. pose proof (j_to_affine_spec ZP_field P O) as T. destruct (j_to_affine P) as [[x y]|]; [|reflexivity].
  destruct T as (_ & _ & T). rewrite I in T. discriminate.
Qed.

Lemma octets_affine P : pt_ok ZP_field P = true -> aff ZP_field P <> Inf -> exists bx by_ x y, point_octets P = [0x04] ++ bx ++ by_ /\
  parses bx x /\ parses by_ y /\ same_g1 P (G1.from_affine x y).
Proof.
  intros O NI. destruct (g1_affine P O NI) as (x & y & T & X & Y & S). unfold point_octets. rewrite T.
  exists (Fp.to_bytes x), (Fp.to_bytes y), x, y. split; [reflexivity|]. auto using parses_to_bytes.
Qed.

Lemma raw_identity bh h : reads bh h -> signature_from_bytes (bh ++ 0 :: repeat 0 64) = Err (Sm9InvalidParameter "Invalid S point prefix: expected 0x04, got 0x00").
Proof.
  intros [L R]. unfold signature_from_bytes, h_value. replace (len (bh ++ 0 :: repeat 0 64)) with 97 by (rewrite len_app, L; reflexivity).
  cbn [Z.eqb Z.add Pos.eqb Pos.add Pos.succ]. rewrite slice_to_app by lia. cbn [bind]. rewrite R. cbn [ok_or_else bind].
  now rewrite (index_at _ bh 0 (repeat 0 64)) by (trivial; lia).
Qed.

Lemma len_bit_string pt : len pt = 65 -> len (der_bit_string pt) < 80.
Proof. intros L. unfold der_bit_string. rewrite !len_app, L. now cbn. Qed.

(** ** Properties *)

(** The forms of a signature. The raw form of a signature whose point is not
    the identity, with or without the prefix, reads back as the same [h] and the
    same point, and so does the DER form GmSSL writes. The DER form of the crate
    reads back exactly when [h] fills its 32 bytes: from a smaller [h] the encoder
    drops the leading zeros, as DER asks, and the parser refuses the length. The
    raw form of the identity is refused. *)
Theorem signature_codecs (sig : Signature) :
  wf256 (sg_h sig) = true -> pt_ok ZP_field (sg_s sig) = true ->
  match aff ZP_field (sg_s sig) with
  | Inf => signature_from_bytes (signature_to_bytes sig) = Err (Sm9InvalidParameter "Invalid S point prefix: expected 0x04, got 0x00")
  | Aff _ _ => exists Q, same_g1 (sg_s sig) Q /\
      let back := {| sg_h := sg_h sig; sg_s := Q |} in
      signature_from_bytes (signature_to_bytes sig) = Ok back /\
      signature_from_bytes (to_bytes_be (sg_h sig) ++ skipn 1 (point_octets (sg_s sig))) = Ok back /\
      signature_from_der (gmssl_form sig) = Ok back /\
      exists der n, signature_to_der sig = Ok der /\
        signature_from_der der =
          if 2 ^ 248 <=? eval (sg_h sig) then Ok back
          else Err (Sm9InvalidParameter ("Invalid h length: expected 32, got " +++ dec n)%string)
  end.
Proof.
  rewrite wf256_iff. intros W O. destruct (to_bytes_be_spec _ W) as (L & B & E & R). unfold signature_to_bytes, signature_to_der, gmssl_form.
  set (bh := to_bytes_be (sg_h sig)) in *. assert (Rh : reads bh (sg_h sig)) by (now split). destruct (aff ZP_field (sg_s sig)) eqn:A.
  { rewrite octets_identity by assumption. now apply raw_identity with (h := sg_h sig). }
  assert (NI : aff ZP_field (sg_s sig) <> Inf) by (rewrite A; discriminate).
  destruct (octets_affine _ O NI) as (bx & by_ & x0 & y0 & -> & Px & Py & S). exists (G1.from_affine x0 y0). split; [exact S|]. cbv zeta.
  assert (Lp : len ([4] ++ bx ++ by_) = 65) by (rewrite !len_app; pose proof (proj1 Px); pose proof (proj1 Py); change (len [4]) with 1; lia).
  pose proof (len_bit_string _ Lp) as Lb. destruct (raw_forms _ _ _ _ _ _ Rh Px Py) as [F1 F2]. split; [exact F1|]. split; [exact F2|]. split.
  - rewrite (der_tail bh (sg_h sig) bx by_ x0 y0 _ _ Px Py R eq_refl); [now rewrite L| |].
    + rewrite len_app. unfold der_octet_string. rewrite !len_app, L. change (len (der_len 32)) with 1. change (len [4]) with 1. lia.
    + destruct (der_tlv_roundtrip bh [] 0 (der_bit_string ([4] ++ bx ++ by_))) as (_ & _ & _ & X & _); [lia|reflexivity|]. rewrite X. reflexivity.
  - destruct (integer_read bh (der_bit_string ([4] ++ bx ++ by_)) B L) as (e & -> & Le & Pe). cbn [bind]. eexists _, (len (significant bh)). split; [reflexivity|].
    assert (Rs : from_bytes_be (significant bh) = Some (sg_h sig)) by (apply significant_reads; assumption).
    rewrite (der_tail (significant bh) (sg_h sig) bx by_ x0 y0 _ _ Px Py Rs eq_refl).
    + rewrite <- E. pose proof (significant_len bh B L) as Sl. destruct (_ <=? _); [rewrite Sl, L; reflexivity|]. now rewrite (proj2 (Z.eqb_neq _ 32)) by lia.
    + rewrite len_app, len_cons. lia.
    + change ((2 :: e) ++ ?r) with (2 :: e ++ r). cbn [nth Z.eqb Pos.eqb]. rewrite andb_false_r. exact Pe.
Qed.

Section SignLemmas.
Context {H : Sm3Crate} {L : Sm3Laws H}.

(** What verification compares with [h]. *)
Definition verify_hash (v : Verifier) (message : bytes) (sig : Signature) : option Z256 :=
  match hash1 sm3 (vf_identity v) 0x01 with
  | Some h1 =>
      hash2 sm3 message (Fp12.to_bytes_gmssl
        (Fp12.mul (pairing (sg_s sig) (G2.add (scalar_mul g2_generator h1) (vf_ppubs v))) (Fp12.pow (pairing g1_generator (vf_ppubs v)) (sg_h sig))))
  | None => None
  end.

Lemma verify_total v m sig : exists h, verify_hash v m sig = Some h /\ wf_limbs 4 h /\ 0 <= eval h < eval N /\
  sm9_verify v m sig = Ok (negb (is_identity (sg_s sig)) && z256_eq h (sg_h sig)).
Proof.
  unfold verify_hash, sm9_verify. destruct (hash1_ok (vf_identity v) 1) as (h1 & -> & _). cbn [some_or_panic bind].
  match goal with |- context [hash2 sm3 m ?w] => destruct (hash2_ok m w) as (h & E & W & B) end. exists h. rewrite E.
  split; [reflexivity|]. split; [exact W|]. split; [exact B|]. cbn [some_or_panic bind].
  destruct (is_identity (sg_s sig)); [reflexivity|]. now rewrite ct_eq_spec.
Qed.

(** A signature made of a draw [r], whose hash is [h]. *)
Definition signature_of (s : Signer) (m : bytes) (r : Z256) (sig : Signature) : Prop :=
  hash2 sm3 m (Fp12.to_bytes_gmssl (Fp12.pow (pairing g1_generator (su_ppubs (sn_key s))) r)) = Some (sg_h sig) /\
  exists l, wf_limbs 4 l /\ eval l = (eval r - eval (sg_h sig)) mod eval N /\ 0 < eval l /\ sg_s sig = scalar_mul (ds (sn_key s)) l.

Lemma sign_turn_cases s m rng : forallb draw_ok rng = true ->
  match sign_turn s (pairing g1_generator (su_ppubs (sn_key s))) m rng with
  | (rng', Ok (Some sig)) => (exists r, random_scalar rng = (rng', Ok r) /\ 0 < eval r < eval N /\ signature_of s m r sig) /\
      (sn_identity s <> [] -> sm9_verify (Verifier_new (sn_identity s) (su_ppubs (sn_key s))) m sig = Ok true)
  | (rng', Ok None) => exists r, random_scalar rng = (rng', Ok r)
  | _ => True
  end.
Proof.
  intros D. unfold sign_turn, bindM. destruct (random_scalar rng) as [rng' [r| |]] eqn:R; trivial. destruct (random_scalar_range _ _ _ D R) as [Wr Br].
  set (g := pairing g1_generator (su_ppubs (sn_key s))). destruct (hash2_ok m (Fp12.to_bytes_gmssl (Fp12.pow g r))) as (h & E & W & B).
  rewrite E. cbn [some_or_panic lift]. destruct (sub_mod_spec r h N Wr W wf_N) as [Wl El]; [lia|lia|].
  rewrite is_zero_spec by exact Wl. destruct (Z.eqb_spec (eval (sub_mod r h N)) 0) as [|Nz]; [now exists r|].
  pose proof (wf256_eval_bound _ Wl). assert (Sg : signature_of s m r {| sg_h := h; sg_s := scalar_mul (ds (sn_key s)) (sub_mod r h N) |}).
  { split; [exact E|]. exists (sub_mod r h N). cbn [sg_h sg_s]. split; [exact Wl|]. split; [exact El|]. split; [lia|reflexivity]. }
  revert Sg. generalize (scalar_mul (ds (sn_key s)) (sub_mod r h N)). intros S Sg. destruct (Z.eqb_spec (len (sn_identity s)) 0) as [I|I]; cbn [negb ret].
  - split; [now exists r|]. intros X. destruct (sn_identity s) as [|b t]; [easy|]. rewrite len_cons in I. pose proof (len_nonneg t). lia.
  - destruct (verify_total (Verifier_new (sn_identity s) (su_ppubs (sn_key s))) m {| sg_h := h; sg_s := S |}) as (h' & _ & _ & _ & V).
    rewrite V. cbn [lift]. destruct (negb _ && _); [|now exists r]. split; [now exists r|]. trivial.
Qed.

Lemma draw_tail rng rng' r : forallb draw_ok rng = true -> random_scalar rng = (rng', Ok r) -> forallb draw_ok rng' = true.
Proof.
  revert rng'. induction rng as [|b rng IH]; intros rng' D E; [discriminate|]. cbn [forallb] in D. apply andb_true_iff in D as [Db D].
  destruct (random_scalar_cons b rng Db) as (s & _ & _ & Er). rewrite Er in E. destruct (_ =? 0); [now apply (IH rng')|]. now injection E as <- _.
Qed.

Lemma sign_loop_cases n s m : forall rng rng' sig, forallb draw_ok rng = true ->
  sign_loop n s (pairing g1_generator (su_ppubs (sn_key s))) m rng = (rng', Ok sig) ->
  (exists r, 0 < eval r < eval N /\ signature_of s m r sig) /\
  (sn_identity s <> [] -> sm9_verify (Verifier_new (sn_identity s) (su_ppubs (sn_key s))) m sig = Ok true).
Proof.
  induction n as [|n IH]; intros rng rng' sig D; [discriminate|]. cbn [sign_loop]. unfold bindM at 1.
  pose proof (sign_turn_cases s m rng D) as T. destruct (sign_turn _ _ m rng) as [r1 [[sg|]| |]]; [| |discriminate..].
  - intros [= <- <-]. destruct T as [(r & _ & B & Sg) V]. split; [now exists r|exact V].
  - destruct T as (r & R). apply IH. exact (draw_tail _ _ _ D R).
Qed.

(** The first draw is taken if its signature passes the check. *)
Lemma sign_first s m rng rng' r h : random_scalar rng = (rng', Ok r) ->
  hash2 sm3 m (Fp12.to_bytes_gmssl (Fp12.pow (pairing g1_generator (su_ppubs (sn_key s))) r)) = Some h -> Z256.is_zero (sub_mod r h N) = false ->
  let sig := {| sg_h := h; sg_s := scalar_mul (ds (sn_key s)) (sub_mod r h N) |} in
  (sn_identity s <> [] -> sm9_verify (Verifier_new (sn_identity s) (su_ppubs (sn_key s))) m sig = Ok true) ->
  sm9_sign s m rng = (rng', Ok sig).
Proof.
  intros R E Z sig V. unfold sm9_sign. change MAX_SIGN_RETRIES with (S 127). cbn [sign_loop]. unfold bindM at 1, sign_turn at 1, bindM. rewrite R, E.
  cbn [some_or_panic lift]. rewrite Z. fold sig. revert V. generalize sig. intros sg V. destruct (Z.eqb_spec (len (sn_identity s)) 0) as [I|I]; [reflexivity|].
  cbn [negb]. rewrite V; [reflexivity|]. intros X. rewrite X in I. now destruct I.
Qed.

(** C24. Signatures. A signer only returns a signature of the form the scheme asks
    for: [h] is the hash of the message with [g^r] for some draw [r], and the
    point the multiple of the user key by [r - h] modulo the order, which is not
    zero; a signer that knows its identity returns only what the verifier accepts.
    The verifier always answers, and accepts exactly a point that is not the
    identity whose [h] is the hash it recomputes, so an [h] that is not reduced
    modulo the order is never accepted. *)
Theorem signatures_checked (s : Signer) (v : Verifier) (m : bytes) (sig0 : Signature) (rng : Rng) :
  forallb draw_ok rng = true -> wf256 (sg_h sig0) = true ->
  (forall rng' sig, sm9_sign s m rng = (rng', Ok sig) ->
     (exists r, 0 < eval r < eval N /\ signature_of s m r sig) /\
     (sn_identity s <> [] -> sm9_verify (Verifier_new (sn_identity s) (su_ppubs (sn_key s))) m sig = Ok true)) /\
  (exists b, sm9_verify v m sig0 = Ok b /\
     (b = true <-> is_identity (sg_s sig0) = false /\ verify_hash v m sig0 = Some (sg_h sig0)) /\
     (b = true -> eval (sg_h sig0) < eval N)).
Proof.
  rewrite wf256_iff. intros D Wh. split; [intros rng' sig E; exact (sign_loop_cases _ _ _ _ _ _ D E)|].
  destruct (verify_total v m sig0) as (h & E & W & B & ->). eexists. split; [reflexivity|]. rewrite E, z256_eq_spec by assumption.
  rewrite andb_true_iff, negb_true_iff, Z.eqb_eq. split; [|intros [_ <-]; apply B]. split; intros [I X]; (split; [exact I|]).
  - f_equal. now apply (eval_inj 4).
  - injection X as ->. reflexivity.
Qed.
End SignLemmas.

(** A hash whose digests are all zero, for the example. *)
Definition zero_sm3 : Sm3Crate := fun _ => repeat 0 32.
Lemma zero_sm3_laws : Sm3Laws zero_sm3.
Proof. intros m. now split. Qed.

Lemma zero_hash2 m w : hash2 (@sm3 zero_sm3) m w = Some Z256.ONE.
Proof. vm_compute. reflexivity. Qed.

Definition sample_signer : Signer := with_identity {| ds := g1_generator; su_ppubs := g2_generator |} [65].
Definition two_draw : bytes := repeat 0 32 ++ [2] ++ repeat 0 31.

Lemma times_one : is_identity (scalar_mul g1_generator Z256.ONE) = false.
Proof.
  destruct (g1_multiple_ok Z256.ONE wf_ONE) as (O & _ & A). pose proof (aff_identity ZP_field _ O) as I.
  change (is_identity ?P) with (j_is_identity P). destruct (j_is_identity _); [|reflexivity]. exfalso. apply proj1 in I. specialize (I eq_refl).
  rewrite A in I. change (eval Z256.ONE) with 1 in I. cbn [aff_mul aff_mul_pos] in I. rewrite (proj2 generator_spec) in I. discriminate.
Qed.

Lemma signatures_checked_witness :
  exists rng' sig, sm9_sign (H := zero_sm3) sample_signer [1] [two_draw] = (rng', Ok sig) /\
    sm9_verify (H := zero_sm3) (Verifier_new [65] g2_generator) [1] sig = Ok true.
Proof.
  set (sig := {| sg_h := Z256.ONE; sg_s := scalar_mul g1_generator (sub_mod [2; 0; 0; 0] Z256.ONE N) |}).
  assert (El : sub_mod [2; 0; 0; 0] Z256.ONE N = Z256.ONE) by (vm_compute; reflexivity).
  assert (V : sm9_verify (H := zero_sm3) (Verifier_new [65] g2_generator) [1] sig = Ok true).
  { destruct (verify_total (H := zero_sm3) (L := zero_sm3_laws) (Verifier_new [65] g2_generator) [1] sig) as (h & E & _ & _ & ->).
    unfold verify_hash in E. destruct (hash1 _ _ _) as [h1|]; [|discriminate]. rewrite zero_hash2 in E. injection E as <-.
    unfold sig. cbn [sg_h sg_s]. rewrite El, times_one. reflexivity. }
  assert (S : sm9_sign (H := zero_sm3) sample_signer [1] [two_draw] = ([], Ok sig)).
  { apply sign_first; [vm_compute; reflexivity|apply zero_hash2|rewrite El; reflexivity|intros _; exact V]. }
  exists [], sig. split; [exact S|]. 
  destruct (signatures_checked (H := zero_sm3) (L := zero_sm3_laws) sample_signer (Verifier_new [65] g2_generator) [1] sig [two_draw]) as [T _]; [reflexivity..|].
  destruct (T _ _ S) as [_ U]. apply U. discriminate.
Defined.

Lemma signature_codecs_witness :
  exists der n, signature_to_der {| sg_h := [5; 0; 0; 0]; sg_s := g1_generator |} = Ok der /\
    signature_from_der der = Err (Sm9InvalidParameter ("Invalid h length: expected 32, got " +++ dec n)%string).
Proof.
  pose proof (signature_codecs {| sg_h := [5; 0; 0; 0]; sg_s := g1_generator |} eq_refl (proj1 generator_spec)) as T.
  cbn [sg_s sg_h] in T. rewrite (proj2 generator_spec) in T. destruct T as (Q & _ & _ & _ & _ & der & n & E & F). exists der, n. split; [exact E|exact F].
Defined.
