(* ===== verification/Sm9Encrypt.v ===== *)
(** SM9 encryption (gm-sm9-rs/src/encrypt.rs): the two byte orders of a
    ciphertext, the key encapsulation with its retries, encryption and decryption.
    The pairing, the groups, the hashes and the keys are those of the files before;
    SM3 is a parameter. *)

From Stdlib Require Import String Bool ZArith Lia List.
From S2P Require Import Prelude Bytes Effects Z256 Fp FieldRep Fp12 Curve Jacobian G1 G2 Sm9Hash Pairing Sm4 Sm3 Kdf Sm9Key Sm9Sign.
Import ListNotations.
Open Scope Z_scope.

Record Ciphertext : Type := { ct_c1 : G1Point; ct_c2 : bytes; ct_c3 : bytes }.

(** ** Byte forms *)

Definition to_bytes_c1c2c3 (ct : Ciphertext) : bytes := point_octets (ct_c1 ct) ++ ct_c2 ct ++ ct_c3 ct.
Definition to_bytes_c1c3c2 (ct : Ciphertext) : bytes := point_octets (ct_c1 ct) ++ ct_c3 ct ++ ct_c2 ct.
Definition ciphertext_to_bytes (ct : Ciphertext) : bytes := to_bytes_c1c3c2 ct.

(** The tests and the point both parsers start with. *)
Definition parse_c1 (b : bytes) : outcome Sm9Error G1Point :=
  guard (len b <? 65 + 32) (Sm9InvalidParameter ("Ciphertext too short: " +++ dec (len b) +++ " bytes, need at least 97")%string) (
  tag <- index b 0 ;;
  guard (negb (tag =? 0x04) && negb (tag =? 0x00))
    (Sm9InvalidParameter ("Invalid C1 prefix: expected 0x04 or 0x00, got 0x" +++ hex02l tag)%string) (
  x <- field_at b 1 33 ;;
  y <- field_at b 33 65 ;;
  Ok (G1.from_affine x y))).

Definition from_bytes_c1c3c2 (b : bytes) : outcome Sm9Error Ciphertext :=
  c1 <- parse_c1 b ;;
  c3 <- slice b 65 97 ;;
  c2 <- slice_from b 97 ;;
  Ok {| ct_c1 := c1; ct_c2 := c2; ct_c3 := c3 |}.
Definition ciphertext_from_bytes (b : bytes) : outcome Sm9Error Ciphertext := from_bytes_c1c3c2 b.

Definition from_bytes_c1c2c3 (b : bytes) : outcome Sm9Error Ciphertext :=
  c1 <- parse_c1 b ;;
  let c3_len := 32 in
  n <- usize_sub (len b) 65 ;;
  c2_len <- usize_sub n c3_len ;;
  c2 <- slice b 65 (65 + c2_len) ;;
  c3 <- slice_from b (65 + c2_len) ;;
  Ok {| ct_c1 := c1; ct_c2 := c2; ct_c3 := c3 |}.

(** ** Helpers *)

(** [b ^ key[i % key.len()]]: the remainder by an empty key panics. *)
Definition xor_key (data key : bytes) : outcome Sm9Error bytes :=
  if (len key =? 0) && negb (len data =? 0) then Panic
  else Ok (map (fun p => Z.lxor (snd p) (nth (fst p mod List.length key) key 0)) (combine (seq 0 (List.length data)) data)).

Definition is_all_zeros (b : bytes) : bool := fold_left Z.lor b 0 =? 0.

Definition g1_to_bytes (P : G1Point) : outcome Sm9Error bytes :=
  ' (x, y) <- ok_or_else (G1.to_affine P) Sm9InvalidPoint ;;
  Ok ([0x04] ++ Fp.to_bytes x ++ Fp.to_bytes y).

(** [counter += 1] of a [u32]. *)
Definition next_u32 (ct : Z) : outcome Sm9Error Z := if ct + 1 <? 2 ^ 32 then Ok (ct + 1) else Panic.

(** ** The scheme *)

Record Encryptor : Type := Encryptor_new { en_recipient_id : bytes; en_ppube : G1Point }.
Definition Decryptor_new (key : EncUserKey) : EncUserKey := key.

Section Scheme.
Context {H : Sm3Crate}.

Definition sm9_kdf (c1 w id : bytes) (klen : Z) : outcome Sm9Error bytes :=
  kdf_run (fun _ hash => hash) next_u32 (c1 ++ w ++ id) klen.

Definition MAX_ENCRYPT_RETRIES : nat := 128.

(** One turn of the loop of [kem_encrypt]. *)
Definition kem_turn (e : Encryptor) (q_point : G1Point) (klen : Z) : M Rng Sm9Error (option (bytes * G1Point)) :=
  r <-- random_scalar ;;;
  let c1 := scalar_mul q_point r in
  let g := pairing (en_ppube e) g2_generator in
  let w_bytes := Fp12.to_bytes_gmssl (Fp12.pow g r) in
  c1_bytes <-- lift (g1_to_bytes c1) ;;;
  k <-- lift (sm9_kdf c1_bytes w_bytes (en_recipient_id e) klen) ;;;
  ret (if is_all_zeros k then None else Some (k, c1)).

Fixpoint kem_loop (n : nat) (e : Encryptor) (q_point : G1Point) (klen : Z) : M Rng Sm9Error (bytes * G1Point) :=
  match n with
  | O => fail (Sm9EncryptionError ("Max retries exceeded " +++ em_dash +++ " KDF output all zeros")%string)
  | S n =>
      r <-- kem_turn e q_point klen ;;;
      match r with Some kc => ret kc | None => kem_loop n e q_point klen end
  end.

Definition kem_encrypt (e : Encryptor) (klen : Z) : M Rng Sm9Error (bytes * G1Point) :=
  h1 <-- lift (some_or_panic (hash1 sm3 (en_recipient_id e) 0x02)) ;;;
  let q_point := G1.add (scalar_mul g1_generator h1) (en_ppube e) in
  kem_loop MAX_ENCRYPT_RETRIES e q_point klen.

(** What [encrypt] makes of the encapsulated key. *)
Definition seal (message k : bytes) (c1 : G1Point) : outcome Sm9Error Ciphertext :=
  k1 <- slice_to k (len message) ;;
  c2 <- xor_key message k1 ;;
  k2 <- slice_from k (len message) ;;
  Ok {| ct_c1 := c1; ct_c2 := c2; ct_c3 := sm3 (k2 ++ c2) |}.

Definition sm9_encrypt (e : Encryptor) (message : bytes) : M Rng Sm9Error Ciphertext :=
  klen <-- lift (usize_add (len message) 32) ;;;
  kc <-- kem_encrypt e klen ;;;
  lift (seal message (fst kc) (snd kc)).

Definition kem_decrypt (d : EncUserKey) (c1 : G1Point) (id : bytes) (klen : Z) : outcome Sm9Error bytes :=
  let w_bytes := Fp12.to_bytes_gmssl (pairing c1 (de d)) in
  c1_bytes <- g1_to_bytes c1 ;;
  k <- sm9_kdf c1_bytes w_bytes id klen ;;
  guard (is_all_zeros k) Sm9DecryptionFailed (Ok k).

Definition sm9_decrypt (d : EncUserKey) (ct : Ciphertext) (id : bytes) : outcome Sm9Error bytes :=
  klen <- usize_add (len (ct_c2 ct)) 32 ;;
  k <- kem_decrypt d (ct_c1 ct) id klen ;;
  k2 <- slice_from k (len (ct_c2 ct)) ;;
  let computed_c3 := sm3 (k2 ++ ct_c2 ct) in
  guard (negb (bytes_eqb computed_c3 (ct_c3 ct))) Sm9DecryptionFailed (
  k1 <- slice_to k (len (ct_c2 ct)) ;;
  xor_key (ct_c2 ct) k1).
End Scheme.

(** ** Lemmas *)

Lemma xor_key_from data pre key : (List.length data <= List.length key)%nat ->
  map (fun p => Z.lxor (snd p) (nth (fst p mod List.length (pre ++ key)) (pre ++ key) 0)) (combine (seq (List.length pre) (List.length data)) data) =
  xor_bytes data key.
Proof.
  revert pre key. induction data as [|b data IH]; intros pre [|x key] L; try reflexivity; [cbn in L; lia|].
  cbn [List.length seq combine map fst snd]. unfold xor_bytes. cbn [combine map fst snd]. f_equal.
  - rewrite Nat.mod_small by (rewrite length_app; cbn; lia). now rewrite nth_middle.
  - specialize (IH (pre ++ [x]) key ltac:(cbn in L; lia)). rewrite <- app_assoc in IH.
    replace (List.length (pre ++ [x])) with (S (List.length pre)) in IH by (rewrite length_app; cbn; lia). exact IH.
Qed.

Lemma xor_key_ok data key : len data <= len key -> xor_key data key = Ok (xor_bytes data key).
Proof.
  intros L. unfold xor_key. destruct ((len key =? 0) && negb (len data =? 0)) eqn:E.
  - rewrite andb_true_iff, negb_true_iff, Z.eqb_eq, Z.eqb_neq in E. pose proof (len_nonneg data). lia.
  - f_equal. apply (xor_key_from data [] key). unfold len in L. lia.
Qed.

Section EncryptLemmas.
Context {H : Sm3Crate} {L : Sm3Laws H}.

Lemma sm9_kdf_ok c1 w id klen : 0 <= klen <= 2 ^ 36 -> sm9_kdf c1 w id klen = Ok (kdf_stream (c1 ++ w ++ id) klen).
Proof.
  intros B. apply kdf_run_ok; [intros r h; now left|lia|]. intros ct Bc. unfold next_u32. pose proof (turns klen). now rewrite (proj2 (Z.ltb_lt _ _)) by lia.
Qed.

Lemma g1_bytes_cases P : g1_to_bytes P = match G1.to_affine P with Some _ => Ok (point_octets P) | None => Err Sm9InvalidPoint end.
Proof. unfold g1_to_bytes, point_octets. now destruct (G1.to_affine P) as [[x y]|]. Qed.

(** The key stream of a ciphertext, from its point and the bytes of the pairing
    value. *)
Definition key_stream (c1 : G1Point) (w : Fp12) (id : bytes) (n : Z) : bytes := kdf_stream (point_octets c1 ++ Fp12.to_bytes_gmssl w ++ id) n.

Lemma seal_ok m k c1 : len k = len m + 32 ->
  let c2 := xor_bytes m (firstn (Z.to_nat (len m)) k) in
  seal m k c1 = Ok {| ct_c1 := c1; ct_c2 := c2; ct_c3 := sm3 (skipn (Z.to_nat (len m)) k ++ c2) |} /\ len c2 = len m /\
  xor_bytes c2 (firstn (Z.to_nat (len m)) k) = m.
Proof.
  intros Lk. cbv zeta. pose proof (len_nonneg m). assert (Lf : len (firstn (Z.to_nat (len m)) k) = len m) by (apply len_firstn; lia). split; [|split].
  - unfold seal. rewrite slice_to_ok by lia. cbn [bind]. rewrite xor_key_ok by lia. cbn [bind]. now rewrite slice_from_ok by lia.
  - rewrite len_xor. lia.
  - apply xor_cancel. unfold len in *. lia.
Qed.

Lemma decrypt_exact d ct id : len (ct_c2 ct) < 2 ^ 35 ->
  let n := len (ct_c2 ct) in
  let k := key_stream (ct_c1 ct) (pairing (ct_c1 ct) (de d)) id (n + 32) in
  sm9_decrypt d ct id =
    match G1.to_affine (ct_c1 ct) with
    | None => Err Sm9InvalidPoint
    | Some _ => if is_all_zeros k || negb (bytes_eqb (sm3 (skipn (Z.to_nat n) k ++ ct_c2 ct)) (ct_c3 ct)) then Err Sm9DecryptionFailed
                else Ok (xor_bytes (ct_c2 ct) (firstn (Z.to_nat n) k))
    end.
Proof.
  intros B. cbv zeta. unfold sm9_decrypt, kem_decrypt. pose proof (len_nonneg (ct_c2 ct)). rewrite usize_add_ok by lia. cbn [bind].
  rewrite g1_bytes_cases. destruct (G1.to_affine (ct_c1 ct)); cbn [bind]; [|reflexivity]. rewrite sm9_kdf_ok by lia. cbn [bind].
  fold (key_stream (ct_c1 ct) (pairing (ct_c1 ct) (de d)) id (len (ct_c2 ct) + 32)).
  pose proof (len_kdf_stream (point_octets (ct_c1 ct) ++ Fp12.to_bytes_gmssl (pairing (ct_c1 ct) (de d)) ++ id) (len (ct_c2 ct) + 32) ltac:(lia)) as Lk.
  fold (key_stream (ct_c1 ct) (pairing (ct_c1 ct) (de d)) id (len (ct_c2 ct) + 32)) in Lk. revert Lk. generalize (key_stream (ct_c1 ct) (pairing (ct_c1 ct) (de d)) id (len (ct_c2 ct) + 32)).
  intros k Lk. unfold guard. destruct (is_all_zeros k); [reflexivity|]. cbn [bind orb]. rewrite slice_from_ok by lia. cbn [bind].
  destruct (bytes_eqb _ _); [|reflexivity]. cbn [negb]. rewrite slice_to_ok by lia. cbn [bind]. apply xor_key_ok. rewrite len_firstn; lia.
Qed.

(** What an encapsulation that succeeds returns. *)
Definition encapsulated (e : Encryptor) (q : G1Point) (klen : Z) (r : Z256) (k : bytes) (c1 : G1Point) : Prop :=
  c1 = scalar_mul q r /\ G1.to_affine c1 <> None /\ k = key_stream c1 (Fp12.pow (pairing (en_ppube e) g2_generator) r) (en_recipient_id e) klen /\
  is_all_zeros k = false.

Lemma kem_turn_cases e q klen rng : 0 <= klen <= 2 ^ 36 -> forallb draw_ok rng = true ->
  match kem_turn e q klen rng with
  | (rng', Ok (Some (k, c1))) => exists r, random_scalar rng = (rng', Ok r) /\ 0 < eval r < eval N /\ encapsulated e q klen r k c1
  | (rng', Ok None) => exists r, random_scalar rng = (rng', Ok r)
  | _ => True
  end.
Proof.
  intros B D. unfold kem_turn, bindM. destruct (random_scalar rng) as [rng' [r| |]] eqn:R; trivial. destruct (random_scalar_range _ _ _ D R) as [_ Br].
  remember (scalar_mul q r) as c1 eqn:Ec. rewrite g1_bytes_cases. destruct (G1.to_affine c1) as [xy|] eqn:T; cbn [lift]; trivial.
  rewrite sm9_kdf_ok by exact B. remember (Fp12.pow (pairing (en_ppube e) g2_generator) r) as w eqn:Ew. cbn [ret]. fold (key_stream c1 w (en_recipient_id e) klen).
  destruct (is_all_zeros _) eqn:Z0; exists r; [reflexivity|]. split; [reflexivity|]. split; [exact Br|]. unfold encapsulated. rewrite T, <- Ew.
  split; [exact Ec|]. split; [discriminate|]. split; [reflexivity|exact Z0].
Qed.

Lemma kem_loop_cases n e q klen : 0 <= klen <= 2 ^ 36 -> forall rng rng' k c1, forallb draw_ok rng = true ->
  kem_loop n e q klen rng = (rng', Ok (k, c1)) -> exists r, 0 < eval r < eval N /\ encapsulated e q klen r k c1.
Proof.
  intros B. induction n as [|n IH]; intros rng rng' k c1 D; [discriminate|]. cbn [kem_loop]. unfold bindM at 1.
  pose proof (kem_turn_cases e q klen rng B D) as T. destruct (kem_turn e q klen rng) as [r1 [[[k0 c0]|]| |]]; [| |discriminate..].
  - intros [= <- <- <-]. destruct T as (r & _ & Br & En). now exists r.
  - destruct T as (r & R). apply IH. exact (draw_tail _ _ _ D R).
Qed.

(** The first draw is taken when its key stream is not zero. *)
Lemma encrypt_first e m rng rng' r h1 c1 k : hash1 sm3 (en_recipient_id e) 0x02 = Some h1 -> random_scalar rng = (rng', Ok r) -> len m < 2 ^ 35 ->
  encapsulated e (G1.add (scalar_mul g1_generator h1) (en_ppube e)) (len m + 32) r k c1 -> sm9_encrypt e m rng = (rng', seal m k c1).
Proof.
  intros E1 R Lm (Ec & NI & Ek & Nz). pose proof (len_nonneg m). unfold sm9_encrypt, kem_encrypt, bindM at 1. rewrite usize_add_ok by lia. cbn [lift].
  unfold bindM at 1 2. rewrite E1. cbn [some_or_panic lift]. change MAX_ENCRYPT_RETRIES with (S 127). cbn [kem_loop]. unfold bindM at 1, kem_turn, bindM at 1.
  rewrite R, <- Ec. unfold bindM at 1. rewrite g1_bytes_cases. destruct (G1.to_affine c1); [|easy]. cbn [lift]. unfold bindM at 1. rewrite sm9_kdf_ok by lia.
  fold (key_stream c1 (Fp12.pow (pairing (en_ppube e) g2_generator) r) (en_recipient_id e) (len m + 32)). rewrite <- Ek. cbn [lift ret]. now rewrite Nz.
Qed.

(** ** Properties *)

(** C25. Encryption. What an encryptor returns is the encapsulation of a draw [r]
    in the range of the order, [C1 = r Q] with [Q = h1 P1 + Ppube], the message
    under the first part of the key stream of [C1], [g^r] and the identity, and
    the digest of the rest of the stream with it; it decrypts to the message under
    any user key whose pairing with [C1] gives that stream. Decryption of any
    ciphertext is exact: it is refused when [C1] is the identity, when the stream
    is all zeros or when the tag differs, and nothing else is. *)
Theorem sm9_encryption_correct (e : Encryptor) (d : EncUserKey) (m : bytes) (ct0 : Ciphertext) (id : bytes) (rng : Rng) :
  forallb draw_ok rng = true -> len m < 2 ^ 35 -> len (ct_c2 ct0) < 2 ^ 35 ->
  (forall rng' ct, sm9_encrypt e m rng = (rng', Ok ct) -> exists h1 r k,
     hash1 sm3 (en_recipient_id e) 0x02 = Some h1 /\ 0 < eval r < eval N /\
     encapsulated e (G1.add (scalar_mul g1_generator h1) (en_ppube e)) (len m + 32) r k (ct_c1 ct) /\
     ct_c2 ct = xor_bytes m (firstn (Z.to_nat (len m)) k) /\ ct_c3 ct = sm3 (skipn (Z.to_nat (len m)) k ++ ct_c2 ct) /\
     (key_stream (ct_c1 ct) (pairing (ct_c1 ct) (de d)) (en_recipient_id e) (len m + 32) = k ->
      sm9_decrypt d ct (en_recipient_id e) = Ok m)) /\
  (let n := len (ct_c2 ct0) in
   let k := key_stream (ct_c1 ct0) (pairing (ct_c1 ct0) (de d)) id (n + 32) in
   sm9_decrypt d ct0 id =
     match G1.to_affine (ct_c1 ct0) with
     | None => Err Sm9InvalidPoint
     | Some _ => if is_all_zeros k || negb (bytes_eqb (sm3 (skipn (Z.to_nat n) k ++ ct_c2 ct0)) (ct_c3 ct0)) then Err Sm9DecryptionFailed
                 else Ok (xor_bytes (ct_c2 ct0) (firstn (Z.to_nat n) k))
     end).
Proof.
  intros D Lm Lc. pose proof (len_nonneg m). split; [|now apply decrypt_exact]. intros rng' ct. unfold sm9_encrypt, kem_encrypt, bindM at 1.
  rewrite usize_add_ok by lia. cbn [lift]. unfold bindM. destruct (hash1_ok (en_recipient_id e) 2) as (h1 & E1 & _). rewrite E1. cbn [some_or_panic lift].
  set (q := G1.add _ _). destruct (kem_loop _ e q (len m + 32) rng) as [r1 [[k c1]| |]] eqn:K; [|discriminate..].
  destruct (kem_loop_cases _ e q (len m + 32) ltac:(lia) _ _ _ _ D K) as (r & Br & En). cbn [fst snd]. clear K.
  assert (Lk : len k = len m + 32) by (destruct En as (_ & _ & -> & _); apply len_kdf_stream; lia).
  destruct (seal_ok m k c1 Lk) as (Es & L2 & Dx). unfold lift. rewrite Es. intros X. apply (f_equal snd) in X. cbn [snd] in X. apply ok_inj in X. subst ct. cbn [ct_c1 ct_c2 ct_c3].
  exists h1, r, k. split; [reflexivity|]. split; [exact Br|]. split; [exact En|]. split; [reflexivity|]. split; [reflexivity|]. intros Ek.
  rewrite decrypt_exact by (cbn [ct_c2]; lia). cbn [ct_c1 ct_c2 ct_c3]. cbv zeta. rewrite L2, Ek. destruct En as (_ & NI & _ & Nz).
  destruct (G1.to_affine c1); [|easy]. rewrite Nz, bytes_eqb_refl. cbn [orb negb]. now rewrite Dx.
Qed.
End EncryptLemmas.

Lemma parse_c1_ok tag bx by_ x y rest : parses bx x -> parses by_ y -> tag = 0x04 \/ tag = 0 -> 32 <= len rest ->
  parse_c1 ((tag :: bx ++ by_) ++ rest) = Ok (G1.from_affine x y).
Proof.
  intros Px Py T Lr. pose proof (proj1 Px) as Lx. pose proof (proj1 Py) as Ly. unfold parse_c1, guard.
  replace (tag :: bx ++ by_) with ([tag] ++ bx ++ by_) by reflexivity. rewrite <- !app_assoc.
  rewrite (proj2 (Z.ltb_ge _ _)) by (rewrite !len_app; change (len [tag]) with 1; lia). rewrite (index_at _ [] tag (bx ++ by_ ++ rest)) by reflexivity.
  cbn [bind]. replace (negb (tag =? 4) && negb (tag =? 0)) with false by (destruct T as [-> | ->]; reflexivity).
  rewrite (field_at_ok _ [tag] bx x (by_ ++ rest)) by (trivial; reflexivity). cbn [bind].
  rewrite (field_at_ok _ ([tag] ++ bx) by_ y rest) by (rewrite ?len_app, <- ?app_assoc; change (len [tag]) with 1; trivial; lia). reflexivity.
Qed.

Lemma ciphertext_parsed pt P c2 c3 : len pt = 65 -> len c3 = 32 -> (forall rest, 32 <= len rest -> parse_c1 (pt ++ rest) = Ok P) ->
  from_bytes_c1c3c2 (pt ++ c3 ++ c2) = Ok {| ct_c1 := P; ct_c2 := c2; ct_c3 := c3 |} /\
  from_bytes_c1c2c3 (pt ++ c2 ++ c3) = Ok {| ct_c1 := P; ct_c2 := c2; ct_c3 := c3 |}.
Proof.
  intros Lp L3 E. pose proof (len_nonneg c2). unfold from_bytes_c1c3c2, from_bytes_c1c2c3. rewrite !E by (rewrite len_app; lia). cbn [bind]. split.
  - rewrite slice_app by lia. cbn [bind]. rewrite app_assoc, slice_from_app by (rewrite len_app; lia). reflexivity.
  - rewrite !usize_sub_ok by (rewrite ?len_app; lia). cbn [bind]. rewrite !usize_sub_ok by (rewrite ?len_app; lia). cbn [bind].
    replace (len (pt ++ c2 ++ c3) - 65 - 32) with (len c2) by (rewrite !len_app; lia). rewrite slice_app by lia. cbn [bind].
    rewrite app_assoc, slice_from_app by (rewrite len_app; lia). reflexivity.
Qed.

Lemma zero_parses : parses (repeat 0 32) fe_ZERO.
Proof. split; reflexivity. Qed.

(** The forms of a ciphertext. With a tag of 32 bytes and a point that is not
    the identity, each of the two byte orders reads back as the same point, message
    part and tag; input shorter than 97 bytes is refused. The form of a ciphertext
    at the identity is accepted too, but reads back as the affine point (0, 0),
    which is not on the curve. *)
Theorem ciphertext_codecs (ct : Ciphertext) (short : bytes) :
  pt_ok ZP_field (ct_c1 ct) = true -> len (ct_c3 ct) = 32 -> len short < 97 ->
  exists Q,
    ciphertext_from_bytes (ciphertext_to_bytes ct) = Ok {| ct_c1 := Q; ct_c2 := ct_c2 ct; ct_c3 := ct_c3 ct |} /\
    from_bytes_c1c2c3 (to_bytes_c1c2c3 ct) = Ok {| ct_c1 := Q; ct_c2 := ct_c2 ct; ct_c3 := ct_c3 ct |} /\
    (aff ZP_field (ct_c1 ct) <> Inf -> same_g1 (ct_c1 ct) Q) /\
    (aff ZP_field (ct_c1 ct) = Inf -> is_identity Q = false /\ G1.is_on_curve Q = false) /\
    (exists e, ciphertext_from_bytes short = Err (Sm9InvalidParameter e) /\ from_bytes_c1c2c3 short = Err (Sm9InvalidParameter e)).
Proof.
  intros O L3 Ls. unfold ciphertext_from_bytes, ciphertext_to_bytes, to_bytes_c1c3c2, to_bytes_c1c2c3.
  assert (S : exists e, from_bytes_c1c3c2 short = Err (Sm9InvalidParameter e) /\ from_bytes_c1c2c3 short = Err (Sm9InvalidParameter e)).
  { unfold from_bytes_c1c3c2, from_bytes_c1c2c3, parse_c1, guard. rewrite (proj2 (Z.ltb_lt _ _)) by lia. eexists. now split. }
  destruct (j_is_identity (ct_c1 ct)) eqn:I.
  - apply (aff_identity ZP_field _ O) in I. rewrite octets_identity by assumption. exists (G1.from_affine fe_ZERO fe_ZERO).
    destruct (ciphertext_parsed (0 :: repeat 0 64) (G1.from_affine fe_ZERO fe_ZERO) (ct_c2 ct) (ct_c3 ct) eq_refl L3) as [-> ->].
    { intros rest Lr. apply (parse_c1_ok 0 (repeat 0 32) (repeat 0 32)); auto using zero_parses. }
    split; [reflexivity|]. split; [reflexivity|]. split; [intros X; contradiction|]. split; [|exact S]. intros _. split; vm_compute; reflexivity.
  - assert (NI : aff ZP_field (ct_c1 ct) <> Inf) by (intros X; apply (aff_identity ZP_field _ O) in X; congruence).
    destruct (octets_affine _ O NI) as (bx & by_ & x & y & -> & Px & Py & Sm). exists (G1.from_affine x y).
    destruct (ciphertext_parsed ([4] ++ bx ++ by_) (G1.from_affine x y) (ct_c2 ct) (ct_c3 ct)) as [-> ->]; trivial.
    { rewrite !len_app. pose proof (proj1 Px). pose proof (proj1 Py). change (len [4]) with 1. lia. }
    { intros rest Lr. apply (parse_c1_ok 4 bx by_); auto. }
    split; [reflexivity|]. split; [reflexivity|]. split; [trivial|]. split; [contradiction|exact S].
Qed.

Lemma ciphertext_codecs_witness : exists Q,
  ciphertext_from_bytes (ciphertext_to_bytes {| ct_c1 := identity; ct_c2 := [1; 2]; ct_c3 := repeat 7 32 |}) = Ok {| ct_c1 := Q; ct_c2 := [1; 2]; ct_c3 := repeat 7 32 |} /\
  G1.is_on_curve Q = false.
Proof.
  destruct (ciphertext_codecs {| ct_c1 := identity; ct_c2 := [1; 2]; ct_c3 := repeat 7 32 |} []) as (Q & E & _ & _ & I & _); [apply identity_spec|reflexivity|reflexivity|].
  exists Q. split; [exact E|]. apply I. apply identity_spec.
Defined.

(** A hash for the example: the digests of the identity hash are zeros, the
    others ones. *)
Definition tagged_sm3 : Sm3Crate := fun m => match m with 1 :: _ => repeat 0 32 | _ => repeat 1 32 end.
Lemma tagged_sm3_laws : Sm3Laws tagged_sm3.
Proof. intros [|[|[]|] m]; now split. Qed.

Definition one_draw : bytes := repeat 0 32 ++ [1] ++ repeat 0 31.
Definition sample_encryptor : Encryptor := Encryptor_new [65] identity.
Definition sample_c1 : G1Point := scalar_mul (G1.add (scalar_mul g1_generator Z256.ONE) identity) Z256.ONE.

Lemma octets_of_generator P : pt_ok ZP_field P = true -> aff ZP_field P = aff ZP_field g1_generator ->
  exists xy tl, G1.to_affine P = Some xy /\ point_octets P = 4 :: tl.
Proof.
  intros O A. rewrite (proj2 generator_spec) in A. pose proof (j_to_affine_spec ZP_field _ O) as T. unfold G1.to_affine, point_octets.
  change (G1.to_affine P) with (j_to_affine P). destruct (j_to_affine P) as [[x y]|]; [|rewrite A in T; discriminate]. eexists _, _. split; reflexivity.
Qed.

Lemma times_one_aff (P : G1Point) : pt_ok ZP_field P = true ->
  pt_ok ZP_field (scalar_mul P Z256.ONE) = true /\ aff ZP_field (scalar_mul P Z256.ONE) = aff ZP_field P.
Proof. intros O. destruct (g1_scalar_mul P Z256.ONE O eq_refl) as ((O3 & A3) & _). split; [exact O3|]. rewrite A3. reflexivity. Qed.

Lemma plus_identity (P : G1Point) : pt_ok ZP_field P = true ->
  pt_ok ZP_field (G1.add P identity) = true /\ aff ZP_field (G1.add P identity) = aff ZP_field P.
Proof.
  intros O. assert (I0 : pt_ok ZP_field (identity : G1Point) = true /\ aff ZP_field (identity : G1Point) = Inf) by apply identity_spec.
  destruct I0 as [O0 A0]. destruct (G1.add_spec _ _ O O0) as [O2 A2]. split; [exact O2|]. rewrite A2, A0. now destruct (aff ZP_field P).
Qed.

Lemma sample_c1_affine : exists xy tl, G1.to_affine sample_c1 = Some xy /\ point_octets sample_c1 = 4 :: tl.
Proof.
  destruct (times_one_aff _ (proj1 generator_spec)) as [O1 A1]. destruct (plus_identity _ O1) as [O2 A2]. destruct (times_one_aff _ O2) as [O3 A3].
  unfold sample_c1. apply octets_of_generator; [exact O3|exact (eq_trans A3 (eq_trans A2 A1))].
Qed.

Lemma tagged_stream tl n : (n = 33)%Z -> kdf_stream (H := tagged_sm3) (4 :: tl) n = repeat 1 33.
Proof. intros ->. reflexivity. Qed.

Lemma sample_encrypts : sm9_encrypt (H := tagged_sm3) sample_encryptor [9] [one_draw] = ([], Ok {| ct_c1 := sample_c1; ct_c2 := [8]; ct_c3 := repeat 0 32 |}).
Proof.
  destruct sample_c1_affine as (xy & tl & T & Eo).
  rewrite (encrypt_first (L := tagged_sm3_laws) sample_encryptor [9] [one_draw] [] Z256.ONE Z256.ONE sample_c1 (repeat 1 33)); [reflexivity| | |reflexivity|].
  - vm_compute. reflexivity.
  - vm_compute. reflexivity.
  - split; [unfold sample_c1; reflexivity|]. split; [rewrite T; discriminate|]. split; [|reflexivity]. unfold key_stream. rewrite Eo. cbn [app]. now rewrite tagged_stream.
Qed.

Lemma sm9_encryption_correct_witness :
  exists ct, sm9_encrypt (H := tagged_sm3) sample_encryptor [9] [one_draw] = ([], Ok ct) /\
    sm9_decrypt (H := tagged_sm3) {| de := g2_generator; eu_ppube := identity |} ct [65] = Ok [9].
Proof.
  destruct (sm9_encryption_correct (H := tagged_sm3) (L := tagged_sm3_laws) sample_encryptor {| de := g2_generator; eu_ppube := identity |} [9]
    {| ct_c1 := sample_c1; ct_c2 := [8]; ct_c3 := repeat 0 32 |} [65] [one_draw]) as [E _]; [reflexivity..|].
  eexists. split; [exact sample_encrypts|]. destruct (E _ _ sample_encrypts) as (h1 & r & k & _ & _ & (_ & _ & Ek & _) & _ & _ & D). apply D. rewrite Ek.
  destruct sample_c1_affine as (xy & tl & _ & Eo). unfold key_stream. cbn [ct_c1]. rewrite Eo. cbn [app].
  transitivity (repeat 1 33); [apply tagged_stream; reflexivity|symmetry; apply tagged_stream; reflexivity].
Defined.
