(* ===== verification/Sm9Exchange.v ===== *)
(** The SM9 key exchange (gm-sm9-rs/src/key_exchange.rs): the two rounds of the
    initiator and the one of the responder, key derivation and key confirmation.
    The pairing, the groups, the hashes and the keys are those of the files before;
    SM3 is a parameter. *)

From Stdlib Require Import String Bool ZArith Lia List Zmod Field.
From S2P Require Import Prelude Bytes Effects Z256 Fp FieldRep Fp12 Curve Jacobian G1 G2 Sm9Hash Pairing PairingMirror Sm4 Sm3 Kdf Sm9Key Sm9Sign Sm9Encrypt.
Import ListNotations.
Open Scope Z_scope.

Definition SM9_KEY_EXCHANGE_HID : Z := 0x03.

Record InitiatorState : Type := { is_r_a : Z256; is_q_b : G1Point; is_id_a : bytes; is_id_b : bytes; is_r_a_point : G1Point }.
Record InitiatorRound1 : Type := { r1_r_a : G1Point }.
Record ResponderOutput : Type := { ro_r_b : G1Point; ro_shared_key : bytes; ro_s_b : option bytes }.
Record InitiatorOutput : Type := { io_shared_key : bytes; io_s_a : option bytes }.

Definition compute_q (h1 : Z256) (ppub_e : G1Point) : G1Point := G1.add (scalar_mul g1_generator h1) ppub_e.

Definition gt_to_bytes (g : Fp12) : bytes := Fp12.to_bytes g.
Definition g1_to_kdf_bytes (P : G1Point) : bytes :=
  match G1.to_affine P with
  | Some (x, y) => [0x04] ++ Fp.to_bytes x ++ Fp.to_bytes y
  | None => [0x00] ++ repeat 0 64
  end.

Definition constant_time_eq (a b : bytes) : bool :=
  if negb (len a =? len b) then false
  else fold_left (fun acc p => Z.lor acc (Z.lxor (fst p) (snd p))) (combine a b) 0 =? 0.

Section Exchange.
Context {H : Sm3Crate}.

Definition sm3_multi (chunks : list bytes) : bytes := sm3 (List.concat chunks).

Definition compute_sb (g1 g2 g3 : Fp12) (id_a id_b : bytes) (r_a r_b : G1Point) : bytes :=
  let inner := sm3_multi [gt_to_bytes g2; gt_to_bytes g3; id_a; id_b; g1_to_kdf_bytes r_a; g1_to_kdf_bytes r_b] in
  sm3_multi [[0x82]; gt_to_bytes g1; inner].

Definition compute_sa (g1 g2 g3 : Fp12) (id_a id_b : bytes) (r_a r_b : G1Point) : bytes :=
  let inner := sm3_multi [gt_to_bytes g2; gt_to_bytes g3; id_a; id_b; g1_to_kdf_bytes r_a; g1_to_kdf_bytes r_b] in
  sm3_multi [[0x83]; gt_to_bytes g1; inner].

Definition verify_sa (g1 g2 g3 : Fp12) (id_a id_b : bytes) (r_a r_b : G1Point) (s_a : bytes) : bool :=
  constant_time_eq (compute_sa g1 g2 g3 id_a id_b r_a r_b) s_a.

Definition kdf_key_exchange (id_a id_b : bytes) (r_a r_b : G1Point) (g1 g2 g3 : Fp12) (klen : Z) : outcome Sm9Error bytes :=
  kdf_run (fun _ hash => hash) next_u32
    (id_a ++ id_b ++ g1_to_kdf_bytes r_a ++ g1_to_kdf_bytes r_b ++ gt_to_bytes g1 ++ gt_to_bytes g2 ++ gt_to_bytes g3) klen.

Definition initiator_begin (id_a id_b : bytes) (ppub_e : G1Point) : M Rng Sm9Error (InitiatorState * InitiatorRound1) :=
  h1_b <-- lift (some_or_panic (hash1 sm3 id_b SM9_KEY_EXCHANGE_HID)) ;;;
  let q_b := compute_q h1_b ppub_e in
  r_a <-- random_scalar ;;;
  let r_a_point := scalar_mul q_b r_a in
  ret ({| is_r_a := r_a; is_q_b := q_b; is_id_a := id_a; is_id_b := id_b; is_r_a_point := r_a_point |}, {| r1_r_a := r_a_point |}).

Definition responder_process (id_a id_b : bytes) (ppub_e : G1Point) (de_b : EncUserKey) (r_a : G1Point) (klen : Z) (need_confirm : bool)
    : M Rng Sm9Error ResponderOutput :=
  h1_a <-- lift (some_or_panic (hash1 sm3 id_a SM9_KEY_EXCHANGE_HID)) ;;;
  let q_a := compute_q h1_a ppub_e in
  r_b <-- random_scalar ;;;
  let r_b_point := scalar_mul q_a r_b in
  match G1.to_affine r_a with
  | None => fail Sm9InvalidPoint
  | Some _ =>
      let g1 := pairing r_a (de de_b) in
      let e_pub_p2 := pairing ppub_e g2_generator in
      let g2 := Fp12.pow e_pub_p2 r_b in
      let g3 := Fp12.pow g1 r_b in
      shared_key <-- lift (kdf_key_exchange id_a id_b r_a r_b_point g1 g2 g3 klen) ;;;
      let s_b := if need_confirm then Some (compute_sb g1 g2 g3 id_a id_b r_a r_b_point) else None in
      ret {| ro_r_b := r_b_point; ro_shared_key := shared_key; ro_s_b := s_b |}
  end.

Definition initiator_finish (st : InitiatorState) (r_b : G1Point) (de_a : EncUserKey) (id_a id_b : bytes) (klen : Z) (s_b : option bytes)
    : outcome Sm9Error InitiatorOutput :=
  match G1.to_affine r_b with
  | None => Err Sm9InvalidPoint
  | Some _ =>
      let e_pub_p2 := pairing (eu_ppube de_a) g2_generator in
      let g1 := Fp12.pow e_pub_p2 (is_r_a st) in
      let g2 := pairing r_b (de de_a) in
      let g3 := Fp12.pow g2 (is_r_a st) in
      guard (match s_b with
             | Some sb_val => negb (constant_time_eq (compute_sb g1 g2 g3 id_a id_b (is_r_a_point st) r_b) sb_val)
             | None => false
             end) (Sm9CryptoError "Key confirmation failed: S_B mismatch") (
      shared_key <- kdf_key_exchange id_a id_b (is_r_a_point st) r_b g1 g2 g3 klen ;;
      let s_a := compute_sa g1 g2 g3 id_a id_b (is_r_a_point st) r_b in
      Ok {| io_shared_key := shared_key; io_s_a := Some s_a |})
  end.

Definition key_exchange (id_a : bytes) (de_a : EncUserKey) (id_b : bytes) (de_b : EncUserKey) (ppub_e : G1Point) (klen : Z)
    : M Rng Sm9Error (bytes * bytes) :=
  sr <-- initiator_begin id_a id_b ppub_e ;;;
  resp_output <-- responder_process id_a id_b ppub_e de_b (r1_r_a (snd sr)) klen false ;;;
  init_output <-- lift (initiator_finish (fst sr) (ro_r_b resp_output) de_a id_a id_b klen None) ;;;
  ret (io_shared_key init_output, ro_shared_key resp_output).
End Exchange.

(** ** Lemmas *)

Lemma lor_fold_zero l acc : 0 <= acc -> Forall (fun p => 0 <= fst p /\ 0 <= snd p) l ->
  (fold_left (fun acc p => Z.lor acc (Z.lxor (fst p) (snd p))) l acc = 0 <-> acc = 0 /\ Forall (fun p => fst p = snd p) l).
Proof.
  revert acc. induction l as [|[x y] l IH]; intros acc A F; cbn [fold_left fst snd].
  - split; [now intros ->|now intros [-> _]].
  - apply Forall_cons_iff in F as [[X Y] F]. cbn [fst snd] in X, Y. rewrite IH; [|apply Z.lor_nonneg; split; [lia|apply Z.lxor_nonneg; tauto]|exact F].
    rewrite Z.lor_eq_0_iff, Z.lxor_eq_0_iff, Forall_cons_iff. tauto.
Qed.

Lemma constant_time_eq_spec a b : wf_bytes a = true -> wf_bytes b = true -> constant_time_eq a b = bytes_eqb a b.
Proof.
  intros Wa Wb. unfold constant_time_eq. destruct (Z.eqb_spec (len a) (len b)) as [E|E]; cbn [negb].
  - apply eq_true_iff_eq. rewrite Z.eqb_eq, bytes_eqb_eq, lor_fold_zero; [|lia|].
    + split; [intros [_ F]|intros ->; split; [reflexivity|]].
      * unfold len in E. assert (L : List.length a = List.length b) by lia. clear E Wa Wb. revert b F L. induction a as [|x a IH]; intros [|y b] F L; try discriminate; [reflexivity|].
        cbn [combine] in F. apply Forall_cons_iff in F as [E F]. cbn in E, L. f_equal; [exact E|]. apply IH; [exact F|lia].
      * clear. induction b; cbn [combine]; constructor; trivial.
    + apply Forall_forall. intros [x y] I. pose proof (in_combine_l _ _ _ _ I) as Ia. pose proof (in_combine_r _ _ _ _ I) as Ib.
      unfold wf_bytes in Wa, Wb. rewrite forallb_forall in Wa, Wb. apply Wa, andb_true_iff in Ia as [Ia _]. apply Wb, andb_true_iff in Ib as [Ib _]. cbn. lia.
  - symmetry. apply bytes_eqb_neq. intros ->. contradiction.
Qed.

Section ExchangeLemmas.
Context {H : Sm3Crate} {L : Sm3Laws H}.

(** The three elements of the target group each side computes. *)
Definition responder_values (ppub_e : G1Point) (de_b : EncUserKey) (r_a : G1Point) (r_b : Z256) : Fp12 * Fp12 * Fp12 :=
  (pairing r_a (de de_b), Fp12.pow (pairing ppub_e g2_generator) r_b, Fp12.pow (pairing r_a (de de_b)) r_b).
Definition initiator_values (st : InitiatorState) (r_b : G1Point) (de_a : EncUserKey) : Fp12 * Fp12 * Fp12 :=
  (Fp12.pow (pairing (eu_ppube de_a) g2_generator) (is_r_a st), pairing r_b (de de_a), Fp12.pow (pairing r_b (de de_a)) (is_r_a st)).

Definition exchange_stream (id_a id_b : bytes) (r_a r_b : G1Point) (g : Fp12 * Fp12 * Fp12) (klen : Z) : bytes :=
  kdf_stream (id_a ++ id_b ++ g1_to_kdf_bytes r_a ++ g1_to_kdf_bytes r_b ++ gt_to_bytes (fst (fst g)) ++ gt_to_bytes (snd (fst g)) ++ gt_to_bytes (snd g)) klen.
Definition sb_of (id_a id_b : bytes) (r_a r_b : G1Point) (g : Fp12 * Fp12 * Fp12) : bytes := compute_sb (fst (fst g)) (snd (fst g)) (snd g) id_a id_b r_a r_b.
Definition sa_of (id_a id_b : bytes) (r_a r_b : G1Point) (g : Fp12 * Fp12 * Fp12) : bytes := compute_sa (fst (fst g)) (snd (fst g)) (snd g) id_a id_b r_a r_b.

Lemma exchange_kdf_ok id_a id_b r_a r_b g1 g2 g3 klen : 0 <= klen <= 2 ^ 36 ->
  kdf_key_exchange id_a id_b r_a r_b g1 g2 g3 klen = Ok (exchange_stream id_a id_b r_a r_b (g1, g2, g3) klen).
Proof.
  intros B. apply kdf_run_ok; [intros r h; now left|lia|]. intros ct Bc. unfold next_u32. pose proof (turns klen). now rewrite (proj2 (Z.ltb_lt _ _)) by lia.
Qed.

Lemma wf_sm3 m : wf_bytes (sm3 m) = true.
Proof. apply sm3_digest. Qed.

Lemma begin_cases id_a id_b ppub_e rng rng1 st msg : initiator_begin id_a id_b ppub_e rng = (rng1, Ok (st, msg)) ->
  exists h, hash1 sm3 id_b SM9_KEY_EXCHANGE_HID = Some h /\ random_scalar rng = (rng1, Ok (is_r_a st)) /\
    is_r_a_point st = r1_r_a msg /\ r1_r_a msg = scalar_mul (compute_q h ppub_e) (is_r_a st).
Proof.
  unfold initiator_begin, bindM, lift. destruct (hash1 sm3 id_b SM9_KEY_EXCHANGE_HID) as [h|]; [|discriminate]. cbn [some_or_panic].
  destruct (random_scalar rng) as [r1 [r| |]]; [|discriminate..]. remember (scalar_mul (compute_q h ppub_e) r) as P eqn:EP.
  intros [= -> <- <-]. exists h. cbn [is_r_a is_r_a_point r1_r_a]. auto.
Qed.

(** The responder, on every input. *)
Lemma responder_cases id_a id_b ppub_e de_b r_a klen c rng : 0 <= klen <= 2 ^ 36 -> forallb draw_ok rng = true ->
  exists ha, hash1 sm3 id_a SM9_KEY_EXCHANGE_HID = Some ha /\
  match random_scalar rng with
  | (rng', Ok r_b) =>
      let R_B := scalar_mul (compute_q ha ppub_e) r_b in
      let g := responder_values ppub_e de_b r_a r_b in
      0 < eval r_b < eval N /\
      responder_process id_a id_b ppub_e de_b r_a klen c rng = (rng',
        match G1.to_affine r_a with
        | None => Err Sm9InvalidPoint
        | Some _ => Ok {| ro_r_b := R_B; ro_shared_key := exchange_stream id_a id_b r_a R_B g klen; ro_s_b := if c then Some (sb_of id_a id_b r_a R_B g) else None |}
        end)
  | (rng', o) => responder_process id_a id_b ppub_e de_b r_a klen c rng = (rng', Panic)
  end.
Proof.
  intros B D. destruct (hash1_ok id_a SM9_KEY_EXCHANGE_HID) as (ha & E & _). exists ha. split; [exact E|].
  pose proof (random_no_err rng) as NE. destruct (random_scalar rng) as [rng' [r_b|e|]] eqn:R; [|now destruct (NE rng' e)|].
  - destruct (random_scalar_range _ _ _ D R) as [_ Br]. cbv zeta. split; [exact Br|]. unfold responder_process, bindM, lift. rewrite E. cbn [some_or_panic].
    rewrite R. destruct (G1.to_affine r_a); [|reflexivity]. rewrite exchange_kdf_ok by exact B. unfold ret, sb_of, responder_values. cbn [fst snd]. reflexivity.
  - unfold responder_process, bindM, lift. rewrite E. cbn [some_or_panic]. now rewrite R.
Qed.

(** The end of the initiator, on every input. *)
Lemma finish_cases st r_b de_a id_a id_b klen s_b : 0 <= klen <= 2 ^ 36 ->
  (match s_b with Some s => wf_bytes s = true | None => True end) ->
  let g := initiator_values st r_b de_a in
  initiator_finish st r_b de_a id_a id_b klen s_b =
    match G1.to_affine r_b with
    | None => Err Sm9InvalidPoint
    | Some _ =>
        if match s_b with Some s => bytes_eqb (sb_of id_a id_b (is_r_a_point st) r_b g) s | None => true end
        then Ok {| io_shared_key := exchange_stream id_a id_b (is_r_a_point st) r_b g klen; io_s_a := Some (sa_of id_a id_b (is_r_a_point st) r_b g) |}
        else Err (Sm9CryptoError "Key confirmation failed: S_B mismatch")
    end.
Proof.
  intros B Ws. cbv zeta. unfold initiator_finish. destruct (G1.to_affine r_b); [|reflexivity]. rewrite exchange_kdf_ok by exact B. cbn [bind].
  unfold guard, sa_of, sb_of, initiator_values. cbn [fst snd]. destruct s_b as [s|]; [|reflexivity]. rewrite constant_time_eq_spec by (exact Ws || apply wf_sm3).
  destruct (bytes_eqb _ s); reflexivity.
Qed.

(** The three elements agree as soon as the two pairings of the exchange are the
    powers of [e(Ppub, P2)] that bilinearity makes them. *)
Lemma values_agree ppub_e de_a de_b st r_a_point r_b r_b_point :
  pt_ok ZP_field ppub_e = true -> wf_limbs 4 (is_r_a st) -> wf_limbs 4 r_b -> eu_ppube de_a = ppub_e ->
  pairing r_b_point (de de_a) = Fp12.pow (pairing ppub_e g2_generator) r_b ->
  pairing r_a_point (de de_b) = Fp12.pow (pairing ppub_e g2_generator) (is_r_a st) ->
  initiator_values st r_b_point de_a = responder_values ppub_e de_b r_a_point r_b.
Proof.
  intros O Wa Wb Ep Eb Ea. unfold initiator_values, responder_values. rewrite Ep, Eb, Ea.
  now rewrite (fp12_pow_comm _ _ _ (pairing_canonical ppub_e g2_generator O (proj1 g2_generator_spec)) Wa Wb).
Qed.

(** ** Properties *)

(** C26. The key exchange, against a run of the responder on an initiator's first
    message. The points sent are the multiples of [Q_B] and [Q_A] by draws in the
    range of the order, and the responder's key has the length asked for. The
    initiator refuses the identity. When the two pairings are the powers of
    [e(Ppub, P2)] that bilinearity makes them, the two sides compute the same three
    elements of the target group: the initiator accepts the responder's
    confirmation and derives the same key, and the responder accepts the
    initiator's. The initiator accepts no confirmation but the one it computes.
    Bilinearity is not proved of [pairing]; the two instances of it that agreement
    needs are the hypotheses. *)
Theorem exchange_agreement (id_a id_b : bytes) (ppub_e : G1Point) (de_a de_b : EncUserKey) (klen : Z) (rng rng1 rng2 : Rng)
    (st : InitiatorState) (msg : InitiatorRound1) (out : ResponderOutput) :
  0 <= klen <= 2 ^ 36 -> forallb draw_ok rng = true ->
  initiator_begin id_a id_b ppub_e rng = (rng1, Ok (st, msg)) ->
  responder_process id_a id_b ppub_e de_b (r1_r_a msg) klen true rng1 = (rng2, Ok out) ->
  len (ro_shared_key out) = klen /\
  exists ha hb r_b, hash1 sm3 id_a SM9_KEY_EXCHANGE_HID = Some ha /\ hash1 sm3 id_b SM9_KEY_EXCHANGE_HID = Some hb /\
    random_scalar rng = (rng1, Ok (is_r_a st)) /\ random_scalar rng1 = (rng2, Ok r_b) /\
    0 < eval (is_r_a st) < eval N /\ 0 < eval r_b < eval N /\
    r1_r_a msg = scalar_mul (compute_q hb ppub_e) (is_r_a st) /\ ro_r_b out = scalar_mul (compute_q ha ppub_e) r_b /\
    let finish := initiator_finish st (ro_r_b out) de_a id_a id_b klen in
    let g := initiator_values st (ro_r_b out) de_a in
    let g' := responder_values ppub_e de_b (r1_r_a msg) r_b in
    let e := pairing ppub_e g2_generator in
    match G1.to_affine (ro_r_b out) with
    | None => forall s, finish s = Err Sm9InvalidPoint
    | Some _ =>
        (pt_ok ZP_field ppub_e = true -> eu_ppube de_a = ppub_e ->
         pairing (ro_r_b out) (de de_a) = Fp12.pow e r_b -> pairing (r1_r_a msg) (de de_b) = Fp12.pow e (is_r_a st) ->
         exists fin s_a, finish (ro_s_b out) = Ok fin /\
           io_shared_key fin = ro_shared_key out /\ io_s_a fin = Some s_a /\
           verify_sa (fst (fst g')) (snd (fst g')) (snd g') id_a id_b (r1_r_a msg) (ro_r_b out) s_a = true) /\
        (forall s, wf_bytes s = true -> s <> sb_of id_a id_b (r1_r_a msg) (ro_r_b out) g ->
           finish (Some s) = Err (Sm9CryptoError "Key confirmation failed: S_B mismatch"))
    end.
Proof.
  intros B D Ib Rp. destruct (begin_cases _ _ _ _ _ _ _ Ib) as (hb & Ehb & R0 & Ea & Em). pose proof (draw_tail _ _ _ D R0) as D1.
  destruct (random_scalar_range _ _ _ D R0) as [Wa Ba].
  destruct (responder_cases id_a id_b ppub_e de_b (r1_r_a msg) klen true rng1 B D1) as (ha & Eh & C).
  destruct (random_scalar rng1) as [r2 [r_b| |]] eqn:R1; [|rewrite Rp in C; discriminate..].
  destruct (random_scalar_range _ _ _ D1 R1) as [Wb _]. cbv zeta in C. destruct C as [Br C]. rewrite Rp in C. clear Rp.
  destruct (G1.to_affine (r1_r_a msg)); [|discriminate]. revert C. remember (scalar_mul (compute_q ha ppub_e) r_b) as R_B eqn:ER. intros C.
  pose proof (f_equal fst C) as E2. cbn [fst] in E2. subst r2.
  apply (f_equal snd) in C. cbn [snd] in C. apply ok_inj in C. subst out. cbn [ro_r_b ro_shared_key ro_s_b]. split; [apply len_kdf_stream; lia|].
  exists ha, hb, r_b. split; [exact Eh|]. split; [exact Ehb|]. split; [exact R0|]. split; [reflexivity|]. split; [exact Ba|]. split; [exact Br|]. split; [exact Em|]. split; [exact ER|].
  cbv zeta. clear ER Em. destruct (G1.to_affine R_B) as [xy|] eqn:T.
  - split.
    + intros O Ep Pb Pa. pose proof (values_agree ppub_e de_a de_b st (r1_r_a msg) r_b R_B O Wa Wb Ep Pb Pa) as G.
      rewrite finish_cases by (exact B || apply wf_sm3). rewrite T, Ea, G, bytes_eqb_refl. eexists _, _.
      split; [reflexivity|]. split; [reflexivity|]. split; [reflexivity|]. unfold verify_sa, sa_of. rewrite constant_time_eq_spec by apply wf_sm3. apply bytes_eqb_refl.
    + intros s Ws N0. rewrite finish_cases by assumption. rewrite T, Ea. destruct (bytes_eqb _ s) eqn:X; [|reflexivity]. apply bytes_eqb_eq in X. now destruct N0.
  - intros s. unfold initiator_finish. now rewrite T.
Qed.
End ExchangeLemmas.

(** ** A system in which the two pairings can be compared

    The master secret [(N - 1) / 2] with identifiers that hash to 1: the public
    point [X] satisfies [P1 + X = -X], so that [Q_A = Q_B = -X], and the user keys
    are [-P2]. *)

Section Chord.
Context (E : CField).
Add Field EfieldCh : (cfield_theory E).

(** The third point of a chord of given slope. *)
Lemma aff_add_slope (l x1 y1 x2 y2 x3 y3 : E) : x1 <> x2 ->
  rmul l (rsub x2 x1) = rsub y2 y1 -> x3 = rsub (rsub (rmul l l) x1) x2 -> y3 = rsub (rmul l (rsub x1 x3)) y1 ->
  aff_add E (Aff x1 y1) (Aff x2 y2) = Aff x3 y3.
Proof.
  intros NX L -> ->. cbn [aff_add]. destruct (ceq_dec E x1 x2) as [|_]; [contradiction|]. cbv zeta.
  assert (N0 : rsub x2 x1 <> r0) by (apply cf_sub_nonzero; congruence).
  replace (cdiv (rsub y2 y1) (rsub x2 x1)) with l by (rewrite <- L; field; exact N0). reflexivity.
Qed.
End Chord.

Definition sample_x : Fp := [7581856612549556795; 1370222990760423632; 12878663689545093436; 924202949468518712].
Definition sample_y : Fp := [3659920292003455853; 12786227842569179717; 5943799643461905073; 10055887975310038996].
Definition sample_ppub : G1Point := G1.from_affine sample_x sample_y.
Definition sample_slope : Z := 52844403050207479644942505903388341513176381519330140979489053740060191505882.
Definition sample_key : EncUserKey := {| de := G2.neg g2_generator; eu_ppube := sample_ppub |}.

Lemma sample_key_spec : de sample_key = G2.neg g2_generator /\ eu_ppube sample_key = sample_ppub.
Proof. split; reflexivity. Qed.

Lemma sample_ppub_spec : pt_ok ZP_field sample_ppub = true /\ aff ZP_field sample_ppub = Aff (val sample_x : ZP_field) (val sample_y).
Proof. apply from_affine_spec; vm_compute; reflexivity. Qed.

Lemma sample_sum : aff_add ZP_field (aff ZP_field g1_generator) (aff ZP_field sample_ppub) = aff_neg ZP_field (aff ZP_field sample_ppub).
Proof.
  rewrite (proj2 generator_spec), (proj2 sample_ppub_spec). cbn [aff_neg]. apply (aff_add_slope ZP_field (Zmod.of_Z p sample_slope)).
  - intros H. apply (f_equal Zmod.to_Z) in H. vm_compute in H. discriminate.
  - apply Zmod.to_Z_inj. vm_compute. reflexivity.
  - apply Zmod.to_Z_inj. vm_compute. reflexivity.
  - apply Zmod.to_Z_inj. vm_compute. reflexivity.
Qed.

(** The point both sides send. *)
Abbreviation sample_r := (scalar_mul (compute_q Z256.ONE sample_ppub) Z256.ONE).

Lemma sample_r_spec : pt_ok ZP_field sample_r = true /\ aff ZP_field sample_r = aff_neg ZP_field (aff ZP_field sample_ppub).
Proof.
  destruct (times_one_aff _ (proj1 generator_spec)) as [O1 A1]. destruct (G1.add_spec _ _ O1 (proj1 sample_ppub_spec)) as [O2 A2].
  destruct (times_one_aff _ O2) as [O3 A3]. split; [exact O3|]. refine (eq_trans A3 (eq_trans A2 _)). rewrite A1. exact sample_sum.
Qed.

Lemma sample_r_affine : exists xy, G1.to_affine sample_r = Some xy.
Proof.
  destruct sample_r_spec as [O A]. rewrite (proj2 sample_ppub_spec) in A. pose proof (j_to_affine_spec ZP_field _ O) as T.
  unfold G1.to_affine. destruct (j_to_affine sample_r) as [xy|]; [now exists xy|]. rewrite A in T. discriminate.
Qed.

Lemma sample_pairing : pairing sample_r (G2.neg g2_generator) = Fp12.pow (pairing sample_ppub g2_generator) Z256.ONE.
Proof.
  destruct sample_r_spec as [O A]. destruct sample_ppub_spec as [Op _]. destruct g2_generator_spec as [Og _].
  rewrite (fp12_pow_one _ (pairing_canonical sample_ppub g2_generator Op Og)). exact (pairing_negated sample_ppub sample_r g2_generator Op O Og A).
Qed.

Lemma begin_run {H : Sm3Crate} id_a id_b ppub_e rng rng' h r : hash1 sm3 id_b SM9_KEY_EXCHANGE_HID = Some h -> random_scalar rng = (rng', Ok r) ->
  let P := scalar_mul (compute_q h ppub_e) r in
  initiator_begin id_a id_b ppub_e rng =
    (rng', Ok ({| is_r_a := r; is_q_b := compute_q h ppub_e; is_id_a := id_a; is_id_b := id_b; is_r_a_point := P |}, {| r1_r_a := P |})).
Proof. intros E R P. unfold initiator_begin, bindM, lift. rewrite E. cbn [some_or_panic]. now rewrite R. Qed.

Lemma one_scalar rest : random_scalar (one_draw :: rest) = (rest, Ok Z256.ONE).
Proof. reflexivity. Qed.

Lemma sample_begins : exists st msg,
  initiator_begin (H := tagged_sm3) [65] [66] sample_ppub [one_draw; one_draw] = ([one_draw], Ok (st, msg)) /\
  is_r_a st = Z256.ONE /\ r1_r_a msg = sample_r.
Proof.
  eexists _, _. split; [|split].
  - apply (begin_run (H := tagged_sm3) [65] [66] sample_ppub _ _ Z256.ONE Z256.ONE); [vm_compute; reflexivity|apply one_scalar].
  - reflexivity.
  - reflexivity.
Qed.

Lemma sample_responds (r_a : G1Point) xy : G1.to_affine r_a = Some xy -> exists out,
  responder_process (H := tagged_sm3) [65] [66] sample_ppub sample_key r_a 16 true [one_draw] = ([], Ok out) /\ ro_r_b out = sample_r.
Proof.
  intros A. destruct (responder_cases (H := tagged_sm3) (L := tagged_sm3_laws) [65] [66] sample_ppub sample_key r_a 16 true [one_draw])
    as (ha & Eh & C); [lia|reflexivity|].
  assert (ha = Z256.ONE) as -> by (apply some_inj; rewrite <- Eh; vm_compute; reflexivity).
  rewrite one_scalar in C. cbv zeta in C. destruct C as [_ C]. rewrite A in C. eexists. split; [exact C|reflexivity].
Qed.

Lemma exchange_agreement_witness : exists rng1 st msg rng2 out fin s_a,
  initiator_begin (H := tagged_sm3) [65] [66] sample_ppub [one_draw; one_draw] = (rng1, Ok (st, msg)) /\
  responder_process (H := tagged_sm3) [65] [66] sample_ppub sample_key (r1_r_a msg) 16 true rng1 = (rng2, Ok out) /\
  len (ro_shared_key out) = 16 /\
  initiator_finish (H := tagged_sm3) st (ro_r_b out) sample_key [65] [66] 16 (ro_s_b out) = Ok fin /\
  io_shared_key fin = ro_shared_key out /\ io_s_a fin = Some s_a.
Proof.
  destruct sample_r_affine as [xy A]. destruct sample_key_spec as [Kd Ke]. destruct sample_begins as (st & msg & Ib & Ea & Em).
  rewrite <- Em in A. destruct (sample_responds _ xy A) as (out & C & Er).
  destruct (exchange_agreement (H := tagged_sm3) (L := tagged_sm3_laws) [65] [66] sample_ppub sample_key sample_key 16 [one_draw; one_draw] _ _ st msg out ltac:(lia) ltac:(reflexivity) Ib C)
    as (Len & ha & hb & r_b & _ & _ & _ & Rb & _ & _ & _ & _ & T).
  rewrite one_scalar in Rb. apply (f_equal snd) in Rb. cbn [snd] in Rb. apply ok_inj in Rb. subst r_b.
  cbv zeta in T. rewrite Em, <- Er in A. rewrite A in T. destruct T as [T _].
  destruct (T (proj1 sample_ppub_spec) Ke) as (fin & s_a & F & K & S & _).
  - rewrite Er, Kd. exact sample_pairing.
  - rewrite Em, Kd, Ea. exact sample_pairing.
  - exists [one_draw], st, msg, [], out, fin, s_a. auto 10.
Defined.
