(* ===== verification/Sm9Rotation.v ===== *)
(** Rotation of the SM9 master keys (gm-sm9-rs/src/key_rotation.rs): versioned
    signing and encryption keys, grace periods and pruning.

    The two kinds of keys are managed by the same code, here one lane of keys each.
    A reading of the monotonic clock ([Instant::now]) is an argument, in
    nanoseconds; a rotation reads it twice. *)

From Stdlib Require Import String Bool ZArith Lia List.
From stdpp Require Import base gmap list fin_maps.
From S2P Require Import Prelude Bytes Effects Sm9Key.
Open Scope Z_scope.

Record RotationRecord : Type := {
  rr_from_version : Z;
  rr_to_version : Z;
  rr_rotated_at : Z;
  rr_grace_period : Z;
  rr_grace_expired : bool
}.

(** [VersionedSignKey] and [VersionedEncKey]. *)
Record Versioned (K : Type) : Type := {
  vk_key : K;
  vk_version : Z;
  vk_created_at : Z;
  vk_expires_at : option Z;
  vk_active : bool
}.
Arguments vk_key {K}. Arguments vk_version {K}. Arguments vk_created_at {K}. Arguments vk_expires_at {K}. Arguments vk_active {K}.

Record Lane (K : Type) : Type := { keys : gmap Z (Versioned K); current : Z; rotations : list RotationRecord }.
Arguments keys {K}. Arguments current {K}. Arguments rotations {K}.

Record KeyRotationManager : Type := {
  sign_lane : Lane SignMasterKey;
  enc_lane : Lane EncMasterKey;
  max_retained_versions : Z
}.

Definition empty_lane (K : Type) : Lane K := {| keys := ∅; current := 0; rotations := [] |}.
Definition manager_new : KeyRotationManager := {| sign_lane := empty_lane _; enc_lane := empty_lane _; max_retained_versions := 3 |}.
Definition with_max_versions (n : Z) : KeyRotationManager :=
  {| sign_lane := empty_lane _; enc_lane := empty_lane _; max_retained_versions := n |}.

(** [now + Duration::from_secs(n)]: the seconds of an instant are an [i64]. *)
Definition SECOND : Z := 1000000000.
Definition instant_add (now secs : Z) : outcome Sm9Error Z :=
  let t := now + secs * SECOND in if t / SECOND <? 2 ^ 63 then Ok t else Panic.

(** [is_none_or(|exp| now >= exp)] and [is_some_and(|exp| now < exp)]. *)
Definition past (now : Z) (expires_at : option Z) : bool := match expires_at with Some exp => exp <=? now | None => true end.
Definition within (now : Z) (expires_at : option Z) : bool := match expires_at with Some exp => now <? exp | None => false end.

Section Lane.
Context {K : Type}.

Definition fresh (key : K) (version now : Z) : Versioned K :=
  {| vk_key := key; vk_version := version; vk_created_at := now; vk_expires_at := None; vk_active := true |}.

Definition register (what : string) (now : Z) (key : K) : M (Lane K) Sm9Error Z := fun l =>
  if negb (bool_decide (keys l = ∅)) then (l, Err (Sm9CryptoError what))
  else ({| keys := <[1 := fresh key 1 now]> (keys l); current := 1; rotations := rotations l |}, Ok 1).

Definition lookup_key (l : Lane K) (version : Z) : option K := vk_key <$> keys l !! version.
Definition current_key (l : Lane K) : option K := lookup_key l (current l).

(** The versions [prune] collects, and their removal one by one. *)
Definition prunable (now max : Z) (l : Lane K) (e : Z * Versioned K) : bool :=
  negb (fst e =? current l) && negb (vk_active (snd e)) && past now (vk_expires_at (snd e)) &&
  (fst e <? Z.max 0 (current l - as_u32 max)).
Definition to_remove (now max : Z) (l : Lane K) : list Z := fst <$> filter (fun e => prunable now max l e = true) (map_to_list (keys l)).
Definition prune (now max : Z) (l : Lane K) : Lane K :=
  {| keys := fold_left (fun m ver => delete ver m) (to_remove now max l) (keys l); current := current l; rotations := rotations l |}.

(** The old key is marked inactive before its expiry is computed. *)
Definition retire (now grace : Z) (l : Lane K) : Lane K * outcome Sm9Error unit :=
  match keys l !! current l with
  | None => (l, Ok ())
  | Some old =>
      let set e := {| keys := <[current l := {| vk_key := vk_key old; vk_version := vk_version old; vk_created_at := vk_created_at old;
                                               vk_expires_at := e; vk_active := false |}]> (keys l);
                      current := current l; rotations := rotations l |} in
      match instant_add now grace with
      | Ok t => (set (Some t), Ok ())
      | Err e => (set (vk_expires_at old), Err e)
      | Panic => (set (vk_expires_at old), Panic)
      end
  end.

Definition rotate (now now' max : Z) (new_key : K) (grace : Z) : M (Lane K) Sm9Error RotationRecord := fun l =>
  let old_version := current l in
  if 2 ^ 32 <=? old_version + 1 then (l, Panic)
  else
    let new_version := old_version + 1 in
    match retire now grace l with
    | (l, Ok _) =>
        let record := {| rr_from_version := old_version; rr_to_version := new_version; rr_rotated_at := now;
                         rr_grace_period := grace; rr_grace_expired := false |} in
        let l := {| keys := <[new_version := fresh new_key new_version now]> (keys l); current := new_version; rotations := rotations l ++ [record] |} in
        (prune now' max l, Ok record)
    | (l, Err e) => (l, Err e)
    | (l, Panic) => (l, Panic)
    end.

Definition is_valid (now : Z) (l : Lane K) (version : Z) : bool :=
  match keys l !! version with
  | Some entry => if vk_active entry then true else within now (vk_expires_at entry)
  | None => false
  end.

Definition valid_versions (now : Z) (l : Lane K) : list Z :=
  fst <$> filter (fun e => vk_active e.2 || within now (vk_expires_at e.2) = true) (map_to_list (keys l)).
End Lane.

(** ** The manager *)

Definition on_sign {A : Type} (f : M (Lane SignMasterKey) Sm9Error A) : M KeyRotationManager Sm9Error A := fun m =>
  let '(l, o) := f (sign_lane m) in
  ({| sign_lane := l; enc_lane := enc_lane m; max_retained_versions := max_retained_versions m |}, o).
Definition on_enc {A : Type} (f : M (Lane EncMasterKey) Sm9Error A) : M KeyRotationManager Sm9Error A := fun m =>
  let '(l, o) := f (enc_lane m) in
  ({| sign_lane := sign_lane m; enc_lane := l; max_retained_versions := max_retained_versions m |}, o).

Definition register_sign_key (now : Z) (key : SignMasterKey) : M KeyRotationManager Sm9Error Z :=
  on_sign (register "Signing key already registered; use rotate_sign_key instead" now key).
Definition current_sign_key (m : KeyRotationManager) : option SignMasterKey := current_key (sign_lane m).
Definition get_sign_key (m : KeyRotationManager) (version : Z) : option SignMasterKey := lookup_key (sign_lane m) version.
Definition current_sign_version (m : KeyRotationManager) : Z := current (sign_lane m).
Definition rotate_sign_key (now now' : Z) (new_key : SignMasterKey) (grace : Z) : M KeyRotationManager Sm9Error RotationRecord := fun m =>
  on_sign (rotate now now' (max_retained_versions m) new_key grace) m.
Definition is_sign_key_valid (now : Z) (m : KeyRotationManager) (version : Z) : bool := is_valid now (sign_lane m) version.
Definition valid_sign_versions (now : Z) (m : KeyRotationManager) : list Z := valid_versions now (sign_lane m).
Definition sign_rotation_history (m : KeyRotationManager) : list RotationRecord := rotations (sign_lane m).

Definition register_enc_key (now : Z) (key : EncMasterKey) : M KeyRotationManager Sm9Error Z :=
  on_enc (register "Encryption key already registered; use rotate_enc_key instead" now key).
Definition current_enc_key (m : KeyRotationManager) : option EncMasterKey := current_key (enc_lane m).
Definition get_enc_key (m : KeyRotationManager) (version : Z) : option EncMasterKey := lookup_key (enc_lane m) version.
Definition current_enc_version (m : KeyRotationManager) : Z := current (enc_lane m).
Definition rotate_enc_key (now now' : Z) (new_key : EncMasterKey) (grace : Z) : M KeyRotationManager Sm9Error RotationRecord := fun m =>
  on_enc (rotate now now' (max_retained_versions m) new_key grace) m.
Definition is_enc_key_valid (now : Z) (m : KeyRotationManager) (version : Z) : bool := is_valid now (enc_lane m) version.
Definition valid_enc_versions (now : Z) (m : KeyRotationManager) : list Z := valid_versions now (enc_lane m).
Definition enc_rotation_history (m : KeyRotationManager) : list RotationRecord := rotations (enc_lane m).

(** ** Reachable lanes *)

Section Invariant.
Context {K : Type}.

(** The lanes operations that return reach; the clock may be anything. *)
Inductive reachable : Lane K -> Prop :=
| reach_empty : reachable (empty_lane K)
| reach_register what now key l l' o : reachable l -> register what now key l = (l', o) -> reachable l'
| reach_rotate now now' max key grace l l' r : reachable l -> rotate now now' max key grace l = (l', Ok r) -> reachable l'.

(** Exactly the current version is active; the others are older and have an
    expiry; a lane without keys is the empty one. *)
Definition lane_ok (l : Lane K) : Prop :=
  l = empty_lane K \/
  (1 <= current l < 2 ^ 32 /\ is_Some (keys l !! current l) /\
   forall v e, keys l !! v = Some e -> vk_version e = v /\ 1 <= v <= current l /\ vk_active e = (v =? current l) /\ (v = current l \/ vk_expires_at e <> None)).

Lemma fold_delete (L : list Z) (m : gmap Z (Versioned K)) v :
  fold_left (fun m ver => delete ver m) L m !! v = if bool_decide (v ∈ L) then None else m !! v.
Proof.
  revert m. induction L as [|x L IH]; intros m; cbn [fold_left]; [by rewrite bool_decide_false by apply not_elem_of_nil|].
  rewrite IH. destruct (decide (v = x)) as [->|Ne].
  - rewrite (bool_decide_true (x ∈ x :: L)) by apply elem_of_cons, or_introl, eq_refl. rewrite lookup_delete_eq. by destruct (bool_decide _).
  - rewrite lookup_delete_ne by done. by rewrite (bool_decide_ext (v ∈ x :: L) (v ∈ L)) by (rewrite elem_of_cons; naive_solver).
Qed.

Lemma prune_lookup now max (l : Lane K) v :
  keys (prune now max l) !! v = match keys l !! v with Some e => if prunable now max l (v, e) then None else Some e | None => None end.
Proof.
  unfold prune. cbn [keys]. rewrite fold_delete.
  assert (I : v ∈ to_remove now max l <-> exists e, keys l !! v = Some e /\ prunable now max l (v, e) = true).
  { unfold to_remove. rewrite list_elem_of_fmap. split.
    - intros ([w e] & -> & I). apply list_elem_of_filter in I as [P I]. apply elem_of_map_to_list in I. by exists e.
    - intros (e & E & P). exists (v, e). split; [done|]. apply list_elem_of_filter. split; [done|]. by apply elem_of_map_to_list. }
  destruct (keys l !! v) as [e|] eqn:E.
  - destruct (prunable now max l (v, e)) eqn:P.
    + rewrite bool_decide_true; [done|]. apply I. by exists e.
    + rewrite bool_decide_false; [done|]. rewrite I. intros (e' & E' & P'). congruence.
  - by destruct (bool_decide _).
Qed.

(** A rotation that returns, key by key. *)
Lemma rotate_ok now now' max key grace (l l' : Lane K) r : rotate now now' max key grace l = (l', Ok r) ->
  let c := current l in
  let old v e := if v =? c then {| vk_key := vk_key e; vk_version := vk_version e; vk_created_at := vk_created_at e;
                                   vk_expires_at := Some (now + grace * SECOND); vk_active := false |} else e in
  c + 1 < 2 ^ 32 /\ current l' = c + 1 /\ rotations l' = rotations l ++ [r] /\
  r = {| rr_from_version := c; rr_to_version := c + 1; rr_rotated_at := now; rr_grace_period := grace; rr_grace_expired := false |} /\
  forall v, keys l' !! v = if v =? c + 1 then Some (fresh key (c + 1) now)
    else match keys l !! v with
         | Some e => if negb (vk_active (old v e)) && past now' (vk_expires_at (old v e)) && (v <? Z.max 0 (c + 1 - as_u32 max)) then None else Some (old v e)
         | None => None
         end.
Proof.
  unfold rotate. destruct (Z.leb_spec (2 ^ 32) (current l + 1)) as [|B]; [discriminate|]. cbv zeta.
  assert (R : forall l1, retire now grace l = (l1, Ok ()) -> current l1 = current l /\ rotations l1 = rotations l /\
    forall v, keys l1 !! v = match keys l !! v with
      | Some e => Some (if v =? current l then {| vk_key := vk_key e; vk_version := vk_version e; vk_created_at := vk_created_at e;
                                   vk_expires_at := Some (now + grace * SECOND); vk_active := false |} else e)
      | None => None end).
  { unfold retire, instant_add. intros l1. destruct (keys l !! current l) as [o|] eqn:E.
    - cbv zeta. destruct (_ <? _); [|discriminate]. intros [= <-]. cbn [keys current rotations]. split; [done|]. split; [done|]. intros v.
      destruct (Z.eqb_spec v (current l)) as [->|Ne]; [by rewrite lookup_insert_eq, E|]. rewrite lookup_insert_ne by done. by destruct (keys l !! v).
    - intros [= <-]. split; [done|]. split; [done|]. intros v. destruct (Z.eqb_spec v (current l)) as [->|]; [by rewrite E|]. by destruct (keys l !! v). }
  destruct (retire now grace l) as [l1 [[]| |]]; [|discriminate..]. destruct (R l1 eq_refl) as (C1 & R1 & K1). intros [= <- <-].
  split; [lia|]. cbn [current rotations]. split; [done|]. split; [by rewrite R1|]. split; [done|]. intros v. rewrite prune_lookup. cbn [keys].
  destruct (Z.eqb_spec v (current l + 1)) as [->|Ne].
  - rewrite lookup_insert_eq. unfold prunable. cbn [fst snd current]. by rewrite Z.eqb_refl.
  - rewrite lookup_insert_ne by done. rewrite K1. destruct (keys l !! v) as [e|]; [|done]. unfold prunable. cbn [fst snd current].
    by rewrite (proj2 (Z.eqb_neq _ _) Ne).
Qed.

Lemma reachable_ok (l : Lane K) : reachable l -> lane_ok l.
Proof.
  induction 1 as [|what now key l l' o _ IH E|now now' max key grace l l' r _ IH E]; [by left|..].
  - unfold register in E. case_bool_decide as Em; cbn [negb] in E; [|by injection E as <- _].
    destruct IH as [-> |(_ & [e S] & _)]; [|rewrite Em in S; discriminate]. injection E as <- _. right. cbn [current keys]. split; [lia|].
    split; [rewrite lookup_insert_eq; by eexists|]. intros v e. destruct (Z.eqb_spec v 1) as [->|Ne]; [rewrite lookup_insert_eq|by rewrite lookup_insert_ne].
    intros [= <-]. cbn. split; [done|]. split; [lia|]. split; [done|]. by left.
  - apply rotate_ok in E. cbv zeta in E. destruct E as (B & C & _ & _ & Ks). assert (C0 : 0 <= current l).
    { destruct IH as [-> |(? & _)]; [done|lia]. }
    right. rewrite C. split; [lia|]. split; [rewrite Ks, Z.eqb_refl; by eexists|]. intros v e. rewrite Ks. destruct (Z.eqb_spec v (current l + 1)) as [->|Ne].
    { intros [= <-]. cbn. split; [done|]. split; [lia|]. split; [done|]. by left. }
    destruct IH as [-> |(_ & _ & IH)]; [done|]. destruct (keys l !! v) as [o|] eqn:Eo; [|done]. destruct (IH _ _ Eo) as (V & Bv & A & X).
    destruct (_ && _ && _); [done|]. intros [= <-]. destruct (Z.eqb_spec v (current l)) as [->|Nc]; cbn [vk_version vk_active vk_expires_at].
    + split; [done|]. split; [lia|]. split; [done|]. by right.
    + split; [done|]. split; [lia|]. split; [done|]. right. by destruct X.
Qed.

(** C32. Rotation of the master keys. In every lane that operations can reach, a
    lane with keys has exactly one active version, the current one. A rotation
    makes the next version current with the new key and records the step. At any
    later time the version it replaces is valid exactly until the grace period
    ends, and pruning has changed nothing else: every other version is as valid as
    before, and the last retained versions can still be looked up, expired or
    not. *)
Theorem rotation_correct (now now' max grace : Z) (key : K) (l l' : Lane K) (r : RotationRecord) :
  reachable l -> now <= now' -> rotate now now' max key grace l = (l', Ok r) ->
  (keys l = ∅ \/ forall v e, keys l !! v = Some e -> vk_active e = (v =? current l)) /\
  current l' = current l + 1 /\ current_key l' = Some key /\ rotations l' = rotations l ++ [r] /\ rr_to_version r = rr_from_version r + 1 /\
  (forall t, is_valid t l' (current l') = true) /\
  (forall t, now' <= t -> is_Some (current_key l) -> is_valid t l' (current l) = (t <? now + grace * SECOND)) /\
  (forall t v, now' <= t -> v <> current l -> v <> current l' -> is_valid t l' v = is_valid t l v) /\
  (forall v, v <> current l' -> current l' - as_u32 max <= v -> lookup_key l' v = lookup_key l v).
Proof.
  intros R Tn E. pose proof (reachable_ok _ R) as Ok. apply rotate_ok in E. cbv zeta in E. destruct E as (_ & C & H & -> & Ks). rewrite C. split.
  { destruct Ok as [-> |(_ & _ & Ok)]; [by left|]. right. intros v e Ev. by destruct (Ok _ _ Ev) as (_ & _ & ? & _). }
  split; [done|]. unfold current_key, lookup_key, is_valid. rewrite C. split; [by rewrite Ks, Z.eqb_refl|]. split; [exact H|]. split; [done|].
  split; [intros t; by rewrite Ks, Z.eqb_refl|]. split; [|split].
  - intros t Bt S. rewrite Ks, (proj2 (Z.eqb_neq _ _)) by lia. destruct (keys l !! current l) as [e|]; [|by destruct S]. rewrite Z.eqb_refl. cbn [vk_active vk_expires_at negb andb past].
    destruct (Z.leb_spec (now + grace * SECOND) now') as [P|P]; cbn [andb]; [|done]. destruct (_ <? Z.max _ _); [|done]. symmetry. apply Z.ltb_ge. lia.
  - intros t v Bt N0 N1. rewrite Ks, (proj2 (Z.eqb_neq _ _) N1). destruct (keys l !! v) as [e|]; [|done]. rewrite (proj2 (Z.eqb_neq _ _) N0).
    destruct (vk_active e) eqn:A; cbn [negb andb]; [by rewrite A|]. unfold past, within. destruct (vk_expires_at e) as [x|] eqn:X; cbn [andb].
    + destruct (Z.leb_spec x now'); cbn [andb]; [|by rewrite A, X]. destruct (_ <? Z.max _ _); [|by rewrite A, X]. symmetry. apply Z.ltb_ge. lia.
    + destruct (_ <? Z.max _ _); [done|by rewrite A, X].
  - intros v N1 B. rewrite Ks, (proj2 (Z.eqb_neq _ _) N1). destruct (keys l !! v) as [e|] eqn:Ev; [|done]. 
    assert (0 <= v) by (destruct Ok as [-> |(_ & _ & Ok)]; [done|destruct (Ok _ _ Ev); lia]).
    rewrite (proj2 (Z.ltb_ge _ (Z.max _ _))) by lia. rewrite andb_false_r. by destruct (v =? current l).
Qed.
End Invariant.

Definition sample_lane : Lane SignMasterKey := {| keys := {[1 := fresh sample_sign 1 0]}; current := 1; rotations := [] |}.

Lemma rotation_correct_witness :
  exists l' r, rotate 5 6 3 sample_sign 10 sample_lane = (l', Ok r) /\ current l' = 2 /\
    is_valid 7 l' 1 = true /\ is_valid (20 * SECOND) l' 1 = false /\ lookup_key l' 1 = Some sample_sign.
Proof.
  destruct (rotate 5 6 3 sample_sign 10 sample_lane) as [l' o] eqn:E. assert (O : exists r, o = Ok r).
  { apply (f_equal snd) in E. cbn [snd] in E. rewrite <- E. vm_compute. by eexists. }
  destruct O as (r & ->). exists l', r. split; [done|].
  assert (R : reachable sample_lane) by (apply (reach_register "" 0 sample_sign (empty_lane _) _ (Ok 1)); [constructor|done]).
  destruct (rotation_correct 5 6 3 10 sample_sign sample_lane l' r R ltac:(lia) E) as (_ & C & _ & _ & _ & _ & V & _ & L).
  split; [exact C|]. split; [by apply (V 7)|]. split; [by apply (V (20 * SECOND))|]. rewrite L; [done|rewrite C; done|rewrite C; done].
Defined.
