(* ===== verification/Sm2.v ===== *)
(** SM2 (gm-crypto/src/sm2.rs): the DER forms of signatures and ciphertexts, the
    SM3 key derivation function, public-key encryption in its four formats,
    signing with the check that follows it, and Diffie-Hellman.

    The curve arithmetic, the SEC1 encodings and the signature scheme (crates sm2
    and elliptic-curve) are parameters, the operations of [Sm2Crate]; what the
    code relies on is stated by [Sm2Laws]. The scalar an encryption draws is an
    argument. PEM files and password-based encryption of keys are left out. *)

From Stdlib Require Import String Bool ZArith Lia List.
From S2P Require Import Prelude Bytes Der Sm4 Sm3.
Import ListNotations.
Open Scope Z_scope.

(** ** DER encoding *)

Fixpoint strip_leading_zeros (value : bytes) : bytes :=
  match value with
  | b :: rest => if b =? 0 then strip_leading_zeros rest else value
  | [] => []
  end.

Definition msb_set (b : Z) : bool := negb (Z.land b 0x80 =? 0).

Definition der_integer_len (value : bytes) : Z :=
  match strip_leading_zeros value with
  | [] => 3
  | (b :: _) as stripped => if msb_set b then 3 + len stripped else 2 + len stripped
  end.

Definition der_octet_string_len (data : bytes) : Z :=
  if len data <? 128 then 2 + len data else if len data <? 256 then 3 + len data else 4 + len data.

(** What [der_encode_integer] appends to its buffer. *)
Definition der_encode_integer (value : bytes) : bytes :=
  match strip_leading_zeros value with
  | [] => [0x02] ++ der_len 1 ++ [0]
  | (b :: _) as stripped =>
      if msb_set b then [0x02] ++ der_len (len stripped + 1) ++ [0] ++ stripped
      else [0x02] ++ der_len (len stripped) ++ stripped
  end.

Definition der_encode_octet_string (data : bytes) : bytes := [0x04] ++ der_len (len data) ++ data.

(** ** DER parsing: a value and the bytes consumed *)

Definition sm2_err {A : Type} (m : string) : outcome CryptoError A := Err (Sm2Error m).

Definition parse_der_length (data : bytes) : outcome CryptoError (Z * Z) :=
  ' (rest, length) <- map_err (fun e => Sm2Error (display_der e)) (Der.parse_der_length data) ;;
  consumed <- usize_sub (len data) (len rest) ;;
  Ok (length, consumed).

(** The tag, the length and the bounds of the contents. *)
Definition parse_der_header (tag : Z) (expected truncated : string) (data : bytes) : outcome CryptoError (bytes * Z) :=
  guard ((len data =? 0) || negb (nth 0 data 0 =? tag)) (Sm2Error expected) (
  tl <- slice_from data 1 ;;
  ' (length, consumed) <- parse_der_length tl ;;
  let pos := 1 + consumed in
  guard (len data <? pos + length) (Sm2Error truncated) (
  content <- slice data pos (pos + length) ;;
  Ok (content, pos + length))).

Definition parse_der_integer (data : bytes) : outcome CryptoError (bytes * Z) :=
  ' (content, n) <- parse_der_header 0x02 "expected INTEGER tag 0x02" "INTEGER content truncated" data ;;
  let stripped := strip_leading_zeros content in
  let value := if len stripped =? 0 then repeat 0 (List.length content) else stripped in
  guard (32 <? len value) (Sm2Error ("INTEGER too large for SM2 field: " +++ dec (len value) +++ " bytes")%string) (
  pad <- usize_sub 32 (len value) ;;
  Ok (repeat 0 (Z.to_nat pad) ++ value, n)).

Definition parse_der_octet_string (data : bytes) : outcome CryptoError (bytes * Z) :=
  parse_der_header 0x04 "expected OCTET STRING tag 0x04" "OCTET STRING content truncated" data.

(** The SEQUENCE header, and where the sequence starts and ends. *)
Definition parse_sequence_header (expected exceeds : string) (der : bytes) : outcome CryptoError (Z * Z) :=
  guard ((len der =? 0) || negb (nth 0 der 0 =? 0x30)) (Sm2Error expected) (
  tl <- slice_from der 1 ;;
  ' (seq_len, consumed) <- parse_der_length tl ;;
  let pos := 1 + consumed in
  guard (len der <? pos + seq_len) (Sm2Error exceeds) (Ok (pos, pos + seq_len))).

(** *** Signatures *)

Definition sm2_signature_der_to_raw (der : bytes) : outcome CryptoError bytes :=
  ' (pos, seq_end) <- parse_sequence_header "expected SEQUENCE tag 0x30 for signature" "signature SEQUENCE length exceeds input" der ;;
  tl <- slice_from der pos ;;
  ' (r, n) <- parse_der_integer tl ;;
  let pos := pos + n in
  guard (negb (len r =? 32)) (Sm2Error ("signature r must be 32 bytes, got " +++ dec (len r))%string) (
  tl <- slice_from der pos ;;
  ' (s, n) <- parse_der_integer tl ;;
  let pos := pos + n in
  guard (negb (len s =? 32)) (Sm2Error ("signature s must be 32 bytes, got " +++ dec (len s))%string) (
  guard (negb (pos =? seq_end)) (Sm2Error "extra bytes after signature SEQUENCE") (
  Ok (r ++ s)))).

(** The argument is an array of 64 bytes. *)
Definition sm2_signature_raw_to_der (raw : bytes) : bytes :=
  let r := firstn 32 raw in
  let s := skipn 32 raw in
  [0x30] ++ der_len (der_integer_len r + der_integer_len s) ++ der_encode_integer r ++ der_encode_integer s.

(** *** Ciphertexts *)

Definition parse_sm2_cipher_der (der : bytes) : outcome CryptoError (bytes * bytes * bytes * bytes) :=
  ' (pos, seq_end) <- parse_sequence_header "expected SEQUENCE tag 0x30" "SEQUENCE length exceeds input" der ;;
  tl <- slice_from der pos ;;
  ' (c1x, n) <- parse_der_integer tl ;;
  let pos := pos + n in
  guard (negb (len c1x =? 32)) (Sm2Error ("C1x must be 32 bytes, got " +++ dec (len c1x))%string) (
  tl <- slice_from der pos ;;
  ' (c1y, n) <- parse_der_integer tl ;;
  let pos := pos + n in
  guard (negb (len c1y =? 32)) (Sm2Error ("C1y must be 32 bytes, got " +++ dec (len c1y))%string) (
  tl <- slice_from der pos ;;
  ' (c3, n) <- parse_der_octet_string tl ;;
  let pos := pos + n in
  tl <- slice_from der pos ;;
  ' (c2, n) <- parse_der_octet_string tl ;;
  let pos := pos + n in
  guard (negb (pos =? seq_end)) (Sm2Error "extra bytes after SM2Cipher SEQUENCE") (
  Ok (c1x, c1y, c3, c2)))).

Definition sm2_cipher_der_to_raw (der : bytes) : outcome CryptoError bytes :=
  ' (c1x, c1y, c3, c2) <- parse_sm2_cipher_der der ;;
  Ok ([0x04] ++ c1x ++ c1y ++ c3 ++ c2).

Definition starts_with (b : Z) (data : bytes) : bool :=
  match data with x :: _ => x =? b | [] => false end.

Definition sm2_cipher_raw_to_der (raw : bytes) : outcome CryptoError bytes :=
  guard (len raw <? 65 + 32) (Sm2Error "raw ciphertext too short: need at least C1(65) + C3(32)") (
  guard (negb (starts_with 0x04 raw)) (Sm2Error "raw ciphertext must start with 0x04 (uncompressed point)") (
  c1x <- slice raw 1 33 ;;
  c1y <- slice raw 33 65 ;;
  c3 <- slice raw 65 97 ;;
  c2 <- slice_from raw 97 ;;
  let content_len := der_integer_len c1x + der_integer_len c1y + der_octet_string_len c3 + der_octet_string_len c2 in
  Ok ([0x30] ++ der_len content_len ++ der_encode_integer c1x ++ der_encode_integer c1y ++
      der_encode_octet_string c3 ++ der_encode_octet_string c2))).

(** ** The encodings are read back *)

Lemma strip_split v : exists k, v = repeat 0 k ++ strip_leading_zeros v.
Proof.
  induction v as [|b v (k & IH)]; [now exists 0%nat|]. cbn [strip_leading_zeros]. destruct (Z.eqb_spec b 0) as [->|].
  - exists (S k). cbn. now f_equal.
  - now exists 0%nat.
Qed.

Lemma strip_head v b w : strip_leading_zeros v = b :: w -> b <> 0.
Proof.
  induction v as [|x v IH]; [discriminate|]. cbn [strip_leading_zeros].
  destruct (Z.eqb_spec x 0); [exact IH|]. now intros [= <- <-].
Qed.

Lemma strip_head_eq b w : b <> 0 -> strip_leading_zeros (b :: w) = b :: w.
Proof. intros N. cbn. now rewrite (proj2 (Z.eqb_neq _ _) N). Qed.

Lemma strip_pad v : repeat 0 (List.length v - List.length (strip_leading_zeros v)) ++ strip_leading_zeros v = v.
Proof.
  destruct (strip_split v) as (k & E). set (w := strip_leading_zeros v) in *. rewrite E.
  rewrite length_app, repeat_length. do 2 f_equal. lia.
Qed.

Lemma strip_len v : len (strip_leading_zeros v) <= len v.
Proof. destruct (strip_split v) as (k & E). rewrite E at 2. rewrite len_app. pose proof (len_nonneg (repeat 0 k)). lia. Qed.

Lemma der_len_len n : 0 <= n -> len (der_len n) =
  if n <? 0x80 then 1 else if n <? 0x100 then 2 else if n <? 0x10000 then 3 else if n <? 0x1000000 then 4 else 5.
Proof. intros _. unfold der_len. repeat case_cmp; reflexivity || lia. Qed.

Lemma parse_length_encoded n rest : 0 <= n < 2 ^ 32 -> parse_der_length (der_len n ++ rest) = Ok (n, len (der_len n)).
Proof.
  intros B. unfold parse_der_length. rewrite parse_der_len_small by exact B. cbn [map_err bind].
  pose proof (len_nonneg (der_len n)). rewrite usize_sub_ok by len_lia. cbn [bind]. do 2 f_equal. len_lia.
Qed.

Lemma tagged_test (tag : Z) (tl : bytes) : ((len (tag :: tl) =? 0) || negb (nth 0 (tag :: tl) 0 =? tag))%bool = false.
Proof. cbn [nth]. rewrite Z.eqb_refl, orb_false_r. apply Z.eqb_neq. len_lia. Qed.

Lemma parse_header_encoded tag expected truncated c rest : len c < 2 ^ 32 ->
  parse_der_header tag expected truncated (([tag] ++ der_len (len c) ++ c) ++ rest) = Ok (c, 1 + len (der_len (len c)) + len c).
Proof.
  intros B. pose proof (len_nonneg c). pose proof (len_nonneg (der_len (len c))). unfold parse_der_header, guard.
  rewrite <- !app_assoc. cbn [app]. rewrite tagged_test. set (tl := der_len (len c) ++ c ++ rest).
  change (tag :: tl) with ([tag] ++ tl). rewrite slice_from_app by reflexivity. cbn [bind]. unfold tl at 1.
  rewrite parse_length_encoded by lia. cbn [bind]. unfold tl. rewrite (proj2 (Z.ltb_ge _ _)) by (len_lia).
  rewrite (app_assoc [tag]). rewrite slice_app by (rewrite ?len_app; change (len [tag]) with 1; lia). reflexivity.
Qed.

Lemma parse_sequence_encoded expected exceeds c rest : len c < 2 ^ 32 ->
  parse_sequence_header expected exceeds ([0x30] ++ der_len (len c) ++ c ++ rest) =
    Ok (1 + len (der_len (len c)), 1 + len (der_len (len c)) + len c).
Proof.
  intros B. pose proof (len_nonneg c). pose proof (len_nonneg (der_len (len c))). unfold parse_sequence_header, guard.
  cbn [app]. rewrite tagged_test. set (tl := der_len (len c) ++ c ++ rest).
  change (48 :: tl) with ([48] ++ tl). rewrite slice_from_app by reflexivity. cbn [bind]. unfold tl at 1.
  rewrite parse_length_encoded by lia. cbn [bind]. unfold tl. rewrite (proj2 (Z.ltb_ge _ _)) by len_lia. reflexivity.
Qed.

Lemma encode_integer_len v : len v < 0x70 -> len (der_encode_integer v) = der_integer_len v.
Proof.
  intros B. unfold der_encode_integer, der_integer_len. pose proof (strip_len v) as S. destruct (strip_leading_zeros v) as [|b w]; [reflexivity|].
  pose proof (len_nonneg w) as P. rewrite len_cons in S.
  destruct (msb_set b); rewrite !len_app, der_len_len by (rewrite len_cons; lia);
    rewrite (proj2 (Z.ltb_lt _ _)) by (rewrite len_cons; lia); change (len [2]) with 1; change (len [0]) with 1; lia.
Qed.

(** What a 32-byte value is encoded as, read back. *)
Lemma integer_content (v c : bytes) : len v = 32 -> strip_leading_zeros c = strip_leading_zeros v ->
  (strip_leading_zeros v = [] -> c = [0]) ->
  forall rest, len c < 2 ^ 32 -> parse_der_integer (([0x02] ++ der_len (len c) ++ c) ++ rest) = Ok (v, 1 + len (der_len (len c)) + len c).
Proof.
  intros L E0 E1 rest B. unfold parse_der_integer. rewrite parse_header_encoded by exact B. cbn [bind]. rewrite E0.
  pose proof (strip_len v) as S. pose proof (strip_pad v) as Pd.
  assert (Nv : List.length v = 32%nat) by (unfold len in L; lia).
  destruct (strip_leading_zeros v) as [|b w] eqn:Es.
  - rewrite (E1 eq_refl). change (len [] =? 0) with true. cbv iota. rewrite app_nil_r in Pd. rewrite <- Pd, Nv. reflexivity.
  - rewrite (proj2 (Z.eqb_neq _ _)) by len_lia. unfold guard. rewrite (proj2 (Z.ltb_ge _ _)) by lia.
    rewrite usize_sub_ok by lia. cbn [bind]. replace (Z.to_nat (32 - len (b :: w))) with (List.length v - List.length (b :: w))%nat
      by (unfold len; lia). now rewrite Pd.
Qed.

Lemma parse_integer_encoded v rest : len v = 32 -> parse_der_integer (der_encode_integer v ++ rest) = Ok (v, len (der_encode_integer v)).
Proof.
  intros L. pose proof (strip_len v) as S. unfold der_encode_integer. destruct (strip_leading_zeros v) as [|b w] eqn:Es.
  - rewrite (integer_content v [0] L); [reflexivity|now rewrite Es|reflexivity|reflexivity].
  - pose proof (strip_head _ _ _ Es) as N. pose proof (len_nonneg (b :: w)). destruct (msb_set b).
    + replace (len (b :: w) + 1) with (len ([0] ++ b :: w)) by len_lia.
      rewrite (integer_content v ([0] ++ b :: w) L); [| |now rewrite Es|rewrite len_app; change (len [0]) with 1; lia].
      * do 2 f_equal. rewrite !len_app. change (len [2]) with 1. lia.
      * rewrite Es. exact (strip_head_eq b w N).
    + rewrite (integer_content v (b :: w) L); [| |now rewrite Es|lia].
      * do 2 f_equal. rewrite !len_app. change (len [2]) with 1. lia.
      * rewrite Es. now apply strip_head_eq.
Qed.

Lemma parse_octets_encoded c rest : len c < 2 ^ 32 ->
  parse_der_octet_string (der_encode_octet_string c ++ rest) = Ok (c, len (der_encode_octet_string c)).
Proof.
  intros B. unfold parse_der_octet_string, der_encode_octet_string. rewrite parse_header_encoded by exact B.
  do 2 f_equal. rewrite !len_app. change (len [4]) with 1. lia.
Qed.

(** The length of an OCTET STRING is computed right below 64 KiB, and one byte
    short from there on. *)
Lemma octets_len c : len c < 2 ^ 24 -> len (der_encode_octet_string c) = der_octet_string_len c + (if len c <? 0x10000 then 0 else 1).
Proof.
  intros B. pose proof (len_nonneg c). unfold der_encode_octet_string, der_octet_string_len. rewrite !len_app, der_len_len by lia.
  change (len [4]) with 1. repeat case_cmp; lia.
Qed.

Lemma integer_len_bound v : len v = 32 -> 3 <= der_integer_len v <= 35.
Proof.
  intros L. unfold der_integer_len. pose proof (strip_len v) as S. destruct (strip_leading_zeros v) as [|b w]; [lia|].
  rewrite len_cons in *. pose proof (len_nonneg w). destruct (msb_set b); lia.
Qed.

(** ** Parsing is total: no input panics *)

Lemma wf_skipn n (l : bytes) : wf_bytes l = true -> wf_bytes (skipn n l) = true.
Proof. intros W. rewrite <- (firstn_skipn n l), wf_bytes_app, andb_true_iff in W. apply W. Qed.

Lemma slice_from_1 {E A} (x : A) l : slice_from (E:=E) (x :: l) 1 = Ok l.
Proof. exact (slice_from_app [x] l 1 eq_refl). Qed.

Lemma parse_length_sound data : wf_bytes data = true -> no_panic (parse_der_length data) /\
  forall n k, parse_der_length data = Ok (n, k) -> 0 <= n /\ 1 <= k <= len data.
Proof.
  intros W. destruct (parse_der_length_sound data W) as [NP S]. unfold parse_der_length, no_panic in *.
  destruct (Der.parse_der_length data) as [[rest m]|e|]; [|split; discriminate|contradiction]. cbn [map_err bind].
  destruct (S _ _ eq_refl) as (Pm & hdr & -> & Ph). pose proof (len_nonneg rest). rewrite usize_sub_ok by len_lia. cbn [bind].
  split; [discriminate|]. intros n k [= <- <-]. len_lia.
Qed.

Lemma parse_header_sound tag e t data : wf_bytes data = true -> no_panic (parse_der_header tag e t data) /\
  forall c n, parse_der_header tag e t data = Ok (c, n) -> 0 <= n <= len data.
Proof.
  intros W. unfold parse_der_header, guard, no_panic. destruct data as [|b data]; [split; discriminate|].
  destruct (_ || _)%bool; [split; discriminate|]. rewrite slice_from_1.
  cbn [bind]. rewrite wf_bytes_cons in W. apply andb_true_iff in W as [_ W]. destruct (parse_length_sound data W) as [NP S].
  destruct (parse_der_length data) as [[l k]|x|]; [|split; discriminate|now contradiction NP]. cbn [bind].
  destruct (S _ _ eq_refl) as [Pl Pk]. destruct (Z.ltb_spec (len (b :: data)) (1 + k + l)); [split; discriminate|].
  rewrite slice_ok by (len_lia || lia). cbn [bind]. split; [discriminate|]. intros c n E. assert (n = 1 + k + l) by congruence. lia.
Qed.

Lemma parse_integer_sound data : wf_bytes data = true -> no_panic (parse_der_integer data) /\
  forall v n, parse_der_integer data = Ok (v, n) -> len v = 32 /\ 0 <= n <= len data.
Proof.
  intros W. unfold parse_der_integer, guard, no_panic. destruct (parse_header_sound 0x02 "expected INTEGER tag 0x02" "INTEGER content truncated" data W) as [NP S].
  destruct (parse_der_header _ _ _ data) as [[c m]|x|]; [|split; discriminate|now contradiction NP]. cbn [bind].
  specialize (S _ _ eq_refl). set (value := if _ =? 0 then _ else _). pose proof (len_nonneg value).
  destruct (Z.ltb_spec 32 (len value)); [split; discriminate|]. rewrite usize_sub_ok by lia. cbn [bind]. split; [discriminate|].
  intros v n E. assert (v = repeat 0 (Z.to_nat (32 - len value)) ++ value /\ n = m) as [-> ->] by (split; congruence).
  split; [|exact S]. rewrite len_app. unfold len at 1. rewrite repeat_length. lia.
Qed.

Lemma sequence_header_sound e x der : wf_bytes der = true -> no_panic (parse_sequence_header e x der) /\
  forall a b, parse_sequence_header e x der = Ok (a, b) -> 0 <= a <= b /\ b <= len der.
Proof.
  intros W. unfold parse_sequence_header, guard, no_panic. destruct der as [|b0 der]; [split; discriminate|].
  destruct (_ || _)%bool; [split; discriminate|]. rewrite slice_from_1.
  cbn [bind]. rewrite wf_bytes_cons in W. apply andb_true_iff in W as [_ W]. destruct (parse_length_sound der W) as [NP S].
  destruct (parse_der_length der) as [[l k]|m|]; [|split; discriminate|now contradiction NP]. cbn [bind].
  destruct (S _ _ eq_refl) as [Pl Pk]. destruct (Z.ltb_spec (len (b0 :: der)) (1 + k + l)); [split; discriminate|].
  split; [discriminate|]. intros a b E. assert (a = 1 + k /\ b = 1 + k + l) by (split; congruence). lia.
Qed.

(** The tail of [der] at a position the parsers return. *)
Ltac at_pos der W := rewrite slice_from_ok by lia; cbn [bind];
  match goal with |- context [skipn (Z.to_nat ?p) der] => pose proof (wf_skipn (Z.to_nat p) der W); pose proof (len_skipn der p ltac:(lia)) end.

Lemma signature_to_raw_total der : wf_bytes der = true -> no_panic (sm2_signature_der_to_raw der) /\
  forall raw, sm2_signature_der_to_raw der = Ok raw -> len raw = 64.
Proof.
  intros W. unfold sm2_signature_der_to_raw, guard, no_panic.
  destruct (sequence_header_sound "expected SEQUENCE tag 0x30 for signature" "signature SEQUENCE length exceeds input" der W) as [NP S].
  destruct (parse_sequence_header _ _ der) as [[pos fin]|x|]; [|split; discriminate|now contradiction NP]. cbn [bind].
  destruct (S _ _ eq_refl) as [P0 P1]. at_pos der W. destruct (parse_integer_sound _ H) as [NPr Sr].
  destruct (parse_der_integer (skipn _ der)) as [[r n]|x|]; [|split; discriminate|now contradiction NPr]. cbn [bind].
  destruct (Sr _ _ eq_refl) as [Lr Bn]. destruct (negb (len r =? 32)); [split; discriminate|].
  at_pos der W. destruct (parse_integer_sound _ H1) as [NPs Ss].
  destruct (parse_der_integer (skipn _ der)) as [[s m]|x|]; [|split; discriminate|now contradiction NPs]. cbn [bind].
  destruct (Ss _ _ eq_refl) as [Ls Bm]. destruct (negb (len s =? 32)); [split; discriminate|].
  destruct (negb _); [split; discriminate|]. split; [discriminate|]. intros raw [= <-]. rewrite len_app. lia.
Qed.

Lemma cipher_to_raw_total der : wf_bytes der = true -> no_panic (sm2_cipher_der_to_raw der).
Proof.
  intros W. unfold sm2_cipher_der_to_raw, parse_sm2_cipher_der, guard, no_panic.
  destruct (sequence_header_sound "expected SEQUENCE tag 0x30" "SEQUENCE length exceeds input" der W) as [NP S].
  destruct (parse_sequence_header _ _ der) as [[pos fin]|x|]; [|discriminate|now contradiction NP]. cbn [bind].
  destruct (S _ _ eq_refl) as [P0 P1]. at_pos der W. destruct (parse_integer_sound _ H) as [NPr Sr].
  destruct (parse_der_integer (skipn _ der)) as [[c1x n1]|x|]; [|discriminate|now contradiction NPr]. cbn [bind].
  destruct (Sr _ _ eq_refl) as [_ B1]. destruct (negb (len c1x =? 32)); [discriminate|].
  at_pos der W. destruct (parse_integer_sound _ H1) as [NPs Ss].
  destruct (parse_der_integer (skipn _ der)) as [[c1y n2]|x|]; [|discriminate|now contradiction NPs]. cbn [bind].
  destruct (Ss _ _ eq_refl) as [_ B2]. destruct (negb (len c1y =? 32)); [discriminate|].
  at_pos der W. destruct (parse_header_sound 0x04 "expected OCTET STRING tag 0x04" "OCTET STRING content truncated" _ H3) as [NP3 S3].
  unfold parse_der_octet_string at 1. destruct (parse_der_header _ _ _ (skipn _ der)) as [[c3 n3]|x|]; [|discriminate|now contradiction NP3].
  cbn [bind]. specialize (S3 _ _ eq_refl).
  at_pos der W. destruct (parse_header_sound 0x04 "expected OCTET STRING tag 0x04" "OCTET STRING content truncated" _ H5) as [NP4 S4].
  unfold parse_der_octet_string. destruct (parse_der_header _ _ _ (skipn _ der)) as [[c2 n4]|x|]; [|discriminate|now contradiction NP4].
  cbn [bind]. destruct (negb _); discriminate.
Qed.

(** ** Round trips *)

Lemma signature_roundtrip raw : len raw = 64 -> sm2_signature_der_to_raw (sm2_signature_raw_to_der raw) = Ok raw.
Proof.
  intros L. unfold sm2_signature_raw_to_der. set (r := firstn 32 raw). set (s := skipn 32 raw).
  assert (Lr : len r = 32) by (apply (len_firstn raw 32); lia). assert (Ls : len s = 32) by (pose proof (len_skipn raw 32 ltac:(lia)) as X; change (len s = len raw - 32) in X; lia).
  pose proof (integer_len_bound r Lr). pose proof (integer_len_bound s Ls).
  rewrite <- (encode_integer_len r), <- (encode_integer_len s), <- len_app by lia. set (c := der_encode_integer r ++ der_encode_integer s).
  assert (Bc : len c < 2 ^ 32) by (unfold c; rewrite len_app, !encode_integer_len by lia; lia).
  unfold sm2_signature_der_to_raw. pose proof (parse_sequence_encoded "expected SEQUENCE tag 0x30 for signature" "signature SEQUENCE length exceeds input" c [] Bc) as Ph.
  rewrite app_nil_r in Ph. rewrite Ph. cbn [bind]. rewrite app_assoc. set (hd := [48] ++ der_len (len c)). assert (Lh : 1 + len (der_len (len c)) = len hd) by (unfold hd; now rewrite len_app).
  rewrite Lh, slice_from_app by reflexivity. cbn [bind]. unfold c at 1.
  rewrite (parse_integer_encoded r) by exact Lr. cbn [bind]. unfold guard. rewrite Lr. change (negb (32 =? 32)) with false. cbv iota.
  unfold c at 1. rewrite app_assoc, slice_from_app by (now rewrite len_app). cbn [bind].
  rewrite <- (app_nil_r (der_encode_integer s)), (parse_integer_encoded s) by exact Ls. cbn [bind]. rewrite Ls.
  change (negb (32 =? 32)) with false. cbv iota. unfold c. rewrite len_app, <- Z.add_assoc, Z.eqb_refl. cbn [negb].
  unfold r, s. now rewrite firstn_skipn.
Qed.

(** The four parts of a raw ciphertext. *)
Lemma raw_parts raw : 97 <= len raw -> starts_with 0x04 raw = true -> exists c1x c1y c3 c2,
  raw = [0x04] ++ c1x ++ c1y ++ c3 ++ c2 /\ len c1x = 32 /\ len c1y = 32 /\ len c3 = 32.
Proof.
  intros L S. destruct raw as [|b raw]; [discriminate|]. apply Z.eqb_eq in S as ->. rewrite len_cons in L.
  exists (firstn 32 raw), (firstn 32 (skipn 32 raw)), (firstn 32 (skipn 64 raw)), (skipn 96 raw). split.
  - cbn [app]. f_equal. rewrite <- (firstn_skipn 32 raw) at 1. f_equal. rewrite <- (firstn_skipn 32 (skipn 32 raw)) at 1. f_equal.
    rewrite skipn_skipn. rewrite <- (firstn_skipn 32 (skipn (32 + 32) raw)) at 1. f_equal. now rewrite skipn_skipn.
  - unfold len in *. rewrite !length_firstn, !length_skipn. lia.
Qed.

(** The DER ciphertext the encoder writes. *)
Lemma cipher_raw_to_der c1x c1y c3 c2 : len c1x = 32 -> len c1y = 32 -> len c3 = 32 ->
  sm2_cipher_raw_to_der ([0x04] ++ c1x ++ c1y ++ c3 ++ c2) =
    Ok ([0x30] ++ der_len (der_integer_len c1x + der_integer_len c1y + der_octet_string_len c3 + der_octet_string_len c2) ++
        der_encode_integer c1x ++ der_encode_integer c1y ++ der_encode_octet_string c3 ++ der_encode_octet_string c2).
Proof.
  intros Lx Ly L3. pose proof (len_nonneg c2). unfold sm2_cipher_raw_to_der, guard.
  rewrite (proj2 (Z.ltb_ge _ _)) by (rewrite !len_app; change (len [4]) with 1; lia). cbn [starts_with app negb Z.eqb Pos.eqb].
  set (raw := 4 :: c1x ++ c1y ++ c3 ++ c2).
  replace (slice raw 1 33) with (Ok (E:=CryptoError) c1x) by (symmetry; apply (slice_app [4] c1x); [reflexivity|change (len [4]) with 1; lia]). cbn [bind].
  replace (slice raw 33 65) with (Ok (E:=CryptoError) c1y)
    by (symmetry; apply (slice_app ([4] ++ c1x) c1y); rewrite ?len_app; change (len [4]) with 1; lia). cbn [bind].
  replace (slice raw 65 97) with (Ok (E:=CryptoError) c3).
  2: { symmetry. unfold raw. rewrite (app_assoc c1x). apply (slice_app ([4] ++ c1x ++ c1y) c3); rewrite ?len_app; change (len [4]) with 1; lia. }
  cbn [bind]. replace (slice_from raw 97) with (Ok (E:=CryptoError) c2); [reflexivity|].
  symmetry. unfold raw. rewrite (app_assoc c1x), (app_assoc (c1x ++ c1y)). apply (slice_from_app ([4] ++ (c1x ++ c1y) ++ c3) c2).
  rewrite !len_app. change (len [4]) with 1. lia.
Qed.

(** The parser on what the encoder writes, for a stated sequence length [n]. *)
Lemma cipher_parts_read c1x c1y c3 c2 n : len c1x = 32 -> len c1y = 32 -> len c3 = 32 -> len c2 < 2 ^ 24 ->
  let body := der_encode_integer c1x ++ der_encode_integer c1y ++ der_encode_octet_string c3 ++ der_encode_octet_string c2 in
  0 <= n <= len body ->
  sm2_cipher_der_to_raw ([0x30] ++ der_len n ++ body) =
    if n =? len body then Ok ([0x04] ++ c1x ++ c1y ++ c3 ++ c2) else Err (Sm2Error "extra bytes after SM2Cipher SEQUENCE").
Proof.
  intros Lx Ly L3 L2 body B. unfold sm2_cipher_der_to_raw, parse_sm2_cipher_der.
  assert (Bb : len body < 2 ^ 32).
  { unfold body. rewrite !len_app, !encode_integer_len, !octets_len by lia. pose proof (integer_len_bound c1x Lx). pose proof (integer_len_bound c1y Ly).
    unfold der_octet_string_len. rewrite L3. destruct (len c2 <? 65536); repeat case_cmp; lia. }
  set (i1 := der_encode_integer c1x) in *. set (i2 := der_encode_integer c1y) in *. set (o3 := der_encode_octet_string c3) in *. set (o4 := der_encode_octet_string c2) in *.
  set (k := Z.to_nat n). rewrite <- (firstn_skipn k body) at 1. set (c := firstn k body).
  assert (Lc : len c = n) by (unfold c, k; apply len_firstn; lia). rewrite <- Lc at 1.
  rewrite parse_sequence_encoded by lia. cbn [bind]. rewrite Lc, app_assoc.
  set (hd := [48] ++ der_len n). assert (Lh : 1 + len (der_len n) = len hd) by (unfold hd; now rewrite len_app). rewrite Lh.
  rewrite slice_from_app by reflexivity. cbn [bind]. unfold body at 1. unfold i1 at 1. rewrite (parse_integer_encoded c1x) by exact Lx. fold i1. cbn [bind].
  unfold guard. rewrite Lx. change (negb (32 =? 32)) with false. cbv iota.
  unfold body. rewrite (app_assoc hd). rewrite slice_from_app by (now rewrite len_app). cbn [bind].
  unfold i2 at 1. rewrite (parse_integer_encoded c1y) by exact Ly. fold i2. cbn [bind]. rewrite Ly. change (negb (32 =? 32)) with false. cbv iota.
  rewrite (app_assoc (hd ++ i1)). rewrite slice_from_app by (rewrite !len_app; lia). cbn [bind].
  unfold o3 at 1. rewrite (parse_octets_encoded c3) by lia. fold o3. cbn [bind].
  rewrite (app_assoc ((hd ++ i1) ++ i2)). rewrite slice_from_app by (rewrite !len_app; lia). cbn [bind].
  unfold o4 at 1. rewrite <- (app_nil_r (der_encode_octet_string c2)) at 1. rewrite (parse_octets_encoded c2) by lia. fold o4. cbn [bind].
  rewrite !len_app. destruct (Z.eqb_spec n (len i1 + (len i2 + (len o3 + len o4)))) as [->|N].
  - rewrite (proj2 (Z.eqb_eq _ _)) by lia. reflexivity.
  - rewrite (proj2 (Z.eqb_neq _ _)) by lia. reflexivity.
Qed.

Lemma cipher_der_roundtrip raw : 97 <= len raw -> starts_with 0x04 raw = true -> len raw < 97 + 2 ^ 24 -> exists der,
  sm2_cipher_raw_to_der raw = Ok der /\ starts_with 0x30 der = true /\
  sm2_cipher_der_to_raw der = if len raw <? 97 + 0x10000 then Ok raw else Err (Sm2Error "extra bytes after SM2Cipher SEQUENCE").
Proof.
  intros L S B. destruct (raw_parts raw L S) as (c1x & c1y & c3 & c2 & -> & Lx & Ly & L3).
  assert (L2 : len ([4] ++ c1x ++ c1y ++ c3 ++ c2) = 97 + len c2) by (rewrite !len_app; change (len [4]) with 1; lia). rewrite L2 in *.
  pose proof (len_nonneg c2). rewrite cipher_raw_to_der by assumption. eexists. split; [reflexivity|]. split; [reflexivity|].
  pose proof (octets_len c3 ltac:(lia)) as O3. pose proof (octets_len c2 ltac:(lia)) as O2. rewrite (proj2 (Z.ltb_lt _ _)) in O3 by lia.
  set (n := der_integer_len c1x + _ + _ + _).
  assert (En : n + (if len c2 <? 65536 then 0 else 1) = len (der_encode_integer c1x ++ der_encode_integer c1y ++ der_encode_octet_string c3 ++ der_encode_octet_string c2)).
  { unfold n. rewrite !len_app, !encode_integer_len, O3, O2 by lia. lia. }
  assert (Pn : 0 <= n) by (unfold n, der_octet_string_len; pose proof (integer_len_bound c1x Lx); pose proof (integer_len_bound c1y Ly); rewrite L3; repeat case_cmp; lia).
  rewrite cipher_parts_read by (try assumption; destruct (len c2 <? 65536); lia). rewrite <- En.
  replace (97 + len c2 <? 97 + 65536) with (len c2 <? 65536) by (apply eq_true_iff_eq; rewrite !Z.ltb_lt; lia).
  destruct (len c2 <? 65536); [rewrite (proj2 (Z.eqb_eq _ _)) by lia; reflexivity|rewrite (proj2 (Z.eqb_neq _ _)) by lia; reflexivity].
Qed.

(** ** The curve and the signature scheme *)

(** What the code uses of the crates sm2 and elliptic-curve; errors are their
    texts. [sec1_error] is the error of [EncodedPoint::from_bytes], and
    [decode_point] the point of an accepted encoding, if there is one. *)
Class Sm2Crate : Type := {
  Point : Type;
  Scalar : Type;
  SecretKey : Type;
  SigningKey : Type;
  VerifyingKey : Type;
  Signature : Type;
  generator : Point;
  pmul : Point -> Scalar -> Point;
  is_identity : Point -> bool;
  encode_point : bool -> Point -> bytes;
  point_x : Point -> option bytes;
  point_y : Point -> option bytes;
  sec1_error : bytes -> option string;
  decode_point : bytes -> option Point;
  public_from_sec1 : bytes -> outcome string Point;
  public_from_encoded : bytes -> option Point;
  secret_from_bytes : bytes -> outcome string SecretKey;
  secret_bytes : SecretKey -> bytes;
  nonzero_scalar : SecretKey -> Scalar;
  scalar_from_bytes : bytes -> option Scalar;
  from_secret_scalar : Scalar -> Point;
  signing_key_new : string -> SecretKey -> outcome string SigningKey;
  try_sign : SigningKey -> bytes -> Signature;
  try_sign_with_rng : SigningKey -> bytes -> bytes -> outcome string Signature;
  verifying_key : SigningKey -> VerifyingKey;
  verifying_key_from_sec1 : string -> bytes -> outcome string VerifyingKey;
  verify_error : VerifyingKey -> bytes -> Signature -> option string;
  signature_bytes : Signature -> bytes;
  signature_from_bytes : bytes -> outcome string Signature
}.

(** The documented behaviour the code relies on. *)
Class Sm2Laws (C : Sm2Crate) : Prop := {
  decode_encode c P : sec1_error (encode_point c P) = None /\ decode_point (encode_point c P) = Some P;
  encode_shape P : is_identity P = false -> exists x y, point_x P = Some x /\ point_y P = Some y /\
    encode_point false P = [0x04] ++ x ++ y /\ len x = 32 /\ len y = 32 /\ wf_bytes (x ++ y) = true;
  encode_identity P c : is_identity P = true -> encode_point c P = [0];
  mul_comm a b : pmul (pmul generator a) b = pmul (pmul generator b) a;
  public_key_mul a : from_secret_scalar a = pmul generator a;
  public_sec1 c P : is_identity P = false -> public_from_sec1 (encode_point c P) = Ok P;
  public_encoded c P : is_identity P = false -> public_from_encoded (encode_point c P) = Some P;
  secret_scalar k : scalar_from_bytes (secret_bytes k) = Some (nonzero_scalar k);
  nonzero_public k : is_identity (from_secret_scalar (nonzero_scalar k)) = false;
  signing_keys id k : exists sk, signing_key_new id k = Ok sk /\
    verifying_key_from_sec1 id (encode_point false (from_secret_scalar (nonzero_scalar k))) = Ok (verifying_key sk);
  sign_verifies sk m : verify_error (verifying_key sk) m (try_sign sk m) = None;
  signature_parsed s : signature_from_bytes (signature_bytes s) = Ok s /\ len (signature_bytes s) = 64;
  verifying_key_total id b : no_panic (verifying_key_from_sec1 id b)
}.

Section Sm2.
Context {H : Sm3Crate} {C : Sm2Crate}.

Definition GM_TLS_DEFAULT_ID : string := "1234567812345678".
Definition SM2_MAX_PLAINTEXT_LEN : Z := 64 * 1024.
Definition SM2_CIPHER_VERSIONED_HEADER : bytes := [0x53; 0x4D].
Definition SM2_CIPHER_VERSION_1 : Z := 0x01.
Definition SM2_CIPHER_FORMAT_RAW : Z := 0x00.
Definition SM2_CIPHER_FORMAT_DER : Z := 0x01.
Definition SM2_VERSIONED_HEADER_LEN : Z := 4.

Record Sm2KeyPair : Type := { private_key : SecretKey; public_key : Point; distid : string }.

Definition sm2_map {A : Type} (what : string) (o : outcome string A) : outcome CryptoError A :=
  map_err (fun e => Sm2Error (what +++ e)%string) o.
Definition some_or_sm2 {A : Type} (o : option A) (m : string) : outcome CryptoError A :=
  match o with Some a => Ok a | None => Err (Sm2Error m) end.

(** [generate_with_distid], with the secret key drawn. *)
Definition generate_with_distid (sk : SecretKey) (id : string) : Sm2KeyPair :=
  {| private_key := sk; public_key := from_secret_scalar (nonzero_scalar sk); distid := id |}.
Definition generate (sk : SecretKey) : Sm2KeyPair := generate_with_distid sk "1234567812345678".

Definition from_private_key_with_distid (b : bytes) (id : string) : outcome CryptoError Sm2KeyPair :=
  sk <- sm2_map "invalid private key: " (secret_from_bytes b) ;;
  Ok {| private_key := sk; public_key := from_secret_scalar (nonzero_scalar sk); distid := id |}.
Definition from_private_key (b : bytes) : outcome CryptoError Sm2KeyPair :=
  from_private_key_with_distid b "1234567812345678".

Definition public_key_bytes (k : Sm2KeyPair) : bytes := encode_point true (public_key k).
Definition public_key_bytes_uncompressed (k : Sm2KeyPair) : bytes := encode_point false (public_key k).

(** ** Signatures *)

Definition signer_new_with_distid (k : Sm2KeyPair) (id : string) : outcome CryptoError SigningKey :=
  sm2_map "failed to create signing key: " (signing_key_new id (private_key k)).
Definition signer_new (k : Sm2KeyPair) : outcome CryptoError SigningKey := signer_new_with_distid k (distid k).

(** Sign-then-verify. *)
Definition checked (sk : SigningKey) (data : bytes) (what : string) (s : Signature) : outcome CryptoError bytes :=
  match verify_error (verifying_key sk) data s with
  | Some _ => Err (Sm2Error what)
  | None => Ok (signature_bytes s)
  end.

Definition sign (sk : SigningKey) (data : bytes) : outcome CryptoError bytes :=
  checked sk data ("Sign-then-verify check failed " +++ em_dash +++ " possible fault injection")%string (try_sign sk data).
Definition deterministic_sign (sk : SigningKey) (data : bytes) : outcome CryptoError bytes :=
  checked sk data ("Deterministic sign-then-verify check failed " +++ em_dash +++ " possible fault injection")%string (try_sign sk data).
(** [rng] is what the generator yields. *)
Definition randomized_sign (sk : SigningKey) (data rng : bytes) : outcome CryptoError bytes :=
  s <- sm2_map "randomized sign failed: " (try_sign_with_rng sk data rng) ;;
  checked sk data ("Randomized sign-then-verify check failed " +++ em_dash +++ " possible fault injection")%string s.

Definition Sm2Verifier_new (public : bytes) (id : string) : outcome CryptoError VerifyingKey :=
  sm2_map "invalid public key: " (verifying_key_from_sec1 id public).

Definition Sm2Verifier_verify (vk : VerifyingKey) (data signature : bytes) : outcome CryptoError unit :=
  guard (negb (len signature =? 64))
    (Sm2Error ("signature length error: expected 64 bytes, got " +++ dec (len signature) +++ " bytes")%string) (
  sig <- sm2_map "invalid signature format: " (signature_from_bytes signature) ;;
  match verify_error vk data sig with
  | Some e => Err (Sm2Error ("signature verification failed: " +++ e)%string)
  | None => Ok tt
  end).

(** ** Key derivation *)

Definition point_xy_bytes (P : Point) : outcome CryptoError (bytes * bytes) :=
  x <- some_or_sm2 (point_x P) "X coordinate missing" ;;
  y <- some_or_sm2 (point_y P) "Y coordinate missing" ;;
  Ok (x, y).

(** [while key.len() < key_len]: a turn adds a block of 32 bytes, or the rest. *)
Fixpoint kdf_loop (fuel : nat) (x y : bytes) (key_len ct : Z) (key : bytes) : option (outcome CryptoError bytes) :=
  match fuel with
  | O => None
  | S fuel =>
      if len key <? key_len then
        if ct =? 0 then Some (Err (Sm2Error "KDF key length exceeds maximum (128GB)"))
        else
          match Sm3Hasher_hash (x ++ y ++ be_bytes 4 ct) with
          | Ok block =>
              let remain := key_len - len key in
              let key := key ++ (if len block <=? remain then block else firstn (Z.to_nat remain) block) in
              kdf_loop fuel x y key_len (as_u32 (ct + 1)) key
          | Err e => Some (Err e)
          | Panic => Some Panic
          end
      else Some (Ok key)
  end.

(** One turn per 32 bytes and a last test; [None], out of fuel, does not happen
    for digests of 32 bytes. *)
Definition kdf_sm3 (x y : bytes) (key_len : Z) : outcome CryptoError bytes :=
  match kdf_loop (S (Z.to_nat ((key_len + 31) / 32))) x y key_len 1 [] with Some o => o | None => Panic end.

Definition sm3_hash_concat (x m y : bytes) : outcome CryptoError bytes := Sm3Hasher_hash (x ++ m ++ y).

(** ** Encryption *)

Definition Sm2Encryptor_new (public : bytes) : outcome CryptoError Point := sm2_map "invalid public key: " (public_from_sec1 public).

(** [k] is the scalar drawn. *)
Definition encrypt (P : Point) (k : Scalar) (data : bytes) : outcome CryptoError bytes :=
  guard (SM2_MAX_PLAINTEXT_LEN <? len data)
    (Sm2Error ("plaintext too large: " +++ dec (len data) +++ " bytes (max " +++ dec SM2_MAX_PLAINTEXT_LEN +++ ")")%string) (
  let c1_bytes := encode_point false (pmul generator k) in
  p_pub <- some_or_sm2 (decode_point (encode_point false P)) "public key point parse failed" ;;
  ' (x2, y2) <- point_xy_bytes (pmul p_pub k) ;;
  key_stream <- kdf_sm3 x2 y2 (len data) ;;
  let c2 := xor_bytes data key_stream in
  c3 <- sm3_hash_concat x2 data y2 ;;
  Ok (c1_bytes ++ c3 ++ c2)).

Definition encrypt_der (P : Point) (k : Scalar) (data : bytes) : outcome CryptoError bytes :=
  raw <- encrypt P k data ;; sm2_cipher_raw_to_der raw.

Definition encrypt_versioned (P : Point) (k : Scalar) (data : bytes) : outcome CryptoError bytes :=
  raw <- encrypt P k data ;;
  Ok (SM2_CIPHER_VERSIONED_HEADER ++ [SM2_CIPHER_VERSION_1] ++ [SM2_CIPHER_FORMAT_RAW] ++ raw).
Definition encrypt_versioned_der (P : Point) (k : Scalar) (data : bytes) : outcome CryptoError bytes :=
  der <- encrypt_der P k data ;;
  Ok (SM2_CIPHER_VERSIONED_HEADER ++ [SM2_CIPHER_VERSION_1] ++ [SM2_CIPHER_FORMAT_DER] ++ der).

Definition decrypt_raw (kp : Sm2KeyPair) (data : bytes) : outcome CryptoError bytes :=
  guard (len data <? 65 + 32) (Sm2Error "ciphertext length insufficient") (
  guard (negb (starts_with 0x04 data)) (Sm2Error "raw ciphertext must start with 0x04") (
  c1_bytes <- slice_to data 65 ;;
  c3 <- slice data 65 97 ;;
  c2 <- slice_from data 97 ;;
  match sec1_error c1_bytes with
  | Some e => Err (Sm2Error ("C1 parse failed: " +++ e)%string)
  | None =>
      c1_point <- some_or_sm2 (decode_point c1_bytes) "C1 is not on the SM2 curve" ;;
      guard (is_identity c1_point) (Sm2Error "C1 is the identity point (point at infinity)") (
      d <- some_or_sm2 (scalar_from_bytes (secret_bytes (private_key kp))) "private key conversion failed" ;;
      ' (x2, y2) <- point_xy_bytes (pmul c1_point d) ;;
      key_stream <- kdf_sm3 x2 y2 (len c2) ;;
      let m := xor_bytes c2 key_stream in
      c3_calc <- sm3_hash_concat x2 m y2 ;;
      guard (negb (bytes_eqb c3_calc c3)) (Sm2Error "C3 verification failed, ciphertext has been tampered with") (
      Ok m))
  end)).

Definition decrypt (kp : Sm2KeyPair) (data : bytes) : outcome CryptoError bytes :=
  if (SM2_VERSIONED_HEADER_LEN <=? len data) && bytes_eqb (firstn 2 data) SM2_CIPHER_VERSIONED_HEADER then
    format <- index data 3 ;;
    payload <- slice_from data SM2_VERSIONED_HEADER_LEN ;;
    if format =? SM2_CIPHER_FORMAT_RAW then decrypt_raw kp payload
    else if format =? SM2_CIPHER_FORMAT_DER then raw <- sm2_cipher_der_to_raw payload ;; decrypt_raw kp raw
    else Err (Sm2Error ("unknown SM2 ciphertext format type: 0x" +++ hex02 format)%string)
  else if starts_with 0x30 data then raw <- sm2_cipher_der_to_raw data ;; decrypt_raw kp raw
  else if starts_with 0x04 data then decrypt_raw kp data
  else Err (Sm2Error "ciphertext must start with 0x534D (versioned), 0x30 (DER), or 0x04 (raw C1||C3||C2)").

(** ** Public keys and Diffie-Hellman *)

Definition decompress_sm2_pubkey (sec1 : bytes) : outcome CryptoError bytes :=
  match sec1_error sec1 with
  | Some e => Err (Sm2Error ("invalid SEC1 public key format: " +++ e)%string)
  | None =>
      P <- some_or_sm2 (decode_point sec1) "invalid SM2 public key point" ;;
      Ok (encode_point false P)
  end.

Definition parse_sm2_public_key (b : bytes) : outcome CryptoError Point :=
  match sec1_error b with
  | Some e => Err (Sm2Error ("invalid SM2 public key encoding: " +++ e)%string)
  | None => some_or_sm2 (public_from_encoded b) "SM2 public key decoding failed"
  end.

Definition shared_x (what : string) (P : Point) : outcome CryptoError bytes :=
  guard (is_identity P) (Sm2Error what) (some_or_sm2 (point_x P) "shared point X coordinate missing").

Definition compute_shared_secret (scalar : Scalar) (peer : bytes) : outcome CryptoError bytes :=
  P <- parse_sm2_public_key peer ;;
  shared_x "ECDH shared point is the identity (invalid peer key)" (pmul P scalar).

Definition sm2_ecdh (sk : SecretKey) (peer : bytes) : outcome CryptoError bytes :=
  P <- parse_sm2_public_key peer ;;
  shared_x "ECDH shared point is the identity" (pmul P (nonzero_scalar sk)).
End Sm2.

(** ** Key derivation against its definition *)

Section Lemmas.
Context {H : Sm3Crate} {LH : Sm3Laws H} {C : Sm2Crate} {LC : Sm2Laws C}.

(** The blocks [SM3(x || y || i)] for [m] counters from [j] on, and the first
    [n] bytes of those from 1 on (GM/T 0003.4, 5.4.3). *)
Definition kdf_blocks (x y : bytes) (j m : nat) : bytes :=
  List.concat (map (fun i => sm3 (x ++ y ++ be_bytes 4 (Z.of_nat i))) (seq j m)).
Definition kdf_ref (x y : bytes) (n : Z) : bytes := firstn (Z.to_nat n) (kdf_blocks x y 1 (Z.to_nat ((n + 31) / 32))).

Lemma kdf_blocks_len x y j m : List.length (kdf_blocks x y j m) = (32 * m)%nat.
Proof.
  revert j. induction m as [|m IH]; intros j; [reflexivity|]. unfold kdf_blocks in *. cbn [seq map List.concat].
  rewrite length_app, IH, (proj2 (sm3_digest _)). lia.
Qed.

Lemma kdf_loop_ok x y n : 0 <= n <= 2 ^ 36 -> forall m j key fuel, (m < fuel)%nat ->
  Z.of_nat (j + m) = (n + 31) / 32 -> len key = Z.min (32 * Z.of_nat j) n ->
  kdf_loop fuel x y n (Z.of_nat (S j)) key = Some (Ok (key ++ firstn (Z.to_nat (n - len key)) (kdf_blocks x y (S j) m))).
Proof.
  intros B. pose proof (Z.div_mod (n + 31) 32 ltac:(lia)) as Dv. pose proof (Z.mod_pos_bound (n + 31) 32 ltac:(lia)) as Md.
  induction m as [|m IH]; intros j key [|fuel] F E L; try lia; cbn [kdf_loop].
  - rewrite (proj2 (Z.ltb_ge _ _)) by lia. cbn. now rewrite firstn_nil, app_nil_r.
  - rewrite (proj2 (Z.ltb_lt _ _)) by lia. rewrite (proj2 (Z.eqb_neq _ _)) by lia. unfold Sm3Hasher_hash.
    set (block := sm3 _). assert (Lb : len block = 32) by (unfold len, block; now rewrite (proj2 (sm3_digest _))).
    replace (as_u32 (Z.of_nat (S j) + 1)) with (Z.of_nat (S (S j))) by (unfold as_u32; rewrite Z.mod_small; lia).
    set (key' := key ++ _). assert (Ek : key' = key ++ firstn (Z.to_nat (n - len key)) block).
    { unfold key'. rewrite Lb. destruct (Z.leb_spec 32 (n - len key)); [|reflexivity]. rewrite firstn_all2; [reflexivity|unfold len in *; lia]. }
    assert (Lk : len key' = Z.min (32 * Z.of_nat (S j)) n).
    { rewrite Ek, len_app. unfold len at 2. rewrite length_firstn. unfold len in *. lia. }
    rewrite (IH (S j) key' fuel) by lia. rewrite Ek, <- app_assoc. do 3 f_equal. unfold kdf_blocks at 2. cbn [seq map List.concat].
    fold (kdf_blocks x y (S (S j)) m). fold block. rewrite firstn_app. f_equal. f_equal.
    rewrite len_app. unfold len at 2. rewrite length_firstn. unfold len in *. lia.
Qed.

Lemma kdf_ok x y n : 0 <= n <= 2 ^ 36 -> kdf_sm3 x y n = Ok (kdf_ref x y n) /\ len (kdf_ref x y n) = n.
Proof.
  intros B. pose proof (Z.div_mod (n + 31) 32 ltac:(lia)) as Dv. pose proof (Z.mod_pos_bound (n + 31) 32 ltac:(lia)) as Md. split.
  - unfold kdf_sm3. change 1 with (Z.of_nat 1). rewrite (kdf_loop_ok x y n B (Z.to_nat ((n + 31) / 32)) 0 []) by (try lia; rewrite len_nil; lia).
    cbn [app]. rewrite len_nil, Z.sub_0_r. reflexivity.
  - unfold kdf_ref, len. rewrite length_firstn, kdf_blocks_len. lia.
Qed.

(** ** Encryption *)

(** [c] is the ciphertext of [m] under the shared point [S] behind the first part [c1]. *)
Definition sealed (S : Point) (c1 c m : bytes) : Prop := exists x y, point_x S = Some x /\ point_y S = Some y /\
  c = c1 ++ sm3 (x ++ m ++ y) ++ xor_bytes m (kdf_ref x y (len m)).

Lemma xy_ok S : is_identity S = false -> exists x y, point_x S = Some x /\ point_y S = Some y /\ point_xy_bytes S = Ok (x, y).
Proof.
  intros N. destruct (encode_shape S N) as (x & y & Ex & Ey & _). exists x, y. unfold point_xy_bytes. now rewrite Ex, Ey.
Qed.

Lemma encrypt_ok (sk : SecretKey) k data : is_identity (pmul (public_key (generate sk)) k) = false -> len data <= SM2_MAX_PLAINTEXT_LEN ->
  exists c, encrypt (public_key (generate sk)) k data = Ok c /\
    sealed (pmul (public_key (generate sk)) k) (encode_point false (pmul generator k)) c data.
Proof.
  intros N B. unfold SM2_MAX_PLAINTEXT_LEN in B. pose proof (len_nonneg data). set (P := public_key (generate sk)) in *.
  destruct (xy_ok _ N) as (x & y & Ex & Ey & Exy). unfold encrypt, guard, SM2_MAX_PLAINTEXT_LEN.
  rewrite (proj2 (Z.ltb_ge _ _)) by lia. rewrite (proj2 (decode_encode false P)). cbn [some_or_sm2 bind]. rewrite Exy. cbn [bind].
  destruct (kdf_ok x y (len data)) as [Ek _]; [lia|]. rewrite Ek. unfold sm3_hash_concat, Sm3Hasher_hash. cbn [bind].
  eexists. split; [reflexivity|]. now exists x, y.
Qed.

Lemma sealed_len S c m : is_identity S = false -> forall k, is_identity (pmul generator k) = false ->
  sealed S (encode_point false (pmul generator k)) c m -> len m <= 2 ^ 36 -> len c = 97 + len m /\ starts_with 0x04 c = true.
Proof.
  intros N k Nk (x & y & _ & _ & ->) B. destruct (encode_shape _ Nk) as (u & v & _ & _ & -> & Lu & Lv & _).
  destruct (kdf_ok x y (len m)) as [_ Lk]; [pose proof (len_nonneg m); lia|]. split; [|reflexivity].
  rewrite !len_app, len_xor, Lk. unfold len at 4. rewrite (proj2 (sm3_digest _)). change (len [4]) with 1. lia.
Qed.

(** Decryption on the three parts of a ciphertext. *)
Lemma decrypt_raw_parts (sk : SecretKey) k x y c3 c2 : is_identity (pmul generator k) = false ->
  let S := pmul (public_key (generate sk)) k in point_x S = Some x -> point_y S = Some y -> len c3 = 32 -> len c2 <= 2 ^ 36 ->
  decrypt_raw (generate sk) (encode_point false (pmul generator k) ++ c3 ++ c2) =
    let m := xor_bytes c2 (kdf_ref x y (len c2)) in
    if bytes_eqb (sm3 (x ++ m ++ y)) c3 then Ok m else Err (Sm2Error "C3 verification failed, ciphertext has been tampered with").
Proof.
  intros Nk S Ex Ey L3 B. set (c1 := encode_point false (pmul generator k)).
  assert (Es : S = pmul (pmul generator k) (nonzero_scalar sk)) by (rewrite mul_comm, <- public_key_mul; reflexivity).
  destruct (encode_shape _ Nk) as (u & v & _ & _ & Ec & Lu & Lv & _). fold c1 in Ec. pose proof (len_nonneg c2).
  assert (Lc1 : len c1 = 65) by (rewrite Ec, !len_app; change (len [4]) with 1; lia).
  assert (Sw : starts_with 0x04 (c1 ++ c3 ++ c2) = true) by (now rewrite Ec).
  unfold decrypt_raw, guard. rewrite (proj2 (Z.ltb_ge _ _)) by (rewrite !len_app; lia). rewrite Sw. cbn [negb].
  rewrite slice_to_app by lia. cbn [bind]. rewrite slice_app by lia. cbn [bind]. rewrite app_assoc, slice_from_app by (rewrite len_app; lia). cbn [bind].
  unfold c1. destruct (decode_encode false (pmul generator k)) as [-> ->]. cbn [some_or_sm2 bind]. rewrite Nk, secret_scalar. cbn [some_or_sm2 bind].
  cbn [private_key generate generate_with_distid]. rewrite <- Es. unfold point_xy_bytes. rewrite Ex, Ey. cbn [some_or_sm2 bind].
  destruct (kdf_ok x y (len c2)) as [-> _]; [lia|]. unfold sm3_hash_concat, Sm3Hasher_hash. cbn [bind]. cbv zeta. now destruct (bytes_eqb _ _).
Qed.

(** Decryption returns [m] exactly from what encryption would make of it. *)
Lemma decrypt_raw_iff (sk : SecretKey) k c m : is_identity (pmul generator k) = false ->
  is_identity (pmul (public_key (generate sk)) k) = false -> len c <= 2 ^ 36 -> len m <= 2 ^ 36 ->
  firstn 65 c = encode_point false (pmul generator k) ->
  decrypt_raw (generate sk) c = Ok m <-> sealed (pmul (public_key (generate sk)) k) (encode_point false (pmul generator k)) c m.
Proof.
  intros Nk N B Bm F. set (c1 := encode_point false (pmul generator k)) in *. set (S := pmul (public_key (generate sk)) k) in *.
  destruct (xy_ok S N) as (x & y & Ex & Ey & _). pose proof (len_nonneg m) as Pm. split.
  - intros D. assert (L : 97 <= len c) by (unfold decrypt_raw, guard in D; destruct (Z.ltb_spec (len c) (65 + 32)); [discriminate|lia]).
    set (c' := skipn 65 c). set (c3 := firstn 32 c'). set (c2 := skipn 32 c'). assert (L' : len c' = len c - 65) by (apply (len_skipn c 65); lia).
    assert (Sp : c = c1 ++ c3 ++ c2) by (unfold c3, c2; rewrite firstn_skipn, <- F; symmetry; apply firstn_skipn).
    assert (L3 : len c3 = 32) by (apply (len_firstn c' 32); lia).
    assert (B2 : len c2 <= 2 ^ 36) by (apply (f_equal len) in Sp; rewrite !len_app in Sp; pose proof (len_nonneg c1); lia).
    rewrite Sp in D. unfold c1 in D. rewrite (decrypt_raw_parts sk k x y c3 c2 Nk Ex Ey L3 B2) in D. cbv zeta in D.
    destruct (bytes_eqb _ c3) eqn:Eq; [|discriminate]. apply bytes_eqb_eq in Eq. injection D as D. rewrite D in Eq.
    destruct (kdf_ok x y (len c2)) as [_ Lk]; [pose proof (len_nonneg c2); lia|].
    assert (Lm : len m = len c2) by (rewrite <- D, len_xor; lia).
    exists x, y. split; [exact Ex|]. split; [exact Ey|]. rewrite Sp, <- Eq, Lm. do 2 f_equal. rewrite <- D. symmetry. apply xor_cancel. unfold len in *. lia.
  - intros (x' & y' & Ex' & Ey' & ->). rewrite Ex in Ex'. rewrite Ey in Ey'. injection Ex' as <-. injection Ey' as <-.
    destruct (kdf_ok x y (len m)) as [_ Lk]; [lia|]. set (c2 := xor_bytes m _). assert (L2 : len c2 = len m) by (unfold c2; rewrite len_xor; lia).
    unfold c1. rewrite (decrypt_raw_parts sk k x y) by (try assumption; try lia; unfold len; now rewrite (proj2 (sm3_digest _))).
    rewrite L2. assert (Em : xor_bytes c2 (kdf_ref x y (len m)) = m) by (apply xor_cancel; unfold len in *; lia). cbv zeta. rewrite Em. now rewrite bytes_eqb_refl.
Qed.

Lemma decrypt_versioned kp f payload : decrypt kp (SM2_CIPHER_VERSIONED_HEADER ++ [SM2_CIPHER_VERSION_1] ++ [f] ++ payload) =
  if f =? SM2_CIPHER_FORMAT_RAW then decrypt_raw kp payload
  else if f =? SM2_CIPHER_FORMAT_DER then (raw <- sm2_cipher_der_to_raw payload ;; decrypt_raw kp raw)
  else Err (Sm2Error ("unknown SM2 ciphertext format type: 0x" +++ hex02 f)%string).
Proof.
  unfold decrypt. cbn [app firstn SM2_CIPHER_VERSIONED_HEADER]. rewrite (proj2 (Z.leb_le _ _)) by (unfold SM2_VERSIONED_HEADER_LEN; len_lia).
  rewrite bytes_eqb_refl. cbn [andb]. change (index _ 3) with (Ok (E:=CryptoError) f). cbn [bind].
  rewrite (slice_from_app [0x53; 0x4D; SM2_CIPHER_VERSION_1; f] payload) by reflexivity. reflexivity.
Qed.

Lemma decrypt_legacy kp data :
  (starts_with 0x04 data = true -> decrypt kp data = decrypt_raw kp data) /\
  (starts_with 0x30 data = true -> decrypt kp data = (raw <- sm2_cipher_der_to_raw data ;; decrypt_raw kp raw)).
Proof.
  assert (V : forall b l, b <> 0x53 -> bytes_eqb (firstn 2 (b :: l)) SM2_CIPHER_VERSIONED_HEADER = false).
  { intros b l Nb. apply bytes_eqb_neq. intros X. apply Nb. destruct l; inversion X; reflexivity. }
  destruct data as [|b l]; [split; discriminate|]. cbn [starts_with].
  split; intros ->%Z.eqb_eq; unfold decrypt; rewrite V, andb_false_r by lia; reflexivity.
Qed.

(** C13. SM2 encryption is undone by decryption, whose four formats are told apart:
    what [encrypt] and [encrypt_versioned] make of up to 64 KiB decrypts to the
    plaintext, and so does what the DER variants make of less than 64 KiB. At
    exactly 64 KiB, which the length check admits, the DER variants write a
    sequence whose length field is one byte short, and decryption refuses it;
    above, all refuse to encrypt. Decryption of a raw ciphertext with first part
    [k G] returns [m] only from what encryption of [m] with [k] gives: the key
    stream is the one of the KDF of the shared point, and the hash matches. *)
Theorem sm2_encryption_roundtrip (sk : SecretKey) (k : Scalar) (data : bytes) :
  is_identity (pmul generator k) = false -> is_identity (pmul (public_key (generate sk)) k) = false ->
  let kp := generate sk in let P := public_key kp in
  let short := if len data <? 0x10000 then Ok data else Err (Sm2Error "extra bytes after SM2Cipher SEQUENCE") in
  (len data <= 0x10000 ->
     (exists c, encrypt P k data = Ok c /\ decrypt kp c = Ok data) /\
     (exists c, encrypt_versioned P k data = Ok c /\ decrypt kp c = Ok data) /\
     (exists c, encrypt_der P k data = Ok c /\ decrypt kp c = short) /\
     (exists c, encrypt_versioned_der P k data = Ok c /\ decrypt kp c = short)) /\
  (0x10000 < len data -> exists e, encrypt P k data = Err e /\ encrypt_versioned P k data = Err e /\ encrypt_der P k data = Err e /\
     encrypt_versioned_der P k data = Err e) /\
  (forall c, len c <= 2 ^ 36 -> len data <= 2 ^ 36 -> firstn 65 c = encode_point false (pmul generator k) ->
     decrypt_raw kp c = Ok data <-> sealed (pmul P k) (encode_point false (pmul generator k)) c data).
Proof.
  intros Nk N kp P short. split; [|split; [|intros c B Bm F; now apply decrypt_raw_iff]].
  - intros B. destruct (encrypt_ok sk k data N B) as (c & E & Se). destruct (sealed_len _ c data N k Nk Se) as [Lc Sw]; [lia|].
    pose proof (len_nonneg data). assert (F : firstn 65 c = encode_point false (pmul generator k)).
    { destruct Se as (x & y & _ & _ & ->). apply firstn_exact. destruct (encode_shape _ Nk) as (u & v & _ & _ & -> & Lu & Lv & _).
      rewrite !length_app. unfold len in Lu, Lv. cbn [List.length]. lia. }
    assert (D : decrypt_raw kp c = Ok data) by (apply (decrypt_raw_iff sk k); try assumption; lia).
    destruct (cipher_der_roundtrip c ltac:(lia) Sw ltac:(lia)) as (der & Ed & Sd & Dd). rewrite Lc in Dd.
    replace (97 + len data <? 97 + 65536) with (len data <? 65536) in Dd by (apply eq_true_iff_eq; rewrite !Z.ltb_lt; lia).
    assert (Dr : (raw <- sm2_cipher_der_to_raw der ;; decrypt_raw kp raw) = short) by (rewrite Dd; unfold short; now destruct (len data <? 65536)).
    unfold encrypt_versioned, encrypt_der, encrypt_versioned_der, encrypt_der. change (encrypt P k data = Ok c) in E. rewrite E. cbn [bind]. rewrite Ed. cbn [bind]. split; [|split; [|split]].
    + exists c. split; [reflexivity|]. now rewrite (proj1 (decrypt_legacy kp c) Sw).
    + eexists. split; [reflexivity|]. now rewrite decrypt_versioned.
    + exists der. split; [reflexivity|]. now rewrite (proj2 (decrypt_legacy kp der) Sd).
    + eexists. split; [reflexivity|]. now rewrite decrypt_versioned.
  - intros B. unfold encrypt_versioned, encrypt_versioned_der, encrypt_der, encrypt, guard, SM2_MAX_PLAINTEXT_LEN. rewrite (proj2 (Z.ltb_lt _ _)) by lia. eexists. repeat split.
Qed.

(** A signature verifies under the signer's public key. *)
Lemma signing_verifies (sk : SecretKey) (id : string) (m : bytes) :
  exists k sig vk, signer_new_with_distid (generate sk) id = Ok k /\ sign k m = Ok sig /\ deterministic_sign k m = Ok sig /\
    Sm2Verifier_new (public_key_bytes_uncompressed (generate sk)) id = Ok vk /\ Sm2Verifier_verify vk m sig = Ok tt /\ len sig = 64.
Proof.
  destruct (signing_keys id sk) as (k & Ek & Ev). destruct (signature_parsed (try_sign k m)) as [Ep Lp].
  exists k, (signature_bytes (try_sign k m)), (verifying_key k).
  unfold signer_new_with_distid, Sm2Verifier_new, public_key_bytes_uncompressed, sign, deterministic_sign, checked, sm2_map.
  cbn [private_key public_key generate generate_with_distid]. rewrite Ek, Ev, sign_verifies. do 4 (split; [reflexivity|]).
  split; [|exact Lp]. unfold Sm2Verifier_verify, guard. rewrite Lp. cbn [negb Z.eqb Pos.eqb]. unfold sm2_map.
  rewrite Ep. cbn [map_err bind]. now rewrite sign_verifies.
Qed.

(** SM2 signatures. The signature of any message under any identifier passes
    the check that follows signing, has 64 bytes, verifies under the public key of
    the signer for the same identifier, and survives the DER form certificates
    carry; reading the DER form of a signature never panics, whatever the bytes,
    and yields 64 bytes. *)
Theorem sm2_signatures_roundtrip (sk : SecretKey) (id : string) (m : bytes) :
  (exists k sig vk, signer_new_with_distid (generate sk) id = Ok k /\ sign k m = Ok sig /\ deterministic_sign k m = Ok sig /\
     Sm2Verifier_new (public_key_bytes_uncompressed (generate sk)) id = Ok vk /\ Sm2Verifier_verify vk m sig = Ok tt /\
     sm2_signature_der_to_raw (sm2_signature_raw_to_der sig) = Ok sig) /\
  (forall der, wf_bytes der = true -> sm2_signature_der_to_raw der <> Panic /\
     forall raw, sm2_signature_der_to_raw der = Ok raw -> len raw = 64 /\ sm2_signature_der_to_raw (sm2_signature_raw_to_der raw) = Ok raw).
Proof.
  split.
  - destruct (signing_verifies sk id m) as (k & sig & vk & K & S & D & N & V & L). exists k, sig, vk.
    repeat split; try assumption. now apply signature_roundtrip.
  - intros der W. destruct (signature_to_raw_total der W) as [NP T]. split; [exact NP|]. intros raw E. split; [now apply T|].
    now apply signature_roundtrip, T.
Qed.

(** Both sides of a Diffie-Hellman exchange compute the same secret. *)
Lemma sm2_dh_agreement (a b : SecretKey) : is_identity (pmul (from_secret_scalar (nonzero_scalar a)) (nonzero_scalar b)) = false ->
  exists x, sm2_ecdh a (public_key_bytes_uncompressed (generate b)) = Ok x /\ sm2_ecdh b (public_key_bytes (generate a)) = Ok x /\
    compute_shared_secret (nonzero_scalar a) (public_key_bytes_uncompressed (generate b)) = Ok x /\ len x = 32.
Proof.
  intros N. rewrite public_key_mul in N. destruct (encode_shape _ N) as (x & y & Ex & _ & _ & Lx & _).
  assert (Pk : forall c k, parse_sm2_public_key (encode_point c (public_key (generate k))) = Ok (pmul generator (nonzero_scalar k))).
  { intros c k. unfold parse_sm2_public_key. rewrite (proj1 (decode_encode c _)). cbn [public_key generate generate_with_distid].
    rewrite public_encoded by apply nonzero_public. now rewrite public_key_mul. }
  exists x. unfold sm2_ecdh, compute_shared_secret, public_key_bytes_uncompressed, public_key_bytes, shared_x, guard. rewrite !Pk. cbn [bind].
  rewrite (mul_comm (nonzero_scalar b) (nonzero_scalar a)), N, Ex. auto.
Qed.
End Lemmas.

(** ** An instance *)

(** The group of two elements, with a checksum for a signature. *)
Definition toy_sum (m : bytes) : Z := fold_left Z.add m 0 mod 256.

#[global] Instance toy_sm2 : Sm2Crate := {
  Point := bool; Scalar := bool; SecretKey := unit; SigningKey := unit; VerifyingKey := unit; Signature := Z;
  generator := true;
  pmul := andb;
  is_identity := negb;
  encode_point c P := if P : bool then if c : bool then 2 :: repeat 1 32 else 4 :: repeat 1 64 else [0];
  point_x P := if P : bool then Some (repeat 1 32) else None;
  point_y P := if P : bool then Some (repeat 1 32) else None;
  sec1_error _ := None;
  decode_point b := Some (negb (bytes_eqb b [0]));
  public_from_sec1 b := if bytes_eqb b [0] then Err "identity"%string else Ok true;
  public_from_encoded b := if bytes_eqb b [0] then None else Some true;
  secret_from_bytes _ := Ok tt;
  secret_bytes _ := repeat 1 32;
  nonzero_scalar _ := true;
  scalar_from_bytes _ := Some true;
  from_secret_scalar s := s;
  signing_key_new _ _ := Ok tt;
  try_sign _ m := toy_sum m;
  try_sign_with_rng _ m _ := Ok (toy_sum m);
  verifying_key _ := tt;
  verifying_key_from_sec1 _ _ := Ok tt;
  verify_error _ m s := if s =? toy_sum m then None else Some "signature error"%string;
  signature_bytes s := repeat s 64;
  signature_from_bytes b := Ok (nth 0 b 0)
}.

#[global] Instance toy_sm2_laws : Sm2Laws toy_sm2.
Proof.
  constructor; cbn; try (intros; reflexivity).
  - intros [] []; split; reflexivity.
  - intros [] N; [|discriminate]. exists (repeat 1 32), (repeat 1 32). repeat split.
  - intros [] [] N; reflexivity || discriminate.
  - now intros [] [].
  - intros [] [] N; reflexivity || discriminate.
  - intros [] [] N; reflexivity || discriminate.
  - intros id k. exists tt. now split.
  - intros _ m. now rewrite Z.eqb_refl.
  - intros s. now split.
  - intros id b. discriminate.
Qed.

Lemma sm2_encryption_roundtrip_witness : exists c,
  @encrypt toy_sm3 toy_sm2 (public_key (@generate toy_sm2 tt)) true [1; 2; 3] = Ok c /\ @decrypt toy_sm3 toy_sm2 (@generate toy_sm2 tt) c = Ok [1; 2; 3].
Proof.
  destruct (@sm2_encryption_roundtrip toy_sm3 toy_sm3_laws toy_sm2 toy_sm2_laws tt true [1; 2; 3] eq_refl eq_refl) as [R _].
  apply R. vm_compute. discriminate.
Defined.

Lemma sm2_signatures_roundtrip_witness :
  sm2_signature_der_to_raw (sm2_signature_raw_to_der (repeat 200 64)) = Ok (repeat 200 64).
Proof.
  destruct (@sm2_signatures_roundtrip toy_sm2 toy_sm2_laws tt GM_TLS_DEFAULT_ID [200]) as ((k & sig & vk & _ & Es & _ & _ & _ & R) & _).
  injection Es as <-. exact R.
Defined.
