(* ===== verification/Sm2Kex.v ===== *)
(** The SM2 key exchange (gm-crypto/src/sm2_kex.rs): the session state machine of
    the initiator and the responder, key derivation and key confirmation, and the
    part of the group the exchange and the TLCP pre-master secret use.

    The curve and the signature scheme (crates sm2 and elliptic-curve) and SM3 are
    parameters. What the system's generator yields (the ephemeral secret and the
    session identifier) is an argument of the constructors. *)

From Stdlib Require Import String Bool ZArith Lia List.
From S2P Require Import Prelude Bytes Effects Sm4 Sm3 Kdf Sm2.
Import ListNotations.
Open Scope Z_scope.

(** ** The group *)

(** [VerifyingKey::new], the sum of points and the arithmetic of scalars. *)
Class Sm2Group (C : Sm2Crate) : Type := {
  verifying_key_new : string -> Point -> outcome string VerifyingKey;
  padd : Point -> Point -> Point;
  sadd : Scalar -> Scalar -> Scalar;
  smul : Scalar -> Scalar -> Scalar;
  scalar_from_repr : bytes -> option Scalar;
  scalar_is_zero : Scalar -> bool
}.

(** Documented behaviour: scalars are a ring that acts on points, secret keys
    survive their byte form, the group has prime order, a canonical encoding below
    the order is accepted, and a verifying key made from a public key is the one of
    the signing key. *)
Class Sm2GroupLaws (C : Sm2Crate) (G : Sm2Group C) : Prop := {
  pmul_padd P Q a : pmul (padd P Q) a = padd (pmul P a) (pmul Q a);
  pmul_sadd P a b : pmul P (sadd a b) = padd (pmul P a) (pmul P b);
  pmul_smul P a b : pmul (pmul P a) b = pmul P (smul a b);
  smul_comm a b : smul a b = smul b a;
  pmul_identity P a : is_identity P = true -> is_identity (pmul P a) = true;
  secret_roundtrip k : exists k', secret_from_bytes (secret_bytes k) = Ok k' /\ nonzero_scalar k' = nonzero_scalar k;
  len_secret k : len (secret_bytes k) = 32;
  prime_order k l : is_identity (pmul (pmul generator (nonzero_scalar k)) (nonzero_scalar l)) = false;
  repr_half b : wf_bytes b = true -> len b = 32 -> 0 < from_be b < 2 ^ 128 -> exists a, scalar_from_repr b = Some a /\ scalar_is_zero a = false;
  verifying_key_of id k sk : signing_key_new id k = Ok sk -> verifying_key_new id (from_secret_scalar (nonzero_scalar k)) = Ok (verifying_key sk)
}.

Definition kex_error (m : string) : CryptoError := Sm2KexError m.
Definition kex_map {A : Type} (what : string) (o : outcome string A) : outcome CryptoError A := map_err (fun e => Sm2KexError (what +++ e)%string) o.
Definition some_or_kex {A : Type} (o : option A) (m : string) : outcome CryptoError A := ok_or_else o (Sm2KexError m).

Definition USER_ID_LEN : Z := 16.
Definition DEFAULT_USER_ID : string := "1234567812345678".

Definition validate_user_id (user_id : bytes) : outcome CryptoError bytes :=
  guard (len user_id =? 0) (kex_error "user ID cannot be empty") (
  guard (USER_ID_LEN <? len user_id) (kex_error "user ID too long (max 16 bytes)") (
  copy_prefix (repeat 0 16) user_id)).

Section Kex.
Context {H : Sm3Crate} {C : Sm2Crate} {G : Sm2Group C}.

(** ** Points *)

Definition point_of_xy (invalid off_curve : string) (r_pub : bytes) : outcome CryptoError Point :=
  let point_bytes := [0x04] ++ r_pub in
  match sec1_error point_bytes with
  | Some e => Err (kex_error (invalid +++ e)%string)
  | None => some_or_kex (decode_point point_bytes) off_curve
  end.

Definition validate_ephemeral_public_key (r_pub : bytes) : outcome CryptoError unit :=
  let point_bytes := [0x04] ++ r_pub in
  match sec1_error point_bytes with
  | Some e => Err (kex_error ("invalid point encoding: " +++ e)%string)
  | None =>
      guard (negb (len point_bytes =? 65)) (kex_error "only uncompressed points (65 bytes) supported") (
      point <- some_or_kex (decode_point point_bytes) "point not on curve or invalid encoding" ;;
      guard (is_identity point) (kex_error "point cannot be identity element") (Ok tt))
  end.

Definition parse_uncompressed_point (r_pub : bytes) : outcome CryptoError Point :=
  point_of_xy "invalid point: " "point not on SM2 curve" r_pub.

Definition point_to_uncompressed_bytes (p : Point) : outcome CryptoError bytes :=
  let b := encode_point false p in
  guard (negb (len b =? 65) || negb (nth 0 b 0 =? 0x04)) (kex_error "invalid point encoding") (slice b 1 65).

Definition kex_point_xy_bytes (p : Point) : outcome CryptoError (bytes * bytes) :=
  let b := encode_point false p in
  guard (negb (len b =? 65) || negb (nth 0 b 0 =? 0x04)) (kex_error "invalid point encoding") (
  x <- slice b 1 33 ;;
  y <- slice b 33 65 ;;
  Ok (x, y)).

(** ** Key derivation and confirmation *)

Definition sm2_kdf (z : bytes) (klen : Z) : outcome CryptoError bytes :=
  guard ((klen =? 0) || (32 * 0xFFFFFFFF <? klen)) (kex_error "KDF length out of range") (
  kdf_run (fun remain ha => firstn (Z.to_nat (Z.min 32 remain)) ha)
    (fun ct => if ct + 1 <? 2 ^ 32 then Ok (ct + 1) else Err (kex_error "KDF overflow")) z klen).

Definition compute_inner_hash (r1 r2 x y k : bytes) : outcome CryptoError bytes := Sm3Hasher_hash (r1 ++ r2 ++ x ++ y ++ k).

Definition compute_confirmation (sender_id r1 r2 x y k : bytes) : outcome CryptoError bytes :=
  inner_hash <- Sm3Hasher_hash (r1 ++ r2 ++ x ++ y ++ k) ;;
  Sm3Hasher_hash (sender_id ++ inner_hash).

(** ** Ephemeral keys *)

Record EphemeralKeyPair : Type := { ep_r : bytes; ep_r_pub : bytes }.

Definition ephemeral_of (secret : SecretKey) (r : bytes) : outcome CryptoError EphemeralKeyPair :=
  r_pub <- point_to_uncompressed_bytes (pmul generator (nonzero_scalar secret)) ;;
  Ok {| ep_r := r; ep_r_pub := r_pub |}.
Definition ephemeral_generate (secret : SecretKey) : outcome CryptoError EphemeralKeyPair := ephemeral_of secret (secret_bytes secret).
Definition ephemeral_from_private_key (r : bytes) : outcome CryptoError EphemeralKeyPair :=
  secret <- kex_map "invalid ephemeral private key: " (secret_from_bytes r) ;;
  ephemeral_of secret r.

(** ** Messages and sessions *)

Record Sm2KexMessage : Type := {
  km_msg_type : Z; km_sender_id : bytes; km_r_pub : bytes; km_signature : option bytes; km_confirmation : option bytes
}.
Definition msg_initiator (sender_id r1 : bytes) : Sm2KexMessage :=
  {| km_msg_type := 1; km_sender_id := sender_id; km_r_pub := r1; km_signature := None; km_confirmation := None |}.
Definition msg_responder (sender_id r2 signature : bytes) : Sm2KexMessage :=
  {| km_msg_type := 2; km_sender_id := sender_id; km_r_pub := r2; km_signature := Some signature; km_confirmation := None |}.
Definition msg_confirmation (sender_id sa : bytes) : Sm2KexMessage :=
  {| km_msg_type := 3; km_sender_id := sender_id; km_r_pub := repeat 0 64; km_signature := None; km_confirmation := Some sa |}.

Record Sm2KexResult : Type := { kr_shared_secret : bytes; kr_session_key : bytes; kr_s : bytes }.

Inductive KexState : Type := KexInit | WaitForResponse | WaitForConfirmation | KexCompleted | KexFailed.
Definition kex_state_eqb (a b : KexState) : bool :=
  match a, b with
  | KexInit, KexInit | WaitForResponse, WaitForResponse | WaitForConfirmation, WaitForConfirmation
  | KexCompleted, KexCompleted | KexFailed, KexFailed => true
  | _, _ => false
  end.

Record PeerInfo : Type := { pi_user_id : bytes; pi_peer_r_pub : bytes; pi_peer_public_key : Point }.

Record KexSession : Type := {
  ks_session_id : bytes;
  ks_private_key : SecretKey;
  ks_public_key : Point;
  ks_user_id : bytes;
  ks_ephemeral : EphemeralKeyPair;
  ks_state : KexState;
  ks_peer_info : option PeerInfo;
  ks_result : option Sm2KexResult;
  ks_is_initiator : bool
}.

Definition new_session (is_initiator : bool) (key_pair : Sm2KeyPair) (user_id : bytes) (secret : SecretKey) (session_id : bytes)
    : outcome CryptoError KexSession :=
  user_id <- validate_user_id user_id ;;
  ephemeral <- ephemeral_generate secret ;;
  Ok {| ks_session_id := session_id; ks_private_key := private_key key_pair; ks_public_key := public_key key_pair; ks_user_id := user_id;
        ks_ephemeral := ephemeral; ks_state := KexInit; ks_peer_info := None; ks_result := None; ks_is_initiator := is_initiator |}.
Definition new_initiator := new_session true.
Definition new_responder := new_session false.
(** [Sm2Kex]: a key pair that makes sessions. *)
Definition init_session (key_pair : Sm2KeyPair) := new_initiator key_pair.
Definition accept_session (key_pair : Sm2KeyPair) := new_responder key_pair.

Definition with_state (s : KexSession) (st : KexState) (r : option Sm2KexResult) : KexSession :=
  {| ks_session_id := ks_session_id s; ks_private_key := ks_private_key s; ks_public_key := ks_public_key s; ks_user_id := ks_user_id s;
     ks_ephemeral := ks_ephemeral s; ks_state := st; ks_peer_info := ks_peer_info s; ks_result := r; ks_is_initiator := ks_is_initiator s |}.
Definition with_peer (p : PeerInfo) (s : KexSession) : KexSession :=
  {| ks_session_id := ks_session_id s; ks_private_key := ks_private_key s; ks_public_key := ks_public_key s; ks_user_id := ks_user_id s;
     ks_ephemeral := ks_ephemeral s; ks_state := ks_state s; ks_peer_info := Some p; ks_result := ks_result s; ks_is_initiator := ks_is_initiator s |}.

Definition generate_msg1 (s : KexSession) : outcome CryptoError Sm2KexMessage :=
  guard (negb (ks_is_initiator s)) (kex_error "not an initiator session") (
  guard (negb (kex_state_eqb (ks_state s) KexInit)) (kex_error "invalid state for msg1") (
  Ok (msg_initiator (ks_user_id s) (ep_r_pub (ks_ephemeral s))))).

(** ** Processing messages *)

Definition signed_data (id_a id_b r1 r2 : bytes) : bytes := id_a ++ id_b ++ r1 ++ r2.

Definition process_msg1 (msg : Sm2KexMessage) (peer_public_key : Point) : M KexSession CryptoError Sm2KexMessage :=
  s <-- gets id ;;;
  failIf (ks_is_initiator s) (kex_error "not a responder session") ;;;
  failIf (negb (kex_state_eqb (ks_state s) KexInit)) (kex_error "invalid state for msg1 processing") ;;;
  failIf (negb (km_msg_type msg =? 1)) (kex_error "expected msg_type=1") ;;;
  lift (validate_ephemeral_public_key (km_r_pub msg)) ;;;
  modify (with_peer {| pi_user_id := km_sender_id msg; pi_peer_r_pub := km_r_pub msg; pi_peer_public_key := peer_public_key |}) ;;;
  signing_key <-- lift (kex_map "signing error: " (signing_key_new DEFAULT_USER_ID (ks_private_key s))) ;;;
  let signature := try_sign signing_key (signed_data (km_sender_id msg) (ks_user_id s) (km_r_pub msg) (ep_r_pub (ks_ephemeral s))) in
  modify (fun s => with_state s WaitForConfirmation (ks_result s)) ;;;
  ret (msg_responder (ks_user_id s) (ep_r_pub (ks_ephemeral s)) (signature_bytes signature)).

(** The agreed point, with the session's ephemeral secret. *)
Definition ephemeral_point (s : KexSession) (peer_r_pub : bytes) : outcome CryptoError (bytes * bytes) :=
  peer_point <- parse_uncompressed_point peer_r_pub ;;
  self_secret <- kex_map "invalid ephemeral private key: " (secret_from_bytes (ep_r (ks_ephemeral s))) ;;
  kex_point_xy_bytes (pmul peer_point (nonzero_scalar self_secret)).

Definition derive_session_key (shared_secret : bytes) : outcome CryptoError bytes :=
  v <- sm2_kdf (shared_secret ++ bytes_of "session-key") 32 ;; from_slice 32 v.

Definition compute_shared_secret_and_confirmation (s : KexSession) (peer_r_pub : bytes) : outcome CryptoError (bytes * bytes) :=
  peer_info <- some_or_kex (ks_peer_info s) "missing peer info" ;;
  ' (x, y) <- ephemeral_point s peer_r_pub ;;
  let kdf_input := x ++ y ++
    (if ks_is_initiator s then ks_user_id s ++ pi_user_id peer_info ++ ep_r_pub (ks_ephemeral s) ++ peer_r_pub
     else pi_user_id peer_info ++ ks_user_id s ++ pi_peer_r_pub peer_info ++ ep_r_pub (ks_ephemeral s)) in
  shared_secret_vec <- sm2_kdf kdf_input 32 ;;
  shared_secret <- from_slice 32 shared_secret_vec ;;
  let '(r1, r2) := if ks_is_initiator s then (ep_r_pub (ks_ephemeral s), peer_r_pub) else (pi_peer_r_pub peer_info, ep_r_pub (ks_ephemeral s)) in
  inner_hash <- compute_inner_hash r1 r2 x y shared_secret ;;
  confirmation <- Sm3Hasher_hash (ks_user_id s ++ inner_hash) ;;
  confirmation_bytes <- from_slice 32 confirmation ;;
  Ok (shared_secret, confirmation_bytes).

Definition compute_confirmation_value (s : KexSession) (x y shared_secret : bytes) : outcome CryptoError bytes :=
  peer_info <- some_or_kex (ks_peer_info s) "missing peer info" ;;
  let '(r1, r2) := if ks_is_initiator s then (ep_r_pub (ks_ephemeral s), pi_peer_r_pub peer_info) else (pi_peer_r_pub peer_info, ep_r_pub (ks_ephemeral s)) in
  inner_hash <- compute_inner_hash r1 r2 x y shared_secret ;;
  confirmation <- Sm3Hasher_hash (ks_user_id s ++ inner_hash) ;;
  from_slice 32 confirmation.

Definition process_msg2 (msg : Sm2KexMessage) (peer_public_key : Point) : M KexSession CryptoError Sm2KexMessage :=
  s <-- gets id ;;;
  failIf (negb (ks_is_initiator s)) (kex_error "not an initiator session") ;;;
  failIf (negb (kex_state_eqb (ks_state s) KexInit)) (kex_error "invalid state for msg2 processing") ;;;
  failIf (negb (km_msg_type msg =? 2)) (kex_error "expected msg_type=2") ;;;
  signature <-- lift (some_or_kex (km_signature msg) "missing signature") ;;;
  lift (validate_ephemeral_public_key (km_r_pub msg)) ;;;
  modify (with_peer {| pi_user_id := km_sender_id msg; pi_peer_r_pub := km_r_pub msg; pi_peer_public_key := peer_public_key |}) ;;;
  vk <-- lift (kex_map "verifying key error: " (verifying_key_new DEFAULT_USER_ID peer_public_key)) ;;;
  sig <-- lift (kex_map "signature parse error: " (signature_from_bytes signature)) ;;;
  failIf (match verify_error vk (signed_data (ks_user_id s) (km_sender_id msg) (ep_r_pub (ks_ephemeral s)) (km_r_pub msg)) sig with
          | Some _ => true | None => false end) (kex_error "signature verification failed") ;;;
  s <-- gets id ;;;
  ss <-- lift (compute_shared_secret_and_confirmation s (km_r_pub msg)) ;;;
  session_key <-- lift (derive_session_key (fst ss)) ;;;
  modify (fun s => with_state s KexCompleted (Some {| kr_shared_secret := fst ss; kr_session_key := session_key; kr_s := snd ss |})) ;;;
  ret (msg_confirmation (ks_user_id s) (snd ss)).

Definition process_msg3 (msg : Sm2KexMessage) : M KexSession CryptoError unit :=
  s <-- gets id ;;;
  failIf (ks_is_initiator s) (kex_error "not a responder session") ;;;
  failIf (negb (kex_state_eqb (ks_state s) WaitForConfirmation)) (kex_error "invalid state for msg3 processing") ;;;
  failIf (negb (km_msg_type msg =? 3)) (kex_error "expected msg_type=3") ;;;
  peer_info <-- lift (some_or_kex (ks_peer_info s) "missing peer info") ;;;
  xy <-- lift (ephemeral_point s (pi_peer_r_pub peer_info)) ;;;
  let '(x, y) := xy in
  let kdf_input := x ++ y ++ pi_user_id peer_info ++ ks_user_id s ++ pi_peer_r_pub peer_info ++ ep_r_pub (ks_ephemeral s) in
  shared_secret <-- lift (v <- sm2_kdf kdf_input 32 ;; from_slice 32 v) ;;;
  s2 <-- lift (compute_confirmation_value s x y shared_secret) ;;;
  inner_hash <-- lift (Sm3Hasher_hash (pi_peer_r_pub peer_info ++ ep_r_pub (ks_ephemeral s) ++ x ++ y ++ shared_secret)) ;;;
  sa_expected <-- lift (Sm3Hasher_hash (pi_user_id peer_info ++ inner_hash)) ;;;
  sa <-- lift (some_or_kex (km_confirmation msg) "missing confirmation") ;;;
  failIf (negb (bytes_eqb sa sa_expected)) (kex_error "confirmation value mismatch") ;;;
  session_key <-- lift (derive_session_key shared_secret) ;;;
  modify (fun s => with_state s KexCompleted (Some {| kr_shared_secret := shared_secret; kr_session_key := session_key; kr_s := s2 |})).
End Kex.

(** ** Lemmas *)

Section KexLemmas.
Context {H : Sm3Crate} {LH : Sm3Laws H} {C : Sm2Crate} {LC : Sm2Laws C} {G : Sm2Group C} {LG : Sm2GroupLaws C G}.

(** The coordinates of a point that is not the identity, and what the functions on
    points make of them. *)
Lemma point_bytes P : is_identity P = false -> exists x y, len x = 32 /\ len y = 32 /\ wf_bytes x = true /\ wf_bytes y = true /\
  point_to_uncompressed_bytes P = Ok (x ++ y) /\ kex_point_xy_bytes P = Ok (x, y) /\
  (forall a b, point_of_xy a b (x ++ y) = Ok P) /\ validate_ephemeral_public_key (x ++ y) = Ok tt.
Proof.
  intros NI. destruct (encode_shape P NI) as (x & y & _ & _ & E & Lx & Ly & W). rewrite wf_bytes_app in W. apply andb_true_iff in W as [Wx Wy].
  exists x, y. split; [exact Lx|]. split; [exact Ly|]. split; [exact Wx|]. split; [exact Wy|].
  destruct (decode_encode false P) as [S D]. rewrite E in S, D. assert (L : len ([4] ++ x ++ y) = 65) by (rewrite !len_app; change (len [4]) with 1; lia).
  unfold point_to_uncompressed_bytes, kex_point_xy_bytes, point_of_xy, validate_ephemeral_public_key. rewrite E, S, D, L. cbn [app nth Z.eqb Pos.eqb negb orb guard].
  change (4 :: x ++ y) with ([4] ++ x ++ y). rewrite (slice_at _ [4] (x ++ y) []), (slice_at _ [4] x y), (slice_at _ ([4] ++ x) y [])
    by (rewrite ?app_nil_r, <- ?app_assoc, ?len_app; change (len [4]) with 1; trivial; lia). cbn [bind some_or_kex ok_or_else]. rewrite NI. auto.
Qed.

Lemma kdf32 z : sm2_kdf z 32 = Ok (kdf_stream z 32).
Proof.
  unfold sm2_kdf, guard. change ((32 =? 0) || (32 * 4294967295 <? 32)) with false. apply kdf_run_ok; [intros r h; now right|lia|].
  intros ct B. pose proof (turns 32). now rewrite (proj2 (Z.ltb_lt _ _)) by lia.
Qed.

Lemma kdf32_array z : (v <- sm2_kdf z 32 ;; from_slice 32 v) = Ok (kdf_stream z 32).
Proof. rewrite kdf32. cbn [bind]. apply from_slice_ok, len_kdf_stream. lia. Qed.

Lemma hash_array m : (c <- Sm3Hasher_hash m ;; from_slice 32 c) = Ok (sm3 m).
Proof. apply from_slice_ok, len_sm3. Qed.

(** What both sides derive from the agreed point. *)
Definition kex_secret (x y id_a id_b r1 r2 : bytes) : bytes := kdf_stream (x ++ y ++ id_a ++ id_b ++ r1 ++ r2) 32.
Definition kex_confirm (id x y id_a id_b r1 r2 : bytes) : bytes := sm3 (id ++ sm3 (r1 ++ r2 ++ x ++ y ++ kex_secret x y id_a id_b r1 r2)).
Definition kex_result (id x y id_a id_b r1 r2 : bytes) : Sm2KexResult :=
  {| kr_shared_secret := kex_secret x y id_a id_b r1 r2;
     kr_session_key := kdf_stream (kex_secret x y id_a id_b r1 r2 ++ bytes_of "session-key") 32;
     kr_s := kex_confirm id x y id_a id_b r1 r2 |}.

Lemma initiator_shared s p r x y : ks_peer_info s = Some p -> ks_is_initiator s = true -> ephemeral_point s r = Ok (x, y) ->
  compute_shared_secret_and_confirmation s r =
    Ok (kex_secret x y (ks_user_id s) (pi_user_id p) (ep_r_pub (ks_ephemeral s)) r,
        kex_confirm (ks_user_id s) x y (ks_user_id s) (pi_user_id p) (ep_r_pub (ks_ephemeral s)) r).
Proof.
  intros Ep I Ex. unfold compute_shared_secret_and_confirmation. rewrite Ep. cbn [some_or_kex ok_or_else bind]. rewrite Ex, I. cbn [bind].
  rewrite kdf32. cbn [bind]. rewrite from_slice_ok by (apply len_kdf_stream; lia). cbn [bind]. unfold compute_inner_hash, Sm3Hasher_hash. cbn [bind].
  rewrite from_slice_ok by apply len_sm3. reflexivity.
Qed.

Lemma responder_value s p x y k : ks_peer_info s = Some p -> ks_is_initiator s = false ->
  compute_confirmation_value s x y k = Ok (sm3 (ks_user_id s ++ sm3 (pi_peer_r_pub p ++ ep_r_pub (ks_ephemeral s) ++ x ++ y ++ k))).
Proof.
  intros Ep I. unfold compute_confirmation_value. rewrite Ep, I. cbn [some_or_kex ok_or_else bind]. unfold compute_inner_hash. cbn [Sm3Hasher_hash bind]. apply hash_array.
Qed.

(** What a completed third message has checked. *)
Lemma msg3_iff msg s s' : process_msg3 msg s = (s', Ok tt) <->
  ks_is_initiator s = false /\ ks_state s = WaitForConfirmation /\ km_msg_type msg = 3 /\
  exists p x y, ks_peer_info s = Some p /\ ephemeral_point s (pi_peer_r_pub p) = Ok (x, y) /\
    km_confirmation msg = Some (kex_confirm (pi_user_id p) x y (pi_user_id p) (ks_user_id s) (pi_peer_r_pub p) (ep_r_pub (ks_ephemeral s))) /\
    s' = with_state s KexCompleted (Some (kex_result (ks_user_id s) x y (pi_user_id p) (ks_user_id s) (pi_peer_r_pub p) (ep_r_pub (ks_ephemeral s)))).
Proof.
  unfold process_msg3. rewrite bind_gets, bind_failIf_iff. unfold id. split.
  - intros (I & Y). apply bind_failIf_iff in Y as (S & Y). apply bind_failIf_iff in Y as (T & Y). apply bind_lift_iff in Y as (p & P & Y).
    apply bind_lift_iff in Y as ([x y] & X & Y). rewrite bind_lift, kdf32_array in Y. unfold some_or_kex, ok_or_else in P. destruct (ks_peer_info s) as [p'|] eqn:Ep; [|discriminate].
    injection P as ->. rewrite bind_lift, (responder_value s p) in Y by assumption. unfold Sm3Hasher_hash in Y. do 2 rewrite bind_lift in Y.
    apply bind_lift_iff in Y as (sa & Sa & Y). apply bind_failIf_iff in Y as (V & Y). unfold derive_session_key in Y. rewrite bind_lift, kdf32_array in Y.
    injection Y as <-. apply negb_false_iff, bytes_eqb_eq in V. apply negb_false_iff, Z.eqb_eq in T. split; [exact I|].
    split; [now destruct (ks_state s)|]. split; [exact T|]. exists p, x, y. split; [reflexivity|]. split; [exact X|]. split; [|reflexivity].
    unfold some_or_kex, ok_or_else in Sa. destruct (km_confirmation msg) as [c|]; [|discriminate]. injection Sa as ->. now f_equal.
  - intros (I & S & T & p & x & y & P & X & Cf & ->). split; [exact I|]. rewrite S, T. cbn [kex_state_eqb negb Z.eqb Pos.eqb]. rewrite !bind_failIf, P, bind_lift.
    cbn [some_or_kex ok_or_else]. rewrite bind_lift, X, bind_lift, kdf32_array, bind_lift, (responder_value s p) by assumption. unfold Sm3Hasher_hash. rewrite !bind_lift, Cf.
    cbn [some_or_kex ok_or_else]. unfold kex_confirm, kex_secret. rewrite bytes_eqb_refl. cbn [negb]. rewrite bind_failIf. unfold derive_session_key. now rewrite bind_lift, kdf32_array.
Qed.

Definition peer_of (msg : Sm2KexMessage) (pk : Point) : PeerInfo :=
  {| pi_user_id := km_sender_id msg; pi_peer_r_pub := km_r_pub msg; pi_peer_public_key := pk |}.

Lemma bind_modify {S E B} (f : S -> S) (k : unit -> M S E B) s : bindM (modify f) k s = k tt (f s).
Proof. reflexivity. Qed.

(** What an answered first message has checked, and the answer. *)
Lemma msg1_iff msg pk s s' m : process_msg1 msg pk s = (s', Ok m) <->
  ks_is_initiator s = false /\ ks_state s = KexInit /\ km_msg_type msg = 1 /\ validate_ephemeral_public_key (km_r_pub msg) = Ok tt /\
  exists sk, signing_key_new DEFAULT_USER_ID (ks_private_key s) = Ok sk /\
    s' = with_state (with_peer (peer_of msg pk) s) WaitForConfirmation (ks_result s) /\
    m = msg_responder (ks_user_id s) (ep_r_pub (ks_ephemeral s))
          (signature_bytes (try_sign sk (signed_data (km_sender_id msg) (ks_user_id s) (km_r_pub msg) (ep_r_pub (ks_ephemeral s))))).
Proof.
  unfold process_msg1. rewrite bind_gets, bind_failIf_iff. unfold id. split.
  - intros (I & Y). apply bind_failIf_iff in Y as (S & Y). apply bind_failIf_iff in Y as (T & Y). apply bind_lift_iff in Y as ([] & V & Y). rewrite bind_modify in Y.
    apply bind_lift_iff in Y as (sk & K & Y). apply map_err_ok_iff in K. rewrite bind_modify in Y. injection Y as <- <-.
    apply negb_false_iff, Z.eqb_eq in T. split; [exact I|]. split; [now destruct (ks_state s)|]. split; [exact T|]. split; [exact V|]. now exists sk.
  - intros (I & S & T & V & sk & K & -> & ->). split; [exact I|]. rewrite S, T. cbn [kex_state_eqb negb Z.eqb Pos.eqb]. rewrite !bind_failIf, bind_lift, V, bind_modify, bind_lift.
    unfold kex_map. rewrite K. reflexivity.
Qed.

(** What an answered second message has checked, and the answer. *)
Lemma msg2_iff msg pk s s' m : process_msg2 msg pk s = (s', Ok m) <->
  ks_is_initiator s = true /\ ks_state s = KexInit /\ km_msg_type msg = 2 /\ validate_ephemeral_public_key (km_r_pub msg) = Ok tt /\
  exists sg vk sig x y, km_signature msg = Some sg /\ verifying_key_new DEFAULT_USER_ID pk = Ok vk /\ signature_from_bytes sg = Ok sig /\
    verify_error vk (signed_data (ks_user_id s) (km_sender_id msg) (ep_r_pub (ks_ephemeral s)) (km_r_pub msg)) sig = None /\
    ephemeral_point s (km_r_pub msg) = Ok (x, y) /\
    s' = with_state (with_peer (peer_of msg pk) s) KexCompleted
           (Some (kex_result (ks_user_id s) x y (ks_user_id s) (km_sender_id msg) (ep_r_pub (ks_ephemeral s)) (km_r_pub msg))) /\
    m = msg_confirmation (ks_user_id s) (kex_confirm (ks_user_id s) x y (ks_user_id s) (km_sender_id msg) (ep_r_pub (ks_ephemeral s)) (km_r_pub msg)).
Proof.
  unfold process_msg2. rewrite bind_gets, bind_failIf_iff. unfold id. fold (peer_of msg pk). split.
  - intros (I & Y). apply negb_false_iff in I. apply bind_failIf_iff in Y as (S & Y). apply bind_failIf_iff in Y as (T & Y). apply bind_lift_iff in Y as (sg & Sg & Y).
    apply bind_lift_iff in Y as ([] & V & Y). rewrite bind_modify in Y. apply bind_lift_iff in Y as (vk & K & Y). apply map_err_ok_iff in K.
    apply bind_lift_iff in Y as (sig & P & Y). apply map_err_ok_iff in P. apply bind_failIf_iff in Y as (Ve & Y). rewrite bind_gets in Y.
    apply bind_lift_iff in Y as (ss & Ss & Y). pose proof Ss as Ss'. unfold compute_shared_secret_and_confirmation in Ss'. apply bind_ok_iff in Ss' as (p & _ & Ss').
    apply bind_ok_iff in Ss' as ([x y] & X & _). rewrite (initiator_shared (with_peer (peer_of msg pk) s) (peer_of msg pk) (km_r_pub msg) x y eq_refl I X) in Ss. apply ok_inj in Ss. subst ss.
    unfold derive_session_key in Y. rewrite bind_lift, kdf32_array, bind_modify in Y. injection Y as <- <-.
    apply negb_false_iff, Z.eqb_eq in T. split; [exact I|]. split; [now destruct (ks_state s)|]. split; [exact T|]. split; [exact V|].
    exists sg, vk, sig, x, y. unfold some_or_kex, ok_or_else in Sg. destruct (km_signature msg) as [c|]; [|discriminate]. injection Sg as ->.
    destruct (verify_error vk _ sig); [discriminate|]. now repeat split.
  - intros (I & S & T & V & sg & vk & sig & x & y & Sg & K & P & Ve & X & -> & ->). split; [now rewrite I|]. rewrite S, T. cbn [kex_state_eqb negb Z.eqb Pos.eqb].
    rewrite !bind_failIf, Sg, bind_lift. cbn [some_or_kex ok_or_else]. rewrite bind_lift, V, bind_modify, bind_lift. unfold kex_map. rewrite K. cbn [map_err].
    rewrite bind_lift, P. cbn [map_err]. rewrite Ve, bind_failIf, bind_gets, bind_lift.
    rewrite (initiator_shared (with_peer (peer_of msg pk) s) (peer_of msg pk) (km_r_pub msg) x y eq_refl I X). unfold derive_session_key. cbn [fst]. now rewrite bind_lift, kdf32_array.
Qed.

(** ** Runs of a session *)

(** The part of a session a failed call leaves alone. *)
Definition same_core (s s' : KexSession) : Prop :=
  ks_state s' = ks_state s /\ ks_result s' = ks_result s /\ ks_is_initiator s' = ks_is_initiator s /\ ks_ephemeral s' = ks_ephemeral s /\
  ks_user_id s' = ks_user_id s /\ ks_private_key s' = ks_private_key s.

Definition quiet {A : Type} (m : M KexSession CryptoError A) : Prop := forall s, same_core s (fst (m s)).
Definition quiet_on_error {A : Type} (m : M KexSession CryptoError A) : Prop :=
  forall s, match m s with (_, Ok _) => True | (s', _) => same_core s s' end.

Lemma same_refl s : same_core s s.
Proof. now repeat split. Qed.

Lemma same_trans s1 s2 s3 : same_core s1 s2 -> same_core s2 s3 -> same_core s1 s3.
Proof. intros (A1 & A2 & A3 & A4 & A5 & A6) (B1 & B2 & B3 & B4 & B5 & B6). repeat split; congruence. Qed.

Lemma quiet_bind {A B} (m : M KexSession CryptoError A) (k : A -> M KexSession CryptoError B) :
  quiet m -> (forall a, quiet_on_error (k a)) -> quiet_on_error (bindM m k).
Proof.
  intros Q K s. unfold bindM. specialize (Q s). destruct (m s) as [s1 [a|e|]]; [|exact Q..]. specialize (K a s1).
  destruct (k a s1) as [s2 [b|e|]]; [trivial|exact (same_trans _ _ _ Q K)..].
Qed.

Lemma quiet_lift {A} (o : outcome CryptoError A) : quiet (lift o).
Proof. intros s. apply same_refl. Qed.
Lemma quiet_gets {A} (f : KexSession -> A) : quiet (gets f).
Proof. intros s. apply same_refl. Qed.
Lemma quiet_failIf b e : quiet (failIf b e).
Proof. intros s. destruct b; apply same_refl. Qed.
Lemma quiet_peer p : quiet (modify (with_peer p)).
Proof. intros s. now repeat split. Qed.
Lemma quiet_end {A} f (a : A) : quiet_on_error (modify f ;;; ret a).
Proof. intros s. exact I. Qed.
Lemma quiet_last f : quiet_on_error (modify f).
Proof. intros s. exact I. Qed.

Ltac quiet_tac := repeat (apply quiet_bind; [solve [apply quiet_gets|apply quiet_failIf|apply quiet_lift|apply quiet_peer]|intros ?]);
  try apply quiet_end; try apply quiet_last.

Lemma msg1_quiet msg pk : quiet_on_error (process_msg1 msg pk).
Proof. unfold process_msg1. quiet_tac. Qed.
Lemma msg2_quiet msg pk : quiet_on_error (process_msg2 msg pk).
Proof. unfold process_msg2. quiet_tac. Qed.
Lemma msg3_quiet msg : quiet_on_error (process_msg3 msg).
Proof. unfold process_msg3. do 6 (apply quiet_bind; [solve [apply quiet_gets|apply quiet_failIf|apply quiet_lift|apply quiet_peer]|intros ?]). 
  match goal with |- quiet_on_error (let '(_, _) := ?p in _) => destruct p end. quiet_tac. Qed.

(** A message given to a session, by the function it is given to. *)
Inductive kex_event : Type := Msg1 (msg : Sm2KexMessage) (pk : Point) | Msg2 (msg : Sm2KexMessage) (pk : Point) | Msg3 (msg : Sm2KexMessage).
Definition kex_step (s : KexSession) (e : kex_event) : KexSession :=
  match e with
  | Msg1 msg pk => fst (process_msg1 msg pk s)
  | Msg2 msg pk => fst (process_msg2 msg pk s)
  | Msg3 msg => fst (process_msg3 msg s)
  end.

(** What a session has checked when an event completes it. *)
Definition completes (s : KexSession) (e : kex_event) : Prop :=
  match e with
  | Msg1 _ _ => False
  | Msg2 msg pk => ks_is_initiator s = true /\ exists sg vk sig, km_signature msg = Some sg /\ verifying_key_new DEFAULT_USER_ID pk = Ok vk /\
      signature_from_bytes sg = Ok sig /\
      verify_error vk (signed_data (ks_user_id s) (km_sender_id msg) (ep_r_pub (ks_ephemeral s)) (km_r_pub msg)) sig = None
  | Msg3 msg => ks_is_initiator s = false /\ exists p x y, ks_peer_info s = Some p /\ ephemeral_point s (pi_peer_r_pub p) = Ok (x, y) /\
      km_confirmation msg = Some (kex_confirm (pi_user_id p) x y (pi_user_id p) (ks_user_id s) (pi_peer_r_pub p) (ep_r_pub (ks_ephemeral s)))
  end.

Definition session_ok (s : KexSession) : Prop :=
  match ks_state s with
  | KexInit => ks_result s = None
  | WaitForConfirmation => ks_result s = None /\ ks_is_initiator s = false
  | KexCompleted => ks_result s <> None
  | WaitForResponse | KexFailed => False
  end.

Lemma step_ok s e : session_ok s ->
  session_ok (kex_step s e) /\ (ks_state (kex_step s e) = KexCompleted -> ks_state s = KexCompleted \/ completes s e).
Proof.
  intros Ok. assert (Same : forall s', same_core s s' -> session_ok s' /\ (ks_state s' = KexCompleted -> ks_state s = KexCompleted \/ completes s e)).
  { intros s' (Es & Er & Ei & _). unfold session_ok. rewrite Es, Er, Ei. split; [exact Ok|]. now left. }
  destruct e as [msg pk|msg pk|msg]; cbn [kex_step completes].
  - pose proof (msg1_quiet msg pk s) as Q. destruct (process_msg1 msg pk s) as [s' [m| |]] eqn:E; [|exact (Same _ Q)..].
    apply msg1_iff in E as (I & S & _ & _ & sk & _ & -> & _). unfold session_ok in *. rewrite S in Ok. cbn. rewrite Ok. split; [now split|discriminate].
  - pose proof (msg2_quiet msg pk s) as Q. destruct (process_msg2 msg pk s) as [s' [m| |]] eqn:E; [|exact (Same _ Q)..].
    apply msg2_iff in E as (I & S & _ & _ & sg & vk & sig & x & y & Sg & K & P & V & _ & -> & _). split; [discriminate|]. intros _. right. split; [exact I|]. now exists sg, vk, sig.
  - pose proof (msg3_quiet msg s) as Q. destruct (process_msg3 msg s) as [s' [[]| |]] eqn:E; [|exact (Same _ Q)..].
    apply msg3_iff in E as (I & S & _ & p & x & y & P & X & Cf & ->). split; [discriminate|]. intros _. right. split; [exact I|]. now exists p, x, y.
Qed.

Lemma ephemeral_made secret : exists x y, len (x ++ y) = 64 /\ ephemeral_generate secret = Ok {| ep_r := secret_bytes secret; ep_r_pub := x ++ y |} /\
  (forall a b, point_of_xy a b (x ++ y) = Ok (pmul generator (nonzero_scalar secret))) /\ validate_ephemeral_public_key (x ++ y) = Ok tt.
Proof.
  destruct (point_bytes (pmul generator (nonzero_scalar secret))) as (x & y & Lx & Ly & _ & _ & E & _ & P & V); [rewrite <- public_key_mul; apply nonzero_public|].
  exists x, y. split; [rewrite len_app; lia|]. unfold ephemeral_generate, ephemeral_of. rewrite E. auto.
Qed.

Lemma user_id_padded b : 1 <= len b <= 16 -> exists u, validate_user_id b = Ok u /\ len u = 16.
Proof.
  intros B. unfold validate_user_id, USER_ID_LEN, guard, copy_prefix. rewrite (proj2 (Z.eqb_neq _ _)), (proj2 (Z.ltb_ge _ _)) by lia.
  change (len (repeat 0 16)) with 16. rewrite (proj2 (Z.leb_le _ _)) by lia. eexists. split; [reflexivity|]. rewrite len_app. unfold len. rewrite length_skipn, repeat_length.
  unfold len in B. lia.
Qed.

(** The agreed point, on either side. *)
Lemma agreed_point s secret peer pub : ep_r (ks_ephemeral s) = secret_bytes secret -> (forall a b, point_of_xy a b pub = Ok (pmul generator (nonzero_scalar peer))) ->
  ephemeral_point s pub = kex_point_xy_bytes (pmul (pmul generator (nonzero_scalar peer)) (nonzero_scalar secret)).
Proof.
  intros E P. unfold ephemeral_point, parse_uncompressed_point. rewrite P. cbn [bind]. rewrite E. destruct (secret_roundtrip secret) as (k & -> & N). cbn [kex_map map_err bind]. now rewrite N.
Qed.

(** ** Properties *)

(** C14. The key exchange agrees. For all key pairs, ephemeral secrets and user
    identifiers of 1 to 16 bytes, the three messages pass, both sessions complete,
    and they hold the same shared secret and session key. The public key the
    responder is given for the initiator plays no part: whatever it is, and
    whatever key pair the initiator holds, the exchange completes, so the responder
    has not authenticated its peer. *)
Theorem kex_agreement (ka kb : Sm2KeyPair) (ida idb sida sidb : bytes) (ea eb : SecretKey) (claimed : Point) :
  1 <= len ida <= 16 -> 1 <= len idb <= 16 -> public_key kb = from_secret_scalar (nonzero_scalar (private_key kb)) ->
  exists sa sb m1 m2 m3 sa' sb' sb'' ra rb,
    new_initiator ka ida ea sida = Ok sa /\ new_responder kb idb eb sidb = Ok sb /\
    generate_msg1 sa = Ok m1 /\ process_msg1 m1 claimed sb = (sb', Ok m2) /\
    process_msg2 m2 (public_key kb) sa = (sa', Ok m3) /\ process_msg3 m3 sb' = (sb'', Ok tt) /\
    ks_state sa' = KexCompleted /\ ks_result sa' = Some ra /\ ks_state sb'' = KexCompleted /\ ks_result sb'' = Some rb /\
    kr_shared_secret ra = kr_shared_secret rb /\ kr_session_key ra = kr_session_key rb.
Proof.
  intros La Lb Kb. destruct (user_id_padded ida La) as (ua & Ua & _). destruct (user_id_padded idb Lb) as (ub & Ub & _).
  destruct (ephemeral_made ea) as (x1 & y1 & _ & Ea & P1 & V1). destruct (ephemeral_made eb) as (x2 & y2 & _ & Eb & P2 & V2).
  set (r1 := x1 ++ y1) in *. set (r2 := x2 ++ y2) in *. clearbody r1 r2. unfold new_initiator, new_responder, new_session. rewrite Ua, Ub, Ea, Eb. cbn [bind].
  destruct (point_bytes _ (prime_order eb ea)) as (x & y & _ & _ & _ & _ & _ & X & _).
  destruct (signing_keys DEFAULT_USER_ID (private_key kb)) as (sk & Sk & _). pose proof (verifying_key_of DEFAULT_USER_ID (private_key kb) sk Sk) as Vk. rewrite <- Kb in Vk.
  eexists _, _, _, _, _, _, _, _, _, _. split; [reflexivity|]. split; [reflexivity|]. split; [reflexivity|].
  split; [apply msg1_iff; repeat split; [exact V1|exists sk; repeat split; exact Sk]|]. split.
  - apply msg2_iff. repeat split; [exact V2|]. eexists _, _, (try_sign sk _), x, y. split; [reflexivity|]. split; [exact Vk|]. split; [apply signature_parsed|].
    split; [apply sign_verifies|]. split; [|split; reflexivity]. rewrite (agreed_point _ ea eb) by (trivial; exact P2). exact X.
  - split; [apply msg3_iff; repeat split; eexists _, x, y; split; [reflexivity|split; [|split; reflexivity]]|now repeat split].
    rewrite (agreed_point _ eb ea) by (trivial; exact P1). rewrite <- mul_comm. exact X.
Qed.

(** C15. A session completes only when its check passed. From a new session and
    over any sequence of messages given to its functions, in any order: a result is
    held exactly in the completed state; the failed state and the state that waits
    for a response are never entered; and a completed session was completed by a
    message its role checks, for the initiator a second message signed over both
    identifiers and both ephemeral keys by the public key given, for the responder
    a third message with the confirmation computed from its ephemeral secret. *)
Theorem kex_completes_checked (role : bool) (kp : Sm2KeyPair) (id sid : bytes) (secret : SecretKey) (s0 : KexSession) (events : list kex_event) :
  new_session role kp id secret sid = Ok s0 ->
  let s := fold_left kex_step events s0 in
  (ks_result s <> None <-> ks_state s = KexCompleted) /\ ks_state s <> KexFailed /\ ks_state s <> WaitForResponse /\
  (ks_state s = KexCompleted -> exists pre e post, events = pre ++ e :: post /\ completes (fold_left kex_step pre s0) e).
Proof.
  intros N. assert (O0 : session_ok s0 /\ ks_state s0 = KexInit).
  { unfold new_session in N. apply bind_ok_iff in N as (u & _ & N). apply bind_ok_iff in N as (ep & _ & N). apply ok_inj in N. now subst s0. }
  destruct O0 as [O0 S0]. cbv zeta.
  assert (R : session_ok (fold_left kex_step events s0) /\ (ks_state (fold_left kex_step events s0) = KexCompleted ->
    exists pre e post, events = pre ++ e :: post /\ completes (fold_left kex_step pre s0) e)).
  { induction events as [|e events [O IH]] using rev_ind; [split; [exact O0|cbn; rewrite S0; discriminate]|]. rewrite fold_left_app. cbn [fold_left].
    destruct (step_ok _ e O) as [O' C']. split; [exact O'|]. intros X. destruct (C' X) as [S|Cm].
    - destruct (IH S) as (pre & e' & post & -> & Cm). exists pre, e', (post ++ [e]). now rewrite <- app_assoc.
    - now exists events, e, []. }
  destruct R as [O R]. unfold session_ok in O. split; [|split; [|split; [|exact R]]].
  - clear R. revert O. destruct (ks_state (fold_left kex_step events s0)); intros O; try contradiction.
    + split; [now rewrite O|discriminate].
    + split; [now rewrite (proj1 O)|discriminate].
    + split; [reflexivity|now intros _].
  - intros X. now rewrite X in O.
  - intros X. now rewrite X in O.
Qed.
End KexLemmas.

#[global] Instance toy_group : Sm2Group toy_sm2 := {
  verifying_key_new _ _ := Ok tt;
  padd := xorb; sadd := xorb; smul := andb;
  scalar_from_repr _ := Some true;
  scalar_is_zero := negb
}.
#[global] Instance toy_group_laws : Sm2GroupLaws toy_sm2 toy_group.
Proof.
  constructor; cbn; try (intros; reflexivity).
  - now intros [] [] [].
  - now intros [] [] [].
  - now intros [] [] [].
  - now intros [] [].
  - now intros [] [].
  - intros k. now exists tt.
  - intros b _ _ _. now exists true.
Qed.

Lemma kex_agreement_witness : exists sa sb m1 m2 sb',
  new_initiator (C := toy_sm2) (generate (C := toy_sm2) tt) [65] tt [] = Ok sa /\ new_responder (C := toy_sm2) (generate (C := toy_sm2) tt) [66] tt [] = Ok sb /\
  generate_msg1 (C := toy_sm2) sa = Ok m1 /\ process_msg1 (C := toy_sm2) m1 false sb = (sb', Ok m2).
Proof.
  destruct (kex_agreement (H := toy_sm3) (LH := toy_sm3_laws) (LC := toy_sm2_laws) (LG := toy_group_laws) (generate (C := toy_sm2) tt) (generate (C := toy_sm2) tt) [65] [66] [] [] tt tt false)
    as (sa & sb & m1 & m2 & m3 & sa' & sb' & sb'' & ra & rb & A & B & M1 & M2 & _); [split; vm_compute; discriminate..|reflexivity|].
  exists sa, sb, m1, m2, sb'. auto.
Defined.

Lemma kex_completes_checked_witness : exists s0,
  new_session (C := toy_sm2) true (generate (C := toy_sm2) tt) [65] tt [] = Ok s0 /\
  ks_state (fold_left (kex_step (H := toy_sm3) (G := toy_group)) [Msg1 (msg_initiator [] []) true; Msg3 (msg_initiator [] [])] s0) <> KexFailed.
Proof.
  eexists. split; [reflexivity|]. 
  refine (proj1 (proj2 (kex_completes_checked (H := toy_sm3) (LH := toy_sm3_laws) (G := toy_group) true (generate (C := toy_sm2) tt) [65] [] tt _ _ _))). reflexivity.
Defined.
