(* ===== verification/X509.v ===== *)
(** X.509 certificates (gm-crypto/src/x509/verify.rs): critical extensions,
    validity, host names, SPIFFE identifiers, key usage, and the bytes a
    signature covers.

    Parsing (crates x509-parser and pem), IDNA (crate idna) and the text of
    object identifiers are parameters, the operations of [X509Parser]: a parsed
    certificate is the record of what its accessors return. Instants are
    integers. Strings are byte strings, as [&str] is. *)

From Stdlib Require Import String Ascii Bool ZArith Lia List.
From S2P Require Import Prelude Bytes Effects Der Sm4 Sm3 Sm2.
Import ListNotations.
Open Scope Z_scope.

(** ** What x509-parser returns *)

Record KeyUsage : Type := {
  ku_flags : Z;
  digital_signature : bool;
  key_encipherment : bool;
  key_agreement : bool;
  key_cert_sign : bool
}.

Record ExtendedKeyUsage : Type := { eku_any : bool; server_auth : bool; client_auth : bool; eku_debug : string }.

Inductive ParsedExtension : Type :=
| PE_KeyUsage (ku : KeyUsage)
| PE_ExtendedKeyUsage (eku : ExtendedKeyUsage)
| PE_BasicConstraints (ca : bool) (path_len_constraint : option Z)
| PE_Other.

Record X509Extension : Type := { ext_oid : bytes; critical : bool; ext_value : bytes; parsed_extension : ParsedExtension }.

Inductive GeneralName : Type := DNSName (s : string) | URI (s : string) | OtherName.

(** A name is its DER encoding, on which [X509Name] equality rests (it compares
    the parsed attributes and the raw bytes). [subject_alternative_name] is [None] when the
    accessor fails (two such extensions, or one that does not parse);
    [common_names] has [None] where an attribute is not a string. *)
Record X509Certificate : Type := {
  subject : bytes;
  issuer : bytes;
  serial : Z;
  raw_serial : bytes;
  not_before : Z;
  not_after : Z;
  subject_public_key : bytes;
  unused_bits : Z;
  signature_value : bytes;
  extensions : list X509Extension;
  subject_alternative_name : option (option (list GeneralName));
  common_names : list (option string)
}.

Record CertificateRevocationList : Type := {
  crl_issuer : bytes;
  last_update : Z;
  next_update : option Z;
  revoked_raw_serials : list bytes;
  crl_signature_value : bytes
}.

(** The errors are their [Display] and [Debug] texts. *)
Class X509Parser : Type := {
  x509_from_der : bytes -> (string * string) + X509Certificate;
  crl_from_der : bytes -> (string * string) + CertificateRevocationList;
  pem_iter : bytes -> list (string + bytes);
  pem_read : bytes -> string + bytes;
  parse_x509_pem : bytes -> string + bytes;
  general_names_from_der : bytes -> option (list GeneralName);
  domain_to_ascii : string -> option string;
  oid_display : bytes -> string
}.

(** A library's [Result]. *)
Definition result {E A : Type} (r : E + A) : outcome E A := match r with inl e => Err e | inr a => Ok a end.

(** ** Text *)

Definition cert_error (m : string) : CryptoError := CryptoCertificateVerificationFailed m.
Definition crl_error (m : string) : CryptoError := CrlVerificationFailed m.

(** [{:?}] of a printable string. *)
Definition debug_str (s : string) : string := (dquote +++ debug_escape s +++ dquote)%string.

Definition to_lower (c : ascii) : ascii :=
  let n := nat_of_ascii c in if ((65 <=? n) && (n <=? 90))%nat then ascii_of_nat (n + 32) else c.
Fixpoint lower (s : string) : string := match s with EmptyString => EmptyString | String c s => String (to_lower c) (lower s) end.
Definition eq_ignore_ascii_case (a b : string) : bool := String.eqb (lower a) (lower b).

(** [split_once(c)] and [find(c)]. *)
Fixpoint split_once (c : ascii) (s : string) : option (string * string) :=
  match s with
  | EmptyString => None
  | String d s =>
      if Ascii.eqb d c then Some (EmptyString, s)
      else match split_once c s with Some (a, b) => Some (String d a, b) | None => None end
  end.

(** [split(c)], never empty. *)
Fixpoint split (c : ascii) (s : string) : list string :=
  match s with
  | EmptyString => [EmptyString]
  | String d s =>
      match split c s with
      | p :: ps => if Ascii.eqb d c then EmptyString :: p :: ps else String d p :: ps
      | [] => []
      end
  end.

Definition str_starts_with (prefix s : string) : bool := String.prefix prefix s.
Definition strip_prefix (prefix s : string) : option string :=
  if String.prefix prefix s then Some (substring (String.length prefix) (String.length s - String.length prefix) s) else None.
Fixpoint str_any (p : ascii -> bool) (s : string) : bool := match s with EmptyString => false | String c s => p c || str_any p s end.
Definition contains_char (c : ascii) (s : string) : bool := str_any (Ascii.eqb c) s.
Fixpoint contains (sub s : string) : bool :=
  String.prefix sub s || match s with EmptyString => false | String _ s => contains sub s end.
Definition str_len (s : string) : Z := Z.of_nat (String.length s).
Definition ends_with_char (c : ascii) (s : string) : bool :=
  match String.get (String.length s - 1) s with Some d => Ascii.eqb d c | None => false end.

Definition code_in (lo hi : nat) (c : ascii) : bool := let n := nat_of_ascii c in ((lo <=? n) && (n <=? hi))%nat.
Definition is_ascii_uppercase : ascii -> bool := code_in 65 90.
Definition is_ascii_lowercase : ascii -> bool := code_in 97 122.
Definition is_ascii_digit : ascii -> bool := code_in 48 57.

(** [{:09b}] *)
Fixpoint bits (n : nat) (x : Z) : string :=
  match n with
  | O => EmptyString
  | S m => String (if Z.testbit x (Z.of_nat m) then "1" else "0")%char (bits m x)
  end.
Definition bin09 (x : Z) : string := bits (Nat.max 9 (Z.to_nat (Z.log2 x + 1))) x.

(** ** Critical extensions *)

Definition GMTLS_TLCP_SERVER_CERT_EXT_OID : bytes := [0x2A; 0x81; 0x1C; 0xD7; 0x63; 0x01; 0x01; 0x01].
Definition GMTLS_TLCP_CLIENT_CERT_EXT_OID : bytes := [0x2A; 0x81; 0x1C; 0xD7; 0x63; 0x01; 0x01; 0x02].

(** The arc 2.5.29 ([id-ce]). *)
Definition id_ce (n : Z) : bytes := [0x55; 0x1D; n].
Definition OID_X509_EXT_BASIC_CONSTRAINTS : bytes := id_ce 19.
Definition OID_X509_EXT_KEY_USAGE : bytes := id_ce 15.
Definition OID_X509_EXT_EXTENDED_KEY_USAGE : bytes := id_ce 37.

Definition KNOWN_X509_EXTENSIONS : list bytes :=
  [OID_X509_EXT_BASIC_CONSTRAINTS; OID_X509_EXT_KEY_USAGE; OID_X509_EXT_EXTENDED_KEY_USAGE;
   id_ce 17; id_ce 18; id_ce 14; id_ce 35; id_ce 31; id_ce 20; id_ce 27; id_ce 28; id_ce 46; id_ce 54; id_ce 30; id_ce 32;
   id_ce 36; id_ce 33; GMTLS_TLCP_SERVER_CERT_EXT_OID; GMTLS_TLCP_CLIENT_CERT_EXT_OID].

Definition known_oid (oid : bytes) : bool := existsb (bytes_eqb oid) KNOWN_X509_EXTENSIONS.

(** The section sign of the error texts, in UTF-8. *)
Definition section_sign : string := String (ascii_of_nat 194) (String (ascii_of_nat 167) EmptyString).

Section Checks.
Context {X : X509Parser}.

Fixpoint check_extensions (exts : list X509Extension) : outcome CryptoError unit :=
  match exts with
  | [] => Ok tt
  | ext :: exts =>
      if negb (critical ext) then check_extensions exts
      else if negb (known_oid (ext_oid ext)) then
        Err (cert_error ("certificate carries unrecognized critical extension OID " +++ oid_display (ext_oid ext) +++
                         " (RFC 5280 " +++ section_sign +++ "4.2: applications MUST reject)")%string)
      else check_extensions exts
  end.

Definition check_unknown_critical_extensions (cert : X509Certificate) : outcome CryptoError unit :=
  check_extensions (extensions cert).

(** ** Host names *)

Definition normalize_domain (domain : string) : string :=
  match domain_to_ascii domain with
  | Some s => s
  | None => String (ascii_of_nat 0) "idna-rejected"
  end.

Definition hostname_matches (san_entry expected_domain : string) : bool :=
  if eq_ignore_ascii_case san_entry expected_domain then true
  else
    match split_once "." san_entry with
    | None => false
    | Some (san_leftmost, san_rest) =>
        if negb (String.eqb san_leftmost "*") then false
        else
          match split_once "." expected_domain with
          | None => false
          | Some (exp_first, exp_rest) =>
              if String.eqb exp_first "" then false else eq_ignore_ascii_case exp_rest san_rest
          end
    end.

Definition san_names (cert : X509Certificate) : list GeneralName :=
  match subject_alternative_name cert with Some (Some names) => names | _ => [] end.

Definition dns_matches (domain : string) (name : GeneralName) : bool :=
  match name with DNSName dns => hostname_matches dns domain | _ => false end.

(** The subject's first common name. *)
Definition cn_matches (domain : string) (cert : X509Certificate) : bool :=
  match common_names cert with
  | Some cn :: _ => hostname_matches cn domain
  | _ => false
  end.

Definition in_validity (cert : X509Certificate) (now : Z) : bool := negb ((now <? not_before cert) || (not_after cert <? now)).

Definition validate_cert_parsed (cert : X509Certificate) (now : Z) (expected_domain : option string) : outcome CryptoError unit :=
  guard (negb (in_validity cert now)) (cert_error "certificate has expired or is not yet valid") (
  match expected_domain with
  | None => Ok tt
  | Some domain =>
      let domain := normalize_domain domain in
      let matched := existsb (dns_matches domain) (san_names cert) in
      let matched := if negb matched then cn_matches domain cert else matched in
      guard (negb matched) (cert_error "domain name mismatch") (Ok tt)
  end).

Definition parse_x509 (der : bytes) : outcome CryptoError X509Certificate :=
  map_err (fun e => cert_error ("X509 parse failed: " +++ fst e)%string) (result (x509_from_der der)).

Definition validate_hostname_only (leaf_der : bytes) (expected_domain : string) (now : Z) : outcome CryptoError unit :=
  cert <- parse_x509 leaf_der ;;
  _ <- check_unknown_critical_extensions cert ;;
  validate_cert_parsed cert now (Some expected_domain).

Definition validate_cert_pem (cert_pem : bytes) (now : Z) (expected_domain : option string) : outcome CryptoError unit :=
  contents <- map_err (fun e => cert_error ("PEM parse failed: " +++ e)%string) (result (pem_read cert_pem)) ;;
  cert <- parse_x509 contents ;;
  _ <- check_unknown_critical_extensions cert ;;
  validate_cert_parsed cert now expected_domain.

(** ** SPIFFE identifiers *)

Definition SPIFFE_ID_MAX_LEN : Z := 2048.
Record SpiffeId : Type := { trust_domain : string; path : string }.

Definition bad_label (label : string) : bool :=
  String.eqb label "" || str_starts_with "-" label || ends_with_char "-" label ||
  str_any (fun b => negb (is_ascii_lowercase b || is_ascii_digit b || Ascii.eqb b "-")) label.

Definition SpiffeId_parse (uri : string) : outcome CryptoError SpiffeId :=
  guard (SPIFFE_ID_MAX_LEN <? str_len uri)
    (cert_error ("SPIFFE ID exceeds max length " +++ dec SPIFFE_ID_MAX_LEN +++ " (got " +++ dec (str_len uri) +++ ")")%string) (
  match strip_prefix "spiffe://" uri with
  | None => Err (cert_error ("URI is not a SPIFFE ID: missing 'spiffe://' scheme (got " +++ debug_str uri +++ ")")%string)
  | Some rest =>
      match split_once "/" rest with
      | None => Err (cert_error ("SPIFFE ID has no '/'-prefixed path: " +++ debug_str uri)%string)
      | Some (td, after) =>
          let path_with_slash := String "/" after in
          guard (String.eqb td "") (cert_error ("SPIFFE ID has empty trust domain: " +++ debug_str uri)%string) (
          guard (str_any is_ascii_uppercase td)
            (cert_error ("SPIFFE ID trust domain must be lowercase per SPIFFE " +++ section_sign +++ "2.1.2 (got " +++ debug_str td +++ ")")%string) (
          guard (existsb bad_label (split "." td))
            (cert_error ("SPIFFE ID trust domain contains non-DNS characters: " +++ debug_str td)%string) (
          guard (String.eqb path_with_slash "" || negb (str_starts_with "/" path_with_slash))
            (cert_error ("SPIFFE ID path must be '/'-prefixed and non-empty: " +++ debug_str uri)%string) (
          guard (contains "//" path_with_slash || contains_char "?" path_with_slash || contains_char "#" path_with_slash ||
                 contains_char "%" path_with_slash)
            (cert_error ("SPIFFE ID path must be normalised per SPIFFE " +++ section_sign +++ "2.1.3 (no '//' / '?' / '#' / '%xx'): " +++
                         debug_str uri)%string) (
          Ok {| trust_domain := td; path := path_with_slash |})))))
      end
  end).

Inductive SpiffePathPolicy : Type := Prefix | Exact.
Inductive UriMatchPolicy : Type := Spiffe (p : SpiffePathPolicy) | Literal.
Definition UriMatchPolicy_default : UriMatchPolicy := Spiffe Prefix.

Definition path_matches (p : SpiffePathPolicy) (candidate expected : SpiffeId) : bool :=
  match p with
  | Prefix => str_starts_with (path expected) (path candidate)
  | Exact => String.eqb (path candidate) (path expected)
  end.

Definition spiffe_candidate (p : SpiffePathPolicy) (expected : SpiffeId) (uri : string) : bool :=
  match SpiffeId_parse uri with
  | Ok candidate => String.eqb (trust_domain candidate) (trust_domain expected) && path_matches p candidate expected
  | _ => false
  end.

Definition uri_sans (cert : X509Certificate) : list string :=
  flat_map (fun n => match n with URI u => [u] | _ => [] end) (san_names cert).

Definition debug_policy (p : SpiffePathPolicy) : string := match p with Prefix => "Prefix" | Exact => "Exact" end.

Definition validate_uri_only (leaf_der : bytes) (expected_uri : string) (now : Z) (policy : UriMatchPolicy) : outcome CryptoError unit :=
  cert <- parse_x509 leaf_der ;;
  _ <- check_unknown_critical_extensions cert ;;
  guard (negb (in_validity cert now)) (cert_error "certificate has expired or is not yet valid") (
  guard (match uri_sans cert with [] => true | _ => false end) (cert_error "no URI SAN entry in certificate") (
  match policy with
  | Spiffe p =>
      expected <- SpiffeId_parse expected_uri ;;
      if existsb (spiffe_candidate p expected) (uri_sans cert) then Ok tt
      else Err (cert_error ("no URI SAN matched expected SPIFFE ID " +++ debug_str expected_uri +++ " (policy = " +++ debug_policy p +++ ")")%string)
  | Literal =>
      if existsb (fun uri => String.eqb uri expected_uri) (uri_sans cert) then Ok tt
      else Err (cert_error ("no URI SAN matched expected URI " +++ debug_str expected_uri +++ " (literal equality)")%string)
  end)).

(** ** Key usage *)

Inductive CertRole : Type := TlcServer | TlcClient | TlcEncServer | TlcEncClient | Ca.

Definition find_extension (oid : bytes) (cert : X509Certificate) : option X509Extension :=
  find (fun ext => bytes_eqb (ext_oid ext) oid) (extensions cert).

Definition cert_key_usage (cert : X509Certificate) : option KeyUsage :=
  match find_extension OID_X509_EXT_KEY_USAGE cert with
  | Some ext => match parsed_extension ext with PE_KeyUsage ku => Some ku | _ => None end
  | None => None
  end.

Definition cert_extended_key_usage (cert : X509Certificate) : option ExtendedKeyUsage :=
  match find_extension OID_X509_EXT_EXTENDED_KEY_USAGE cert with
  | Some ext => match parsed_extension ext with PE_ExtendedKeyUsage eku => Some eku | _ => None end
  | None => None
  end.

(** [if let Some(ku) = ku { if !ok(ku) { return Err } }] *)
Definition require_usage (ku : option KeyUsage) (ok : KeyUsage -> bool) (what : string) : outcome CryptoError unit :=
  match ku with
  | Some ku => guard (negb (ok ku)) (cert_error (what +++ " (got KU flags = 0b" +++ bin09 (ku_flags ku) +++ ")")%string) (Ok tt)
  | None => Ok tt
  end.

Definition require_purpose (eku : option ExtendedKeyUsage) (ok : ExtendedKeyUsage -> bool) (purpose : string) : outcome CryptoError unit :=
  match eku with
  | Some eku =>
      guard (negb (ok eku || eku_any eku))
        (cert_error ("sign cert is missing required ExtendedKeyUsage " +++ purpose +++ " (got EKU = " +++ eku_debug eku +++ ")")%string) (Ok tt)
  | None => Ok tt
  end.

Definition verify_cert_role (cert : X509Certificate) (role : CertRole) : outcome CryptoError unit :=
  let ku := cert_key_usage cert in
  let eku := cert_extended_key_usage cert in
  match role with
  | TlcServer =>
      _ <- require_usage ku digital_signature "sign cert is missing required KeyUsage digitalSignature" ;;
      require_purpose eku server_auth "serverAuth"
  | TlcClient =>
      _ <- require_usage ku digital_signature "sign cert is missing required KeyUsage digitalSignature" ;;
      require_purpose eku client_auth "clientAuth"
  | TlcEncServer | TlcEncClient =>
      require_usage ku (fun ku => key_agreement ku || key_encipherment ku) "enc cert KeyUsage must include keyAgreement or keyEncipherment"
  | Ca => require_usage ku key_cert_sign "CA cert is missing required KeyUsage keyCertSign"
  end.

(** ** The signed part of a certificate *)

(** [for i in 0..n { len = (len << 8) | der[pos + i] }] on [usize]. *)
Fixpoint read_len {E : Type} (n : nat) (der : bytes) (pos acc : Z) : outcome E Z :=
  match n with
  | O => Ok acc
  | S n => b <- index der pos ;; read_len n der (pos + 1) (Z.lor (as_u64 (Z.shiftl acc 8)) b)
  end.

(** A length at [pos]: its value and the position after it. *)
Definition tbs_length (der : bytes) (pos : Z) (unsupported : string) : outcome CryptoError (Z * Z) :=
  first <- index der pos ;;
  if first <? 0x80 then Ok (first, pos + 1)
  else
    let num_len_bytes := Z.land first 0x7F in
    guard ((num_len_bytes =? 0) || (4 <? num_len_bytes)) (cert_error unsupported) (
    l <- read_len (Z.to_nat num_len_bytes) der (pos + 1) 0 ;;
    Ok (l, pos + 1 + num_len_bytes)).

Definition extract_tbs_bytes (der : bytes) : outcome CryptoError bytes :=
  guard (len der <? 11) (cert_error "certificate DER too short") (
  tag <- index der 0 ;;
  guard (negb (tag =? 0x30)) (cert_error "invalid certificate structure: expected SEQUENCE") (
  ' (_, pos) <- tbs_length der 1 "unsupported DER length encoding" ;;
  tbs_tag <- index der pos ;;
  guard (negb (tbs_tag =? 0x30)) (cert_error "invalid TBS structure: expected SEQUENCE") (
  ' (tbs_content_len, tbs_pos) <- tbs_length der (pos + 1) "unsupported TBS length encoding" ;;
  let tbs_end := tbs_pos + tbs_content_len in
  guard (len der <? tbs_end) (cert_error "TBS length exceeds certificate bounds") (
  slice der pos tbs_end)))).

(** ** Owned certificates: their DER *)

Record OwnedCert : Type := { der : bytes }.

Definition as_x509 (c : OwnedCert) : outcome CryptoError X509Certificate := parse_x509 (der c).
Definition raw_tbs_bytes (c : OwnedCert) : outcome CryptoError bytes := extract_tbs_bytes (der c).

Definition parse_der (d : bytes) : outcome CryptoError X509Certificate :=
  map_err (fun e => cert_error ("DER parse failed: " +++ snd e)%string) (result (x509_from_der d)).

Definition pem_block (o : string + bytes) : outcome CryptoError OwnedCert :=
  contents <- map_err (fun e => cert_error ("PEM parse failed: " +++ e)%string) (result o) ;;
  Ok {| der := contents |}.

Definition OwnedCert_from_pem (pem_bytes : bytes) : outcome CryptoError OwnedCert :=
  match pem_iter pem_bytes with
  | pem :: _ => pem_block pem
  | [] => Err (cert_error "certificate PEM is empty")
  end.

Definition OwnedCert_from_der (d : bytes) : outcome CryptoError OwnedCert :=
  _ <- parse_der d ;;
  Ok {| der := d |}.

Definition ascii_text (b : Z) : bool := (33 <=? b) && (b <=? 126) || existsb (Z.eqb b) [32; 9; 10; 12; 13].

Definition from_pem_or_der (b : bytes) : outcome CryptoError OwnedCert :=
  let is_pem := forallb ascii_text (firstn 11 b) in
  let looks_pem := is_pem && bytes_eqb (firstn 10 b) (bytes_of "-----BEGIN") in
  match (if looks_pem then OwnedCert_from_pem b else OwnedCert_from_der b) with
  | Ok c => Ok c
  | _ => Panic
  end.

Fixpoint pem_blocks (l : list (string + bytes)) : outcome CryptoError (list OwnedCert) :=
  match l with
  | [] => Ok []
  | pem :: l => c <- pem_block pem ;; cs <- pem_blocks l ;; Ok (c :: cs)
  end.

Definition chain_from_pem_concat (pem_bytes : bytes) : outcome CryptoError (list OwnedCert) :=
  out <- pem_blocks (pem_iter pem_bytes) ;;
  guard (match out with [] => true | _ => false end) (cert_error "certificate chain is empty") (Ok out).
End Checks.

(** ** Strings *)

Lemma append_assoc (a b c : string) : ((a +++ b) +++ c = a +++ b +++ c)%string.
Proof. induction a as [|x a IH]; [reflexivity|]. cbn. now rewrite IH. Qed.

Lemma length_append (a b : string) : String.length (a +++ b) = (String.length a + String.length b)%nat.
Proof. induction a as [|x a IH]; [reflexivity|]. cbn. now rewrite IH. Qed.

Lemma append_inj_l (a b c : string) : (a +++ b = a +++ c)%string -> b = c.
Proof. induction a as [|x a IH]; [easy|]. cbn. intros [= E]. auto. Qed.

Lemma prefix_iff p s : String.prefix p s = true <-> exists t, s = (p +++ t)%string.
Proof.
  revert s. induction p as [|c p IH]; intros s; [split; [intros _; now exists s|now destruct s]|].
  destruct s as [|d s]; cbn; [split; [discriminate|now intros [t E]]|].
  destruct (ascii_dec c d) as [<-|N].
  - rewrite IH. split; intros [t E]; exists t; [now subst|now injection E].
  - split; [discriminate|]. intros [t [= E _]]. congruence.
Qed.

Lemma substring_suffix p t : substring (String.length p) (String.length (p +++ t) - String.length p) (p +++ t) = t.
Proof.
  rewrite length_append, Nat.add_comm, Nat.add_sub. induction p as [|c p IH]; [|exact IH]. cbn.
  induction t as [|d t IH]; [reflexivity|]. cbn. now rewrite IH.
Qed.

Lemma strip_prefix_iff p s t : strip_prefix p s = Some t <-> s = (p +++ t)%string.
Proof.
  unfold strip_prefix. destruct (String.prefix p s) eqn:P.
  - apply prefix_iff in P as [u ->]. rewrite substring_suffix. split; [now intros [= ->]|].
    intros E. apply append_inj_l in E. now subst.
  - split; [discriminate|]. intros ->. assert (X : String.prefix p (p +++ t) = true) by (apply prefix_iff; now exists t). congruence.
Qed.

Lemma eqb_sym (c d : ascii) : Ascii.eqb c d = Ascii.eqb d c.
Proof. destruct (Ascii.eqb_spec c d), (Ascii.eqb_spec d c); congruence. Qed.

Lemma split_once_app c a b : contains_char c a = false -> split_once c (a +++ String c b) = Some (a, b).
Proof.
  induction a as [|d a IH]; cbn; [now rewrite Ascii.eqb_refl|]. intros [D A]%orb_false_iff.
  now rewrite eqb_sym, D, IH.
Qed.

Lemma split_once_sound c s a b : split_once c s = Some (a, b) -> s = (a +++ String c b)%string /\ contains_char c a = false.
Proof.
  revert a. induction s as [|d s IH]; intros a; [discriminate|]. cbn. destruct (Ascii.eqb_spec d c) as [->|N]; [intros [= <- <-]; now split|].
  destruct (split_once c s) as [[a' b']|]; [|discriminate]. intros [= <- ->]. destruct (IH _ eq_refl) as [-> X].
  split; [reflexivity|]. cbn. fold (contains_char c a'). rewrite X. now destruct (Ascii.eqb_spec c d); [congruence|].
Qed.

Lemma split_once_iff c s a b : split_once c s = Some (a, b) <-> s = (a +++ String c b)%string /\ contains_char c a = false.
Proof. split; [apply split_once_sound|]. intros [-> X]. now apply split_once_app. Qed.

(** ** Host names *)

(** A wildcard name stands for exactly one label. *)
Definition covers (pattern host : string) : Prop :=
  lower pattern = lower host \/
  exists rest label rest', pattern = ("*." +++ rest)%string /\ host = (label +++ "." +++ rest')%string /\
    label <> ""%string /\ contains_char "." label = false /\ lower rest' = lower rest.

Lemma hostname_matches_covers pattern host : hostname_matches pattern host = true <-> covers pattern host.
Proof.
  unfold hostname_matches, covers, eq_ignore_ascii_case. destruct (String.eqb_spec (lower pattern) (lower host)) as [E|N]; [tauto|].
  split.
  - destruct (split_once "." pattern) as [[l r]|] eqn:P; [|discriminate].
    destruct (String.eqb_spec l "*") as [->|]; [|discriminate]. cbn [negb].
    destruct (split_once "." host) as [[f r']|] eqn:H; [|discriminate].
    destruct (String.eqb_spec f ""); [discriminate|]. intros L%String.eqb_eq.
    apply split_once_sound in P as [-> _], H as [-> F]. right. now exists r, f, r'.
  - intros [E|(r & f & r' & -> & -> & F & D & L)]; [contradiction|].
    change ("*." +++ r)%string with ("*" +++ String "." r)%string. rewrite split_once_app by reflexivity. cbn [negb String.eqb].
    change (f +++ "." +++ r')%string with (f +++ String "." r')%string. rewrite split_once_app by exact D.
    destruct (String.eqb_spec f ""); [contradiction|]. apply String.eqb_eq, L.
Qed.

(** ** SPIFFE identifiers *)

Definition spiffe_uri (id : SpiffeId) : string := ("spiffe://" +++ trust_domain id +++ path id)%string.

Definition dns_label (l : string) : bool := negb (bad_label l).
Definition plain_path (p : string) : bool := negb (contains "//" p || contains_char "?" p || contains_char "#" p || contains_char "%" p).

Definition wf_spiffe (id : SpiffeId) : Prop :=
  str_len (spiffe_uri id) <= SPIFFE_ID_MAX_LEN /\ forallb dns_label (split "." (trust_domain id)) = true /\
  str_starts_with "/" (path id) = true /\ plain_path (path id) = true.

Lemma split_nonempty c s : split c s <> [].
Proof. induction s as [|d s IH]; [discriminate|]. cbn. destruct (split c s); [easy|]. now destruct (Ascii.eqb d c). Qed.

Lemma str_any_split p c s : p c = false -> str_any p s = existsb (str_any p) (split c s).
Proof.
  intros P. induction s as [|d s IH]; [reflexivity|]. cbn. rewrite IH. pose proof (split_nonempty c s) as N.
  destruct (split c s) as [|x l]; [contradiction|]. destruct (Ascii.eqb_spec d c) as [->|]; cbn; [now rewrite P|apply orb_assoc].
Qed.

Definition dns_char (b : ascii) : bool := is_ascii_lowercase b || is_ascii_digit b || Ascii.eqb b "-".

Lemma str_any_impl (p q : ascii -> bool) s : (forall c, p c = true -> q c = true) -> str_any q s = false -> str_any p s = false.
Proof.
  intros I. induction s as [|c s IH]; [reflexivity|]. cbn. intros [Q R]%orb_false_iff. rewrite (IH R), orb_false_r.
  destruct (p c) eqn:P; [|reflexivity]. now rewrite (I c P) in Q.
Qed.

(** A trust domain made of DNS labels has only their characters. *)
Lemma dns_labels_chars p td : p "."%char = false -> (forall c, p c = true -> dns_char c = false) ->
  forallb dns_label (split "." td) = true -> str_any p td = false.
Proof.
  intros P D. rewrite (str_any_split p "."%char td P). induction (split "." td) as [|l ls IH]; [reflexivity|].
  cbn. intros [L R]%andb_true_iff. rewrite (IH R), orb_false_r. unfold dns_label, bad_label in L.
  apply negb_true_iff, orb_false_iff in L as [_ L]. revert L. apply str_any_impl. intros c C. apply negb_true_iff, D, C.
Qed.

Lemma dns_labels_nonempty td : forallb dns_label (split "." td) = true -> td <> ""%string.
Proof. now intros W ->. Qed.

Lemma slash_not_dns c : Ascii.eqb "/" c = true -> dns_char c = false.
Proof. now intros <-%Ascii.eqb_eq. Qed.

Lemma upper_not_dns c : is_ascii_uppercase c = true -> dns_char c = false.
Proof. now destruct c as [[] [] [] [] [] [] [] []]. Qed.

Lemma existsb_forallb {A} (p : A -> bool) l : existsb p l = negb (forallb (fun x => negb (p x)) l).
Proof. induction l as [|x l IH]; [reflexivity|]. cbn. rewrite IH. now destruct (p x). Qed.

Lemma spiffe_parse_sound uri id : SpiffeId_parse uri = Ok id -> uri = spiffe_uri id /\ wf_spiffe id.
Proof.
  unfold SpiffeId_parse, guard. destruct (Z.ltb_spec SPIFFE_ID_MAX_LEN (str_len uri)) as [|L]; [discriminate|].
  destruct (strip_prefix "spiffe://" uri) as [rest|] eqn:P; [|discriminate]. apply strip_prefix_iff in P.
  destruct (split_once "/" rest) as [[td after]|] eqn:S; [|discriminate]. apply split_once_sound in S as [-> _]. cbn zeta.
  destruct (String.eqb_spec td ""); [discriminate|]. destruct (str_any is_ascii_uppercase td); [discriminate|].
  destruct (existsb bad_label _) eqn:B; [discriminate|]. rewrite existsb_forallb in B. apply negb_false_iff in B.
  destruct (_ || negb _); [discriminate|]. destruct (contains "//" _ || _ || _ || _) eqn:Q; [discriminate|].
  intros [= <-]. assert (E : uri = spiffe_uri {| trust_domain := td; path := String "/" after |}) by exact P.
  split; [exact E|]. unfold wf_spiffe, plain_path. cbn [trust_domain path]. rewrite <- E, Q.
  split; [exact L|]. split; [exact B|]. split; [now destruct after|reflexivity].
Qed.

Lemma spiffe_parse_complete id : wf_spiffe id -> SpiffeId_parse (spiffe_uri id) = Ok id.
Proof.
  destruct id as [td p]. intros (L & D & S & Q). cbn [trust_domain path] in *. apply prefix_iff in S as [after ->].
  unfold SpiffeId_parse, guard. rewrite (proj2 (Z.ltb_ge _ _) L).
  rewrite (proj2 (strip_prefix_iff "spiffe://" _ (td +++ String "/" after))) by reflexivity.
  rewrite split_once_app by (apply dns_labels_chars; [reflexivity|apply slash_not_dns|exact D]).
  rewrite (proj2 (String.eqb_neq td "") (dns_labels_nonempty td D)).
  rewrite (dns_labels_chars is_ascii_uppercase td eq_refl upper_not_dns D).
  rewrite existsb_forallb. change (fun x => negb (bad_label x)) with dns_label. rewrite D. cbn [negb].
  apply negb_true_iff in Q. cbn [String.append] in Q. cbn zeta. rewrite Q. now destruct after.
Qed.

(** SPIFFE identifiers are parsed exactly: a text is accepted when and only
    when it is the printed form of a well-formed identifier (a trust domain of
    lowercase DNS labels, a plain absolute path, at most 2048 bytes), and the
    result is that identifier. *)
Theorem spiffe_parse_exact (uri : string) (id : SpiffeId) :
  SpiffeId_parse uri = Ok id <-> uri = spiffe_uri id /\ wf_spiffe id.
Proof. split; [apply spiffe_parse_sound|]. intros [-> W]. now apply spiffe_parse_complete. Qed.

(** ** Validation of an end entity *)

Section Validation.
Context {X : X509Parser}.

(** In force, and with no critical extension outside the known ones. *)
Definition acceptable (cert : X509Certificate) (now : Z) : Prop :=
  Forall (fun e => critical e = true -> In (ext_oid e) KNOWN_X509_EXTENSIONS) (extensions cert) /\
  not_before cert <= now <= not_after cert.

Lemma known_oid_iff oid : known_oid oid = true <-> In oid KNOWN_X509_EXTENSIONS.
Proof.
  unfold known_oid. rewrite existsb_exists. split; [|intros I; exists oid; split; [exact I|apply bytes_eqb_refl]].
  intros (o & I & E). apply bytes_eqb_eq in E. now subst.
Qed.

Lemma critical_ok cert : check_unknown_critical_extensions cert = Ok tt <->
  Forall (fun e => critical e = true -> In (ext_oid e) KNOWN_X509_EXTENSIONS) (extensions cert).
Proof.
  unfold check_unknown_critical_extensions. induction (extensions cert) as [|e l IH]; [now split|].
  cbn [check_extensions]. rewrite Forall_cons_iff, <- known_oid_iff, <- IH.
  destruct (critical e); cbn [negb]; [|intuition discriminate]. destruct (known_oid (ext_oid e)); cbn [negb]; intuition discriminate.
Qed.

Lemma in_validity_iff cert now : in_validity cert now = true <-> not_before cert <= now <= not_after cert.
Proof. unfold in_validity. rewrite negb_true_iff, orb_false_iff, !Z.ltb_ge. tauto. Qed.

Definition names_host (cert : X509Certificate) (host : string) : Prop :=
  (exists dns, In (DNSName dns) (san_names cert) /\ covers dns host) \/
  (exists cn rest, common_names cert = Some cn :: rest /\ covers cn host).

Lemma dns_matches_iff host names : existsb (dns_matches host) names = true <-> exists dns, In (DNSName dns) names /\ covers dns host.
Proof.
  rewrite existsb_exists. split.
  - intros ([dns| |] & I & M); try discriminate. exists dns. split; [exact I|]. now apply hostname_matches_covers.
  - intros (dns & I & C). exists (DNSName dns). split; [exact I|]. now apply hostname_matches_covers.
Qed.

Lemma cn_matches_iff host cert : cn_matches host cert = true <-> exists cn rest, common_names cert = Some cn :: rest /\ covers cn host.
Proof.
  unfold cn_matches. destruct (common_names cert) as [|[cn|] rest].
  - split; [discriminate|]. now intros (? & ? & ? & _).
  - rewrite hostname_matches_covers. split; [intros C; now exists cn, rest|]. now intros (? & ? & [= -> ->] & C).
  - split; [discriminate|]. now intros (? & ? & ? & _).
Qed.

Lemma validate_parsed_iff cert now dom : validate_cert_parsed cert now dom = Ok tt <->
  not_before cert <= now <= not_after cert /\ match dom with Some d => names_host cert (normalize_domain d) | None => True end.
Proof.
  unfold validate_cert_parsed. rewrite guard_ok_iff, negb_false_iff, in_validity_iff. destruct dom as [d|]; [|tauto].
  rewrite guard_ok_iff, negb_false_iff. unfold names_host. rewrite <- dns_matches_iff, <- cn_matches_iff.
  destruct (existsb _ _); cbn [negb]; intuition discriminate.
Qed.

Lemma parse_x509_iff d cert : parse_x509 d = Ok cert <-> x509_from_der d = inr cert.
Proof. unfold parse_x509. rewrite map_err_ok_iff. destruct (x509_from_der d); cbn; split; congruence. Qed.

(** C35. A certificate is accepted for a host exactly when it parses, is in force,
    has no unknown critical extension, and one of its DNS names or its first
    common name covers the normalised host, where a name covers itself up to case
    and [*.rest] covers one more label before [rest]. The common name counts
    whether or not there are DNS names, and may be a wildcard. *)
Theorem hostname_validation_exact (leaf : bytes) (host : string) (now : Z) :
  validate_hostname_only leaf host now = Ok tt <->
  exists cert, x509_from_der leaf = inr cert /\ acceptable cert now /\ names_host cert (normalize_domain host).
Proof.
  unfold validate_hostname_only, acceptable. rewrite bind_ok_iff. split; intros (cert & P & Y); exists cert; revert P Y;
    rewrite parse_x509_iff, bind_unit_iff, critical_ok, validate_parsed_iff; tauto.
Qed.

(** What a policy asks of a certificate's URI. *)
Definition uri_agrees (policy : UriMatchPolicy) (expected uri : string) : Prop :=
  match policy with
  | Literal => uri = expected
  | Spiffe p => exists e c, expected = spiffe_uri e /\ wf_spiffe e /\ uri = spiffe_uri c /\ wf_spiffe c /\
      match p with
      | Exact => uri = expected
      | Prefix => exists suffix, uri = (expected +++ suffix)%string
      end
  end.

Lemma spiffe_prefix e c : trust_domain c = trust_domain e ->
  str_starts_with (path e) (path c) = true <-> exists suffix, spiffe_uri c = (spiffe_uri e +++ suffix)%string.
Proof.
  intros T. unfold str_starts_with, spiffe_uri. rewrite prefix_iff, T. split; intros [t E]; exists t.
  - now rewrite E, !append_assoc.
  - rewrite !append_assoc in E. now apply append_inj_l, append_inj_l in E.
Qed.

(** An identifier has one spelling, so a URI that extends another keeps its trust domain. *)
Lemma spiffe_extends e c suffix : wf_spiffe e -> wf_spiffe c -> spiffe_uri c = (spiffe_uri e +++ suffix)%string ->
  trust_domain c = trust_domain e.
Proof.
  intros (_ & De & Se & _) (_ & Dc & Sc & _). apply prefix_iff in Se as [pe Pe], Sc as [pc Pc]. unfold spiffe_uri.
  rewrite Pe, Pc, !append_assoc. intros E. apply append_inj_l in E.
  assert (S : forall td, forallb dns_label (split "." td) = true -> forall r, split_once "/" (td +++ "/" +++ r) = Some (td, r)).
  { intros td D r. apply split_once_app, dns_labels_chars; [reflexivity|apply slash_not_dns|exact D]. }
  pose proof (S _ Dc pc) as C. rewrite E in C. pose proof (S _ De (pe +++ suffix)%string) as C'. congruence.
Qed.

Lemma spiffe_candidate_iff p e uri : wf_spiffe e -> spiffe_candidate p e uri = true <->
  exists c, uri = spiffe_uri c /\ wf_spiffe c /\
    match p with Exact => uri = spiffe_uri e | Prefix => exists suffix, uri = (spiffe_uri e +++ suffix)%string end.
Proof.
  intros We. unfold spiffe_candidate. destruct (SpiffeId_parse uri) as [c| |] eqn:P.
  2,3: split; [discriminate|]; intros (c & -> & Wc & _); rewrite spiffe_parse_complete in P by exact Wc; discriminate.
  apply spiffe_parse_sound in P as [-> Wc]. rewrite andb_true_iff, String.eqb_eq. split.
  - intros [T M]. exists c. split; [reflexivity|]. split; [exact Wc|]. destruct p; cbn in M.
    + now apply spiffe_prefix.
    + apply String.eqb_eq in M. unfold spiffe_uri. now rewrite T, M.
  - intros (_ & _ & _ & M). destruct p.
    + destruct M as [t E]. pose proof (spiffe_extends _ _ _ We Wc E) as T. split; [exact T|]. apply spiffe_prefix; [exact T|]. now exists t.
    + pose proof (spiffe_parse_complete c Wc) as Q. rewrite M, spiffe_parse_complete in Q by exact We. injection Q as ->.
      split; [reflexivity|]. cbn. apply String.eqb_refl.
Qed.

Lemma uri_sans_iff u cert : In u (uri_sans cert) <-> In (URI u) (san_names cert).
Proof.
  unfold uri_sans. rewrite in_flat_map. split; [|intros I; exists (URI u); now split; [|left]].
  intros ([|v|] & I & Y); try easy. now destruct Y as [<-|[]].
Qed.

Lemma if_ok_iff {E : Type} (b : bool) (e : E) : (if b then Ok tt else Err e) = Ok tt <-> b = true.
Proof. destruct b; split; congruence. Qed.

(** The last step of [validate_uri_only]. *)
Lemma policy_iff cert expected (policy : UriMatchPolicy) (e1 : SpiffePathPolicy -> CryptoError) (e2 : CryptoError) :
  match policy with
  | Spiffe p => e <- SpiffeId_parse expected ;; if existsb (spiffe_candidate p e) (uri_sans cert) then Ok tt else Err (e1 p)
  | Literal => if existsb (fun u => String.eqb u expected) (uri_sans cert) then Ok tt else Err e2
  end = Ok tt <-> exists uri, In (URI uri) (san_names cert) /\ uri_agrees policy expected uri.
Proof.
  setoid_rewrite <- uri_sans_iff. destruct policy as [p|]; cbn [uri_agrees].
  - rewrite bind_ok_iff. setoid_rewrite if_ok_iff. setoid_rewrite existsb_exists. split.
    + intros (e & P & u & I & C). apply spiffe_parse_sound in P as [-> We]. apply spiffe_candidate_iff in C as (c & -> & Wc & M); [|exact We].
      exists (spiffe_uri c). split; [exact I|]. now exists e, c.
    + intros (u & I & e & c & -> & We & E & Wc & M). exists e. split; [now apply spiffe_parse_complete|]. exists u. split; [exact I|].
      apply spiffe_candidate_iff; [exact We|]. now exists c.
  - rewrite if_ok_iff, existsb_exists. setoid_rewrite String.eqb_eq. reflexivity.
Qed.

(** A certificate is accepted for a URI exactly when it parses, is in force,
    has no unknown critical extension, and one of its URI names agrees with the
    expected one: is it ([Literal], and [Exact] for well-formed SPIFFE
    identifiers), or ([Prefix]) is a well-formed identifier that extends the
    expected one by any text, which need not start a path segment. *)
Theorem uri_validation_exact (leaf : bytes) (expected : string) (now : Z) (policy : UriMatchPolicy) :
  validate_uri_only leaf expected now policy = Ok tt <->
  exists cert, x509_from_der leaf = inr cert /\ acceptable cert now /\
    exists uri, In (URI uri) (san_names cert) /\ uri_agrees policy expected uri.
Proof.
  unfold validate_uri_only, acceptable. rewrite bind_ok_iff. split; intros (cert & P & Y); exists cert; revert P Y;
    rewrite parse_x509_iff, bind_unit_iff, critical_ok, !guard_ok_iff, negb_false_iff, in_validity_iff,
      (policy_iff cert expected policy (fun p => cert_error _)); try tauto.
  intros P ((C & V) & uri & I & A). repeat split; try tauto; [|now exists uri].
  apply uri_sans_iff in I. now destruct (uri_sans cert).
Qed.
End Validation.

(** ** The signed part of an encoded structure *)

Lemma read_len_spec {E} pre l rest acc : wf_bytes l = true -> 0 <= acc -> acc * 256 ^ len l + from_be l < 2 ^ 64 ->
  read_len (E:=E) (List.length l) (pre ++ l ++ rest) (len pre) acc = Ok (acc * 256 ^ len l + from_be l).
Proof.
  revert pre acc. induction l as [|b l IH]; intros pre acc W A B; cbn [List.length read_len].
  - f_equal. rewrite len_nil. unfold from_be; cbn [from_be_acc]. lia.
  - rewrite wf_bytes_cons in W. apply andb_true_iff in W as [Wb W]. apply is_byte_iff in Wb. pose proof (from_be_bound l W).
    rewrite from_be_cons, len_cons in *. rewrite Z.pow_add_r in * by (pose proof (len_nonneg l); lia). change (256 ^ 1) with 256 in *.
    assert (0 < 256 ^ len l) by (apply Z.pow_pos_nonneg; [lia|apply len_nonneg]).
    cbn [app]. rewrite index_app by reflexivity. cbn [bind]. assert (acc * 256 < 2 ^ 64) by nia.
    unfold as_u64. rewrite Z.mod_small, lor_shiftl_add by (rewrite ?Z.shiftl_mul_pow2 by lia; lia).
    replace (len pre + 1) with (len (pre ++ [b])) by (rewrite len_app; reflexivity).
    replace (pre ++ b :: l ++ rest) with ((pre ++ [b]) ++ l ++ rest) by now rewrite <- app_assoc.
    rewrite IH; [f_equal; ring|assumption|lia|nia].
Qed.

Lemma der_len_shape n : 0 <= n < 2 ^ 32 -> (n < 0x80 /\ der_len n = [n]) \/
  exists k : nat, (1 <= k <= 4)%nat /\ n < 256 ^ Z.of_nat k /\ der_len n = (0x80 + Z.of_nat k) :: be_bytes k n.
Proof.
  intros N. unfold der_len. repeat case_cmp.
  - left. split; [lia|]. now rewrite as_u8_small by lia.
  - right. exists 1%nat. repeat split; lia.
  - right. exists 2%nat. repeat split; lia.
  - right. exists 3%nat. repeat split; lia.
  - right. exists 4%nat. repeat split; lia.
Qed.

Lemma tbs_length_encoded n pre rest u : 0 <= n < 2 ^ 32 ->
  tbs_length (pre ++ der_len n ++ rest) (len pre) u = Ok (n, len pre + len (der_len n)).
Proof.
  intros N. unfold tbs_length. destruct (der_len_shape n N) as [[S ->]|(k & K & B & ->)]; cbn [app]; rewrite index_app by reflexivity; cbn [bind].
  - now rewrite (proj2 (Z.ltb_lt _ _) S).
  - destruct (Z.ltb_spec (128 + Z.of_nat k) 128); [lia|].
    assert (E : Z.land (128 + Z.of_nat k) 0x7F = Z.of_nat k) 
      by (destruct k as [|[|[|[|[|k]]]]]; reflexivity || lia).
    cbn zeta. rewrite E. unfold guard. destruct (Z.eqb_spec (Z.of_nat k) 0), (Z.ltb_spec 4 (Z.of_nat k)); try lia. cbn [orb].
    rewrite Nat2Z.id. pose proof (@read_len_spec CryptoError (pre ++ [128 + Z.of_nat k]) (be_bytes k n) rest 0 (wf_be_bytes k n)) as R.
    rewrite length_be_bytes, from_be_bytes_small, <- app_assoc, len_app in R by lia.
    change (len [128 + Z.of_nat k]) with 1 in R. cbn [app] in R. rewrite R by lia. cbn [bind].
    rewrite len_cons, len_be_bytes. do 2 f_equal. lia.
Qed.

Lemma extract_tbs_encoded c rest : len (der_sequence c ++ rest) < 2 ^ 32 -> 9 <= len (der_sequence c ++ rest) ->
  extract_tbs_bytes (der_sequence (der_sequence c ++ rest)) = Ok (der_sequence c).
Proof.
  set (body := der_sequence c ++ rest). intros U L. pose proof (len_nonneg c). pose proof (len_nonneg rest).
  assert (B : len body = 1 + len (der_len (len c)) + len c + len rest) by (unfold body, der_sequence; rewrite !len_app; change (len [0x30]) with 1; lia).
  pose proof (der_len_len (len body) ltac:(lia)) as D. pose proof (len_nonneg (der_len (len c))).
  assert (1 <= len (der_len (len body))) by (rewrite D; repeat case_cmp; lia).
  unfold extract_tbs_bytes, guard. rewrite (proj2 (Z.ltb_ge _ _)) by (unfold der_sequence at 1; rewrite !len_app; change (len [0x30]) with 1; lia).
  change (index (der_sequence body) 0) with (@Ok CryptoError Z 0x30). cbn [bind Z.eqb negb Pos.eqb].
  replace (der_sequence body) with ([0x30] ++ der_len (len body) ++ body) by reflexivity.
  change 1 with (len [0x30]) at 1. rewrite tbs_length_encoded by lia. cbn [bind].
  set (pre := [0x30] ++ der_len (len body)). assert (P : len [0x30] + len (der_len (len body)) = len pre) by (unfold pre; now rewrite len_app).
  rewrite P. rewrite app_assoc. fold pre.
  assert (S : body = 0x30 :: der_len (len c) ++ c ++ rest) by (unfold body, der_sequence; now rewrite <- !app_assoc).
  rewrite S. rewrite index_app by reflexivity. cbn [bind Z.eqb negb Pos.eqb].
  replace (pre ++ 0x30 :: der_len (len c) ++ c ++ rest) with ((pre ++ [0x30]) ++ der_len (len c) ++ c ++ rest) by now rewrite <- app_assoc.
  replace (len pre + 1) with (len (pre ++ [0x30])) by now rewrite len_app.
  rewrite tbs_length_encoded by lia. cbn [bind]. rewrite (proj2 (Z.ltb_ge _ _)) by (rewrite !len_app; lia).
  replace ((pre ++ [0x30]) ++ der_len (len c) ++ c ++ rest) with (pre ++ der_sequence c ++ rest) by (unfold der_sequence; now rewrite <- !app_assoc).
  apply slice_app; [reflexivity|]. unfold der_sequence. rewrite !len_app. lia.
Qed.

Lemma read_len_sound {E} n der pos acc : wf_bytes der = true -> 0 <= pos -> pos + Z.of_nat n <= len der -> 0 <= acc ->
  exists l, read_len (E:=E) n der pos acc = Ok l /\ 0 <= l.
Proof.
  intros W. revert pos acc. induction n as [|n IH]; intros pos acc P L A; [now exists acc|]. cbn [read_len].
  destruct (@index_in E Z der pos ltac:(lia)) as (b & -> & I). cbn [bind]. apply IH; try lia.
  unfold wf_bytes in W. rewrite forallb_forall in W. apply Z.lor_nonneg. split; [apply Z.mod_pos_bound; lia|]. apply W, is_byte_iff in I. lia.
Qed.

Lemma tbs_length_sound der pos u : wf_bytes der = true -> 0 <= pos -> pos + 4 < len der ->
  match tbs_length der pos u with Ok (l, p) => 0 <= l /\ pos < p <= pos + 5 | Err _ => True | Panic => False end.
Proof.
  intros W P L. unfold tbs_length. destruct (@index_in CryptoError Z der pos ltac:(lia)) as (b & -> & I). cbn [bind].
  unfold wf_bytes in W. pose proof W as W'. rewrite forallb_forall in W'. apply W', is_byte_iff in I. case_cmp; [lia|].
  unfold guard. destruct (Z.eqb_spec (Z.land b 127) 0), (Z.ltb_spec 4 (Z.land b 127)); try easy. cbn [orb].
  assert (0 <= Z.land b 127) by (apply Z.land_nonneg; lia).
  destruct (@read_len_sound CryptoError (Z.to_nat (Z.land b 127)) der (pos + 1) 0 W ltac:(lia) ltac:(lia) ltac:(lia)) as (l & -> & L0).
  cbn [bind]. lia.
Qed.

Lemma extract_tbs_no_panic der : wf_bytes der = true -> 12 <= len der -> no_panic (extract_tbs_bytes der).
Proof.
  intros W L. unfold extract_tbs_bytes, guard, no_panic. rewrite (proj2 (Z.ltb_ge _ _)) by lia.
  destruct (@index_in CryptoError Z der 0 ltac:(lia)) as (t & -> & _). cbn [bind]. destruct (negb _); [discriminate|].
  pose proof (tbs_length_sound der 1 "unsupported DER length encoding" W ltac:(lia) ltac:(lia)) as S.
  destruct (tbs_length der 1 _) as [[l pos]|e|]; [|discriminate|contradiction]. cbn [bind].
  destruct (@index_in CryptoError Z der pos ltac:(lia)) as (t' & -> & _). cbn [bind]. destruct (negb _); [discriminate|].
  pose proof (tbs_length_sound der (pos + 1) "unsupported TBS length encoding" W ltac:(lia) ltac:(lia)) as S'.
  destruct (tbs_length der (pos + 1) _) as [[n p]|e|]; [|discriminate|contradiction]. cbn [bind].
  destruct (Z.ltb_spec (len der) (p + n)); [discriminate|]. unfold slice.
  rewrite (proj2 (Z.leb_le 0 pos)), (proj2 (Z.leb_le pos (p + n))), (proj2 (Z.leb_le (p + n) (len der))) by lia. discriminate.
Qed.

(** The bytes a certificate's signature covers: from an encoded sequence that
    starts with an encoded sequence, exactly the latter is taken. No input of
    twelve bytes or more makes the extraction panic; the code's own bound, eleven,
    is one short, and an input of eleven bytes panics. *)
Theorem tbs_extraction (c rest input : bytes) :
  (9 <= len (der_sequence c ++ rest) < 2 ^ 32 ->
   extract_tbs_bytes (der_sequence (der_sequence c ++ rest)) = Ok (der_sequence c)) /\
  (wf_bytes input = true -> len input <> 11 -> no_panic (extract_tbs_bytes input)) /\
  extract_tbs_bytes [0x30; 0x84; 0; 0; 0; 0; 0x30; 0x84; 0; 0; 0] = Panic.
Proof.
  split; [intros []; now apply extract_tbs_encoded|]. split; [|reflexivity].
  intros W N. destruct (Z.ltb_spec (len input) 11).
  - unfold extract_tbs_bytes, no_panic, guard. now rewrite (proj2 (Z.ltb_lt _ _)) by lia.
  - apply extract_tbs_no_panic; [exact W|lia].
Qed.
