(* ===== verification/X509Chain.v ===== *)
(** Certificate chains (gm-crypto/src/x509/verify.rs): the SM2 signature of a
    certificate under a policy on signer identities, the walk from a leaf to a
    trust anchor, and an exact description of the chains it accepts.

    Verification runs over the log of the audit callback: the identities it was
    called with, in order. *)

From Stdlib Require Import String Bool ZArith Lia List.
From S2P Require Import Prelude Bytes Effects Der Sm4 Sm3 Sm2 X509.
Import ListNotations.
Open Scope Z_scope.

Definition GM_TLS_DISTID : string := "1234567812345678".

(** [audit_on_fallback] is whether there is a callback. *)
Inductive DistidPolicy : Type :=
| Distid_Strict
| Distid_Permissive (fallback_distids : list string) (audit_on_fallback : bool).

Definition audit_log : Type := list string.
Definition MAX_CERT_CHAIN_DEPTH : Z := 10.

Section Chain.
Context {X : X509Parser} {C : Sm2Crate}.

(** ** Signatures *)

Fixpoint try_distids (key tbs sig : bytes) (distids : list string) (audit : bool) (kind : string) (n : Z) :
    M audit_log CryptoError unit :=
  match distids with
  | [] =>
      fail (cert_error (kind +++ " verification failed under permissive distid policy: tried GM/T standard distid and " +++ dec n +++ " fallback distid(s)")%string)
  | distid :: distids =>
      vk <-- lift (map_err (fun e => cert_error ("failed to create fallback " +++ kind +++ " verifier (distid len = " +++ dec (str_len distid) +++ "): " +++
                                         display_crypto e)%string) (Sm2Verifier_new key distid)) ;;;
      match Sm2Verifier_verify vk tbs sig with
      | Ok _ => if audit then modify (fun log => log ++ [distid]) else ret tt
      | Err _ => try_distids key tbs sig distids audit kind n
      | Panic => lift Panic
      end
  end.

Definition verify_with_distid_fallbacks (key tbs sig : bytes) (fallback_distids : list string) (audit : bool) (kind : string) :
    M audit_log CryptoError unit :=
  try_distids key tbs sig fallback_distids audit kind (len fallback_distids).

(** The issuer's key, decompressed. *)
Definition issuer_key (mk : string -> CryptoError) (key : bytes) : outcome CryptoError bytes :=
  if (len key =? 33) && ((nth 0 key 0 =? 0x02) || (nth 0 key 0 =? 0x03))
  then map_err (fun e => mk ("failed to decompress SM2 public key: " +++ display_crypto e)%string) (decompress_sm2_pubkey key)
  else Ok key.

(** Raw signatures are 64 bytes, longer ones are DER. *)
Definition raw_signature (mk : string -> CryptoError) (what : string) (short : Z -> string) (sig : bytes) : outcome CryptoError bytes :=
  if len sig =? 64 then Ok sig
  else if 64 <? len sig then
    map_err (fun e => mk ("failed to parse DER SM2 " +++ what +++ ": " +++ display_crypto e)%string) (sm2_signature_der_to_raw sig)
  else Err (mk (short (len sig))).

Definition cert_signature (sig : bytes) : outcome CryptoError bytes :=
  raw_signature cert_error "signature" (fun n => "SM2 signature too short: " +++ dec n +++ " bytes (expected 64 raw or DER-encoded)")%string sig.

Definition strict_error (kind : string) (e : CryptoError) : string :=
  (kind +++ " verification failed under strict distid policy (" +++ display_crypto e +++ "); no fallback to weaker distid will be attempted")%string.

Definition verify_cert_signature_with_distid (leaf_cert ca_cert : X509Certificate) (leaf_der : bytes) (policy : DistidPolicy) :
    M audit_log CryptoError unit :=
  tbs <-- lift (extract_tbs_bytes leaf_der) ;;;
  key <-- lift (issuer_key cert_error (subject_public_key ca_cert)) ;;;
  sig <-- lift (cert_signature (signature_value leaf_cert)) ;;;
  vk <-- lift (map_err (fun e => cert_error ("failed to create SM2 verifier: " +++ display_crypto e)%string) (Sm2Verifier_new key GM_TLS_DISTID)) ;;;
  match Sm2Verifier_verify vk tbs sig with
  | Ok _ => ret tt
  | Err e =>
      match policy with
      | Distid_Strict => fail (cert_error (strict_error "SM2" e))
      | Distid_Permissive fallback_distids audit => verify_with_distid_fallbacks key tbs sig fallback_distids audit "SM2"
      end
  | Panic => lift Panic
  end.

(** ** One link *)

Definition verify_cert_chain_sm2_with_distid (leaf ca : OwnedCert) (now : Z) (expected_domain : option string) (policy : DistidPolicy) :
    M audit_log CryptoError unit :=
  leaf_cert <-- lift (as_x509 leaf) ;;;
  ca_cert <-- lift (as_x509 ca) ;;;
  lift (validate_cert_parsed leaf_cert now expected_domain) ;;;
  lift (validate_cert_parsed ca_cert now None) ;;;
  failIf (negb (bytes_eqb (issuer leaf_cert) (subject ca_cert))) (cert_error "certificate issuer does not match CA") ;;;
  verify_cert_signature_with_distid leaf_cert ca_cert (der leaf) policy.

Definition check_role (cert : X509Certificate) (role : option CertRole) : outcome CryptoError unit :=
  match role with Some r => verify_cert_role cert r | None => Ok tt end.

(** BasicConstraints of the element at [idx >= 1]. *)
Definition check_basic_constraints (cert : X509Certificate) (idx : Z) : outcome CryptoError unit :=
  match find_extension OID_X509_EXT_BASIC_CONSTRAINTS cert with
  | Some ext =>
      match parsed_extension ext with
      | PE_BasicConstraints ca path_len_constraint =>
          guard (negb ca) (cert_error "CA certificate missing BasicConstraints CA:TRUE") (
          match path_len_constraint with
          | Some max_pathlen =>
              let intermediates_below := as_u32 (idx - 1) in
              guard (max_pathlen <? intermediates_below)
                (cert_error ("CA certificate pathLenConstraint = " +++ dec max_pathlen +++ " but " +++ dec intermediates_below +++
                             " non-leaf intermediate(s) follow it in the chain")%string) (Ok tt)
          | None => Ok tt
          end)
      | _ => Ok tt
      end
  | None => Err (cert_error "CA certificate missing BasicConstraints extension")
  end.

(** ** The walk *)

(** The last element against each anchor in turn, keeping the last error. *)
Fixpoint try_anchors (child : OwnedCert) (anchors : list OwnedCert) (now : Z) (domain : option string) (this_role : option CertRole)
    (policy : DistidPolicy) (last_err : option CryptoError) : M audit_log CryptoError unit :=
  match anchors with
  | [] => match last_err with Some e => fail e | None => ret tt end
  | anchor :: anchors => fun log =>
      match verify_cert_chain_sm2_with_distid child anchor now domain policy log with
      | (log, Ok _) => match this_role with
                       | Some r => (cert <-- lift (as_x509 child) ;;; lift (verify_cert_role cert r)) log
                       | None => (log, Ok tt)
                       end
      | (log, Err e) => try_anchors child anchors now domain this_role policy (Some e) log
      | (log, Panic) => (log, Panic)
      end
  end.

Fixpoint walk (idx : Z) (chain anchors : list OwnedCert) (now : Z) (expected_domain : option string) (role : option CertRole)
    (policy : DistidPolicy) : M audit_log CryptoError unit :=
  match chain with
  | [] => ret tt
  | child :: rest =>
      let domain := if idx =? 0 then expected_domain else None in
      let role_for_idx := if idx =? 0 then role else Some Ca in
      cert <-- lift (as_x509 child) ;;;
      lift (check_unknown_critical_extensions cert) ;;;
      match rest with
      | issuer_owned :: _ =>
          verify_cert_chain_sm2_with_distid child issuer_owned now domain policy ;;;
          child_cert <-- lift (as_x509 child) ;;;
          lift (check_role child_cert role_for_idx) ;;;
          lift (if 1 <=? idx then check_basic_constraints child_cert idx else Ok tt) ;;;
          walk (idx + 1) rest anchors now expected_domain role policy
      | [] => try_anchors child anchors now domain role_for_idx policy None
      end
  end.

Definition verify_cert_chain_sm2_chain_with_distid_policy (leaf_chain trust_anchors : list OwnedCert) (now : Z)
    (expected_domain : option string) (role : option CertRole) (policy : DistidPolicy) : M audit_log CryptoError unit :=
  failIf (match leaf_chain, trust_anchors with [], _ | _, [] => true | _, _ => false end)
    (cert_error "certificate chain or trust anchor is empty") ;;;
  failIf (MAX_CERT_CHAIN_DEPTH <? len leaf_chain)
    (cert_error ("certificate chain too deep: " +++ dec (len leaf_chain) +++ " (max " +++ dec MAX_CERT_CHAIN_DEPTH +++ ")")%string) ;;;
  walk 0 leaf_chain trust_anchors now expected_domain role policy.

Definition verify_cert_chain_sm2_chain (leaf_chain trust_anchors : list OwnedCert) (now : Z) (expected_domain : option string)
    (role : option CertRole) : M audit_log CryptoError unit :=
  verify_cert_chain_sm2_chain_with_distid_policy leaf_chain trust_anchors now expected_domain role Distid_Strict.

Definition verify_against_anchors_with_distid_policy (leaf_chain_der anchors_der : list bytes) (now : Z) (expected_domain : option string)
    (role : option CertRole) (policy : DistidPolicy) : M audit_log CryptoError unit :=
  let leaf_chain := map (fun d => {| der := d |}) leaf_chain_der in
  let trust_anchors := map (fun d => {| der := d |}) anchors_der in
  verify_cert_chain_sm2_chain_with_distid_policy leaf_chain trust_anchors now expected_domain role policy.

Definition verify_against_anchors (leaf_chain_der anchors_der : list bytes) (now : Z) (expected_domain : option string)
    (role : option CertRole) : M audit_log CryptoError unit :=
  verify_against_anchors_with_distid_policy leaf_chain_der anchors_der now expected_domain role Distid_Strict.

Definition extract_server_pubkey_for_cert_verify (cert_chain_pem : bytes) : outcome CryptoError bytes :=
  chain <- chain_from_pem_concat cert_chain_pem ;;
  match chain with
  | [] => Err (cert_error "certificate chain is empty")
  | leaf :: _ =>
      leaf_cert <- as_x509 leaf ;;
      issuer_key cert_error (subject_public_key leaf_cert)
  end.
End Chain.

(** ** What is accepted *)

Section Spec.
Context {X : X509Parser} {C : Sm2Crate} {LC : Sm2Laws C}.

Definition verifies (key tbs sig : bytes) (distid : string) : Prop :=
  exists vk, Sm2Verifier_new key distid = Ok vk /\ Sm2Verifier_verify vk tbs sig = Ok tt.

(** The certificate [c] carries a signature by the key of [ca] under the standard identity. *)
Definition signed_by (c : OwnedCert) (cert ca : X509Certificate) : Prop :=
  exists tbs key sig, raw_tbs_bytes c = Ok tbs /\ issuer_key cert_error (subject_public_key ca) = Ok key /\
    cert_signature (signature_value cert) = Ok sig /\ verifies key tbs sig GM_TLS_DISTID.

Definition in_force (cert : X509Certificate) (now : Z) : Prop := not_before cert <= now <= not_after cert.

(** [c] is named and signed by [a], and both are in force. *)
Definition linked (now : Z) (host : option string) (c a : OwnedCert) : Prop :=
  exists cert ca, x509_from_der (der c) = inr cert /\ x509_from_der (der a) = inr ca /\
    in_force cert now /\ in_force ca now /\
    match host with Some h => names_host cert (normalize_domain h) | None => True end /\
    issuer cert = subject ca /\ signed_by c cert ca.

(** What is asked of one element by itself. *)
Definition element_ok (c : OwnedCert) (role : option CertRole) : Prop :=
  exists cert, x509_from_der (der c) = inr cert /\
    Forall (fun e => critical e = true -> In (ext_oid e) KNOWN_X509_EXTENSIONS) (extensions cert) /\
    check_role cert role = Ok tt.

(** A certificate that may issue with [below] intermediates under it. An
    extension with the BasicConstraints identifier that did not parse as one is
    not held against it. *)
Definition may_issue (c : OwnedCert) (below : Z) : Prop :=
  exists cert ext, x509_from_der (der c) = inr cert /\ find_extension OID_X509_EXT_BASIC_CONSTRAINTS cert = Some ext /\
    match parsed_extension ext with
    | PE_BasicConstraints ca max => ca = true /\ match max with Some m => below <= m | None => True end
    | _ => True
    end.

Section Paths.
Variables (anchors : list OwnedCert) (now : Z) (host : option string) (role : option CertRole).

Definition host_at (idx : Z) : option string := if idx =? 0 then host else None.
Definition role_at (idx : Z) : option CertRole := if idx =? 0 then role else Some Ca.

(** The part of a chain from index [idx] up to an anchor. *)
Inductive valid_from : Z -> list OwnedCert -> Prop :=
| valid_last idx c a : In a anchors -> linked now (host_at idx) c a -> element_ok c (role_at idx) -> valid_from idx [c]
| valid_link idx c d rest : linked now (host_at idx) c d -> element_ok c (role_at idx) -> (1 <= idx -> may_issue c (idx - 1)) ->
    valid_from (idx + 1) (d :: rest) -> valid_from idx (c :: d :: rest).
End Paths.

(** *** Signatures and links *)

Lemma verifier_total key id : no_panic (Sm2Verifier_new key id).
Proof. unfold Sm2Verifier_new, sm2_map. pose proof (verifying_key_total id key) as T. unfold no_panic in *. now destruct (verifying_key_from_sec1 id key). Qed.

Lemma signature_strict_iff cert ca c log log' :
  verify_cert_signature_with_distid cert ca (der c) Distid_Strict log = (log', Ok tt) <-> log' = log /\ signed_by c cert ca.
Proof.
  unfold verify_cert_signature_with_distid, signed_by, raw_tbs_bytes. split.
  - intros Y. apply bind_lift_iff in Y as (tbs & T & Y). apply bind_lift_iff in Y as (key & K & Y).
    apply bind_lift_iff in Y as (sig & G & Y). apply bind_lift_iff in Y as (vk & V & Y). rewrite map_err_ok_iff in V.
    destruct (Sm2Verifier_verify vk tbs sig) as [[]|e|] eqn:E; try discriminate. injection Y as <-. split; [reflexivity|].
    exists tbs, key, sig. repeat split; try assumption. now exists vk.
  - intros (-> & tbs & key & sig & -> & -> & -> & vk & V & E). rewrite !bind_lift, V. cbn [map_err]. now rewrite E.
Qed.

Lemma as_x509_iff c cert : as_x509 c = Ok cert <-> x509_from_der (der c) = inr cert.
Proof. apply parse_x509_iff. Qed.

Lemma link_strict_iff c a now host log log' :
  verify_cert_chain_sm2_with_distid c a now host Distid_Strict log = (log', Ok tt) <-> log' = log /\ linked now host c a.
Proof.
  unfold verify_cert_chain_sm2_with_distid, linked, in_force. split.
  - intros Y. apply bind_lift_iff in Y as (cert & P & Y). apply bind_lift_iff in Y as (ca & Q & Y).
    apply bind_lift_iff in Y as ([] & V & Y). apply bind_lift_iff in Y as ([] & W & Y). apply bind_failIf_iff in Y as [I Y].
    apply negb_false_iff, bytes_eqb_eq in I. apply signature_strict_iff in Y as [-> Y]. split; [reflexivity|].
    apply as_x509_iff in P, Q. apply validate_parsed_iff in V as [V N], W as [W _]. now exists cert, ca.
  - intros (-> & cert & ca & P & Q & V & W & N & I & G). rewrite (bind_lift (as_x509 c)), (proj2 (as_x509_iff c cert) P).
    rewrite bind_lift, (proj2 (as_x509_iff a ca) Q), bind_lift, (proj2 (validate_parsed_iff cert now host) (conj V N)).
    rewrite bind_lift, (proj2 (validate_parsed_iff ca now None) (conj W Logic.I)).
    apply bind_failIf_iff. rewrite I, bytes_eqb_refl. split; [reflexivity|]. now apply signature_strict_iff.
Qed.

(** Under the strict policy nothing is logged. *)
Lemma signature_strict_log cert ca d log : fst (verify_cert_signature_with_distid cert ca d Distid_Strict log) = log.
Proof.
  unfold verify_cert_signature_with_distid. rewrite bind_lift. destruct (extract_tbs_bytes d); try reflexivity.
  rewrite bind_lift. destruct (issuer_key _ _); try reflexivity. rewrite bind_lift. destruct (cert_signature _); try reflexivity.
  rewrite bind_lift. destruct (map_err _ _); try reflexivity. now destruct (Sm2Verifier_verify _ _ _).
Qed.

Lemma link_strict_log c a now host log : fst (verify_cert_chain_sm2_with_distid c a now host Distid_Strict log) = log.
Proof.
  unfold verify_cert_chain_sm2_with_distid. rewrite bind_lift. destruct (as_x509 c); try reflexivity.
  rewrite bind_lift. destruct (as_x509 a); try reflexivity. rewrite bind_lift. destruct (validate_cert_parsed _ _ _); try reflexivity.
  rewrite bind_lift. destruct (validate_cert_parsed _ _ _); try reflexivity. rewrite bind_failIf.
  destruct (negb _); [reflexivity|]. apply signature_strict_log.
Qed.

(** Whether a link panics does not depend on the issuer, once some issuer is linked. *)
Lemma link_no_panic c a b now host log : linked now host c a ->
  snd (verify_cert_chain_sm2_with_distid c b now host Distid_Strict log) <> Panic.
Proof.
  intros (cert & ca & P & _ & V & _ & N & _ & tbs & key & sig & T & _ & G & vk0 & _ & F).
  unfold verify_cert_chain_sm2_with_distid. rewrite bind_lift, (proj2 (as_x509_iff c cert) P).
  rewrite bind_lift. unfold as_x509, parse_x509. destruct (x509_from_der (der b)) as [e|cb]; [discriminate|]. cbn [result map_err].
  rewrite bind_lift, (proj2 (validate_parsed_iff cert now host) (conj V N)), bind_lift.
  unfold validate_cert_parsed, guard. destruct (negb _); [discriminate|]. rewrite bind_failIf. destruct (negb _); [discriminate|].
  unfold verify_cert_signature_with_distid. unfold raw_tbs_bytes in T. rewrite bind_lift, T, bind_lift.
  assert (K : issuer_key cert_error (subject_public_key cb) <> Panic).
  { unfold issuer_key, decompress_sm2_pubkey. destruct (_ && _); [|discriminate]. destruct (sec1_error _); [discriminate|].
    unfold some_or_sm2. now destruct (decode_point _). }
  destruct (issuer_key _ _) as [k|e|]; [|discriminate|contradiction]. rewrite bind_lift, G, bind_lift.
  pose proof (verifier_total k GM_TLS_DISTID) as VT. unfold no_panic in VT.
  destruct (Sm2Verifier_new k GM_TLS_DISTID) as [vk|e|]; [|discriminate|contradiction]. cbn [map_err].
  unfold Sm2Verifier_verify, guard in F |- *. destruct (negb _); [discriminate|].
  destruct (sm2_map _ (signature_from_bytes sig)) as [s|e|]; try discriminate. cbn [bind]. now destruct (verify_error vk tbs s).
Qed.

(** *** The anchors and the walk *)

Lemma role_step child cert role (log log' : audit_log) : x509_from_der (der child) = inr cert ->
  match role with
  | Some r => (c <-- lift (as_x509 child) ;;; lift (verify_cert_role c r)) log
  | None => (log, Ok tt)
  end = (log', Ok tt) <-> log' = log /\ check_role cert role = Ok tt.
Proof.
  intros P. unfold check_role. destruct role as [r|].
  - rewrite bind_lift, (proj2 (as_x509_iff child cert) P). unfold lift. split; [intros [= <- ->]; now split|now intros [-> ->]].
  - split; [intros [= <-]; now split|now intros [-> _]].
Qed.

Lemma try_anchors_iff child cert anchors now host role last log log' : x509_from_der (der child) = inr cert ->
  anchors <> [] \/ last <> None ->
  try_anchors child anchors now host role Distid_Strict last log = (log', Ok tt) <->
  log' = log /\ check_role cert role = Ok tt /\ exists a, In a anchors /\ linked now host child a.
Proof.
  intros P. revert last. induction anchors as [|a anchors IH]; intros last N; cbn [try_anchors].
  - destruct N as [|N]; [easy|]. destruct last; [|easy]. split; [discriminate|]. now intros (_ & _ & a & [] & _).
  - pose proof (link_strict_log child a now host log) as L. pose proof (link_strict_iff child a now host log log) as K.
    destruct (verify_cert_chain_sm2_with_distid child a now host Distid_Strict log) as [log1 [[]|e|]] eqn:V; cbn [fst] in L; subst log1.
    + rewrite role_step by exact P. split.
      * intros [-> R]. repeat split; [exact R|]. exists a. split; [now left|]. now apply K.
      * tauto.
    + rewrite IH by now right. split.
      * intros (-> & R & b & I & B). repeat split; [exact R|]. exists b. now split; [right|].
      * intros (-> & R & b & [<-|I] & B); [now apply (conj eq_refl), K in B|]. repeat split; [exact R|]. now exists b.
    + split; [discriminate|]. intros (_ & _ & b & _ & B). exfalso. apply (link_no_panic child b a now host log B). now rewrite V.
Qed.

Lemma basic_constraints_iff c cert idx : x509_from_der (der c) = inr cert -> 1 <= idx <= 10 ->
  check_basic_constraints cert idx = Ok tt <-> may_issue c (idx - 1).
Proof.
  intros P B. unfold check_basic_constraints, may_issue, as_u32. rewrite Z.mod_small by lia.
  destruct (find_extension _ cert) as [ext|] eqn:F.
  2: split; [discriminate|]; intros (k & e & P' & F' & _); congruence.
  transitivity (match parsed_extension ext with
    | PE_BasicConstraints ca max => ca = true /\ match max with Some m => idx - 1 <= m | None => True end | _ => True end).
  - destruct (parsed_extension ext) as [| |ca [m|]|]; try tauto; rewrite ?guard_ok_iff, ?negb_false_iff, ?Z.ltb_ge; tauto.
  - split; [intros Y; now exists cert, ext|]. intros (k & e & P' & F' & Y). replace e with ext in Y by congruence. exact Y.
Qed.

Lemma walk_iff anchors now host role chain idx log log' : anchors <> [] -> chain <> [] -> 0 <= idx -> idx + len chain <= 10 ->
  walk idx chain anchors now host role Distid_Strict log = (log', Ok tt) <-> log' = log /\ valid_from anchors now host role idx chain.
Proof.
  intros A. revert idx log. induction chain as [|c rest IH]; intros idx log N I L; [easy|]. rewrite len_cons in L.
  pose proof (len_nonneg rest). cbn [walk]. fold (host_at host idx) (role_at role idx). rewrite bind_lift_iff. setoid_rewrite bind_lift_iff. destruct rest as [|d rest].
  - split.
    + intros (cert & P & [] & K & Y). apply as_x509_iff in P. apply (try_anchors_iff c cert) in Y as (-> & R & a & Ia & La); [|exact P|now left].
      split; [reflexivity|]. apply (valid_last _ _ _ _ _ _ a Ia La). exists cert. now rewrite <- critical_ok.
    + intros [-> V]. inversion V as [i c' a Ia La (cert & P & K & R)|]; subst. exists cert. split; [now apply as_x509_iff|].
      exists tt. split; [now apply critical_ok|]. apply (try_anchors_iff c cert); [exact P|now left|]. repeat split; [exact R|]. now exists a.
  - split.
    + intros (cert & P & [] & K & Y). apply bindM_ok_iff in Y as (log1 & [] & V & Y). apply link_strict_iff in V as [-> V].
      apply bind_lift_iff in Y as (cert' & P' & Y). replace cert' with cert in Y by congruence. apply as_x509_iff in P.
      apply bind_lift_iff in Y as ([] & R & Y). apply bind_lift_iff in Y as ([] & B & Y).
      apply IH in Y as [-> Y]; [|easy|lia|lia]. split; [reflexivity|]. apply valid_link; [exact V| | |exact Y].
      * exists cert. now rewrite <- critical_ok.
      * intros G. rewrite (proj2 (Z.leb_le 1 idx) G) in B. apply (basic_constraints_iff c cert); [exact P|lia|exact B].
    + intros [-> V]. inversion V as [|i c' d' r' La (cert & P & K & R) G Y]; subst. pose proof (proj2 (as_x509_iff c cert) P) as Q.
      exists cert. split; [exact Q|]. exists tt. split; [now apply critical_ok|]. apply bindM_ok_iff. exists log, tt.
      split; [now apply link_strict_iff|]. rewrite bind_lift, Q, bind_lift, R, bind_lift.
      assert (B : (if 1 <=? idx then check_basic_constraints cert idx else Ok tt) = Ok tt).
      { destruct (Z.leb_spec 1 idx); [|reflexivity]. apply (basic_constraints_iff c cert); [exact P|lia|]. now apply G. }
      rewrite B. apply IH; [easy|lia|lia|]. now split.
Qed.

(** C8. Chain verification is exact. Under the default policy a chain is accepted
    when and only when it has one to ten elements, each is in force, has no
    unknown critical extension and fits its role, each is named and signed, under
    the standard identity, by the next, the last by some anchor, the leaf has the
    expected host name, and every element strictly between the leaf and the last
    may issue certificates with that many intermediates under it. Nothing is
    logged. *)
Theorem chain_verification_exact (chain anchors : list OwnedCert) (now : Z) (host : option string) (role : option CertRole) (log log' : audit_log) :
  verify_cert_chain_sm2_chain chain anchors now host role log = (log', Ok tt) <->
  log' = log /\ len chain <= 10 /\ valid_from anchors now host role 0 chain.
Proof.
  unfold verify_cert_chain_sm2_chain, verify_cert_chain_sm2_chain_with_distid_policy.
  rewrite !bind_failIf_iff, Z.ltb_ge. destruct chain as [|c chain]; [split; [easy|]; intros (_ & _ & V); inversion V|].
  destruct anchors as [|a anchors].
  - split; [easy|]. intros (_ & _ & V). exfalso. revert V. generalize 0. generalize (c :: chain). intros l idx V.
    induction V as [i x a I|]; [destruct I|assumption].
  - destruct (Z.le_gt_cases (len (c :: chain)) 10).
    + rewrite walk_iff by (easy || lia). change MAX_CERT_CHAIN_DEPTH with 10. tauto.
    + change MAX_CERT_CHAIN_DEPTH with 10. lia.
Qed.

(** *** Fallback identities *)

Definition rejects (key tbs sig : bytes) (distid : string) : Prop :=
  exists vk e, Sm2Verifier_new key distid = Ok vk /\ Sm2Verifier_verify vk tbs sig = Err e.

(** [d] is the first identity of the list that verifies. *)
Definition first_accepted (key tbs sig : bytes) (distids : list string) (d : string) : Prop :=
  exists l1 l2, distids = l1 ++ d :: l2 /\ Forall (rejects key tbs sig) l1 /\ verifies key tbs sig d.

Lemma first_accepted_cons key tbs sig x l d : first_accepted key tbs sig (x :: l) d <->
  (d = x /\ verifies key tbs sig x) \/ (rejects key tbs sig x /\ first_accepted key tbs sig l d).
Proof.
  split.
  - intros ([|y l1] & l2 & E & F & V); injection E as -> ->; [now left|]. right. inversion F; subst. split; [assumption|]. now exists l1, l2.
  - intros [[-> V]|(R & l1 & l2 & -> & F & V)]; [now exists [], l|]. exists (x :: l1), l2. split; [reflexivity|]. now split; [constructor|].
Qed.

Lemma fallbacks_iff key tbs sig distids audit kind n log log' :
  try_distids key tbs sig distids audit kind n log = (log', Ok tt) <->
  exists d, first_accepted key tbs sig distids d /\ log' = if audit then log ++ [d] else log.
Proof.
  induction distids as [|x l IH]; cbn [try_distids].
  - split; [discriminate|]. intros (d & (l1 & l2 & E & _) & _). now destruct l1.
  - rewrite bind_lift_iff. setoid_rewrite map_err_ok_iff. setoid_rewrite first_accepted_cons. unfold verifies at 1, rejects at 1. split.
    + intros (vk & V & Y). destruct (Sm2Verifier_verify vk tbs sig) as [[]|e|] eqn:E; [| |discriminate].
      * exists x. split; [left; split; [reflexivity|now exists vk]|]. destruct audit; now injection Y as <-.
      * apply IH in Y as (d & F & ->). exists d. split; [right; split; [now exists vk, e|exact F]|reflexivity].
    + intros (d & [(-> & vk & V & E)|((vk & e & V & E) & F)] & ->); exists vk; (split; [exact V|]); rewrite E; [now destruct audit|].
      apply IH. now exists d.
Qed.

(** Which signer identity a signature may have used. A permissive policy
    accepts a certificate exactly when its signature verifies under the standard
    identity, and then logs nothing, or fails there and verifies under one of the
    fallback identities, and then the callback, if any, is called once, with the
    first that does. *)
Theorem permissive_policy_exact (cert ca : X509Certificate) (c : OwnedCert) (distids : list string) (audit : bool) (log log' : audit_log) :
  verify_cert_signature_with_distid cert ca (der c) (Distid_Permissive distids audit) log = (log', Ok tt) <->
  exists tbs key sig, raw_tbs_bytes c = Ok tbs /\ issuer_key cert_error (subject_public_key ca) = Ok key /\
    cert_signature (signature_value cert) = Ok sig /\
    ((verifies key tbs sig GM_TLS_DISTID /\ log' = log) \/
     (rejects key tbs sig GM_TLS_DISTID /\ exists d, first_accepted key tbs sig distids d /\ log' = if audit then log ++ [d] else log)).
Proof.
  unfold verify_cert_signature_with_distid, raw_tbs_bytes. split.
  - intros Y. apply bind_lift_iff in Y as (tbs & T & Y). apply bind_lift_iff in Y as (key & K & Y).
    apply bind_lift_iff in Y as (sig & G & Y). apply bind_lift_iff in Y as (vk & V & Y). rewrite map_err_ok_iff in V.
    exists tbs, key, sig. repeat split; try assumption. destruct (Sm2Verifier_verify vk tbs sig) as [[]|e|] eqn:E; [left|right|discriminate].
    + injection Y as <-. split; [now exists vk|reflexivity].
    + split; [now exists vk, e|]. now apply fallbacks_iff in Y.
  - intros (tbs & key & sig & -> & -> & -> & [((vk & V & E) & ->)|((vk & e & V & E) & F)]); rewrite !bind_lift, V; cbn [map_err]; rewrite E; [reflexivity|].
    now apply fallbacks_iff.
Qed.
End Spec.

(** ** An instance *)

(** Three certificates of a toy authority: 1 is the anchor, 2 an end entity it
    issued (CA:FALSE), 3 a leaf issued by 2. A DER input names its certificate in
    its seventh byte. *)
Definition toy_tbs (k : Z) : bytes := der_sequence [2; 1; k; 0; 0; 0; 0].
Definition toy_der (k : Z) : bytes := der_sequence (toy_tbs k ++ [5; 0]).
Definition toy_cert (k : Z) : X509Certificate := {|
  subject := [k]; issuer := [if k =? 1 then 1 else k - 1]; serial := k; raw_serial := [k]; not_before := 0; not_after := 100;
  subject_public_key := 4 :: repeat 1 64; unused_bits := 0; signature_value := repeat (toy_sum (toy_tbs k)) 64;
  extensions := [{| ext_oid := OID_X509_EXT_BASIC_CONSTRAINTS; critical := true; ext_value := []; parsed_extension := PE_BasicConstraints (k =? 1) None |}];
  subject_alternative_name := Some (Some [DNSName "other.org"]);
  common_names := [Some "*.example.com"%string] |}.

#[global] Instance toy_x509 : X509Parser := {
  x509_from_der d := if len d =? 13 then inr (toy_cert (nth 6 d 0)) else inl ("bad"%string, "Bad"%string);
  crl_from_der _ := inl ("bad"%string, "Bad"%string);
  pem_iter d := [inr d];
  pem_read d := inr d;
  parse_x509_pem d := inr d;
  general_names_from_der _ := None;
  domain_to_ascii s := Some (lower s);
  oid_display _ := "oid"%string
}.

Definition toy_owned (k : Z) : OwnedCert := {| der := toy_der k |}.

(** The last element of a longer chain needs no authority to issue: this certificate,
    which its BasicConstraints forbid to issue, has issued the leaf of an accepted chain.
    Its KeyUsage is still looked at, where it has one. *)
Example end_entity_issued :
  ~ may_issue (toy_owned 2) 0 /\
  verify_cert_chain_sm2_chain [toy_owned 3; toy_owned 2] [toy_owned 1] 50 (Some "www.Example.com"%string) (Some TlcServer) [] = ([], Ok tt).
Proof.
  split; [|reflexivity].
  intros (cert & ext & P & F & B). vm_compute in P. injection P as <-. vm_compute in F. injection F as <-. cbn in B. now destruct B.
Qed.

Lemma chain_verification_exact_witness :
  verify_cert_chain_sm2_chain [toy_owned 2] [toy_owned 3; toy_owned 1] 50 None None [] = ([], Ok tt) /\
  valid_from [toy_owned 3; toy_owned 1] 50 None None 0 [toy_owned 2] /\
  ~ valid_from [toy_owned 3] 50 None None 0 [toy_owned 2].
Proof.
  split; [reflexivity|]. split.
  - apply (chain_verification_exact [toy_owned 2] [toy_owned 3; toy_owned 1] 50 None None [] []). reflexivity.
  - intros V. assert (A : verify_cert_chain_sm2_chain [toy_owned 2] [toy_owned 3] 50 None None [] = ([], Ok tt)).
    { apply chain_verification_exact. split; [reflexivity|]. split; [vm_compute; discriminate|exact V]. }
    discriminate A.
Defined.
