(* ===== verification/X509Crl.v ===== *)
(** Revocation lists (gm-crypto/src/x509/verify.rs): locating the signed part and
    the signature of a CRL, verifying it, and checking a chain against a pool of
    CRLs under a strict or a permissive policy. *)

From Stdlib Require Import String Bool ZArith Lia List.
From S2P Require Import Prelude Bytes Effects Der Sm4 Sm3 Sm2 X509 X509Chain.
Import ListNotations.
Open Scope Z_scope.

(** [hex::encode] *)
Definition hex_encode (b : bytes) : string := lower (String.concat "" (map hex02 b)).

(** [BigUint::to_bytes_be]: no leading zero, and one zero byte for zero. *)
Definition to_bytes_be (n : Z) : bytes :=
  if n <=? 0 then [0] else be_bytes (Z.to_nat (Z.log2 n / 8 + 1)) n.

(** ** The signed part of a CRL *)

Definition extract_tbs_crl_bytes (der : bytes) : outcome CryptoError bytes :=
  guard (len der <? 11) (crl_error "CRL DER too short") (
  tag <- index der 0 ;;
  guard (negb (tag =? 0x30)) (crl_error "invalid CRL: expected SEQUENCE") (
  first_len_byte <- index der 1 ;;
  let tbs_start := if first_len_byte <? 0x80 then 2 else 2 + Z.land first_len_byte 0x7F in
  tbs_tag <- index der tbs_start ;;
  guard (negb (tbs_tag =? 0x30)) (crl_error "invalid TBSCertList: expected SEQUENCE") (
  tbs_len_byte <- index der (tbs_start + 1) ;;
  let num_len_bytes := Z.land tbs_len_byte 0x7F in
  let tbs_content_start := if tbs_len_byte <? 0x80 then tbs_start + 2 else tbs_start + 2 + num_len_bytes in
  tbs_len <- (if tbs_len_byte <? 0x80 then Ok tbs_len_byte else read_len (Z.to_nat num_len_bytes) der (tbs_start + 2) 0) ;;
  tbs_end <- usize_add tbs_content_start tbs_len ;;
  guard (len der <? tbs_end) (crl_error "TBSCertList extends past end of DER") (
  slice der tbs_start tbs_end)))).

(** ** The signature of a CRL *)

(** A candidate header at [pos], where [der[pos]] is 0x03: the content's start and
    length, or [None] when its length bytes are cut off. *)
Definition bitstring_header (der : bytes) (pos : Z) : outcome CryptoError (option (Z * Z)) :=
  len_byte <- index der (pos + 1) ;;
  if len_byte <? 0x80 then Ok (Some (pos + 2, len_byte))
  else
    let n := Z.land len_byte 0x7F in
    if len der <? pos + 2 + n then Ok None
    else l <- read_len (Z.to_nat n) der (pos + 2) 0 ;; Ok (Some (pos + 2 + n, l)).

(** The content at a header, when it is the target. *)
Definition bitstring_at (der target : bytes) (data_start sig_len : Z) : outcome CryptoError (option bytes) :=
  if (1 <=? sig_len) && (data_start <? len der) then
    e <- usize_add data_start sig_len ;;
    if e <=? len der then
      content <- slice der (data_start + 1) e ;;
      Ok (if bytes_eqb content target then Some content else None)
    else Ok None
  else Ok None.

Definition bitstring_candidate (der target : bytes) (pos : Z) : outcome CryptoError (option bytes) :=
  tag <- index der pos ;;
  if (tag =? 0x03) && (pos + 1 <? len der) then
    h <- bitstring_header der pos ;;
    match h with
    | Some (data_start, sig_len) => bitstring_at der target data_start sig_len
    | None => Ok None
    end
  else Ok None.

(** [n] positions are left from [pos]. *)
Fixpoint scan_bitstring (n : nat) (der target : bytes) (pos : Z) : outcome CryptoError (option bytes) :=
  match n with
  | O => Ok None
  | S n =>
      r <- bitstring_candidate der target pos ;;
      match r with
      | Some content => Ok (Some content)
      | None => scan_bitstring n der target (pos + 1)
      end
  end.

Definition find_bitstring_in_outer (der target : bytes) : outcome CryptoError (option bytes) :=
  scan_bitstring (List.length der) der target 0.

Section Crl.
Context {X : X509Parser} {C : Sm2Crate}.

Definition parse_crl (d : bytes) : outcome CryptoError CertificateRevocationList :=
  map_err (fun e => crl_error ("CRL parse failed: " +++ snd e)%string) (result (crl_from_der d)).

Definition extract_crl_signature (der : bytes) : outcome CryptoError bytes :=
  crl <- parse_crl der ;;
  r <- find_bitstring_in_outer der (crl_signature_value crl) ;;
  match r with
  | Some content => Ok content
  | None => Err (crl_error "CRL signature BIT STRING data not found in outer DER")
  end.

(** ** Parsed CRLs *)

Record CrlInfo : Type := { crl_der : bytes }.

Definition CrlInfo_from_der (d : bytes) : outcome CryptoError CrlInfo := _ <- parse_crl d ;; Ok {| crl_der := d |}.

Definition CrlInfo_from_pem (pem_bytes : bytes) : outcome CryptoError CrlInfo :=
  contents <- map_err (fun e => crl_error ("CRL PEM parse failed: " +++ e)%string) (result (pem_read pem_bytes)) ;;
  CrlInfo_from_der contents.

Definition crl_raw_tbs_bytes (c : CrlInfo) : outcome CryptoError bytes := extract_tbs_crl_bytes (crl_der c).

Definition is_cert_revoked (c : CrlInfo) (serial_bytes : bytes) : bool :=
  match parse_crl (crl_der c) with
  | Ok crl => existsb (fun raw => bytes_eqb raw serial_bytes) (revoked_raw_serials crl)
  | _ => false
  end.

Definition issuer_der (c : CrlInfo) : outcome CryptoError bytes := crl <- parse_crl (crl_der c) ;; Ok (crl_issuer crl).

Definition is_valid (c : CrlInfo) (now : Z) : bool :=
  match parse_crl (crl_der c) with
  | Ok crl =>
      if now <? last_update crl then false
      else match next_update crl with Some next => negb (next <? now) | None => true end
  | _ => false
  end.

(** ** Its signature *)

Definition crl_signature (sig : bytes) : outcome CryptoError bytes :=
  raw_signature crl_error "CRL signature" (fun n => "SM2 CRL signature too short: " +++ dec n +++ " bytes")%string sig.

Definition remap_to_crl (e : CryptoError) : CryptoError :=
  match e with CryptoCertificateVerificationFailed msg => CrlVerificationFailed msg | other => other end.

Definition verify_crl_signature_with_distid (crl : CrlInfo) (ca_cert : X509Certificate) (policy : DistidPolicy) : M audit_log CryptoError unit :=
  tbs <-- lift (crl_raw_tbs_bytes crl) ;;;
  key <-- lift (issuer_key crl_error (subject_public_key ca_cert)) ;;;
  sig_bytes <-- lift (extract_crl_signature (crl_der crl)) ;;;
  sig <-- lift (crl_signature sig_bytes) ;;;
  vk <-- lift (map_err (fun e => crl_error ("failed to create SM2 verifier: " +++ display_crypto e)%string) (Sm2Verifier_new key GM_TLS_DISTID)) ;;;
  match Sm2Verifier_verify vk tbs sig with
  | Ok _ => ret tt
  | Err e =>
      match policy with
      | Distid_Strict => fail (crl_error (strict_error "SM2 CRL" e))
      | Distid_Permissive fallback_distids audit =>
          mapM_err remap_to_crl (verify_with_distid_fallbacks key tbs sig fallback_distids audit "CRL SM2")
      end
  | Panic => lift Panic
  end.

(** The strict policy calls no callback. *)
Definition verify_crl_strict (crl : CrlInfo) (ca_cert : X509Certificate) : outcome CryptoError unit :=
  snd (verify_crl_signature_with_distid crl ca_cert Distid_Strict []).

(** ** Revocation *)

Definition verify_crl (cert_serial issuer_name : bytes) (ca_cert : X509Certificate) (crl : CrlInfo) (now : Z) : outcome CryptoError unit :=
  crl_issuer_der <- issuer_der crl ;;
  guard (negb (bytes_eqb crl_issuer_der issuer_name)) (crl_error "CRL issuer does not match certificate issuer") (
  _ <- verify_crl_strict crl ca_cert ;;
  guard (negb (is_valid crl now)) (crl_error "CRL has expired") (
  guard (is_cert_revoked crl cert_serial) (crl_error "certificate has been revoked") (Ok tt))).

Definition verify_cert_crl (cert ca_cert : X509Certificate) (crl_pem : bytes) (now : Z) : outcome CryptoError unit :=
  crl <- CrlInfo_from_pem crl_pem ;;
  verify_crl (to_bytes_be (serial cert)) (issuer cert) ca_cert crl now.

Inductive CrlVerifyPolicy : Type := Crl_Strict | Crl_Permissive.

(** [match r { Ok(a) => k(a), Err(e) => Strict: return Err(e), Permissive: continue }] *)
Definition or_skip {A : Type} (policy : CrlVerifyPolicy) (r : outcome CryptoError A) (skip : outcome CryptoError unit)
    (k : A -> outcome CryptoError unit) : outcome CryptoError unit :=
  match r with
  | Ok a => k a
  | Err e => match policy with Crl_Strict => Err e | Crl_Permissive => skip end
  | Panic => Panic
  end.

Definition find_ca (name : bytes) (chain : list OwnedCert) : option X509Certificate :=
  fold_right (fun c rest => match as_x509 c with
                            | Ok parsed => if bytes_eqb (subject parsed) name then Some parsed else rest
                            | _ => rest
                            end) None chain.

Fixpoint check_serials (chain : list OwnedCert) (crl : CrlInfo) (name : bytes) (policy : CrlVerifyPolicy) : outcome CryptoError unit :=
  match chain with
  | [] => Ok tt
  | c :: chain =>
      or_skip policy (as_x509 c) (check_serials chain crl name policy) (fun cert =>
        if negb (bytes_eqb (issuer cert) name) then check_serials chain crl name policy
        else
          let s := to_bytes_be (serial cert) in
          guard (is_cert_revoked crl s) (crl_error ("certificate serial 0x" +++ hex_encode s +++ " has been revoked per CRL")%string)
            (check_serials chain crl name policy))
  end.

Fixpoint check_crls (chain : list OwnedCert) (crls : list bytes) (now : Z) (policy : CrlVerifyPolicy) : outcome CryptoError unit :=
  match crls with
  | [] => Ok tt
  | d :: crls =>
      let next := check_crls chain crls now policy in
      or_skip policy (CrlInfo_from_der d) next (fun crl =>
      or_skip policy (issuer_der crl) next (fun name =>
      or_skip policy
        (match find_ca name chain with
         | Some ca => Ok ca
         | None => Err (crl_error ("no CA in chain matches CRL issuer (CRL bytes len = " +++ dec (len d) +++ ")")%string)
         end) next (fun ca_cert =>
      _ <- verify_crl_strict crl ca_cert ;;
      guard (negb (is_valid crl now))
        (crl_error "CRL has expired (nextUpdate < now) or not yet valid (lastUpdate > now)") (
      _ <- check_serials chain crl name policy ;;
      next))))
  end.

Definition check_revocations_with_policy (chain : list OwnedCert) (crls : list bytes) (now : Z) (policy : CrlVerifyPolicy) : outcome CryptoError unit :=
  match crls with [] => Ok tt | _ => check_crls chain crls now policy end.

Definition check_revocations (chain : list OwnedCert) (crls : list bytes) (now : Z) : outcome CryptoError unit :=
  check_revocations_with_policy chain crls now Crl_Strict.

Fixpoint crl_issuers (crls : list bytes) : outcome CryptoError (list bytes) :=
  match crls with
  | [] => Ok []
  | d :: crls => crl <- CrlInfo_from_der d ;; i <- issuer_der crl ;; ds <- crl_issuers crls ;; Ok (i :: ds)
  end.

Fixpoint check_coverage (chain : list OwnedCert) (issuers : list bytes) : outcome CryptoError unit :=
  match chain with
  | [] => Ok tt
  | c :: chain =>
      cert <- as_x509 c ;;
      if bytes_eqb (subject cert) (issuer cert) then check_coverage chain issuers
      else
        guard (negb (existsb (fun di => bytes_eqb di (issuer cert)) issuers))
          (crl_error ("strict CRL mode: no CRL covers the issuer of chain certificate serial 0x" +++ hex_encode (to_bytes_be (serial cert)))%string)
          (check_coverage chain issuers)
  end.

Definition ensure_crl_coverage (chain : list OwnedCert) (crls : list bytes) : outcome CryptoError unit :=
  issuers <- crl_issuers crls ;;
  check_coverage chain issuers.
End Crl.

(** ** Revocation, exactly *)

Section Spec.
Context {X : X509Parser} {C : Sm2Crate}.

Definition fresh (crl : CertificateRevocationList) (now : Z) : Prop :=
  last_update crl <= now /\ match next_update crl with Some next => now <= next | None => True end.

(** The list at [d] is signed by [ca] under the standard identity. *)
Definition crl_signed_by (d : bytes) (ca : X509Certificate) : Prop :=
  exists tbs key sig raw, extract_tbs_crl_bytes d = Ok tbs /\ issuer_key crl_error (subject_public_key ca) = Ok key /\
    extract_crl_signature d = Ok sig /\ crl_signature sig = Ok raw /\ verifies key tbs raw GM_TLS_DISTID.

(** No certificate of the chain that the list's issuer issued is listed. *)
Definition none_listed (chain : list OwnedCert) (crl : CertificateRevocationList) : Prop :=
  Forall (fun c => exists cert, x509_from_der (der c) = inr cert /\
    (issuer cert = crl_issuer crl -> ~ In (to_bytes_be (serial cert)) (revoked_raw_serials crl))) chain.

(** The list at [d] is authentic, fresh, and clears the chain. *)
Definition clears (chain : list OwnedCert) (now : Z) (d : bytes) : Prop :=
  exists crl ca, crl_from_der d = inr crl /\ find_ca (crl_issuer crl) chain = Some ca /\ crl_signed_by d ca /\
    fresh crl now /\ none_listed chain crl.

Lemma parse_crl_iff d crl : parse_crl d = Ok crl <-> crl_from_der d = inr crl.
Proof. unfold parse_crl. rewrite map_err_ok_iff. destruct (crl_from_der d); cbn; split; congruence. Qed.

Lemma crl_strict_iff d ca : verify_crl_strict {| crl_der := d |} ca = Ok tt <-> crl_signed_by d ca.
Proof.
  unfold verify_crl_strict, verify_crl_signature_with_distid, crl_signed_by, crl_raw_tbs_bytes, verifies. cbn [crl_der]. split.
  - rewrite bind_lift. destruct (extract_tbs_crl_bytes d) as [tbs| |]; try discriminate.
    rewrite bind_lift. destruct (issuer_key _ _) as [key| |]; try discriminate. rewrite bind_lift. destruct (extract_crl_signature d) as [sig| |]; try discriminate.
    rewrite bind_lift. destruct (crl_signature sig) as [raw| |] eqn:R; try discriminate. rewrite bind_lift.
    destruct (Sm2Verifier_new key GM_TLS_DISTID) as [vk| |] eqn:V; try discriminate. cbn [map_err].
    destruct (Sm2Verifier_verify vk tbs raw) as [[]| |] eqn:E; try discriminate. intros _. exists tbs, key, sig, raw. repeat split; [exact R|]. now exists vk.
  - intros (tbs & key & sig & raw & -> & -> & -> & R & vk & V & E). rewrite !bind_lift, R, bind_lift, V. cbn [map_err]. now rewrite E.
Qed.

Lemma revoked_iff d crl s : crl_from_der d = inr crl -> is_cert_revoked {| crl_der := d |} s = true <-> In s (revoked_raw_serials crl).
Proof.
  intros P. unfold is_cert_revoked. cbn [crl_der]. rewrite (proj2 (parse_crl_iff d crl) P), existsb_exists. split.
  - intros (r & I & E). apply bytes_eqb_eq in E. now subst.
  - intros I. exists s. split; [exact I|apply bytes_eqb_refl].
Qed.

Lemma valid_iff d crl now : crl_from_der d = inr crl -> is_valid {| crl_der := d |} now = true <-> fresh crl now.
Proof.
  intros P. unfold is_valid, fresh. cbn [crl_der]. rewrite (proj2 (parse_crl_iff d crl) P).
  destruct (Z.ltb_spec now (last_update crl)); [split; [discriminate|lia]|].
  destruct (next_update crl) as [n|]; [|tauto]. rewrite negb_true_iff, Z.ltb_ge. tauto.
Qed.

Lemma serials_strict_iff d crl chain : crl_from_der d = inr crl ->
  check_serials chain {| crl_der := d |} (crl_issuer crl) Crl_Strict = Ok tt <-> none_listed chain crl.
Proof.
  intros P. unfold none_listed. induction chain as [|c chain IH]; cbn [check_serials]; [now split|].
  rewrite Forall_cons_iff, <- IH. unfold or_skip. destruct (as_x509 c) as [cert|e|] eqn:A.
  2,3: split; [discriminate|]; intros [(cert & Q & _) _]; apply as_x509_iff in Q; congruence.
  apply as_x509_iff in A.
  assert (U : forall Q : X509Certificate -> Prop, (exists k, x509_from_der (der c) = inr k /\ Q k) <-> Q cert).
  { intros Q. split; [intros (k & E & Y); now replace cert with k by congruence|]. intros Y. now exists cert. }
  rewrite U. destruct (bytes_eqb (issuer cert) (crl_issuer crl)) eqn:E; cbn [negb].
  - apply bytes_eqb_eq in E. rewrite guard_ok_iff, <- (revoked_iff d crl _ P), not_true_iff_false. tauto.
  - apply bytes_eqb_neq in E. tauto.
Qed.

Lemma crls_strict_iff chain now crls : check_crls chain crls now Crl_Strict = Ok tt <-> Forall (clears chain now) crls.
Proof.
  induction crls as [|d crls IH]; cbn [check_crls]; [now split|]. rewrite Forall_cons_iff, <- IH. unfold CrlInfo_from_der, or_skip at 1.
  destruct (parse_crl d) as [crl|e|] eqn:P; cbn [bind].
  2,3: split; [discriminate|]; intros [(crl & ca & Q & _) _]; apply parse_crl_iff in Q; congruence.
  unfold issuer_der, or_skip at 1. cbn [crl_der]. rewrite P. cbn [bind]. apply parse_crl_iff in P.
  unfold clears, or_skip. destruct (find_ca (crl_issuer crl) chain) as [ca|] eqn:F.
  2: split; [discriminate|]; intros [(k & ca & Q & G & _) _]; congruence.
  rewrite bind_unit_iff, crl_strict_iff, guard_ok_iff, negb_false_iff, (valid_iff d crl now P), bind_unit_iff, (serials_strict_iff d crl chain P).
  split.
  - intros (S & V & N & Y). split; [|exact Y]. now exists crl, ca.
  - intros [(k & ca' & Q & G & S & V & N) Y]. replace k with crl in * by congruence. replace ca' with ca in * by congruence. tauto.
Qed.

Lemma revocations_strict_iff chain now crls : check_revocations chain crls now = Ok tt <-> Forall (clears chain now) crls.
Proof. unfold check_revocations, check_revocations_with_policy. rewrite <- crls_strict_iff. now destruct crls. Qed.

Lemma find_ca_some name chain ca : find_ca name chain = Some ca -> subject ca = name /\ exists c, In c chain /\ x509_from_der (der c) = inr ca.
Proof.
  induction chain as [|c chain IH]; [discriminate|]. cbn [find_ca fold_right]. fold (find_ca name chain).
  assert (T : find_ca name chain = Some ca -> subject ca = name /\ exists c', In c' (c :: chain) /\ x509_from_der (der c') = inr ca).
  { intros F. destruct (IH F) as (S & c' & I & P). split; [exact S|]. exists c'. now split; [right|]. }
  destruct (as_x509 c) as [cert| |] eqn:A; [|exact T|exact T]. destruct (bytes_eqb (subject cert) name) eqn:E; [|exact T].
  intros [= <-]. split; [now apply bytes_eqb_eq|]. exists c. split; [now left|now apply as_x509_iff].
Qed.

Lemma crl_issuers_in crls l n : crl_issuers crls = Ok l -> In n l -> exists d crl, In d crls /\ crl_from_der d = inr crl /\ crl_issuer crl = n.
Proof.
  revert l. induction crls as [|d crls IH]; intros l; cbn [crl_issuers]; [now intros [= <-]|].
  unfold CrlInfo_from_der, issuer_der. destruct (parse_crl d) as [crl| |] eqn:P; try discriminate. cbn [bind crl_der]. rewrite P. cbn [bind].
  destruct (crl_issuers crls) as [l'| |]; try discriminate. intros [= <-] [<-|I]; [exists d, crl; apply parse_crl_iff in P; now repeat split; [left|]|].
  destruct (IH l' eq_refl I) as (d' & crl' & J & Y). exists d', crl'. now split; [right|].
Qed.

Lemma coverage_in chain issuers c cert : check_coverage chain issuers = Ok tt -> In c chain -> x509_from_der (der c) = inr cert ->
  subject cert <> issuer cert -> In (issuer cert) issuers.
Proof.
  induction chain as [|x chain IH]; [easy|]. cbn [check_coverage]. intros Y I P N. apply bind_ok_iff in Y as (cx & A & Y). apply as_x509_iff in A.
  destruct I as [->|I].
  - replace cx with cert in Y by congruence. rewrite (proj2 (bytes_eqb_neq _ _) N) in Y. apply guard_ok_iff in Y as [E _].
    apply negb_false_iff, existsb_exists in E as (di & J & E). apply bytes_eqb_eq in E. now subst.
  - apply IH; try assumption. destruct (bytes_eqb (subject cx) (issuer cx)); [exact Y|]. now apply guard_ok_iff in Y.
Qed.

(** C12. Strict revocation checking. A chain passes exactly when every supplied
    list parses, is signed by the certificate of the chain that has its issuer's
    name, is fresh, and names no certificate of the chain that its issuer issued.
    With the coverage check, every certificate that is not self-issued has such a
    list from its own issuer. *)
Theorem strict_revocation (chain : list OwnedCert) (crls : list bytes) (now : Z) :
  (check_revocations chain crls now = Ok tt <-> Forall (clears chain now) crls) /\
  (check_revocations chain crls now = Ok tt -> ensure_crl_coverage chain crls = Ok tt ->
   forall c cert, In c chain -> x509_from_der (der c) = inr cert -> subject cert <> issuer cert ->
   exists d crl ca, In d crls /\ crl_from_der d = inr crl /\ crl_issuer crl = issuer cert /\ subject ca = issuer cert /\
     crl_signed_by d ca /\ fresh crl now /\ ~ In (to_bytes_be (serial cert)) (revoked_raw_serials crl)).
Proof.
  split; [apply revocations_strict_iff|]. intros R V c cert I P N. apply revocations_strict_iff in R. rewrite Forall_forall in R.
  unfold ensure_crl_coverage in V. apply bind_ok_iff in V as (l & L & V). pose proof (coverage_in _ _ _ _ V I P N) as J.
  destruct (crl_issuers_in _ _ _ L J) as (d & crl & D & Q & E). destruct (R d D) as (k & ca & Q' & F & S & W & U).
  replace k with crl in * by congruence. exists d, crl, ca. apply find_ca_some in F as [F _]. rewrite E in F. repeat split; try assumption; [apply W|apply W|].
  unfold none_listed in U. rewrite Forall_forall in U. destruct (U c I) as (cert' & P' & Z). replace cert' with cert in Z by congruence. now apply Z.
Qed.

(** *** Serial numbers *)

(** The content of the INTEGER that encodes a serial number. *)
Definition serial_content (n : Z) : bytes := match to_bytes_be n with b :: _ => if 0x80 <=? b then 0 :: to_bytes_be n else to_bytes_be n | [] => [] end.

(** The first byte has its top bit set. *)
Definition high_bit (n : Z) : bool := 0x80 <=? nth 0 (to_bytes_be n) 0.

Lemma to_bytes_be_value n : 0 < n -> from_be (to_bytes_be n) = n /\ to_bytes_be n <> [].
Proof.
  intros N. unfold to_bytes_be. rewrite (proj2 (Z.leb_gt n 0)) by lia. set (k := Z.log2 n / 8 + 1).
  pose proof (Z.log2_nonneg n). assert (K : 0 < k) by (unfold k; pose proof (Z.div_pos (Z.log2 n) 8); lia).
  split; [|intros E; apply (f_equal (@List.length Z)) in E; rewrite length_be_bytes in E; cbn in E; lia].
  rewrite from_be_bytes, Z2Nat.id by lia. apply Z.mod_small. split; [lia|].
  change 256 with (2 ^ 8). rewrite <- Z.pow_mul_r by lia. apply Z.log2_lt_pow2; [lia|]. unfold k.
  pose proof (Z.div_mod (Z.log2 n) 8). pose proof (Z.mod_pos_bound (Z.log2 n) 8). lia.
Qed.

Lemma to_bytes_be_head n b t : 0 < n -> to_bytes_be n = b :: t -> b <> 0.
Proof.
  intros N E ->. destruct (to_bytes_be_value n N) as [V _]. rewrite E in V. rewrite from_be_cons in V.
  unfold to_bytes_be in E. rewrite (proj2 (Z.leb_gt n 0)) in E by lia. set (k := Z.log2 n / 8) in E.
  pose proof (Z.log2_nonneg n). assert (K : 0 <= k) by (unfold k; apply Z.div_pos; lia).
  assert (L : len t = k) by (apply (f_equal (@len Z)) in E; rewrite len_be_bytes, len_cons in E; lia).
  assert (W : wf_bytes t = true) by (pose proof (wf_be_bytes (Z.to_nat (k + 1)) n) as W; rewrite E in W; exact W).
  pose proof (from_be_bound t W) as B. rewrite L in B. assert (256 ^ k <= n); [|lia].
  change 256 with (2 ^ 8). rewrite <- Z.pow_mul_r by lia. etransitivity; [|apply Z.log2_spec; lia].
  apply Z.pow_le_mono_r; [lia|]. unfold k. pose proof (Z.mul_div_le (Z.log2 n) 8). lia.
Qed.

Lemma to_bytes_be_inj n m : 0 < n -> 0 < m -> to_bytes_be n = to_bytes_be m -> n = m.
Proof. intros N M E. apply to_bytes_be_value in N as [N _], M as [M _]. congruence. Qed.

Lemma serial_content_low n : 0 < n -> high_bit n = false -> serial_content n = to_bytes_be n.
Proof.
  intros N. unfold serial_content, high_bit. destruct (to_bytes_be_value n N) as [_ E]. destruct (to_bytes_be n); [easy|]. cbn [nth]. now intros ->.
Qed.

Lemma serial_content_high n : 0 < n -> high_bit n = true -> serial_content n = 0 :: to_bytes_be n.
Proof.
  intros N. unfold serial_content, high_bit. destruct (to_bytes_be_value n N) as [_ E]. destruct (to_bytes_be n); [easy|]. cbn [nth]. now intros ->.
Qed.

Lemma listed_iff n serials : 0 < n -> Forall (fun m => 0 < m) serials ->
  In (to_bytes_be n) (map serial_content serials) <-> In n serials /\ high_bit n = false.
Proof.
  intros N S. rewrite Forall_forall in S. rewrite in_map_iff. split.
  - intros (m & E & I). pose proof (S m I) as M. destruct (high_bit m) eqn:H.
    + rewrite serial_content_high in E by assumption. destruct (to_bytes_be_head n 0 (to_bytes_be m) N); [now symmetry|reflexivity].
    + rewrite serial_content_low in E by assumption. apply to_bytes_be_inj in E; [|exact M|exact N]. now subst.
  - intros [I H]. exists n. split; [now apply serial_content_low|exact I].
Qed.

(** C34. Which revoked certificates are noticed. When the raw serial numbers of a
    list are the contents of its INTEGERs, as x509-parser returns them, a listed
    certificate is found exactly when the first byte of its serial number is below
    0x80: the encoding of every other one starts with a zero byte that the
    comparison does not expect, and the certificate passes as not revoked. *)
Theorem revoked_lookup_exact (d : bytes) (crl : CertificateRevocationList) (serials : list Z) (n : Z) :
  crl_from_der d = inr crl -> revoked_raw_serials crl = map serial_content serials -> Forall (fun m => 0 < m) serials -> 0 < n ->
  is_cert_revoked {| crl_der := d |} (to_bytes_be n) = true <-> In n serials /\ high_bit n = false.
Proof. intros P R S N. rewrite (revoked_iff d crl _ P), R. now apply listed_iff. Qed.
End Spec.

(** ** The signed part of an encoded list *)

(** A length field as the code reads it: first byte, size, value. *)
Lemma length_field n pre rest : 0 <= n < 2 ^ 32 -> exists b,
  index (E:=CryptoError) (pre ++ der_len n ++ rest) (len pre) = Ok b /\ 0 <= b < 256 /\
  (if b <? 0x80 then 1 else 1 + Z.land b 0x7F) = len (der_len n) /\
  (if b <? 0x80 then Ok b else read_len (E:=CryptoError) (Z.to_nat (Z.land b 0x7F)) (pre ++ der_len n ++ rest) (len pre + 1) 0) = Ok n.
Proof.
  intros N. destruct (der_len_shape n N) as [[S ->]|(k & K & B & ->)]; cbn [app].
  - exists n. rewrite index_app by reflexivity. rewrite (proj2 (Z.ltb_lt _ _) S). repeat split; lia.
  - exists (128 + Z.of_nat k). rewrite index_app by reflexivity. rewrite (proj2 (Z.ltb_ge (128 + Z.of_nat k) 128)) by lia.
    assert (E : Z.land (128 + Z.of_nat k) 0x7F = Z.of_nat k) by (destruct k as [|[|[|[|[|k]]]]]; reflexivity || lia).
    rewrite E, Nat2Z.id, len_cons, len_be_bytes. repeat split; try lia.
    pose proof (@read_len_spec CryptoError (pre ++ [128 + Z.of_nat k]) (be_bytes k n) rest 0 (wf_be_bytes k n)) as R.
    rewrite length_be_bytes, from_be_bytes_small, <- app_assoc, len_app in R by lia. apply R; lia.
Qed.

Lemma field_end (b s : Z) : (if b <? 0x80 then s + 1 else s + 1 + Z.land b 0x7F) = s + (if b <? 0x80 then 1 else 1 + Z.land b 0x7F).
Proof. destruct (b <? 0x80); lia. Qed.

Lemma extract_tbs_crl_encoded c rest : 9 <= len (der_sequence c ++ rest) < 2 ^ 32 ->
  extract_tbs_crl_bytes (der_sequence (der_sequence c ++ rest)) = Ok (der_sequence c).
Proof.
  set (body := der_sequence c ++ rest). intros L. pose proof (len_nonneg c). pose proof (len_nonneg rest).
  assert (B : len body = 1 + len (der_len (len c)) + len c + len rest) by (unfold body, der_sequence; rewrite !len_app; change (len [0x30]) with 1; lia).
  destruct (length_field (len body) [0x30] body ltac:(lia)) as (b1 & I1 & R1 & W1 & _). change (len [0x30]) with 1 in I1.
  set (pre := [0x30] ++ der_len (len body)). assert (P : len pre = 1 + len (der_len (len body))) by (unfold pre; now rewrite len_app).
  assert (T : pre ++ body = (pre ++ [0x30]) ++ der_len (len c) ++ c ++ rest) by (unfold body, der_sequence; now rewrite <- !app_assoc).
  pose proof (len_nonneg (der_len (len c))).
  destruct (length_field (len c) (pre ++ [0x30]) (c ++ rest) ltac:(lia)) as (b2 & I2 & R2 & W2 & V2).
  rewrite <- T, len_app in I2. rewrite <- T, len_app in V2. change (len [0x30]) with 1 in I2, V2.
  assert (1 <= len (der_len (len body)) <= 5) by (rewrite der_len_len by lia; repeat case_cmp; lia).
  replace (der_sequence body) with (pre ++ body) by (unfold pre, der_sequence; now rewrite <- app_assoc).
  unfold extract_tbs_crl_bytes, guard. rewrite (proj2 (Z.ltb_ge (len (pre ++ body)) 11)) by (rewrite len_app; lia).
  change (index (pre ++ body) 0) with (@Ok CryptoError Z 0x30). cbn [bind]. change (negb (0x30 =? 0x30)) with false. cbn iota.
  replace (pre ++ body) with ([0x30] ++ der_len (len body) ++ body) at 1 by (unfold pre; now rewrite <- app_assoc).
  rewrite I1. cbn [bind]. cbn zeta. replace (if b1 <? 128 then 2 else 2 + Z.land b1 127) with (len pre) by (rewrite P, <- W1; destruct (b1 <? 128); lia).
  assert (J : index (E:=CryptoError) (pre ++ body) (len pre) = Ok 0x30) by (rewrite T, <- app_assoc; now apply index_app).
  rewrite J. cbn [bind]. change (negb (0x30 =? 0x30)) with false. cbn iota. rewrite I2. cbn [bind].
  replace (len pre + 2) with (len pre + 1 + 1) by lia. rewrite V2. cbn [bind]. rewrite (field_end b2 (len pre + 1)), W2.
  unfold usize_add. rewrite (proj2 (Z.ltb_lt _ (2 ^ 64))) by lia. cbn [bind].
  rewrite (proj2 (Z.ltb_ge (len (pre ++ body)) _)) by (rewrite len_app; lia).
  unfold body. apply slice_app; [reflexivity|]. unfold der_sequence. rewrite !len_app. change (len [0x30]) with 1. lia.
Qed.

(** ** The scan for the signature *)

Lemma bitstring_at_sound der target s l c : bitstring_at der target s l = Ok (Some c) -> c = target.
Proof.
  unfold bitstring_at. destruct (_ && _); [|discriminate]. destruct (usize_add s l) as [e| |]; try discriminate. cbn [bind].
  destruct (e <=? len der); [|discriminate]. destruct (slice der (s + 1) e) as [x| |]; try discriminate. cbn [bind].
  destruct (bytes_eqb x target) eqn:Q; [|discriminate]. intros [= <-]. now apply bytes_eqb_eq.
Qed.

Lemma candidate_sound der target pos c : bitstring_candidate der target pos = Ok (Some c) -> c = target.
Proof.
  unfold bitstring_candidate. destruct (index der pos); try discriminate. cbn [bind]. destruct (_ && _); [|discriminate].
  destruct (bitstring_header der pos) as [[[s l]|]| |]; try discriminate. apply bitstring_at_sound.
Qed.

Lemma scan_sound n der target pos c : scan_bitstring n der target pos = Ok (Some c) -> c = target.
Proof.
  revert pos. induction n as [|n IH]; intros pos; [discriminate|]. cbn [scan_bitstring].
  destruct (bitstring_candidate der target pos) as [[x|]| |] eqn:E; try discriminate; cbn [bind]; [|apply IH].
  intros [= <-]. now apply candidate_sound in E.
Qed.

(** The scan never errs: it finds the target, runs through, or panics. *)
Lemma read_len_no_err n der pos acc (e : CryptoError) : read_len n der pos acc <> Err e.
Proof.
  revert pos acc. induction n as [|n IH]; intros pos acc; [discriminate|]. cbn [read_len]. unfold index.
  destruct (pos <? 0); [discriminate|]. destruct (nth_error der (Z.to_nat pos)); [apply IH|discriminate].
Qed.

Lemma candidate_no_err der target pos e : bitstring_candidate der target pos <> Err e.
Proof.
  unfold bitstring_candidate, bitstring_header, bitstring_at, usize_add, index, slice.
  destruct (pos <? 0); [discriminate|]. destruct (nth_error der (Z.to_nat pos)); [|discriminate]. cbn [bind].
  destruct (_ && _); [|discriminate]. destruct (pos + 1 <? 0); [discriminate|]. destruct (nth_error der (Z.to_nat (pos + 1))) as [b|]; [|discriminate].
  cbn [bind]. assert (Q : forall s l, bitstring_at der target s l <> Err e).
  { intros s l. unfold bitstring_at, usize_add, slice. destruct (_ && _); [|discriminate]. destruct (_ <? _); [|discriminate]. cbn [bind].
    destruct (_ <=? len der); [|discriminate]. now destruct (_ && _). }
  destruct (b <? 128); [apply Q|]. destruct (len der <? _); [discriminate|].
  pose proof (read_len_no_err (Z.to_nat (Z.land b 127)) der (pos + 2) 0) as R. destruct (read_len _ der _ 0) as [l|x|]; [apply Q|now destruct (R x)|discriminate].
Qed.

Lemma scan_reaches n der target pos (k : nat) : (k < n)%nat -> bitstring_candidate der target (pos + Z.of_nat k) = Ok (Some target) ->
  scan_bitstring n der target pos = Ok (Some target) \/ scan_bitstring n der target pos = Panic.
Proof.
  revert n pos. induction k as [|k IH]; intros [|n] pos K F; try lia; cbn [scan_bitstring].
  - rewrite Z.add_0_r in F. rewrite F. now left.
  - pose proof (candidate_no_err der target pos) as N. destruct (bitstring_candidate der target pos) as [[x|]|e|] eqn:E; cbn [bind].
    + left. now apply candidate_sound in E as ->.
    + apply IH; [lia|]. rewrite <- F. f_equal. lia.
    + now destruct (N e).
    + now right.
Qed.

Lemma candidate_encoded pre t post : 1 + len t < 2 ^ 32 -> len (pre ++ der_bit_string t ++ post) < 2 ^ 63 ->
  bitstring_candidate (pre ++ der_bit_string t ++ post) t (len pre) = Ok (Some t).
Proof.
  intros B U. pose proof (len_nonneg t). pose proof (len_nonneg pre). pose proof (len_nonneg post).
  set (d := pre ++ der_bit_string t ++ post) in *. set (h := der_len (1 + len t)).
  assert (D : d = (pre ++ [3]) ++ h ++ ([0] ++ t) ++ post) by (unfold d, der_bit_string, h; rewrite <- !app_assoc; do 4 f_equal; lia).
  destruct (length_field (1 + len t) (pre ++ [3]) (([0] ++ t) ++ post) ltac:(lia)) as (b & I & R & W & V). fold h in I, W, V. rewrite <- D in I, V.
  rewrite len_app in I, V. change (len [3]) with 1 in I, V.
  assert (L : len d = len pre + 1 + len h + 1 + len t + len post) by (rewrite D, !len_app; change (len [3]) with 1; change (len [0]) with 1; lia).
  assert (1 <= len h) by (rewrite <- W; destruct (b <? 128); [lia|]; assert (0 <= Z.land b 127) by (apply Z.land_nonneg; lia); lia).
  unfold bitstring_candidate. replace (index d (len pre)) with (@Ok CryptoError Z 3) by (rewrite D, <- app_assoc; symmetry; now apply index_app).
  cbn [bind]. rewrite (proj2 (Z.ltb_lt _ _)) by lia. cbn [Z.eqb Pos.eqb andb].
  assert (H' : bitstring_header d (len pre) = Ok (Some (len pre + 1 + len h, 1 + len t))).
  { unfold bitstring_header. rewrite I. cbn [bind]. destruct (b <? 128) eqn:E.
    - injection V as ->. rewrite <- W. do 3 f_equal. lia.
    - rewrite (proj2 (Z.ltb_ge _ _)) by lia. replace (len pre + 2) with (len pre + 1 + 1) by lia. rewrite V. cbn [bind]. do 3 f_equal. lia. }
  rewrite H'. cbn [bind]. unfold bitstring_at. rewrite (proj2 (Z.leb_le 1 (1 + len t))), (proj2 (Z.ltb_lt _ (len d))) by lia. cbn [andb].
  unfold usize_add. rewrite (proj2 (Z.ltb_lt _ (2 ^ 64))) by lia. cbn [bind]. rewrite (proj2 (Z.leb_le _ (len d))) by lia.
  replace d with (((pre ++ [3]) ++ h ++ [0]) ++ t ++ post) by (rewrite D, <- !app_assoc; reflexivity).
  rewrite slice_app by (rewrite !len_app; change (len [3]) with 1; change (len [0]) with 1; lia). cbn [bind]. now rewrite bytes_eqb_refl.
Qed.

(** A length of eight bytes 0xFF overflows the end of the content. *)
Definition huge_header : bytes := [0x03; 0x88] ++ repeat 0xFF 8.

Lemma candidate_huge pre target b post : bitstring_candidate (pre ++ huge_header ++ b :: post) target (len pre) = Panic.
Proof.
  pose proof (len_nonneg pre). pose proof (len_nonneg post). set (d := pre ++ huge_header ++ b :: post).
  assert (L : len d = len pre + 11 + len post) by (unfold d; rewrite !len_app, len_cons; change (len huge_header) with 10; lia).
  unfold bitstring_candidate. replace (index d (len pre)) with (@Ok CryptoError Z 3) by (symmetry; now apply index_app).
  cbn [bind]. rewrite (proj2 (Z.ltb_lt _ _)) by lia. cbn [Z.eqb Pos.eqb andb]. unfold bitstring_header.
  assert (I : index (E:=CryptoError) d (len pre + 1) = Ok 0x88).
  { replace d with ((pre ++ [3]) ++ 0x88 :: repeat 0xFF 8 ++ b :: post) by (unfold d, huge_header; now rewrite <- !app_assoc).
    apply index_app. now rewrite len_app. }
  rewrite I. cbn [bind]. change (0x88 <? 0x80) with false. change (Z.land 0x88 0x7F) with 8. cbn iota zeta.
  rewrite (proj2 (Z.ltb_ge _ _)) by lia.
  pose proof (@read_len_spec CryptoError (pre ++ [3; 0x88]) (repeat 0xFF 8) (b :: post) 0 eq_refl) as R.
  rewrite len_app, <- app_assoc in R. change (len [3; 0x88]) with 2 in R. change (List.length (repeat 0xFF 8)) with (Z.to_nat 8) in R.
  change (pre ++ [3; 0x88] ++ repeat 0xFF 8 ++ b :: post) with d in R. rewrite R by (vm_compute; congruence). cbn [bind].
  unfold bitstring_at. change (0 * 256 ^ len (repeat 255 8) + from_be (repeat 255 8)) with (2 ^ 64 - 1).
  rewrite (proj2 (Z.leb_le 1 (2 ^ 64 - 1))), (proj2 (Z.ltb_lt _ (len d))) by lia. cbn [andb]. unfold usize_add.
  now rewrite (proj2 (Z.ltb_ge _ (2 ^ 64))) by lia.
Qed.

Lemma candidate_other d target pos x : index (E:=CryptoError) d pos = Ok x -> x <> 3 -> bitstring_candidate d target pos = Ok None.
Proof. intros I N. unfold bitstring_candidate. rewrite I. cbn [bind]. now rewrite (proj2 (Z.eqb_neq x 3) N). Qed.

Lemma scan_huge m pre q target b post : forallb (fun x => negb (x =? 3)) q = true -> (List.length q < m)%nat ->
  scan_bitstring m (pre ++ q ++ huge_header ++ b :: post) target (len pre) = Panic.
Proof.
  revert pre m. induction q as [|x q IH]; intros pre [|m] Q M; try (cbn in M; lia); cbn [scan_bitstring app].
  - now rewrite candidate_huge.
  - cbn in Q. apply andb_true_iff in Q as [N Q]. apply negb_true_iff, Z.eqb_neq in N.
    rewrite (candidate_other _ _ _ x) by (now apply index_app || exact N). cbn [bind].
    replace (pre ++ x :: q ++ huge_header ++ b :: post) with ((pre ++ [x]) ++ q ++ huge_header ++ b :: post) by now rewrite <- app_assoc.
    replace (len pre + 1) with (len (pre ++ [x])) by now rewrite len_app. apply IH; [exact Q|cbn in M; lia].
Qed.

(** Locating the parts of a list. The signed part of an encoded list is taken
    exactly. The scan for the signature returns nothing but the signature, and for
    an input that holds it as a BIT STRING either returns it or panics. It does
    panic, before any signature is checked, when the first byte 0x03 of the input
    starts a header whose eight length bytes are all 0xFF and anything follows. *)
Theorem crl_parts_located (c rest pre post t out : bytes) (b : Z) :
  (9 <= len (der_sequence c ++ rest) < 2 ^ 32 -> extract_tbs_crl_bytes (der_sequence (der_sequence c ++ rest)) = Ok (der_sequence c)) /\
  (find_bitstring_in_outer pre t = Ok (Some out) -> out = t) /\
  (1 + len t < 2 ^ 32 -> len (pre ++ der_bit_string t ++ post) < 2 ^ 63 ->
   find_bitstring_in_outer (pre ++ der_bit_string t ++ post) t = Ok (Some t) \/
   find_bitstring_in_outer (pre ++ der_bit_string t ++ post) t = Panic) /\
  (forallb (fun x => negb (x =? 3)) pre = true -> find_bitstring_in_outer (pre ++ huge_header ++ b :: post) t = Panic).
Proof.
  split; [apply extract_tbs_crl_encoded|]. split; [apply scan_sound|]. split.
  - intros B U. apply (scan_reaches _ _ _ _ (List.length pre)).
    + rewrite !length_app. unfold der_bit_string. cbn. lia.
    + now apply candidate_encoded.
  - intros Q. apply (scan_huge _ [] pre t b post Q). rewrite !length_app. cbn. lia.
Qed.

(** ** An instance *)

(** Lists, wherever they are read, that revoke the serial numbers 5 and 200. *)
Definition toy_crl : CertificateRevocationList := {|
  crl_issuer := [1]; last_update := 0; next_update := Some 100; revoked_raw_serials := map serial_content [5; 200];
  crl_signature_value := [] |}.

Definition toy_crl_parser : X509Parser := {|
  x509_from_der := @x509_from_der toy_x509; crl_from_der _ := inr toy_crl; pem_iter := @pem_iter toy_x509; pem_read := @pem_read toy_x509;
  parse_x509_pem := @parse_x509_pem toy_x509; general_names_from_der := @general_names_from_der toy_x509;
  domain_to_ascii := @domain_to_ascii toy_x509; oid_display := @oid_display toy_x509 |}.

Lemma revoked_lookup_exact_witness :
  @is_cert_revoked toy_crl_parser {| crl_der := [0] |} (to_bytes_be 5) = true /\
  @is_cert_revoked toy_crl_parser {| crl_der := [0] |} (to_bytes_be 200) <> true.
Proof.
  assert (S : Forall (fun m => 0 < m) [5; 200]) by (repeat constructor).
  split.
  - apply (@revoked_lookup_exact toy_crl_parser [0] toy_crl [5; 200] 5 eq_refl eq_refl S); [lia|]. split; [now left|reflexivity].
  - intros E. apply (@revoked_lookup_exact toy_crl_parser [0] toy_crl [5; 200] 200 eq_refl eq_refl S) in E; [|lia]. now destruct E.
Defined.
