(* ===== verification/X509Csr.v ===== *)
(** Certificate information and certification requests
    (gm-crypto/src/x509/mod.rs): the fields read for renewal, the public key of a
    certificate, and the PKCS#10 builder, whose requests carry a signature that
    verifies over exactly the encoded request information. *)

From Stdlib Require Import String Bool ZArith Lia List.
From S2P Require Import Prelude Bytes Effects Der Sm4 Sm3 Sm2 X509 X509Chain X509Crl.
Import ListNotations.
Open Scope Z_scope.

Definition SUBJECT_ALT_NAME_OID : bytes := [0x55; 0x1D; 0x11].

Record CertInfo : Type := {
  subject_der : bytes;
  spki_bytes : bytes;
  info_not_after : Z;
  san_dns_name : option string;
  serial_hex : option string
}.

Section Info.
Context {X : X509Parser}.

Definition first_dns (names : list GeneralName) : option string :=
  match flat_map (fun n => match n with DNSName d => [d] | _ => [] end) names with d :: _ => Some d | [] => None end.

Definition parse_cert_pem (cert_pem : bytes) : outcome CryptoError CertInfo :=
  contents <- map_err (fun e => Sm2Error ("PEM parse failed: " +++ e)%string) (result (parse_x509_pem cert_pem)) ;;
  cert <- map_err (fun e => Sm2Error ("certificate parse failed: " +++ fst e)%string) (result (x509_from_der contents)) ;;
  let dns :=
    match find_extension SUBJECT_ALT_NAME_OID cert with
    | Some ext => match general_names_from_der (ext_value ext) with Some names => first_dns names | None => None end
    | None => None
    end in
  Ok {| subject_der := subject cert; spki_bytes := subject_public_key cert; info_not_after := not_after cert;
        san_dns_name := dns; serial_hex := Some (hex_encode (raw_serial cert)) |}.

(** [{:02x}] *)
Definition hex02_lower (b : Z) : string := lower (hex02 b).

(** [*last &= !(0xFFu8 >> (8 - unused))] *)
Fixpoint mask_last (unused : Z) (pk : bytes) : bytes :=
  match pk with
  | [] => []
  | [b] => [Z.land b (Z.lxor 0xFF (Z.shiftr 0xFF (8 - unused)))]
  | b :: pk => b :: mask_last unused pk
  end.

Definition uncompressed_key (pk : bytes) (what : string) : outcome CryptoError bytes :=
  guard (negb (len pk =? 65) || negb (nth 0 pk 0 =? 0x04))
    (Sm2Error ("SM2 public key must be 65-byte uncompressed point" +++ what +++ ", got " +++ dec (len pk) +++ " bytes starting with " +++
               hex02_lower (nth 0 pk 0))%string) (Ok pk).

Definition extract_sm2_pubkey_from_der (cert_der : bytes) : outcome CryptoError bytes :=
  cert <- map_err (fun e => Sm2Error ("certificate DER parse failed: " +++ fst e)%string) (result (x509_from_der cert_der)) ;;
  let unused := unused_bits cert in
  guard (7 <? unused) (Sm2Error ("BIT STRING unused-bits count " +++ dec unused +++ " exceeds 7")%string) (
  let pk := subject_public_key cert in
  let pk := if 0 <? unused then mask_last unused pk else pk in
  uncompressed_key pk "").
End Info.

(** ** Requests *)

Definition SM2_SIG_OID_CSR : bytes := [0x2A; 0x81; 0x1C; 0xCF; 0x55; 0x01; 0x83; 0x75].
Definition SM2_PK_OID_CSR : bytes := [0x2A; 0x81; 0x1C; 0xCF; 0x55; 0x01; 0x82; 0x2D].
Definition CN_OID_CSR : bytes := [0x55; 0x04; 0x03].

Record CsrBuilder : Type := { subject_cn : bytes; sm2_pubkey_65 : bytes }.

Definition new_sm2 (cn pubkey : bytes) : outcome CryptoError CsrBuilder :=
  pk <- uncompressed_key pubkey " (0x04 || x || y)" ;;
  Ok {| subject_cn := cn; sm2_pubkey_65 := pk |}.

Definition build_cri_der (b : CsrBuilder) : bytes :=
  let atv := der_sequence (encode_oid CN_OID_CSR ++ der_utf8_string (subject_cn b)) in
  let subject := der_sequence (der_set [atv]) in
  let alg_id := der_sequence (encode_oid SM2_PK_OID_CSR ++ [0x05; 0x00]) in
  let spki := der_sequence (alg_id ++ der_bit_string (sm2_pubkey_65 b)) in
  let version := [0x02; 0x01; 0x00] in
  let attrs := [0xA0; 0x00] in
  der_sequence (version ++ subject ++ spki ++ attrs).

Section Requests.
Context {C : Sm2Crate}.

(** [pem::encode], of the crate pem. *)
Variable pem_encode : string -> bytes -> string.

Definition csr_sign (b : CsrBuilder) (key_pair : Sm2KeyPair) : outcome CryptoError bytes :=
  let cri := build_cri_der b in
  signer <- signer_new_with_distid key_pair GM_TLS_DEFAULT_ID ;;
  sig <- sign signer cri ;;
  let sig_alg := der_sequence (encode_oid SM2_SIG_OID_CSR ++ [0x05; 0x00]) in
  let sig_value := [0x03] ++ der_len (1 + len sig) ++ [0x00] ++ sig in
  Ok (der_sequence (cri ++ sig_alg ++ sig_value)).

Definition build_pem (b : CsrBuilder) (key_pair : Sm2KeyPair) : outcome CryptoError string :=
  der <- csr_sign b key_pair ;;
  Ok (pem_encode "CERTIFICATE REQUEST"%string der).
End Requests.

(** ** What a request says *)

Section Spec.
Context {C : Sm2Crate} {LC : Sm2Laws C}.

Lemma sequence_parsed c rest : len c < 2 ^ 32 -> parse_der_sequence (der_sequence c ++ rest) = Ok (rest, c).
Proof. apply parse_tlv_encoded. Qed.

Lemma bit_string_parsed c rest : len c + 1 < 2 ^ 32 -> parse_der_bit_string (der_bit_string c ++ rest) = Ok (rest, 0 :: c).
Proof.
  intros L. pose proof (parse_tlv_encoded 0x03 (fun t => "expected BIT STRING tag 0x03, got 0x" +++ hex02 t)%string "truncated BIT STRING" (0 :: c) rest) as P.
  rewrite len_cons in P. unfold der_bit_string, parse_der_bit_string. rewrite (Z.add_comm (len c) 1). apply P. lia.
Qed.

Lemma sequence_len c : 0 <= len c -> len c + 2 <= len (der_sequence c) <= len c + 6.
Proof. intros N. unfold der_sequence. rewrite !len_app, der_len_len by lia. change (len [0x30]) with 1. repeat case_cmp; lia. Qed.

Lemma public_65 sk : len (public_key_bytes_uncompressed (generate sk)) = 65 /\ nth 0 (public_key_bytes_uncompressed (generate sk)) 0 = 4.
Proof.
  unfold public_key_bytes_uncompressed. cbn [public_key generate generate_with_distid].
  destruct (encode_shape (from_secret_scalar (nonzero_scalar sk)) (nonzero_public sk)) as (x & y & _ & _ & -> & Lx & Ly & _).
  split; [|reflexivity]. rewrite !len_app, Lx, Ly. reflexivity.
Qed.

Definition cn_name (cn : bytes) : bytes := der_set [der_sequence (encode_oid CN_OID_CSR ++ der_utf8_string cn)].

Lemma cn_name_len cn : len cn < 2 ^ 31 -> len (cn_name cn) <= len cn + 30.
Proof.
  intros L. pose proof (len_nonneg cn). unfold cn_name, der_set, sum_len. cbn [map fold_left].
  set (a := encode_oid CN_OID_CSR ++ der_utf8_string cn).
  assert (A : 0 <= len a <= len cn + 12).
  { unfold a, der_utf8_string. rewrite !len_app, der_len_len by lia. change (len (encode_oid CN_OID_CSR)) with 5. change (len [0x0C]) with 1. repeat case_cmp; lia. }
  pose proof (sequence_len a ltac:(lia)). rewrite !len_app, der_len_len by lia. change (len [0x31]) with 1. repeat case_cmp; lia.
Qed.

(** The request information, piece by piece. *)
Definition cri_says (cri cn pk : bytes) : Prop := exists info r1 r2 spki bits alg,
  parse_der_sequence cri = Ok ([], info) /\ Der.parse_der_integer info = Ok (r1, [0]) /\
  parse_der_sequence r1 = Ok (r2, cn_name cn) /\ parse_der_sequence r2 = Ok ([0xA0; 0x00], spki) /\
  parse_der_sequence spki = Ok (bits, alg) /\ parse_der_bit_string bits = Ok ([], 0 :: pk).

Lemma cri_correct cn pk : len cn < 2 ^ 31 -> len pk = 65 ->
  cri_says (build_cri_der {| subject_cn := cn; sm2_pubkey_65 := pk |}) cn pk /\
  2 <= len (build_cri_der {| subject_cn := cn; sm2_pubkey_65 := pk |}) <= len cn + 200.
Proof.
  intros L P. pose proof (cn_name_len cn L) as N. pose proof (len_nonneg (cn_name cn)). pose proof (len_nonneg cn).
  unfold build_cri_der. cbn [subject_cn sm2_pubkey_65]. fold (cn_name cn). set (alg := encode_oid SM2_PK_OID_CSR ++ [0x05; 0x00]).
  assert (B : len (der_bit_string pk) = 68) by (unfold der_bit_string; rewrite P, !len_app, P; reflexivity).
  assert (S : len (der_sequence alg ++ der_bit_string pk) = 82) by (rewrite len_app, B; reflexivity).
  pose proof (sequence_len (cn_name cn) ltac:(lia)). pose proof (sequence_len (der_sequence alg ++ der_bit_string pk) ltac:(lia)).
  set (info := [0x02; 0x01; 0x00] ++ der_sequence (cn_name cn) ++ der_sequence (der_sequence alg ++ der_bit_string pk) ++ [0xA0; 0x00]).
  assert (I : 0 <= len info <= len cn + 150) by (unfold info; rewrite !len_app; change (len [2; 1; 0]) with 3; change (len [160; 0]) with 2; lia).
  split; [|pose proof (sequence_len info ltac:(lia)); lia].
  exists info. do 5 eexists. split; [rewrite <- (app_nil_r (der_sequence info)); apply sequence_parsed; lia|].
  split; [apply (parse_tlv_encoded 0x02 _ _ [0]); reflexivity|]. split; [apply sequence_parsed; lia|]. split; [apply sequence_parsed; lia|].
  split; [apply sequence_parsed; reflexivity|]. rewrite <- (app_nil_r (der_bit_string pk)). apply bit_string_parsed. lia.
Qed.

(** Certification requests. For every key pair and common name the builder
    accepts the public key and produces a request whose parts read back: the
    request information with the name and the public key, then the signature
    algorithm, then a signature that verifies, under that key and the standard
    identity, over exactly the bytes of the information. *)
Theorem csr_verifies (sk : SecretKey) (cn : bytes) :
  len cn < 2 ^ 31 ->
  let pk := public_key_bytes_uncompressed (generate sk) in
  exists b csr body tail alg bits sig vk,
    new_sm2 cn pk = Ok b /\ csr_sign b (generate sk) = Ok csr /\ cri_says (build_cri_der b) cn pk /\
    parse_der_sequence csr = Ok ([], body) /\ body = build_cri_der b ++ tail /\ extract_tbs_bytes csr = Ok (build_cri_der b) /\
    parse_der_sequence tail = Ok (bits, alg) /\ parse_der_bit_string bits = Ok ([], 0 :: sig) /\
    Sm2Verifier_new pk GM_TLS_DEFAULT_ID = Ok vk /\ Sm2Verifier_verify vk (build_cri_der b) sig = Ok tt.
Proof.
  intros L pk. destruct (public_65 sk) as [P65 P4]. fold pk in P65, P4. pose proof (len_nonneg cn).
  set (b := {| subject_cn := cn; sm2_pubkey_65 := pk |}). destruct (cri_correct cn pk L P65) as [S Lc]. fold b in S, Lc.
  destruct (signing_verifies sk GM_TLS_DEFAULT_ID (build_cri_der b)) as (k & sig & vk & K & G & _ & N & V & L64).
  set (alg := encode_oid SM2_SIG_OID_CSR ++ [0x05; 0x00]). set (tail := der_sequence alg ++ der_bit_string sig).
  assert (B : len (der_bit_string sig) = 67) by (unfold der_bit_string; rewrite L64, !len_app, L64; reflexivity).
  assert (T : len tail = 81) by (unfold tail; rewrite len_app, B; reflexivity).
  exists b, (der_sequence (build_cri_der b ++ tail)), (build_cri_der b ++ tail), tail, alg, (der_bit_string sig), sig, vk.
  split; [unfold new_sm2, uncompressed_key, guard; now rewrite P65, P4|].
  split; [unfold csr_sign; rewrite K; cbn [bind]; rewrite G; cbn [bind]; unfold tail, der_bit_string; now rewrite (Z.add_comm (len sig) 1)|].
  split; [exact S|]. split; [rewrite <- (app_nil_r (der_sequence _)); apply sequence_parsed; rewrite len_app; lia|].
  split; [reflexivity|]. split; [apply extract_tbs_encoded; fold (build_cri_der b); rewrite len_app; lia|].
  split; [apply sequence_parsed; reflexivity|]. split; [rewrite <- (app_nil_r (der_bit_string sig)); apply bit_string_parsed; lia|]. now split.
Qed.
End Spec.

Lemma csr_verifies_witness : exists b csr, new_sm2 [97] (@public_key_bytes_uncompressed toy_sm2 (@generate toy_sm2 tt)) = Ok b /\
  @csr_sign toy_sm2 b (@generate toy_sm2 tt) = Ok csr.
Proof.
  destruct (@csr_verifies toy_sm2 toy_sm2_laws tt [97] eq_refl) as (b & csr & body & tail & alg & bits & sig & vk & B & S & _).
  exists b, csr. now split.
Defined.
