(* ===== verification/Tlcp.v ===== *)
(** TLCP vocabulary (gm-tlcp/src/error.rs, tlcp/constants.rs, alert.rs,
    handshake_type.rs, cipher_suite.rs): error types and their codes and texts,
    code points, alerts, handshake types and the twelve cipher suites. *)

From Stdlib Require Import String Ascii Bool ZArith Lia List.
From S2P Require Import Prelude Bytes Sm4.
Import ListNotations.
Open Scope Z_scope.

(** ** [TlcpError] *)

Inductive TlcpError : Type :=
| HandshakeFailed (m : string)
| CipherError (m : string)
| HandshakeMessageParse (m : string)
| Sm2KeyError (m : string)
| CertificateVerificationFailed (m : string)
| IoError (m : string)
| SequenceOverflow
| TlsRecordError (m : string)
| ParseError (m : string)
| NonceReuse
| InvalidHandshakeType (t : Z)
| InvalidMessage (m : string)
| InvalidState (m : string).

Inductive TlcpErrorCode : Type :=
| CodeHandshakeFailed
| CodeHandshakeMessageParse
| CodeCipher
| CodeSm2Key
| CodeCertificateVerificationFailed
| CodeSequenceOverflow
| CodeNonceReuse
| CodeInvalidHandshakeType
| CodeInvalidMessage
| CodeInvalidState
| CodeParseError
| CodeTlsRecordError
| CodeIoError.

Definition code (e : TlcpError) : TlcpErrorCode :=
  match e with
  | HandshakeFailed _ => CodeHandshakeFailed
  | CipherError _ => CodeCipher
  | HandshakeMessageParse _ => CodeHandshakeMessageParse
  | Sm2KeyError _ => CodeSm2Key
  | CertificateVerificationFailed _ => CodeCertificateVerificationFailed
  | IoError _ => CodeIoError
  | SequenceOverflow => CodeSequenceOverflow
  | TlsRecordError _ => CodeTlsRecordError
  | ParseError _ => CodeParseError
  | NonceReuse => CodeNonceReuse
  | InvalidHandshakeType _ => CodeInvalidHandshakeType
  | InvalidMessage _ => CodeInvalidMessage
  | InvalidState _ => CodeInvalidState
  end.

(** [{:02x?}] and [{:02X?}] of a two-byte array. *)
Definition hex_pair (f : Z -> string) (p : bytes) : string :=
  ("[" +++ String.concat ", " (map f p) +++ "]")%string.

Definition display_tlcp (e : TlcpError) : string :=
  (match e with
   | HandshakeFailed m => "handshake failed: " +++ m
   | CipherError m => "GM cipher error: " +++ m
   | HandshakeMessageParse m => "handshake message parse failed: " +++ m
   | Sm2KeyError m => "SM2/RSA key error: " +++ m
   | CertificateVerificationFailed m => "certificate verification failed: " +++ m
   | IoError m => "I/O error: " +++ m
   | SequenceOverflow => "sequence overflow: GCM nonce cannot exceed 2^64-1"
   | TlsRecordError m => "TLS record error: " +++ m
   | ParseError m => "parse error: " +++ m
   | NonceReuse => "GCM nonce reuse detected: same nonce used twice with the same key"
   | InvalidHandshakeType t => "invalid handshake type: 0x" +++ hexl t
   | InvalidMessage m => "invalid message: " +++ m
   | InvalidState m => "invalid state: " +++ m
   end)%string.

(** The derived [Debug] of [TlcpError]. *)
Definition debug_tlcp (e : TlcpError) : string :=
  match e with
  | HandshakeFailed m => debug_tuple "HandshakeFailed" m
  | CipherError m => debug_tuple "CipherError" m
  | HandshakeMessageParse m => debug_tuple "HandshakeMessageParse" m
  | Sm2KeyError m => debug_tuple "Sm2KeyError" m
  | CertificateVerificationFailed m => debug_tuple "CertificateVerificationFailed" m
  | IoError m => debug_tuple "IoError" m
  | SequenceOverflow => "SequenceOverflow"%string
  | TlsRecordError m => debug_tuple "TlsRecordError" m
  | ParseError m => debug_tuple "ParseError" m
  | NonceReuse => "NonceReuse"%string
  | InvalidHandshakeType t => ("InvalidHandshakeType(" +++ dec t +++ ")")%string
  | InvalidMessage m => debug_tuple "InvalidMessage" m
  | InvalidState m => debug_tuple "InvalidState" m
  end.

(** [From<CryptoError> for TlcpError] *)
Definition from_crypto (e : CryptoError) : TlcpError := HandshakeFailed (display_crypto e).

(** ** Constants *)

Definition TLCP_VERSION_1_0 : bytes := [0x01; 0x01].
Definition TLCP_RECORD_TYPE_CCS : Z := 0x14.
Definition TLCP_RECORD_TYPE_ALERT : Z := 0x15.
Definition TLCP_RECORD_TYPE_HANDSHAKE : Z := 0x16.
Definition TLCP_RECORD_TYPE_APP_DATA : Z := 0x17.
Definition TLCP_MAX_RECORD_SIZE : Z := 16 * 1024.
Definition SM3_HMAC_LENGTH : Z := 32.
Definition SM4_CBC_IV_LENGTH : Z := SM4_BLOCK_SIZE.
Definition MAX_SESSION_ID_LEN : Z := 32.
Definition DEFAULT_SESSION_LIFETIME : Z := 86400.
Definition MAX_CACHED_SESSIONS : Z := 1024.
Definition TLCP_EC_CURVE_TYPE_NAMED_CURVE : Z := 0x03.
Definition TLCP_NAMED_CURVE_SM2P256V1 : bytes := [0x00; 0x29].
Definition TLCP_ECH_PARAMS_PREFIX : bytes := TLCP_EC_CURVE_TYPE_NAMED_CURVE :: TLCP_NAMED_CURVE_SM2P256V1.
Definition SM2_UNCOMPRESSED_PUBLIC_KEY_LENGTH : Z := 65.

Definition TLS_ECDHE_SM4_GCM_SM3 : bytes := [0xE0; 0x51].
Definition TLS_ECDHE_SM4_CBC_SM3 : bytes := [0xE0; 0x11].
Definition TLS_ECC_SM4_GCM_SM3 : bytes := [0xE0; 0x53].
Definition TLS_ECC_SM4_CBC_SM3 : bytes := [0xE0; 0x13].
Definition TLS_IBC_SM4_GCM_SM3 : bytes := [0xE0; 0x57].
Definition TLS_IBC_SM4_CBC_SM3 : bytes := [0xE0; 0x17].
Definition TLS_IBSDH_SM4_GCM_SM3 : bytes := [0xE0; 0x55].
Definition TLS_IBSDH_SM4_CBC_SM3 : bytes := [0xE0; 0x15].
Definition TLS_RSA_SM4_CBC_SM3 : bytes := [0xE0; 0x19].
Definition TLS_RSA_SM4_CBC_SHA256 : bytes := [0xE0; 0x1C].
Definition TLS_RSA_SM4_GCM_SM3 : bytes := [0xE0; 0x59].
Definition TLS_RSA_SM4_GCM_SHA256 : bytes := [0xE0; 0x5A].

(** ** Handshake types *)

Inductive HandshakeType : Type :=
| ClientHello
| ServerHello
| Certificate
| ServerKeyExchange
| CertificateRequest
| ServerHelloDone
| CertificateVerify
| ClientKeyExchange
| Finished.

Definition handshake_code (t : HandshakeType) : Z :=
  match t with
  | ClientHello => 0x01
  | ServerHello => 0x02
  | Certificate => 0x0B
  | ServerKeyExchange => 0x0C
  | CertificateRequest => 0x0D
  | ServerHelloDone => 0x0E
  | CertificateVerify => 0x0F
  | ClientKeyExchange => 0x10
  | Finished => 0x14
  end.

Definition handshake_try_from (value : Z) : outcome TlcpError HandshakeType :=
  if value =? 0x01 then Ok ClientHello
  else if value =? 0x02 then Ok ServerHello
  else if value =? 0x0B then Ok Certificate
  else if value =? 0x0C then Ok ServerKeyExchange
  else if value =? 0x0D then Ok CertificateRequest
  else if value =? 0x0E then Ok ServerHelloDone
  else if value =? 0x0F then Ok CertificateVerify
  else if value =? 0x10 then Ok ClientKeyExchange
  else if value =? 0x14 then Ok Finished
  else Err (InvalidHandshakeType value).

(** ** Alerts *)

Inductive TlcpAlertLevel : Type := Warning | Fatal.

Definition level_code (l : TlcpAlertLevel) : Z := match l with Warning => 0x01 | Fatal => 0x02 end.

Definition level_try_from (value : Z) : outcome TlcpError TlcpAlertLevel :=
  if value =? 0x01 then Ok Warning
  else if value =? 0x02 then Ok Fatal
  else Err (InvalidMessage ("Invalid alert level: " +++ dec value)%string).

Inductive TlcpAlertDescription : Type :=
| CloseNotify
| UnexpectedMessage
| HandshakeFailure
| HandshakeFailureNoCipher
| BadCertificate
| UnsupportedCertificate
| CertificateRevoked
| CertificateExpired
| UnknownCa
| DecryptError
| BadRecordMac
| DecompressionFailure
| ProtocolVersion
| InternalError
| InsufficientSecurity
| UserCanceled.

Definition description_code (d : TlcpAlertDescription) : Z :=
  match d with
  | CloseNotify => 0x00
  | UnexpectedMessage => 0x0A
  | HandshakeFailure => 0x28
  | HandshakeFailureNoCipher => 0x29
  | BadCertificate => 0x2A
  | UnsupportedCertificate => 0x2B
  | CertificateRevoked => 0x2C
  | CertificateExpired => 0x2D
  | UnknownCa => 0x30
  | DecryptError => 0x33
  | BadRecordMac => 0x14
  | DecompressionFailure => 0x16
  | ProtocolVersion => 0x46
  | InternalError => 0x50
  | InsufficientSecurity => 0x47
  | UserCanceled => 0x5A
  end.

Definition description_try_from (value : Z) : outcome TlcpError TlcpAlertDescription :=
  if value =? 0x00 then Ok CloseNotify
  else if value =? 0x0A then Ok UnexpectedMessage
  else if value =? 0x14 then Ok BadRecordMac
  else if value =? 0x16 then Ok DecompressionFailure
  else if value =? 0x28 then Ok HandshakeFailure
  else if value =? 0x29 then Ok HandshakeFailureNoCipher
  else if value =? 0x2A then Ok BadCertificate
  else if value =? 0x2B then Ok UnsupportedCertificate
  else if value =? 0x2C then Ok CertificateRevoked
  else if value =? 0x2D then Ok CertificateExpired
  else if value =? 0x30 then Ok UnknownCa
  else if value =? 0x33 then Ok DecryptError
  else if value =? 0x46 then Ok ProtocolVersion
  else if value =? 0x47 then Ok InsufficientSecurity
  else if value =? 0x50 then Ok InternalError
  else if value =? 0x5A then Ok UserCanceled
  else Err (InvalidMessage ("Unknown alert description: " +++ dec value)%string).

Record TlcpAlert : Type := { level : TlcpAlertLevel; description : TlcpAlertDescription }.

Definition close_notify : TlcpAlert := {| level := Warning; description := CloseNotify |}.
Definition handshake_failure : TlcpAlert := {| level := Fatal; description := HandshakeFailure |}.
Definition protocol_version : TlcpAlert := {| level := Fatal; description := ProtocolVersion |}.
Definition bad_record_mac : TlcpAlert := {| level := Fatal; description := BadRecordMac |}.

Definition alert_to_bytes (a : TlcpAlert) : bytes := [level_code (level a); description_code (description a)].

Definition alert_from_bytes (data : bytes) : outcome TlcpError TlcpAlert :=
  guard (len data <? 2) (InvalidMessage "Alert message too short")
  (d0 <- index data 0 ;;
   level <- level_try_from d0 ;;
   d1 <- index data 1 ;;
   description <- description_try_from d1 ;;
   Ok {| level := level; description := description |}).

Definition is_fatal (a : TlcpAlert) : bool := match level a with Fatal => true | Warning => false end.
Definition is_close_notify (a : TlcpAlert) : bool :=
  match description a with CloseNotify => true | _ => false end.

(** ** Cipher suites *)

Inductive KeyExchangeMode : Type := Ecdhe | Ecc | Ibc | Ibsdh | Rsa.

Record TlcpCipherSuite : Type := {
  suite_id : bytes;
  suite_name : string;
  key_exchange : KeyExchangeMode;
  gcm : bool;
  ecdhe : bool
}.

Definition suite (id : bytes) (name : string) (kx : KeyExchangeMode) (g e : bool) : TlcpCipherSuite :=
  {| suite_id := id; suite_name := name; key_exchange := kx; gcm := g; ecdhe := e |}.

Definition ECDHE_SM4_GCM_SM3 := suite TLS_ECDHE_SM4_GCM_SM3 "ECDHE_SM4_GCM_SM3" Ecdhe true true.
Definition ECDHE_SM4_CBC_SM3 := suite TLS_ECDHE_SM4_CBC_SM3 "ECDHE_SM4_CBC_SM3" Ecdhe false true.
Definition ECC_SM4_GCM_SM3 := suite TLS_ECC_SM4_GCM_SM3 "ECC_SM4_GCM_SM3" Ecc true false.
Definition ECC_SM4_CBC_SM3 := suite TLS_ECC_SM4_CBC_SM3 "ECC_SM4_CBC_SM3" Ecc false false.
Definition IBC_SM4_GCM_SM3 := suite TLS_IBC_SM4_GCM_SM3 "IBC_SM4_GCM_SM3" Ibc true false.
Definition IBC_SM4_CBC_SM3 := suite TLS_IBC_SM4_CBC_SM3 "IBC_SM4_CBC_SM3" Ibc false false.
Definition IBSDH_SM4_GCM_SM3 := suite TLS_IBSDH_SM4_GCM_SM3 "IBSDH_SM4_GCM_SM3" Ibsdh true false.
Definition IBSDH_SM4_CBC_SM3 := suite TLS_IBSDH_SM4_CBC_SM3 "IBSDH_SM4_CBC_SM3" Ibsdh false false.
Definition RSA_SM4_CBC_SM3 := suite TLS_RSA_SM4_CBC_SM3 "RSA_SM4_CBC_SM3" Rsa false false.
Definition RSA_SM4_CBC_SHA256 := suite TLS_RSA_SM4_CBC_SHA256 "RSA_SM4_CBC_SHA256" Rsa false false.
Definition RSA_SM4_GCM_SM3 := suite TLS_RSA_SM4_GCM_SM3 "RSA_SM4_GCM_SM3" Rsa true false.
Definition RSA_SM4_GCM_SHA256 := suite TLS_RSA_SM4_GCM_SHA256 "RSA_SM4_GCM_SHA256" Rsa true false.

Definition is_static (s : TlcpCipherSuite) : bool :=
  match key_exchange s with Ecc | Ibc | Rsa => true | _ => false end.
Definition is_sm9 (s : TlcpCipherSuite) : bool :=
  match key_exchange s with Ibc | Ibsdh => true | _ => false end.

Definition from_id (id : bytes) : option TlcpCipherSuite :=
  if bytes_eqb id TLS_ECDHE_SM4_GCM_SM3 then Some ECDHE_SM4_GCM_SM3
  else if bytes_eqb id TLS_ECDHE_SM4_CBC_SM3 then Some ECDHE_SM4_CBC_SM3
  else if bytes_eqb id TLS_ECC_SM4_GCM_SM3 then Some ECC_SM4_GCM_SM3
  else if bytes_eqb id TLS_ECC_SM4_CBC_SM3 then Some ECC_SM4_CBC_SM3
  else if bytes_eqb id TLS_IBC_SM4_GCM_SM3 then Some IBC_SM4_GCM_SM3
  else if bytes_eqb id TLS_IBC_SM4_CBC_SM3 then Some IBC_SM4_CBC_SM3
  else if bytes_eqb id TLS_IBSDH_SM4_GCM_SM3 then Some IBSDH_SM4_GCM_SM3
  else if bytes_eqb id TLS_IBSDH_SM4_CBC_SM3 then Some IBSDH_SM4_CBC_SM3
  else if bytes_eqb id TLS_RSA_SM4_GCM_SM3 then Some RSA_SM4_GCM_SM3
  else if bytes_eqb id TLS_RSA_SM4_CBC_SM3 then Some RSA_SM4_CBC_SM3
  else if bytes_eqb id TLS_RSA_SM4_GCM_SHA256 then Some RSA_SM4_GCM_SHA256
  else if bytes_eqb id TLS_RSA_SM4_CBC_SHA256 then Some RSA_SM4_CBC_SHA256
  else None.

Definition all_suites : list TlcpCipherSuite :=
  [ECDHE_SM4_GCM_SM3; ECDHE_SM4_CBC_SM3; ECC_SM4_GCM_SM3; ECC_SM4_CBC_SM3;
   IBC_SM4_GCM_SM3; IBC_SM4_CBC_SM3; IBSDH_SM4_GCM_SM3; IBSDH_SM4_CBC_SM3;
   RSA_SM4_GCM_SM3; RSA_SM4_CBC_SM3; RSA_SM4_GCM_SHA256; RSA_SM4_CBC_SHA256].

(** ** Lemmas *)

Lemma handshake_code_try t : handshake_try_from (handshake_code t) = Ok t.
Proof. now destruct t. Qed.

Lemma handshake_try_code v t : handshake_try_from v = Ok t -> v = handshake_code t.
Proof.
  unfold handshake_try_from. repeat (case_cmp; [intros [= <-]; assumption|]). discriminate.
Qed.

Lemma alert_roundtrip a rest : alert_from_bytes (alert_to_bytes a ++ rest) = Ok a.
Proof.
  unfold alert_from_bytes. destruct a as [l d].
  destruct (Z.ltb_spec (len (alert_to_bytes {| level := l; description := d |} ++ rest)) 2);
    [exfalso; cbn [alert_to_bytes app] in *; len_lia|].
  destruct l, d; reflexivity.
Qed.

Lemma from_id_some id s : from_id id = Some s <-> In s all_suites /\ suite_id s = id.
Proof.
  unfold from_id. split.
  - repeat match goal with
    | |- (if bytes_eqb id ?c then _ else _) = _ -> _ =>
        destruct (bytes_eqb id c) eqn:E; [apply bytes_eqb_eq in E; intros X%some_inj; rewrite <- X, E;
          split; [cbn [In all_suites]; tauto|reflexivity]|clear E]
    end.
    discriminate.
  - intros [I <-]. cbn [In all_suites] in I. repeat destruct I as [<-|I]; [reflexivity..|destruct I].
Qed.
