(* ===== verification/TlcpKeys.v ===== *)
(** TLCP key schedule (gm-tlcp/src/record.rs, session_keys.rs,
    tlcp/key_material.rs, tlcp/messages/finished.rs): record nonces, the
    SM3-based PRF, the key block of a cipher suite, session keys and the Finished
    verify_data. *)

From Stdlib Require Import String Bool ZArith Lia List.
From S2P Require Import Prelude Bytes Sm4 Sm3 Tlcp.
Import ListNotations.
Open Scope Z_scope.

(** ** Record nonces *)

(** [for i in 0..n { nonce[12 - n + i] ^= ctr_bytes[i] }] with [n = 8] *)
Definition next_nonce (base : bytes) (seq : Z) : outcome TlcpError bytes :=
  if seq =? u64_max then Err SequenceOverflow
  else
    let ctr_bytes := be_bytes 8 seq in
    let nonce := firstn 4 base ++ xor_bytes (skipn 4 base) ctr_bytes in
    if negb (seq =? 0) && bytes_eqb nonce base then Err SequenceOverflow else Ok nonce.

(** ** Keys *)

Record SessionKeys : Type := {
  client_key : bytes;
  client_nonce : bytes;
  server_key : bytes;
  server_nonce : bytes
}.

Record TlcpKeyMaterial : Type := {
  client_mac_key : bytes;
  server_mac_key : bytes;
  client_enc_key : bytes;
  server_enc_key : bytes;
  client_iv : bytes;
  server_iv : bytes
}.

Definition MAX_PRF_OUTPUT : Z := 16 * 1024.

Section Keys.
Context {H : Sm3Crate}.

(** One turn of [while result.len() < length]; [None] when the loop is left. *)
Definition prf_step (k : Sm3Hmac) (label_seed : bytes) (length : Z) (s : bytes * bytes)
    : outcome TlcpError (option (bytes * bytes)) :=
  let '(result, a) := s in
  if negb (len result <? length) then Ok None
  else
    let p_input := a ++ label_seed in
    p <- map_err (fun e => CipherError ("prf P(i): " +++ display_crypto e)%string) (compute k p_input) ;;
    let result := result ++ p in
    if len result <? length then
      a <- map_err (fun e => CipherError ("prf A(i+1): " +++ display_crypto e)%string) (compute k a) ;;
      Ok (Some (result, a))
    else Ok (Some (result, a)).

(** The loop with fuel; [None] when the fuel runs out. *)
Fixpoint prf_loop (fuel : nat) (k : Sm3Hmac) (label_seed : bytes) (length : Z) (s : bytes * bytes)
    : option (outcome TlcpError bytes) :=
  match fuel with
  | O => None
  | S f =>
      match prf_step k label_seed length s with
      | Ok None => Some (Ok (fst s))
      | Ok (Some s') => prf_loop f k label_seed length s'
      | Err e => Some (Err e)
      | Panic => Some Panic
      end
  end.

(** 32 bytes per turn and at most 16384 bytes: 513 tests of the condition. *)
Definition prf_fuel : nat := 513.

Definition prf_expand (secret label seed : bytes) (length : Z) : option (outcome TlcpError bytes) :=
  if MAX_PRF_OUTPUT <? length then
    Some (Err (HandshakeFailed ("prf_expand length " +++ dec length +++ " exceeds limit " +++ dec MAX_PRF_OUTPUT)%string))
  else
    let hmac_key := Sm3Hmac_new secret in
    let label_seed := label ++ seed in
    match map_err (fun e => CipherError ("prf A(1): " +++ display_crypto e)%string) (compute hmac_key label_seed) with
    | Ok a =>
        match prf_loop prf_fuel hmac_key label_seed length ([], a) with
        | Some o => Some (result <- o ;; Ok (firstn (Z.to_nat length) result))
        | None => None
        end
    | Err e => Some (Err e)
    | Panic => Some Panic
    end.

(** A PRF that does not return has no result: callers inherit the [None]. *)
Definition and_then {A B : Type} (o : option (outcome TlcpError A)) (k : A -> option (outcome TlcpError B))
    : option (outcome TlcpError B) :=
  match o with
  | Some (Ok a) => k a
  | Some (Err e) => Some (Err e)
  | Some Panic => Some Panic
  | None => None
  end.

Definition key_layout (gcm : bool) (key_block : bytes) : outcome TlcpError TlcpKeyMaterial :=
  if gcm then
    ce <- slice key_block 0 16 ;;
    se <- slice key_block 16 32 ;;
    ci <- slice key_block 32 36 ;;
    si <- slice key_block 36 40 ;;
    Ok {| client_mac_key := []; server_mac_key := []; client_enc_key := ce; server_enc_key := se;
          client_iv := ci; server_iv := si |}
  else
    cm <- slice key_block 0 32 ;;
    sm <- slice key_block 32 64 ;;
    ce <- slice key_block 64 80 ;;
    se <- slice key_block 80 96 ;;
    ci <- slice key_block 96 112 ;;
    si <- slice key_block 112 128 ;;
    Ok {| client_mac_key := cm; server_mac_key := sm; client_enc_key := ce; server_enc_key := se;
          client_iv := ci; server_iv := si |}.

Definition derive (master_secret client_random server_random : bytes) (cipher_suite : TlcpCipherSuite)
    : option (outcome TlcpError TlcpKeyMaterial) :=
  let seed := server_random ++ client_random in
  let needed := if gcm cipher_suite then 40 else 128 in
  and_then (prf_expand master_secret (bytes_of "key expansion") seed needed)
    (fun key_block => Some (key_layout (gcm cipher_suite) key_block)).

Definition to_session_keys (km : TlcpKeyMaterial) : outcome TlcpError SessionKeys :=
  guard (negb (len (client_enc_key km) =? 16) || negb (len (server_enc_key km) =? 16))
    (HandshakeFailed "GCM requires 16-byte keys")
  (guard (negb (len (client_iv km) =? 4) || negb (len (server_iv km) =? 4))
    (HandshakeFailed ("GCM requires 4-byte fixed IV (got " +++ dec (len (client_iv km)) +++ "/" +++
       dec (len (server_iv km)) +++ ")")%string)
  (client_nonce <- copy_prefix (repeat 0 12) (client_iv km) ;;
   server_nonce <- copy_prefix (repeat 0 12) (server_iv km) ;;
   Ok {| client_key := client_enc_key km; client_nonce := client_nonce;
         server_key := server_enc_key km; server_nonce := server_nonce |})).

(** ** Finished *)

Record TlcpFinished : Type := { verify_data : bytes }.

Definition finished_compute (master_secret : bytes) (label : string) (transcript : bytes)
    : option (outcome TlcpError TlcpFinished) :=
  match map_err (fun e => HandshakeFailed (display_crypto e)) (Sm3Hasher_hash transcript) with
  | Ok transcript_hash =>
      and_then (prf_expand master_secret (bytes_of label) transcript_hash 12)
        (fun prf_output => Some (v <- slice_to prf_output 12 ;; Ok {| verify_data := v |}))
  | Err e => Some (Err e)
  | Panic => Some Panic
  end.

Definition finished_to_bytes (f : TlcpFinished) : bytes :=
  [handshake_code Finished; 0; 0; 12] ++ verify_data f.

Definition finished_verify (f : TlcpFinished) (expected : bytes) : bool := bytes_eqb (verify_data f) expected.

Definition finished_from_body (body : bytes) : outcome TlcpError TlcpFinished :=
  guard (negb (len body =? 12))
    (HandshakeFailed ("TLCP Finished body must be 12 bytes, got " +++ dec (len body))%string)
    (v <- slice_to body 12 ;; Ok {| verify_data := v |}).

(** ** The PRF of RFC 5246, section 5, over HMAC-SM3 *)

Fixpoint p_hash (n : nat) (secret a seed : bytes) : bytes :=
  match n with
  | O => []
  | S n => hmac_ref secret (a ++ seed) ++ p_hash n secret (hmac_ref secret a) seed
  end.

(** [PRF(secret, label, seed)] truncated to [length] bytes. *)
Definition prf_ref (secret label seed : bytes) (length : Z) : bytes :=
  let s := label ++ seed in
  firstn (Z.to_nat length) (p_hash (Z.to_nat length) secret (hmac_ref secret s) s).
End Keys.

(** ** Nonces *)

Lemma next_nonce_ok base seq : len base = 12 -> 0 <= seq < u64_max -> next_nonce base seq = Ok (seq_nonce base seq).
Proof.
  intros L B. unfold next_nonce. destruct (Z.eqb_spec seq u64_max); [lia|].
  destruct (Z.eqb_spec seq 0) as [->|NZ]; [reflexivity|]. cbn [negb andb].
  destruct (bytes_eqb _ base) eqn:E; [exfalso|reflexivity]. apply bytes_eqb_eq in E. apply NZ.
  apply (seq_nonce_inj base); unfold u64_max in B; try lia. now rewrite seq_nonce_0.
Qed.

(** Record nonces never repeat: with a 12-byte base every sequence number
    below 2^64 - 1 has a 12-byte nonce, no two have the same one (the guard
    against a nonce equal to the base never fires), the last sequence number is
    refused, and with the TLCP base [fixed_iv || 0] the nonce is the fixed IV
    followed by the sequence number. *)
Theorem next_nonce_unique (base : bytes) (s t : Z) :
  len base = 12 -> wf_bytes base = true -> 0 <= s < 2 ^ 64 -> 0 <= t < 2 ^ 64 ->
  (next_nonce base s = Err SequenceOverflow <-> s = 2 ^ 64 - 1) /\
  (s <> 2 ^ 64 - 1 -> exists n, next_nonce base s = Ok n /\ len n = 12 /\ wf_bytes n = true /\
     (skipn 4 base = repeat 0 8 -> n = firstn 4 base ++ be_bytes 8 s)) /\
  (forall n, next_nonce base s = Ok n -> next_nonce base t = Ok n -> s = t).
Proof.
  intros L W Bs Bt.
  assert (M : next_nonce base (2 ^ 64 - 1) = Err SequenceOverflow) by reflexivity.
  destruct (seq_nonce_shape base s L W) as [Ln Wn]. split; [|split].
  - split; [|now intros ->]. intros E. destruct (Z.eq_dec s (2 ^ 64 - 1)); [assumption|].
    rewrite next_nonce_ok in E by (assumption || (unfold u64_max; lia)). discriminate.
  - intros N. rewrite next_nonce_ok by (assumption || (unfold u64_max; lia)). eexists. split; [reflexivity|].
    split; [exact Ln|]. split; [exact Wn|].
    intros Z0. unfold seq_nonce. rewrite Z0, xor_comm, xor_zeros by (rewrite length_be_bytes; lia). reflexivity.
  - intros n. destruct (Z.eq_dec s (2 ^ 64 - 1)) as [->|]; [rewrite M; discriminate|].
    destruct (Z.eq_dec t (2 ^ 64 - 1)) as [->|]; [rewrite M; discriminate|].
    rewrite !next_nonce_ok by (assumption || (unfold u64_max; lia)). intros <- E%ok_inj.
    symmetry. now apply (seq_nonce_inj base).
Qed.

Lemma next_nonce_unique_witness :
  exists n, next_nonce [1; 2; 3; 4; 0; 0; 0; 0; 0; 0; 0; 0] 7 = Ok n /\ n = [1; 2; 3; 4] ++ be_bytes 8 7.
Proof.
  destruct (next_nonce_unique [1; 2; 3; 4; 0; 0; 0; 0; 0; 0; 0; 0] 7 8) as (_ & E & _); [reflexivity..|lia|lia|].
  destruct E as (n & E & _ & _ & X); [discriminate|]. exists n. split; [exact E|]. now apply X.
Defined.

(** ** The PRF *)

Section PrfLemmas.
Context {H : Sm3Crate} {L : Sm3Laws H}.

Lemma p_hash_len n secret a seed : len (p_hash n secret a seed) = 32 * Z.of_nat n.
Proof.
  revert a. induction n; intros a; cbn [p_hash]; [reflexivity|].
  destruct (hmac_ref_digest secret (a ++ seed)) as [_ D]. rewrite len_app, IHn, D. lia.
Qed.

Lemma p_hash_wf n secret a seed : wf_bytes (p_hash n secret a seed) = true.
Proof.
  revert a. induction n; intros a; cbn [p_hash]; [reflexivity|].
  destruct (hmac_ref_digest secret (a ++ seed)) as [W _]. now rewrite wf_bytes_app, IHn, W.
Qed.

Lemma p_hash_prefix n m secret a seed : (n <= m)%nat ->
  exists t, p_hash m secret a seed = p_hash n secret a seed ++ t.
Proof.
  revert m a. induction n; intros m a Le; cbn [p_hash]; [eexists; reflexivity|].
  destruct m; [lia|]. cbn [p_hash]. destruct (IHn m (hmac_ref secret a)) as [t ->]; [lia|].
  exists t. now rewrite app_assoc.
Qed.

(** Blocks beyond the length do not matter. *)
Lemma prf_ref_blocks secret label seed length j : 0 <= length <= 32 * Z.of_nat j ->
  firstn (Z.to_nat length) (p_hash j secret (hmac_ref secret (label ++ seed)) (label ++ seed)) =
  prf_ref secret label seed length.
Proof.
  intros B. unfold prf_ref. set (s := label ++ seed). set (n := Z.to_nat length).
  assert (G : forall k, length <= 32 * Z.of_nat k -> (n <= List.length (p_hash k secret (hmac_ref secret s) s))%nat).
  { intros k Hk. pose proof (p_hash_len k secret (hmac_ref secret s) s) as E. unfold len in E. lia. }
  destruct (Nat.le_ge_cases j n) as [Le|Le]; destruct (p_hash_prefix _ _ secret (hmac_ref secret s) s Le) as [t ->].
  - rewrite firstn_prefix; [reflexivity|apply G; lia].
  - rewrite firstn_prefix; [reflexivity|apply G; lia].
Qed.

Lemma prf_loop_ok j secret seed length fuel r a : (j < fuel)%nat ->
  (j = 0%nat -> length <= len r) ->
  ((0 < j)%nat -> len r + 32 * Z.of_nat j - 32 < length <= len r + 32 * Z.of_nat j) ->
  prf_loop fuel (Sm3Hmac_new secret) seed length (r, a) = Some (Ok (r ++ p_hash j secret a seed)).
Proof.
  revert fuel r a. induction j as [|j IH]; intros [|fuel] r a F B0 B1; try lia; cbn [prf_loop prf_step].
  - destruct (Z.ltb_spec (len r) length); [lia|]. cbn [negb fst p_hash]. now rewrite app_nil_r.
  - destruct (Z.ltb_spec (len r) length); [|lia]. cbn [negb].
    rewrite compute_ref. cbn [map_err bind hmac_key].
    destruct (hmac_ref_digest secret (a ++ seed)) as [_ D]. rewrite len_app, D.
    destruct (Z.ltb_spec (len r + 32) length).
    + rewrite compute_ref. cbn [map_err bind hmac_key].
      rewrite IH by (rewrite ?len_app, ?D; lia). cbn [p_hash]. now rewrite app_assoc.
    + rewrite IH by (rewrite ?len_app, ?D; lia).
      replace j with 0%nat by lia. cbn [p_hash]. now rewrite !app_nil_r.
Qed.

(** The PRF returns on every input: the reference bytes, or the limit error. *)
Lemma prf_expand_ok secret label seed length : 0 <= length <= MAX_PRF_OUTPUT ->
  prf_expand secret label seed length = Some (Ok (prf_ref secret label seed length)).
Proof.
  intros B. unfold MAX_PRF_OUTPUT in B. unfold prf_expand, MAX_PRF_OUTPUT.
  destruct (Z.ltb_spec (16 * 1024) length); [lia|].
  rewrite compute_ref. cbn [map_err hmac_key].
  pose proof (Z.div_mod (length + 31) 32 ltac:(lia)). pose proof (Z.mod_pos_bound (length + 31) 32 ltac:(lia)).
  rewrite (prf_loop_ok (Z.to_nat ((length + 31) / 32))); unfold prf_fuel; rewrite ?len_nil; try lia.
  cbn [bind app]. rewrite prf_ref_blocks by lia. reflexivity.
Qed.

Lemma prf_ref_shape secret label seed length : 0 <= length ->
  len (prf_ref secret label seed length) = length /\ wf_bytes (prf_ref secret label seed length) = true.
Proof.
  intros B. unfold prf_ref. split.
  - apply len_firstn. rewrite p_hash_len. lia.
  - apply wf_bytes_firstn, p_hash_wf.
Qed.

End PrfLemmas.

(** ** The key block *)

(** Consecutive slices of a list are its parts. *)
Lemma slices_chain {A} a b (l x : list A) : (a <= b)%nat -> x = skipn b l ->
  firstn (b - a) (skipn a l) ++ x = skipn a l.
Proof.
  intros Le ->. replace (skipn b l) with (skipn (b - a) (skipn a l)) by (rewrite skipn_skipn; f_equal; lia).
  apply firstn_skipn.
Qed.

Lemma key_layout_gcm kb : len kb = 40 -> exists km, key_layout true kb = Ok km /\
  client_enc_key km ++ server_enc_key km ++ client_iv km ++ server_iv km = kb /\
  len (client_enc_key km) = 16 /\ len (server_enc_key km) = 16 /\ len (client_iv km) = 4 /\ len (server_iv km) = 4 /\
  client_mac_key km = [] /\ server_mac_key km = [].
Proof.
  intros L. unfold key_layout. rewrite !slice_ok by lia. cbn [bind]. eexists. split; [reflexivity|].
  cbn [client_enc_key server_enc_key client_iv server_iv client_mac_key server_mac_key]. split.
  - apply (slices_chain 0 16); [lia|]. apply (slices_chain 16 32); [lia|]. apply (slices_chain 32 36); [lia|].
    apply firstn_all2. rewrite length_skipn. unfold len in L. lia.
  - unfold len in *. rewrite !length_firstn, !length_skipn. repeat split; lia || reflexivity.
Qed.

Lemma key_layout_cbc kb : len kb = 128 -> exists km, key_layout false kb = Ok km /\
  client_mac_key km ++ server_mac_key km ++ client_enc_key km ++ server_enc_key km ++ client_iv km ++ server_iv km = kb /\
  len (client_mac_key km) = 32 /\ len (server_mac_key km) = 32 /\
  len (client_enc_key km) = 16 /\ len (server_enc_key km) = 16 /\ len (client_iv km) = 16 /\ len (server_iv km) = 16.
Proof.
  intros L. unfold key_layout. rewrite !slice_ok by lia. cbn [bind]. eexists. split; [reflexivity|].
  cbn [client_enc_key server_enc_key client_iv server_iv client_mac_key server_mac_key]. split.
  - apply (slices_chain 0 32); [lia|]. apply (slices_chain 32 64); [lia|]. apply (slices_chain 64 80); [lia|].
    apply (slices_chain 80 96); [lia|]. apply (slices_chain 96 112); [lia|].
    apply firstn_all2. rewrite length_skipn. unfold len in L. lia.
  - unfold len in *. rewrite !length_firstn, !length_skipn. repeat split; lia || reflexivity.
Qed.

Section KeyClaims.
Context {H : Sm3Crate} {L : Sm3Laws H}.

Lemma derive_ok master cr sr s : exists km, derive master cr sr s = Some (Ok km) /\
  key_layout (gcm s) (prf_ref master (bytes_of "key expansion") (sr ++ cr) (if gcm s then 40 else 128)) = Ok km.
Proof.
  unfold derive. set (n := if gcm s then 40 else 128).
  assert (N : 0 <= n <= MAX_PRF_OUTPUT) by (unfold MAX_PRF_OUTPUT; destruct (gcm s); lia).
  rewrite prf_expand_ok by exact N. cbn [and_then].
  destruct (prf_ref_shape master (bytes_of "key expansion") (sr ++ cr) n) as [Len _]; [lia|].
  subst n. destruct (gcm s).
  - destruct (key_layout_gcm _ Len) as (km & -> & _). eauto.
  - destruct (key_layout_cbc _ Len) as (km & -> & _). eauto.
Qed.

(** C30. The TLCP PRF terminates on every length and is the PRF of RFC 5246 over
    HMAC-SM3 (RFC 2104), exactly [length] bytes of it, with an error above 16 KiB; the key
    block of every cipher suite is that PRF of the master secret cut into the
    documented layout, so that both ends, which pass the same randoms, hold the
    same keys; session keys exist exactly for GCM suites, their nonces the fixed
    IV padded with zeros. *)
Theorem key_derivation_correct (secret label seed master cr sr : bytes) (length : Z) (s : TlcpCipherSuite) :
  (0 <= length <= 16384 ->
     prf_expand secret label seed length = Some (Ok (prf_ref secret label seed length)) /\
     len (prf_ref secret label seed length) = length) /\
  (16384 < length -> exists m, prf_expand secret label seed length = Some (Err (HandshakeFailed m))) /\
  exists km, derive master cr sr s = Some (Ok km) /\
    if gcm s then
      client_enc_key km ++ server_enc_key km ++ client_iv km ++ server_iv km =
        prf_ref master (bytes_of "key expansion") (sr ++ cr) 40 /\
      len (client_enc_key km) = 16 /\ len (server_enc_key km) = 16 /\
      len (client_iv km) = 4 /\ len (server_iv km) = 4 /\
      to_session_keys km = Ok {| client_key := client_enc_key km; client_nonce := client_iv km ++ repeat 0 8;
                                 server_key := server_enc_key km; server_nonce := server_iv km ++ repeat 0 8 |}
    else
      client_mac_key km ++ server_mac_key km ++ client_enc_key km ++ server_enc_key km ++
        client_iv km ++ server_iv km = prf_ref master (bytes_of "key expansion") (sr ++ cr) 128 /\
      len (client_mac_key km) = 32 /\ len (server_mac_key km) = 32 /\
      len (client_enc_key km) = 16 /\ len (server_enc_key km) = 16 /\
      to_session_keys km = Err (HandshakeFailed "GCM requires 4-byte fixed IV (got 16/16)").
Proof.
  split; [|split].
  - intros B. rewrite prf_expand_ok by (unfold MAX_PRF_OUTPUT; lia).
    destruct (prf_ref_shape secret label seed length); [lia|]. auto.
  - intros B. unfold prf_expand, MAX_PRF_OUTPUT. destruct (Z.ltb_spec (16 * 1024) length); [eauto|lia].
  - destruct (derive_ok master cr sr s) as (km & D & K). exists km. split; [exact D|]. clear D.
    destruct (gcm s).
    + destruct (prf_ref_shape master (bytes_of "key expansion") (sr ++ cr) 40) as [Len _]; [lia|].
      destruct (key_layout_gcm _ Len) as (km' & K' & Cat & L1 & L2 & L3 & L4 & _).
      rewrite K in K'. apply ok_inj in K'. subst km'. repeat (split; [assumption|]).
      unfold to_session_keys. rewrite L1, L2, L3, L4. cbn [Z.eqb Pos.eqb negb orb guard].
      unfold copy_prefix. rewrite L3, L4. cbn [len List.length repeat Z.of_nat Z.leb Z.compare Pos.compare Pos.compare_cont Pos.of_succ_nat Pos.succ].
      unfold len in L3, L4. replace (List.length (client_iv km)) with 4%nat by lia.
      replace (List.length (server_iv km)) with 4%nat by lia. reflexivity.
    + destruct (prf_ref_shape master (bytes_of "key expansion") (sr ++ cr) 128) as [Len _]; [lia|].
      destruct (key_layout_cbc _ Len) as (km' & K' & Cat & L1 & L2 & L3 & L4 & L5 & L6).
      rewrite K in K'. apply ok_inj in K'. subst km'. repeat (split; [assumption|]).
      unfold to_session_keys. rewrite L3, L4, L5, L6. reflexivity.
Qed.
End KeyClaims.

Lemma key_derivation_correct_witness :
  @prf_expand toy_sm3 [1] [2] [3] 40 = Some (Ok (@prf_ref toy_sm3 [1] [2] [3] 40)) /\
  exists km, @derive toy_sm3 [1] [2] [3] ECDHE_SM4_GCM_SM3 = Some (Ok km) /\
    len (client_enc_key km) = 16.
Proof.
  destruct (@key_derivation_correct toy_sm3 toy_sm3_laws [1] [2] [3] [1] [2] [3] 40 ECDHE_SM4_GCM_SM3)
    as (A & _ & km & D & _ & L & _).
  split; [apply A; lia|]. eauto.
Defined.
