(* ===== verification/TlcpMessages.v ===== *)
(** TLCP handshake messages (gm-tlcp/src/tlcp/mod.rs framing and
    tlcp/messages/{client_hello, server_hello, cert_pair, certificate_request,
    server_hello_done}.rs): serialisation, parsing with its index arithmetic, and
    their correspondence. *)

From Stdlib Require Import String Bool ZArith Lia List.
From S2P Require Import Prelude Bytes Sm4 Tlcp TlcpKeys.
Import ListNotations.
Open Scope Z_scope.

(** ** Framing *)

(** [type(1) || length(3) || body]; the length is written by shifts of the body
    length, of which only the low 24 bits remain. *)
Definition hs_message (t : HandshakeType) (body : bytes) : bytes :=
  handshake_code t :: be_bytes 3 (len body) ++ body.

Definition parse_handshake_message (payload : bytes) : outcome TlcpError (HandshakeType * bytes * bytes) :=
  guard (len payload <? 4) (InvalidMessage "Handshake message too short")
  (b0 <- index payload 0 ;;
   msg_type <- handshake_try_from b0 ;;
   b1 <- index payload 1 ;;
   b2 <- index payload 2 ;;
   b3 <- index payload 3 ;;
   let body_len := Z.lor (Z.lor (Z.shiftl b1 16) (Z.shiftl b2 8)) b3 in
   guard (len payload <? 4 + body_len)
     (InvalidMessage ("Handshake body truncated: " +++ dec (len payload - 4) +++ " bytes available, " +++
        dec body_len +++ " needed")%string)
   (body <- slice payload 4 (4 + body_len) ;;
    remaining <- slice_from payload (4 + body_len) ;;
    Ok (msg_type, body, remaining))).

(** [u16::from_be_bytes([data[p], data[p + 1]])] *)
Definition u16_at (data : bytes) (p : Z) : outcome TlcpError Z :=
  a <- index data p ;; b <- index data (p + 1) ;; Ok (from_be [a; b]).

(** ** ClientHello *)

Record TlcpClientHello : Type := {
  ch_version : bytes;
  ch_random : bytes;
  ch_session_id : bytes;
  ch_cipher_suites : list bytes;
  ch_compression_methods : bytes
}.

Definition default_suites : list bytes :=
  [TLS_ECDHE_SM4_GCM_SM3; TLS_ECDHE_SM4_CBC_SM3; TLS_ECC_SM4_GCM_SM3; TLS_ECC_SM4_CBC_SM3].

(** The clock and the random generator are arguments: [gmt] the Unix time in
    seconds, [rnd] the 28 random bytes. *)
Definition client_hello_new (gmt : Z) (rnd : bytes) : TlcpClientHello :=
  {| ch_version := TLCP_VERSION_1_0;
     ch_random := be_bytes 4 (as_u32 gmt) ++ rnd;
     ch_session_id := [];
     ch_cipher_suites := default_suites;
     ch_compression_methods := [0x00] |}.

Definition client_hello_body (h : TlcpClientHello) : bytes :=
  ch_version h ++ ch_random h ++
  [as_u8 (len (ch_session_id h))] ++ ch_session_id h ++
  be_bytes 2 (as_u16 (len (ch_cipher_suites h) * 2)) ++ concat (ch_cipher_suites h) ++
  [as_u8 (len (ch_compression_methods h))] ++ ch_compression_methods h.

Definition client_hello_to_bytes (h : TlcpClientHello) : bytes := hs_message ClientHello (client_hello_body h).

(** [for i in (0..cs_len).step_by(2)], [n = cs_len / 2] turns *)
Fixpoint read_suites (n : nat) (data : bytes) (p : Z) : outcome TlcpError (list bytes) :=
  match n with
  | O => Ok []
  | S n =>
      a <- index data p ;;
      b <- index data (p + 1) ;;
      t <- read_suites n data (p + 2) ;;
      Ok ([a; b] :: t)
  end.

Definition client_hello_from_body (data : bytes) : outcome TlcpError TlcpClientHello :=
  guard (len data <? 36) (InvalidMessage "ClientHello too short")
  (d0 <- index data 0 ;;
   d1 <- index data 1 ;;
   let version := [d0; d1] in
   random <- slice data 2 34 ;;
   let pos := 34 in
   guard (len data <=? pos) (InvalidMessage "ClientHello truncated at session_id_len")
   (sid_len <- index data pos ;;
    let pos := pos + 1 in
    guard (MAX_SESSION_ID_LEN <? sid_len)
      (InvalidMessage ("ClientHello session_id_len " +++ dec sid_len +++ " exceeds MAX_SESSION_ID_LEN (" +++
         dec MAX_SESSION_ID_LEN +++ ")")%string)
    (guard (len data <? pos + sid_len) (InvalidMessage "ClientHello truncated at session_id")
    (session_id <- slice data pos (pos + sid_len) ;;
     let pos := pos + sid_len in
     guard (len data <? pos + 2) (InvalidMessage "ClientHello truncated at cipher_suites_len")
     (cs_len <- u16_at data pos ;;
      let pos := pos + 2 in
      guard ((len data <? pos + cs_len) || negb (cs_len mod 2 =? 0))
        (InvalidMessage "ClientHello truncated at cipher_suites")
      (cipher_suites <- read_suites (Z.to_nat (cs_len / 2)) data pos ;;
       let pos := pos + cs_len in
       guard (len data <=? pos) (InvalidMessage "ClientHello truncated at compression_len")
       (comp_len <- index data pos ;;
        let pos := pos + 1 in
        guard (len data <? pos + comp_len) (InvalidMessage "ClientHello truncated at compression")
        (compression_methods <- slice data pos (pos + comp_len) ;;
         guard (negb (forallb (fun m => m =? 0x00) compression_methods))
           (InvalidMessage "ClientHello compression_methods must be all 0x00 (TLCP only supports null)")
         (Ok {| ch_version := version; ch_random := random; ch_session_id := session_id;
                ch_cipher_suites := cipher_suites;
                ch_compression_methods := compression_methods |}))))))))).

(** ** ServerHello *)

Record TlcpServerHello : Type := {
  sh_version : bytes;
  sh_random : bytes;
  sh_session_id : bytes;
  sh_cipher_suite : bytes;
  sh_compression_method : Z
}.

Definition known_suite (id : bytes) : bool :=
  existsb (bytes_eqb id)
    [TLS_ECDHE_SM4_GCM_SM3; TLS_ECDHE_SM4_CBC_SM3; TLS_ECC_SM4_GCM_SM3; TLS_ECC_SM4_CBC_SM3;
     TLS_IBC_SM4_GCM_SM3; TLS_IBC_SM4_CBC_SM3; TLS_IBSDH_SM4_GCM_SM3; TLS_IBSDH_SM4_CBC_SM3;
     TLS_RSA_SM4_GCM_SM3; TLS_RSA_SM4_CBC_SM3; TLS_RSA_SM4_GCM_SHA256; TLS_RSA_SM4_CBC_SHA256].

Definition server_hello_from_bytes (data : bytes) : outcome TlcpError TlcpServerHello :=
  guard (len data <? 38) (InvalidMessage "ServerHello too short")
  (d0 <- index data 0 ;;
   d1 <- index data 1 ;;
   let version := [d0; d1] in
   random <- slice data 2 34 ;;
   session_id_len <- index data 34 ;;
   guard (len data <? 35 + session_id_len + 3) (InvalidMessage "ServerHello truncated")
   (session_id <- slice data 35 (35 + session_id_len) ;;
    let offset := 35 + session_id_len in
    c0 <- index data offset ;;
    c1 <- index data (offset + 1) ;;
    let cipher_suite := [c0; c1] in
    guard (negb (known_suite cipher_suite))
      (InvalidMessage ("ServerHello cipher_suite " +++ hex_pair hex02 cipher_suite +++
         " is not a known TLCP suite (gm-tlcp 0.6.0 supports all 12 GB/T 38636-2020 suites: ECDHE/ECC + IBC + IBSDH + RSA)")%string)
    (compression_method <- index data (offset + 2) ;;
     guard (negb (compression_method =? 0x00))
       (InvalidMessage ("ServerHello compression_method " +++ dec compression_method +++
          " must be 0x00 (TLCP null compression)")%string)
     (Ok {| sh_version := version; sh_random := random; sh_session_id := session_id;
            sh_cipher_suite := cipher_suite; sh_compression_method := compression_method |})))).

Definition sh_is_ecdhe (h : TlcpServerHello) : bool :=
  bytes_eqb (sh_cipher_suite h) TLS_ECDHE_SM4_GCM_SM3 || bytes_eqb (sh_cipher_suite h) TLS_ECDHE_SM4_CBC_SM3.
Definition sh_is_gcm (h : TlcpServerHello) : bool :=
  bytes_eqb (sh_cipher_suite h) TLS_ECDHE_SM4_GCM_SM3 || bytes_eqb (sh_cipher_suite h) TLS_ECC_SM4_GCM_SM3.

Definition server_hello_body (h : TlcpServerHello) : bytes :=
  sh_version h ++ sh_random h ++ [as_u8 (len (sh_session_id h))] ++ sh_session_id h ++
  sh_cipher_suite h ++ [sh_compression_method h].

Definition server_hello_to_bytes (h : TlcpServerHello) : bytes := hs_message ServerHello (server_hello_body h).

(** ** Certificates *)

Inductive CertMode : Type := Dual | Single.

Record TlcpCertPair : Type := {
  sign_cert : bytes;
  enc_cert : bytes;
  sign_chain : list bytes;
  enc_chain : list bytes;
  mode : CertMode
}.

Definition cert_pair_new (sign_cert enc_cert : bytes) : TlcpCertPair :=
  {| sign_cert := sign_cert; enc_cert := enc_cert; sign_chain := []; enc_chain := []; mode := Dual |}.
Definition cert_pair_new_single (cert : bytes) : TlcpCertPair :=
  {| sign_cert := cert; enc_cert := []; sign_chain := []; enc_chain := []; mode := Single |}.
Definition cert_pair_with_chains (sign_cert enc_cert : bytes) (sign_chain enc_chain : list bytes) : TlcpCertPair :=
  {| sign_cert := sign_cert; enc_cert := enc_cert; sign_chain := sign_chain; enc_chain := enc_chain; mode := Dual |}.

Definition is_single_cert (p : TlcpCertPair) : bool := match mode p with Single => true | Dual => false end.

Definition push_cert_entry (body cert : bytes) : bytes := body ++ be_bytes 3 (as_u32 (len cert)) ++ cert.

Definition chain_len (p : TlcpCertPair) : Z :=
  fold_right Z.add 0 (map (fun c => 3 + len c) (sign_chain p ++ enc_chain p)).

Definition certificate_body (p : TlcpCertPair) : bytes :=
  let sign_entry_len := 3 + len (sign_cert p) in
  let total_len_u32 :=
    match mode p with
    | Dual => as_u32 (sign_entry_len + 3 + len (enc_cert p) + chain_len p)
    | Single => as_u32 sign_entry_len
    end in
  let body := be_bytes 3 total_len_u32 in
  let body := push_cert_entry body (sign_cert p) in
  match mode p with
  | Dual =>
      let body := push_cert_entry body (enc_cert p) in
      let body := fold_left push_cert_entry (sign_chain p) body in
      fold_left push_cert_entry (enc_chain p) body
  | Single => body
  end.

Definition to_certificate_message (p : TlcpCertPair) : bytes := hs_message Certificate (certificate_body p).

(** The loop over the entries, leaving at the first incomplete one; [None] when
    the fuel runs out. *)
Fixpoint cert_entries (fuel : nat) (body : bytes) (p : Z) : option (outcome TlcpError (list bytes)) :=
  match fuel with
  | O => None
  | S f =>
      if len body <=? p then Some (Ok [])
      else if len body <? p + 3 then Some (Ok [])
      else
        match (b0 <- index body p ;; b1 <- index body (p + 1) ;; b2 <- index body (p + 2) ;;
               Ok (Z.lor (Z.lor (Z.shiftl b0 16) (Z.shiftl b1 8)) b2)) with
        | Ok n =>
            let p := p + 3 in
            if len body <? p + n then Some (Ok [])
            else
              match slice body p (p + n) with
              | Ok c => and_then (cert_entries f body (p + n)) (fun t => Some (Ok (c :: t)))
              | Err e => Some (Err e)
              | Panic => Some Panic
              end
        | Err e => Some (Err e)
        | Panic => Some Panic
        end
  end.

Definition from_certificate_message (body : bytes) : option (outcome TlcpError TlcpCertPair) :=
  if len body <? 3 then Some (Err (InvalidMessage "Certificate body too short"))
  else
    and_then (cert_entries (S (List.length body)) body 3) (fun certs =>
      match certs with
      | [] => Some (Err (InvalidMessage "Certificate message contains no cert entries"))
      | [sign_cert] => Some (Ok (cert_pair_new_single sign_cert))
      | sign_cert :: enc_cert :: chain => Some (Ok (cert_pair_with_chains sign_cert enc_cert chain []))
      end).

(** ** CertificateRequest and ServerHelloDone *)

Record TlcpCertificateRequest : Type := { cert_types : bytes }.

Definition certificate_request_standard : TlcpCertificateRequest := {| cert_types := [1; 64; 80] |}.

Definition certificate_request_body (r : TlcpCertificateRequest) : outcome TlcpError bytes :=
  guard ((len (cert_types r) =? 0) || (0xFF <? len (cert_types r)))
    (HandshakeFailed ("CertificateRequest.cert_types must be 1..=255 bytes, got " +++ dec (len (cert_types r)))%string)
    (Ok ([as_u8 (len (cert_types r))] ++ cert_types r ++ be_bytes 2 0)).

Definition certificate_request_to_bytes (r : TlcpCertificateRequest) : outcome TlcpError bytes :=
  body <- certificate_request_body r ;; Ok (hs_message CertificateRequest body).

Definition server_hello_done_to_bytes : bytes := [handshake_code ServerHelloDone; 0; 0; 0].

(** ** Reading at a known position *)

Lemma u16_at_ok data l1 n l2 i : data = l1 ++ be_bytes 2 n ++ l2 -> i = len l1 -> 0 <= n < 65536 ->
  u16_at data i = Ok n.
Proof.
  intros -> -> B. unfold u16_at. cbn [be_bytes app].
  rewrite index_app by reflexivity. cbn [bind].
  rewrite (index_at _ (l1 ++ [as_u8 (Z.shiftr n (8 * Z.of_nat 1))]) (as_u8 (Z.shiftr n (8 * Z.of_nat 0))) l2)
    by (rewrite <- ?app_assoc; reflexivity || len_lia).
  cbn [bind]. f_equal. exact (from_be_bytes_small 2 n B).
Qed.

Lemma be3_lor a b c : 0 <= a < 256 -> 0 <= b < 256 -> 0 <= c < 256 ->
  Z.lor (Z.lor (Z.shiftl a 16) (Z.shiftl b 8)) c = from_be [a; b; c].
Proof.
  intros A B C. rewrite (lor_shiftl_add a (Z.shiftl b 8) 16) by (rewrite ?Z.shiftl_mul_pow2; lia).
  replace (a * 2 ^ 16 + Z.shiftl b 8) with (Z.shiftl (a * 2 ^ 8 + b) 8) by (rewrite !Z.shiftl_mul_pow2; lia).
  rewrite lor_shiftl_add by lia. unfold from_be. cbn [from_be_acc]. lia.
Qed.

Lemma be3_lor_bytes n : 0 <= n < 2 ^ 24 ->
  Z.lor (Z.lor (Z.shiftl (as_u8 (Z.shiftr n 16)) 16) (Z.shiftl (as_u8 (Z.shiftr n 8)) 8)) (as_u8 (Z.shiftr n 0)) = n.
Proof. intros B. rewrite be3_lor by apply as_u8_range. exact (from_be_bytes_small 3 n B). Qed.

Lemma wf_in l x : wf_bytes l = true -> In x l -> 0 <= x < 256.
Proof. intros W I. apply is_byte_iff. now apply (proj1 (forallb_forall _ _) W). Qed.

(** Reading byte by byte: the next read of the goal succeeds within the bounds
    the guards established. *)
Ltac read_step :=
  match goal with
  | W : wf_bytes ?l = true |- context [bind (index ?l ?i) _] =>
      let x := fresh "x" in let E := fresh "E" in let I := fresh "I" in
      destruct (index_in (E:=TlcpError) l i) as (x & E & I); [lia|];
      apply (wf_in l x W) in I; rewrite E; cbn [bind]
  | |- context [bind (slice ?l ?i ?j) _] => rewrite (slice_ok l i j) by lia; cbn [bind]
  | |- context [bind (slice_from ?l ?i) _] => rewrite (slice_from_ok l i) by lia; cbn [bind]
  | |- context [guard ?b _ _] =>
      let G := fresh "G" in destruct b eqn:G; cbn [guard]; [|bool_to_prop]
  end.

(** ** Framing *)

Lemma parse_framed x a b c l : 0 <= a < 256 -> 0 <= b < 256 -> 0 <= c < 256 ->
  parse_handshake_message (x :: a :: b :: c :: l) =
  (t <- handshake_try_from x ;;
   let n := from_be [a; b; c] in
   if len l <? n
   then Err (InvalidMessage ("Handshake body truncated: " +++ dec (len l) +++ " bytes available, " +++
          dec n +++ " needed")%string)
   else Ok (t, firstn (Z.to_nat n) l, skipn (Z.to_nat n) l)).
Proof.
  intros A B C. unfold parse_handshake_message. set (p := x :: a :: b :: c :: l).
  assert (L : len p = 4 + len l) by (unfold p; len_lia). rewrite L. pose proof (len_nonneg l).
  destruct (Z.ltb_spec (4 + len l) 4); [lia|]. cbn [guard].
  replace (index p 0) with (Ok (E:=TlcpError) x) by reflexivity.
  replace (index p 1) with (Ok (E:=TlcpError) a) by reflexivity.
  replace (index p 2) with (Ok (E:=TlcpError) b) by reflexivity.
  replace (index p 3) with (Ok (E:=TlcpError) c) by reflexivity. cbn [bind].
  destruct (handshake_try_from x); cbn [bind]; [|reflexivity..]. rewrite be3_lor by assumption.
  assert (0 <= from_be [a; b; c]) by (unfold from_be; cbn [from_be_acc]; lia).
  set (n := from_be [a; b; c]) in *. cbv zeta.
  destruct (Z.ltb_spec (len l) n), (Z.ltb_spec (4 + len l) (4 + n)); try lia; cbn [guard].
  - now replace (4 + len l - 4) with (len l) by lia.
  - rewrite slice_ok, slice_from_ok by lia. cbn [bind].
    replace (Z.to_nat (4 + n - 4)) with (Z.to_nat n) by lia.
    replace (Z.to_nat (4 + n)) with (4 + Z.to_nat n)%nat by lia. reflexivity.
Qed.

Lemma parse_short p : len p < 4 -> parse_handshake_message p = Err (InvalidMessage "Handshake message too short").
Proof. intros B. unfold parse_handshake_message. now rewrite (proj2 (Z.ltb_lt _ _) B). Qed.

Lemma handshake_try_no_panic x : no_panic (handshake_try_from x).
Proof. unfold no_panic, handshake_try_from. repeat (case_cmp; [discriminate|]). discriminate. Qed.

Lemma wf3 a b c : 0 <= a < 256 -> 0 <= b < 256 -> 0 <= c < 256 -> wf_bytes [a; b; c] = true.
Proof. intros. cbn. now rewrite !(proj2 (is_byte_iff _)) by assumption. Qed.

Lemma parse_message t body rest : len body < 2 ^ 24 ->
  parse_handshake_message (hs_message t body ++ rest) = Ok (t, body, rest).
Proof.
  intros B. pose proof (len_nonneg body).
  unfold hs_message. cbn [be_bytes app]. rewrite parse_framed by apply as_u8_range.
  rewrite handshake_code_try. cbn [bind].
  assert (E : from_be [as_u8 (Z.shiftr (len body) (8 * Z.of_nat 2)); as_u8 (Z.shiftr (len body) (8 * Z.of_nat 1));
    as_u8 (Z.shiftr (len body) (8 * Z.of_nat 0))] = len body) by exact (from_be_bytes_small 3 (len body) (conj H B)).
  rewrite E. cbv zeta. destruct (Z.ltb_spec (len (body ++ rest)) (len body)); [exfalso; len_lia|].
  rewrite to_nat_len, firstn_app, skipn_app, firstn_all, skipn_all, Nat.sub_diag, firstn_O, app_nil_r. reflexivity.
Qed.

(** Handshake framing round-trips: a message followed by anything parses to
    its type, its body and the rest, for every body below 2^24 bytes; on
    arbitrary bytes the parser never panics, and what it accepts is a framed
    message followed by the rest. *)
Theorem tlcp_framing_roundtrip (t : HandshakeType) (body rest payload : bytes) :
  len body < 2 ^ 24 -> wf_bytes payload = true ->
  parse_handshake_message (hs_message t body ++ rest) = Ok (t, body, rest) /\
  no_panic (parse_handshake_message payload) /\
  (forall t' b r, parse_handshake_message payload = Ok (t', b, r) -> payload = hs_message t' b ++ r).
Proof.
  intros B W. split; [|split].
  - now apply parse_message.
  - destruct payload as [|x [|a [|b [|c l]]]]; try (rewrite parse_short by (cbn; lia); discriminate).
    cbn in W. bool_to_prop. rewrite parse_framed by now apply is_byte_iff.
    pose proof (handshake_try_no_panic x). destruct (handshake_try_from x); cbn [bind]; [|discriminate|contradiction].
    now destruct (_ <? _).
  - intros t' b' r'. destruct payload as [|x [|a [|b [|c l]]]]; try (rewrite parse_short by (cbn; lia); discriminate).
    cbn in W. bool_to_prop. assert (A : 0 <= a < 256) by now apply is_byte_iff.
    assert (B' : 0 <= b < 256) by now apply is_byte_iff. assert (C : 0 <= c < 256) by now apply is_byte_iff.
    rewrite parse_framed by assumption.
    destruct (handshake_try_from x) as [t0| |] eqn:T; cbn [bind]; try discriminate.
    pose proof (from_be_bound [a; b; c] (wf3 a b c A B' C)) as Bd. cbv zeta.
    destruct (Z.ltb_spec (len l) (from_be [a; b; c])); [discriminate|]. intros E%ok_inj. injection E as <- <- <-.
    unfold hs_message. rewrite len_firstn by lia. rewrite (handshake_try_code _ _ T).
    replace (be_bytes 3 (from_be [a; b; c])) with [a; b; c]
      by (symmetry; exact (be_bytes_from_be [a; b; c] (wf3 a b c A B' C))).
    cbn [app]. now rewrite firstn_skipn.
Qed.

Lemma tlcp_framing_roundtrip_witness :
  parse_handshake_message (hs_message Finished [1; 2; 3] ++ [9]) = Ok (Finished, [1; 2; 3], [9]).
Proof. apply (tlcp_framing_roundtrip Finished [1; 2; 3] [9] [0]); reflexivity. Defined.

(** ** Cursors: [r] is what is left of [l] at position [i] *)

Definition cursor (l : bytes) (i : Z) (r : bytes) : Prop := exists pre, l = pre ++ r /\ len pre = i.

Lemma cursor_start l : cursor l 0 l.
Proof. now exists []. Qed.

Lemma cursor_len l i r : cursor l i r -> len l = i + len r /\ 0 <= i.
Proof. intros (pre & -> & <-). rewrite len_app. split; [reflexivity|apply len_nonneg]. Qed.

Lemma cursor_app l i s t : cursor l i (s ++ t) -> cursor l (i + len s) t.
Proof. intros (pre & -> & <-). exists (pre ++ s). now rewrite app_assoc, len_app. Qed.

Lemma cursor_cons l i x t : cursor l i (x :: t) -> cursor l (i + 1) t.
Proof. intros C. now apply (cursor_app l i [x] t). Qed.

Lemma cursor_index {E} l i x t : cursor l i (x :: t) -> index (E:=E) l i = Ok x.
Proof. intros (pre & -> & <-). now apply index_app. Qed.

Lemma cursor_slice {E} l i j s t : cursor l i (s ++ t) -> j = i + len s -> slice (E:=E) l i j = Ok s.
Proof. intros (pre & -> & <-) ->. now apply slice_app. Qed.

Lemma cursor_u16 l i n t : cursor l i (be_bytes 2 n ++ t) -> 0 <= n < 65536 -> u16_at l i = Ok n.
Proof. intros (pre & -> & <-) B. eapply u16_at_ok; [reflexivity..|assumption]. Qed.

Lemma index_cursor {E} l i r x : cursor l i r -> index (E:=E) l i = Ok x ->
  exists t, r = x :: t /\ cursor l (i + 1) t.
Proof.
  intros (pre & -> & <-) H. destruct r as [|y t].
  - exfalso. unfold index in H. pose proof (len_nonneg pre). destruct (Z.ltb_spec (len pre) 0); [lia|].
    rewrite app_nil_r, to_nat_len in H. rewrite (proj2 (nth_error_None pre _)) in H by lia. discriminate.
  - rewrite index_app in H by reflexivity. injection H as <-. exists t. split; [reflexivity|].
    apply cursor_cons with y. now exists pre.
Qed.

Lemma slice_cursor {E} l i j r s : cursor l i r -> slice (E:=E) l i j = Ok s ->
  j = i + len s /\ exists t, r = s ++ t /\ cursor l j t.
Proof.
  intros (pre & -> & <-) H. unfold slice in H. destruct (_ && _) eqn:G; [|discriminate]. bool_to_prop.
  injection H as <-. rewrite len_app in *. rewrite to_nat_len, skipn_app, skipn_all, Nat.sub_diag, skipn_O. cbn [app].
  rewrite len_firstn by lia. split; [lia|]. exists (skipn (Z.to_nat (j - len pre)) r).
  split; [symmetry; apply firstn_skipn|]. exists (pre ++ firstn (Z.to_nat (j - len pre)) r).
  rewrite <- app_assoc, firstn_skipn, len_app, len_firstn by lia. split; [reflexivity|lia].
Qed.

Lemma u16_cursor l i r n : wf_bytes l = true -> cursor l i r -> u16_at l i = Ok n ->
  0 <= n < 65536 /\ exists t, r = be_bytes 2 n ++ t /\ cursor l (i + 2) t.
Proof.
  intros W C. unfold u16_at. destruct (index l i) as [a| |] eqn:A; try discriminate. cbn [bind].
  destruct (index_cursor l i r a C A) as (t1 & -> & C1).
  destruct (index l (i + 1)) as [b| |] eqn:B; try discriminate. cbn [bind]. intros E%ok_inj. subst n.
  destruct (index_cursor l (i + 1) t1 b C1 B) as (t & -> & C2).
  assert (Wab : wf_bytes [a; b] = true).
  { destruct C as (pre & -> & _). rewrite wf_bytes_app in W. apply andb_true_iff in W as [_ W].
    cbn in *. bool_to_prop. now rewrite H, H0. }
  split; [exact (from_be_bound [a; b] Wab)|]. exists t.
  replace (be_bytes 2 (from_be [a; b])) with [a; b] by (symmetry; exact (be_bytes_from_be [a; b] Wab)).
  split; [reflexivity|]. replace (i + 2) with (i + 1 + 1) by lia. assumption.
Qed.

Lemma read_suites_ok ss l i t : cursor l i (concat ss ++ t) -> Forall (fun s => len s = 2) ss ->
  read_suites (List.length ss) l i = Ok ss /\ cursor l (i + 2 * len ss) t.
Proof.
  intros C F. revert i C. induction F as [|s ss L F IH]; intros i C; cbn [concat List.length read_suites app] in *.
  - split; [reflexivity|]. now replace (i + 2 * len (@nil bytes)) with i by (cbn; lia).
  - destruct s as [|a [|b [|? ?]]]; try (exfalso; len_lia). cbn [app] in C.
    rewrite (cursor_index l i a _ C). apply cursor_cons in C. cbn [bind].
    rewrite (cursor_index l (i + 1) b _ C). apply cursor_cons in C. cbn [bind].
    replace (i + 1 + 1) with (i + 2) in C by lia. destruct (IH _ C) as [-> C']. cbn [bind].
    split; [reflexivity|]. now replace (i + 2 * len ([a; b] :: ss)) with (i + 2 + 2 * len ss) by len_lia.
Qed.

Lemma read_suites_cursor n l i r ss : cursor l i r -> read_suites n l i = Ok ss ->
  List.length ss = n /\ Forall (fun s => len s = 2) ss /\ exists t, r = concat ss ++ t /\ cursor l (i + 2 * Z.of_nat n) t.
Proof.
  revert i r ss. induction n as [|n IH]; intros i r ss C; cbn [read_suites].
  - intros [= <-]. split; [reflexivity|]. split; [constructor|]. exists r. rewrite Z.add_0_r. auto.
  - destruct (index l i) as [a| |] eqn:A; try discriminate. cbn [bind].
    destruct (index_cursor l i r a C A) as (t1 & -> & C1).
    destruct (index l (i + 1)) as [b| |] eqn:B; try discriminate. cbn [bind].
    destruct (index_cursor l (i + 1) t1 b C1 B) as (t2 & -> & C2).
    replace (i + 1 + 1) with (i + 2) in C2 by lia.
    destruct (read_suites n l (i + 2)) as [ss'| |] eqn:R; try discriminate. cbn [bind]. intros [= <-].
    destruct (IH _ _ _ C2 R) as (L & F & t & -> & C3). split; [cbn; lia|]. split; [constructor; auto|].
    exists t. split; [reflexivity|]. now replace (i + 2 * Z.of_nat (S n)) with (i + 2 + 2 * Z.of_nat n) by lia.
Qed.

Lemma read_suites_no_panic n l i : 0 <= i -> i + 2 * Z.of_nat n <= len l -> no_panic (read_suites n l i).
Proof.
  unfold no_panic. revert i. induction n as [|n IH]; intros i B Le; cbn [read_suites]; [discriminate|].
  destruct (index_in (E:=TlcpError) l i) as (a & -> & _); [lia|]. cbn [bind].
  destruct (index_in (E:=TlcpError) l (i + 1)) as (b & -> & _); [lia|]. cbn [bind].
  specialize (IH (i + 2) ltac:(lia) ltac:(lia)). destruct (read_suites n l (i + 2)); cbn [bind]; congruence.
Qed.

(** Guards that fail to fire, and reads in the order of the code. *)
Ltac pass_guard := match goal with
  | |- context [guard ?b _ _] => replace b with false; [cbn [guard]|symmetry]
  end.

(** ** Hellos *)

Definition client_hello_wf (h : TlcpClientHello) : bool :=
  (len (ch_version h) =? 2) && (len (ch_random h) =? 32) && (len (ch_session_id h) <=? 32) &&
  forallb (fun s => len s =? 2) (ch_cipher_suites h) && (len (ch_cipher_suites h) <? 32768) &&
  forallb (fun m => m =? 0) (ch_compression_methods h) && (len (ch_compression_methods h) <? 256).

Definition server_hello_wf (h : TlcpServerHello) : bool :=
  (len (sh_version h) =? 2) && (len (sh_random h) =? 32) && (len (sh_session_id h) <? 256) &&
  known_suite (sh_cipher_suite h) && (sh_compression_method h =? 0).

Lemma len_pair (v : bytes) : len v = 2 -> exists a b, v = [a; b].
Proof. destruct v as [|a [|b [|? ?]]]; intros L; [exfalso; len_lia..|eauto|exfalso; len_lia]. Qed.

Lemma client_hello_parse h t : client_hello_wf h = true ->
  client_hello_from_body (client_hello_body h ++ t) = Ok h.
Proof.
  unfold client_hello_wf. intros W. destruct h as [v r sid cs cm].
  cbn [ch_version ch_random ch_session_id ch_cipher_suites ch_compression_methods] in W.
  rewrite !andb_true_iff in W. destruct W as ((((((Hv & Hr) & Hs) & Hc) & Hn) & Hcm) & Hm). bool_to_prop.
  destruct (len_pair v) as (v0 & v1 & ->); [assumption|].
  assert (F : Forall (fun s => len s = 2) cs).
  { apply Forall_forall. intros s I. apply Z.eqb_eq. now apply (proj1 (forallb_forall _ _) Hc). }
  pose proof (len_nonneg sid); pose proof (len_nonneg cs); pose proof (len_nonneg cm); pose proof (len_nonneg t).
  set (data := client_hello_body _ ++ t).
  assert (C : cursor data 0 (v0 :: v1 :: r ++ as_u8 (len sid) :: sid ++ be_bytes 2 (as_u16 (len cs * 2)) ++
    concat cs ++ as_u8 (len cm) :: cm ++ t)).
  { unfold data, client_hello_body. cbn [ch_version ch_random ch_session_id ch_cipher_suites ch_compression_methods].
    rewrite <- !app_assoc. apply cursor_start. }
  rewrite as_u8_small, as_u8_small in C by lia. unfold as_u16 in C. rewrite Z.mod_small in C by lia.
  destruct (cursor_len _ _ _ C) as [Ld _]. rewrite !len_cons, !len_app, !len_cons, !len_app, len_be_bytes in Ld.
  assert (Lcs : len (concat cs) = 2 * len cs).
  { clear - F. induction F as [|s l Ls F IH]; [reflexivity|]. cbn [concat]. rewrite len_app, len_cons, Ls, IH. lia. }
  rewrite Lcs, !len_cons, !len_app in Ld.
  unfold client_hello_from_body. pass_guard; [|lia].
  rewrite (cursor_index data 0 _ _ C); apply cursor_cons in C; cbn [bind].
  rewrite (cursor_index data 1 _ _ C); apply cursor_cons in C; cbn [bind].
  rewrite (cursor_slice data 2 34 _ _ C) by lia. apply cursor_app in C. cbn [bind].
  rewrite Hr in C. change (0 + 1 + 1 + 32) with 34 in C.
  pass_guard; [|lia]. rewrite (cursor_index _ _ _ _ C); apply cursor_cons in C; cbn [bind].
  unfold MAX_SESSION_ID_LEN. pass_guard; [|lia]. pass_guard; [|lia].
  rewrite (cursor_slice data _ _ _ _ C) by reflexivity. apply cursor_app in C. cbn [bind]. pass_guard; [|lia].
  rewrite (cursor_u16 _ _ _ _ C) by lia. apply cursor_app in C. rewrite len_be_bytes in C. change (Z.of_nat 2) with 2 in C. cbn [bind].
  pass_guard; [|rewrite Z.mod_mul by lia; cbn [Z.eqb negb]; rewrite orb_false_r; lia].
  rewrite Z.div_mul, to_nat_len by lia.
  destruct (read_suites_ok cs data _ _ C F) as [-> C']. cbn [bind].
  replace (34 + 1 + len sid + 2 + len cs * 2) with (34 + 1 + len sid + 2 + 2 * len cs) by lia.
  pass_guard; [|lia]. rewrite (cursor_index _ _ _ _ C'); apply cursor_cons in C'; cbn [bind].
  pass_guard; [|lia]. rewrite (cursor_slice data _ _ _ _ C') by reflexivity. cbn [bind].
  pass_guard; [reflexivity|]. now rewrite Hcm.
Qed.

Lemma client_hello_sound d h : wf_bytes d = true -> client_hello_from_body d = Ok h ->
  client_hello_wf h = true /\ exists t, d = client_hello_body h ++ t.
Proof.
  intros W. unfold client_hello_from_body, MAX_SESSION_ID_LEN.
  destruct (Z.ltb_spec (len d) 36); cbn [guard]; [discriminate|].
  destruct (index d 0) as [v0| |] eqn:E0; cbn [bind]; try discriminate.
  destruct (index_cursor d 0 d v0 (cursor_start d) E0) as (r0 & R0 & C0).
  destruct (index d 1) as [v1| |] eqn:E1; cbn [bind]; try discriminate.
  destruct (index_cursor d 1 r0 v1 C0 E1) as (r1 & -> & C1).
  destruct (slice d 2 34) as [rnd| |] eqn:E2; cbn [bind]; try discriminate.
  destruct (slice_cursor d 2 34 r1 rnd C1 E2) as (L2 & r2 & -> & C2).
  destruct (Z.leb_spec (len d) 34); cbn [guard]; [discriminate|].
  destruct (index d 34) as [n| |] eqn:E3; cbn [bind]; try discriminate.
  destruct (index_cursor d 34 r2 n C2 E3) as (r3 & -> & C3).
  destruct (Z.ltb_spec 32 n); cbn [guard]; [discriminate|].
  destruct (Z.ltb_spec (len d) (34 + 1 + n)); cbn [guard]; [discriminate|].
  destruct (slice d (34 + 1) (34 + 1 + n)) as [sid| |] eqn:E4; cbn [bind]; try discriminate.
  destruct (slice_cursor d _ _ r3 sid C3 E4) as (L4 & r4 & -> & C4).
  destruct (Z.ltb_spec (len d) (34 + 1 + n + 2)); cbn [guard]; [discriminate|].
  destruct (u16_at d (34 + 1 + n)) as [cl| |] eqn:E5; cbn [bind]; try discriminate.
  destruct (u16_cursor d _ r4 cl W C4 E5) as (Bc & r5 & -> & C5).
  destruct (Z.ltb_spec (len d) (34 + 1 + n + 2 + cl)); cbn [guard orb]; [discriminate|].
  destruct (Z.eqb_spec (cl mod 2) 0); cbn [guard negb]; [|discriminate].
  destruct (read_suites _ d _) as [ss| |] eqn:E6; cbn [bind]; try discriminate.
  destruct (read_suites_cursor _ d _ r5 ss C5 E6) as (L6 & F & r6 & -> & C6).
  assert (Cl : 2 * (cl / 2) = cl) by (pose proof (Z.div_mod cl 2); lia).
  assert (C6' : cursor d (34 + 1 + n + 2 + cl) r6) by (rewrite Z2Nat.id, Cl in C6 by lia; exact C6).
  destruct (Z.leb_spec (len d) (34 + 1 + n + 2 + cl)); cbn [guard]; [discriminate|].
  destruct (index d (34 + 1 + n + 2 + cl)) as [m| |] eqn:E7; cbn [bind]; try discriminate.
  destruct (index_cursor d _ r6 m C6' E7) as (r7 & -> & C7).
  destruct (Z.ltb_spec (len d) (34 + 1 + n + 2 + cl + 1 + m)); cbn [guard]; [discriminate|].
  destruct (slice d (34 + 1 + n + 2 + cl + 1) (34 + 1 + n + 2 + cl + 1 + m)) as [cm| |] eqn:E8; cbn [bind]; try discriminate.
  destruct (slice_cursor d _ _ r7 cm C7 E8) as (L8 & r8 & -> & C8).
  destruct (forallb _ cm) eqn:Fc; cbn [guard negb]; [|discriminate]. intros [= <-].
  assert (Bytes : 0 <= n < 256 /\ 0 <= m < 256) by
    (split; [apply (wf_in d n W)|apply (wf_in d m W)];
     [destruct C2 as (p & -> & _)|destruct C6' as (p & -> & _)]; apply in_app_iff; right; left; reflexivity).
  assert (Ls : len ss = cl / 2) by (unfold len; lia).
  split.
  - unfold client_hello_wf. cbn [ch_version ch_random ch_session_id ch_cipher_suites ch_compression_methods].
    rewrite !andb_true_iff, !Z.eqb_eq, !Z.leb_le, !Z.ltb_lt. repeat split; try lia; try assumption; try reflexivity.
    apply forallb_forall. intros s I. apply Z.eqb_eq. now apply (proj1 (Forall_forall _ _) F).
  - exists r8. unfold client_hello_body. cbn [ch_version ch_random ch_session_id ch_cipher_suites ch_compression_methods].
    replace (len sid) with n by lia. replace (len cm) with m by lia. rewrite !as_u8_small by lia.
    unfold as_u16. rewrite Z.mod_small by lia. replace (len ss * 2) with cl by lia.
    rewrite R0 at 1. cbn [app]. rewrite <- !app_assoc. cbn [app]. rewrite <- !app_assoc. reflexivity.
Qed.

Lemma u16_in data i : wf_bytes data = true -> 0 <= i -> i + 2 <= len data ->
  exists n, u16_at data i = Ok n /\ 0 <= n < 65536.
Proof.
  intros W B Le. unfold u16_at. do 2 read_step. eexists. split; [reflexivity|].
  apply (from_be_bound [x; x0]). cbn. now rewrite !(proj2 (is_byte_iff _)) by assumption.
Qed.

Lemma client_hello_no_panic d : wf_bytes d = true -> no_panic (client_hello_from_body d).
Proof.
  intros W. unfold no_panic, client_hello_from_body, MAX_SESSION_ID_LEN.
  repeat (read_step; try discriminate).
  destruct (u16_in d (34 + 1 + x1)) as (cl & -> & Bc); [assumption|lia..|]. cbn [bind].
  read_step; [discriminate|].
  assert (Cl : 2 * (cl / 2) = cl) by (pose proof (Z.div_mod cl 2); lia).
  assert (N : no_panic (read_suites (Z.to_nat (cl / 2)) d (34 + 1 + x1 + 2)))
    by (apply read_suites_no_panic; rewrite ?Z2Nat.id by lia; lia).
  destruct (read_suites _ d _); cbn [bind]; [|discriminate|contradiction].
  repeat (read_step; try discriminate).
Qed.

Lemma server_hello_parse h t : server_hello_wf h = true ->
  server_hello_from_bytes (server_hello_body h ++ t) = Ok h.
Proof.
  unfold server_hello_wf. intros W. destruct h as [v r sid cs cm].
  cbn [sh_version sh_random sh_session_id sh_cipher_suite sh_compression_method] in W.
  rewrite !andb_true_iff in W. destruct W as ((((Hv & Hr) & Hs) & Hk) & Hm). bool_to_prop. subst cm.
  destruct (len_pair v) as (v0 & v1 & ->); [assumption|].
  assert (Lc : len cs = 2).
  { apply existsb_exists in Hk as (x & I & E%bytes_eqb_eq). subst x. repeat (destruct I as [<-|I]; [reflexivity|]). destruct I. }
  destruct (len_pair cs Lc) as (c0 & c1 & ->). pose proof (len_nonneg sid); pose proof (len_nonneg t).
  set (data := server_hello_body _ ++ t).
  assert (C : cursor data 0 (v0 :: v1 :: r ++ as_u8 (len sid) :: sid ++ c0 :: c1 :: 0 :: t)).
  { unfold data, server_hello_body. cbn [sh_version sh_random sh_session_id sh_cipher_suite sh_compression_method].
    rewrite <- !app_assoc. apply cursor_start. }
  rewrite as_u8_small in C by lia.
  destruct (cursor_len _ _ _ C) as [Ld _]. rewrite !len_cons, len_app, len_cons, len_app, !len_cons in Ld.
  unfold server_hello_from_bytes. pass_guard; [|lia].
  rewrite (cursor_index data 0 _ _ C); apply cursor_cons in C; cbn [bind].
  rewrite (cursor_index data 1 _ _ C); apply cursor_cons in C; cbn [bind].
  rewrite (cursor_slice data 2 34 _ _ C) by lia. apply cursor_app in C. cbn [bind].
  rewrite Hr in C. change (0 + 1 + 1 + 32) with 34 in C.
  rewrite (cursor_index data 34 _ _ C); apply cursor_cons in C; cbn [bind].
  pass_guard; [|lia]. change (34 + 1) with 35 in C.
  rewrite (cursor_slice data 35 _ _ _ C) by reflexivity. apply cursor_app in C. cbn [bind].
  rewrite (cursor_index data _ _ _ C); apply cursor_cons in C; cbn [bind].
  rewrite (cursor_index data _ _ _ C); apply cursor_cons in C; cbn [bind].
  pass_guard; [|now rewrite Hk]. replace (35 + len sid + 2) with (35 + len sid + 1 + 1) by lia.
  rewrite (cursor_index data _ _ _ C). reflexivity.
Qed.

Lemma server_hello_sound d h : wf_bytes d = true -> server_hello_from_bytes d = Ok h ->
  server_hello_wf h = true /\ exists t, d = server_hello_body h ++ t.
Proof.
  intros W. unfold server_hello_from_bytes.
  destruct (Z.ltb_spec (len d) 38); cbn [guard]; [discriminate|].
  destruct (index d 0) as [v0| |] eqn:E0; cbn [bind]; try discriminate.
  destruct (index_cursor d 0 d v0 (cursor_start d) E0) as (r0 & R0 & C0).
  destruct (index d 1) as [v1| |] eqn:E1; cbn [bind]; try discriminate.
  destruct (index_cursor d 1 r0 v1 C0 E1) as (r1 & -> & C1).
  destruct (slice d 2 34) as [rnd| |] eqn:E2; cbn [bind]; try discriminate.
  destruct (slice_cursor d 2 34 r1 rnd C1 E2) as (L2 & r2 & -> & C2).
  destruct (index d 34) as [n| |] eqn:E3; cbn [bind]; try discriminate.
  destruct (index_cursor d 34 r2 n C2 E3) as (r3 & -> & C3).
  destruct (Z.ltb_spec (len d) (35 + n + 3)); cbn [guard]; [discriminate|].
  destruct (slice d 35 (35 + n)) as [sid| |] eqn:E4; cbn [bind]; try discriminate.
  destruct (slice_cursor d 35 _ r3 sid C3 E4) as (L4 & r4 & -> & C4).
  destruct (index d (35 + n)) as [c0| |] eqn:E5; cbn [bind]; try discriminate.
  destruct (index_cursor d _ r4 c0 C4 E5) as (r5 & -> & C5).
  destruct (index d (35 + n + 1)) as [c1| |] eqn:E6; cbn [bind]; try discriminate.
  destruct (index_cursor d _ r5 c1 C5 E6) as (r6 & -> & C6).
  destruct (known_suite [c0; c1]) eqn:K; cbn [guard negb]; [|discriminate].
  destruct (index d (35 + n + 2)) as [cm| |] eqn:E7; cbn [bind]; try discriminate.
  replace (35 + n + 1 + 1) with (35 + n + 2) in C6 by lia.
  destruct (index_cursor d _ r6 cm C6 E7) as (r7 & -> & C7).
  destruct (Z.eqb_spec cm 0) as [->|]; cbn [guard negb]; [|discriminate]. intros [= <-].
  assert (0 <= n < 256) by (apply (wf_in d n W); destruct C2 as (p & -> & _); apply in_app_iff; right; left; reflexivity).
  split.
  - unfold server_hello_wf. cbn [sh_version sh_random sh_session_id sh_cipher_suite sh_compression_method].
    rewrite !andb_true_iff, !Z.eqb_eq, Z.ltb_lt. repeat split; try lia; assumption.
  - exists r7. unfold server_hello_body. cbn [sh_version sh_random sh_session_id sh_cipher_suite sh_compression_method].
    replace (len sid) with n by lia. rewrite as_u8_small by lia.
    rewrite R0 at 1. cbn [app]. rewrite <- !app_assoc. cbn [app]. rewrite <- !app_assoc. reflexivity.
Qed.

Lemma server_hello_no_panic d : wf_bytes d = true -> no_panic (server_hello_from_bytes d).
Proof.
  intros W. unfold no_panic, server_hello_from_bytes. repeat (read_step; try discriminate).
Qed.

(** The hello parsers invert the serialisers and accept nothing else: a
    well-formed hello, followed by any bytes, parses to itself; on arbitrary
    bytes the parsers never panic, and a hello they return is well-formed and is
    what the bytes start with. *)
Theorem tlcp_hellos_exact (ch : TlcpClientHello) (sh : TlcpServerHello) (d t : bytes) :
  client_hello_wf ch = true -> server_hello_wf sh = true -> wf_bytes d = true ->
  client_hello_from_body (client_hello_body ch ++ t) = Ok ch /\
  server_hello_from_bytes (server_hello_body sh ++ t) = Ok sh /\
  no_panic (client_hello_from_body d) /\ no_panic (server_hello_from_bytes d) /\
  (forall h, client_hello_from_body d = Ok h -> client_hello_wf h = true /\ exists t, d = client_hello_body h ++ t) /\
  (forall h, server_hello_from_bytes d = Ok h -> server_hello_wf h = true /\ exists t, d = server_hello_body h ++ t).
Proof.
  intros Wc Ws Wd. split; [now apply client_hello_parse|]. split; [now apply server_hello_parse|].
  split; [now apply client_hello_no_panic|]. split; [now apply server_hello_no_panic|].
  split; intros h; [now apply client_hello_sound|now apply server_hello_sound].
Qed.

Lemma tlcp_hellos_exact_witness :
  client_hello_from_body (client_hello_body (client_hello_new 7 (repeat 5 28)) ++ [1]) =
    Ok (client_hello_new 7 (repeat 5 28)).
Proof.
  apply (tlcp_hellos_exact (client_hello_new 7 (repeat 5 28))
    {| sh_version := [1; 1]; sh_random := repeat 0 32; sh_session_id := []; sh_cipher_suite := TLS_ECC_SM4_GCM_SM3;
       sh_compression_method := 0 |} [0] [1]); reflexivity.
Defined.

(** ** Certificates *)

Definition certs_of (p : TlcpCertPair) : list bytes :=
  match mode p with
  | Single => [sign_cert p]
  | Dual => sign_cert p :: enc_cert p :: sign_chain p ++ enc_chain p
  end.

Definition entry (c : bytes) : bytes := be_bytes 3 (len c) ++ c.
Definition entries (cs : list bytes) : bytes := concat (map entry cs).

(** What a receiver keeps of a pair: the intermediate certificates in one pool. *)
Definition received (p : TlcpCertPair) : TlcpCertPair :=
  match mode p with
  | Single => cert_pair_new_single (sign_cert p)
  | Dual => cert_pair_with_chains (sign_cert p) (enc_cert p) (sign_chain p ++ enc_chain p) []
  end.

Lemma be3_u32 x : be_bytes 3 (as_u32 x) = be_bytes 3 x.
Proof.
  rewrite <- (be_bytes_mod 3 (as_u32 x)), <- (be_bytes_mod 3 x). f_equal. unfold as_u32.
  change (256 ^ Z.of_nat 3) with (2 ^ 24). replace (2 ^ 32) with (2 ^ 24 * 2 ^ 8) by reflexivity.
  rewrite Z.rem_mul_r by lia. rewrite (Z.mul_comm (2 ^ 24)), Z.mod_add by lia. apply Z.mod_mod. lia.
Qed.

Lemma push_entries cs body : fold_left push_cert_entry cs body = body ++ entries cs.
Proof.
  revert body. induction cs as [|c cs IH]; intros body; cbn [fold_left entries map concat].
  - now rewrite app_nil_r.
  - rewrite IH. unfold push_cert_entry, entry. rewrite be3_u32, <- !app_assoc. reflexivity.
Qed.

Lemma len_entries cs : len (entries cs) = fold_right Z.add 0 (map (fun c => 3 + len c) cs).
Proof.
  induction cs as [|c cs IH]; [reflexivity|]. unfold entries in *. cbn [map concat fold_right].
  rewrite len_app, IH. unfold entry. rewrite len_app, len_be_bytes. lia.
Qed.

Lemma certificate_body_entries p : certificate_body p = be_bytes 3 (len (entries (certs_of p))) ++ entries (certs_of p).
Proof.
  unfold certificate_body, certs_of, chain_len. destruct p as [s e sc ec []]; cbn [mode sign_cert enc_cert sign_chain enc_chain].
  - rewrite !push_entries. unfold push_cert_entry. rewrite !be3_u32, len_entries. cbn [map fold_right].
    rewrite Z.add_assoc. replace (3 + len s + 3 + len e) with (3 + len s + (3 + len e)) by lia.
    rewrite <- !Z.add_assoc. unfold entries. cbn [map concat]. rewrite !map_app, concat_app. unfold entry. now rewrite <- !app_assoc.
  - unfold push_cert_entry. rewrite !be3_u32, len_entries. cbn [map fold_right]. rewrite Z.add_0_r.
    unfold entries, entry. cbn [map concat]. now rewrite app_nil_r.
Qed.

(** One entry under the cursor, and the loop that reads the rest. *)
Lemma cert_entries_step f body p c t : 0 <= p -> len c < 2 ^ 24 -> cursor body p (entry c ++ t) ->
  cert_entries (S f) body p =
    and_then (cert_entries f body (p + 3 + len c)) (fun t => Some (Ok (c :: t))) /\
  cursor body (p + 3 + len c) t.
Proof.
  intros P B C. destruct (cursor_len _ _ _ C) as [L _]. pose proof (len_nonneg c); pose proof (len_nonneg t).
  unfold entry in C, L. rewrite <- app_assoc in C. rewrite !len_app, len_be_bytes in L. cbn [cert_entries].
  destruct (Z.leb_spec (len body) p); [lia|]. destruct (Z.ltb_spec (len body) (p + 3)); [lia|].
  cbn [be_bytes app] in C.
  rewrite (cursor_index _ _ _ _ C); apply cursor_cons in C; cbn [bind].
  rewrite (cursor_index _ _ _ _ C); apply cursor_cons in C; cbn [bind].
  replace (p + 2) with (p + 1 + 1) by lia.
  rewrite (cursor_index _ _ _ _ C); apply cursor_cons in C; cbn [bind].
  change (8 * Z.of_nat 2) with 16. change (8 * Z.of_nat 1) with 8. change (8 * Z.of_nat 0) with 0.
  rewrite be3_lor_bytes by lia. replace (p + 1 + 1 + 1) with (p + 3) in C by lia. cbv zeta.
  destruct (Z.ltb_spec (len body) (p + 3 + len c)); [lia|].
  rewrite (cursor_slice _ _ _ _ _ C) by reflexivity. apply cursor_app in C. split; [reflexivity|exact C].
Qed.

Lemma cert_entries_ok cs body p f : 0 <= p -> (List.length cs < f)%nat -> Forall (fun c => len c < 2 ^ 24) cs ->
  cursor body p (entries cs) -> cert_entries f body p = Some (Ok cs).
Proof.
  intros P Lf F. revert p f P Lf. induction F as [|c cs B F IH]; intros p [|f] P Lf C; cbn [List.length] in Lf; try lia.
  - destruct (cursor_len _ _ _ C) as [L _]. cbn in L. cbn [cert_entries].
    destruct (Z.leb_spec (len body) p); [reflexivity|lia].
  - destruct (cert_entries_step f body p c (entries cs) P B C) as [-> C'].
    pose proof (len_nonneg c). rewrite (IH _ f) by (lia || exact C'). reflexivity.
Qed.

(** The loop ends on every byte string, without a panic, and what it returns is
    what the string starts with. *)
Lemma cert_entries_total f body p r : wf_bytes body = true -> cursor body p r -> (List.length r < f)%nat ->
  exists cs junk, cert_entries f body p = Some (Ok cs) /\ r = entries cs ++ junk.
Proof.
  intros W. revert p r. induction f as [|f IH]; intros p r C Lf; [lia|]. cbn [cert_entries].
  destruct (cursor_len _ _ _ C) as [L P].
  destruct (Z.leb_spec (len body) p); [exists [], r; auto|].
  destruct (Z.ltb_spec (len body) (p + 3)); [exists [], r; auto|].
  destruct r as [|a [|b [|c t]]]; try (exfalso; len_lia).
  pose proof C as C0.
  rewrite (cursor_index _ _ _ _ C); apply cursor_cons in C; cbn [bind].
  rewrite (cursor_index _ _ _ _ C); apply cursor_cons in C; cbn [bind].
  replace (p + 2) with (p + 1 + 1) by lia.
  rewrite (cursor_index _ _ _ _ C); apply cursor_cons in C; cbn [bind].
  replace (p + 1 + 1 + 1) with (p + 3) in C by lia. cbv zeta.
  assert (Wabc : 0 <= a < 256 /\ 0 <= b < 256 /\ 0 <= c < 256).
  { destruct C0 as (pre & -> & _). rewrite wf_bytes_app in W. apply andb_true_iff in W as [_ W].
    cbn in W. bool_to_prop. rewrite <- !is_byte_iff. auto. }
  destruct Wabc as (A & B & Cc). rewrite be3_lor by assumption.
  pose proof (from_be_bound [a; b; c] (wf3 a b c A B Cc)) as Bd. set (n := from_be [a; b; c]) in *.
  destruct (cursor_len _ _ _ C) as [L3 _].
  destruct (Z.ltb_spec (len body) (p + 3 + n)); [exists [], (a :: b :: c :: t); auto|].
  rewrite slice_ok by lia. set (s := firstn _ _).
  assert (E : slice (E:=TlcpError) body (p + 3) (p + 3 + n) = Ok s) by (rewrite slice_ok by lia; reflexivity).
  destruct (slice_cursor _ _ _ _ _ C E) as (Ls & t' & -> & C').
  destruct (IH _ t' C') as (cs & junk & -> & ->); [rewrite !length_cons, length_app in Lf; lia|].
  exists (s :: cs), junk. split; [reflexivity|].
  assert (En : entry s = [a; b; c] ++ s).
  { unfold entry. replace (len s) with n by lia. f_equal.
    exact (be_bytes_from_be [a; b; c] (wf3 a b c A B Cc)). }
  change (entries (s :: cs)) with (entry s ++ entries cs). rewrite En, <- !app_assoc. reflexivity.
Qed.

(** Beyond the length field the loop does not look back. *)
Lemma nth3 (x y z x' y' z' : Z) b i : 3 <= i ->
  nth_error (x :: y :: z :: b) (Z.to_nat i) = nth_error (x' :: y' :: z' :: b) (Z.to_nat i) /\
  skipn (Z.to_nat i) (x :: y :: z :: b) = skipn (Z.to_nat i) (x' :: y' :: z' :: b).
Proof. intros B. destruct (Z.to_nat i) as [|[|[|k]]] eqn:K; [lia..|]. auto. Qed.

Lemma cert_entries_head f x y z x' y' z' b p : 3 <= p ->
  cert_entries f (x :: y :: z :: b) p = cert_entries f (x' :: y' :: z' :: b) p.
Proof.
  set (l := x :: y :: z :: b). set (l' := x' :: y' :: z' :: b).
  assert (L : len l = len l') by (unfold l, l'; len_lia).
  assert (I : forall i, 3 <= i -> index (E:=TlcpError) l i = index l' i)
    by (intros i B; unfold index, l, l'; now rewrite (proj1 (nth3 x y z x' y' z' b i B))).
  assert (S : forall i j, 3 <= i -> slice (E:=TlcpError) l i j = slice l' i j)
    by (intros i j B; unfold slice; rewrite L; unfold l, l'; now rewrite (proj2 (nth3 x y z x' y' z' b i B))).
  revert p. induction f as [|f IH]; intros p B; cbn [cert_entries]; [reflexivity|].
  rewrite L, !I by lia. destruct (_ <=? _); [reflexivity|]. destruct (_ <? _) eqn:G; [reflexivity|]. bool_to_prop.
  destruct (index_in (E:=TlcpError) l' p) as (b0 & E0 & _); [lia|]. rewrite E0. cbn [bind].
  destruct (index_in (E:=TlcpError) l' (p + 1)) as (b1 & E1 & _); [lia|]. rewrite E1. cbn [bind].
  destruct (index_in (E:=TlcpError) l' (p + 2)) as (b2 & E2 & _); [lia|]. rewrite E2. cbn [bind].
  cbv zeta. set (n := Z.lor _ _). destruct (_ <? _); [reflexivity|]. rewrite S by lia.
  destruct (slice l' (p + 3) (p + 3 + n)) eqn:Sl; [|reflexivity..]. unfold slice in Sl.
  destruct (_ && _) eqn:G'; [|discriminate]. bool_to_prop. now rewrite IH by lia.
Qed.

(** Certificate messages round-trip: the receiver of a certificate pair gets
    both leaf certificates (one for the single layout) and the intermediate
    certificates of both chains, in order. On arbitrary bytes the entry loop
    ends without a panic and returns the entries the body starts with; the
    length field that precedes them is never looked at. *)
Theorem tlcp_certificates_roundtrip (p : TlcpCertPair) (body : bytes) (x y z : Z) :
  Forall (fun c => len c < 2 ^ 24) (certs_of p) -> wf_bytes (x :: y :: z :: body) = true ->
  from_certificate_message (certificate_body p) = Some (Ok (received p)) /\
  ((exists q junk, from_certificate_message (x :: y :: z :: body) = Some (Ok q) /\
      body = entries (certs_of q) ++ junk /\ received q = q) \/
   exists m, from_certificate_message (x :: y :: z :: body) = Some (Err (InvalidMessage m))) /\
  (forall x' y' z', from_certificate_message (x' :: y' :: z' :: body) = from_certificate_message (x :: y :: z :: body)).
Proof.
  intros F W. split; [|split].
  - unfold from_certificate_message. rewrite certificate_body_entries. set (es := entries (certs_of p)).
    assert (L : len (be_bytes 3 (len es) ++ es) = 3 + len es) by len_lia. pose proof (len_nonneg es).
    rewrite L. destruct (Z.ltb_spec (3 + len es) 3); [lia|].
    assert (C : cursor (be_bytes 3 (len es) ++ es) 3 es) by (exists (be_bytes 3 (len es)); rewrite len_be_bytes; auto).
    rewrite (cert_entries_ok (certs_of p)); [|lia| |exact F|exact C].
    + unfold certs_of, received. destruct p as [s e sc ec []]; reflexivity.
    + assert (G : len (certs_of p) <= len es).
      { unfold es. clear. induction (certs_of p) as [|c l IH]; [reflexivity|]. unfold entries, entry in *. cbn [map concat].
        len_lia. }
      rewrite length_app. unfold len in G. lia.
  - unfold from_certificate_message. pose proof (len_nonneg body).
    destruct (Z.ltb_spec (len (x :: y :: z :: body)) 3); [exfalso; len_lia|].
    assert (C : cursor (x :: y :: z :: body) 3 body) by (exists [x; y; z]; auto).
    destruct (cert_entries_total (S (List.length (x :: y :: z :: body))) _ 3 body W C) as (cs & junk & -> & E);
      [rewrite !length_cons; lia|]. cbn [and_then].
    destruct cs as [|s [|e ch]]; [right; eauto|left; exists (cert_pair_new_single s), junk|left; exists (cert_pair_with_chains s e ch []), junk];
      (split; [reflexivity|]).
    + split; [exact E|reflexivity].
    + cbn [certs_of received cert_pair_with_chains mode sign_cert enc_cert sign_chain enc_chain].
      rewrite app_nil_r. split; [exact E|reflexivity].
  - intros x' y' z'. unfold from_certificate_message.
    replace (len (x' :: y' :: z' :: body)) with (len (x :: y :: z :: body)) by len_lia.
    replace (List.length (x' :: y' :: z' :: body)) with (List.length (x :: y :: z :: body)) by reflexivity.
    now rewrite (cert_entries_head _ x' y' z' x y z body 3) by lia.
Qed.

Lemma tlcp_certificates_roundtrip_witness :
  from_certificate_message (certificate_body (cert_pair_with_chains [1; 2] [3] [[4]] [[5; 6]])) =
    Some (Ok (received (cert_pair_with_chains [1; 2] [3] [[4]] [[5; 6]]))) /\
  from_certificate_message [255; 255; 255; 0; 0; 1; 7] = from_certificate_message [0; 0; 4; 0; 0; 1; 7].
Proof.
  pose proof (tlcp_certificates_roundtrip (cert_pair_with_chains [1; 2] [3] [[4]] [[5; 6]]) [0; 0; 1; 7] 0 0 4) as T.
  destruct T as (A & _ & B); [repeat constructor|reflexivity|]. split; [exact A|apply B].
Defined.
