(* ===== verification/TlcpKeyExchange.v ===== *)
(** TLCP key-exchange messages (gm-tlcp/src/tlcp/messages/ecdhe.rs and
    client_key_exchange.rs): ServerKeyExchange and ClientKeyExchange bodies, their
    serialisation and parsing, and the bytes a ServerKeyExchange signature covers.

    Signing and verification (gm-crypto, over the crate sm2) are arguments. The
    cargo feature tlcp-gmssl-compat, which adds a length prefix to the
    ClientKeyExchange, is the argument [compat]. *)

From Stdlib Require Import String Bool ZArith Lia List.
From S2P Require Import Prelude Bytes Sm4 Tlcp TlcpMessages.
Import ListNotations.
Open Scope Z_scope.

(** ** ECDHE parameters *)

Record Sm2EcdheParams : Type := { ephemeral_public : bytes; ecdhe_signature : bytes }.

Definition ecdhe_to_bytes (p : Sm2EcdheParams) : bytes :=
  TLCP_ECH_PARAMS_PREFIX ++ [as_u8 (len (ephemeral_public p))] ++ ephemeral_public p ++
  be_bytes 2 (as_u16 (len (ecdhe_signature p))) ++ ecdhe_signature p.

Definition ecdhe_short (n m : Z) : TlcpError :=
  InvalidMessage ("ECDHE params too short: " +++ dec n +++ " bytes, need at least " +++ dec m)%string.

Definition ecdhe_from_bytes (data : bytes) : outcome TlcpError Sm2EcdheParams :=
  guard (len data <? 3 + 1 + 2) (ecdhe_short (len data) (3 + 1 + 2))
  (prefix <- slice_to data 3 ;;
   guard (negb (bytes_eqb prefix TLCP_ECH_PARAMS_PREFIX))
     (InvalidMessage ("ECDHE params have wrong ECParameters prefix: got " +++ hex_pair hex02 prefix +++
        ", want " +++ hex_pair hex02 TLCP_ECH_PARAMS_PREFIX)%string)
   (let params_offset := 3 in
    pub_len <- index data params_offset ;;
    guard (len data <? params_offset + 1 + pub_len + 2)
      (ecdhe_short (len data) (params_offset + 1 + pub_len + 2))
    (ephemeral_public <- slice data (params_offset + 1) (params_offset + 1 + pub_len) ;;
     let sig_len_offset := params_offset + 1 + pub_len in
     sig_len <- u16_at data sig_len_offset ;;
     guard (len data <? sig_len_offset + 2 + sig_len)
       (InvalidMessage ("ECDHE signature too short: " +++ dec (len data - sig_len_offset - 2) +++
          " bytes, need " +++ dec sig_len)%string)
     (signature <- slice data (sig_len_offset + 2) (sig_len_offset + 2 + sig_len) ;;
      Ok {| ephemeral_public := ephemeral_public; ecdhe_signature := signature |})))).

(** ** ServerKeyExchange *)

Inductive ServerKeyExchangeBody : Type :=
| SkeEcdhe (p : Sm2EcdheParams)
| SkeEcc (signature : bytes)
| SkeIbc (server_id signature : bytes)
| SkeIbsdh (ra rb sb : bytes).

(** [(v.len() as u16).to_be_bytes() || v] *)
Definition vec16 (v : bytes) : bytes := be_bytes 2 (as_u16 (len v)) ++ v.

Definition ske_body_to_bytes (b : ServerKeyExchangeBody) : bytes :=
  match b with
  | SkeEcdhe p => ecdhe_to_bytes p
  | SkeEcc signature => vec16 signature
  | SkeIbc server_id signature => vec16 server_id ++ vec16 signature
  | SkeIbsdh ra rb sb => vec16 ra ++ vec16 rb ++ vec16 sb
  end.

Definition ske_to_bytes (b : ServerKeyExchangeBody) : bytes := hs_message ServerKeyExchange (ske_body_to_bytes b).

Definition ske_ibc_from_body (body : bytes) : outcome TlcpError ServerKeyExchangeBody :=
  guard (len body <? 4)
    (InvalidMessage ("IBC SKE body too short: " +++ dec (len body) +++ " bytes, need at least 4")%string)
  (id_len <- u16_at body 0 ;;
   guard (len body <? 2 + id_len + 2)
     (InvalidMessage ("IBC SKE id truncated: body " +++ dec (len body) +++ " < 4 + id_len " +++ dec id_len)%string)
   (server_id <- slice body 2 (2 + id_len) ;;
    let sig_offset := 2 + id_len in
    sig_len <- u16_at body sig_offset ;;
    guard (len body <? sig_offset + 2 + sig_len)
      (InvalidMessage ("IBC SKE signature truncated: body " +++ dec (len body) +++ " < " +++
         dec (sig_offset + 2) +++ " + sig_len " +++ dec sig_len)%string)
    (signature <- slice body (sig_offset + 2) (sig_offset + 2 + sig_len) ;;
     Ok (SkeIbc server_id signature)))).

Definition ibsdh_truncated (what : string) (body : bytes) (p n : Z) : TlcpError :=
  InvalidMessage ("IBSDH SKE " +++ what +++ " truncated: body " +++ dec (len body) +++ " < " +++ dec p +++
    " + " +++ what +++ "_len " +++ dec n)%string.

Definition ske_ibsdh_from_body (body : bytes) : outcome TlcpError ServerKeyExchangeBody :=
  let p := 0 in
  guard (len body <? p + 2)
    (InvalidMessage ("IBSDH SKE body too short: " +++ dec (len body) +++ " bytes, need at least 2")%string)
  (ra_len <- u16_at body p ;;
   let p := p + 2 in
   guard (len body <? p + ra_len + 2) (ibsdh_truncated "ra" body (p + 2) ra_len)
   (ra <- slice body p (p + ra_len) ;;
    let p := p + ra_len in
    rb_len <- u16_at body p ;;
    let p := p + 2 in
    guard (len body <? p + rb_len + 2) (ibsdh_truncated "rb" body (p + 2) rb_len)
    (rb <- slice body p (p + rb_len) ;;
     let p := p + rb_len in
     sb_len <- u16_at body p ;;
     let p := p + 2 in
     guard (len body <? p + sb_len) (ibsdh_truncated "sb" body p sb_len)
     (sb <- slice body p (p + sb_len) ;;
      Ok (SkeIbsdh ra rb sb))))).

Definition ske_ecc_from_body (body : bytes) : outcome TlcpError ServerKeyExchangeBody :=
  guard (len body <? 2)
    (InvalidMessage ("ECC SKE body too short: " +++ dec (len body) +++ " bytes, need at least 2")%string)
  (sig_len <- u16_at body 0 ;;
   guard (len body <? 2 + sig_len)
     (InvalidMessage ("ECC SKE signature truncated: body " +++ dec (len body) +++ " < 2 + sig_len " +++ dec sig_len)%string)
   (signature <- slice body 2 (2 + sig_len) ;; Ok (SkeEcc signature))).

(** [body.len() < 3 || body[..3] != PREFIX], short-circuiting *)
Definition lacks_prefix (body : bytes) : outcome TlcpError bool :=
  if len body <? 3 then Ok true
  else prefix <- slice_to body 3 ;; Ok (negb (bytes_eqb prefix TLCP_ECH_PARAMS_PREFIX)).

Definition ske_from_body (body : bytes) (kind : KeyExchangeMode) : outcome TlcpError ServerKeyExchangeBody :=
  match kind with
  | Ecdhe =>
      bad <- lacks_prefix body ;;
      guard bad (InvalidMessage "ECDHE SKE body must start with ECParameters prefix")
      (ecdhe_params <- ecdhe_from_bytes body ;; Ok (SkeEcdhe ecdhe_params))
  | Ecc => ske_ecc_from_body body
  | Ibc => ske_ibc_from_body body
  | Ibsdh => ske_ibsdh_from_body body
  | Rsa => Err (InvalidMessage "ServerKeyExchange not used for RSA suites (yet)")
  end.

Definition ske_from_body_legacy (body : bytes) : outcome TlcpError ServerKeyExchangeBody :=
  bad <- lacks_prefix body ;;
  if bad then ske_from_body body Ecc else ske_from_body body Ecdhe.

(** *** Signatures *)

Definition sign_error (m : string) (e : CryptoError) : TlcpError := Sm2KeyError (m +++ debug_crypto e)%string.

(** The bytes under an ECDHE signature, and under a static-ECC or RSA one. *)
Definition ecdhe_signed (client_random server_random ephemeral_pub : bytes) : bytes :=
  client_random ++ server_random ++ TLCP_ECH_PARAMS_PREFIX ++ [as_u8 (len ephemeral_pub)] ++ ephemeral_pub.
Definition cert_signed (client_random server_random cert_der : bytes) : bytes :=
  client_random ++ server_random ++ be_bytes 3 (as_u32 (len cert_der)) ++ cert_der.

Definition ske_generate (ephemeral_pub : bytes) (sign : bytes -> outcome CryptoError bytes)
    (client_random server_random : bytes) : outcome TlcpError ServerKeyExchangeBody :=
  signature <- map_err (sign_error "SKE sign failed: ") (sign (ecdhe_signed client_random server_random ephemeral_pub)) ;;
  Ok (SkeEcdhe {| ephemeral_public := ephemeral_pub; ecdhe_signature := signature |}).

Definition ske_generate_ecc (raw_to_der : bytes -> bytes) (sign : bytes -> outcome CryptoError bytes)
    (client_random server_random enc_cert_der : bytes) : outcome TlcpError ServerKeyExchangeBody :=
  guard (0xFFFFFF <? len enc_cert_der)
    (HandshakeFailed ("enc_cert_der too long for static-ECC SKE: " +++ dec (len enc_cert_der) +++
       " bytes (max 16777215)")%string)
  (raw_signature <- map_err (sign_error "ECC SKE sign failed: ")
     (sign (cert_signed client_random server_random enc_cert_der)) ;;
   guard (negb (len raw_signature =? 64)) (Sm2KeyError "ECC SKE raw sig not 64 bytes")
   (Ok (SkeEcc (raw_to_der raw_signature)))).

Definition ske_generate_rsa (sign : bytes -> outcome string bytes)
    (client_random server_random rsa_cert_der : bytes) : outcome TlcpError ServerKeyExchangeBody :=
  guard (0xFFFFFF <? len rsa_cert_der)
    (HandshakeFailed ("rsa_cert_der too long for RSA SKE: " +++ dec (len rsa_cert_der) +++
       " bytes (max 16777215)")%string)
  (signature <- map_err (fun e => Sm2KeyError ("RSA SKE sign: " +++ e)%string)
     (sign (cert_signed client_random server_random rsa_cert_der)) ;;
   Ok (SkeEcc signature)).

Definition ske_verify_signature (b : ServerKeyExchangeBody) (client_random server_random : bytes)
    (verify : bytes -> bytes -> outcome CryptoError unit) : outcome TlcpError unit :=
  match b with
  | SkeEcdhe params =>
      map_err (fun e => Sm2KeyError ("SKE signature verify failed: " +++ display_crypto e)%string)
        (verify (ecdhe_signed client_random server_random (ephemeral_public params)) (ecdhe_signature params))
  | _ => Err (InvalidMessage "verify_signature called on non-ECDHE ServerKeyExchange")
  end.

(** ** ClientKeyExchange *)

Inductive ClientKeyExchangeBody : Type :=
| CkeEcdhe (ephemeral_public : bytes)
| CkeEcc (ciphertext : bytes)
| CkeIbc (ciphertext : bytes)
| CkeIbsdh (ra : bytes)
| CkeRsa (ciphertext : bytes).

Definition cke_new_ecdhe (ephemeral_public : bytes) : ClientKeyExchangeBody :=
  CkeEcdhe (TLCP_ECH_PARAMS_PREFIX ++ [as_u8 (len ephemeral_public)] ++ ephemeral_public).

Definition cke_payload (b : ClientKeyExchangeBody) : bytes :=
  match b with CkeEcdhe p | CkeEcc p | CkeIbc p | CkeIbsdh p | CkeRsa p => p end.

Definition as_ecdhe_wire_body (b : ClientKeyExchangeBody) : option bytes :=
  match b with CkeEcdhe p => Some p | _ => None end.
Definition as_ecc_ciphertext (b : ClientKeyExchangeBody) : option bytes :=
  match b with CkeEcc p => Some p | _ => None end.
Definition as_ibc_ciphertext (b : ClientKeyExchangeBody) : option bytes :=
  match b with CkeIbc p => Some p | _ => None end.
Definition as_ibsdh_ra (b : ClientKeyExchangeBody) : option bytes :=
  match b with CkeIbsdh p => Some p | _ => None end.
Definition as_rsa_ciphertext (b : ClientKeyExchangeBody) : option bytes :=
  match b with CkeRsa p => Some p | _ => None end.

(** [None] of the source is [Ok None]; its indexing may panic. *)
Definition ecdhe_public_key (b : ClientKeyExchangeBody) : outcome TlcpError (option bytes) :=
  match as_ecdhe_wire_body b with
  | None => Ok None
  | Some envelope =>
      if len envelope <? 3 + 1 then Ok None
      else
        prefix <- slice_to envelope 3 ;;
        if negb (bytes_eqb prefix TLCP_ECH_PARAMS_PREFIX) then Ok None
        else
          pub_len <- index envelope 3 ;;
          let point_offset := 3 + 1 in
          if negb (len envelope =? point_offset + pub_len) then Ok None
          else (point <- slice envelope point_offset (point_offset + pub_len) ;; Ok (Some point))
  end.

Definition cke_body (compat : bool) (b : ClientKeyExchangeBody) : bytes :=
  let payload := cke_payload b in
  (if compat then be_bytes 2 (as_u16 (len payload)) else []) ++ payload.

Definition cke_to_bytes (compat : bool) (b : ClientKeyExchangeBody) : bytes :=
  hs_message ClientKeyExchange (cke_body compat b).

Definition cke_read_payload (compat : bool) (body : bytes) : outcome TlcpError bytes :=
  if compat then
    guard (len body <? 2)
      (InvalidMessage ("ClientKeyExchange body too short: " +++ dec (len body) +++ " bytes, need at least 2")%string)
    (payload_len <- u16_at body 0 ;;
     guard (len body <? 2 + payload_len)
       (InvalidMessage ("ClientKeyExchange too short: " +++ dec (len body) +++ " bytes, need " +++
          dec (2 + payload_len))%string)
     (slice body 2 (2 + payload_len)))
  else Ok body.

Definition cke_from_body (compat : bool) (body : bytes) (is_ecc_mode is_ibc_mode is_ibsdh_mode is_rsa_mode : bool)
    : outcome TlcpError ClientKeyExchangeBody :=
  payload <- cke_read_payload compat body ;;
  Ok (if is_ibc_mode then CkeIbc payload
      else if is_ibsdh_mode then CkeIbsdh payload
      else if is_ecc_mode then CkeEcc payload
      else if is_rsa_mode then CkeRsa payload
      else CkeEcdhe payload).

(** ** Modes and well-formedness *)

Definition ske_mode (b : ServerKeyExchangeBody) : KeyExchangeMode :=
  match b with SkeEcdhe _ => Ecdhe | SkeEcc _ => Ecc | SkeIbc _ _ => Ibc | SkeIbsdh _ _ _ => Ibsdh end.

Definition ske_wf (b : ServerKeyExchangeBody) : bool :=
  match b with
  | SkeEcdhe p => (len (ephemeral_public p) <? 256) && (len (ecdhe_signature p) <? 65536)
  | SkeEcc s => len s <? 65536
  | SkeIbc i s => (len i <? 65536) && (len s <? 65536)
  | SkeIbsdh a b s => (len a <? 65536) && (len b <? 65536) && (len s <? 65536)
  end.

Definition cke_flags (b : ClientKeyExchangeBody) : bool * bool * bool * bool :=
  match b with
  | CkeEcdhe _ => (false, false, false, false)
  | CkeEcc _ => (true, false, false, false)
  | CkeIbc _ => (false, true, false, false)
  | CkeIbsdh _ => (false, false, true, false)
  | CkeRsa _ => (false, false, false, true)
  end.

(** ** Lemmas *)

Lemma cursor_vec16 l i v t : cursor l i (vec16 v ++ t) -> len v < 65536 ->
  u16_at l i = Ok (len v) /\ slice (E:=TlcpError) l (i + 2) (i + 2 + len v) = Ok v /\
  cursor l (i + 2 + len v) t /\ len l = i + 2 + len v + len t.
Proof.
  intros C B. pose proof (len_nonneg v). unfold vec16, as_u16 in C. rewrite Z.mod_small, <- app_assoc in C by lia.
  destruct (cursor_len _ _ _ C) as [L _]. rewrite !len_app, len_be_bytes in L.
  split; [apply (cursor_u16 l i (len v) _ C); lia|]. apply cursor_app in C. rewrite len_be_bytes in C.
  change (Z.of_nat 2) with 2 in *. split; [now apply (cursor_slice l (i + 2) _ v t)|].
  split; [now apply cursor_app in C|lia].
Qed.

Lemma ecdhe_parse p t : ske_wf (SkeEcdhe p) = true -> ecdhe_from_bytes (ecdhe_to_bytes p ++ t) = Ok p.
Proof.
  destruct p as [e s]. cbn [ske_wf ephemeral_public ecdhe_signature]. intros W. bool_to_prop.
  pose proof (len_nonneg e); pose proof (len_nonneg s); pose proof (len_nonneg t).
  set (d := ecdhe_to_bytes _ ++ t).
  assert (D : d = [3; 0; 41] ++ len e :: e ++ vec16 s ++ t).
  { unfold d, ecdhe_to_bytes, vec16. cbn [ephemeral_public ecdhe_signature]. rewrite as_u8_small by lia.
    rewrite <- !app_assoc. reflexivity. }
  assert (C : cursor d 3 (len e :: e ++ vec16 s ++ t)) by (exists [3; 0; 41]; auto).
  destruct (cursor_len _ _ _ C) as [Ld _]. unfold vec16 in Ld. rewrite len_cons, !len_app, len_be_bytes in Ld.
  unfold ecdhe_from_bytes. pass_guard; [|lia].
  replace (slice_to d 3) with (Ok (E:=TlcpError) [3; 0; 41]) by (rewrite D; symmetry; now apply slice_to_app).
  cbn [bind]. pass_guard; [|reflexivity]. rewrite (cursor_index d 3 _ _ C). apply cursor_cons in C. cbn [bind].
  pass_guard; [|lia]. rewrite (cursor_slice d (3 + 1) _ _ _ C) by reflexivity. apply cursor_app in C. cbn [bind].
  destruct (cursor_vec16 d _ s t C) as (U & S & _ & L'); [lia|]. rewrite U. cbn [bind].
  pass_guard; [|lia]. now rewrite S.
Qed.

Lemma ske_parse b t : ske_wf b = true -> ske_from_body (ske_body_to_bytes b ++ t) (ske_mode b) = Ok b.
Proof.
  destruct b as [p|s|i s|ra rb sb]; intros W; cbn [ske_body_to_bytes ske_mode ske_from_body].
  - unfold lacks_prefix. destruct (Z.ltb_spec (len (ecdhe_to_bytes p ++ t)) 3).
    { exfalso. unfold ecdhe_to_bytes in H. cbn [TLCP_ECH_PARAMS_PREFIX app] in H. len_lia. }
    unfold ecdhe_to_bytes at 1. rewrite <- app_assoc, slice_to_app by reflexivity. cbn [bind].
    rewrite bytes_eqb_refl. cbn [negb guard]. now rewrite ecdhe_parse.
  - cbn [ske_wf] in W. bool_to_prop. unfold ske_ecc_from_body.
    destruct (cursor_vec16 _ 0 s t (cursor_start _) W) as (U & S & _ & L).
    pose proof (len_nonneg s); pose proof (len_nonneg t). pass_guard; [|lia]. rewrite U. cbn [bind].
    pass_guard; [|lia]. change (0 + 2) with 2 in S. now rewrite S.
  - cbn [ske_wf] in W. bool_to_prop. unfold ske_ibc_from_body. rewrite <- app_assoc.
    destruct (cursor_vec16 _ 0 i (vec16 s ++ t) (cursor_start _) H) as (U & S & C & L). change (0 + 2) with 2 in *.
    destruct (cursor_vec16 _ _ s t C H0) as (U' & S' & _ & L').
    pose proof (len_nonneg i); pose proof (len_nonneg s); pose proof (len_nonneg t).
    pass_guard; [|lia]. rewrite U. cbn [bind]. pass_guard; [|lia]. rewrite S. cbn [bind]. rewrite U'. cbn [bind].
    pass_guard; [|lia]. now rewrite S'.
  - cbn [ske_wf] in W. bool_to_prop. unfold ske_ibsdh_from_body. rewrite <- !app_assoc.
    destruct (cursor_vec16 _ 0 ra (vec16 rb ++ vec16 sb ++ t) (cursor_start _) H) as (U & S & C & L).
    destruct (cursor_vec16 _ _ rb (vec16 sb ++ t) C H1) as (U' & S' & C' & L').
    destruct (cursor_vec16 _ _ sb t C' H0) as (U'' & S'' & _ & L'').
    pose proof (len_nonneg ra); pose proof (len_nonneg rb); pose proof (len_nonneg sb); pose proof (len_nonneg t).
    pass_guard; [|lia]. rewrite U. cbn [bind]. pass_guard; [|lia]. rewrite S. cbn [bind]. rewrite U'. cbn [bind].
    pass_guard; [|lia]. rewrite S'. cbn [bind]. rewrite U''. cbn [bind]. pass_guard; [|lia]. now rewrite S''.
Qed.

(** The next 16-bit read of the goal succeeds. *)
Ltac u16_step :=
  match goal with
  | W : wf_bytes ?l = true |- context [bind (u16_at ?l ?i) _] =>
      let n := fresh "n" in let E := fresh "E" in let B := fresh "B" in
      destruct (u16_in l i) as (n & E & B); [exact W|lia|lia|]; rewrite E; cbn [bind]
  | |- context [bind (slice_to ?l ?i) _] => rewrite (slice_to_ok l i) by lia; cbn [bind]
  | _ => read_step
  end.

Lemma ske_no_panic d k : wf_bytes d = true -> no_panic (ske_from_body d k).
Proof.
  intros W. unfold no_panic. destruct k; cbn [ske_from_body]; [..|discriminate].
  - unfold lacks_prefix. destruct (Z.ltb_spec (len d) 3); cbn [bind guard]; [discriminate|].
    u16_step. destruct (negb _); cbn [guard]; [discriminate|].
    assert (P : no_panic (ecdhe_from_bytes d)).
    { unfold no_panic, ecdhe_from_bytes, ecdhe_short. repeat (u16_step; try discriminate). }
    destruct (ecdhe_from_bytes d); cbn [bind]; [discriminate..|contradiction].
  - unfold ske_ecc_from_body. repeat (u16_step; try discriminate).
  - unfold ske_ibc_from_body. repeat (u16_step; try discriminate).
  - unfold ske_ibsdh_from_body, ibsdh_truncated. repeat (u16_step; try discriminate).
Qed.

Lemma cke_payload_parse compat b : len (cke_payload b) < 65536 ->
  cke_read_payload compat (cke_body compat b) = Ok (cke_payload b).
Proof.
  intros B. unfold cke_read_payload, cke_body. destruct compat; [|reflexivity].
  change (be_bytes 2 (as_u16 (len (cke_payload b))) ++ cke_payload b) with (vec16 (cke_payload b)).
  rewrite <- (app_nil_r (vec16 _)).
  destruct (cursor_vec16 _ 0 (cke_payload b) [] (cursor_start _) B) as (U & S & _ & L).
  pose proof (len_nonneg (cke_payload b)). pose proof (@len_nil Z).
  pass_guard; [|lia]. rewrite U. cbn [bind]. pass_guard; [|lia]. exact S.
Qed.

Lemma ecdhe_public_key_new p : len p < 256 -> ecdhe_public_key (cke_new_ecdhe p) = Ok (Some p).
Proof.
  intros B. pose proof (len_nonneg p). unfold ecdhe_public_key, cke_new_ecdhe. cbn [as_ecdhe_wire_body].
  rewrite as_u8_small by lia. set (e := TLCP_ECH_PARAMS_PREFIX ++ [len p] ++ p).
  assert (C : cursor e 3 (len p :: p ++ [])) by (exists TLCP_ECH_PARAMS_PREFIX; rewrite app_nil_r; auto).
  destruct (cursor_len _ _ _ C) as [L _]. rewrite len_cons, len_app, len_nil in L.
  destruct (Z.ltb_spec (len e) (3 + 1)); [lia|].
  replace (slice_to e 3) with (Ok (E:=TlcpError) TLCP_ECH_PARAMS_PREFIX) by (symmetry; now apply slice_to_app).
  cbn [bind]. rewrite bytes_eqb_refl. cbn [negb].
  rewrite (cursor_index e 3 _ _ C). apply cursor_cons in C. cbn [bind].
  destruct (Z.eqb_spec (len e) (3 + 1 + len p)); [|lia]. cbn [negb].
  now rewrite (cursor_slice e (3 + 1) _ _ _ C).
Qed.

(** ** Properties *)

(** Key-exchange messages round-trip in every mode: a ServerKeyExchange body,
    followed by any bytes, parses to itself under the mode of its suite; a
    ClientKeyExchange body does with and without the GmSSL length prefix, and
    returns the point it was built from; a signature made by [ske_generate]
    survives the wire and verifies exactly over the same randoms and point; no
    parser panics, and RSA suites have no ServerKeyExchange parser. *)
Theorem tlcp_key_exchange_roundtrip (b : ServerKeyExchangeBody) (c : ClientKeyExchangeBody) (compat : bool)
    (pub cr sr d t : bytes) (sign : bytes -> outcome CryptoError bytes)
    (verify : bytes -> bytes -> outcome CryptoError unit) (s : bytes) :
  ske_wf b = true -> len (cke_payload c) < 65536 -> len pub < 256 -> wf_bytes d = true ->
  sign (ecdhe_signed cr sr pub) = Ok s -> verify (ecdhe_signed cr sr pub) s = Ok tt -> len s < 65536 ->
  ske_from_body (ske_body_to_bytes b ++ t) (ske_mode b) = Ok b /\
  (let '(ecc, ibc, ibsdh, rsa) := cke_flags c in
   cke_from_body compat (cke_body compat c) ecc ibc ibsdh rsa = Ok c) /\
  ecdhe_public_key (cke_new_ecdhe pub) = Ok (Some pub) /\
  (exists g, ske_generate pub sign cr sr = Ok g /\
     ske_from_body (ske_body_to_bytes g) Ecdhe = Ok g /\ ske_verify_signature g cr sr verify = Ok tt) /\
  (forall k, no_panic (ske_from_body d k)) /\
  ske_from_body d Rsa = Err (InvalidMessage "ServerKeyExchange not used for RSA suites (yet)").
Proof.
  intros Wb Wc Wp Wd Sg Vf Ls. split; [now apply ske_parse|]. split; [|split; [|split; [|split]]].
  - pose proof (cke_payload_parse compat c Wc) as R. unfold cke_from_body.
    destruct c; cbn [cke_flags cke_payload] in *; now rewrite R.
  - now apply ecdhe_public_key_new.
  - unfold ske_generate. rewrite Sg. cbn [map_err bind]. eexists. split; [reflexivity|]. split.
    + rewrite <- (app_nil_r (ske_body_to_bytes _)).
      apply (ske_parse (SkeEcdhe {| ephemeral_public := pub; ecdhe_signature := s |})).
      cbn [ske_wf ephemeral_public ecdhe_signature]. rewrite andb_true_iff, !Z.ltb_lt. auto.
    + cbn [ske_verify_signature ephemeral_public ecdhe_signature]. now rewrite Vf.
  - intros k. now apply ske_no_panic.
  - reflexivity.
Qed.

Lemma tlcp_key_exchange_roundtrip_witness :
  ske_from_body (ske_body_to_bytes (SkeIbsdh [1] [2; 3] []) ++ [9]) Ibsdh = Ok (SkeIbsdh [1] [2; 3] []) /\
  cke_from_body true (cke_body true (CkeRsa [4; 5])) false false false true = Ok (CkeRsa [4; 5]).
Proof.
  pose proof (tlcp_key_exchange_roundtrip (SkeIbsdh [1] [2; 3] []) (CkeRsa [4; 5]) true [4; 1] [1] [2] [7] [9]
    (fun m => Ok m) (fun m s => if bytes_eqb m s then Ok tt else Err SignatureVerificationFailed)
    (ecdhe_signed [1] [2] [4; 1])) as T.
  destruct T as (A & B & _); [reflexivity..|]. auto.
Defined.
