(* ===== verification/TlcpSession.v ===== *)
(** TLCP session resumption (gm-tlcp/src/tlcp/session.rs): the resumable session
    and the bounded session cache.

    The cache is a map and the list of its keys in insertion order. The monotonic
    clock ([Instant::now]) is an argument; the mutex makes every operation one
    step. *)

From Stdlib Require Import String Bool ZArith Lia List.
From stdpp Require Import base gmap list fin_maps.
From S2P Require Import Prelude Bytes Sm4 Sm3 Tlcp TlcpKeys.
Open Scope Z_scope.

Record TlcpResumedSession : Type := {
  rs_master_secret : bytes;
  rs_cipher_suite : bytes;
  rs_server_random : bytes;
  rs_client_random : bytes;
  rs_require_client_auth : bool;
  rs_created_at : Z;
  rs_lifetime : Z
}.

Definition resumed_session_new (now : Z) (master_secret cipher_suite server_random client_random : bytes)
    : TlcpResumedSession :=
  {| rs_master_secret := master_secret;
     rs_cipher_suite := cipher_suite;
     rs_server_random := server_random;
     rs_client_random := client_random;
     rs_require_client_auth := false;
     rs_created_at := now;
     rs_lifetime := DEFAULT_SESSION_LIFETIME |}.

(** [created_at.elapsed() > lifetime]; [elapsed] saturates at zero. *)
Definition is_expired (now : Z) (s : TlcpResumedSession) : bool :=
  rs_lifetime s <? Z.max 0 (now - rs_created_at s).

Definition derive_session_keys {H : Sm3Crate} (s : TlcpResumedSession) : option (outcome TlcpError SessionKeys) :=
  match from_id (rs_cipher_suite s) with
  | None => Some (Err (InvalidMessage ("Unknown cipher suite " +++ hex_pair hex02l (rs_cipher_suite s))%string))
  | Some suite =>
      and_then (derive (rs_master_secret s) (rs_client_random s) (rs_server_random s) suite)
        (fun km => Some (to_session_keys km))
  end.

(** ** The cache *)

Record TlcpSessionCache : Type := {
  sessions : gmap bytes TlcpResumedSession;
  insertion_order : list bytes;
  max_entries : Z
}.

Definition with_capacity (max_entries : Z) : TlcpSessionCache :=
  {| sessions := ∅; insertion_order := []; max_entries := max_entries |}.
Definition cache_new : TlcpSessionCache := with_capacity MAX_CACHED_SESSIONS.

(** [insertion_order.retain(|id| id != x)] *)
Definition retain_ne (x : bytes) (l : list bytes) : list bytes := filter (λ id, id ≠ x) l.

Definition evict_expired (now : Z) (c : TlcpSessionCache) : TlcpSessionCache :=
  let expired := filter (λ kv, is_expired now (snd kv) = true) (sessions c) in
  {| sessions := sessions c ∖ expired;
     insertion_order := filter (λ id, expired !! id = None) (insertion_order c);
     max_entries := max_entries c |}.

Definition evict_oldest (c : TlcpSessionCache) : TlcpSessionCache :=
  match insertion_order c with
  | [] => c
  | oldest_id :: rest =>
      {| sessions := delete oldest_id (sessions c); insertion_order := rest; max_entries := max_entries c |}
  end.

Definition put (now : Z) (session_id : bytes) (session : TlcpResumedSession) (c : TlcpSessionCache)
    : TlcpSessionCache :=
  let c := evict_expired now c in
  let c := if max_entries c <=? Z.of_nat (size (sessions c)) then evict_oldest c else c in
  let order :=
    match sessions c !! session_id with
    | Some _ => retain_ne session_id (insertion_order c)
    | None => insertion_order c
    end in
  {| sessions := <[session_id := session]> (sessions c);
     insertion_order := order ++ [session_id];
     max_entries := max_entries c |}.

Definition remove (session_id : bytes) (c : TlcpSessionCache) : TlcpSessionCache :=
  {| sessions := delete session_id (sessions c);
     insertion_order := retain_ne session_id (insertion_order c);
     max_entries := max_entries c |}.

Definition get (now : Z) (session_id : bytes) (c : TlcpSessionCache) : option TlcpResumedSession * TlcpSessionCache :=
  match sessions c !! session_id with
  | None => (None, c)
  | Some session =>
      if is_expired now session then (None, remove session_id c) else (Some session, c)
  end.

Definition cache_len (c : TlcpSessionCache) : Z := Z.of_nat (size (sessions c)).
Definition cache_is_empty (c : TlcpSessionCache) : bool := cache_len c =? 0.

(** ** Reachable caches *)

Inductive cache_op : Type :=
| OpPut (now : Z) (id : bytes) (s : TlcpResumedSession)
| OpGet (now : Z) (id : bytes)
| OpRemove (id : bytes).

Definition cache_step (c : TlcpSessionCache) (o : cache_op) : TlcpSessionCache :=
  match o with
  | OpPut now id s => put now id s c
  | OpGet now id => (get now id c).2
  | OpRemove id => remove id c
  end.

Inductive reachable (n : Z) : TlcpSessionCache → Prop :=
| reach_new : reachable n (with_capacity n)
| reach_step c o : reachable n c → reachable n (cache_step c o).

(** The order lists exactly the keys of the map, each once. *)
Definition cache_inv (c : TlcpSessionCache) : Prop :=
  NoDup (insertion_order c) ∧ ∀ id, id ∈ insertion_order c ↔ is_Some (sessions c !! id).

Lemma cache_inv_size c : cache_inv c → size (sessions c) = length (insertion_order c).
Proof.
  intros [N M]. rewrite <- size_dom. rewrite <- (size_list_to_set (C := gset bytes) _ N). f_equal.
  apply set_eq. intros id. rewrite elem_of_dom, elem_of_list_to_set. symmetry. apply M.
Qed.

Lemma retain_ne_inv c x : cache_inv c → cache_inv (remove x c).
Proof.
  intros [N M]. split; cbn.
  - now apply NoDup_filter.
  - intros id. unfold retain_ne. rewrite list_elem_of_filter, M, lookup_delete_is_Some. naive_solver.
Qed.

Lemma evict_expired_lookup now c id :
  sessions (evict_expired now c) !! id =
  match sessions c !! id with
  | Some s => if is_expired now s then None else Some s
  | None => None
  end.
Proof.
  cbn. destruct (sessions c !! id) as [s|] eqn:L.
  - destruct (is_expired now s) eqn:X.
    + apply lookup_difference_None. right. exists s. rewrite map_lookup_filter_Some. auto.
    + apply lookup_difference_Some. split; [done|]. apply map_lookup_filter_None. right.
      intros s' L'. rewrite L in L'. injection L' as <-. cbn. congruence.
  - apply lookup_difference_None. auto.
Qed.

Lemma evict_expired_inv now c : cache_inv c → cache_inv (evict_expired now c).
Proof.
  intros [N M]. split; [now apply NoDup_filter|]. intros id. rewrite evict_expired_lookup. cbn.
  rewrite list_elem_of_filter, M. destruct (sessions c !! id) as [s|] eqn:L.
  - rewrite map_lookup_filter_None. destruct (is_expired now s) eqn:X; split.
    + intros [[H|H] _]; [congruence|]. exfalso. now apply (H s).
    + now intros [].
    + eauto.
    + intros _. split; [|eauto]. right. intros s' L'. rewrite L in L'. injection L' as <-. cbn. congruence.
  - split; [now intros [_ []]|now intros []].
Qed.

Lemma evict_oldest_inv c : cache_inv c → cache_inv (evict_oldest c).
Proof.
  intros [N M]. unfold evict_oldest. destruct (insertion_order c) as [|x l] eqn:O; [split; rewrite ?O; auto|].
  apply NoDup_cons in N as [NI N]. split; cbn; [done|]. intros id. rewrite lookup_delete_is_Some, <- M, elem_of_cons.
  naive_solver.
Qed.

Definition after_eviction (now : Z) (c : TlcpSessionCache) : TlcpSessionCache :=
  let c := evict_expired now c in
  if max_entries c <=? Z.of_nat (size (sessions c)) then evict_oldest c else c.

Lemma after_eviction_inv now c : cache_inv c → cache_inv (after_eviction now c).
Proof.
  intros I. unfold after_eviction. cbv zeta. destruct (_ <=? _); auto using evict_oldest_inv, evict_expired_inv.
Qed.

Lemma put_eq now id s c :
  put now id s c =
    let c := after_eviction now c in
    {| sessions := <[id := s]> (sessions c);
       insertion_order := (match sessions c !! id with Some _ => retain_ne id (insertion_order c) | None => insertion_order c end) ++ [id];
       max_entries := max_entries c |}.
Proof. reflexivity. Qed.

Lemma put_inv now id s c : cache_inv c → cache_inv (put now id s c).
Proof.
  intros I. rewrite put_eq. apply (after_eviction_inv now) in I as [N M]. set (e := after_eviction now c) in *.
  cbv zeta. split; cbn.
  - apply NoDup_app. destruct (sessions e !! id) eqn:L.
    + split; [now apply NoDup_filter|]. split; [|apply NoDup_singleton].
      intros x. unfold retain_ne. rewrite list_elem_of_filter, list_elem_of_singleton. naive_solver.
    + split; [done|]. split; [|apply NoDup_singleton]. intros x Hx. rewrite list_elem_of_singleton. intros ->.
      apply M in Hx. rewrite L in Hx. now destruct Hx.
  - intros x. rewrite elem_of_app, list_elem_of_singleton, lookup_insert_is_Some, <- M.
    destruct (sessions e !! id) eqn:L; [unfold retain_ne; rewrite list_elem_of_filter|];
      destruct (decide (id = x)); naive_solver.
Qed.

Lemma after_eviction_max now c : max_entries (after_eviction now c) = max_entries c.
Proof.
  unfold after_eviction, evict_oldest. cbv zeta. destruct (_ <=? _); [|done]. now destruct (insertion_order _).
Qed.

Lemma evict_expired_size now c : cache_inv c → (size (sessions (evict_expired now c)) ≤ size (sessions c))%nat.
Proof.
  intros I. rewrite (cache_inv_size _ (evict_expired_inv now c I)), (cache_inv_size _ I). cbn. apply length_filter.
Qed.

Lemma after_eviction_size now c : cache_inv c → cache_len c ≤ Z.max 1 (max_entries c) →
  cache_len (after_eviction now c) + 1 ≤ Z.max 1 (max_entries c).
Proof.
  unfold cache_len. intros I B. pose proof (evict_expired_size now c I) as E.
  pose proof (evict_expired_inv now c I) as I'. unfold after_eviction. cbv zeta.
  change (max_entries (evict_expired now c)) with (max_entries c).
  set (e := evict_expired now c) in *. destruct (Z.leb_spec (max_entries c) (Z.of_nat (size (sessions e)))); [|lia].
  rewrite (cache_inv_size _ (evict_oldest_inv _ I')). rewrite (cache_inv_size _ I') in *.
  unfold evict_oldest. destruct (insertion_order e) eqn:O; cbn in *; rewrite ?O; cbn; lia.
Qed.

Lemma step_inv c o : cache_inv c → cache_len c ≤ Z.max 1 (max_entries c) →
  cache_inv (cache_step c o) ∧ cache_len (cache_step c o) ≤ Z.max 1 (max_entries c) ∧
  max_entries (cache_step c o) = max_entries c.
Proof.
  intros I B.
  assert (R : ∀ id, cache_inv (remove id c) ∧ cache_len (remove id c) ≤ Z.max 1 (max_entries c)).
  { intros id. pose proof (retain_ne_inv c id I) as I'. split; [done|]. unfold cache_len in *.
    rewrite (cache_inv_size _ I'), (cache_inv_size _ I) in *. cbn. unfold retain_ne.
    pose proof (length_filter (λ x, x ≠ id) (insertion_order c)). lia. }
  destruct o as [now id s|now id|id]; cbn [cache_step].
  - split; [now apply put_inv|]. pose proof (after_eviction_size now c I B) as E. rewrite put_eq. cbv zeta.
    cbn [max_entries]. rewrite after_eviction_max. split; [|done]. unfold cache_len in *. cbn [sessions].
    rewrite map_size_insert. destruct (sessions (after_eviction now c) !! id); cbn; lia.
  - unfold get. destruct (sessions c !! id) as [s|]; [destruct (is_expired now s)|]; cbn [snd]; auto.
    destruct (R id). auto.
  - destruct (R id). auto.
Qed.

Lemma reachable_inv n c : reachable n c → cache_inv c ∧ cache_len c ≤ Z.max 1 n ∧ max_entries c = n.
Proof.
  induction 1 as [|c o _ (I & B & Mx)].
  - split; [|split; [unfold cache_len, with_capacity; cbn [sessions]; rewrite map_size_empty; lia|done]].
    split; [constructor|]. intros id. cbn. rewrite lookup_empty.
    split; [now intros ?%elem_of_nil|now intros []].
  - rewrite <- Mx in B. destruct (step_inv c o I B) as (I' & B' & M'). rewrite Mx in *. auto.
Qed.

Lemma filter_all_true {A} (P : A → Prop) `{∀ x, Decision (P x)} (l : list A) :
  (∀ x, x ∈ l → P x) → filter P l = l.
Proof.
  induction l as [|x l IH]; intros F; [done|]. rewrite filter_cons_True by (apply F; now left).
  f_equal. apply IH. intros y Hy. apply F. now right.
Qed.

Lemma filter_agree {A} (P Q : A → Prop) `{∀ x, Decision (P x), ∀ x, Decision (Q x)} (l : list A) :
  (∀ x, x ∈ l → P x ↔ Q x) → filter P l = filter Q l.
Proof.
  induction l as [|x l IH]; intros F; [done|]. rewrite !filter_cons, IH by (intros y Hy; apply F; now right).
  destruct (F x) as [PQ QP]; [now left|]. do 2 destruct (decide _); tauto || done.
Qed.

(** The unexpired sessions, oldest first. *)
Definition live (now : Z) (c : TlcpSessionCache) : list bytes :=
  filter (λ i, match sessions c !! i with Some t => negb (is_expired now t) | None => false end = true) (insertion_order c).

Lemma evict_expired_order now c : cache_inv c → insertion_order (evict_expired now c) = live now c.
Proof.
  intros [_ M]. cbn. unfold live. apply filter_agree. intros i Hi. apply M in Hi as [t L]. rewrite L.
  rewrite map_lookup_filter_None. destruct (is_expired now t) eqn:X; cbn; split; try done; [|right; intros t' L'; cbn; congruence].
  intros [E|E]; [congruence|]. exfalso. now apply (E t).
Qed.

Lemma evict_expired_live now c : cache_inv c → cache_len (evict_expired now c) = Z.of_nat (length (live now c)).
Proof. intros I. unfold cache_len. now rewrite (cache_inv_size _ (evict_expired_inv now c I)), evict_expired_order. Qed.

(** What is left of a cache when a session is about to be stored. *)
Lemma after_eviction_order now c : cache_inv c →
  insertion_order (after_eviction now c) = if max_entries c <=? Z.of_nat (length (live now c)) then tail (live now c) else live now c.
Proof.
  intros I. pose proof (evict_expired_live now c I) as S. pose proof (evict_expired_order now c I) as O. unfold cache_len in S.
  unfold after_eviction, evict_oldest. cbv zeta. change (max_entries (evict_expired now c)) with (max_entries c). rewrite S, O.
  destruct (_ <=? _); [|exact O]. destruct (live now c); [exact O|done].
Qed.

Lemma after_eviction_lookup now c i t : cache_inv c →
  sessions (after_eviction now c) !! i = Some t ↔
  sessions c !! i = Some t ∧ is_expired now t = false ∧ ¬ (max_entries c ≤ Z.of_nat (length (live now c)) ∧ head (live now c) = Some i).
Proof.
  intros I. assert (E : sessions (evict_expired now c) !! i = Some t ↔ sessions c !! i = Some t ∧ is_expired now t = false).
  { rewrite evict_expired_lookup. destruct (sessions c !! i) as [t'|]; [destruct (is_expired now t') eqn:X|]; naive_solver congruence. }
  pose proof (evict_expired_live now c I) as S. pose proof (evict_expired_order now c I) as O. unfold cache_len in S.
  unfold after_eviction, evict_oldest. cbv zeta. change (max_entries (evict_expired now c)) with (max_entries c). rewrite S, O.
  destruct (Z.leb_spec (max_entries c) (Z.of_nat (length (live now c)))); [|rewrite E; intuition lia].
  destruct (live now c) as [|x l]; cbn [sessions head]; [rewrite E; naive_solver|].
  rewrite lookup_delete_Some, E. naive_solver.
Qed.

Lemma put_order now id s c : cache_inv c → insertion_order (put now id s c) = retain_ne id (insertion_order (after_eviction now c)) ++ [id].
Proof.
  intros I. rewrite put_eq. cbn [insertion_order]. f_equal. destruct (after_eviction_inv now c I) as [_ M].
  destruct (sessions (after_eviction now c) !! id) eqn:L; [done|]. symmetry. apply filter_all_true. intros i Hi ->.
  apply M in Hi. rewrite L in Hi. now destruct Hi.
Qed.

(** *** Retention *)

(** [o] neither stores nor removes [id], and comes while [s] has not expired. *)
Definition spares (id : bytes) (s : TlcpResumedSession) (o : cache_op) : Prop :=
  match o with
  | OpPut now i _ => i ≠ id ∧ is_expired now s = false
  | OpGet now i => i = id → is_expired now s = false
  | OpRemove i => i ≠ id
  end.

Definition is_put (o : cache_op) : bool := match o with OpPut _ _ _ => true | _ => false end.
Definition puts (os : list cache_op) : Z := Z.of_nat (length (filter (λ o, is_put o = true) os)).

(** [id] is cached with at most [k] younger sessions. *)
Definition kept (n : Z) (id : bytes) (s : TlcpResumedSession) (k : Z) (c : TlcpSessionCache) : Prop :=
  cache_inv c ∧ max_entries c = n ∧ sessions c !! id = Some s ∧
  ∃ l1 l2, insertion_order c = l1 ++ id :: l2 ∧ Z.of_nat (length l2) ≤ k.

Lemma filter_around {A} (P : A → Prop) `{∀ x, Decision (P x)} (x : A) l1 l2 : P x →
  filter P (l1 ++ x :: l2) = filter P l1 ++ x :: filter P l2.
Proof. intros Px. now rewrite filter_app, filter_cons_True. Qed.

Lemma kept_filter {A} (P : A → Prop) `{∀ x, Decision (P x)} (l : list A) k : Z.of_nat (length l) ≤ k → Z.of_nat (length (filter P l)) ≤ k.
Proof. pose proof (length_filter P l). lia. Qed.

Lemma kept_put n id s k now i t c : kept n id s k c → k + 1 < n → i ≠ id → is_expired now s = false → kept n id s (k + 1) (put now i t c).
Proof.
  intros (I & Mx & L & l1 & l2 & O & B) K Ne X. split; [now apply put_inv|]. split; [rewrite put_eq; cbn; now rewrite after_eviction_max|].
  set (P := λ j, match sessions c !! j with Some t => negb (is_expired now t) | None => false end = true).
  assert (Lv : live now c = filter P l1 ++ id :: filter P l2) by (unfold live; rewrite O; apply filter_around; unfold P; now rewrite L, X).
  pose proof (kept_filter P l2 k B) as B'.
  assert (T : ∃ l1', insertion_order (after_eviction now c) = l1' ++ id :: filter P l2).
  { rewrite after_eviction_order, Lv, Mx by done. destruct (Z.leb_spec n (Z.of_nat (length (filter P l1 ++ id :: filter P l2)))) as [F|F]; [|eauto].
    destruct (filter P l1) as [|x l1']; cbn [app tail]; [|eauto]. cbn [app length] in F. lia. }
  destruct T as [l1' T]. split.
  - rewrite put_eq. cbn [sessions]. rewrite lookup_insert_ne by done. apply after_eviction_lookup; [done|]. split; [done|]. split; [done|].
    rewrite Mx, Lv. intros [F Hd]. destruct (filter P l1) as [|x l]; cbn [app length head] in F, Hd; [lia|].
    injection Hd as ->. destruct (evict_expired_inv now c I) as [N _]. rewrite evict_expired_order, Lv in N by done.
    cbn [app] in N. apply NoDup_cons in N as [N _]. apply N, elem_of_app. right. now left.
  - rewrite put_order, T by done. unfold retain_ne. rewrite filter_around by done. rewrite <- app_assoc. do 2 eexists. split; [reflexivity|].
    rewrite length_app. cbn [length]. pose proof (length_filter (λ j, j ≠ i) (filter P l2)). lia.
Qed.

Lemma kept_remove n id s k i c : kept n id s k c → i ≠ id → kept n id s k (remove i c).
Proof.
  intros (I & Mx & L & l1 & l2 & O & B) Ne. split; [now apply retain_ne_inv|]. split; [done|]. cbn. rewrite lookup_delete_ne by done. split; [done|].
  unfold retain_ne. rewrite O, filter_around by done. do 2 eexists. split; [reflexivity|]. now apply kept_filter.
Qed.

Lemma kept_run n id s os k c : kept n id s k c → Forall (spares id s) os → k + puts os < n → ∃ k', kept n id s k' (fold_left cache_step os c).
Proof.
  revert k c. induction os as [|o os IH]; intros k c K F B; [eauto|]. apply Forall_cons in F as [S F]. cbn [fold_left].
  unfold puts in *. destruct o as [now i t|now i|i].
  - rewrite filter_cons_True in B by done. cbn [length] in B. destruct S as [Ne X].
    apply (IH (k + 1)); [apply kept_put; [done|lia|done..]|done|lia].
  - rewrite filter_cons_False in B by done. apply (IH k); [|done..]. cbn [cache_step]. unfold get.
    destruct (sessions c !! i) as [t|] eqn:L; [destruct (is_expired now t) eqn:X|]; cbn [snd]; [|done..].
    apply kept_remove; [done|]. intros ->. cbn in S. destruct K as (_ & _ & L' & _). rewrite L' in L. injection L as <-. rewrite S in X; done.
  - rewrite filter_cons_False in B by done. apply (IH k); [now apply kept_remove|done..].
Qed.

(** C36. The session cache keeps its bookkeeping through every sequence of
    operations: the insertion order lists exactly the cached ids, each once, and
    at most max(1, capacity) sessions are cached (so a capacity of 0 still keeps
    one). [get] returns a session exactly when it is cached and has not expired.
    [put] makes its session the newest and keeps exactly those of the others that
    have not expired, except the oldest of these when they fill the cache, also when
    the id being stored is among them; their order is kept. So a session
    that was stored is returned for as long as it has not expired and neither is
    replaced nor removed, through any operations among which fewer than [n] store
    a session, [n] being the capacity. *)
Theorem session_cache_correct (n now : Z) (c : TlcpSessionCache) (id : bytes) (s : TlcpResumedSession) :
  reachable n c →
  NoDup (insertion_order c) ∧ (∀ i, i ∈ insertion_order c ↔ is_Some (sessions c !! i)) ∧
  cache_len c ≤ Z.max 1 n ∧
  (∀ t, (get now id c).1 = Some t ↔ sessions c !! id = Some t ∧ is_expired now t = false) ∧
  sessions (put now id s c) !! id = Some s ∧
  (∀ i t, i ≠ id → sessions (put now id s c) !! i = Some t ↔
     sessions c !! i = Some t ∧ is_expired now t = false ∧ ¬ (n ≤ Z.of_nat (length (live now c)) ∧ head (live now c) = Some i)) ∧
  insertion_order (put now id s c) = retain_ne id (if n <=? Z.of_nat (length (live now c)) then tail (live now c) else live now c) ++ [id] ∧
  (∀ os later, Forall (spares id s) os → puts os < n → is_expired later s = false →
     (get later id (fold_left cache_step os (put now id s c))).1 = Some s).
Proof.
  intros R. destruct (reachable_inv n c R) as (I & B & Mx). split; [apply I|]. split; [apply I|]. split; [done|].
  split; [|split; [|split; [|split]]].
  - intros t. unfold get. destruct (sessions c !! id) as [t'|]; [destruct (is_expired now t') eqn:X|]; naive_solver congruence.
  - rewrite put_eq. cbn. apply lookup_insert_eq.
  - intros i t Ne. rewrite put_eq. cbn [sessions]. rewrite lookup_insert_ne, <- Mx by done. now apply after_eviction_lookup.
  - rewrite put_order, after_eviction_order by done. now rewrite Mx.
  - intros os later F P X. destruct (kept_run n id s os 0 (put now id s c)) as (k & _ & _ & L & _); [|done|done|unfold get; now rewrite L, X].
    split; [now apply put_inv|]. split; [rewrite put_eq; cbn; now rewrite after_eviction_max|]. split; [rewrite put_eq; cbn; apply lookup_insert_eq|].
    rewrite put_order by done. do 2 eexists. split; [reflexivity|]. done.
Qed.

Definition sample_session (k : Z) : TlcpResumedSession := resumed_session_new 0 [k] TLS_ECC_SM4_GCM_SM3 [] [].

Lemma session_cache_correct_witness :
  (get 9 [1] (fold_left cache_step [OpPut 6 [2] (sample_session 2); OpGet 7 [1]] (put 5 [1] (sample_session 9) (put 1 [3] (sample_session 1) (with_capacity 2))))).1
    = Some (sample_session 9).
Proof.
  apply (session_cache_correct 2 5 (put 1 [3] (sample_session 1) (with_capacity 2)) [1] (sample_session 9)).
  - apply (reach_step 2 _ (OpPut 1 [3] (sample_session 1))), reach_new.
  - repeat constructor; done.
  - reflexivity.
  - reflexivity.
Defined.
