(* ===== verification/TlcpHandshake.v ===== *)
(** TLCP handshake contexts (gm-tlcp/src/tlcp/handshake/{state, client,
    server}.rs): the client and the server side of a handshake as state records
    with one definition per method. A fallible method that mutates its context
    returns the context it leaves behind with its result.

    The random generator, the wall clock and the monotonic clock are arguments.
    The SM9 fields of the contexts (deferred IBSDH exchange) are set and read
    only by the connector and are left out. A PRF that would not return counts as
    a panic. *)

From Stdlib Require Import String Bool ZArith Lia List.
From stdpp Require Import base gmap list fin_maps.
From S2P Require Import Prelude Bytes Sm4 Sm3 Tlcp TlcpKeys TlcpMessages TlcpSession.
Open Scope Z_scope.

Inductive TlcpHandshakeState : Type :=
| Idle
| HelloSent
| ServerCertsReceived
| KeyExchange
| WaitFinished
| Established
| Failed.

#[global] Instance state_eq_dec : EqDecision TlcpHandshakeState.
Proof. solve_decision. Defined.

Definition debug_state (s : TlcpHandshakeState) : string :=
  match s with
  | Idle => "Idle"
  | HelloSent => "HelloSent"
  | ServerCertsReceived => "ServerCertsReceived"
  | KeyExchange => "KeyExchange"
  | WaitFinished => "WaitFinished"
  | Established => "Established"
  | Failed => "Failed"
  end%string.

Definition run {A : Type} (o : option (outcome TlcpError A)) : outcome TlcpError A :=
  match o with Some o => o | None => Panic end.

Definition ok_or {A : Type} (o : option A) (e : TlcpError) : outcome TlcpError A :=
  match o with Some a => Ok a | None => Err e end.

Definition unsupported_version (v : bytes) : TlcpError :=
  InvalidMessage ("Unsupported TLCP version: " +++ hex_pair hex02l v)%string.

Section Handshake.
Context {H : Sm3Crate}.

(** ** Client *)

Record TlcpHandshake : Type := {
  c_state : TlcpHandshakeState;
  c_cipher_suite : option bytes;
  c_client_random : bytes;
  c_server_random : option bytes;
  c_server_certs : option TlcpCertPair;
  c_pre_master_secret : option bytes;
  c_master_secret : option bytes;
  c_session_id : bytes;
  c_is_resumed : bool;
  c_resumed_session : option TlcpResumedSession;
  c_transcript : bytes;
  c_cipher_suites : list bytes
}.

Definition new_client (random : bytes) : TlcpHandshake :=
  {| c_state := Idle; c_cipher_suite := None; c_client_random := random; c_server_random := None;
     c_server_certs := None; c_pre_master_secret := None; c_master_secret := None; c_session_id := [];
     c_is_resumed := false; c_resumed_session := None; c_transcript := []; c_cipher_suites := default_suites |}.

(** [session.server_random[..16]] panics on a shorter random. *)
Definition new_client_with_session (random : bytes) (session : TlcpResumedSession) : outcome TlcpError TlcpHandshake :=
  session_id <- slice_to (rs_server_random session) 16 ;;
  Ok {| c_state := Idle; c_cipher_suite := Some (rs_cipher_suite session); c_client_random := random;
        c_server_random := Some (rs_server_random session); c_server_certs := None; c_pre_master_secret := None;
        c_master_secret := Some (rs_master_secret session); c_session_id := session_id; c_is_resumed := false;
        c_resumed_session := Some session; c_transcript := []; c_cipher_suites := default_suites |}.

Definition create_client_hello (c : TlcpHandshake) : TlcpHandshake * TlcpClientHello :=
  ({| c_state := HelloSent; c_cipher_suite := c_cipher_suite c; c_client_random := c_client_random c;
      c_server_random := c_server_random c; c_server_certs := c_server_certs c;
      c_pre_master_secret := c_pre_master_secret c; c_master_secret := c_master_secret c;
      c_session_id := c_session_id c; c_is_resumed := c_is_resumed c; c_resumed_session := c_resumed_session c;
      c_transcript := c_transcript c; c_cipher_suites := c_cipher_suites c |},
   {| ch_version := TLCP_VERSION_1_0; ch_random := c_client_random c; ch_session_id := c_session_id c;
      ch_cipher_suites := c_cipher_suites c; ch_compression_methods := [0x00] |}).

Definition process_server_hello (c : TlcpHandshake) (hello : TlcpServerHello) : TlcpHandshake * outcome TlcpError unit :=
  if negb (bool_decide (c_state c = HelloSent)) then (c, Err (InvalidHandshakeType 0x02))
  else if negb (bytes_eqb (sh_version hello) TLCP_VERSION_1_0) then (c, Err (unsupported_version (sh_version hello)))
  else
    let resumed := negb (len (c_session_id c) =? 0) && bytes_eqb (sh_session_id hello) (c_session_id c) in
    ({| c_state := c_state c; c_cipher_suite := Some (sh_cipher_suite hello); c_client_random := c_client_random c;
        c_server_random := Some (sh_random hello); c_server_certs := c_server_certs c;
        c_pre_master_secret := c_pre_master_secret c; c_master_secret := c_master_secret c;
        c_session_id := if resumed then c_session_id c else sh_session_id hello;
        c_is_resumed := resumed; c_resumed_session := c_resumed_session c;
        c_transcript := c_transcript c; c_cipher_suites := c_cipher_suites c |}, Ok tt).

Definition process_server_certs (c : TlcpHandshake) (certs : TlcpCertPair) : TlcpHandshake * outcome TlcpError unit :=
  if negb (bool_decide (c_state c = HelloSent)) then (c, Err (InvalidHandshakeType 0x0B))
  else
    ({| c_state := ServerCertsReceived; c_cipher_suite := c_cipher_suite c; c_client_random := c_client_random c;
        c_server_random := c_server_random c; c_server_certs := Some certs;
        c_pre_master_secret := c_pre_master_secret c; c_master_secret := c_master_secret c;
        c_session_id := c_session_id c; c_is_resumed := c_is_resumed c; c_resumed_session := c_resumed_session c;
        c_transcript := c_transcript c; c_cipher_suites := c_cipher_suites c |}, Ok tt).

(** The connector assigns the public field. *)
Definition set_pre_master_secret (c : TlcpHandshake) (pms : bytes) : TlcpHandshake :=
  {| c_state := c_state c; c_cipher_suite := c_cipher_suite c; c_client_random := c_client_random c;
     c_server_random := c_server_random c; c_server_certs := c_server_certs c;
     c_pre_master_secret := Some pms; c_master_secret := c_master_secret c;
     c_session_id := c_session_id c; c_is_resumed := c_is_resumed c; c_resumed_session := c_resumed_session c;
     c_transcript := c_transcript c; c_cipher_suites := c_cipher_suites c |}.

Definition set_client_transcript (c : TlcpHandshake) (t : bytes) : TlcpHandshake :=
  {| c_state := c_state c; c_cipher_suite := c_cipher_suite c; c_client_random := c_client_random c;
     c_server_random := c_server_random c; c_server_certs := c_server_certs c;
     c_pre_master_secret := c_pre_master_secret c; c_master_secret := c_master_secret c;
     c_session_id := c_session_id c; c_is_resumed := c_is_resumed c; c_resumed_session := c_resumed_session c;
     c_transcript := t; c_cipher_suites := c_cipher_suites c |}.

Definition master_of (pms cr sr : bytes) : outcome TlcpError bytes :=
  map_err (fun e => HandshakeFailed (display_tlcp e)) (run (prf_expand pms (bytes_of "master secret") (cr ++ sr) 48)).

Definition derive_master_secret (c : TlcpHandshake) : TlcpHandshake * outcome TlcpError unit :=
  if negb (bool_decide (c_state c = ServerCertsReceived) || bool_decide (c_state c = KeyExchange)) then
    (c, Err (InvalidState ("derive_master_secret requires ServerCertsReceived or KeyExchange state, got " +++
               debug_state (c_state c))%string))
  else
    match
      pms <- ok_or (c_pre_master_secret c) (HandshakeFailed "No pre-master secret") ;;
      sr <- ok_or (c_server_random c) (HandshakeFailed "No server random") ;;
      master_of pms (c_client_random c) sr
    with
    | Ok master =>
        ({| c_state := c_state c; c_cipher_suite := c_cipher_suite c; c_client_random := c_client_random c;
            c_server_random := c_server_random c; c_server_certs := c_server_certs c;
            c_pre_master_secret := None; c_master_secret := Some master;
            c_session_id := c_session_id c; c_is_resumed := c_is_resumed c; c_resumed_session := c_resumed_session c;
            c_transcript := c_transcript c; c_cipher_suites := c_cipher_suites c |}, Ok tt)
    | Err e => (c, Err e)
    | Panic => (c, Panic)
    end.

Definition client_to_resumed_session (now : Z) (c : TlcpHandshake) : option TlcpResumedSession :=
  match c_master_secret c, c_cipher_suite c, c_server_random c with
  | Some master, Some suite_id, Some sr => Some (resumed_session_new now master suite_id sr (c_client_random c))
  | _, _, _ => None
  end.

Definition finished_of (master : option bytes) (label : string) (transcript : bytes) : outcome TlcpError TlcpFinished :=
  m <- ok_or master (HandshakeFailed "No master secret") ;; run (finished_compute m label transcript).

Definition client_compute_client_finished (c : TlcpHandshake) : outcome TlcpError TlcpFinished :=
  finished_of (c_master_secret c) "client finished" (c_transcript c).
Definition client_compute_server_finished (c : TlcpHandshake) : outcome TlcpError TlcpFinished :=
  finished_of (c_master_secret c) "server finished" (c_transcript c).
Definition verify_server_finished (c : TlcpHandshake) (f : TlcpFinished) : outcome TlcpError bool :=
  expected <- client_compute_server_finished c ;; Ok (finished_verify f (verify_data expected)).

Definition derive_resumed_keys (c : TlcpHandshake) : outcome TlcpError SessionKeys :=
  _ <- ok_or (c_resumed_session c) (InvalidState "No resumed session") ;;
  id <- ok_or (c_cipher_suite c) (InvalidState "No cipher suite") ;;
  suite <- ok_or (from_id id) (InvalidMessage "Unknown cipher suite") ;;
  master <- ok_or (c_master_secret c) (InvalidState "No master secret") ;;
  sr <- ok_or (c_server_random c) (InvalidState "No server random") ;;
  km <- run (derive master (c_client_random c) sr suite) ;;
  to_session_keys km.

(** ** Server *)

Record TlcpServerHandshake : Type := {
  s_state : TlcpHandshakeState;
  s_cipher_suite : option TlcpCipherSuite;
  s_server_random : bytes;
  s_client_random : option bytes;
  s_server_certs : option TlcpCertPair;
  s_client_certs : list bytes;
  s_pre_master_secret : option bytes;
  s_master_secret : option bytes;
  s_transcript : bytes;
  s_session_id : bytes;
  s_is_resumed : bool;
  s_resumed_session : option TlcpResumedSession;
  s_session_cache : option TlcpSessionCache
}.

Definition server_context (gmt : Z) (rnd : bytes) (cache : option TlcpSessionCache) : TlcpServerHandshake :=
  {| s_state := Idle; s_cipher_suite := None; s_server_random := be_bytes 4 (as_u32 gmt) ++ rnd;
     s_client_random := None; s_server_certs := None; s_client_certs := []; s_pre_master_secret := None;
     s_master_secret := None; s_transcript := []; s_session_id := []; s_is_resumed := false;
     s_resumed_session := None; s_session_cache := cache |}.
Definition server_new (gmt : Z) (rnd : bytes) : TlcpServerHandshake := server_context gmt rnd None.
Definition with_session_cache (gmt : Z) (rnd : bytes) (cache : TlcpSessionCache) : TlcpServerHandshake :=
  server_context gmt rnd (Some cache).

(** The fields [process_client_hello] and its callers assign, the others kept. *)
Definition s_with (s : TlcpServerHandshake) (st : TlcpHandshakeState) (suite : option TlcpCipherSuite)
    (cr : option bytes) (sid : bytes) (resumed : bool) (rs : option TlcpResumedSession)
    (cache : option TlcpSessionCache) (transcript : bytes) : TlcpServerHandshake :=
  {| s_state := st; s_cipher_suite := suite; s_server_random := s_server_random s; s_client_random := cr;
     s_server_certs := s_server_certs s; s_client_certs := s_client_certs s;
     s_pre_master_secret := s_pre_master_secret s; s_master_secret := s_master_secret s;
     s_transcript := transcript; s_session_id := sid; s_is_resumed := resumed;
     s_resumed_session := rs; s_session_cache := cache |}.

Fixpoint find_suite (ids : list bytes) : option TlcpCipherSuite :=
  match ids with
  | [] => None
  | id :: ids => match from_id id with Some s => Some s | None => find_suite ids end
  end.

(** The cached session of a hello: looked up when the hello names one and the
    server has a cache, used when its suite is offered. *)
Definition lookup_session (now : Z) (s : TlcpServerHandshake) (hello : TlcpClientHello)
    : option TlcpResumedSession * option TlcpSessionCache :=
  if len (ch_session_id hello) =? 0 then (None, s_session_cache s)
  else
    match s_session_cache s with
    | None => (None, None)
    | Some cache =>
        let '(found, cache) := get now (ch_session_id hello) cache in
        match found with
        | Some session =>
            if existsb (bytes_eqb (rs_cipher_suite session)) (ch_cipher_suites hello)
            then (Some session, Some cache) else (None, Some cache)
        | None => (None, Some cache)
        end
    end.

Definition process_client_hello (now : Z) (fresh_id : bytes) (s : TlcpServerHandshake) (hello : TlcpClientHello)
    : TlcpServerHandshake * outcome TlcpError unit :=
  if negb (bool_decide (s_state s = Idle)) then
    (s, Err (InvalidState ("Expected Idle state, got " +++ debug_state (s_state s))%string))
  else if negb (bytes_eqb (ch_version hello) TLCP_VERSION_1_0) then (s, Err (unsupported_version (ch_version hello)))
  else
    let cr := Some (ch_random hello) in
    let '(found, cache) := lookup_session now s hello in
    match found with
    | Some session =>
        match from_id (rs_cipher_suite session) with
        | None =>
            (s_with s (s_state s) (s_cipher_suite s) cr (ch_session_id hello) true (Some session) cache (s_transcript s),
             Err (HandshakeFailed "cached session has unsupported cipher suite"))
        | Some suite =>
            (s_with s HelloSent (Some suite) cr (ch_session_id hello) true (Some session) cache
               (s_transcript s ++ client_hello_to_bytes hello), Ok tt)
        end
    | None =>
        match find_suite (ch_cipher_suites hello) with
        | None =>
            (s_with s (s_state s) (s_cipher_suite s) cr fresh_id (s_is_resumed s) (s_resumed_session s) cache
               (s_transcript s),
             Err (HandshakeFailed "No supported cipher suite"))
        | Some suite =>
            (s_with s HelloSent (Some suite) cr fresh_id (s_is_resumed s) (s_resumed_session s) cache
               (s_transcript s ++ client_hello_to_bytes hello), Ok tt)
        end
    end.

Definition create_server_hello (s : TlcpServerHandshake) : outcome TlcpError TlcpServerHello :=
  guard (negb (bool_decide (s_state s = HelloSent))) (InvalidState "Not in HelloSent state")
  (suite <- ok_or (s_cipher_suite s) (HandshakeFailed "No cipher suite selected") ;;
   Ok {| sh_version := TLCP_VERSION_1_0; sh_random := s_server_random s; sh_session_id := s_session_id s;
         sh_cipher_suite := suite_id suite; sh_compression_method := 0x00 |}).

Definition set_server_certs (s : TlcpServerHandshake) (certs : TlcpCertPair) : TlcpServerHandshake :=
  {| s_state := s_state s; s_cipher_suite := s_cipher_suite s; s_server_random := s_server_random s;
     s_client_random := s_client_random s; s_server_certs := Some certs; s_client_certs := s_client_certs s;
     s_pre_master_secret := s_pre_master_secret s; s_master_secret := s_master_secret s;
     s_transcript := s_transcript s; s_session_id := s_session_id s; s_is_resumed := s_is_resumed s;
     s_resumed_session := s_resumed_session s; s_session_cache := s_session_cache s |}.

Definition set_client_certs (s : TlcpServerHandshake) (chain : list bytes) : TlcpServerHandshake :=
  {| s_state := s_state s; s_cipher_suite := s_cipher_suite s; s_server_random := s_server_random s;
     s_client_random := s_client_random s; s_server_certs := s_server_certs s; s_client_certs := chain;
     s_pre_master_secret := s_pre_master_secret s; s_master_secret := s_master_secret s;
     s_transcript := s_transcript s; s_session_id := s_session_id s; s_is_resumed := s_is_resumed s;
     s_resumed_session := s_resumed_session s; s_session_cache := s_session_cache s |}.

Definition s_keyed (s : TlcpServerHandshake) (st : TlcpHandshakeState) (pms master : option bytes) (t : bytes)
    : TlcpServerHandshake :=
  {| s_state := st; s_cipher_suite := s_cipher_suite s; s_server_random := s_server_random s;
     s_client_random := s_client_random s; s_server_certs := s_server_certs s; s_client_certs := s_client_certs s;
     s_pre_master_secret := pms; s_master_secret := master; s_transcript := t; s_session_id := s_session_id s;
     s_is_resumed := s_is_resumed s; s_resumed_session := s_resumed_session s; s_session_cache := s_session_cache s |}.

Definition complete_key_exchange (s : TlcpServerHandshake) (pre_master_secret : bytes)
    : TlcpServerHandshake * outcome TlcpError unit :=
  if negb (bool_decide (s_state s = HelloSent) || bool_decide (s_state s = KeyExchange)) then
    (s, Err (InvalidState ("complete_key_exchange requires HelloSent or KeyExchange state, got " +++
               debug_state (s_state s))%string))
  else
    match
      cr <- ok_or (s_client_random s) (HandshakeFailed "No client random") ;;
      master_of pre_master_secret cr (s_server_random s)
    with
    | Ok master => (s_keyed s KeyExchange None (Some master) (s_transcript s), Ok tt)
    | Err e => (s, Err e)
    | Panic => (s, Panic)
    end.

Definition derive_key_material (s : TlcpServerHandshake) : outcome TlcpError TlcpKeyMaterial :=
  master <- ok_or (s_master_secret s) (HandshakeFailed "No master secret") ;;
  cr <- ok_or (s_client_random s) (HandshakeFailed "No client random") ;;
  suite <- ok_or (s_cipher_suite s) (HandshakeFailed "No cipher suite") ;;
  run (derive master cr (s_server_random s) suite).

Definition server_compute_server_finished (s : TlcpServerHandshake) : outcome TlcpError TlcpFinished :=
  finished_of (s_master_secret s) "server finished" (s_transcript s).
Definition verify_client_finished (s : TlcpServerHandshake) (f : TlcpFinished) : outcome TlcpError bool :=
  expected <- finished_of (s_master_secret s) "client finished" (s_transcript s) ;;
  Ok (finished_verify f (verify_data expected)).

Definition establish (s : TlcpServerHandshake) : TlcpServerHandshake :=
  s_keyed s Established (s_pre_master_secret s) (s_master_secret s) (s_transcript s).
Definition is_established (s : TlcpServerHandshake) : bool := bool_decide (s_state s = Established).

Definition server_to_resumed_session (now : Z) (s : TlcpServerHandshake) : option TlcpResumedSession :=
  match s_master_secret s, s_cipher_suite s, s_client_random s with
  | Some master, Some suite, Some cr => Some (resumed_session_new now master (suite_id suite) (s_server_random s) cr)
  | _, _, _ => None
  end.

(** [save_session] and [cache_session]: the cache after storing the session. *)
Definition save_session (now : Z) (s : TlcpServerHandshake) : option TlcpSessionCache :=
  match s_session_cache s with
  | None => None
  | Some cache =>
      if len (s_session_id s) =? 0 then Some cache
      else
        match s_master_secret s, s_cipher_suite s, s_client_random s with
        | Some master, Some suite, Some cr =>
            Some (put now (s_session_id s) (resumed_session_new now master (suite_id suite) (s_server_random s) cr) cache)
        | _, _, _ => Some cache
        end
  end.

Definition cache_session (now : Z) (s : TlcpServerHandshake) : option TlcpSessionCache :=
  match s_session_cache s with
  | None => None
  | Some cache =>
      if len (s_session_id s) =? 0 then Some cache
      else
        match server_to_resumed_session now s with
        | Some session => Some (put now (s_session_id s) session cache)
        | None => Some cache
        end
  end.
End Handshake.

(** ** An honest run

    Both sides in the order the connector and the acceptor call them: hellos over
    the wire, certificates, the same pre-master secret, key derivation, and the
    Finished messages over a common transcript [t]. *)
Section Run.
Context {H : Sm3Crate}.

Definition with_suites (c : TlcpHandshake) (ss : list bytes) : TlcpHandshake :=
  {| c_state := c_state c; c_cipher_suite := c_cipher_suite c; c_client_random := c_client_random c;
     c_server_random := c_server_random c; c_server_certs := c_server_certs c;
     c_pre_master_secret := c_pre_master_secret c; c_master_secret := c_master_secret c;
     c_session_id := c_session_id c; c_is_resumed := c_is_resumed c; c_resumed_session := c_resumed_session c;
     c_transcript := c_transcript c; c_cipher_suites := ss |}.

(** A mutating method inside [outcome]. *)
Definition then_ {S A : Type} (p : S * outcome TlcpError A) : outcome TlcpError S :=
  _ <- snd p ;; Ok (fst p).

Definition receive (t : HandshakeType) (wire : bytes) : outcome TlcpError bytes :=
  m <- parse_handshake_message wire ;; Ok (snd (fst m)).

Definition exchange_hellos (now : Z) (sid : bytes) (c : TlcpHandshake) (s : TlcpServerHandshake)
    : outcome TlcpError (TlcpHandshake * TlcpServerHandshake) :=
  let '(c, ch) := create_client_hello c in
  body <- receive ClientHello (client_hello_to_bytes ch) ;;
  ch' <- client_hello_from_body body ;;
  s <- then_ (process_client_hello now sid s ch') ;;
  sh <- create_server_hello s ;;
  body <- receive ServerHello (server_hello_to_bytes sh) ;;
  sh' <- server_hello_from_bytes body ;;
  c <- then_ (process_server_hello c sh') ;;
  Ok (c, s).

Definition exchange_keys (certs : TlcpCertPair) (pms : bytes) (c : TlcpHandshake) (s : TlcpServerHandshake)
    : outcome TlcpError (TlcpHandshake * TlcpServerHandshake) :=
  let s := set_server_certs s certs in
  c <- then_ (process_server_certs c certs) ;;
  c <- then_ (derive_master_secret (set_pre_master_secret c pms)) ;;
  s <- then_ (complete_key_exchange s pms) ;;
  Ok (c, s).

Definition exchange_finished (t : bytes) (c : TlcpHandshake) (s : TlcpServerHandshake)
    : outcome TlcpError (TlcpHandshake * TlcpServerHandshake * bool * bool) :=
  let c := set_client_transcript c t in
  let s := s_keyed s (s_state s) (s_pre_master_secret s) (s_master_secret s) t in
  cf <- client_compute_client_finished c ;;
  cf' <- (body <- receive Finished (finished_to_bytes cf) ;; finished_from_body body) ;;
  client_ok <- verify_client_finished s cf' ;;
  sf <- server_compute_server_finished s ;;
  sf' <- (body <- receive Finished (finished_to_bytes sf) ;; finished_from_body body) ;;
  server_ok <- verify_server_finished c sf' ;;
  Ok (c, establish s, client_ok, server_ok).

Definition honest_handshake (now gmt : Z) (rc rnd sid pms t : bytes) (ss : list bytes) (certs : TlcpCertPair)
    : outcome TlcpError (TlcpHandshake * TlcpServerHandshake * bool * bool) :=
  '(c, s) <- exchange_hellos now sid (with_suites (new_client rc) ss) (server_new gmt rnd) ;;
  '(c, s) <- exchange_keys certs pms c s ;;
  exchange_finished t c s.
End Run.

(** ** Lemmas *)

Lemma receive_message t body : len body < 2 ^ 24 -> receive t (hs_message t body) = Ok body.
Proof.
  intros B. unfold receive. rewrite <- (app_nil_r (hs_message t body)), parse_message by exact B. reflexivity.
Qed.

Section Lemmas.
Context {H : Sm3Crate} {L : Sm3Laws H}.

Lemma master_of_ok pms cr sr : master_of pms cr sr = Ok (prf_ref pms (bytes_of "master secret") (cr ++ sr) 48).
Proof. unfold master_of. rewrite prf_expand_ok by (unfold MAX_PRF_OUTPUT; lia). reflexivity. Qed.

Lemma finished_ok m label t : exists v, run (finished_compute m label t) = Ok {| verify_data := v |} /\ len v = 12.
Proof.
  unfold finished_compute. cbn [Sm3Hasher_hash map_err]. rewrite prf_expand_ok by (unfold MAX_PRF_OUTPUT; lia).
  cbn [and_then run]. destruct (prf_ref_shape m (bytes_of label) (sm3 t) 12) as [Ln _]; [lia|].
  rewrite slice_to_ok by lia. cbn [bind]. eexists. split; [reflexivity|]. apply len_firstn. lia.
Qed.

(** A Finished message survives the wire and verifies. *)
Lemma finished_wire v : len v = 12 ->
  (body <- receive Finished (finished_to_bytes {| verify_data := v |}) ;; finished_from_body body) = Ok {| verify_data := v |}.
Proof.
  intros Ln. replace (finished_to_bytes {| verify_data := v |}) with (hs_message Finished v)
    by (unfold hs_message; rewrite Ln; reflexivity).
  rewrite receive_message by lia. cbn [bind]. unfold finished_from_body. rewrite Ln. cbn [Z.eqb Pos.eqb negb guard].
  rewrite slice_to_ok by lia. cbn [bind]. do 2 f_equal. apply firstn_all2. unfold len in Ln. lia.
Qed.

Lemma find_suite_some ss s : find_suite ss = Some s -> In s all_suites /\ In (suite_id s) ss.
Proof.
  induction ss as [|i ss IH]; [discriminate|]. cbn [find_suite]. destruct (from_id i) as [s'|] eqn:E.
  - intros X. injection X as ->. apply from_id_some in E as [I <-]. split; [exact I|now left].
  - intros X. destruct (IH X). split; [assumption|now right].
Qed.

Lemma known_suite_id s : In s all_suites -> known_suite (suite_id s) = true.
Proof. intros I. repeat (destruct I as [<-|I]; [reflexivity|]). destruct I. Qed.

Lemma client_body_small h : client_hello_wf h = true -> len (client_hello_body h) < 2 ^ 24.
Proof.
  unfold client_hello_wf. rewrite !andb_true_iff. intros ((((((Hv & Hr) & Hs) & Hc) & Hn) & Hcm) & Hm). bool_to_prop.
  unfold client_hello_body. rewrite !len_app, !len_be_bytes.
  assert (Lc : len (concat (ch_cipher_suites h)) = 2 * len (ch_cipher_suites h)).
  { clear - Hc. induction (ch_cipher_suites h) as [|s l IH]; [reflexivity|]. cbn [forallb concat] in *.
    bool_to_prop. rewrite len_app, len_cons, IH by assumption. lia. }
  rewrite Lc, !len_cons, !len_nil. lia.
Qed.

Lemma server_body_small h : server_hello_wf h = true -> len (sh_cipher_suite h) = 2 -> len (server_hello_body h) < 2 ^ 24.
Proof.
  unfold server_hello_wf. rewrite !andb_true_iff. intros ((((Hv & Hr) & Hs) & Hk) & Hm) Lc. bool_to_prop.
  unfold server_hello_body. rewrite !len_app, !len_cons, !len_nil. lia.
Qed.

(** The hello of a fresh client, and the server's answer. *)
Definition client_hello_of (rc : bytes) (ss : list bytes) : TlcpClientHello :=
  {| ch_version := TLCP_VERSION_1_0; ch_random := rc; ch_session_id := []; ch_cipher_suites := ss;
     ch_compression_methods := [0x00] |}.

Definition server_hello_of (sr sid : bytes) (suite : TlcpCipherSuite) : TlcpServerHello :=
  {| sh_version := TLCP_VERSION_1_0; sh_random := sr; sh_session_id := sid; sh_cipher_suite := suite_id suite;
     sh_compression_method := 0x00 |}.

Lemma client_hello_of_wf rc ss : len rc = 32 -> forallb (fun s => len s =? 2) ss = true -> len ss < 32768 ->
  client_hello_wf (client_hello_of rc ss) = true.
Proof.
  intros Lr Fs Ns. unfold client_hello_wf, client_hello_of.
  cbn [ch_version ch_random ch_session_id ch_cipher_suites ch_compression_methods].
  rewrite Lr, Fs, (proj2 (Z.ltb_lt _ _) Ns). reflexivity.
Qed.

Lemma server_hello_of_wf sr sid suite : len sr = 32 -> len sid <= 32 -> In suite all_suites ->
  server_hello_wf (server_hello_of sr sid suite) = true.
Proof.
  intros Lr Ls I. unfold server_hello_wf, server_hello_of.
  cbn [sh_version sh_random sh_session_id sh_cipher_suite sh_compression_method].
  rewrite Lr, known_suite_id by exact I. rewrite (proj2 (Z.ltb_lt (len sid) 256)) by lia. reflexivity.
Qed.

Lemma server_processes now gmt rnd sid rc ss suite : find_suite ss = Some suite ->
  process_client_hello now sid (server_new gmt rnd) (client_hello_of rc ss) =
  (s_with (server_new gmt rnd) HelloSent (Some suite) (Some rc) sid false None None
     (client_hello_to_bytes (client_hello_of rc ss)), Ok tt).
Proof.
  intros Fd. unfold process_client_hello, lookup_session. cbn [server_new server_context s_state client_hello_of
    ch_version ch_session_id ch_cipher_suites ch_random s_session_cache].
  rewrite bool_decide_true, bytes_eqb_refl by reflexivity. cbn [negb]. change (len [] =? 0) with true. cbv iota.
  rewrite Fd. reflexivity.
Qed.

Lemma exchange_hellos_ok now gmt rc rnd sid ss suite :
  len rc = 32 -> len rnd = 28 -> len sid <= 32 ->
  forallb (fun s => len s =? 2) ss = true -> len ss < 32768 -> find_suite ss = Some suite ->
  exists c s, exchange_hellos now sid (with_suites (new_client rc) ss) (server_new gmt rnd) = Ok (c, s) /\
    c_state c = HelloSent /\ c_cipher_suite c = Some (suite_id suite) /\ c_client_random c = rc /\
    c_server_random c = Some (s_server_random s) /\
    s_state s = HelloSent /\ s_cipher_suite s = Some suite /\ s_client_random s = Some rc /\
    s_server_random s = be_bytes 4 (as_u32 gmt) ++ rnd.
Proof.
  intros Lr Ln Ls Fs Ns Fd. destruct (find_suite_some ss suite Fd) as [Ia _].
  set (sr := be_bytes 4 (as_u32 gmt) ++ rnd).
  assert (Lsr : len sr = 32) by (unfold sr; rewrite len_app, len_be_bytes, Ln; reflexivity).
  pose proof (client_hello_of_wf rc ss Lr Fs Ns) as Wc. pose proof (server_hello_of_wf sr sid suite Lsr Ls Ia) as Ws.
  assert (L2 : len (suite_id suite) = 2) by (repeat (destruct Ia as [<-|Ia]; [reflexivity|]); destruct Ia).
  unfold exchange_hellos.
  change (create_client_hello (with_suites (new_client rc) ss)) with
    (fst (create_client_hello (with_suites (new_client rc) ss)), client_hello_of rc ss).
  cbv iota. set (c1 := fst (create_client_hello (with_suites (new_client rc) ss))).
  unfold client_hello_to_bytes at 1. rewrite receive_message by now apply client_body_small. cbn [bind].
  rewrite <- (app_nil_r (client_hello_body _)), client_hello_parse by exact Wc. cbn [bind].
  rewrite (server_processes now gmt rnd sid rc ss suite Fd). cbn [then_ snd fst bind].
  set (s1 := s_with _ _ _ _ _ _ _ _ _).
  assert (Csh : create_server_hello s1 = Ok (server_hello_of sr sid suite)) by reflexivity.
  rewrite Csh. cbn [bind]. unfold server_hello_to_bytes.
  rewrite receive_message by now apply server_body_small. cbn [bind].
  rewrite <- (app_nil_r (server_hello_body _)), server_hello_parse by exact Ws. cbn [bind].
  assert (Psh : exists c2, process_server_hello c1 (server_hello_of sr sid suite) = (c2, Ok tt) /\
    c_state c2 = HelloSent /\ c_cipher_suite c2 = Some (suite_id suite) /\ c_client_random c2 = rc /\
    c_server_random c2 = Some sr) by (eexists; split; [reflexivity|]; repeat split).
  destruct Psh as (c2 & -> & S2 & Su2 & R2 & Sr2). cbn [then_ snd fst bind].
  exists c2, s1. repeat split; assumption.
Qed.

Lemma exchange_keys_ok certs pms c s cr sr :
  c_state c = HelloSent -> c_client_random c = cr -> c_server_random c = Some sr ->
  s_state s = HelloSent -> s_client_random s = Some cr -> s_server_random s = sr ->
  let master := prf_ref pms (bytes_of "master secret") (cr ++ sr) 48 in
  exists c' s', exchange_keys certs pms c s = Ok (c', s') /\
    c_master_secret c' = Some master /\ s_master_secret s' = Some master /\
    c_pre_master_secret c' = None /\ s_pre_master_secret s' = None /\ c_server_certs c' = s_server_certs s' /\
    c_cipher_suite c' = c_cipher_suite c /\ s_cipher_suite s' = s_cipher_suite s /\
    c_client_random c' = cr /\ c_server_random c' = Some sr /\ s_client_random s' = Some cr /\ s_server_random s' = sr.
Proof.
  intros Sc Rc Rs Ss Rc' Rs' master. unfold exchange_keys, process_server_certs, derive_master_secret, complete_key_exchange.
  rewrite Sc. rewrite bool_decide_true by reflexivity. cbn [negb then_ snd fst bind].
  cbn [set_pre_master_secret c_state c_pre_master_secret c_server_random c_client_random].
  rewrite bool_decide_true by reflexivity. cbn [orb negb ok_or]. rewrite Rs, Rc. cbn [ok_or bind].
  rewrite master_of_ok. cbn [snd fst bind].
  cbn [set_server_certs s_state s_client_random s_server_random]. rewrite Ss.
  rewrite bool_decide_true by reflexivity. cbn [orb negb]. rewrite Rc'. cbn [ok_or bind]. rewrite Rs', master_of_ok. cbn [snd fst bind].
  do 2 eexists. split; [reflexivity|]. repeat split; cbn; assumption || reflexivity.
Qed.

Lemma exchange_finished_ok t c s m : c_master_secret c = Some m -> s_master_secret s = Some m ->
  exists s', exchange_finished t c s = Ok (set_client_transcript c t, s', true, true) /\ is_established s' = true /\
    s_master_secret s' = Some m /\ s_cipher_suite s' = s_cipher_suite s /\ s_client_random s' = s_client_random s /\
    s_server_random s' = s_server_random s.
Proof.
  intros Mc Ms. unfold exchange_finished, client_compute_client_finished, verify_client_finished,
    server_compute_server_finished, verify_server_finished, client_compute_server_finished, finished_of.
  cbn [set_client_transcript s_keyed c_master_secret c_transcript s_master_secret s_transcript]. rewrite Mc, Ms.
  cbn [ok_or bind]. destruct (finished_ok m "client finished" t) as (v & -> & Lv).
  destruct (finished_ok m "server finished" t) as (w & -> & Lw). cbn [bind].
  rewrite !finished_wire by assumption. cbn [bind]. unfold finished_verify. cbn [verify_data]. rewrite !bytes_eqb_refl.
  eexists. split; [reflexivity|]. repeat split.
Qed.

Lemma honest_handshake_ok now gmt rc rnd sid pms t ss suite certs :
  len rc = 32 -> len rnd = 28 -> len sid <= 32 ->
  forallb (fun s => len s =? 2) ss = true -> len ss < 32768 -> find_suite ss = Some suite ->
  let sr := be_bytes 4 (as_u32 gmt) ++ rnd in
  let master := prf_ref pms (bytes_of "master secret") (rc ++ sr) 48 in
  exists c s, honest_handshake now gmt rc rnd sid pms t ss certs = Ok (c, s, true, true) /\
    c_master_secret c = Some master /\ s_master_secret s = Some master /\ is_established s = true /\
    c_cipher_suite c = Some (suite_id suite) /\ s_cipher_suite s = Some suite /\ c_pre_master_secret c = None /\
    c_client_random c = rc /\ c_server_random c = Some sr /\ s_client_random s = Some rc /\ s_server_random s = sr.
Proof.
  intros Lr Ln Ls Fs Ns Fd sr master. unfold honest_handshake.
  destruct (exchange_hellos_ok now gmt rc rnd sid ss suite Lr Ln Ls Fs Ns Fd)
    as (c1 & s1 & -> & Sc & Cc & Rc & Rs & Ss & Cs & Rcs & Rss). cbn [bind]. fold sr in Rss.
  destruct (exchange_keys_ok certs pms c1 s1 rc sr) as (c2 & s2 & -> & Mc & Ms & Pc & _ & _ & Cc2 & Cs2 & Rc2 & Rs2 & Rcs2 & Rss2);
    [assumption..|rewrite Rs; congruence|assumption|assumption|assumption|]. cbn [bind].
  destruct (exchange_finished_ok t c2 s2 _ Mc Ms) as (s3 & -> & Es & Ms3 & Cs3 & Rcs3 & Rss3).
  exists (set_client_transcript c2 t), s3. split; [reflexivity|].
  cbn [set_client_transcript c_master_secret c_cipher_suite c_pre_master_secret c_client_random c_server_random].
  repeat split; assumption || congruence.
Qed.

(** An honest TLCP handshake completes and the sides agree: whatever the
    randoms, the session id, the certificates, the pre-master secret and the
    common transcript, and for every offered suite list with a supported suite,
    the hellos cross the wire, every method succeeds, both Finished messages
    verify, both sides hold the master secret
    PRF(pms, master secret, client random || server random) and derive the same
    key material for the first supported suite the client offered, and the
    pre-master secret is gone. *)
Theorem handshake_completes (now gmt : Z) (rc rnd sid pms t : bytes) (ss : list bytes) (suite : TlcpCipherSuite)
    (certs : TlcpCertPair) :
  len rc = 32 -> len rnd = 28 -> len sid <= 32 ->
  forallb (fun s => len s =? 2) ss = true -> len ss < 32768 -> find_suite ss = Some suite ->
  let sr := be_bytes 4 (as_u32 gmt) ++ rnd in
  exists c s km, honest_handshake now gmt rc rnd sid pms t ss certs = Ok (c, s, true, true) /\
    c_master_secret c = Some (prf_ref pms (bytes_of "master secret") (rc ++ sr) 48) /\
    s_master_secret s = c_master_secret c /\ is_established s = true /\
    c_cipher_suite c = Some (suite_id suite) /\ s_cipher_suite s = Some suite /\
    c_pre_master_secret c = None /\
    derive_key_material s = Ok km /\
    run (derive (prf_ref pms (bytes_of "master secret") (rc ++ sr) 48) (c_client_random c) sr suite) = Ok km.
Proof.
  intros Lr Ln Ls Fs Ns Fd sr.
  destruct (honest_handshake_ok now gmt rc rnd sid pms t ss suite certs Lr Ln Ls Fs Ns Fd)
    as (c & s & E & Mc & Ms & Es & Cc & Cs & Pc & Rc & _ & Rcs & Rss). fold sr in Mc, Ms, Rss.
  destruct (derive_ok (prf_ref pms (bytes_of "master secret") (rc ++ sr) 48) rc sr suite) as (km & D & _).
  exists c, s, km. repeat (split; [assumption || congruence|]). rewrite Rc, D. split; [|reflexivity].
  unfold derive_key_material. rewrite Ms, Cs, Rcs, Rss. cbn [ok_or bind]. now rewrite D.
Qed.
End Lemmas.

Lemma handshake_completes_witness :
  exists c s, @honest_handshake toy_sm3 5 7 (repeat 1 32) (repeat 2 28) (repeat 3 32) [4] [6]
      [[0; 0]; TLS_ECC_SM4_CBC_SM3; TLS_ECDHE_SM4_GCM_SM3] (cert_pair_new [8] [9]) = Ok (c, s, true, true) /\
    s_cipher_suite s = Some ECC_SM4_CBC_SM3.
Proof.
  destruct (@handshake_completes toy_sm3 toy_sm3_laws 5 7 (repeat 1 32) (repeat 2 28) (repeat 3 32) [4] [6]
    [[0; 0]; TLS_ECC_SM4_CBC_SM3; TLS_ECDHE_SM4_GCM_SM3] ECC_SM4_CBC_SM3 (cert_pair_new [8] [9]))
    as (c & s & km & R & _ & _ & _ & _ & Su & _);
    [reflexivity|reflexivity|vm_compute; discriminate|reflexivity|reflexivity|reflexivity|]. eauto.
Defined.

(** ** Reachable client contexts *)

Section ClientStates.
Context {H : Sm3Crate}.

(** What a caller may do with a client context: the mutating methods, with any
    arguments, and the assignments of the public secret and transcript. *)
Inductive client_op : Type :=
| DoCreateHello
| DoServerHello (hello : TlcpServerHello)
| DoServerCerts (certs : TlcpCertPair)
| DoSetPms (pms : bytes)
| DoSetTranscript (t : bytes)
| DoDerive.

Definition client_step (c : TlcpHandshake) (o : client_op) : TlcpHandshake * outcome TlcpError unit :=
  match o with
  | DoCreateHello => (fst (create_client_hello c), Ok tt)
  | DoServerHello hello => process_server_hello c hello
  | DoServerCerts certs => process_server_certs c certs
  | DoSetPms pms => (set_pre_master_secret c pms, Ok tt)
  | DoSetTranscript t => (set_client_transcript c t, Ok tt)
  | DoDerive => derive_master_secret c
  end.

(** From either constructor; [origin] is the cached session given to the second. *)
Inductive client_reachable (rc : bytes) : option TlcpResumedSession -> TlcpHandshake -> Prop :=
| client_start : client_reachable rc None (new_client rc)
| client_resumed session c : new_client_with_session rc session = Ok c -> client_reachable rc (Some session) c
| client_next origin c o : client_reachable rc origin c -> client_reachable rc origin (fst (client_step c o)).

(** A master secret derived in this handshake. *)
Definition derived_secret (rc : bytes) (c : TlcpHandshake) (m : bytes) : Prop :=
  c_server_certs c <> None /\ c_server_random c <> None /\ exists pms sr, m = prf_ref pms (bytes_of "master secret") (rc ++ sr) 48.

Definition client_inv (rc : bytes) (origin : option TlcpResumedSession) (c : TlcpHandshake) : Prop :=
  c_client_random c = rc /\ c_resumed_session c = origin /\
  (c_state c = Idle \/ c_state c = HelloSent \/ c_state c = ServerCertsReceived) /\
  (c_state c = ServerCertsReceived -> c_server_certs c <> None) /\
  (forall m, c_master_secret c = Some m -> option_map rs_master_secret origin = Some m \/ derived_secret rc c m).

Context {L : Sm3Laws H}.

(** Each call succeeds exactly where its guards let it. *)
Lemma hello_accepted c hello : snd (client_step c (DoServerHello hello)) = Ok tt <-> c_state c = HelloSent /\ sh_version hello = TLCP_VERSION_1_0.
Proof.
  cbn [client_step]. unfold process_server_hello. destruct (bool_decide_reflect (c_state c = HelloSent)) as [S|S]; cbn [negb]; [|split; [discriminate|tauto]].
  destruct (bytes_eqb (sh_version hello) TLCP_VERSION_1_0) eqn:V; cbn [negb snd].
  - apply bytes_eqb_eq in V. tauto.
  - apply bytes_eqb_neq in V. split; [discriminate|tauto].
Qed.

Lemma hello_effect c hello : c_state c = HelloSent -> sh_version hello = TLCP_VERSION_1_0 -> let c' := fst (process_server_hello c hello) in
  let resumed := negb (len (c_session_id c) =? 0) && bytes_eqb (sh_session_id hello) (c_session_id c) in
  c_state c' = HelloSent /\ c_master_secret c' = c_master_secret c /\ c_is_resumed c' = resumed /\
  c_session_id c' = if resumed then c_session_id c else sh_session_id hello.
Proof. intros S V. unfold process_server_hello. rewrite bool_decide_true, V, bytes_eqb_refl by exact S. now cbn. Qed.

Lemma certs_accepted c certs : snd (client_step c (DoServerCerts certs)) = Ok tt <-> c_state c = HelloSent.
Proof. cbn [client_step]. unfold process_server_certs. destruct (bool_decide_reflect (c_state c = HelloSent)); cbn [negb snd]; split; (discriminate || tauto). Qed.

Lemma derive_cases c : let ready := c_state c = ServerCertsReceived \/ c_state c = KeyExchange in
  (exists pms sr, ready /\ c_pre_master_secret c = Some pms /\ c_server_random c = Some sr /\ snd (derive_master_secret c) = Ok tt /\
     c_master_secret (fst (derive_master_secret c)) = Some (prf_ref pms (bytes_of "master secret") (c_client_random c ++ sr) 48) /\
     c_pre_master_secret (fst (derive_master_secret c)) = None /\ c_server_certs (fst (derive_master_secret c)) = c_server_certs c /\
     c_server_random (fst (derive_master_secret c)) = Some sr /\ c_state (fst (derive_master_secret c)) = c_state c /\
     c_client_random (fst (derive_master_secret c)) = c_client_random c /\ c_resumed_session (fst (derive_master_secret c)) = c_resumed_session c) \/
  (fst (derive_master_secret c) = c /\ (exists e, snd (derive_master_secret c) = Err e) /\
   ~ (ready /\ c_pre_master_secret c <> None /\ c_server_random c <> None)).
Proof.
  intros ready. unfold derive_master_secret. destruct (bool_decide_reflect (c_state c = ServerCertsReceived)) as [S|S], (bool_decide_reflect (c_state c = KeyExchange)) as [K|K];
    cbn [orb negb]; try (right; cbn [fst snd]; split; [reflexivity|split; [eauto|unfold ready; tauto]]).
  all: destruct (c_pre_master_secret c) as [pms|]; cbn [ok_or bind]; [|right; cbn [fst snd]; split; [reflexivity|split; [eauto|tauto]]].
  all: destruct (c_server_random c) as [sr|] eqn:Sr; cbn [ok_or bind]; [|right; cbn [fst snd]; split; [reflexivity|split; [eauto|tauto]]].
  all: left; exists pms, sr; rewrite master_of_ok; cbn; unfold ready; tauto.
Qed.

Lemma client_step_inv rc origin c o : client_inv rc origin c -> client_inv rc origin (fst (client_step c o)).
Proof.
  intros I. pose proof I as (Hr & Ho & Hs & Hc & Hm). destruct o as [|hello|certs|pms|t|].
  - split; [exact Hr|]. split; [exact Ho|]. split; [right; left; reflexivity|]. split; [discriminate|exact Hm].
  - cbn [client_step]. unfold process_server_hello. destruct (negb _); [exact I|]. destruct (negb _); [exact I|]. cbn [fst].
    split; [exact Hr|]. split; [exact Ho|]. split; [exact Hs|]. split; [exact Hc|].
    intros m Em. destruct (Hm m Em) as [|(A & _ & B)]; [now left|]. right. split; [exact A|]. split; [discriminate|exact B].
  - cbn [client_step]. unfold process_server_certs. destruct (negb _); [exact I|]. cbn [fst].
    split; [exact Hr|]. split; [exact Ho|]. split; [right; right; reflexivity|]. split; [discriminate|].
    intros m Em. destruct (Hm m Em) as [|(_ & A & B)]; [now left|]. right. split; [discriminate|]. split; [exact A|exact B].
  - exact I.
  - exact I.
  - cbn [client_step]. destruct (derive_cases c) as [(pms & sr & S & _ & _ & _ & M & _ & C & R & St & Cr & Or)|(-> & _)]; [|exact I].
    assert (S' : c_state c = ServerCertsReceived) by (destruct S as [S|S]; [exact S|rewrite S in Hs; intuition discriminate]).
    split; [now rewrite Cr|]. split; [now rewrite Or|]. split; [now rewrite St|]. split; [intros _; rewrite C; now apply Hc|].
    intros m. rewrite M. intros [= <-]. right. unfold derived_secret. rewrite C, R, Hr. split; [now apply Hc|]. split; [discriminate|eauto].
Qed.

Lemma client_reachable_inv rc origin c : client_reachable rc origin c -> client_inv rc origin c.
Proof.
  induction 1 as [|session c E|origin c o _ IH]; [| |now apply client_step_inv].
  - repeat split; auto; discriminate.
  - unfold new_client_with_session in E. destruct (slice_to _ _); [|discriminate..]. cbn [bind] in E. injection E as <-.
    split; [reflexivity|]. split; [reflexivity|]. split; [now left|]. split; [discriminate|]. cbn. auto.
Qed.

End ClientStates.


(** ** Resumption *)

(** All cached ids have the length of generated session ids. *)
Definition generated_ids (cache : TlcpSessionCache) : Prop :=
  forall id s, sessions cache !! id = Some s -> len id = MAX_SESSION_ID_LEN.

(** Session resumption never completes between these contexts: the client
    built from a cached session asks for the first 16 bytes of the server random
    as its session id, which no cache of generated (32-byte) ids contains, so
    the server runs a full handshake; and when a server does resume a session
    named by another client, its master secret stays unset, so key material and
    Finished messages fail. *)
Theorem resumption_never_completes {H : Sm3Crate} (now gmt : Z) (rc rnd fresh : bytes) (session : TlcpResumedSession)
    (cache : TlcpSessionCache) (hello : TlcpClientHello) :
  len (rs_server_random session) = 32 -> generated_ids cache ->
  ch_version hello = TLCP_VERSION_1_0 ->
  (exists c, new_client_with_session rc session = Ok c /\
     s_is_resumed (fst (process_client_hello now fresh (with_session_cache gmt rnd cache) (snd (create_client_hello c)))) = false) /\
  (let s := fst (process_client_hello now fresh (with_session_cache gmt rnd cache) hello) in
   s_is_resumed s = true ->
   derive_key_material s = Err (HandshakeFailed "No master secret") /\
   server_compute_server_finished s = Err (HandshakeFailed "No master secret")).
Proof.
  intros Lr G V. split.
  - unfold new_client_with_session. rewrite slice_to_ok by lia. cbn [bind]. eexists. split; [reflexivity|].
    cbn [create_client_hello snd]. set (sid := firstn (Z.to_nat 16) (rs_server_random session)).
    assert (Ls : len sid = 16) by (unfold sid; rewrite len_firstn; lia).
    unfold process_client_hello, lookup_session. cbn [c_session_id c_client_random c_cipher_suites ch_session_id ch_version ch_cipher_suites ch_random].
    cbn [with_session_cache server_context s_state s_session_cache]. rewrite bool_decide_true, bytes_eqb_refl by reflexivity. cbn [negb].
    fold sid. rewrite Ls. cbn [Z.eqb].
    assert (N : sessions cache !! sid = None).
    { destruct (sessions cache !! sid) as [x|] eqn:E; [|reflexivity]. apply G in E. unfold MAX_SESSION_ID_LEN in E. lia. }
    unfold get. rewrite N. cbn. reflexivity.
  - intros s. unfold s, derive_key_material, server_compute_server_finished, finished_of.
    assert (M : s_master_secret (fst (process_client_hello now fresh (with_session_cache gmt rnd cache) hello)) = None).
    { unfold process_client_hello. destruct (negb _); [reflexivity|]. destruct (negb _); [reflexivity|].
      destruct (lookup_session _ _ _) as [[x|] k]; [destruct (from_id _)|destruct (find_suite _)]; reflexivity. }
    rewrite M. auto.
Qed.

Lemma resumption_never_completes_witness :
  exists c, new_client_with_session [1] (resumed_session_new 0 [] [] (repeat 4 32) []) = Ok c /\
    s_is_resumed (fst (process_client_hello 1 [3] (with_session_cache 5 [6] (with_capacity 4)) (snd (create_client_hello c)))) = false.
Proof.
  apply (@resumption_never_completes toy_sm3 1 5 [1] [6] [3] (resumed_session_new 0 [] [] (repeat 4 32) [])
    (with_capacity 4) (client_hello_new 0 [])); [reflexivity| |reflexivity].
  intros id s E. cbn in E. rewrite lookup_empty in E. discriminate.
Defined.
