(* ===== verification/TlcpAuth.v ===== *)
(** Signatures and key agreement of the TLCP handshake
    (gm-tlcp/src/tlcp/{pms, crypto/verify, cv_helper, sm9_helpers, rsa_helpers}.rs):
    the SM2 identity hash and the ECDHE pre-master secret, the verification of
    ServerKeyExchange and CertificateVerify, the wire form of SM9 points and the RSA
    helpers.

    SM2, SM3, X.509 parsing and RSA (crate rsa) are parameters. *)

From Stdlib Require Import String Bool ZArith Lia List.
From S2P Require Import Prelude Bytes Effects Der Z256 Fp FieldRep Curve Jacobian G1 Sm4 Sm3 Kdf Sm2 Sm2Kex Sm9Key X509 X509Chain X509Csr Tlcp TlcpMessages TlcpKeyExchange TlcpHandshake.
Import ListNotations.
Open Scope Z_scope.

(** ** The SM2 identity hash *)

Definition SM2_A_BYTES : bytes :=
  [0xFF; 0xFF; 0xFF; 0xFE; 0xFF; 0xFF; 0xFF; 0xFF; 0xFF; 0xFF; 0xFF; 0xFF; 0xFF; 0xFF; 0xFF; 0xFF;
   0xFF; 0xFF; 0xFF; 0xFF; 0x00; 0x00; 0x00; 0x00; 0xFF; 0xFF; 0xFF; 0xFF; 0xFF; 0xFF; 0xFF; 0xFC].
Definition SM2_B_BYTES : bytes :=
  [0x28; 0xE9; 0xFA; 0x9E; 0x9D; 0x9F; 0x5E; 0x34; 0x4D; 0x5A; 0x9E; 0x4B; 0xCF; 0x65; 0x09; 0xA7;
   0xF3; 0x97; 0x89; 0xF5; 0x15; 0xAB; 0x8F; 0x92; 0xDD; 0xBC; 0xBD; 0x41; 0x4D; 0x94; 0x0E; 0x93].
Definition SM2_X_G_BYTES : bytes :=
  [0x32; 0xC4; 0xAE; 0x2C; 0x1F; 0x19; 0x81; 0x19; 0x5F; 0x99; 0x04; 0x46; 0x6A; 0x39; 0xC9; 0x94;
   0x8F; 0xE3; 0x0B; 0xBF; 0xF2; 0x66; 0x0B; 0xE1; 0x71; 0x5A; 0x45; 0x89; 0x33; 0x4C; 0x74; 0xC7].
Definition SM2_Y_G_BYTES : bytes :=
  [0xBC; 0x37; 0x36; 0xA2; 0xF4; 0xF6; 0x77; 0x9C; 0x59; 0xBD; 0xCE; 0xE3; 0x6B; 0x69; 0x21; 0x53;
   0xD0; 0xA9; 0x87; 0x7C; 0xC6; 0x2A; 0x47; 0x40; 0x02; 0xDF; 0x32; 0xE5; 0x21; 0x39; 0xF0; 0xA0].

Definition cipher_error {A : Type} (o : outcome CryptoError A) : outcome TlcpError A := map_err (fun e => CipherError (display_crypto e)) o.

Section Pms.
Context {H : Sm3Crate} {C : Sm2Crate} {G : Sm2Group C}.

(** [(user_id.len() as u16) * 8] overflows from 8192 bytes on. *)
Definition sm2_compute_z (pub_xy user_id : bytes) : outcome TlcpError bytes :=
  guard (0xFFFF <? len user_id) (HandshakeFailed ("user ID too long: " +++ dec (len user_id) +++ " bytes")%string) (
  let bits := as_u16 (len user_id) * 8 in
  if 2 ^ 16 <=? bits then Panic
  else
    h <- cipher_error (Sm3Hasher_hash (be_bytes 2 bits ++ user_id ++ SM2_A_BYTES ++ SM2_B_BYTES ++ SM2_X_G_BYTES ++ SM2_Y_G_BYTES ++
           firstn 32 pub_xy ++ skipn 32 pub_xy)) ;;
    from_slice 32 h).

(** ** The ECDHE pre-master secret *)

Definition pms_parse_point (r_pub : bytes) : outcome CryptoError Point :=
  point_of_xy "invalid SM2 point bytes: " "invalid SM2 point encoding" r_pub.

Definition pms_point_xy_bytes (p : Point) : outcome CryptoError (bytes * bytes) :=
  let b := encode_point false p in
  guard ((len b =? 0) || negb (nth 0 b 0 =? 0x04) || negb (len b =? 65))
    (Sm2KexError ("SM2 affine point has unexpected wire format (len=" +++ dec (len b) +++ ", tag=0x" +++ hexl (nth 0 b 0) +++ ")")%string) (
  x <- slice b 1 33 ;;
  y <- slice b 33 65 ;;
  Ok (x, y)).

Definition scalar_from_bytes_checked (b : bytes) : outcome CryptoError Scalar :=
  secret <- kex_map "invalid scalar (must be 1..n-1): " (secret_from_bytes b) ;;
  Ok (nonzero_scalar secret).

(** [2^127 + (x mod 2^127)], from the words of the coordinate. *)
Definition x_hat_bytes (x_bytes : bytes) : bytes :=
  let x_lo := from_be (firstn 8 (skipn 24 x_bytes)) in
  let x_mid := from_be (firstn 8 (skipn 16 x_bytes)) in
  let xh_mid := Z.lor (Z.land x_mid 0x7fffffffffffffff) 0x8000000000000000 in
  repeat 0 16 ++ be_bytes 8 xh_mid ++ be_bytes 8 x_lo.

(** The error texts have a combining circumflex, here its two UTF-8 bytes. *)
Definition x_hat : string := ("x" +++ String (Ascii.ascii_of_nat 204) (String (Ascii.ascii_of_nat 130) EmptyString))%string.

Definition scalar_from_x_hat (x_bytes : bytes) : outcome CryptoError Scalar :=
  scalar <- some_or_kex (scalar_from_repr (x_hat_bytes x_bytes)) ("invalid " +++ x_hat +++ " transform (canonical decode failed)")%string ;;
  guard (scalar_is_zero scalar) (Sm2KexError (x_hat +++ " transform produced zero scalar")%string) (Ok scalar).

Definition pms_sm2_kdf (z : bytes) (klen : Z) : outcome CryptoError bytes :=
  guard ((klen =? 0) || (16 * 1024 <? klen)) (Sm2KexError ("sm2_kdf: invalid klen " +++ dec klen)%string) (
  let n_blocks := (klen + 31) / 32 in
  guard (0xFFFFFFFF <? n_blocks) (Sm2KexError "sm2_kdf: klen too large") (
  let out := fold_left (fun out i => out ++ sm3 (z ++ be_bytes 4 (as_u32 (Z.of_nat i)))) (seq 1 (Z.to_nat n_blocks)) [] in
  Ok (firstn (Z.to_nat klen) out))).

Definition point_error {A : Type} (what : string) (o : outcome CryptoError A) : outcome TlcpError A :=
  map_err (fun e => Sm2KeyError (what +++ ": " +++ display_crypto e)%string) o.

Definition v_identity : TlcpError := HandshakeFailed "shared point V is identity element".

(** The first argument of the source, the local static public key, is not used. *)
Definition compute_tlcp_ecdhe_pms (local_static_priv local_ephemeral_xy local_ephemeral_priv peer_static_xy peer_ephemeral_xy z_a z_b : bytes) (klen : Z)
    : outcome TlcpError bytes :=
  local_ephemeral_point <- point_error "local ephemeral point" (pms_parse_point local_ephemeral_xy) ;;
  peer_ephemeral_point <- point_error "peer ephemeral point" (pms_parse_point peer_ephemeral_xy) ;;
  peer_static_point <- point_error "peer static point" (pms_parse_point peer_static_xy) ;;
  ' (local_ephemeral_x, _) <- cipher_error (pms_point_xy_bytes local_ephemeral_point) ;;
  local_x_hat <- cipher_error (scalar_from_x_hat local_ephemeral_x) ;;
  local_ephemeral_scalar <- cipher_error (scalar_from_bytes_checked local_ephemeral_priv) ;;
  local_static_scalar <- cipher_error (scalar_from_bytes_checked local_static_priv) ;;
  let t := sadd (smul local_x_hat local_ephemeral_scalar) local_static_scalar in
  ' (peer_ephemeral_x, _) <- cipher_error (pms_point_xy_bytes peer_ephemeral_point) ;;
  peer_x_hat <- cipher_error (scalar_from_x_hat peer_ephemeral_x) ;;
  let shared_point := padd (pmul peer_ephemeral_point peer_x_hat) peer_static_point in
  guard (is_identity shared_point) v_identity (
  let v := pmul shared_point t in
  guard (is_identity v) v_identity (
  ' (v_x, v_y) <- cipher_error (pms_point_xy_bytes v) ;;
  cipher_error (pms_sm2_kdf (v_x ++ v_y ++ z_a ++ z_b) klen))).
End Pms.

(** ** ServerKeyExchange and CertificateVerify *)

Definition debug_handshake (t : HandshakeType) : string :=
  match t with
  | ClientHello => "ClientHello" | ServerHello => "ServerHello" | Certificate => "Certificate"
  | ServerKeyExchange => "ServerKeyExchange" | CertificateRequest => "CertificateRequest" | ServerHelloDone => "ServerHelloDone"
  | CertificateVerify => "CertificateVerify" | ClientKeyExchange => "ClientKeyExchange" | Finished => "Finished"
  end.

Definition handshake_eqb (a b : HandshakeType) : bool := handshake_code a =? handshake_code b.

Definition key_failure {A : Type} (what : string) (o : outcome CryptoError A) : outcome TlcpError A :=
  map_err (fun e => Sm2KeyError (what +++ display_crypto e)%string) o.

(** [2B length || signature], the length checked. *)
Definition signature_field (err : string -> TlcpError) (short truncated : string) (body : bytes) : outcome TlcpError bytes :=
  guard (len body <? 2) (err short) (
  b0 <- index body 0 ;;
  b1 <- index body 1 ;;
  let sig_len := Z.lor (Z.shiftl b0 8) b1 in
  guard (len body <? 2 + sig_len) (err (truncated +++ dec (len body - 2) +++ " < " +++ dec sig_len)%string) (
  slice body 2 (2 + sig_len))).

(** A signature of 64 bytes is taken as [r || s], any other is read as DER. *)
Definition raw_or_der (what : string) (signature : bytes) : outcome TlcpError bytes :=
  if len signature =? 64 then Ok signature else key_failure what (sm2_signature_der_to_raw signature).

Section Auth.
Context {C : Sm2Crate}.

Definition verify_ske_signature (is_ecc_mode : bool) (ske_body client_random server_random enc_cert : bytes) (verifier : VerifyingKey)
    : outcome TlcpError unit :=
  if is_ecc_mode then
    signature_der <- signature_field InvalidMessage "ECC SKE body too short" "ECC SKE signature truncated: " ske_body ;;
    signature_raw <- key_failure "ECC SKE signature DER decode: " (sm2_signature_der_to_raw signature_der) ;;
    key_failure "ECC SKE signature verify: " (Sm2Verifier_verify verifier (cert_signed client_random server_random enc_cert) signature_raw)
  else
    ske <- ske_from_body ske_body Ecdhe ;;
    match ske with
    | SkeEcdhe ecdhe_params =>
        raw_sig <- raw_or_der "ECDHE SKE signature DER decode: " (ecdhe_signature ecdhe_params) ;;
        key_failure "ECDHE SKE signature verify: "
          (Sm2Verifier_verify verifier (ecdhe_signed client_random server_random (ephemeral_public ecdhe_params)) raw_sig)
    | _ => Err (InvalidMessage "ECDHE verify called on non-ECDHE ServerKeyExchange body")
    end.

Context {X : X509Parser}.

Definition extract_sm2_pubkey_from_cert_der (cert_der : bytes) : outcome string bytes :=
  map_err (fun e => ("SM2 pubkey extract: " +++ display_crypto e)%string) (extract_sm2_pubkey_from_der cert_der).

Definition append_transcript (t : bytes) (s : TlcpServerHandshake) : TlcpServerHandshake :=
  s_keyed s (s_state s) (s_pre_master_secret s) (s_master_secret s) (s_transcript s ++ t).

Definition process_certificate_verify (cv_probe_payload : bytes) (client_sign_distid_override : option string)
    : M TlcpServerHandshake TlcpError unit :=
  m <-- lift (parse_handshake_message cv_probe_payload) ;;;
  let '(cv_type, cv_body, _) := m in
  failIf (negb (handshake_eqb cv_type CertificateVerify))
    (HandshakeMessageParse ("Expected CertificateVerify, got " +++ debug_handshake cv_type)%string) ;;;
  sig_der <-- lift (signature_field HandshakeFailed "CertificateVerify body too short" "CertificateVerify signature truncated: " cv_body) ;;;
  raw_sig <-- lift (raw_or_der "CV signature DER decode: " sig_der) ;;;
  server_hs <-- gets id ;;;
  client_sign_cert_der <-- lift (ok_or (hd_error (s_client_certs server_hs)) (HandshakeFailed "server received CV but no client Certificate")) ;;;
  client_sign_pub <-- lift (map_err HandshakeFailed (extract_sm2_pubkey_from_cert_der client_sign_cert_der)) ;;;
  let distid_str := match client_sign_distid_override with Some d => d | None => "1234567812345678"%string end in
  verifier <-- lift (key_failure "CV verifier: " (Sm2Verifier_new client_sign_pub distid_str)) ;;;
  lift (key_failure "CV signature verify: " (Sm2Verifier_verify verifier (s_transcript server_hs) raw_sig)) ;;;
  modify (append_transcript cv_probe_payload).
End Auth.

(** ** SM9 points on the wire *)

Definition SM9_G1_WIRE_LEN : Z := 65.

Definition g1_point_to_uncompressed (point : G1Point) : outcome TlcpError bytes :=
  match to_affine point with
  | None => Err (InvalidMessage ("SM9 G1Point at infinity " +++ em_dash +++ " invalid wire form (no SEC1 encoding)")%string)
  | Some (x, y) => Ok ([0x04] ++ Fp.to_bytes x ++ Fp.to_bytes y)
  end.

Definition wire_coordinate (what : string) (b : bytes) : outcome TlcpError Fp :=
  map_err (fun e => InvalidMessage ("SM9 G1Point " +++ what +++ "-coord parse: " +++ display_arith e)%string) (Fp.from_bytes b).

Definition g1_point_from_uncompressed (b : bytes) : outcome TlcpError G1Point :=
  guard (negb (len b =? SM9_G1_WIRE_LEN))
    (InvalidMessage ("SM9 G1Point wire form must be " +++ dec SM9_G1_WIRE_LEN +++ " bytes, got " +++ dec (len b))%string) (
  b0 <- index b 0 ;;
  guard (negb (b0 =? 0x04)) (InvalidMessage ("SM9 G1Point wire form must start with 0x04, got 0x" +++ hex02l b0)%string) (
  bx <- slice b 1 33 ;;
  x <- wire_coordinate "x" bx ;;
  by_ <- slice b 33 65 ;;
  y <- wire_coordinate "y" by_ ;;
  Ok (from_affine x y))).

(** ** RSA *)

(** Crate rsa; [rng] is what the system's generator yields. *)
Class RsaCrate : Type := {
  RsaPrivateKey : Type;
  RsaPublicKey : Type;
  private_new : bytes -> Z -> outcome string RsaPrivateKey;
  private_from_pem : string -> outcome string RsaPrivateKey;
  private_from_der : bytes -> outcome string RsaPrivateKey;
  rsa_n : RsaPrivateKey -> Z;
  rsa_e : RsaPrivateKey -> Z;
  public_new : Z -> Z -> outcome string RsaPublicKey;
  public_from_pem : string -> outcome string RsaPublicKey;
  public_from_der : bytes -> outcome string RsaPublicKey;
  sign_unprefixed : RsaPrivateKey -> bytes -> outcome string bytes;
  verify_unprefixed : RsaPublicKey -> bytes -> bytes -> outcome string unit;
  encrypt_with_rng : RsaPublicKey -> bytes -> bytes -> outcome string bytes;
  pkcs1v15_decrypt : RsaPrivateKey -> bytes -> outcome string bytes
}.

(** Documented behaviour: the public half of a key verifies and encrypts for it. *)
Class RsaLaws (R : RsaCrate) : Prop := {
  rsa_sign_verify k p h s : public_new (rsa_n k) (rsa_e k) = Ok p -> sign_unprefixed k h = Ok s -> verify_unprefixed p h s = Ok tt;
  rsa_encrypt_decrypt k p rng m c : public_new (rsa_n k) (rsa_e k) = Ok p -> encrypt_with_rng p rng m = Ok c -> pkcs1v15_decrypt k c = Ok m
}.

Definition SM3_PKCS1_V15_PREFIX : bytes :=
  [0x30; 0x31; 0x30; 0x0C; 0x06; 0x08; 0x2A; 0x81; 0x1C; 0x81; 0x1C; 0x81; 0x1C; 0x81; 0x1C; 0x81; 0x1C; 0x81; 0x07].

Section Rsa.
Context {H : Sm3Crate} {R : RsaCrate}.

Definition rsa_failure {A : Type} (what : string) (o : outcome string A) : outcome TlcpError A :=
  map_err (fun e => Sm2KeyError (what +++ ": " +++ e)%string) o.

Definition sm3_hash (data : bytes) : outcome TlcpError bytes := from_slice 32 (sm3 data).
Definition sm3_pkcs1_v15_encoding (data : bytes) : outcome TlcpError bytes :=
  digest <- sm3_hash data ;; Ok (SM3_PKCS1_V15_PREFIX ++ digest).

Definition RsaKeyPair_generate (rng : bytes) (bit_size : Z) : outcome TlcpError RsaPrivateKey :=
  rsa_failure ("RSA keygen (" +++ dec bit_size +++ " bits)") (private_new rng bit_size).
Definition RsaKeyPair_from_pkcs8_pem (pem : string) : outcome TlcpError RsaPrivateKey := rsa_failure "RSA PKCS#8 PEM parse" (private_from_pem pem).
Definition RsaKeyPair_from_pkcs8_der (der : bytes) : outcome TlcpError RsaPrivateKey := rsa_failure "RSA PKCS#8 DER parse" (private_from_der der).
Definition to_public_key (k : RsaPrivateKey) : outcome TlcpError RsaPublicKey :=
  rsa_failure "RSA public key extraction" (public_new (rsa_n k) (rsa_e k)).
Definition from_public_key_pem (pem : string) : outcome TlcpError RsaPublicKey := rsa_failure "RSA public key PEM parse" (public_from_pem pem).
Definition from_public_key_der (der : bytes) : outcome TlcpError RsaPublicKey := rsa_failure "RSA public key DER parse" (public_from_der der).
Definition from_components (n e : Z) : outcome TlcpError RsaPublicKey := rsa_failure "RSA public key from components" (public_new n e).

Definition RsaSigner_sign (k : RsaPrivateKey) (data : bytes) : outcome TlcpError bytes :=
  hashed <- sm3_pkcs1_v15_encoding data ;; rsa_failure "RSA SKE sign" (sign_unprefixed k hashed).
Definition RsaVerifier_verify (p : RsaPublicKey) (data signature : bytes) : outcome TlcpError unit :=
  hashed <- sm3_pkcs1_v15_encoding data ;; rsa_failure "RSA SKE signature verify" (verify_unprefixed p hashed signature).
Definition RsaEncryptor_encrypt (rng : bytes) (p : RsaPublicKey) (plaintext : bytes) : outcome TlcpError bytes :=
  rsa_failure "RSA PMS encrypt" (encrypt_with_rng p rng plaintext).
Definition RsaDecryptor_decrypt (k : RsaPrivateKey) (ciphertext : bytes) : outcome TlcpError bytes :=
  rsa_failure "RSA PMS decrypt" (pkcs1v15_decrypt k ciphertext).
End Rsa.

(** ** The pre-master secret *)

Lemma wf_part (n : nat) b : wf_bytes b = true -> wf_bytes (firstn n b) = true /\ wf_bytes (skipn n b) = true.
Proof. intros W. apply andb_true_iff. now rewrite <- wf_bytes_app, firstn_skipn. Qed.

Lemma set_bit63 a : 0 <= a -> Z.lor (Z.land a 0x7fffffffffffffff) 0x8000000000000000 = 2 ^ 63 + a mod 2 ^ 63.
Proof.
  intros A. change 0x7fffffffffffffff with (Z.ones 63). rewrite Z.land_ones by lia. pose proof (Z.mod_pos_bound a (2 ^ 63) ltac:(lia)).
  change 0x8000000000000000 with (Z.shiftl 1 63). rewrite Z.lor_comm, lor_shiftl_add by lia. lia.
Qed.

(** The words of the transform are [2^127 + (x mod 2^127)]. *)
Lemma x_hat_value x : wf_bytes x = true -> len x = 32 ->
  wf_bytes (x_hat_bytes x) = true /\ len (x_hat_bytes x) = 32 /\ from_be (x_hat_bytes x) = 2 ^ 127 + from_be x mod 2 ^ 127.
Proof.
  intros W L. unfold x_hat_bytes. destruct (wf_part 16 x W) as [_ W1]. destruct (wf_part 8 _ W1) as [Wm _]. destruct (wf_part 24 x W) as [_ Wl].
  set (mid := firstn 8 (skipn 16 x)) in *. assert (El : firstn 8 (skipn 24 x) = skipn 24 x) by (apply firstn_all2; rewrite length_skipn; unfold len in L; lia).
  rewrite El. set (lo := skipn 24 x) in *. assert (Ex : x = firstn 16 x ++ mid ++ lo).
  { unfold mid, lo. rewrite <- (firstn_skipn 16 x) at 1. f_equal. rewrite <- (firstn_skipn 8 (skipn 16 x)) at 1. now rewrite skipn_skipn. }
  assert (Lm : len mid = 8) by (unfold mid, len in *; rewrite length_firstn, length_skipn; lia). assert (Ll : len lo = 8) by (unfold lo, len in *; rewrite length_skipn; lia).
  pose proof (from_be_bound mid Wm) as Bm. pose proof (from_be_bound lo Wl) as Bl. rewrite Lm in Bm. rewrite Ll in Bl. rewrite set_bit63 by lia.
  split; [now rewrite !wf_bytes_app, !wf_be_bytes|]. split; [now rewrite !len_app, !len_be_bytes|].
  rewrite Ex at 1. rewrite !from_be_app, !len_app, !len_be_bytes, Lm, Ll. change (from_be (repeat 0 16)) with 0. generalize (from_be (firstn 16 x)) as hi. intros hi.
  pose proof (Z.mod_pos_bound (from_be mid) (2 ^ 63) ltac:(lia)). rewrite !from_be_bytes_small by (cbn in *; lia).
  rewrite (Z.div_mod (from_be mid) (2 ^ 63)) at 2 by lia. set (q := from_be mid / 2 ^ 63) in *. set (r := from_be mid mod 2 ^ 63) in *.
  apply Z.add_cancel_r with (p := - 2 ^ 127). change (256 ^ (8 + 8)) with (2 ^ 128). change (256 ^ 8) with (2 ^ 64) in *. change (256 ^ Z.of_nat 8) with (2 ^ 64).
  replace (hi * 2 ^ 128 + ((2 ^ 63 * q + r) * 2 ^ 64 + from_be lo)) with (r * 2 ^ 64 + from_be lo + (hi * 2 + q) * 2 ^ 127) by ring.
  rewrite Z.mod_add, Z.mod_small by lia. lia.
Qed.

Section PmsLemmas.
Context {H : Sm3Crate} {L : Sm3Laws H} {C : Sm2Crate} {LC : Sm2Laws C} {G : Sm2Group C} {LG : Sm2GroupLaws C G}.

Lemma pms_kdf z klen : 0 < klen <= 16384 -> pms_sm2_kdf z klen = Ok (kdf_stream z klen).
Proof.
  intros B. unfold pms_sm2_kdf, guard. rewrite (proj2 (Z.eqb_neq _ _)), (proj2 (Z.ltb_ge _ _)) by lia. cbn [orb]. pose proof (turns klen) as T.
  rewrite (proj2 (Z.ltb_ge _ _)) by lia. unfold kdf_stream. do 2 f_equal. assert (Bn : (Z.to_nat ((klen + 31) / 32) <= 512)%nat) by lia. revert Bn.
  induction (Z.to_nat ((klen + 31) / 32)) as [|n IH]; intros Bn; [reflexivity|]. rewrite seq_S, fold_left_app, IH, sm3_blocks_snoc by lia. cbn [fold_left].
  unfold as_u32. rewrite Z.mod_small by lia. reflexivity.
Qed.

(** What the functions on points make of a point that is not the identity. *)
Lemma pms_point P : is_identity P = false -> exists x y, len x = 32 /\ encode_point false P = [0x04] ++ x ++ y /\
  pms_parse_point (x ++ y) = Ok P /\ pms_point_xy_bytes P = Ok (x, y) /\ exists h, scalar_from_x_hat x = Ok h.
Proof.
  intros NI. destruct (encode_shape P NI) as (x & y & _ & _ & E & Lx & Ly & W). rewrite wf_bytes_app in W. apply andb_true_iff in W as [Wx Wy].
  exists x, y. split; [exact Lx|]. split; [exact E|]. destruct (decode_encode false P) as [S D]. rewrite E in S, D. split; [|split].
  - unfold pms_parse_point, point_of_xy. now rewrite S, D.
  - assert (Le : len ([4] ++ x ++ y) = 65) by (rewrite !len_app; change (len [4]) with 1; lia). unfold pms_point_xy_bytes. rewrite E, Le. cbn [app nth Z.eqb Pos.eqb negb orb guard].
    change (4 :: x ++ y) with ([4] ++ x ++ y). rewrite (slice_at _ [4] x y), (slice_at _ ([4] ++ x) y []) by (rewrite ?app_nil_r, <- ?app_assoc, ?len_app; change (len [4]) with 1; trivial; lia).
    reflexivity.
  - destruct (x_hat_value x Wx Lx) as (Wh & Lh & Vh). pose proof (Z.mod_pos_bound (from_be x) (2 ^ 127) ltac:(lia)).
    destruct (repr_half _ Wh Lh) as (a & Ea & Za); [rewrite Vh; lia|]. exists a. unfold scalar_from_x_hat. rewrite Ea. cbn [some_or_kex ok_or_else bind]. now rewrite Za.
Qed.

Lemma checked_scalar k : scalar_from_bytes_checked (secret_bytes k) = Ok (nonzero_scalar k).
Proof. destruct (secret_roundtrip k) as (k' & E & V). unfold scalar_from_bytes_checked, kex_map. rewrite E. cbn [map_err bind]. now rewrite V. Qed.

(** The value a side multiplies by, and the point it reaches. *)
Definition implicit (h r k : Scalar) : Scalar := sadd (smul h r) k.

Lemma implicit_point h r k : padd (pmul (pmul generator r) h) (pmul generator k) = pmul generator (implicit h r k).
Proof. unfold implicit. now rewrite pmul_sadd, (smul_comm h r), <- pmul_smul. Qed.

Definition pms_of (t tp : Scalar) (z : bytes) (klen : Z) : outcome TlcpError bytes :=
  let V := pmul (pmul generator tp) t in
  guard (is_identity V) v_identity (' (x, y) <- cipher_error (pms_point_xy_bytes V) ;; Ok (kdf_stream (x ++ y ++ z) klen)).

(** One side's computation, from its own secrets and the other's points. *)
Lemma pms_side ks kr kps kpr xl yl xp yp sp h hp z_a z_b klen : 0 < klen <= 16384 ->
  pms_parse_point (xl ++ yl) = Ok (pmul generator (nonzero_scalar kr)) -> pms_point_xy_bytes (pmul generator (nonzero_scalar kr)) = Ok (xl, yl) -> scalar_from_x_hat xl = Ok h ->
  pms_parse_point (xp ++ yp) = Ok (pmul generator (nonzero_scalar kpr)) -> pms_point_xy_bytes (pmul generator (nonzero_scalar kpr)) = Ok (xp, yp) -> scalar_from_x_hat xp = Ok hp ->
  pms_parse_point sp = Ok (pmul generator (nonzero_scalar kps)) ->
  compute_tlcp_ecdhe_pms (secret_bytes ks) (xl ++ yl) (secret_bytes kr) sp (xp ++ yp) z_a z_b klen =
    pms_of (implicit h (nonzero_scalar kr) (nonzero_scalar ks)) (implicit hp (nonzero_scalar kpr) (nonzero_scalar kps)) (z_a ++ z_b) klen.
Proof.
  intros B Pl Xl Hl Pp Xp Hp Ps. unfold compute_tlcp_ecdhe_pms. rewrite Pl, Pp, Ps. cbn [point_error map_err bind]. rewrite Xl, Xp. cbn [cipher_error map_err bind].
  rewrite Hl, Hp, !checked_scalar. cbn [cipher_error map_err bind]. rewrite implicit_point. fold (implicit h (nonzero_scalar kr) (nonzero_scalar ks)).
  unfold pms_of. set (t := implicit h _ _). set (tp := implicit hp _ _). destruct (is_identity (pmul generator tp)) eqn:I.
  - now rewrite (pmul_identity _ t I).
  - cbn [guard]. destruct (is_identity (pmul (pmul generator tp) t)); [reflexivity|]. cbn [guard]. destruct (pms_point_xy_bytes (pmul (pmul generator tp) t)) as [[x y]|e|]; [|reflexivity..].
    cbn [cipher_error map_err bind]. now rewrite pms_kdf.
Qed.

(** C16. The ECDHE pre-master secret of TLCP. From the same two pairs of static and
    ephemeral keys, and the same two identity hashes, client and server compute the
    same result for any length of 1 to 16384 bytes: the key stream over the agreed
    point, or, where that point is the identity, the same error. The transform of a
    coordinate that enters it, coded on two 64-bit words, is [2^127 + (x mod 2^127)]. *)
Theorem ecdhe_pms_agreement (client_static client_ephemeral server_static server_ephemeral : SecretKey) (z_a z_b : bytes) (klen : Z) :
  0 < klen <= 16384 ->
  let pub k := from_secret_scalar (nonzero_scalar k) in
  exists cs ce ss se hc hs, pms_parse_point cs = Ok (pub client_static) /\ pms_parse_point ce = Ok (pub client_ephemeral) /\
    pms_parse_point ss = Ok (pub server_static) /\ pms_parse_point se = Ok (pub server_ephemeral) /\
    scalar_from_x_hat (firstn 32 ce) = Ok hc /\ scalar_from_x_hat (firstn 32 se) = Ok hs /\
    let client := compute_tlcp_ecdhe_pms (secret_bytes client_static) ce (secret_bytes client_ephemeral) ss se z_a z_b klen in
    let server := compute_tlcp_ecdhe_pms (secret_bytes server_static) se (secret_bytes server_ephemeral) cs ce z_a z_b klen in
    let V := pmul generator (smul (sadd (smul hs (nonzero_scalar server_ephemeral)) (nonzero_scalar server_static))
                                  (sadd (smul hc (nonzero_scalar client_ephemeral)) (nonzero_scalar client_static))) in
    client = server /\
    (is_identity V = true -> client = Err v_identity) /\
    (is_identity V = false -> exists x y, encode_point false V = [0x04] ++ x ++ y /\ client = Ok (kdf_stream (x ++ y ++ z_a ++ z_b) klen)) /\
    (forall x, wf_bytes x = true -> len x = 32 -> from_be (x_hat_bytes x) = 2 ^ 127 + from_be x mod 2 ^ 127).
Proof.
  intros B pub. assert (P : forall k, exists x y, len x = 32 /\ pms_parse_point (x ++ y) = Ok (pmul generator (nonzero_scalar k)) /\
    pms_point_xy_bytes (pmul generator (nonzero_scalar k)) = Ok (x, y) /\ exists h, scalar_from_x_hat x = Ok h).
  { intros k. pose proof (nonzero_public k) as N. rewrite public_key_mul in N. destruct (pms_point _ N) as (x & y & Lx & _ & X). now exists x, y. }
  destruct (P client_static) as (x1 & y1 & _ & P1 & _), (P client_ephemeral) as (x2 & y2 & L2 & P2 & X2 & h2 & H2),
    (P server_static) as (x3 & y3 & _ & P3 & _), (P server_ephemeral) as (x4 & y4 & L4 & P4 & X4 & h4 & H4). unfold pub. rewrite !public_key_mul.
  exists (x1 ++ y1), (x2 ++ y2), (x3 ++ y3), (x4 ++ y4), h2, h4. do 4 (split; [assumption|]). rewrite !firstn_exact by (unfold len in *; lia). do 2 (split; [assumption|]). cbv zeta.
  rewrite (pms_side client_static client_ephemeral server_static server_ephemeral x2 y2 x4 y4 (x3 ++ y3) h2 h4),
    (pms_side server_static server_ephemeral client_static client_ephemeral x4 y4 x2 y2 (x1 ++ y1) h4 h2) by assumption. rewrite <- pmul_smul.
  fold (implicit h2 (nonzero_scalar client_ephemeral) (nonzero_scalar client_static)) (implicit h4 (nonzero_scalar server_ephemeral) (nonzero_scalar server_static)).
  set (tc := implicit h2 _ _). set (ts := implicit h4 _ _). split; [unfold pms_of; now rewrite (mul_comm tc ts)|]. split; [|split].
  - intros I. unfold pms_of. now rewrite I.
  - intros I. destruct (pms_point _ I) as (x & y & _ & E & _ & X & _). exists x, y. split; [exact E|]. unfold pms_of. rewrite I. cbn [guard]. now rewrite X.
  - intros x W Lx. now apply x_hat_value.
Qed.

(** The identity hash overflows a 16-bit count of bits from 8192 bytes on, although
    identifiers of up to 65535 bytes are let through. *)
Lemma identity_hash_bounds pub id :
  (len id < 8192 -> exists z, sm2_compute_z pub id = Ok z /\ len z = 32) /\
  (8192 <= len id <= 0xFFFF -> sm2_compute_z pub id = Panic) /\
  (0xFFFF < len id -> exists m, sm2_compute_z pub id = Err (HandshakeFailed m)).
Proof.
  pose proof (len_nonneg id). unfold sm2_compute_z, guard, as_u16, Sm3Hasher_hash, cipher_error. cbn [map_err bind].
  split; [|split]; intros B.
  - rewrite (proj2 (Z.ltb_ge _ _)), Z.mod_small, (proj2 (Z.leb_gt _ _)) by lia. eexists. split; [|apply len_sm3]. apply from_slice_ok, len_sm3.
  - now rewrite (proj2 (Z.ltb_ge _ _)), Z.mod_small, (proj2 (Z.leb_le _ _)) by lia.
  - rewrite (proj2 (Z.ltb_lt _ _)) by lia. now eexists.
Qed.
End PmsLemmas.

(** ** Signatures *)

Section AuthLemmas.
Context {C : Sm2Crate} {LC : Sm2Laws C}.

(** A signer and the verifier of the same key and identifier. *)
Lemma signer_and_verifier sk id : exists k vk, signer_new_with_distid (generate sk) id = Ok k /\
  Sm2Verifier_new (public_key_bytes_uncompressed (generate sk)) id = Ok vk /\
  forall m, exists sig, sign k m = Ok sig /\ len sig = 64 /\ Sm2Verifier_verify vk m sig = Ok tt.
Proof.
  destruct (signing_keys id sk) as (k & Ek & Ev). exists k, (verifying_key k). split; [exact (proj2 (map_err_ok_iff _ _ _) Ek)|].
  split; [exact (proj2 (map_err_ok_iff _ _ _) Ev)|]. intros m. destruct (signing_verifies sk id m) as (k' & sig & vk & K & S & _ & N & V & Ls).
  unfold signer_new_with_distid, sm2_map in K. cbn [private_key generate generate_with_distid] in K. rewrite Ek in K. injection K as <-.
  unfold Sm2Verifier_new, sm2_map, public_key_bytes_uncompressed in N. cbn [public_key generate generate_with_distid] in N. rewrite Ev in N. injection N as <-. now exists sig.
Qed.

Lemma der_signature_len raw : len raw = 64 -> len (sm2_signature_raw_to_der raw) < 65536.
Proof.
  intros Lr. unfold sm2_signature_raw_to_der. assert (L1 : len (firstn 32 raw) = 32) by (apply (len_firstn raw 32); lia).
  assert (L2 : len (skipn 32 raw) = 32) by (unfold len in *; rewrite length_skipn; lia). pose proof (integer_len_bound _ L1). pose proof (integer_len_bound _ L2).
  rewrite !len_app, !encode_integer_len, der_len_len by lia. rewrite (proj2 (Z.ltb_lt _ _)) by lia. change (len [48]) with 1. lia.
Qed.

Lemma signature_field_ok err s t sig : len sig < 65536 -> signature_field err s t (vec16 sig) = Ok sig.
Proof.
  intros B. pose proof (len_nonneg sig). destruct (cursor_vec16 (vec16 sig ++ []) 0 sig [] (cursor_start _) B) as (U & Sl & _ & Lv). rewrite app_nil_r in *.
  change (0 + 2) with 2 in *. rewrite len_nil in Lv. unfold signature_field, u16_at in *. cbn [guard]. rewrite (proj2 (Z.ltb_ge _ _)) by lia.
  assert (I : forall i, i = 0 \/ i = 1 -> exists b, index (E := TlcpError) (vec16 sig) i = Ok b /\ 0 <= b < 256).
  { intros i [-> | ->]; unfold vec16; cbn [be_bytes app]; (eexists; split; [reflexivity|apply as_u8_range]). }
  destruct (I 0) as (b0 & E0 & _); [now left|]. destruct (I 1) as (b1 & E1 & R1); [now right|]. rewrite E0, E1 in *. cbn [bind] in *. change (0 + 1) with 1 in U. rewrite E1 in U. cbn [bind] in U.
  apply ok_inj in U. cbn in U. rewrite lor_shiftl_add by lia. replace (b0 * 2 ^ 8 + b1) with (len sig) by lia. cbn [guard]. rewrite (proj2 (Z.ltb_ge _ _)) by lia. now rewrite Sl.
Qed.

(** The two forms of a signature lead to the same bytes, unless the DER form has 64 bytes. *)
Lemma raw_or_der_ok what raw : len raw = 64 -> raw_or_der what raw = Ok raw /\
  (len (sm2_signature_raw_to_der raw) <> 64 -> raw_or_der what (sm2_signature_raw_to_der raw) = Ok raw).
Proof.
  intros Lr. unfold raw_or_der. rewrite Lr. split; [reflexivity|]. intros N. rewrite (proj2 (Z.eqb_neq _ _) N), (signature_roundtrip raw Lr). reflexivity.
Qed.
(** What an accepted CertificateVerify has shown, and that a refused one changes nothing. *)
Lemma certificate_verify_iff {X : X509Parser} p id s s' : process_certificate_verify p id s = (s', Ok tt) <->
  s' = append_transcript p s /\ exists body rest sig raw cert pub vk,
    parse_handshake_message p = Ok (CertificateVerify, body, rest) /\
    signature_field HandshakeFailed "CertificateVerify body too short" "CertificateVerify signature truncated: " body = Ok sig /\
    raw_or_der "CV signature DER decode: " sig = Ok raw /\ hd_error (s_client_certs s) = Some cert /\ extract_sm2_pubkey_from_der cert = Ok pub /\
    Sm2Verifier_new pub (match id with Some d => d | None => "1234567812345678"%string end) = Ok vk /\ Sm2Verifier_verify vk (s_transcript s) raw = Ok tt.
Proof.
  unfold process_certificate_verify, extract_sm2_pubkey_from_cert_der, key_failure. rewrite bind_lift_iff. split.
  - intros ([[t body] rest] & Pm & Y). apply bind_failIf_iff in Y as (T & Y). apply bind_lift_iff in Y as (sig & Sg & Y). apply bind_lift_iff in Y as (raw & Rw & Y).
    rewrite bind_gets in Y. unfold Datatypes.id in Y. apply bind_lift_iff in Y as (cert & Ce & Y). apply bind_lift_iff in Y as (pub & Pu & Y). apply map_err_ok_iff, map_err_ok_iff in Pu.
    apply bind_lift_iff in Y as (vk & Vk & Y). apply map_err_ok_iff in Vk. apply bind_lift_iff in Y as ([] & Ve & Y). apply map_err_ok_iff in Ve. injection Y as <-.
    split; [reflexivity|]. exists body, rest, sig, raw, cert, pub, vk. destruct (hd_error (s_client_certs s)); [|discriminate]. injection Ce as ->. destruct t; try discriminate T. auto 10.
  - intros (-> & body & rest & sig & raw & cert & pub & vk & Pm & Sg & Rw & Ce & Pu & Vk & Ve). exists (CertificateVerify, body, rest). split; [exact Pm|].
    rewrite bind_failIf_iff. split; [reflexivity|]. rewrite bind_lift, Sg, bind_lift, Rw, bind_gets. unfold Datatypes.id. rewrite bind_lift, Ce. cbn [ok_or].
    rewrite bind_lift, Pu. cbn [map_err]. rewrite bind_lift, Vk. cbn [map_err]. rewrite bind_lift, Ve. reflexivity.
Qed.

Lemma certificate_verify_refused {X : X509Parser} p id s : snd (process_certificate_verify p id s) <> Ok tt -> fst (process_certificate_verify p id s) = s.
Proof.
  unfold process_certificate_verify. rewrite bind_lift. destruct (parse_handshake_message p) as [[[t body] rest]|e|]; [|reflexivity..]. rewrite bind_failIf. destruct (negb _); [reflexivity|].
  rewrite bind_lift. destruct (signature_field _ _ _ _) as [sig|e|]; [|reflexivity..]. rewrite bind_lift. destruct (raw_or_der _ _) as [raw|e|]; [|reflexivity..].
  rewrite bind_gets, bind_lift. destruct (ok_or _ _) as [cert|e|]; [|reflexivity..]. rewrite bind_lift. destruct (map_err _ _) as [pub|e|]; [|reflexivity..].
  rewrite bind_lift. destruct (key_failure _ (Sm2Verifier_new _ _)) as [vk|e|]; [|reflexivity..]. rewrite bind_lift. destruct (key_failure _ _) as [[]|e|]; [|reflexivity..].
  intros N. now destruct N.
Qed.

(** C31. The handshake's SM2 signatures. A ServerKeyExchange signed with a key, for an
    ephemeral key or for the encryption certificate, verifies on the client under the
    public key, from the bytes on the wire; a CertificateVerify whose signature, raw
    or in DER (of other than 64 bytes, which are taken for a raw one), was made over the server's transcript with the key of the client's
    first certificate is accepted and appended to the transcript; and one is accepted
    only if its signature verifies over the transcript under the key of that
    certificate, any other leaving the server as it was. *)
Theorem handshake_signatures {X : X509Parser} (sk : SecretKey) (id : string) (cr sr pub enc : bytes) (s : TlcpServerHandshake) :
  exists k vk, signer_new_with_distid (generate sk) id = Ok k /\ Sm2Verifier_new (public_key_bytes_uncompressed (generate sk)) id = Ok vk /\
  (len pub < 256 -> exists b, ske_generate pub (sign k) cr sr = Ok b /\ verify_ske_signature false (ske_body_to_bytes b) cr sr enc vk = Ok tt) /\
  (len enc < 2 ^ 24 -> exists b, ske_generate_ecc sm2_signature_raw_to_der (sign k) cr sr enc = Ok b /\ verify_ske_signature true (ske_body_to_bytes b) cr sr enc vk = Ok tt) /\
  (forall cert, hd_error (s_client_certs s) = Some cert -> extract_sm2_pubkey_from_der cert = Ok (public_key_bytes_uncompressed (generate sk)) ->
   exists raw, sign k (s_transcript s) = Ok raw /\ forall sig, sig = raw \/ sig = sm2_signature_raw_to_der raw /\ len sig <> 64 ->
     let p := hs_message CertificateVerify (vec16 sig) in process_certificate_verify p (Some id) s = (append_transcript p s, Ok tt)) /\
  (forall p d, snd (process_certificate_verify p d s) = Ok tt \/ fst (process_certificate_verify p d s) = s) /\
  (forall p d s', process_certificate_verify p d s = (s', Ok tt) -> s' = append_transcript p s /\
     exists body rest sig cert pub' vk' raw, parse_handshake_message p = Ok (CertificateVerify, body, rest) /\
       signature_field HandshakeFailed "CertificateVerify body too short" "CertificateVerify signature truncated: " body = Ok sig /\
       (raw = sig \/ sm2_signature_der_to_raw sig = Ok raw) /\ hd_error (s_client_certs s) = Some cert /\ extract_sm2_pubkey_from_der cert = Ok pub' /\
       Sm2Verifier_new pub' (match d with Some i => i | None => "1234567812345678"%string end) = Ok vk' /\ Sm2Verifier_verify vk' (s_transcript s) raw = Ok tt).
Proof.
  destruct (signer_and_verifier sk id) as (k & vk & K & V & Sv). exists k, vk. split; [exact K|]. split; [exact V|]. split; [|split; [|split; [|split]]].
  - intros B. destruct (Sv (ecdhe_signed cr sr pub)) as (sig & Es & Ls & Vs). unfold ske_generate. rewrite Es. eexists. split; [reflexivity|]. cbn [map_err bind].
    unfold verify_ske_signature. set (b := SkeEcdhe _). pose proof (ske_parse b []) as Pb. rewrite app_nil_r in Pb. cbn [ske_mode b] in Pb. rewrite Pb by (cbn [ske_wf b ephemeral_public ecdhe_signature]; rewrite (proj2 (Z.ltb_lt _ _)) by lia; apply Z.ltb_lt; lia).
    cbn [bind b ecdhe_signature ephemeral_public]. rewrite (proj1 (raw_or_der_ok _ _ Ls)). cbn [bind]. now rewrite Vs.
  - intros B. destruct (Sv (cert_signed cr sr enc)) as (sig & Es & Ls & Vs). unfold ske_generate_ecc, guard. rewrite (proj2 (Z.ltb_ge _ _)), Es by lia. cbn [map_err bind]. rewrite Ls.
    eexists. split; [reflexivity|]. unfold verify_ske_signature. cbn [ske_body_to_bytes]. rewrite signature_field_ok by now apply der_signature_len. cbn [bind].
    rewrite (signature_roundtrip sig Ls). cbn [key_failure map_err bind]. now rewrite Vs.
  - intros cert Ce Pu. destruct (Sv (s_transcript s)) as (raw & Es & Ls & Vs). exists raw. split; [exact Es|]. intros sig F. apply certificate_verify_iff. split; [reflexivity|].
    assert (Bs : len sig < 65536) by (destruct F as [-> |[-> _]]; [lia|now apply der_signature_len]). pose proof (len_nonneg sig).
    exists (vec16 sig), [], sig, raw, cert, (public_key_bytes_uncompressed (generate sk)), vk. split; [|split; [|split]]; [..|auto].
    + rewrite <- (app_nil_r (hs_message _ _)). apply parse_message. unfold vec16. rewrite len_app, len_be_bytes. lia.
    + now apply signature_field_ok.
    + destruct F as [-> |[-> N]]; [now apply raw_or_der_ok|now apply raw_or_der_ok].
  - intros p d. destruct (snd (process_certificate_verify p d s)) as [[]|e|] eqn:Y; [now left|right; apply certificate_verify_refused; now rewrite Y..].
  - intros p d s' Y. apply certificate_verify_iff in Y as (-> & body & rest & sig & raw & cert & pub' & vk' & Pm & Sg & Rw & Ce & Pu & Vk & Ve).
    split; [reflexivity|]. exists body, rest, sig, cert, pub', vk', raw. do 2 (split; [assumption|]). split; [|auto]. unfold raw_or_der in Rw.
    destruct (len sig =? 64); [left; now injection Rw|right; exact (proj1 (map_err_ok_iff _ _ _) Rw)].
Qed.
End AuthLemmas.

(** ** Points and RSA on the wire *)

Lemma wire_point bx by_ x y : parses bx x -> parses by_ y -> g1_point_from_uncompressed ([0x04] ++ bx ++ by_) = Ok (from_affine x y).
Proof.
  intros [Lx Px] [Ly Py]. unfold g1_point_from_uncompressed, wire_coordinate, guard. rewrite !len_app, Lx, Ly. change (len [4]) with 1.
  cbn [Z.add Z.eqb Pos.eqb Pos.add Pos.succ negb SM9_G1_WIRE_LEN]. change (index ([4] ++ bx ++ by_) 0) with (Ok (E := TlcpError) 4). cbn [bind Z.eqb Pos.eqb negb].
  rewrite (slice_at _ [4] bx by_), (slice_at _ ([4] ++ bx) by_ []) by (rewrite ?app_nil_r, <- ?app_assoc, ?len_app; change (len [4]) with 1; trivial; lia).
  cbn [bind]. rewrite Px. cbn [map_err bind]. now rewrite Py.
Qed.

(** SM9 points and RSA in the TLCP handshake. A valid point other than the one at
    infinity survives its 65-byte form, the point at infinity has none, and nothing
    checks that the coordinates lie on the curve. What an RSA key signs, its public
    half verifies, and what the public half encrypts, the key decrypts; the string
    signed is the 19-byte prefix and the digest, and is not the DigestInfo it is meant
    to be: after the 12 bytes of the algorithm's SEQUENCE comes no OCTET STRING. *)
Theorem wire_points_and_rsa {H : Sm3Crate} {L : Sm3Laws H} {R : RsaCrate} {LR : RsaLaws R} (P : G1Point) (k : RsaPrivateKey) (p : RsaPublicKey) (data rng : bytes) :
  pt_ok ZP_field P = true -> to_public_key k = Ok p ->
  match aff ZP_field P with
  | Inf => exists m, g1_point_to_uncompressed P = Err (InvalidMessage m)
  | Aff _ _ => exists b Q, g1_point_to_uncompressed P = Ok b /\ len b = 65 /\ g1_point_from_uncompressed b = Ok Q /\ same_g1 P Q
  end /\
  (exists Q, g1_point_from_uncompressed (4 :: repeat 0 64) = Ok Q /\ is_on_curve Q = false) /\
  (forall sig, RsaSigner_sign k data = Ok sig -> RsaVerifier_verify p data sig = Ok tt) /\
  (forall c, RsaEncryptor_encrypt rng p data = Ok c -> RsaDecryptor_decrypt k c = Ok data) /\
  (exists algorithm rest, sm3_pkcs1_v15_encoding data = Ok ([0x30; 49; 0x30; 12] ++ algorithm ++ rest) /\ len algorithm = 12 /\ len (algorithm ++ rest) = 47 /\
     hd 0 rest <> 0x04).
Proof.
  intros O K. apply map_err_ok_iff in K. split; [|split; [|split; [|split]]].
  - destruct (aff ZP_field P) eqn:A.
    + unfold g1_point_to_uncompressed, to_affine. pose proof (j_to_affine_spec ZP_field P O) as T. destruct (j_to_affine P) as [[x y]|]; [|now eexists].
      destruct T as (_ & _ & T). rewrite A in T. discriminate.
    + destruct (g1_affine P O) as (a & b & T & X & Y & S); [rewrite A; discriminate|]. unfold g1_point_to_uncompressed. rewrite T. eexists _, _. split; [reflexivity|].
      pose proof (parses_to_bytes _ X) as Px. pose proof (parses_to_bytes _ Y) as Py. split; [rewrite !len_app, (proj1 Px), (proj1 Py); reflexivity|].
      split; [exact (wire_point _ _ _ _ Px Py)|exact S].
  - exists (from_affine fe_ZERO fe_ZERO). split; [|vm_compute; reflexivity]. apply (wire_point (repeat 0 32) (repeat 0 32)); split; vm_compute; reflexivity.
  - unfold RsaSigner_sign, RsaVerifier_verify, sm3_pkcs1_v15_encoding, sm3_hash. rewrite from_slice_ok by apply len_sm3. cbn [bind]. intros sig S. apply map_err_ok_iff in S.
    apply map_err_ok_iff. now apply (rsa_sign_verify k).
  - intros c E. apply map_err_ok_iff in E. apply map_err_ok_iff. now apply (rsa_encrypt_decrypt k p rng).
  - exists (firstn 12 (skipn 4 SM3_PKCS1_V15_PREFIX)), (skipn 16 SM3_PKCS1_V15_PREFIX ++ sm3 data). unfold sm3_pkcs1_v15_encoding, sm3_hash. rewrite from_slice_ok by apply len_sm3.
    split; [reflexivity|]. split; [reflexivity|]. split; [rewrite app_assoc, len_app, len_sm3; reflexivity|discriminate].
Qed.

(** ** Instances *)

(** The group of three elements, acted on by the field of three elements. *)
Inductive F3 : Type := f0 | f1 | f2.
Definition f3_add (a b : F3) : F3 :=
  match a, b with
  | f0, x | x, f0 => x
  | f1, f1 => f2 | f2, f2 => f1
  | _, _ => f0
  end.
Definition f3_mul (a b : F3) : F3 :=
  match a, b with
  | f0, _ | _, f0 => f0
  | f1, x | x, f1 => x
  | f2, f2 => f1
  end.
Definition f3_zero (a : F3) : bool := match a with f0 => true | _ => false end.
Definition f3_coordinate (a : F3) : option bytes := match a with f0 => None | f1 => Some (repeat 1 32) | f2 => Some (repeat 2 32) end.
Definition f3_decode (b : bytes) : F3 := match nth 1 b 0 with 1 => f1 | 2 => f2 | _ => f0 end.
Definition f3_secret (k : bool) : F3 := if k then f2 else f1.

#[local] Instance f3_sm2 : Sm2Crate := {
  Point := F3; Scalar := F3; SecretKey := bool; SigningKey := unit; VerifyingKey := unit; Signature := Z;
  generator := f1;
  pmul := f3_mul;
  is_identity := f3_zero;
  encode_point c P := match f3_coordinate P with None => [0] | Some x => if c : bool then 2 :: x else 4 :: x ++ x end;
  point_x := f3_coordinate;
  point_y := f3_coordinate;
  sec1_error _ := None;
  decode_point b := Some (f3_decode b);
  public_from_sec1 b := Ok (f3_decode b);
  public_from_encoded b := Some (f3_decode b);
  secret_from_bytes b := Ok (nth 0 b 0 =? 2);
  secret_bytes k := if k : bool then repeat 2 32 else repeat 1 32;
  nonzero_scalar := f3_secret;
  scalar_from_bytes b := Some (f3_secret (nth 0 b 0 =? 2));
  from_secret_scalar := f3_mul f1;
  signing_key_new _ _ := Ok tt;
  try_sign _ m := toy_sum m;
  try_sign_with_rng _ m _ := Ok (toy_sum m);
  verifying_key _ := tt;
  verifying_key_from_sec1 _ _ := Ok tt;
  verify_error _ m s := if s =? toy_sum m then None else Some "signature error"%string;
  signature_bytes s := repeat s 64;
  signature_from_bytes b := Ok (nth 0 b 0)
}.

#[local] Instance f3_sm2_laws : Sm2Laws f3_sm2.
Proof.
  constructor; cbn; try (intros; reflexivity).
  - intros [] []; split; reflexivity.
  - intros [] N; [discriminate|exists (repeat 1 32), (repeat 1 32)|exists (repeat 2 32), (repeat 2 32)]; repeat split.
  - intros [] [] N; reflexivity || discriminate.
  - now intros [] [].
  - intros [] [] N; reflexivity || discriminate.
  - intros [] [] N; reflexivity || discriminate.
  - now intros [].
  - now intros [].
  - intros id k. exists tt. now split.
  - intros _ m. now rewrite Z.eqb_refl.
  - intros s. now split.
  - intros id b. discriminate.
Qed.

#[local] Instance f3_group : Sm2Group f3_sm2 := {
  verifying_key_new _ _ := Ok tt;
  padd := f3_add; sadd := f3_add; smul := f3_mul;
  scalar_from_repr _ := Some f1;
  scalar_is_zero := f3_zero
}.

#[local] Instance f3_group_laws : Sm2GroupLaws f3_sm2 f3_group.
Proof.
  constructor; cbn; try (intros; reflexivity).
  - now intros [] [] [].
  - now intros [] [] [].
  - now intros [] [] [].
  - now intros [] [].
  - now intros [] [].
  - intros []; [exists true|exists false]; now split.
  - now intros [].
  - now intros [] [].
  - intros b _ _ _. now exists f1.
Qed.

Lemma ecdhe_pms_agreement_witness : exists cs ce ss se pms,
  pms_parse_point (C := f3_sm2) ce = Ok f1 /\ pms_parse_point (C := f3_sm2) se = Ok f2 /\
  compute_tlcp_ecdhe_pms (H := toy_sm3) (C := f3_sm2) (repeat 1 32) ce (repeat 1 32) ss se [7] [8] 48 = Ok pms /\
  compute_tlcp_ecdhe_pms (H := toy_sm3) (C := f3_sm2) (repeat 2 32) se (repeat 2 32) cs ce [7] [8] 48 = Ok pms.
Proof.
  destruct (ecdhe_pms_agreement (H := toy_sm3) (LC := f3_sm2_laws) (LG := f3_group_laws) false false true true [7] [8] 48)
    as (cs & ce & ss & se & hc & hs & _ & Pc & _ & Ps & Hc & Hs & E & _ & V & _); [lia|].
  assert (F : forall b h, scalar_from_x_hat (C := f3_sm2) b = Ok h -> h = f1) by (intros b h X; now injection X).
  apply F in Hc, Hs. subst hc hs. destruct (V eq_refl) as (x & y & _ & Y). rewrite Y in E. exists cs, ce, ss, se. eexists. do 2 (split; [assumption|]). split; [exact Y|exact (eq_sym E)].
Defined.

#[local] Instance toy_rsa : RsaCrate := {
  RsaPrivateKey := unit; RsaPublicKey := unit;
  private_new _ _ := Ok tt; private_from_pem _ := Ok tt; private_from_der _ := Ok tt;
  rsa_n _ := 15; rsa_e _ := 3;
  public_new _ _ := Ok tt; public_from_pem _ := Ok tt; public_from_der _ := Ok tt;
  sign_unprefixed _ h := Ok (rev h);
  verify_unprefixed _ h s := if bytes_eqb (rev h) s then Ok tt else Err "verification error"%string;
  encrypt_with_rng _ _ m := Ok (rev m);
  pkcs1v15_decrypt _ c := Ok (rev c)
}.
#[local] Instance toy_rsa_laws : RsaLaws toy_rsa.
Proof.
  constructor; cbn; [intros _ _ h s _ X; injection X as <-; now rewrite bytes_eqb_refl|]. intros _ _ rng m c _ X. injection X as <-. now rewrite rev_involutive.
Qed.

Lemma wire_points_and_rsa_witness :
  (exists b Q, g1_point_to_uncompressed g1_generator = Ok b /\ g1_point_from_uncompressed b = Ok Q) /\
  RsaVerifier_verify (H := toy_sm3) (R := toy_rsa) tt [1; 2] (rev (SM3_PKCS1_V15_PREFIX ++ @sm3 toy_sm3 [1; 2])) = Ok tt.
Proof.
  destruct (wire_points_and_rsa (H := toy_sm3) (L := toy_sm3_laws) (LR := toy_rsa_laws) g1_generator tt tt [1; 2] []) as (P & _ & S & _); [vm_compute; reflexivity|reflexivity|]. split.
  - rewrite (proj2 generator_spec) in P. destruct P as (b & Q & E & _ & D & _). exists b, Q. split; [exact E|exact D].
  - apply S. reflexivity.
Defined.

Lemma handshake_signatures_witness : exists k vk, signer_new_with_distid (C := toy_sm2) (generate (C := toy_sm2) tt) "id" = Ok k /\
  exists b, ske_generate (repeat 4 65) (sign (C := toy_sm2) k) (repeat 1 32) (repeat 2 32) = Ok b /\
    verify_ske_signature (C := toy_sm2) false (ske_body_to_bytes b) (repeat 1 32) (repeat 2 32) [] vk = Ok tt.
Proof.
  destruct (handshake_signatures (LC := toy_sm2_laws) (X := toy_x509) tt "id" (repeat 1 32) (repeat 2 32) (repeat 4 65) [] (server_new 0 [])) as (k & vk & K & _ & S & _).
  exists k, vk. split; [exact K|]. apply S. reflexivity.
Defined.
