(* ===== verification/TlcpRecord.v ===== *)
(** The TLCP record layer (gm-tlcp/src/tlcp/mod.rs, [TlcpStream]): record
    protection with SM4-GCM and SM4-CBC + HMAC-SM3, and the async read, write and
    close operations over a transport.

    The transport is an argument with the operations of [Transport] (tokio's
    [read_exact], [write_all] and [flush]); [pipe] is the in-memory instance. The
    CBC initialisation vector comes from the system generator and is an argument
    of the operations that draw it. Metrics calls are left out. *)

From Stdlib Require Import String Bool ZArith Lia List.
From S2P Require Import Prelude Bytes Effects Sm4 Sm3 Tlcp TlcpKeys TlcpMessages TlcpSession.
Import ListNotations.
Open Scope Z_scope.

Record TlcpStream (T : Type) : Type := {
  inner : T;
  write_key : bytes;
  read_key : bytes;
  write_mac_key : bytes;
  read_mac_key : bytes;
  write_nonce : bytes;
  read_nonce : bytes;
  write_seq : Z;
  read_seq : Z;
  read_buf : bytes;
  read_buf_pos : Z;
  cipher_enc : option Sm4Cipher;
  cipher_dec : option Sm4Cipher;
  close_notify_sent : bool;
  is_client : bool;
  session_id : bytes;
  cached_resumed_session : option TlcpResumedSession;
  cipher_suite : TlcpCipherSuite;
  gmssl_padding_compat : bool;
  peer_client_certs_cache : list bytes;
  peer_server_certs_cache : option TlcpCertPair
}.
Arguments inner {T}. Arguments write_key {T}. Arguments read_key {T}. Arguments write_mac_key {T}.
Arguments read_mac_key {T}. Arguments write_nonce {T}. Arguments read_nonce {T}. Arguments write_seq {T}.
Arguments read_seq {T}. Arguments read_buf {T}. Arguments read_buf_pos {T}. Arguments cipher_enc {T}.
Arguments cipher_dec {T}. Arguments close_notify_sent {T}. Arguments is_client {T}. Arguments session_id {T}.
Arguments cached_resumed_session {T}. Arguments cipher_suite {T}. Arguments gmssl_padding_compat {T}.
Arguments peer_client_certs_cache {T}. Arguments peer_server_certs_cache {T}.

Definition TLCP_VERSION : bytes := [0x01; 0x01].

(** [copy_iv::<12>] *)
Definition copy_iv (src : bytes) : bytes := firstn 12 (src ++ repeat 0 12).

Section Stream.
Context {T : Type} {C : Sm4Crates} {H : Sm3Crate}.
Local Abbreviation stream := (TlcpStream T).

Definition stream_new (inner : T) (km : TlcpKeyMaterial) (suite : TlcpCipherSuite) (is_client : bool) (session_id : bytes)
    : outcome TlcpError stream :=
  let pick {A : Type} (c s : A) := if is_client then c else s in
  Ok {| inner := inner;
     write_key := pick (client_enc_key km) (server_enc_key km);
     read_key := pick (server_enc_key km) (client_enc_key km);
     write_mac_key := pick (client_mac_key km) (server_mac_key km);
     read_mac_key := pick (server_mac_key km) (client_mac_key km);
     write_nonce := pick (copy_iv (client_iv km)) (copy_iv (server_iv km));
     read_nonce := pick (copy_iv (server_iv km)) (copy_iv (client_iv km));
     write_seq := 0; read_seq := 0; read_buf := []; read_buf_pos := 0;
     cipher_enc := None; cipher_dec := None; close_notify_sent := false;
     is_client := is_client; session_id := session_id; cached_resumed_session := None; cipher_suite := suite;
     gmssl_padding_compat := false; peer_client_certs_cache := []; peer_server_certs_cache := None |}.

(** The fields the operations assign; keys, nonces and suite never change. *)
Definition with_fields (s : stream) (t : T) (wseq rseq : Z) (buf : bytes) (pos : Z) (ce cd : option Sm4Cipher) (closed : bool)
    : stream :=
  {| inner := t; write_key := write_key s; read_key := read_key s; write_mac_key := write_mac_key s;
     read_mac_key := read_mac_key s; write_nonce := write_nonce s; read_nonce := read_nonce s;
     write_seq := wseq; read_seq := rseq; read_buf := buf; read_buf_pos := pos; cipher_enc := ce;
     cipher_dec := cd; close_notify_sent := closed; is_client := is_client s; session_id := session_id s;
     cached_resumed_session := cached_resumed_session s; cipher_suite := cipher_suite s;
     gmssl_padding_compat := gmssl_padding_compat s; peer_client_certs_cache := peer_client_certs_cache s;
     peer_server_certs_cache := peer_server_certs_cache s |}.

Definition set_inner (t : T) (s : stream) : stream :=
  with_fields s t (write_seq s) (read_seq s) (read_buf s) (read_buf_pos s) (cipher_enc s) (cipher_dec s) (close_notify_sent s).
Definition set_write_seq (n : Z) (s : stream) : stream :=
  with_fields s (inner s) n (read_seq s) (read_buf s) (read_buf_pos s) (cipher_enc s) (cipher_dec s) (close_notify_sent s).
Definition set_read_seq (n : Z) (s : stream) : stream :=
  with_fields s (inner s) (write_seq s) n (read_buf s) (read_buf_pos s) (cipher_enc s) (cipher_dec s) (close_notify_sent s).
Definition set_cipher_enc (c : Sm4Cipher) (s : stream) : stream :=
  with_fields s (inner s) (write_seq s) (read_seq s) (read_buf s) (read_buf_pos s) (Some c) (cipher_dec s) (close_notify_sent s).
Definition set_cipher_dec (c : Sm4Cipher) (s : stream) : stream :=
  with_fields s (inner s) (write_seq s) (read_seq s) (read_buf s) (read_buf_pos s) (cipher_enc s) (Some c) (close_notify_sent s).
Definition set_closed (s : stream) : stream :=
  with_fields s (inner s) (write_seq s) (read_seq s) (read_buf s) (read_buf_pos s) (cipher_enc s) (cipher_dec s) true.

Definition key_error (e : CryptoError) : TlcpError := CipherError ("SM4 key error: " +++ debug_crypto e)%string.

Definition get_cipher_enc : M stream TlcpError Sm4Cipher := fun s =>
  match cipher_enc s with
  | Some c => (s, Ok c)
  | None =>
      match Sm4Cipher_new (write_key s) with
      | Ok c => (set_cipher_enc c s, Ok c)
      | Err e => (s, Err (key_error e))
      | Panic => (s, Panic)
      end
  end.

Definition get_cipher_dec : M stream TlcpError Sm4Cipher := fun s =>
  match cipher_dec s with
  | Some c => (s, Ok c)
  | None =>
      match Sm4Cipher_new (read_key s) with
      | Ok c => (set_cipher_dec c s, Ok c)
      | Err e => (s, Err (key_error e))
      | Panic => (s, Panic)
      end
  end.

(** ** Writing *)

Definition record_header (content_type ct_len : Z) : bytes :=
  content_type :: TLCP_VERSION ++ be_bytes 2 (as_u16 ct_len).

(** The 13 bytes of associated data: sequence number, type, version, and the
    plaintext length. *)
Definition gcm_aad (seq : Z) (head3 : bytes) (pt_len : Z) : bytes :=
  be_bytes 8 seq ++ head3 ++ be_bytes 2 (as_u16 pt_len).

Definition gcm_seal (content_type : Z) (plaintext : bytes) : M stream TlcpError (bytes * bytes * bytes * bytes) :=
  write_seq <-- gets write_seq ;;;
  seq <-- lift (usize_sub write_seq 1) ;;;
  base <-- gets write_nonce ;;;
  nonce <-- lift (next_nonce base seq) ;;;
  let seq_bytes := be_bytes 8 seq in
  let header := record_header content_type (8 + len plaintext + 16) in
  let aad := gcm_aad seq (content_type :: TLCP_VERSION) (len plaintext) in
  cipher <-- get_cipher_enc ;;;
  sealed <-- lift (map_err (fun e => CipherError ("GCM encryption failed: " +++ debug_crypto e)%string)
                (encrypt_gcm cipher plaintext nonce aad)) ;;;
  ret (header, seq_bytes, fst sealed, snd sealed).

(** HMAC-SM3 input: sequence number, type, version, plaintext length, plaintext. *)
Definition mac_input (seq : Z) (head3 plaintext : bytes) : bytes :=
  be_bytes 8 seq ++ head3 ++ be_bytes 2 (as_u16 (len plaintext)) ++ plaintext.

Definition cbc_pad_len (inner_len : Z) : Z :=
  (SM4_BLOCK_SIZE - (inner_len + 1) mod SM4_BLOCK_SIZE) mod SM4_BLOCK_SIZE.

Definition io_key_error (e : TlcpError) : string := ("SM4 key error: " +++ display_tlcp e)%string.

Definition encrypt_cbc_record_with_type (iv : bytes) (content_type : Z) (plaintext : bytes) : M stream string bytes :=
  write_seq <-- gets write_seq ;;;
  seq <-- lift (usize_sub write_seq 1) ;;;
  mac_key <-- gets write_mac_key ;;;
  hmac <-- lift (map_err (fun e => "HMAC-SM3 failed: " +++ debug_crypto e)%string
              (compute (Sm3Hmac_new mac_key) (mac_input seq (content_type :: TLCP_VERSION) plaintext))) ;;;
  let inner_len := len plaintext + SM3_HMAC_LENGTH in
  let pad_len := cbc_pad_len inner_len in
  let pad_byte := as_u8 pad_len in
  let inner := plaintext ++ hmac ++ repeat pad_byte (Z.to_nat pad_len) ++ [pad_byte] in
  cipher <-- mapM_err io_key_error get_cipher_enc ;;;
  ciphertext <-- lift (map_err (fun e => "CBC encryption failed: " +++ debug_crypto e)%string
                   (encrypt_cbc_raw cipher inner iv)) ;;;
  let ct_len := SM4_CBC_IV_LENGTH + len ciphertext in
  ret (record_header content_type ct_len ++ iv ++ ciphertext).

Context {TT : Transport T}.

Definition on_inner {A : Type} (m : M T string A) : M stream TlcpError A := fun s =>
  let '(t, o) := m (inner s) in (set_inner t s, map_err IoError o).

Definition write_gcm_with_type (content_type : Z) (plaintext : bytes) : M stream TlcpError unit :=
  sealed <-- gcm_seal content_type plaintext ;;;
  let '(header, seq_bytes, ciphertext, tag) := sealed in
  on_inner (write_all header) ;;;
  on_inner (write_all seq_bytes) ;;;
  on_inner (write_all ciphertext) ;;;
  on_inner (write_all tag) ;;;
  on_inner flush.

Definition write_cbc_with_type (iv : bytes) (content_type : Z) (plaintext : bytes) : M stream TlcpError unit :=
  record <-- mapM_err CipherError (encrypt_cbc_record_with_type iv content_type plaintext) ;;;
  on_inner (write_all record) ;;;
  on_inner flush.

(** [self.write_seq = self.write_seq.checked_add(1).ok_or(SequenceOverflow)?] *)
Definition bump_write_seq : M stream TlcpError unit := fun s =>
  if write_seq s =? u64_max then (s, Err SequenceOverflow) else (set_write_seq (write_seq s + 1) s, Ok tt).

Definition write_encrypted_record_with_type (iv : bytes) (content_type : Z) (plaintext : bytes) : M stream TlcpError unit :=
  bump_write_seq ;;;
  suite <-- gets cipher_suite ;;;
  if gcm suite then write_gcm_with_type content_type plaintext
  else write_cbc_with_type iv content_type plaintext.

Definition write_application_data (iv plaintext : bytes) : M stream TlcpError unit :=
  write_encrypted_record_with_type iv TLCP_RECORD_TYPE_APP_DATA plaintext.

Definition close (iv : bytes) : M stream TlcpError unit :=
  closed <-- gets close_notify_sent ;;;
  if closed : bool then ret tt
  else
    bump_write_seq ;;;
    suite <-- gets cipher_suite ;;;
    (if gcm suite then write_gcm_with_type TLCP_RECORD_TYPE_APP_DATA [0x01; 0x00]
     else write_cbc_with_type iv TLCP_RECORD_TYPE_APP_DATA [0x01; 0x00]) ;;;
    modify set_closed.

(** ** Reading *)

Definition decrypt_gcm_record (buf header : bytes) : M stream TlcpError bytes :=
  failIf (len buf <? 8 + 16) (HandshakeFailed "TLCP GCM record too short") ;;;
  n <-- lift (usize_sub (len buf) 16) ;;;
  explicit_nonce_and_ct <-- lift (slice_to buf n) ;;;
  tag <-- lift (slice_from buf n) ;;;
  ciphertext <-- lift (slice_from explicit_nonce_and_ct 8) ;;;
  read_seq <-- gets read_seq ;;;
  seq <-- lift (usize_sub read_seq 1) ;;;
  base <-- gets read_nonce ;;;
  nonce <-- lift (next_nonce base seq) ;;;
  head3 <-- lift (slice header 0 3) ;;;
  let aad := gcm_aad seq head3 (len ciphertext) in
  cipher <-- get_cipher_dec ;;;
  lift (map_err (fun e => CipherError ("GCM decryption failed: " +++ debug_crypto e)%string)
          (Sm4.decrypt_gcm cipher ciphertext nonce aad tag)).

(** [decrypt_cbc] from the decrypted bytes on: padding, then MAC. *)
Definition cbc_open_inner (decrypted header : bytes) : M stream TlcpError bytes :=
  failIf (len decrypted =? 0) (HandshakeFailed "TLCP CBC empty plaintext") ;;;
  pad_len <-- lift (index decrypted (len decrypted - 1)) ;;;
  failIf (SM4_BLOCK_SIZE <? pad_len) (HandshakeFailed "TLCP CBC invalid padding (length byte > block size)") ;;;
  let pad_consumed := pad_len + 1 in
  failIf (len decrypted <? pad_consumed) (HandshakeFailed "TLCP CBC invalid padding (length byte overflows record)") ;;;
  padding <-- lift (slice decrypted (len decrypted - pad_consumed) (len decrypted - 1)) ;;;
  failIf (negb (forallb (fun b => b =? pad_len) padding)) (HandshakeFailed "TLCP CBC malformed padding") ;;;
  let unpadded_len := len decrypted - pad_consumed in
  failIf (unpadded_len <? SM3_HMAC_LENGTH) (HandshakeFailed "TLCP CBC inner too short for MAC") ;;;
  let plaintext_len := unpadded_len - SM3_HMAC_LENGTH in
  plaintext <-- lift (slice_to decrypted plaintext_len) ;;;
  mac_received <-- lift (slice decrypted plaintext_len unpadded_len) ;;;
  read_seq <-- gets read_seq ;;;
  seq <-- lift (usize_sub read_seq 1) ;;;
  head3 <-- lift (slice header 0 3) ;;;
  mac_key <-- gets read_mac_key ;;;
  hmac_computed <-- lift (map_err (fun e => CipherError ("HMAC-SM3 compute failed: " +++ debug_crypto e)%string)
                       (compute (Sm3Hmac_new mac_key) (mac_input seq head3 plaintext))) ;;;
  failIf (negb (bytes_eqb mac_received hmac_computed)) (HandshakeFailed "TLCP CBC HMAC verification failed") ;;;
  ret plaintext.

Definition decrypt_cbc_record (buf header : bytes) : M stream TlcpError bytes :=
  failIf (len buf <? SM4_CBC_IV_LENGTH + SM4_BLOCK_SIZE + SM3_HMAC_LENGTH) (HandshakeFailed "TLCP CBC record too short") ;;;
  iv <-- lift (slice_to buf SM4_CBC_IV_LENGTH) ;;;
  ciphertext <-- lift (slice_from buf SM4_CBC_IV_LENGTH) ;;;
  cipher <-- get_cipher_dec ;;;
  decrypted <-- lift (map_err (fun _ => HandshakeFailed "TLCP CBC decryption failed") (decrypt_cbc_raw cipher ciphertext iv)) ;;;
  cbc_open_inner decrypted header.

Definition bump_read_seq : M stream TlcpError unit := fun s =>
  if read_seq s =? u64_max then (s, Err SequenceOverflow) else (set_read_seq (read_seq s + 1) s, Ok tt).

Definition alert_error (buf : bytes) : TlcpError :=
  TlsRecordError ("TLCP alert: level=" +++ dec (nth 0 buf 0) +++ " description=" +++ dec (nth 1 buf 0))%string.

(** [read_application_data] from the checked header on. *)
Definition read_record_body (header : bytes) (content_type ct_len : Z) : M stream TlcpError bytes :=
  if (content_type =? TLCP_RECORD_TYPE_APP_DATA) || (content_type =? TLCP_RECORD_TYPE_HANDSHAKE) then
    buf <-- on_inner (read_exact ct_len) ;;;
    bump_read_seq ;;;
    suite <-- gets cipher_suite ;;;
    if gcm suite then decrypt_gcm_record buf header else decrypt_cbc_record buf header
  else if content_type =? TLCP_RECORD_TYPE_ALERT then
    buf <-- on_inner (read_exact ct_len) ;;;
    if (2 <=? len buf) && (nth 0 buf 0 =? 0x01) && (nth 1 buf 0 =? 0x00) then ret []
    else fail (alert_error buf)
  else fail (TlsRecordError ("unexpected TLCP content type: 0x" +++ hex02 content_type)%string).

Definition read_application_data : M stream TlcpError bytes :=
  header <-- on_inner (read_exact 5) ;;;
  content_type <-- lift (index header 0) ;;;
  v0 <-- lift (index header 1) ;;;
  v1 <-- lift (index header 2) ;;;
  l0 <-- lift (index header 3) ;;;
  l1 <-- lift (index header 4) ;;;
  let ct_len := from_be [l0; l1] in
  failIf (negb (bytes_eqb [v0; v1] TLCP_VERSION))
    (TlsRecordError ("unexpected TLCP version: " +++ hex02 v0 +++ hex02 v1)%string) ;;;
  failIf (TLCP_MAX_RECORD_SIZE <? ct_len) (HandshakeFailed "TLCP record exceeds size limit") ;;;
  read_record_body header content_type ct_len.
End Stream.

(** ** Plaintext records of the handshake phase *)

Definition write_handshake_record {T : Type} {TT : Transport T} (msg : bytes) : M T string unit :=
  let record := [TLCP_RECORD_TYPE_HANDSHAKE] ++ TLCP_VERSION_1_0 ++ be_bytes 2 (as_u16 (len msg)) ++ msg in
  write_all record ;;; flush.

Definition read_plaintext_record {T : Type} {TT : Transport T} : M T string (Z * bytes) :=
  header <-- read_exact 5 ;;;
  content_type <-- lift (index header 0) ;;;
  l0 <-- lift (index header 3) ;;;
  l1 <-- lift (index header 4) ;;;
  let n := from_be [l0; l1] in
  failIf (TLCP_MAX_RECORD_SIZE <? n) ("Record too large: " +++ dec n +++ " bytes")%string ;;;
  payload <-- read_exact n ;;;
  ret (content_type, payload).

(** ** The stream invariant *)

Record stream_inv {T : Type} (s : TlcpStream T) : Prop := {
  inv_write_key : len (write_key s) = 16;
  inv_read_key : len (read_key s) = 16;
  inv_write_nonce : len (write_nonce s) = 12 /\ wf_bytes (write_nonce s) = true;
  inv_read_nonce : len (read_nonce s) = 12 /\ wf_bytes (read_nonce s) = true;
  inv_write_seq : 0 <= write_seq s <= u64_max;
  inv_read_seq : 0 <= read_seq s <= u64_max;
  inv_cipher_enc : cache_ok (write_key s) (cipher_enc s);
  inv_cipher_dec : cache_ok (read_key s) (cipher_dec s)
}.

(** ** What a protected record is *)

Section Protection.
Context {C : Sm4Crates} {H : Sm3Crate}.

Definition head3 (content_type : Z) : bytes := content_type :: TLCP_VERSION.

(** The bodies a reader with these keys must take for [p] at [seq]: in GCM any
    8 explicit bytes before the sealed data, in CBC any IV and 0 to 16 bytes of
    padding. *)
Definition gcm_protects (key base : bytes) (seq content_type : Z) (body p : bytes) : Prop :=
  exists ex ct tag, body = ex ++ ct ++ tag /\ len ex = 8 /\
    encrypt_gcm (key_cipher key) p (seq_nonce base seq) (gcm_aad seq (head3 content_type) (len p)) = Ok (ct, tag).

Definition cbc_inner (mac_key : bytes) (seq content_type : Z) (p : bytes) (n : Z) : bytes :=
  p ++ hmac_ref mac_key (mac_input seq (head3 content_type) p) ++ repeat n (Z.to_nat (n + 1)).

Definition cbc_protects (key mac_key : bytes) (seq content_type : Z) (body p : bytes) : Prop :=
  exists iv n e, body = iv ++ e /\ is_block iv = true /\ 0 <= n <= 16 /\
    encrypt_cbc_raw (key_cipher key) (cbc_inner mac_key seq content_type p n) iv = Ok e.
End Protection.

Section StreamLemmas.
Context {T : Type} {C : Sm4Crates} {LC : Sm4Laws C} {H : Sm3Crate} {LH : Sm3Laws H}.
Local Abbreviation stream := (TlcpStream T).

Lemma get_cipher_enc_ok (s : stream) : stream_inv s ->
  get_cipher_enc s = (set_cipher_enc (key_cipher (write_key s)) s, Ok (key_cipher (write_key s))).
Proof.
  intros I. unfold get_cipher_enc, Sm4Cipher_new, SM4_KEY_LENGTH. rewrite (inv_write_key s I).
  destruct (inv_cipher_enc s I) as [->|E]; [reflexivity|]. rewrite E. f_equal. destruct s; cbn in E. now subst.
Qed.

Lemma get_cipher_dec_ok (s : stream) : stream_inv s ->
  get_cipher_dec s = (set_cipher_dec (key_cipher (read_key s)) s, Ok (key_cipher (read_key s))).
Proof.
  intros I. unfold get_cipher_dec, Sm4Cipher_new, SM4_KEY_LENGTH. rewrite (inv_read_key s I).
  destruct (inv_cipher_dec s I) as [->|E]; [reflexivity|]. rewrite E. f_equal. destruct s; cbn in E. now subst.
Qed.

(** *** Opening *)

(** The stream a successful or failed opening leaves: the cipher may be cached. *)
Definition opened (s s' : stream) : Prop := s' = s \/ s' = set_cipher_dec (key_cipher (read_key s)) s.

Lemma header_slice {E : Type} ct (h2 : bytes) : @slice E _ (head3 ct ++ h2) 0 3 = Ok (head3 ct).
Proof. change (head3 ct ++ h2) with ([] ++ head3 ct ++ h2). now apply slice_app. Qed.

Lemma gcm_protects_short key base seq ct body p : len base = 12 -> wf_bytes base = true ->
  gcm_protects key base seq ct body p -> 24 <= len body.
Proof.
  intros Lb Wb (ex & c & tag & -> & Le & E). destruct (seq_nonce_shape base seq Lb Wb) as [Ln Wn].
  destruct (gcm_roundtrip (key_cipher key) p _ (gcm_aad seq (head3 ct) (len p)) Ln Wn) as (c' & t' & E' & _ & Lt & _).
  rewrite E in E'. injection E' as <- <-. rewrite !len_app, Le, Lt. pose proof (len_nonneg c). lia.
Qed.

Lemma gcm_body_split (buf : bytes) : 24 <= len buf -> exists ex ct tag, buf = ex ++ ct ++ tag /\ len ex = 8 /\ len tag = 16.
Proof.
  intros L. exists (firstn 8 buf), (firstn (Z.to_nat (len buf - 24)) (skipn 8 buf)), (skipn (Z.to_nat (len buf - 24)) (skipn 8 buf)).
  rewrite !firstn_skipn. split; [reflexivity|]. unfold len in *. rewrite length_firstn, !length_skipn. lia.
Qed.

Lemma decrypt_gcm_record_spec (s : stream) buf ct h2 : stream_inv s -> 1 <= read_seq s ->
  exists s' o, decrypt_gcm_record buf (head3 ct ++ h2) s = (s', o) /\ opened s s' /\ no_panic o /\
    forall p, o = Ok p <-> gcm_protects (read_key s) (read_nonce s) (read_seq s - 1) ct buf p.
Proof.
  intros I R. destruct (inv_read_nonce s I) as [Lb Wb]. pose proof (inv_read_seq s I) as Rs.
  unfold decrypt_gcm_record. rewrite bind_failIf. destruct (Z.ltb_spec (len buf) (8 + 16)) as [Sh|Sh].
  { do 2 eexists. split; [reflexivity|]. split; [now left|]. split; [discriminate|]. intros p. split; [discriminate|].
    intros P%gcm_protects_short; lia || assumption. }
  destruct (gcm_body_split buf Sh) as (ex & e & tag & -> & Le & Lt). pose proof (len_nonneg e) as Pe.
  rewrite bind_lift, usize_sub_ok by lia.
  assert (N : len (ex ++ e ++ tag) - 16 = len (ex ++ e)) by (rewrite !len_app; lia). rewrite N, app_assoc.
  rewrite bind_lift, slice_to_app, bind_lift, slice_from_app, bind_lift, slice_from_app by (now rewrite ?Le).
  rewrite bind_gets, bind_lift, usize_sub_ok, bind_gets, bind_lift, next_nonce_ok, bind_lift, header_slice by lia.
  cbv zeta. rewrite (bind_ok _ _ _ _ _ (get_cipher_dec_ok s I)).
  destruct (seq_nonce_shape (read_nonce s) (read_seq s - 1) Lb Wb) as [Ln Wn].
  set (nonce := seq_nonce _ _) in *. unfold lift. do 2 eexists. split; [reflexivity|]. split; [now right|].
  set (o := decrypt_gcm _ _ _ _ _). assert (O : o <> Panic) by apply decrypt_gcm_total.
  split; [now destruct o|]. intros p. transitivity (o = Ok p); [destruct o; cbn; split; congruence|].
  unfold o. rewrite decrypt_gcm_iff by assumption. unfold gcm_protects. fold nonce. split.
  - intros E. exists ex, e, tag. rewrite <- app_assoc. split; [reflexivity|]. split; [exact Le|].
    destruct (gcm_roundtrip (key_cipher (read_key s)) p nonce (gcm_aad (read_seq s - 1) (head3 ct) (len e)) Ln Wn)
      as (c' & t' & E' & Lc & _). rewrite E in E'. injection E' as <- <-. now rewrite <- Lc.
  - intros (ex' & e' & tag' & X & Le' & E).
    destruct (gcm_roundtrip (key_cipher (read_key s)) p nonce (gcm_aad (read_seq s - 1) (head3 ct) (len p)) Ln Wn)
      as (c' & t' & E' & Lc & Lt' & _). rewrite E in E'. injection E' as <- <-.
    rewrite <- app_assoc in X. apply app_eq_app_len in X as [-> X]; [|unfold len in *; lia].
    assert (Lee : len e = len e') by (apply (f_equal len) in X; rewrite !len_app in X; lia).
    apply app_eq_app_len in X as [-> ->]; [|unfold len in *; lia]. now rewrite Lc.
Qed.

Lemma hmac_mac mk m : len (hmac_ref mk m) = 32.
Proof. apply hmac_ref_digest. Qed.

Lemma repeat_snoc {A : Type} (x : A) n : repeat x (S n) = repeat x n ++ [x].
Proof. cbn [repeat]. apply repeat_cons. Qed.

Lemma cbc_inner_snoc mk seq ct p n : 0 <= n ->
  cbc_inner mk seq ct p n = (p ++ hmac_ref mk (mac_input seq (head3 ct) p) ++ repeat n (Z.to_nat n)) ++ [n].
Proof.
  intros N. unfold cbc_inner. replace (Z.to_nat (n + 1)) with (S (Z.to_nat n)) by lia.
  now rewrite repeat_snoc, <- !app_assoc.
Qed.

Lemma forallb_repeat n (l : bytes) : forallb (fun b => b =? n) l = true <-> l = repeat n (List.length l).
Proof.
  induction l as [|x l IH]; cbn [forallb List.length repeat]; [intuition|].
  rewrite andb_true_iff, Z.eqb_eq, IH. split; [intros [-> E]; now rewrite <- E|]. intros [= -> E]. auto.
Qed.

(** Cutting [d0] at [k] from its end. *)
Lemma split_back {A : Type} (d0 : list A) k : 0 <= k <= len d0 -> exists x pad, d0 = x ++ pad /\ len pad = k.
Proof.
  intros K. exists (firstn (Z.to_nat (len d0 - k)) d0), (skipn (Z.to_nat (len d0 - k)) d0).
  rewrite firstn_skipn. split; [reflexivity|]. rewrite len_skipn; lia.
Qed.

Lemma app_split_end {A : Type} (a b c d : list A) : len b = len d -> a ++ b = c ++ d -> a = c /\ b = d.
Proof.
  intros L E. apply app_eq_app_len; [|exact E]. apply (f_equal len) in E. rewrite !len_app in E. unfold len in *. lia.
Qed.

(** The plaintext a decrypted inner payload carries. *)
Definition inner_of (mk : bytes) (q ct : Z) (d p : bytes) : Prop :=
  exists n, 0 <= n <= 16 /\ d = cbc_inner mk q ct p n.

Lemma inner_of_tail mk q ct x pad n p : 0 <= n <= 16 -> len pad = n -> inner_of mk q ct (x ++ pad ++ [n]) p <->
  pad = repeat n (Z.to_nat n) /\ x = p ++ hmac_ref mk (mac_input q (head3 ct) p).
Proof.
  intros B Lp. assert (Lr : forall m, 0 <= m -> len (repeat m (Z.to_nat m)) = m)
    by (intros m Hm; unfold len; rewrite repeat_length; lia). split.
  - intros (n' & B' & E). rewrite cbc_inner_snoc, app_assoc in E by lia.
    apply app_split_end in E as [E [= <-]]; [|reflexivity]. rewrite (app_assoc p) in E.
    apply app_split_end in E as [-> ->]; [auto|]. now rewrite Lp, Lr by lia.
  - intros [-> ->]. exists n. split; [exact B|]. rewrite cbc_inner_snoc by lia. now rewrite <- !app_assoc.
Qed.

Lemma inner_of_long mk q ct d0 n p : 0 <= n -> inner_of mk q ct (d0 ++ [n]) p -> n <= 16 /\ n + 32 <= len d0.
Proof.
  intros N (n' & B' & E). rewrite cbc_inner_snoc in E by lia. apply app_split_end in E as [-> [= <-]]; [|reflexivity].
  split; [lia|]. rewrite !len_app, hmac_mac. unfold len at 2. rewrite repeat_length. pose proof (len_nonneg p). lia.
Qed.

Lemma err_spec {A : Type} (s : stream) (e : TlcpError) (Q : A -> Prop) : (forall p, ~ Q p) ->
  exists o, (s, Err e) = (s, o) /\ no_panic o /\ forall p, o = Ok p <-> Q p.
Proof.
  intros X. eexists. split; [reflexivity|]. split; [discriminate|]. intros p. split; [discriminate|]. intros Y. now apply X in Y.
Qed.

(** Past the padding checks: the MAC decides. *)
Lemma cbc_open_inner_spec (s : stream) d ct h2 : 1 <= read_seq s -> wf_bytes d = true -> d <> [] ->
  exists o, cbc_open_inner d (head3 ct ++ h2) s = (s, o) /\ no_panic o /\
    forall p, o = Ok p <-> inner_of (read_mac_key s) (read_seq s - 1) ct d p.
Proof.
  intros R W N. set (mk := read_mac_key s). set (q := read_seq s - 1).
  destruct (exists_last N) as (d0 & n & ->). clear N.
  rewrite wf_bytes_app, wf_bytes_cons, !andb_true_iff in W. destruct W as (_ & Bn%is_byte_iff & _).
  assert (Ld : len (d0 ++ [n]) = len d0 + 1) by (rewrite len_app; reflexivity). pose proof (len_nonneg d0) as P0.
  unfold cbc_open_inner. rewrite bind_failIf, (proj2 (Z.eqb_neq _ _)) by lia.
  rewrite bind_lift, index_app by lia. rewrite bind_failIf. unfold SM4_BLOCK_SIZE, SM3_HMAC_LENGTH.
  destruct (Z.ltb_spec 16 n) as [B16|B16]; [apply err_spec; intros p X%inner_of_long; lia|].
  cbv zeta. rewrite bind_failIf, Ld. destruct (Z.ltb_spec (len d0 + 1) (n + 1)) as [Sh|Sh];
    [apply err_spec; intros p X%inner_of_long; lia|].
  destruct (split_back d0 n) as (x & pad & -> & Lp); [lia|]. rewrite <- app_assoc.
  rewrite len_app in *. pose proof (len_nonneg x) as Px.
  rewrite bind_lift, slice_app by lia. rewrite bind_failIf.
  destruct (forallb _ pad) eqn:Fp; cbn [negb].
  2: { apply err_spec. intros p [X _]%inner_of_tail; [|lia|exact Lp]. rewrite (proj2 (forallb_repeat n pad)) in Fp; [discriminate|].
       rewrite X at 1. f_equal. unfold len in Lp. lia. }
  apply forallb_repeat in Fp. replace (List.length pad) with (Z.to_nat n) in Fp by (unfold len in Lp; lia).
  rewrite bind_failIf. replace (len x + len pad + 1 - (n + 1)) with (len x) by lia.
  destruct (Z.ltb_spec (len x) 32) as [Sx|Sx].
  { apply err_spec. intros p X. rewrite app_assoc in X. apply inner_of_long in X; [|lia]. rewrite len_app in X. lia. }
  destruct (split_back x 32) as (p0 & m & -> & Lm); [lia|]. rewrite len_app, <- app_assoc.
  rewrite bind_lift, slice_to_app by lia. rewrite bind_lift, slice_app by lia.
  rewrite bind_gets, bind_lift, usize_sub_ok, bind_lift, header_slice, bind_gets, bind_lift, compute_ref by exact R.
  cbn [map_err hmac_key]. rewrite bind_failIf. fold mk q.
  assert (Q : forall p, inner_of mk q ct (p0 ++ m ++ pad ++ [n]) p <-> p0 = p /\ m = hmac_ref mk (mac_input q (head3 ct) p)).
  { intros p. rewrite app_assoc, inner_of_tail by (exact Lp || lia). split; [|now intros [-> ->]].
    intros [_ X]. apply app_split_end in X; [exact X|]. now rewrite hmac_mac. }
  destruct (bytes_eqb m _) eqn:Em; cbn [negb].
  - apply bytes_eqb_eq in Em. eexists. split; [reflexivity|]. split; [discriminate|]. intros p. rewrite Q.
    split; [intros [= <-]; auto|]. now intros [-> _].
  - apply bytes_eqb_neq in Em. apply err_spec. intros p [-> X]%Q. contradiction.
Qed.

Lemma wf_cbc_inner mk q ct p n : wf_bytes p = true -> 0 <= n <= 16 -> wf_bytes (cbc_inner mk q ct p n) = true.
Proof.
  intros Wp B. unfold cbc_inner. rewrite !wf_bytes_app, Wp, (proj1 (hmac_ref_digest _ _)). cbn [andb].
  apply forallb_forall. intros b ->%repeat_spec. apply is_byte_iff. lia.
Qed.

Lemma len_cbc_inner mk q ct p n : 0 <= n -> len (cbc_inner mk q ct p n) = len p + 33 + n.
Proof. intros B. unfold cbc_inner. rewrite !len_app, hmac_mac. unfold len at 2. rewrite repeat_length. lia. Qed.

Lemma cbc_protects_iff key mk q ct iv e p : is_block iv = true -> wf_bytes e = true ->
  cbc_protects key mk q ct (iv ++ e) p /\ wf_bytes p = true <->
  exists d, decrypt_cbc_raw (key_cipher key) e iv = Ok d /\ inner_of mk q ct d p.
Proof.
  intros Bi We. split.
  - intros [(iv' & n & e' & E & B' & Bn & Enc) Wp].
    apply app_eq_app_len in E as [<- <-]; [|now rewrite !block_length].
    destruct (encrypt_cbc_raw_inv _ _ _ _ Bi (wf_cbc_inner mk q ct p n Wp Bn) Enc) as (_ & _ & _ & D).
    exists (cbc_inner mk q ct p n). split; [exact D|]. now exists n.
  - intros (d & D & n & Bn & ->). destruct (decrypt_cbc_raw_inv _ _ _ _ Bi We D) as (Wd & _ & Enc).
    split; [now exists iv, n, e|]. unfold cbc_inner in Wd. rewrite wf_bytes_app in Wd. now apply andb_true_iff in Wd.
Qed.

Lemma cbc_protects_long key mk q ct body p : wf_bytes p = true -> cbc_protects key mk q ct body p -> 64 <= len body.
Proof.
  intros Wp (iv & n & e & -> & Bi & Bn & Enc).
  destruct (encrypt_cbc_raw_inv _ _ _ _ Bi (wf_cbc_inner mk q ct p n Wp Bn) Enc) as (Md & _ & Le & _).
  rewrite len_cbc_inner in * by lia. rewrite len_app, Le. apply is_block_iff in Bi as [Li _]. unfold len at 1.
  pose proof (len_nonneg p). Z.div_mod_to_equations. lia.
Qed.

Lemma decrypt_cbc_record_spec (s : stream) buf ct h2 : stream_inv s -> 1 <= read_seq s -> wf_bytes buf = true ->
  exists s' o, decrypt_cbc_record buf (head3 ct ++ h2) s = (s', o) /\ opened s s' /\ no_panic o /\
    forall p, o = Ok p <-> cbc_protects (read_key s) (read_mac_key s) (read_seq s - 1) ct buf p /\ wf_bytes p = true.
Proof.
  intros I R W. unfold decrypt_cbc_record, SM4_CBC_IV_LENGTH, SM4_BLOCK_SIZE, SM3_HMAC_LENGTH. rewrite bind_failIf.
  destruct (Z.ltb_spec (len buf) (16 + 16 + 32)) as [Sh|Sh].
  { do 2 eexists. split; [reflexivity|]. split; [now left|]. split; [discriminate|]. intros p. split; [discriminate|].
    intros [P Wp]. apply cbc_protects_long in P; [lia|exact Wp]. }
  set (iv := firstn 16 buf). set (e := skipn 16 buf). assert (E : buf = iv ++ e) by (symmetry; apply firstn_skipn).
  assert (Li : len iv = 16) by (unfold iv, len in *; rewrite length_firstn; lia).
  rewrite E in W. rewrite wf_bytes_app, andb_true_iff in W. destruct W as [Wi We].
  assert (Bi : is_block iv = true) by (apply is_block_iff; split; [unfold len in Li; lia|exact Wi]).
  rewrite E. rewrite bind_lift, slice_to_app, bind_lift, slice_from_app by (now symmetry).
  rewrite (bind_ok _ _ _ _ _ (get_cipher_dec_ok s I)). set (s' := set_cipher_dec _ s).
  pose proof (fun p => cbc_protects_iff (read_key s) (read_mac_key s) (read_seq s - 1) ct iv e p Bi We) as Q.
  pose proof (decrypt_cbc_raw_total (key_cipher (read_key s)) e iv Bi We) as NP.
  rewrite bind_lift. destruct (decrypt_cbc_raw _ e iv) as [d|er|] eqn:D; [| |contradiction]; cbn [map_err].
  - destruct (decrypt_cbc_raw_inv _ _ _ _ Bi We D) as (Wd & Nd & _).
    destruct (cbc_open_inner_spec s' d ct h2 R Wd Nd) as (o & -> & Po & Qo).
    do 2 eexists. split; [reflexivity|]. split; [now right|]. split; [exact Po|]. intros p. rewrite Qo, Q.
    split; [intros X; exists d; auto|]. now intros (d' & [= <-] & X).
  - do 2 eexists. split; [reflexivity|]. split; [now right|]. split; [discriminate|]. intros p. rewrite Q.
    split; [discriminate|]. now intros (d' & [=] & _).
Qed.

(** *** Reading *)

Context {TT : Transport T} {LT : TransportLaws TT}.

(** The bodies a reader takes as plaintext [p] for its next record. *)
Definition protects (s : stream) (ct : Z) (body p : bytes) : Prop :=
  if gcm (cipher_suite s) then gcm_protects (read_key s) (read_nonce s) (read_seq s) ct body p
  else cbc_protects (read_key s) (read_mac_key s) (read_seq s) ct body p /\ wf_bytes p = true.

(** [s'] is [s] after reads that consumed [k] protected records and left [t]. *)
Definition read_to (s s' : stream) (t : bytes) (k : Z) : Prop :=
  exists t' cd, s' = with_fields s t' (write_seq s) (read_seq s + k) (read_buf s) (read_buf_pos s) (cipher_enc s) cd
                       (close_notify_sent s) /\
    unread t' = t /\ sent t' = sent (inner s) /\ cache_ok (read_key s) cd.

Lemma read_to_inv s s' t k : stream_inv s -> read_to s s' t k -> 0 <= read_seq s + k <= u64_max -> stream_inv s'.
Proof. intros [] (t' & cd & -> & _ & _ & Ck) B. constructor; cbn; assumption. Qed.

Lemma on_inner_read n (s : stream) : 0 <= n <= len (unread (inner s)) -> exists t',
  on_inner (read_exact n) s = (set_inner t' s, Ok (firstn (Z.to_nat n) (unread (inner s)))) /\
  unread t' = skipn (Z.to_nat n) (unread (inner s)) /\ sent t' = sent (inner s).
Proof.
  intros B. destruct (read_exact_law n (inner s) B) as (t' & E & U & S). exists t'. unfold on_inner. rewrite E. auto.
Qed.

Lemma on_inner_eof n (s : stream) : len (unread (inner s)) < n -> exists t' e,
  on_inner (read_exact n) s = (set_inner t' s, Err (IoError e)) /\ sent t' = sent (inner s).
Proof.
  intros B. destruct (read_exact_eof n (inner s) B) as (t' & e & E & S). exists t', e. unfold on_inner. rewrite E. auto.
Qed.

Definition is_data_type (ct : Z) : bool := (ct =? TLCP_RECORD_TYPE_APP_DATA) || (ct =? TLCP_RECORD_TYPE_HANDSHAKE).

Lemma read_body_data (s : stream) ct h2 n : stream_inv s -> is_data_type ct = true ->
  0 <= n <= len (unread (inner s)) -> wf_bytes (unread (inner s)) = true -> read_seq s < u64_max ->
  exists s' o, read_record_body (head3 ct ++ h2) ct n s = (s', o) /\ no_panic o /\
    read_to s s' (skipn (Z.to_nat n) (unread (inner s))) 1 /\
    forall p, o = Ok p <-> protects s ct (firstn (Z.to_nat n) (unread (inner s))) p.
Proof.
  intros I Dt B W R. unfold read_record_body, is_data_type in *. rewrite Dt.
  destruct (on_inner_read n s B) as (t' & Er & Ut & St). rewrite (bind_ok _ _ _ _ _ Er). set (buf := firstn _ _).
  unfold bump_read_seq at 1. unfold bindM at 1. cbn [set_inner with_fields read_seq].
  rewrite (proj2 (Z.eqb_neq _ _)) by lia. rewrite bind_gets.
  set (s1 := set_read_seq _ _). pose proof (inv_read_seq s I) as Rs.
  assert (T1 : read_to s s1 (skipn (Z.to_nat n) (unread (inner s))) 1).
  { exists t', (cipher_dec s). split; [reflexivity|]. split; [exact Ut|]. split; [exact St|]. apply I. }
  assert (I1 : stream_inv s1) by (apply (read_to_inv s _ _ _ I T1); lia).
  assert (R1 : 1 <= read_seq s1) by (cbn; lia).
  assert (T2 : forall s', opened s1 s' -> read_to s s' (skipn (Z.to_nat n) (unread (inner s))) 1).
  { intros s' [->| ->]; [exact T1|]. exists t', (Some (key_cipher (read_key s))).
    split; [reflexivity|]. split; [exact Ut|]. split; [exact St|]. now right. }
  assert (Q : read_seq s1 - 1 = read_seq s) by (cbn; lia). unfold protects. change (cipher_suite s1) with (cipher_suite s).
  destruct (gcm (cipher_suite s)).
  - destruct (decrypt_gcm_record_spec s1 buf ct h2 I1 R1) as (s' & o & E & O & P & X). rewrite Q in X.
    exists s', o. auto.
  - assert (Wb : wf_bytes buf = true) by now apply wf_bytes_firstn.
    destruct (decrypt_cbc_record_spec s1 buf ct h2 I1 R1 Wb) as (s' & o & E & O & P & X). rewrite Q in X.
    exists s', o. auto.
Qed.

Lemma be2 n : be_bytes 2 n = [as_u8 (Z.shiftr n 8); as_u8 (Z.shiftr n 0)].
Proof. reflexivity. Qed.

Definition version_error (v0 v1 : Z) : TlcpError :=
  TlsRecordError ("unexpected TLCP version: " +++ hex02 v0 +++ hex02 v1)%string.

(** Reading the header of a record. *)
Lemma read_header (s : stream) ct v0 v1 n rest : 0 <= n < 2 ^ 16 ->
  unread (inner s) = [ct; v0; v1] ++ be_bytes 2 n ++ rest -> exists t',
  unread t' = rest /\ sent t' = sent (inner s) /\
  read_application_data s =
    if negb (bytes_eqb [v0; v1] TLCP_VERSION) then (set_inner t' s, Err (version_error v0 v1))
    else if 16384 <? n then (set_inner t' s, Err (HandshakeFailed "TLCP record exceeds size limit"))
    else read_record_body ([ct; v0; v1] ++ be_bytes 2 n) ct n (set_inner t' s).
Proof.
  intros B U. assert (F : from_be (be_bytes 2 n) = n) by (apply from_be_bytes_small; exact B).
  rewrite be2 in *. set (hi := as_u8 (Z.shiftr n 8)) in *. set (lo := as_u8 (Z.shiftr n 0)) in *.
  destruct (on_inner_read 5 s) as (t' & E & Ut & St); [rewrite U; pose proof (len_nonneg rest); len_lia|].
  exists t'. rewrite U in Ut, E. split; [exact Ut|]. split; [exact St|].
  unfold read_application_data. rewrite (bind_ok _ _ _ _ _ E).
  change (firstn (Z.to_nat 5) _) with [ct; v0; v1; hi; lo].
  clearbody hi lo. do 5 (rewrite bind_lift; lazymatch goal with |- context [@index ?E ?A ?l ?i] =>
    let v := eval vm_compute in (@index E A l i) in change (@index E A l i) with v end; cbv iota).
  cbv zeta. rewrite F.
  rewrite bind_failIf. destruct (negb _); [reflexivity|]. rewrite bind_failIf. reflexivity.
Qed.

Lemma header_cases (u : bytes) : wf_bytes u = true -> 5 <= len u -> exists ct v0 v1 n rest,
  0 <= n < 2 ^ 16 /\ u = [ct; v0; v1] ++ be_bytes 2 n ++ rest.
Proof.
  intros W L. destruct u as [|a [|b [|c [|d [|e rest]]]]]; try (revert L; len_lia). 
  exists a, b, c, (from_be [d; e]), rest. rewrite !wf_bytes_cons, !andb_true_iff in W. destruct W as (_ & _ & _ & D & E & _).
  assert (Wd : wf_bytes [d; e] = true) by (rewrite !wf_bytes_cons, D, E; reflexivity).
  split; [exact (from_be_bound _ Wd)|]. now rewrite (be_bytes_from_be [d; e] Wd : be_bytes 2 _ = _).
Qed.

(** *** Writing *)

(** The body length of the record of an [n]-byte plaintext. *)
Definition body_len (g : bool) (n : Z) : Z := if g then 24 + n else 16 + 16 * ((n + 48) / 16).

(** What a writer's next record protects. *)
Definition seals (s : stream) (ct : Z) (body p : bytes) : Prop :=
  if gcm (cipher_suite s) then gcm_protects (write_key s) (write_nonce s) (write_seq s) ct body p
  else cbc_protects (write_key s) (write_mac_key s) (write_seq s) ct body p /\ wf_bytes p = true.

(** [s'] is [s] after one record that put [wire] on the transport. *)
Definition write_to (s s' : stream) (wire : bytes) : Prop :=
  exists t' ce, s' = with_fields s t' (write_seq s + 1) (read_seq s) (read_buf s) (read_buf_pos s) ce (cipher_dec s)
                       (close_notify_sent s) /\
    sent t' = sent (inner s) ++ wire /\ unread t' = unread (inner s) /\ cache_ok (write_key s) ce.

Lemma write_to_inv s s' w : stream_inv s -> write_to s s' w -> write_seq s < u64_max -> stream_inv s'.
Proof. intros [] (t' & ce & -> & _ & _ & Ck) B. constructor; cbn; assumption || lia. Qed.

Lemma on_inner_write b (s : stream) : exists t', on_inner (write_all b) s = (set_inner t' s, Ok tt) /\
  sent t' = sent (inner s) ++ b /\ unread t' = unread (inner s).
Proof. destruct (write_all_law b (inner s)) as (t' & E & S & U). exists t'. unfold on_inner. rewrite E. auto. Qed.

Lemma on_inner_flush (s : stream) : exists t', on_inner flush s = (set_inner t' s, Ok tt) /\
  sent t' = sent (inner s) /\ unread t' = unread (inner s).
Proof. destruct (flush_law (inner s)) as (t' & E & S & U). exists t'. unfold on_inner. rewrite E. auto. Qed.

Lemma cbc_pad_shape n : 0 <= n -> 0 <= cbc_pad_len (n + 32) < 16 /\ n + 33 + cbc_pad_len (n + 32) = 16 * ((n + 48) / 16).
Proof.
  intros N. unfold cbc_pad_len, SM4_BLOCK_SIZE. split; [apply Z.mod_pos_bound; lia|]. Z.div_mod_to_equations. lia.
Qed.

(** The record [encrypt_cbc_record_with_type] builds. *)
Lemma encrypt_cbc_record_ok (s : stream) iv ct p : stream_inv s -> 1 <= write_seq s -> is_block iv = true -> wf_bytes p = true ->
  exists body, encrypt_cbc_record_with_type iv ct p s =
      (set_cipher_enc (key_cipher (write_key s)) s, Ok (record_header ct (len body) ++ body)) /\
    cbc_protects (write_key s) (write_mac_key s) (write_seq s - 1) ct body p /\ len body = body_len false (len p) /\
    wf_bytes body = true.
Proof.
  intros I R Bi Wp. unfold encrypt_cbc_record_with_type. pose proof (len_nonneg p) as Pp.
  rewrite bind_gets, bind_lift, usize_sub_ok, bind_gets, bind_lift, compute_ref by exact R. cbn [map_err hmac_key]. cbv zeta.
  unfold SM3_HMAC_LENGTH. destruct (cbc_pad_shape (len p) Pp) as [Bn Ln]. set (n := cbc_pad_len _) in *.
  rewrite as_u8_small by lia. fold (head3 ct). set (q := write_seq s - 1).
  assert (Ek : mapM_err io_key_error get_cipher_enc s =
    (set_cipher_enc (key_cipher (write_key s)) s, Ok (key_cipher (write_key s)))).
  { unfold mapM_err. now rewrite get_cipher_enc_ok. }
  rewrite (bind_ok _ _ _ _ _ Ek).
  replace (p ++ _) with (cbc_inner (write_mac_key s) q ct p n) by (rewrite cbc_inner_snoc, <- !app_assoc by lia; reflexivity).
  set (d := cbc_inner _ _ _ _ _). assert (Ld : len d = 16 * ((len p + 48) / 16)) by (unfold d; rewrite len_cbc_inner; lia).
  assert (Wd : wf_bytes d = true) by (apply wf_cbc_inner; [exact Wp|lia]).
  assert (Md : len d mod 16 = 0) by (rewrite Ld, Z.mul_comm; apply Z.mod_mul; lia).
  assert (Nd : d <> []). { intros E. apply (f_equal len) in E. revert E. unfold d. rewrite len_cbc_inner, len_nil; lia. }
  pose proof (encrypt_cbc_raw_ok (key_cipher (write_key s)) d iv Bi Wd Md Nd) as Enc. set (e := concat _) in Enc.
  destruct (encrypt_cbc_raw_inv _ _ _ _ Bi Wd Enc) as (_ & We & Le & _).
  rewrite bind_lift, Enc. cbn [map_err]. assert (Li : len iv = 16) by (apply is_block_iff in Bi as [Li _]; unfold len; lia).
  exists (iv ++ e). unfold ret. rewrite len_app, Li, Le. split; [reflexivity|]. split.
  { exists iv, n, e. repeat (split; [assumption || reflexivity || lia|]). exact Enc. }
  split; [cbn [body_len]; lia|]. apply is_block_iff in Bi as [_ Wi]. now rewrite wf_bytes_app, Wi.
Qed.

Lemma gcm_seal_ok (s : stream) ct p : stream_inv s -> 1 <= write_seq s -> wf_bytes p = true ->
  exists e tag, gcm_seal ct p s =
      (set_cipher_enc (key_cipher (write_key s)) s, Ok (record_header ct (24 + len p), be_bytes 8 (write_seq s - 1), e, tag)) /\
    gcm_protects (write_key s) (write_nonce s) (write_seq s - 1) ct (be_bytes 8 (write_seq s - 1) ++ e ++ tag) p /\
    len e = len p /\ len tag = 16 /\ wf_bytes (e ++ tag) = true.
Proof.
  intros I R Wp. destruct (inv_write_nonce s I) as [Lb Wb]. pose proof (inv_write_seq s I) as Ws. set (q := write_seq s - 1).
  destruct (seq_nonce_shape (write_nonce s) q Lb Wb) as [Ln Wn].
  destruct (gcm_roundtrip (key_cipher (write_key s)) p _ (gcm_aad q (head3 ct) (len p)) Ln Wn) as (e & tag & Enc & Le & Lt & _).
  destruct (wf_encrypt_gcm _ _ _ _ _ _ Ln Wn Wp Enc) as [We Wt].
  exists e, tag. split; [|split; [|now rewrite wf_bytes_app, We]].
  - unfold gcm_seal. rewrite bind_gets, bind_lift, usize_sub_ok, bind_gets, bind_lift, next_nonce_ok by lia. cbv zeta. fold q.
    rewrite (bind_ok _ _ _ _ _ (get_cipher_enc_ok s I)). fold (head3 ct).
    rewrite bind_lift, Enc. cbn [map_err fst snd]. unfold ret. now replace (8 + len p + 16) with (24 + len p) by lia.
  - exists (be_bytes 8 q), e, tag. split; [reflexivity|]. split; [apply len_be_bytes|exact Enc].
Qed.

Lemma bump_write_seq_ok (s : stream) : write_seq s < u64_max ->
  bump_write_seq s = (set_write_seq (write_seq s + 1) s, Ok tt).
Proof. intros B. unfold bump_write_seq. rewrite (proj2 (Z.eqb_neq _ _)) by lia. reflexivity. Qed.

Lemma set_write_seq_inv (s : stream) : stream_inv s -> write_seq s < u64_max -> stream_inv (set_write_seq (write_seq s + 1) s).
Proof. intros [] B. constructor; cbn; assumption || lia. Qed.

(** Every write puts exactly one record on the transport, whatever the size. *)
Lemma write_record_ok (s : stream) iv ct p : stream_inv s -> write_seq s < u64_max -> is_block iv = true -> wf_bytes p = true ->
  exists s' body, write_encrypted_record_with_type iv ct p s = (s', Ok tt) /\
    write_to s s' (record_header ct (len body) ++ body) /\ seals s ct body p /\
    len body = body_len (gcm (cipher_suite s)) (len p) /\ wf_bytes body = true.
Proof.
  intros I B Bi Wp. unfold write_encrypted_record_with_type. rewrite (bind_ok _ _ _ _ _ (bump_write_seq_ok s B)).
  rewrite bind_gets. set (s1 := set_write_seq _ s). pose proof (set_write_seq_inv s I B) as I1. fold s1 in I1.
  pose proof (inv_write_seq s I) as Ws. assert (R1 : 1 <= write_seq s1) by (cbn; lia).
  assert (Q : write_seq s1 - 1 = write_seq s) by (cbn; lia). unfold seals. change (cipher_suite s1) with (cipher_suite s).
  set (s2 := set_cipher_enc (key_cipher (write_key s1)) s1).
  destruct (gcm (cipher_suite s)) eqn:G.
  - destruct (gcm_seal_ok s1 ct p I1 R1 Wp) as (e & tag & Eg & Pr & Le & Lt & We). rewrite Q in *.
    unfold write_gcm_with_type. rewrite (bind_ok _ _ _ _ _ Eg). fold s2. cbv iota.
    destruct (on_inner_write (record_header ct (24 + len p)) s2) as (t1 & E1 & S1 & U1). rewrite (bind_ok _ _ _ _ _ E1).
    destruct (on_inner_write (be_bytes 8 (write_seq s)) (set_inner t1 s2)) as (t2 & E2 & S2 & U2). rewrite (bind_ok _ _ _ _ _ E2).
    destruct (on_inner_write e (set_inner t2 (set_inner t1 s2))) as (t3 & E3 & S3 & U3). rewrite (bind_ok _ _ _ _ _ E3).
    destruct (on_inner_write tag (set_inner t3 (set_inner t2 (set_inner t1 s2)))) as (t4 & E4 & S4 & U4).
    rewrite (bind_ok _ _ _ _ _ E4).
    destruct (on_inner_flush (set_inner t4 (set_inner t3 (set_inner t2 (set_inner t1 s2))))) as (t5 & E5 & S5 & U5). rewrite E5.
    assert (Lb : len (be_bytes 8 (write_seq s) ++ e ++ tag) = 24 + len p) by (rewrite !len_app, len_be_bytes; lia).
    eexists _, _. split; [reflexivity|]. split; [|split; [exact Pr|split; [exact Lb|]]];
      [|now rewrite wf_bytes_app, wf_be_bytes, We].
    exists t5, (Some (key_cipher (write_key s))). rewrite Lb. split; [reflexivity|]. cbn in S1, S2, S3, S4, S5, U1, U2, U3, U4, U5.
    split; [rewrite S5, S4, S3, S2, S1, <- !app_assoc; reflexivity|]. split; [congruence|now right].
  - destruct (encrypt_cbc_record_ok s1 iv ct p I1 R1 Bi Wp) as (body & Ec & Pr & LW). rewrite Q in *.
    unfold write_cbc_with_type, mapM_err. unfold bindM at 1. rewrite Ec. cbn [map_err]. fold s2.
    destruct (on_inner_write (record_header ct (len body) ++ body) s2) as (t1 & E1 & S1 & U1). rewrite (bind_ok _ _ _ _ _ E1).
    destruct (on_inner_flush (set_inner t1 s2)) as (t2 & E2 & S2 & U2). rewrite E2.
    eexists _, _. split; [reflexivity|]. split; [|split; [exact (conj Pr Wp)|exact LW]].
    exists t2, (Some (key_cipher (write_key s))). split; [reflexivity|].
    split; [exact (eq_trans S2 S1)|]. split; [exact (eq_trans U2 U1)|now right].
Qed.

(** *** Two ends of a connection *)

(** What the writer [w] sends the reader [r] opens. *)
Record paired (w r : stream) : Prop := {
  paired_key : read_key r = write_key w;
  paired_mac_key : read_mac_key r = write_mac_key w;
  paired_nonce : read_nonce r = write_nonce w;
  paired_seq : read_seq r = write_seq w;
  paired_gcm : gcm (cipher_suite r) = gcm (cipher_suite w)
}.

Lemma seals_protects w r ct body p : paired w r -> seals w ct body p -> protects r ct body p.
Proof. intros [K Mk N Q G]. unfold seals, protects. now rewrite K, Mk, N, Q, G. Qed.

(** One record across. *)
Lemma read_written (r : stream) ct body p rest : stream_inv r -> is_data_type ct = true -> len body <= 16384 ->
  wf_bytes (unread (inner r)) = true -> read_seq r < u64_max ->
  unread (inner r) = record_header ct (len body) ++ body ++ rest -> protects r ct body p ->
  exists r', read_application_data r = (r', Ok p) /\ read_to r r' rest 1.
Proof.
  intros I Dt B W R U P. pose proof (len_nonneg body) as Pb.
  assert (Eh : record_header ct (len body) = [ct; 1; 1] ++ be_bytes 2 (len body)).
  { unfold record_header, as_u16. rewrite Z.mod_small by lia. reflexivity. }
  rewrite Eh, <- app_assoc in U. destruct (read_header r ct 1 1 (len body) (body ++ rest)) as (t' & Ut & St & ->); [lia|exact U|].
  change (bytes_eqb [1; 1] TLCP_VERSION) with true. cbn [negb]. rewrite (proj2 (Z.ltb_ge _ _)) by exact B.
  assert (I' : stream_inv (set_inner t' r)) by (destruct I; constructor; cbn; assumption).
  assert (W' : wf_bytes (body ++ rest) = true).
  { rewrite U, !wf_bytes_app, !andb_true_iff in W. now rewrite wf_bytes_app, !andb_true_iff. }
  destruct (read_body_data (set_inner t' r) ct (be_bytes 2 (len body)) (len body) I' Dt) as (r' & o & E & _ & To & X);
    [cbn; rewrite Ut, len_app; pose proof (len_nonneg rest); lia|cbn; now rewrite Ut|exact R|].
  cbn [inner set_inner with_fields] in *. rewrite Ut, to_nat_len in *.
  rewrite skipn_app, skipn_all, Nat.sub_diag in To. rewrite firstn_app, firstn_all, Nat.sub_diag, firstn_O, app_nil_r in X.
  exists r'. rewrite (proj2 (X p) P) in E. split; [exact E|].
  destruct To as (t2 & cd & -> & U2 & S2 & Ck). exists t2, cd. split; [reflexivity|]. split; [exact U2|].
  split; [cbn in S2; congruence|exact Ck].
Qed.

(** ** Sequences of records *)

(** A message to send: the IV the generator draws, the content type, the data. *)
Fixpoint write_messages (ms : list (bytes * Z * bytes)) : M stream TlcpError unit :=
  match ms with
  | [] => ret tt
  | (iv, ct, p) :: ms => write_encrypted_record_with_type iv ct p ;;; write_messages ms
  end.

Fixpoint read_messages (n : nat) : M stream TlcpError (list bytes) :=
  match n with
  | O => ret []
  | S n => p <-- read_application_data ;;; ps <-- read_messages n ;;; ret (p :: ps)
  end.

Definition sendable (g : bool) (m : bytes * Z * bytes) : bool :=
  let '(iv, ct, p) := m in is_block iv && is_data_type ct && wf_bytes p && (body_len g (len p) <=? TLCP_MAX_RECORD_SIZE).

Lemma wf_record_header ct n : is_data_type ct = true -> wf_bytes (record_header ct n) = true.
Proof.
  unfold is_data_type, record_header. rewrite orb_true_iff, !Z.eqb_eq. intros [->| ->];
    rewrite wf_bytes_cons, wf_bytes_app, wf_be_bytes; reflexivity.
Qed.

Lemma paired_step w w' wire r r' t : paired w r -> write_to w w' wire -> read_to r r' t 1 -> paired w' r'.
Proof.
  intros [K Mk N Q G] (tw & ce & -> & _) (tr & cd & -> & _). constructor; cbn; try assumption. now rewrite Q.
Qed.

(** Reading takes back what was written, from any reader paired with the writer. *)
Definition reads_back (w w' : stream) (wire : bytes) (ms : list (bytes * Z * bytes)) : Prop :=
  forall r rest, stream_inv r -> paired w r -> wf_bytes rest = true -> unread (inner r) = wire ++ rest ->
  exists r', read_messages (List.length ms) r = (r', Ok (map snd ms)) /\
    unread (inner r') = rest /\ paired w' r' /\ stream_inv r'.

Lemma messages_roundtrip ms : forall w, stream_inv w ->
  forallb (sendable (gcm (cipher_suite w))) ms = true -> write_seq w + len ms <= u64_max ->
  exists w' wire, write_messages ms w = (w', Ok tt) /\ sent (inner w') = sent (inner w) ++ wire /\ wf_bytes wire = true /\
    write_seq w' = write_seq w + len ms /\ reads_back w w' wire ms.
Proof.
  induction ms as [|[[iv ct] p] ms IH]; intros w Iw Ok_ms Sq.
  { exists w, []. split; [reflexivity|]. split; [now rewrite app_nil_r|]. split; [reflexivity|].
    split; [rewrite len_nil; lia|]. intros r rest Ir Pr _ U. exists r. auto. }
  cbn [forallb sendable] in Ok_ms. rewrite !andb_true_iff, Z.leb_le in Ok_ms.
  destruct Ok_ms as ((((Bi & Dt) & Wp) & Sz) & Ok_ms). rewrite len_cons in Sq. pose proof (len_nonneg ms) as Pm.
  destruct (write_record_ok w iv ct p Iw ltac:(lia) Bi Wp) as (w1 & body & Ew & Tw & Se & Lb & Wb).
  pose proof (write_to_inv _ _ _ Iw Tw ltac:(lia)) as Iw1. pose proof Tw as (t1 & ce & E1 & S1 & _).
  destruct (IH w1 Iw1) as (w2 & wire & E2 & S2 & W2 & Q2 & Rd); [now subst w1|subst w1; cbn; lia|].
  exists w2, (record_header ct (len body) ++ body ++ wire).
  split; [cbn [write_messages]; rewrite (bind_ok _ _ _ _ _ Ew); exact E2|].
  split; [rewrite S2, E1; cbn [inner with_fields]; now rewrite S1, <- !app_assoc|].
  split; [now rewrite !wf_bytes_app, wf_record_header, Wb, W2|].
  split; [rewrite Q2, E1, len_cons; cbn [write_seq with_fields]; lia|].
  intros r rest Ir Pr Wr U. rewrite <- !app_assoc in U. pose proof (seals_protects _ _ _ _ _ Pr Se) as Prot.
  pose proof (inv_write_seq w Iw) as Bw. pose proof (paired_seq w r Pr) as Q.
  destruct (read_written r ct body p (wire ++ rest) Ir Dt) as (r1 & Er & Tr);
    [unfold TLCP_MAX_RECORD_SIZE in Sz; lia|now rewrite U, !wf_bytes_app, wf_record_header, Wb, W2|lia|exact U|exact Prot|].
  pose proof (read_to_inv _ _ _ _ Ir Tr ltac:(lia)) as Ir1. pose proof (paired_step _ _ _ _ _ _ Pr Tw Tr) as Pr1.
  destruct (Rd r1 rest Ir1 Pr1 Wr) as (r2 & Er2 & U2 & Pr2); [destruct Tr as (t' & cd & -> & Ut & _); exact Ut|].
  exists r2. split; [|now split]. cbn [List.length read_messages map snd]. rewrite (bind_ok _ _ _ _ _ Er), (bind_ok _ _ _ _ _ Er2). reflexivity.
Qed.

(** C9. The record layer is a reliable ordered channel: over any transport that
    keeps its bytes, a stream with 16-byte keys and 12-byte nonces writes any
    sequence of application-data and handshake messages that fit a record, in
    SM4-GCM and in SM4-CBC + HMAC-SM3 suites, for any IVs drawn, without error,
    one sequence number per message; and a reader with the mirrored keys and the
    same sequence number reads the same messages in the same order, leaves the
    bytes behind them unread, and is again in step with the writer. *)
Theorem record_stream_roundtrip (w r : stream) (ms : list (bytes * Z * bytes)) (rest : bytes) :
  stream_inv w -> stream_inv r -> paired w r -> wf_bytes rest = true ->
  forallb (sendable (gcm (cipher_suite w))) ms = true -> write_seq w + len ms <= u64_max ->
  exists w' wire, write_messages ms w = (w', Ok tt) /\ sent (inner w') = sent (inner w) ++ wire /\
    write_seq w' = write_seq w + len ms /\
    (unread (inner r) = wire ++ rest ->
     exists r', read_messages (List.length ms) r = (r', Ok (map snd ms)) /\
       unread (inner r') = rest /\ paired w' r' /\ stream_inv r').
Proof.
  intros Iw Ir Pr Wr Fs Sq. destruct (messages_roundtrip ms w Iw Fs Sq) as (w' & wire & E & S & _ & Q & Rd).
  exists w', wire. repeat (split; [assumption|]). intros U. exact (Rd r rest Ir Pr Wr U).
Qed.

(** ** What a reader accepts *)

(** A protected record, or a plaintext close_notify alert, at the front of [u]. *)
Definition accepted (s s' : stream) (u p : bytes) : Prop :=
  (exists ct body, is_data_type ct = true /\ len body <= TLCP_MAX_RECORD_SIZE /\
     u = record_header ct (len body) ++ body ++ unread (inner s') /\
     protects s ct body p /\ read_seq s' = read_seq s + 1) \/
  (exists tail, p = [] /\ u = record_header TLCP_RECORD_TYPE_ALERT (2 + len tail) ++ [0x01; 0x00] ++ tail ++ unread (inner s') /\
     read_seq s' = read_seq s).

Definition reads_safely (s : stream) (u : bytes) (res : stream * outcome TlcpError bytes) : Prop :=
  no_panic (snd res) /\ stream_inv (fst res) /\ sent (inner (fst res)) = sent (inner s) /\
  forall p, snd res = Ok p -> accepted s (fst res) u p.

Lemma set_inner_inv t (s : stream) : stream_inv s -> stream_inv (set_inner t s).
Proof. intros []. constructor; cbn; assumption. Qed.

Lemma reads_safely_err s s' u e : stream_inv s' -> sent (inner s') = sent (inner s) -> reads_safely s u (s', Err e).
Proof. intros I S. split; [discriminate|]. split; [exact I|]. split; [exact S|]. discriminate. Qed.

Lemma record_header_small ct n : 0 <= n < 2 ^ 16 -> record_header ct n = [ct; 1; 1] ++ be_bytes 2 n.
Proof. intros B. unfold record_header, as_u16. now rewrite Z.mod_small. Qed.

Lemma alert_body (buf : bytes) : (2 <=? len buf) && (nth 0 buf 0 =? 0x01) && (nth 1 buf 0 =? 0x00) = true ->
  exists tail, buf = [0x01; 0x00] ++ tail.
Proof.
  rewrite !andb_true_iff, Z.leb_le, !Z.eqb_eq. destruct buf as [|a [|b tail]]; cbn [nth]; intros [[L A] B];
    [revert L; len_lia|revert L; len_lia|subst; now exists tail].
Qed.

(** [s1] is [s] with the header of a record of [n] bytes consumed. *)
Section AfterHeader.
Context (s1 s : stream) (ct n : Z) (rest : bytes).
Hypothesis I : stream_inv s1.
Hypothesis W : wf_bytes rest = true.
Hypothesis B : 0 <= n <= 16384.
Hypothesis U : unread (inner s1) = rest.
Hypothesis E : s1 = set_inner (inner s1) s.
Hypothesis St : sent (inner s1) = sent (inner s).
Let u := [ct; 1; 1] ++ be_bytes 2 n ++ rest.

Lemma body_err t e : sent t = sent (inner s1) -> reads_safely s u (set_inner t s1, Err e).
Proof. intros Ht. apply reads_safely_err; [now apply set_inner_inv|]. cbn. congruence. Qed.

Lemma body_eof (k : bytes -> M stream TlcpError bytes) : len rest < n ->
  reads_safely s u (bindM (on_inner (read_exact n)) k s1).
Proof.
  intros L. destruct (on_inner_eof n s1) as (t' & e & Er & Ht); [now rewrite U|]. rewrite (bind_err _ _ _ _ _ Er).
  now apply body_err.
Qed.

Lemma body_data_safe : is_data_type ct = true -> n <= len rest ->
  reads_safely s u (read_record_body (head3 ct ++ be_bytes 2 n) ct n s1).
Proof.
  intros Dt L. destruct (Z.eq_dec (read_seq s1) u64_max) as [X|X].
  - unfold read_record_body, is_data_type in *. rewrite Dt.
    destruct (on_inner_read n s1) as (t' & Er & _ & Ht); [rewrite U; lia|]. rewrite (bind_ok _ _ _ _ _ Er).
    rewrite (bind_err _ _ _ (set_inner t' s1) SequenceOverflow); [now apply body_err|].
    unfold bump_read_seq. cbn [read_seq set_inner with_fields]. now rewrite X.
  - pose proof (inv_read_seq s1 I). destruct (read_body_data s1 ct (be_bytes 2 n) n I Dt) as (s' & o & -> & Np & To & Q);
      [rewrite U; lia|now rewrite U|lia|]. split; [exact Np|]. split; [apply (read_to_inv _ _ _ _ I To); lia|].
    destruct To as (t' & cd & -> & Ut & Ht & _). split; [cbn; congruence|]. intros p [= ->]. left.
    exists ct, (firstn (Z.to_nat n) rest). pose proof (proj1 (Q p) eq_refl) as P. rewrite U in *.
    rewrite len_firstn by lia. rewrite record_header_small by lia. split; [exact Dt|]. split; [exact (proj2 B)|].
    split; [cbn [inner fst with_fields]; now rewrite Ut, <- app_assoc, firstn_skipn|].
    rewrite E in P. split; [exact P|]. rewrite E. reflexivity.
Qed.

Lemma body_alert_safe : ct = TLCP_RECORD_TYPE_ALERT -> n <= len rest ->
  reads_safely s u (read_record_body (head3 ct ++ be_bytes 2 n) ct n s1).
Proof.
  intros Ec L. unfold read_record_body. rewrite Ec. change (_ || _) with false. rewrite Z.eqb_refl. cbv iota.
  destruct (on_inner_read n s1) as (t' & Er & Ut & Ht); [rewrite U; lia|]. rewrite (bind_ok _ _ _ _ _ Er). rewrite U in Er, Ut |- *.
  destruct (_ && _) eqn:A; [|now apply body_err].
  apply alert_body in A as [tail A]. split; [discriminate|]. split; [now apply set_inner_inv|]. split; [cbn; congruence|].
  assert (Ln : n = 2 + len tail).
  { apply (f_equal len) in A. rewrite len_firstn in A by lia. rewrite A, len_app. reflexivity. }
  intros p [= <-]. right. exists tail. split; [reflexivity|]. rewrite record_header_small by lia. rewrite <- Ln.
  split; [|rewrite E; reflexivity]. unfold ret, u. cbn [fst inner set_inner with_fields].
  rewrite Ec, Ut, (app_assoc [1; 0]), <- A, <- app_assoc, firstn_skipn. reflexivity.
Qed.

Lemma read_body_safe : reads_safely s u (read_record_body (head3 ct ++ be_bytes 2 n) ct n s1).
Proof.
  destruct (is_data_type ct) eqn:Dt; [|destruct (Z.eqb_spec ct TLCP_RECORD_TYPE_ALERT) as [Ea|Na]].
  - destruct (Z.le_gt_cases n (len rest)) as [L|L]; [now apply body_data_safe|].
    unfold read_record_body, is_data_type in *. rewrite Dt. now apply body_eof.
  - destruct (Z.le_gt_cases n (len rest)) as [L|L]; [now apply body_alert_safe|].
    unfold read_record_body. rewrite Ea. now apply body_eof.
  - unfold read_record_body, is_data_type in *. rewrite Dt, (proj2 (Z.eqb_neq _ _) Na).
    now apply reads_safely_err.
Qed.
End AfterHeader.

(** C10. The reader is safe on every input: on any byte sequence it returns
    without panicking, keeps its invariant and sends nothing; what it returns is
    the plaintext of a record of at most 16 KiB at the front of the input that
    protects it under the reader's keys, content type and current sequence
    number (a sealed GCM record, or CBC with valid padding and HMAC), consumed
    exactly and counted once, or nothing after a close_notify alert, which is
    taken unprotected. *)
Theorem read_accepts_only_protected (s : stream) :
  stream_inv s -> wf_bytes (unread (inner s)) = true -> reads_safely s (unread (inner s)) (read_application_data s).
Proof.
  intros I W. destruct (Z.le_gt_cases 5 (len (unread (inner s)))) as [L|L].
  - destruct (header_cases _ W L) as (ct & v0 & v1 & n & rest & B & U).
    destruct (read_header s ct v0 v1 n rest B U) as (t' & Ut & Ht & ->).
    destruct (bytes_eqb [v0; v1] TLCP_VERSION) eqn:V; cbn [negb]; [|apply reads_safely_err; [now apply set_inner_inv|exact Ht]].
    apply bytes_eqb_eq in V as [= -> ->]. destruct (Z.ltb_spec 16384 n) as [Big|Sm];
      [apply reads_safely_err; [now apply set_inner_inv|exact Ht]|].
    rewrite U. apply read_body_safe; [now apply set_inner_inv| |lia|exact Ut|reflexivity|exact Ht].
    rewrite U, !wf_bytes_app, !andb_true_iff in W. apply W.
  - destruct (on_inner_eof 5 s) as (t' & e & Er & Ht); [lia|]. unfold read_application_data.
    rewrite (bind_err _ _ _ _ _ Er). apply reads_safely_err; [now apply set_inner_inv|exact Ht].
Qed.

(** ** Limits and closing *)

Lemma close_eq iv (s : stream) : close_notify_sent s = false ->
  close iv s = bindM (write_application_data iv [0x01; 0x00]) (fun _ => modify set_closed) s.
Proof.
  intros N. unfold close, write_application_data, write_encrypted_record_with_type. rewrite bind_gets, N, !bind_assoc.
  unfold bindM. destruct (bump_write_seq s) as [s' [[]|e|]]; reflexivity.
Qed.

(** Writers do not fragment, and report success for what no peer can read: a
    plaintext whose record body exceeds 16 KiB (up to the 64 KiB the length
    field holds) is written as one record without error, and the peer's read of
    it fails on the size limit with the sequence numbers left out of step. At the last sequence number every
    write, and the first close, fails with [SequenceOverflow] and leaves the
    stream as it was. *)
Theorem oversized_write_unreadable (w r : stream) (iv p rest : bytes) :
  stream_inv w -> stream_inv r -> paired w r -> is_block iv = true -> wf_bytes p = true ->
  (write_seq w = u64_max ->
     write_application_data iv p w = (w, Err SequenceOverflow) /\
     (close_notify_sent w = false -> close iv w = (w, Err SequenceOverflow))) /\
  (write_seq w < u64_max -> TLCP_MAX_RECORD_SIZE < body_len (gcm (cipher_suite w)) (len p) < 2 ^ 16 ->
   exists w' wire, write_application_data iv p w = (w', Ok tt) /\ sent (inner w') = sent (inner w) ++ wire /\
     write_seq w' = write_seq w + 1 /\
     (unread (inner r) = wire ++ rest -> exists r',
        read_application_data r = (r', Err (HandshakeFailed "TLCP record exceeds size limit")) /\
        read_seq r' = read_seq r /\ ~ paired w' r')).
Proof.
  intros Iw Ir Pr Bi Wp. split.
  - intros Q. assert (Ov : write_application_data iv p w = (w, Err SequenceOverflow)).
    { unfold write_application_data, write_encrypted_record_with_type, bump_write_seq, bindM. now rewrite Q. }
    split; [exact Ov|]. intros N. rewrite close_eq by exact N.
    unfold write_application_data, write_encrypted_record_with_type, bump_write_seq, bindM. now rewrite Q.
  - intros Q Sz. destruct (write_record_ok w iv TLCP_RECORD_TYPE_APP_DATA p Iw Q Bi Wp) as (w' & body & Ew & Tw & _ & Lb & _).
    destruct Tw as (t' & ce & Ew' & St & _). exists w', (record_header TLCP_RECORD_TYPE_APP_DATA (len body) ++ body).
    split; [exact Ew|]. rewrite Ew'. split; [exact St|]. split; [reflexivity|]. intros U.
    unfold TLCP_MAX_RECORD_SIZE in Sz. rewrite record_header_small, <- !app_assoc in U by lia.
    destruct (read_header r _ 1 1 (len body) (body ++ rest) ltac:(lia) U) as (t2 & _ & _ & ->).
    change (negb _) with false. rewrite (proj2 (Z.ltb_lt _ _)) by lia. eexists. split; [reflexivity|]. split; [reflexivity|].
    intros [_ _ _ Q' _]. pose proof (paired_seq w r Pr). cbn in Q'. lia.
Qed.

(** A close_notify travels as application data: [close] writes one protected
    record of type application data holding 01 00 and marks the stream closed, a
    second [close] does nothing, and the peer's [read_application_data] returns
    the two bytes as data, the same result as for an application that wrote
    them, not the end of the stream. *)
Theorem close_notify_read_as_data (w r : stream) (iv iv' rest : bytes) :
  stream_inv w -> stream_inv r -> paired w r -> is_block iv = true -> wf_bytes rest = true ->
  write_seq w < u64_max -> close_notify_sent w = false ->
  exists w' wire, close iv w = (w', Ok tt) /\ sent (inner w') = sent (inner w) ++ wire /\ close_notify_sent w' = true /\
    close iv' w' = (w', Ok tt) /\
    (unread (inner r) = wire ++ rest -> exists r', read_application_data r = (r', Ok [0x01; 0x00]) /\ unread (inner r') = rest) /\
    (exists w2, write_application_data iv [0x01; 0x00] w = (w2, Ok tt) /\ sent (inner w2) = sent (inner w) ++ wire).
Proof.
  intros Iw Ir Pr Bi Wr Q N.
  destruct (write_record_ok w iv TLCP_RECORD_TYPE_APP_DATA [1; 0] Iw Q Bi eq_refl) as (w2 & body & Ew & Tw & Se & Lb & Wb).
  pose proof Tw as (t' & ce & E2 & St & _).
  set (wire := record_header TLCP_RECORD_TYPE_APP_DATA (len body) ++ body) in *.
  exists (set_closed w2), wire. rewrite close_eq, (bind_ok _ _ _ _ _ Ew) by exact N. split; [reflexivity|].
  split; [rewrite E2; exact St|]. split; [reflexivity|]. split; [reflexivity|].
  split; [|exists w2; split; [exact Ew|rewrite E2; exact St]]. intros U. unfold wire in U. rewrite <- app_assoc in U.
  pose proof (paired_seq w r Pr) as Qr.
  destruct (read_written r TLCP_RECORD_TYPE_APP_DATA body [1; 0] rest Ir eq_refl) as (r' & Er & Tr);
    [rewrite Lb; now destruct (gcm _)|now rewrite U, !wf_bytes_app, wf_record_header, Wb|lia|exact U|now apply (seals_protects w)|].
  exists r'. split; [exact Er|]. destruct Tr as (t2 & cd & -> & Ut & _). exact Ut.
Qed.
End StreamLemmas.

(** ** The two streams of one key block *)

Definition km_ok (km : TlcpKeyMaterial) : bool :=
  (len (client_enc_key km) =? 16) && (len (server_enc_key km) =? 16) && wf_bytes (client_iv km) && wf_bytes (server_iv km).

Lemma copy_iv_shape src : wf_bytes src = true -> len (copy_iv src) = 12 /\ wf_bytes (copy_iv src) = true.
Proof.
  intros W. unfold copy_iv. split.
  - unfold len. rewrite length_firstn, length_app, repeat_length. lia.
  - apply wf_bytes_firstn. now rewrite wf_bytes_app, W.
Qed.

Lemma stream_new_ok {T : Type} (t : T) km suite b sid : km_ok km = true ->
  exists s, stream_new t km suite b sid = Ok s /\ stream_inv s /\ inner s = t /\ cipher_suite s = suite /\ write_seq s = 0 /\
    close_notify_sent s = false.
Proof.
  unfold km_ok. rewrite !andb_true_iff, !Z.eqb_eq. intros (((Kc & Ks) & Wc) & Ws). eexists. split; [reflexivity|].
  split; [|now repeat split].
  destruct b; constructor; cbn; try assumption; try (now apply copy_iv_shape); try (unfold u64_max; lia); now left.
Qed.

Lemma stream_new_paired {T : Type} (tc ts : T) km suite suite' b sid sid' c s : gcm suite = gcm suite' ->
  stream_new tc km suite b sid = Ok c -> stream_new ts km suite' (negb b) sid' = Ok s -> paired c s.
Proof. intros G [= <-] [= <-]. destruct b; constructor; cbn; reflexivity || now symmetry. Qed.

(** ** Witnesses *)

Definition sample_km : TlcpKeyMaterial :=
  {| client_mac_key := repeat 1 32; server_mac_key := repeat 2 32; client_enc_key := repeat 3 16;
     server_enc_key := repeat 4 16; client_iv := [5; 6; 7; 8]; server_iv := [9; 10; 11; 12] |}.

Definition sample_stream (suite : TlcpCipherSuite) (client : bool) (input : bytes) : TlcpStream pipe :=
  match @stream_new _ {| incoming := input; outgoing := [] |} sample_km suite client [] with
  | Ok s => s
  | _ => {| inner := {| incoming := []; outgoing := [] |}; write_key := []; read_key := []; write_mac_key := [];
            read_mac_key := []; write_nonce := []; read_nonce := []; write_seq := 0; read_seq := 0; read_buf := [];
            read_buf_pos := 0; cipher_enc := None; cipher_dec := None; close_notify_sent := false; is_client := client;
            session_id := []; cached_resumed_session := None; cipher_suite := suite; gmssl_padding_compat := false;
            peer_client_certs_cache := []; peer_server_certs_cache := None |}
  end.

Lemma sample_inv suite b input : stream_inv (sample_stream suite b input).
Proof. destruct (stream_new_ok {| incoming := input; outgoing := [] |} sample_km suite b [] eq_refl) as (s & [= <-] & I & _). exact I. Qed.

Lemma sample_paired suite b i j : paired (sample_stream suite b i) (sample_stream suite (negb b) j).
Proof. now apply (stream_new_paired {| incoming := i; outgoing := [] |} {| incoming := j; outgoing := [] |} sample_km suite suite b [] []). Qed.

Definition sample_messages : list (bytes * Z * bytes) :=
  [(repeat 17 16, TLCP_RECORD_TYPE_HANDSHAKE, [1; 2; 3]); (repeat 18 16, TLCP_RECORD_TYPE_APP_DATA, []);
   (repeat 19 16, TLCP_RECORD_TYPE_APP_DATA, repeat 255 40)].

Lemma record_stream_roundtrip_witness :
  let w := sample_stream ECC_SM4_CBC_SM3 true [] in
  exists w', @write_messages _ toy_crates toy_sm3 _ sample_messages w = (w', Ok tt) /\
    exists r', @read_messages _ toy_crates toy_sm3 _ 3 (sample_stream ECC_SM4_CBC_SM3 false (outgoing (inner w'))) =
      (r', Ok [[1; 2; 3]; []; repeat 255 40]).
Proof.
  intros w. destruct (@write_messages _ toy_crates toy_sm3 _ sample_messages w) as [w' o] eqn:Ew.
  destruct (@record_stream_roundtrip pipe toy_crates toy_laws toy_sm3 toy_sm3_laws _ pipe_laws w
    (sample_stream ECC_SM4_CBC_SM3 false (outgoing (inner w'))) sample_messages []) as (w2 & wire & E & S & _ & Rd);
    [apply sample_inv|apply sample_inv|apply (sample_paired ECC_SM4_CBC_SM3 true)|reflexivity|reflexivity|vm_compute; discriminate|].
  rewrite Ew in E. injection E as <- ->. exists w'. split; [reflexivity|].
  destruct Rd as (r' & Er & _); [rewrite app_nil_r; exact S|]. exists r'. exact Er.
Defined.

Lemma read_accepts_only_protected_witness :
  @reads_safely pipe toy_crates toy_sm3 _ pipe_laws (sample_stream ECC_SM4_GCM_SM3 false [21; 1; 1; 0; 2; 1; 0; 9]) [21; 1; 1; 0; 2; 1; 0; 9]
    (@read_application_data _ toy_crates toy_sm3 _ (sample_stream ECC_SM4_GCM_SM3 false [21; 1; 1; 0; 2; 1; 0; 9])).
Proof.
  exact (@read_accepts_only_protected pipe toy_crates toy_laws toy_sm3 toy_sm3_laws _ pipe_laws
    (sample_stream ECC_SM4_GCM_SM3 false [21; 1; 1; 0; 2; 1; 0; 9]) (sample_inv _ _ _) eq_refl).
Defined.

Lemma oversized_write_unreadable_witness :
  let w := sample_stream ECC_SM4_GCM_SM3 true [] in let p := repeat 0 (Z.to_nat 16361) in
  exists w' wire, @write_application_data _ toy_crates toy_sm3 _ (repeat 0 16) p w = (w', Ok tt) /\ outgoing (inner w') = wire.
Proof.
  intros w p. destruct (@oversized_write_unreadable pipe toy_crates toy_laws toy_sm3 toy_sm3_laws _ pipe_laws w
    (sample_stream ECC_SM4_GCM_SM3 false []) (repeat 0 16) p []) as [_ Big];
    [apply sample_inv|apply sample_inv|apply (sample_paired ECC_SM4_GCM_SM3 true)|reflexivity|vm_compute; reflexivity|].
  destruct Big as (w' & wire & E & S & _); [reflexivity|vm_compute; split; reflexivity|]. exists w', wire. split; [exact E|exact S].
Defined.

Lemma close_notify_read_as_data_witness :
  let w := sample_stream ECC_SM4_GCM_SM3 true [] in
  exists w', @close _ toy_crates toy_sm3 _ (repeat 0 16) w = (w', Ok tt) /\ close_notify_sent w' = true.
Proof.
  intros w. destruct (@close_notify_read_as_data pipe toy_crates toy_laws toy_sm3 toy_sm3_laws _ pipe_laws w
    (sample_stream ECC_SM4_GCM_SM3 false []) (repeat 0 16) [] []) as (w' & wire & E & _ & Cl & _);
    [apply sample_inv|apply sample_inv|apply (sample_paired ECC_SM4_GCM_SM3 true)|reflexivity|reflexivity|reflexivity|reflexivity|].
  exists w'. split; [exact E|exact Cl].
Defined.
