(* ===== verification/TlcpChannel.v ===== *)
(** From a completed handshake to a protected stream (gm-tlcp/src/tlcp/mod.rs,
    [TlcpStream::from_client_handshake_with_transport] and
    [from_server_handshake_with_transport]), the plaintext records the handshake
    itself travels in, and the composition of handshake, key schedule and record
    layer. *)

From Stdlib Require Import String Bool ZArith Lia List.
From S2P Require Import Prelude Bytes Effects Sm4 Sm3 Tlcp TlcpKeys TlcpMessages TlcpSession TlcpHandshake TlcpRecord.
Import ListNotations.
Open Scope Z_scope.

Section Channel.
Context {T : Type} {H : Sm3Crate}.

Definition with_handshake (s : TlcpStream T) (resumed : option TlcpResumedSession) (client_certs : list bytes)
    (server_certs : option TlcpCertPair) : TlcpStream T :=
  {| inner := inner s; write_key := write_key s; read_key := read_key s; write_mac_key := write_mac_key s;
     read_mac_key := read_mac_key s; write_nonce := write_nonce s; read_nonce := read_nonce s;
     write_seq := write_seq s; read_seq := read_seq s; read_buf := read_buf s; read_buf_pos := read_buf_pos s;
     cipher_enc := cipher_enc s; cipher_dec := cipher_dec s; close_notify_sent := close_notify_sent s;
     is_client := is_client s; session_id := session_id s; cached_resumed_session := resumed;
     cipher_suite := cipher_suite s; gmssl_padding_compat := gmssl_padding_compat s;
     peer_client_certs_cache := client_certs; peer_server_certs_cache := server_certs |}.

Definition set_peer_client_certs_from_acceptor (s : TlcpStream T) (chain : list bytes) : TlcpStream T :=
  with_handshake s (cached_resumed_session s) chain (peer_server_certs_cache s).

Definition unknown_suite (id : bytes) : TlcpError :=
  InvalidMessage ("unknown cipher suite " +++ hex_pair hex02l id)%string.

Definition from_client_handshake_with_transport (now : Z) (handshake : TlcpHandshake) (transport : T)
    : outcome TlcpError (TlcpStream T) :=
  suite_id <- ok_or (c_cipher_suite handshake) (InvalidMessage "cipher suite not negotiated") ;;
  suite <- ok_or (from_id suite_id) (unknown_suite suite_id) ;;
  master <- ok_or (c_master_secret handshake) (HandshakeFailed "master secret not derived") ;;
  server_random <- ok_or (c_server_random handshake) (HandshakeFailed "server random not received") ;;
  key_material <- run (derive master (c_client_random handshake) server_random suite) ;;
  let resumed := client_to_resumed_session now handshake in
  stream <- stream_new transport key_material suite true (c_session_id handshake) ;;
  Ok (with_handshake stream resumed (peer_client_certs_cache stream) (c_server_certs handshake)).

Definition from_server_handshake_with_transport (now : Z) (handshake : TlcpServerHandshake) (transport : T)
    : outcome TlcpError (TlcpStream T) :=
  suite <- ok_or (s_cipher_suite handshake) (InvalidMessage "cipher suite not negotiated") ;;
  master <- ok_or (s_master_secret handshake) (HandshakeFailed "master secret not derived") ;;
  client_random <- ok_or (s_client_random handshake) (HandshakeFailed "client random not received") ;;
  key_material <- run (derive master client_random (s_server_random handshake) suite) ;;
  let resumed := server_to_resumed_session now handshake in
  stream <- stream_new transport key_material suite false (s_session_id handshake) ;;
  Ok (with_handshake stream resumed (s_client_certs handshake) (peer_server_certs_cache stream)).

(** ** Streams from a shared key exchange context *)

(** An SM2 key pair of gm-crypto: its public key and its Diffie-Hellman function. *)
Record Sm2EcdhKeypair : Type := { public_key_bytes : bytes; compute_shared_secret : bytes -> outcome CryptoError bytes }.

Record TlcpEcdheContext : Type := {
  client_ephemeral_pub : bytes;
  server_ephemeral_pub : bytes;
  ctx_pre_master_secret : bytes;
  ctx_client_random : bytes;
  ctx_server_random : bytes
}.

Definition sm2_error {A : Type} (m : string) (o : outcome CryptoError A) : outcome TlcpError A :=
  map_err (fun e => Sm2KeyError (m +++ display_crypto e)%string) o.

Definition generate_with_cipher_suite (client_kp server_kp : outcome CryptoError Sm2EcdhKeypair) (rc rs : bytes)
    : outcome TlcpError TlcpEcdheContext :=
  client_kp <- sm2_error "client ECDHE keygen failed: " client_kp ;;
  server_kp <- sm2_error "server ECDHE keygen failed: " server_kp ;;
  pms <- sm2_error "ECDHE shared secret failed: " (compute_shared_secret client_kp (public_key_bytes server_kp)) ;;
  pms_verify <- sm2_error "ECDHE verify failed: " (compute_shared_secret server_kp (public_key_bytes client_kp)) ;;
  guard (negb (bytes_eqb pms pms_verify))
    (HandshakeFailed "ECDHE shared secret mismatch: client and server derived different keys")
    (Ok {| client_ephemeral_pub := public_key_bytes client_kp; server_ephemeral_pub := public_key_bytes server_kp;
           ctx_pre_master_secret := pms; ctx_client_random := rc; ctx_server_random := rs |}).

(** The assignments to the fields of a client context. *)
Definition install_client (ctx : TlcpEcdheContext) (c : TlcpHandshake) : TlcpHandshake :=
  {| c_state := c_state c; c_cipher_suite := Some TLS_ECDHE_SM4_GCM_SM3; c_client_random := ctx_client_random ctx;
     c_server_random := Some (ctx_server_random ctx); c_server_certs := c_server_certs c;
     c_pre_master_secret := c_pre_master_secret c; c_master_secret := c_master_secret c; c_session_id := c_session_id c;
     c_is_resumed := c_is_resumed c; c_resumed_session := c_resumed_session c; c_transcript := c_transcript c;
     c_cipher_suites := c_cipher_suites c |}.

Definition install_server (ctx : TlcpEcdheContext) (s : TlcpServerHandshake) : TlcpServerHandshake :=
  {| s_state := s_state s; s_cipher_suite := s_cipher_suite s; s_server_random := ctx_server_random ctx;
     s_client_random := Some (ctx_client_random ctx); s_server_certs := s_server_certs s; s_client_certs := s_client_certs s;
     s_pre_master_secret := s_pre_master_secret s; s_master_secret := s_master_secret s; s_transcript := s_transcript s;
     s_session_id := s_session_id s; s_is_resumed := s_is_resumed s; s_resumed_session := s_resumed_session s;
     s_session_cache := s_session_cache s |}.

Definition placeholder : TlcpCertPair := cert_pair_new (repeat 0x01 100) (repeat 0x02 100).

(** [rc] is the random of [new_client], overwritten by the context's. *)
Definition connect_tlcp_with_context (now : Z) (rc : bytes) (transport : T) (ctx : TlcpEcdheContext)
    : outcome TlcpError (TlcpStream T) :=
  let client_hs := install_client ctx (fst (create_client_hello (new_client rc))) in
  client_hs <- then_ (process_server_certs client_hs placeholder) ;;
  client_hs <- then_ (derive_master_secret (set_pre_master_secret client_hs (ctx_pre_master_secret ctx))) ;;
  from_client_handshake_with_transport now client_hs transport.

(** The generators' draws: the server's and the hello's time and random bytes, and the session id. *)
Definition accept_tlcp_with_context (now gmt gmt' : Z) (rnd rnd' sid : bytes) (transport : T) (session_cache : TlcpSessionCache)
    (ctx : TlcpEcdheContext) : outcome TlcpError (TlcpStream T) :=
  let server_hs := with_session_cache gmt rnd session_cache in
  let client_hello := client_hello_new gmt' rnd' in
  server_hs <- then_ (process_client_hello now sid server_hs client_hello) ;;
  _ <- create_server_hello server_hs ;;
  let server_hs := install_server ctx (set_server_certs server_hs placeholder) in
  server_hs <- then_ (complete_key_exchange server_hs (ctx_pre_master_secret ctx)) ;;
  from_server_handshake_with_transport now server_hs transport.

Definition connect_tlcp (now : Z) (rc : bytes) (transport : T) (session_cache : TlcpSessionCache)
    (generate : outcome TlcpError TlcpEcdheContext) : outcome TlcpError (TlcpStream T) :=
  let client_hs := fst (create_client_hello (new_client rc)) in
  ctx <- generate ;;
  let client_hs := set_pre_master_secret (install_client ctx client_hs) (ctx_pre_master_secret ctx) in
  client_hs <- then_ (derive_master_secret client_hs) ;;
  from_client_handshake_with_transport now client_hs transport.

Definition accept_tlcp (now gmt gmt' : Z) (rnd rnd' sid : bytes) (transport : T) (session_cache : TlcpSessionCache)
    (generate : outcome TlcpError TlcpEcdheContext) : outcome TlcpError (TlcpStream T) :=
  let server_hs := with_session_cache gmt rnd session_cache in
  let client_hello := client_hello_new gmt' rnd' in
  server_hs <- then_ (process_client_hello now sid server_hs client_hello) ;;
  _ <- create_server_hello server_hs ;;
  let server_hs := set_server_certs server_hs placeholder in
  ctx <- generate ;;
  server_hs <- then_ (complete_key_exchange (install_server ctx server_hs) (ctx_pre_master_secret ctx)) ;;
  from_server_handshake_with_transport now server_hs transport.
End Channel.

(** ** Lemmas *)

Lemma from_id_id s : In s all_suites -> from_id (suite_id s) = Some s.
Proof. intros I. repeat (destruct I as [<-|I]; [reflexivity|]). destruct I. Qed.

Lemma derive_km_ok {H : Sm3Crate} {L : Sm3Laws H} master cr sr s : exists km, derive master cr sr s = Some (Ok km) /\ km_ok km = true.
Proof.
  destruct (derive_ok master cr sr s) as (km & D & Lay). exists km. split; [exact D|]. unfold km_ok.
  destruct (gcm s).
  - destruct (prf_ref_shape master (bytes_of "key expansion") (sr ++ cr) 40) as [Ln W]; [lia|].
    destruct (key_layout_gcm _ Ln) as (km' & Lay' & E & Kc & Ks & _). rewrite Lay in Lay'. injection Lay' as <-.
    rewrite <- E, !wf_bytes_app, !andb_true_iff in W. rewrite Kc, Ks, !andb_true_iff. intuition reflexivity.
  - destruct (prf_ref_shape master (bytes_of "key expansion") (sr ++ cr) 128) as [Ln W]; [lia|].
    destruct (key_layout_cbc _ Ln) as (km' & Lay' & E & _ & _ & Kc & Ks & _). rewrite Lay in Lay'. injection Lay' as <-.
    rewrite <- E, !wf_bytes_app, !andb_true_iff in W. rewrite Kc, Ks, !andb_true_iff. intuition reflexivity.
Qed.

Lemma with_handshake_inv {T : Type} (s : TlcpStream T) r cc sc : stream_inv s -> stream_inv (with_handshake s r cc sc).
Proof. intros []. constructor; cbn; assumption. Qed.

Section Streams.
Context {T : Type} {H : Sm3Crate} {L : Sm3Laws H}.

(** The two ends of a completed handshake. *)
Lemma handshake_streams now (tc ts : T) hc hs suite master rc sr : In suite all_suites ->
  c_master_secret hc = Some master -> s_master_secret hs = Some master ->
  c_cipher_suite hc = Some (suite_id suite) -> s_cipher_suite hs = Some suite ->
  c_client_random hc = rc -> c_server_random hc = Some sr -> s_client_random hs = Some rc -> s_server_random hs = sr ->
  exists c s, from_client_handshake_with_transport now hc tc = Ok c /\ from_server_handshake_with_transport now hs ts = Ok s /\
    stream_inv c /\ stream_inv s /\ paired c s /\ paired s c /\ inner c = tc /\ inner s = ts /\
    cipher_suite c = suite /\ cipher_suite s = suite /\ write_seq c = 0 /\ write_seq s = 0 /\
    peer_server_certs_cache c = c_server_certs hc /\ cached_resumed_session c <> None /\ cached_resumed_session s <> None.
Proof.
  intros Ia Mc Ms Cc Cs Rc Rsc Rcs Rs. destruct (derive_km_ok master rc sr suite) as (km & D & K).
  destruct (stream_new_ok tc km suite true (c_session_id hc) K) as (c & Nc & Ic & Tc & Sc & Qc & _).
  destruct (stream_new_ok ts km suite false (s_session_id hs) K) as (s & Ns & Is & Ts & Ss & Qs & _).
  pose proof (stream_new_paired tc ts km suite suite true _ _ c s eq_refl Nc Ns) as [P1 P2 P3 P4 P5].
  pose proof (stream_new_paired ts tc km suite suite false _ _ s c eq_refl Ns Nc) as [P1' P2' P3' P4' P5'].
  unfold from_client_handshake_with_transport, from_server_handshake_with_transport.
  rewrite Cc, Cs, Mc, Ms, Rc, Rsc, Rcs, Rs. cbn [ok_or bind]. rewrite from_id_id by exact Ia. cbn [ok_or bind].
  rewrite D. cbn [run bind]. rewrite Nc, Ns. cbn [bind]. do 2 eexists. split; [reflexivity|]. split; [reflexivity|].
  split; [now apply with_handshake_inv|]. split; [now apply with_handshake_inv|].
  split; [constructor; assumption|]. split; [constructor; assumption|]. repeat (split; [assumption || reflexivity|]).
  unfold client_to_resumed_session, server_to_resumed_session. cbn [with_handshake cached_resumed_session].
  rewrite Cc, Cs, Mc, Ms, Rsc, Rcs. split; discriminate.
Qed.

Context {C : Sm4Crates} {LC : Sm4Laws C} {TT : Transport T} {LT : TransportLaws TT}.

Definition delivers (w r : TlcpStream T) (ms : list (bytes * Z * bytes)) : Prop :=
  exists w' wire, write_messages ms w = (w', Ok tt) /\ sent (inner w') = sent (inner w) ++ wire /\
    forall rest, wf_bytes rest = true -> unread (inner r) = wire ++ rest ->
    exists r', read_messages (List.length ms) r = (r', Ok (map snd ms)) /\ unread (inner r') = rest.

Lemma paired_delivers w r ms : stream_inv w -> stream_inv r -> paired w r -> write_seq w = 0 -> len ms <= u64_max ->
  forallb (sendable (gcm (cipher_suite w))) ms = true -> delivers w r ms.
Proof.
  intros Iw Ir P Q N F. destruct (messages_roundtrip ms w Iw F) as (w' & wire & E & S & _ & _ & Rd); [lia|].
  exists w', wire. split; [exact E|]. split; [exact S|]. intros rest Wr U.
  destruct (Rd r rest Ir P Wr U) as (r' & Er & Ur & _). eauto.
Qed.

(** C7. Handshake, key schedule and record layer compose: over any transports
    that keep their bytes, whatever the randoms, certificates, pre-master secret
    and transcript, when the server supports one of the offered suites the
    handshake ends with both Finished messages verified, both ends build a
    stream, each stream caches its session and the client's the server's
    certificates, and every sequence of messages that fit records is delivered
    in order, from client to server and from server to client. *)
Theorem secure_channel (tc ts : T) (now gmt : Z) (rc rnd sid pms t : bytes) (ss : list bytes) (suite : TlcpCipherSuite)
    (certs : TlcpCertPair) (up down : list (bytes * Z * bytes)) :
  len rc = 32 -> len rnd = 28 -> len sid <= 32 ->
  forallb (fun s => len s =? 2) ss = true -> len ss < 32768 -> find_suite ss = Some suite ->
  forallb (sendable (gcm suite)) up = true -> forallb (sendable (gcm suite)) down = true ->
  len up <= u64_max -> len down <= u64_max ->
  exists hc hs c s, honest_handshake now gmt rc rnd sid pms t ss certs = Ok (hc, hs, true, true) /\
    from_client_handshake_with_transport now hc tc = Ok c /\ from_server_handshake_with_transport now hs ts = Ok s /\
    peer_server_certs_cache c = c_server_certs hc /\ cached_resumed_session c <> None /\ cached_resumed_session s <> None /\
    inner c = tc /\ inner s = ts /\ delivers c s up /\ delivers s c down.
Proof.
  intros Lr Ln Ls Fs Ns Fd Fu Fw Nu Nd.
  destruct (honest_handshake_ok now gmt rc rnd sid pms t ss suite certs Lr Ln Ls Fs Ns Fd)
    as (hc & hs & E & Mc & Ms & _ & Cc & Cs & _ & Rc & Rsc & Rcs & Rs). destruct (find_suite_some ss suite Fd) as [Ia _].
  destruct (handshake_streams now tc ts hc hs suite _ _ _ Ia Mc Ms Cc Cs Rc Rsc Rcs Rs)
    as (c & s & Ec & Es & Ic & Is & P & P' & Tc & Ts & Sc & Ss & Qc & Qs & Pc & Kc & Ks).
  exists hc, hs, c, s. repeat (split; [assumption|]). split; apply paired_delivers; assumption || congruence.
Qed.

Lemma connect_context now (tc : T) rc ctx : exists hc, connect_tlcp_with_context now rc tc ctx = from_client_handshake_with_transport now hc tc /\
  c_master_secret hc = Some (prf_ref (ctx_pre_master_secret ctx) (bytes_of "master secret") (ctx_client_random ctx ++ ctx_server_random ctx) 48) /\
  c_cipher_suite hc = Some TLS_ECDHE_SM4_GCM_SM3 /\ c_client_random hc = ctx_client_random ctx /\
  c_server_random hc = Some (ctx_server_random ctx).
Proof.
  unfold connect_tlcp_with_context. cbv zeta.
  set (c0 := install_client ctx _). unfold process_server_certs. change (c_state c0) with HelloSent.
  rewrite decidable.bool_decide_true by reflexivity. cbn [negb then_ snd fst bind].
  unfold derive_master_secret. set (c1 := set_pre_master_secret _ _). change (c_state c1) with ServerCertsReceived.
  rewrite decidable.bool_decide_true by reflexivity. cbn [orb negb].
  change (c_pre_master_secret c1) with (Some (ctx_pre_master_secret ctx)).
  change (c_server_random c1) with (Some (ctx_server_random ctx)). change (c_client_random c1) with (ctx_client_random ctx).
  cbn [ok_or bind]. rewrite master_of_ok. cbn [then_ snd fst bind]. eexists. split; [reflexivity|]. repeat split.
Qed.

Lemma accept_context now gmt gmt' rnd rnd' sid (ts : T) cache ctx :
  exists hs, accept_tlcp_with_context now gmt gmt' rnd rnd' sid ts cache ctx = from_server_handshake_with_transport now hs ts /\
  s_master_secret hs = Some (prf_ref (ctx_pre_master_secret ctx) (bytes_of "master secret") (ctx_client_random ctx ++ ctx_server_random ctx) 48) /\
  s_cipher_suite hs = Some ECDHE_SM4_GCM_SM3 /\ s_client_random hs = Some (ctx_client_random ctx) /\
  s_server_random hs = ctx_server_random ctx.
Proof.
  unfold accept_tlcp_with_context.
  assert (E : exists s1, process_client_hello now sid (with_session_cache gmt rnd cache) (client_hello_new gmt' rnd') = (s1, Ok tt) /\
    s_state s1 = HelloSent /\ s_cipher_suite s1 = Some ECDHE_SM4_GCM_SM3).
  { unfold process_client_hello, lookup_session. cbn [with_session_cache server_context s_state client_hello_new ch_version ch_session_id].
    rewrite decidable.bool_decide_true, bytes_eqb_refl by reflexivity. cbn [negb]. change (len [] =? 0) with true. cbv iota.
    eexists. split; [reflexivity|]. split; reflexivity. }
  destruct E as (s1 & -> & St & Su). cbn [then_ snd fst bind]. unfold create_server_hello. rewrite St, Su.
  rewrite decidable.bool_decide_true by reflexivity. cbn [negb guard ok_or bind]. unfold complete_key_exchange.
  cbn [install_server set_server_certs s_state s_client_random s_server_random]. rewrite St. rewrite decidable.bool_decide_true by reflexivity.
  cbn [orb negb ok_or bind]. rewrite master_of_ok. cbn [snd fst bind]. eexists. split; [reflexivity|].
  split; [reflexivity|]. split; [exact Su|]. split; reflexivity.
Qed.
(** The context two key pairs with the same shared secret give. *)
Lemma generate_ok (kc ks : Sm2EcdhKeypair) (rc rs pms : bytes) :
  compute_shared_secret kc (public_key_bytes ks) = Ok pms -> compute_shared_secret ks (public_key_bytes kc) = Ok pms ->
  generate_with_cipher_suite (Ok kc) (Ok ks) rc rs = Ok {| client_ephemeral_pub := public_key_bytes kc;
    server_ephemeral_pub := public_key_bytes ks; ctx_pre_master_secret := pms; ctx_client_random := rc; ctx_server_random := rs |}.
Proof.
  intros Ec Es. unfold generate_with_cipher_suite. cbn [sm2_error map_err bind]. rewrite Ec, Es. cbn [sm2_error map_err bind].
  rewrite bytes_eqb_refl. reflexivity.
Qed.

Lemma accept_tlcp_shared now gmt gmt' rnd rnd' sid (ts : T) cache ctx :
  accept_tlcp now gmt gmt' rnd rnd' sid ts cache (Ok ctx) = accept_tlcp_with_context now gmt gmt' rnd rnd' sid ts cache ctx.
Proof. reflexivity. Qed.

(** Two key pairs that agree on a shared secret make a context, and the two
    ends that share it deliver: connecting and accepting with the context give
    streams of the GCM suite, over their transports, that carry every sequence of
    sendable messages in order in both directions, whatever the generators
    return; accepting with a context of one's own gives the same stream as
    accepting with that context. *)
Theorem context_channel (tc ts : T) (kc ks : Sm2EcdhKeypair) (now gmt gmt' : Z) (rc rs r rnd rnd' sid pms : bytes)
    (cache : TlcpSessionCache) (up down : list (bytes * Z * bytes)) :
  compute_shared_secret kc (public_key_bytes ks) = Ok pms -> compute_shared_secret ks (public_key_bytes kc) = Ok pms ->
  forallb (sendable true) up = true -> forallb (sendable true) down = true -> len up <= u64_max -> len down <= u64_max ->
  exists ctx c s, generate_with_cipher_suite (Ok kc) (Ok ks) rc rs = Ok ctx /\
    connect_tlcp_with_context now r tc ctx = Ok c /\ accept_tlcp_with_context now gmt gmt' rnd rnd' sid ts cache ctx = Ok s /\
    accept_tlcp now gmt gmt' rnd rnd' sid ts cache (Ok ctx) = Ok s /\
    cipher_suite c = ECDHE_SM4_GCM_SM3 /\ cipher_suite s = ECDHE_SM4_GCM_SM3 /\ inner c = tc /\ inner s = ts /\
    delivers c s up /\ delivers s c down.
Proof.
  intros Ec Es Fu Fd Nu Nd. pose proof (generate_ok kc ks rc rs pms Ec Es) as G. set (ctx := Build_TlcpEcdheContext _ _ _ _ _) in G.
  exists ctx. destruct (connect_context now tc r ctx) as (hc & Cc & Mc & Suc & Rc & Rsc).
  destruct (accept_context now gmt gmt' rnd rnd' sid ts cache ctx) as (hs & Cs & Ms & Sus & Rcs & Rs).
  destruct (handshake_streams now tc ts hc hs ECDHE_SM4_GCM_SM3 _ _ _ (or_introl eq_refl) Mc Ms Suc Sus Rc Rsc Rcs Rs)
    as (c & s & Oc & Os & Ic & Is & P & P' & Tc & Ts & Sc & Ss & Qc & Qs & _).
  exists c, s. rewrite Oc in Cc. rewrite Os in Cs. rewrite accept_tlcp_shared. repeat (split; [assumption|]).
  split; apply paired_delivers; rewrite ?Sc, ?Ss; assumption.
Qed.

(** [connect_tlcp] never returns a stream: it derives the master secret
    without having installed server certificates, so whatever context it
    generates it ends in the state error of [derive_master_secret], and a failed
    generation ends in that failure. *)
Theorem connect_tlcp_never_succeeds (now : Z) (r : bytes) (transport : T) (cache : TlcpSessionCache)
    (generated : outcome TlcpError TlcpEcdheContext) :
  connect_tlcp now r transport cache generated =
    match generated with
    | Ok _ => Err (InvalidState "derive_master_secret requires ServerCertsReceived or KeyExchange state, got HelloSent")
    | Err e => Err e
    | Panic => Panic
    end.
Proof.
  unfold connect_tlcp. destruct generated as [ctx| |]; [|reflexivity..]. cbv zeta. cbn [bind].
  unfold derive_master_secret. set (c1 := set_pre_master_secret _ _). change (c_state c1) with HelloSent.
  rewrite !decidable.bool_decide_false by discriminate. reflexivity.
Qed.
End Streams.

Lemma secure_channel_witness :
  exists hc hs (c s : TlcpStream pipe), @honest_handshake toy_sm3 5 7 (repeat 1 32) (repeat 2 28) (repeat 3 32) [4] [6]
      [TLS_ECC_SM4_CBC_SM3] (cert_pair_new [8] [9]) = Ok (hc, hs, true, true) /\
    from_client_handshake_with_transport (H:=toy_sm3) 5 hc {| incoming := []; outgoing := [] |} = Ok c /\
    from_server_handshake_with_transport (H:=toy_sm3) 5 hs {| incoming := []; outgoing := [] |} = Ok s /\
    @delivers pipe toy_sm3 toy_crates _ pipe_laws c s sample_messages /\ @delivers pipe toy_sm3 toy_crates _ pipe_laws s c [].
Proof.
  destruct (@secure_channel pipe toy_sm3 toy_sm3_laws toy_crates toy_laws _ pipe_laws {| incoming := []; outgoing := [] |}
    {| incoming := []; outgoing := [] |} 5 7 (repeat 1 32) (repeat 2 28) (repeat 3 32) [4] [6]
    [TLS_ECC_SM4_CBC_SM3] ECC_SM4_CBC_SM3 (cert_pair_new [8] [9]) sample_messages [])
    as (hc & hs & c & s & E & Ec & Es & _ & _ & _ & _ & _ & Du & Dd);
    [reflexivity|reflexivity|vm_compute; discriminate|reflexivity|reflexivity|reflexivity|reflexivity|reflexivity
    |vm_compute; discriminate|vm_compute; discriminate|].
  exists hc, hs, c, s. auto.
Defined.

(** Toy key pairs of the multiplicative group modulo 251. *)
Definition toy_keypair (k : Z) : Sm2EcdhKeypair :=
  {| public_key_bytes := [6 ^ k mod 251];
     compute_shared_secret peer := y <- index peer 0 ;; Ok [y ^ k mod 251] |}.

Lemma context_channel_witness :
  exists ctx (c s : TlcpStream pipe), generate_with_cipher_suite (Ok (toy_keypair 5)) (Ok (toy_keypair 9)) (repeat 1 32) (repeat 2 32) = Ok ctx /\
    connect_tlcp_with_context (H:=toy_sm3) 5 (repeat 3 32) {| incoming := []; outgoing := [] |} ctx = Ok c /\
    accept_tlcp_with_context (H:=toy_sm3) 5 7 8 (repeat 4 28) (repeat 5 28) (repeat 6 32) {| incoming := []; outgoing := [] |}
      cache_new ctx = Ok s /\
    @delivers pipe toy_sm3 toy_crates _ pipe_laws c s sample_messages /\ @delivers pipe toy_sm3 toy_crates _ pipe_laws s c [].
Proof.
  destruct (@context_channel pipe toy_sm3 toy_sm3_laws toy_crates toy_laws _ pipe_laws {| incoming := []; outgoing := [] |}
    {| incoming := []; outgoing := [] |} (toy_keypair 5) (toy_keypair 9) 5 7 8 (repeat 1 32) (repeat 2 32) (repeat 3 32)
    (repeat 4 28) (repeat 5 28) (repeat 6 32) [6 ^ 45 mod 251] cache_new sample_messages [])
    as (ctx & c & s & G & Ec & Es & _ & _ & _ & _ & _ & Du & Dd);
    [reflexivity|reflexivity|reflexivity|reflexivity|vm_compute; discriminate|vm_compute; discriminate|].
  exists ctx, c, s. auto.
Defined.

(** ** Plaintext records *)

(** A handshake message of at most 16 KiB crosses the transport in one plaintext
    record; a longer one, up to 64 KiB, is written without error and refused by
    the reader. *)
Lemma plaintext_record_roundtrip {T : Type} {TT : Transport T} {LT : TransportLaws TT} (t r : T) (msg rest : bytes) :
  len msg < 2 ^ 16 -> unread r = [TLCP_RECORD_TYPE_HANDSHAKE; 0x01; 0x01] ++ be_bytes 2 (len msg) ++ msg ++ rest ->
  exists t' r' o, write_handshake_record msg t = (t', Ok tt) /\
    sent t' = sent t ++ [TLCP_RECORD_TYPE_HANDSHAKE; 0x01; 0x01] ++ be_bytes 2 (len msg) ++ msg /\
    read_plaintext_record r = (r', o) /\
    if len msg <=? 16384 then o = Ok (TLCP_RECORD_TYPE_HANDSHAKE, msg) /\ unread r' = rest
    else o = Err ("Record too large: " +++ dec (len msg) +++ " bytes")%string.
Proof.
  intros B U. pose proof (len_nonneg msg) as Pm. pose proof (len_nonneg rest) as Pr.
  unfold write_handshake_record, as_u16. rewrite Z.mod_small by lia.
  set (rec := [TLCP_RECORD_TYPE_HANDSHAKE] ++ _).
  destruct (write_all_law rec t) as (t1 & E1 & S1 & _). rewrite (bind_ok _ _ _ _ _ E1).
  destruct (flush_law t1) as (t2 & E2 & S2 & _). rewrite E2. rewrite S1 in S2. subst rec. cbn [TLCP_VERSION_1_0 app] in S2.
  assert (F : from_be (be_bytes 2 (len msg)) = len msg) by (apply from_be_bytes_small; cbn; lia).
  assert (L5 : 5 <= len (unread r)) by (rewrite U, !len_app, len_be_bytes; change (len (_ :: _)) with 3; lia).
  destruct (read_exact_law 5 r) as (r1 & E3 & U1 & _); [lia|]. rewrite U in E3, U1. rewrite be2 in *.
  set (hi := as_u8 (Z.shiftr (len msg) 8)) in *. set (lo := as_u8 (Z.shiftr (len msg) 0)) in *. clearbody hi lo.
  change (firstn (Z.to_nat 5) _) with [TLCP_RECORD_TYPE_HANDSHAKE; 1; 1; hi; lo] in E3.
  change (skipn (Z.to_nat 5) _) with (msg ++ rest) in U1.
  exists t2. unfold read_plaintext_record. rewrite (bind_ok _ _ _ _ _ E3).
  do 3 (rewrite bind_lift; lazymatch goal with |- context [@index ?E ?A ?l ?i] =>
    let v := eval vm_compute in (@index E A l i) in change (@index E A l i) with v end; cbv iota).
  cbv zeta. rewrite F, bind_failIf. unfold TLCP_MAX_RECORD_SIZE. change (16 * 1024) with 16384.
  destruct (Z.leb_spec (len msg) 16384) as [Le|Gt].
  - rewrite (proj2 (Z.ltb_ge _ _)) by exact Le.
    destruct (read_exact_law (len msg) r1) as (r2 & E4 & U2 & _); [rewrite U1, len_app; lia|].
    rewrite U1, to_nat_len in E4, U2. rewrite firstn_app, firstn_all, Nat.sub_diag, firstn_O, app_nil_r in E4.
    rewrite skipn_app, skipn_all, Nat.sub_diag in U2. rewrite (bind_ok _ _ _ _ _ E4). exists r2. eexists.
    split; [reflexivity|]. split; [exact S2|]. split; [reflexivity|]. split; [reflexivity|exact U2].
  - rewrite (proj2 (Z.ltb_lt _ _)) by lia. exists r1. eexists. split; [reflexivity|]. split; [exact S2|].
    split; reflexivity.
Qed.
