(* ===== verification/TlcpPoll.v ===== *)
(** The polling interface of the TLCP stream (gm-tlcp/src/tlcp/mod.rs, the
    [AsyncRead] and [AsyncWrite] implementations of [TlcpStream]): [poll_read]
    with its read buffer, [poll_write], [poll_flush] and [poll_shutdown].

    An early return of [Poll::Pending] and one of [Poll::Ready(Err(_))] are the
    two constructors of [stop]. The transport's own polling operations are an
    argument; [script] is the in-memory transport that follows a schedule, each
    entry the most bytes the next poll moves, 0 for [Pending]. *)

From Stdlib Require Import String Bool ZArith Lia List.
From S2P Require Import Prelude Bytes Effects Sm4 Sm3 Tlcp TlcpKeys TlcpMessages TlcpSession TlcpRecord.
Import ListNotations.
Open Scope Z_scope.

Section Poll.
Context {T : Type} {C : Sm4Crates} {H : Sm3Crate} {PT : PollTransport T}.
Local Abbreviation stream := (TlcpStream T).

Definition on_poll {A : Type} (m : M T stop A) : M stream stop A := fun s =>
  let '(t, o) := m (inner s) in (set_inner t s, o).

(** ** Writing *)

Definition encrypt_gcm_record (plaintext : bytes) : M stream string bytes :=
  write_seq <-- gets write_seq ;;;
  seq <-- lift (usize_sub write_seq 1) ;;;
  base <-- gets write_nonce ;;;
  nonce <-- lift (map_err (fun e => "Nonce overflow: " +++ display_tlcp e)%string (next_nonce base seq)) ;;;
  let seq_bytes := be_bytes 8 seq in
  cipher <-- mapM_err (fun e => "SM4 key error: " +++ debug_tlcp e)%string get_cipher_enc ;;;
  let header := record_header TLCP_RECORD_TYPE_APP_DATA (8 + len plaintext + 16) in
  let aad := gcm_aad seq (TLCP_RECORD_TYPE_APP_DATA :: TLCP_VERSION) (len plaintext) in
  sealed <-- lift (map_err (fun e => "GCM encryption failed: " +++ debug_crypto e)%string
                (encrypt_gcm cipher plaintext nonce aad)) ;;;
  ret (header ++ seq_bytes ++ fst sealed ++ snd sealed).

Definition encrypt_cbc_record (iv plaintext : bytes) : M stream string bytes :=
  encrypt_cbc_record_with_type iv TLCP_RECORD_TYPE_APP_DATA plaintext.

(** [while written < record_data.len()]; every turn writes at least one byte. *)
Fixpoint write_loop (fuel : nat) (record : bytes) (written : Z) : M stream stop unit :=
  match fuel with
  | O => lift Panic
  | S fuel =>
      if written <? len record then
        chunk <-- lift (slice_from record written) ;;;
        n <-- on_poll (poll_write chunk) ;;;
        if 0 <? n then write_loop fuel record (written + n) else fail (Failed "failed to write record")
      else ret tt
  end.

Definition write_fuel (record : bytes) : nat := S (List.length record).

Definition bump_write : M stream stop unit := fun s =>
  if write_seq s =? u64_max then (s, Err (Failed "Sequence overflow")) else (set_write_seq (write_seq s + 1) s, Ok tt).

Definition encrypt_record (iv plaintext : bytes) : M stream string bytes :=
  suite <-- gets cipher_suite ;;;
  if gcm suite then encrypt_gcm_record plaintext else encrypt_cbc_record iv plaintext.

Definition stream_poll_write (iv buf : bytes) : M stream stop Z :=
  bump_write ;;;
  record_data <-- mapM_err Failed (encrypt_record iv buf) ;;;
  write_loop (write_fuel record_data) record_data 0 ;;;
  ret (len buf).

Definition stream_poll_flush : M stream stop unit := on_poll poll_flush.

(** The loop of [poll_shutdown], which gives up on an error. *)
Fixpoint shutdown_loop (fuel : nat) (record : bytes) (written : Z) : M stream stop unit := fun s =>
  match fuel with
  | O => (s, Panic)
  | S fuel =>
      if written <? len record then
        match slice_from record written with
        | Ok chunk =>
            match on_poll (poll_write chunk) s with
            | (s', Ok n) => if 0 <? n then shutdown_loop fuel record (written + n) s' else (s', Ok tt)
            | (s', Err (Failed _)) => (s', Ok tt)
            | (s', Err Pending) => (s', Err Pending)
            | (s', Panic) => (s', Panic)
            end
        | Err e => (s, Err e)
        | Panic => (s, Panic)
        end
      else (s, Ok tt)
  end.

Definition stream_poll_shutdown (iv : bytes) : M stream stop unit := fun s =>
  if close_notify_sent s then on_poll poll_shutdown s
  else if write_seq s =? u64_max then on_poll poll_shutdown s
  else
    let '(s1, o) := encrypt_record iv [0x01; 0x00] (set_write_seq (write_seq s + 1) s) in
    match o with
    | Ok record => (shutdown_loop (write_fuel record) record 0 ;;; modify set_closed ;;; on_poll poll_shutdown) s1
    | Err _ => (modify set_closed ;;; on_poll poll_shutdown) s1
    | Panic => (s1, Panic)
    end.

(** ** Reading *)

Definition set_read_buf (buf : bytes) (pos : Z) (s : stream) : stream :=
  with_fields s (inner s) (write_seq s) (read_seq s) buf pos (cipher_enc s) (cipher_dec s) (close_notify_sent s).

(** Copies from the read buffer to a caller with room for [remaining] bytes. *)
Definition take_buffered (remaining : Z) : M stream stop bytes :=
  buf <-- gets read_buf ;;;
  pos <-- gets read_buf_pos ;;;
  available <-- lift (usize_sub (len buf) pos) ;;;
  let to_copy := Z.min available remaining in
  out <-- lift (slice buf pos (pos + to_copy)) ;;;
  modify (if len buf <=? pos + to_copy then set_read_buf [] 0 else set_read_buf buf (pos + to_copy)) ;;;
  ret out.

(** [while filled < ct_len]; every turn reads at least one byte. *)
Fixpoint fill_loop (fuel : nat) (ct_len : Z) (incomplete : string) (filled : bytes) : M stream stop bytes :=
  match fuel with
  | O => lift Panic
  | S fuel =>
      if len filled <? ct_len then
        chunk <-- on_poll (poll_read (ct_len - len filled)) ;;;
        if len chunk =? 0 then fail (Failed incomplete) else fill_loop fuel ct_len incomplete (filled ++ chunk)
      else ret filled
  end.

Definition fill (ct_len : Z) (incomplete : string) : M stream stop bytes :=
  fill_loop (S (Z.to_nat ct_len)) ct_len incomplete [].

(** The GCM branch of [poll_read]. *)
Definition poll_open_gcm (ciphertext_buf header : bytes) : M stream stop bytes :=
  failIf (len ciphertext_buf <? 8 + 16) (Failed "TLCP GCM record too short") ;;;
  n <-- lift (usize_sub (len ciphertext_buf) 16) ;;;
  en_and_ct <-- lift (slice_to ciphertext_buf n) ;;;
  tag <-- lift (slice_from ciphertext_buf n) ;;;
  body_ct <-- lift (slice_from en_and_ct 8) ;;;
  read_seq <-- gets read_seq ;;;
  seq <-- lift (usize_sub read_seq 1) ;;;
  base <-- gets read_nonce ;;;
  nonce <-- lift (map_err (fun e => Failed ("Nonce overflow: " +++ display_tlcp e)%string) (next_nonce base seq)) ;;;
  head3 <-- lift (slice header 0 3) ;;;
  let aad := gcm_aad seq head3 (len body_ct) in
  cipher <-- mapM_err (fun e => Failed ("SM4 key error: " +++ display_tlcp e)%string) get_cipher_dec ;;;
  lift (map_err (fun e => Failed ("GCM decryption failed: " +++ debug_crypto e)%string)
          (Sm4.decrypt_gcm cipher body_ct nonce aad tag)).

Definition poll_open_cbc (ciphertext_buf header : bytes) : M stream stop bytes :=
  mapM_err (fun e => Failed ("CBC decryption failed: " +++ debug_tlcp e)%string) (decrypt_cbc_record ciphertext_buf header).

Definition bump_read : M stream stop unit := fun s =>
  if read_seq s =? u64_max then (s, Err (Failed "Sequence overflow")) else (set_read_seq (read_seq s + 1) s, Ok tt).

(** [header] is a zeroed array one [poll_read] of the transport fills from the front. *)
Definition poll_header : M stream stop bytes :=
  chunk <-- on_poll (poll_read 5) ;;;
  ret (chunk ++ repeat 0 (5 - List.length chunk)).

Definition is_close_notify (plaintext : bytes) : bool :=
  (len plaintext =? 2) && (nth 0 plaintext 0 =? 0x01) && (nth 1 plaintext 0 =? 0x00).

Definition poll_app_data (remaining : Z) (header : bytes) (ct_len : Z) : M stream stop bytes :=
  ciphertext_buf <-- fill ct_len "TLCP record read incomplete" ;;;
  bump_read ;;;
  suite <-- gets cipher_suite ;;;
  plaintext <-- (if gcm suite then poll_open_gcm ciphertext_buf header else poll_open_cbc ciphertext_buf header) ;;;
  if is_close_notify plaintext then ret []
  else modify (set_read_buf plaintext 0) ;;; take_buffered remaining.

Definition poll_alert (ct_len : Z) : M stream stop bytes :=
  alert_buf <-- fill ct_len "TLCP alert read incomplete" ;;;
  if (2 <=? len alert_buf) && (nth 0 alert_buf 0 =? 0x01) && (nth 1 alert_buf 0 =? 0x00) then ret []
  else fail (Failed ("TLCP alert: level=" +++ dec (nth 0 alert_buf 0) +++ " description=" +++ dec (nth 1 alert_buf 0))%string).

(** The bytes [poll_read] puts into a buffer with room for [remaining]. *)
Definition stream_poll_read (remaining : Z) : M stream stop bytes := fun s =>
  if read_buf_pos s <? len (read_buf s) then take_buffered remaining s
  else
    (header <-- poll_header ;;;
     content_type <-- lift (index header 0) ;;;
     v0 <-- lift (index header 1) ;;;
     v1 <-- lift (index header 2) ;;;
     l0 <-- lift (index header 3) ;;;
     l1 <-- lift (index header 4) ;;;
     let ct_len := from_be [l0; l1] in
     failIf (negb (bytes_eqb [v0; v1] TLCP_VERSION))
       (Failed ("unexpected TLCP version: " +++ hex02 v0 +++ hex02 v1)%string) ;;;
     failIf (TLCP_MAX_RECORD_SIZE <? ct_len) (Failed "TLCP record exceeds size limit") ;;;
     if content_type =? TLCP_RECORD_TYPE_APP_DATA then poll_app_data remaining header ct_len
     else if content_type =? TLCP_RECORD_TYPE_ALERT then poll_alert ct_len
     else fail (Failed ("unexpected TLCP content type: 0x" +++ hex02 content_type)%string)) s.
End Poll.

Section OpenAgree.
Context {T : Type} {C : Sm4Crates} {H : Sm3Crate}.

Lemma same_usize_sub {E F : Type} a b : same_ok (@usize_sub E a b) (@usize_sub F a b).
Proof. unfold usize_sub. now destruct (b <=? a). Qed.

Lemma same_slice {E F A : Type} (l : list A) i j : same_ok (@slice E A l i j) (@slice F A l i j).
Proof. unfold slice. now destruct (_ && _). Qed.

Lemma same_slice_to {E F A : Type} (l : list A) i : same_ok (@slice_to E A l i) (@slice_to F A l i).
Proof. unfold slice_to. now destruct (_ && _). Qed.

Lemma same_slice_from {E F A : Type} (l : list A) i : same_ok (@slice_from E A l i) (@slice_from F A l i).
Proof. unfold slice_from. now destruct (_ && _). Qed.

(** The inlined GCM branch opens what [decrypt_gcm] opens. *)
Lemma poll_open_gcm_agree (buf header : bytes) (s : TlcpStream T) :
  agree (decrypt_gcm_record buf header s) (poll_open_gcm buf header s).
Proof.
  unfold decrypt_gcm_record, poll_open_gcm.
  apply agree_bind; [destruct (_ <? _); now split|]. intros _ s0.
  apply agree_bind; [apply agree_lift, same_usize_sub|]. intros n s1.
  apply agree_bind; [apply agree_lift, same_slice_to|]. intros ec s2.
  apply agree_bind; [apply agree_lift, same_slice_from|]. intros tag s3.
  apply agree_bind; [apply agree_lift, same_slice_from|]. intros ct s4.
  apply agree_bind; [now split|]. intros q s5.
  apply agree_bind; [apply agree_lift, same_usize_sub|]. intros seq s6.
  apply agree_bind; [now split|]. intros base s7.
  apply agree_bind; [apply agree_lift, same_map_err_r|]. intros nonce s8.
  apply agree_bind; [apply agree_lift, same_slice|]. intros h3 s9. cbv zeta.
  apply agree_bind; [|intros c s10; apply agree_lift, same_map_err].
  unfold mapM_err. destruct (get_cipher_dec s9) as [s' o]. split; [reflexivity|apply same_map_err_r].
Qed.

Lemma poll_open_cbc_agree (buf header : bytes) (s : TlcpStream T) :
  agree (decrypt_cbc_record buf header s) (poll_open_cbc buf header s).
Proof.
  unfold poll_open_cbc, mapM_err. destruct (decrypt_cbc_record buf header s) as [s' o]. split; [reflexivity|apply same_map_err_r].
Qed.
End OpenAgree.

(** ** Lemmas on the scheduled transport *)

Section ScriptLemmas.
Context {C : Sm4Crates} {LC : Sm4Laws C} {H : Sm3Crate} {LH : Sm3Laws H}.
Local Abbreviation stream := (TlcpStream script).

(** Whatever the schedule, the loop writes all of the record, or a proper prefix
    and is pending; it is never pending on a schedule without 0. *)
Lemma write_loop_spec fuel : forall rec written (s : stream), 0 <= written <= len rec -> len rec - written < Z.of_nat fuel ->
  exists k q o, write_loop fuel rec written s = (set_inner (put_out (inner s) (firstn (Z.to_nat k) (skipn (Z.to_nat written) rec)) q) s, o) /\
    ((o = Ok tt /\ k = len rec - written /\ (positive (writes (inner s)) = true -> positive q = true)) \/
     (o = Err Pending /\ 0 <= k < len rec - written /\ positive (writes (inner s)) = false)).
Proof.
  induction fuel as [|fuel IH]; intros rec written s B F; [lia|]. cbn [write_loop].
  destruct (Z.ltb_spec written (len rec)) as [Lt|Ge].
  - rewrite bind_lift, slice_from_ok by lia. set (chunk := skipn (Z.to_nat written) rec).
    assert (Lc : len chunk = len rec - written) by (unfold chunk; rewrite len_skipn; lia).
    destruct (quota_cases (writes (inner s)) (len chunk)) as (q & [[Eq Np]|(k & Eq & Bk & Ps)]); [lia| |].
    + exists 0, q, (Err Pending). split; [|right; repeat split; lia || assumption].
      unfold bindM, on_poll, poll_write, script_poll. rewrite Eq. unfold put_out. now rewrite firstn_O, app_nil_r.
    + assert (Ew : on_poll (poll_write chunk) s = (set_inner (put_out (inner s) (firstn (Z.to_nat k) chunk) q) s, Ok k)).
      { unfold on_poll, poll_write, script_poll. now rewrite Eq. }
      rewrite (bind_ok _ _ _ _ _ Ew), (proj2 (Z.ltb_lt _ _)) by lia.
      set (s1 := set_inner _ s). destruct (IH rec (written + k) s1) as (k' & q' & o & E & X); [lia|lia|].
      assert (Sp : firstn (Z.to_nat k) chunk ++ firstn (Z.to_nat k') (skipn (Z.to_nat (written + k)) rec) =
                   firstn (Z.to_nat (k + k')) chunk).
      { replace (Z.to_nat (written + k)) with (Z.to_nat k + Z.to_nat written)%nat by lia. rewrite <- skipn_skipn.
        replace (Z.to_nat (k + k')) with (Z.to_nat k + Z.to_nat k')%nat
          by (destruct X as [(_ & -> & _)|(_ & ? & _)]; lia). apply firstn_plus. }
      exists (k + k'), q', o. rewrite E. split.
      * rewrite <- Sp. unfold s1, put_out. cbn [inner set_inner with_fields s_in s_out reads writes].
        rewrite app_assoc. reflexivity.
      * cbn [s1 inner set_inner with_fields put_out writes] in X.
        destruct X as [(-> & -> & P)|(-> & ? & P)]; [left|right]; repeat split; try lia.
        -- auto.
        -- destruct (positive (writes (inner s))); [|reflexivity]. rewrite Ps in P by reflexivity. discriminate.
  - exists 0, (writes (inner s)), (Ok tt). split; [|left; repeat split; lia || auto].
    unfold put_out. cbn [Z.to_nat firstn]. rewrite app_nil_r. destruct s as [i]. destruct i. reflexivity.
Qed.

(** *** Writing *)

Lemma encrypt_record_ok {T : Type} (s : TlcpStream T) iv p : stream_inv s -> 1 <= write_seq s -> is_block iv = true -> wf_bytes p = true ->
  exists body, encrypt_record iv p s =
      (set_cipher_enc (key_cipher (write_key s)) s, Ok (record_header TLCP_RECORD_TYPE_APP_DATA (len body) ++ body)) /\
    seals (set_write_seq (write_seq s - 1) s) TLCP_RECORD_TYPE_APP_DATA body p /\
    len body = body_len (gcm (cipher_suite s)) (len p) /\ wf_bytes body = true.
Proof.
  intros I R Bi Wp. unfold encrypt_record, seals. rewrite bind_gets. change (cipher_suite (set_write_seq _ s)) with (cipher_suite s).
  destruct (gcm (cipher_suite s)).
  - destruct (inv_write_nonce s I) as [Lb Wb]. pose proof (inv_write_seq s I) as Ws. set (q := write_seq s - 1).
    destruct (gcm_seal_ok s TLCP_RECORD_TYPE_APP_DATA p I R Wp) as (e & tag & _ & Pr & Le & Lt & We). fold q in Pr.
    exists (be_bytes 8 q ++ e ++ tag). split; [|split; [exact Pr|]].
    + destruct Pr as (ex & e' & tag' & X & Lx & Enc). apply app_eq_app_len in X as [<- X]; [|rewrite length_be_bytes; unfold len in Lx; lia].
      destruct (seq_nonce_shape (write_nonce s) q Lb Wb) as [Ln Wn].
      destruct (gcm_roundtrip (key_cipher (write_key s)) p _ (gcm_aad q (head3 TLCP_RECORD_TYPE_APP_DATA) (len p)) Ln Wn)
        as (e2 & t2 & Enc' & Le' & Lt' & _). rewrite Enc in Enc'. injection Enc' as <- <-.
      apply app_eq_app_len in X as [-> ->]; [|unfold len in *; lia].
      unfold encrypt_gcm_record. rewrite bind_gets, bind_lift, usize_sub_ok, bind_gets, bind_lift, next_nonce_ok by lia.
      cbn [map_err]. cbv zeta. fold q. unfold mapM_err. unfold bindM at 1. rewrite (get_cipher_enc_ok s I). cbn [map_err].
      fold (head3 TLCP_RECORD_TYPE_APP_DATA). rewrite bind_lift, Enc. cbn [map_err fst snd]. unfold ret.
      replace (8 + len p + 16) with (len (be_bytes 8 q ++ e' ++ tag')); [reflexivity|]. rewrite !len_app. lia.
    + split; [rewrite !len_app, len_be_bytes; cbn [body_len]; lia|]. now rewrite wf_bytes_app, wf_be_bytes.
  - destruct (encrypt_cbc_record_ok s iv TLCP_RECORD_TYPE_APP_DATA p I R Bi Wp) as (body & E & Pr & Lb & Wb).
    exists body. split; [exact E|]. split; [exact (conj Pr Wp)|]. now split.
Qed.

(** [w'] is [w] after one [poll_write] that put [out] on the transport. *)
Definition polled_write (w w' : stream) (out : bytes) : Prop :=
  exists q, w' = with_fields w (put_out (inner w) out q) (write_seq w + 1) (read_seq w) (read_buf w) (read_buf_pos w)
    (Some (key_cipher (write_key w))) (cipher_dec w) (close_notify_sent w).

Lemma polled_write_inv w w' out : stream_inv w -> write_seq w < u64_max -> polled_write w w' out -> stream_inv w'.
Proof. intros [] B (q & ->). constructor; cbn; try assumption; [lia|now right]. Qed.

Lemma stream_poll_write_spec (w : stream) iv p : stream_inv w -> write_seq w < u64_max -> is_block iv = true -> wf_bytes p = true ->
  exists body w' out o, seals w TLCP_RECORD_TYPE_APP_DATA body p /\ len body = body_len (gcm (cipher_suite w)) (len p) /\
    wf_bytes body = true /\ stream_poll_write iv p w = (w', o) /\ polled_write w w' out /\
    let record := record_header TLCP_RECORD_TYPE_APP_DATA (len body) ++ body in
    ((o = Ok (len p) /\ out = record) \/
     (o = Err Pending /\ positive (writes (inner w)) = false /\
      exists k, (k < List.length record)%nat /\ out = firstn k record)).
Proof.
  intros I B Bi Wp. pose proof (inv_write_seq w I) as Ws. pose proof (set_write_seq_inv w I B) as I1.
  set (w1 := set_write_seq (write_seq w + 1) w) in *.
  destruct (encrypt_record_ok w1 iv p I1) as (body & Er & Se & Lb & Wb); [cbn; lia|assumption..|].
  set (record := record_header _ (len body) ++ body) in *.
  set (w2 := set_cipher_enc (key_cipher (write_key w1)) w1) in *.
  destruct (write_loop_spec (write_fuel record) record 0 w2) as (k & q & o & Ew & X);
    [pose proof (len_nonneg record); lia|unfold write_fuel, len; lia|].
  assert (E : stream_poll_write iv p w = (set_inner (put_out (inner w2) (firstn (Z.to_nat k) record) q) w2,
              match o with Ok _ => Ok (len p) | Err e => Err e | Panic => Panic end)).
  { unfold stream_poll_write. rewrite (bind_ok bump_write _ w w1 tt) by (unfold bump_write; rewrite (proj2 (Z.eqb_neq _ _)) by lia; reflexivity).
    rewrite (bind_ok _ _ w1 w2 record) by (unfold mapM_err; now rewrite Er). unfold bindM. rewrite Ew.
    destruct o; reflexivity. }
  exists body, (set_inner (put_out (inner w2) (firstn (Z.to_nat k) record) q) w2), (firstn (Z.to_nat k) record). eexists.
  split. { replace w with (set_write_seq (write_seq w1 - 1) w1); [exact Se|]. unfold w1. destruct w. cbn. now rewrite Z.add_simpl_r. }
  split; [exact Lb|]. split; [exact Wb|]. split; [exact E|]. split; [now exists q|]. cbv zeta. fold record.
  destruct X as [(-> & -> & _)|(-> & Bk & Np)].
  - left. split; [reflexivity|]. rewrite Z.sub_0_r, to_nat_len. apply firstn_all.
  - right. split; [reflexivity|]. split; [exact Np|]. exists (Z.to_nat k). split; [unfold len in Bk; lia|reflexivity].
Qed.

(** *** Reading *)

Definition took (t : script) (k : Z) (q : list Z) : script :=
  {| s_in := skipn (Z.to_nat k) (s_in t); s_out := s_out t; reads := q; writes := writes t |}.

(** Whatever the schedule, the loop fills the buffer from the input, or is pending
    with a proper prefix of it consumed. *)
Lemma fill_loop_spec fuel : forall n msg filled (s : stream), len filled <= n -> n - len filled < Z.of_nat fuel ->
  n - len filled <= len (s_in (inner s)) ->
  exists k q o, fill_loop fuel n msg filled s = (set_inner (took (inner s) k q) s, o) /\
    ((o = Ok (filled ++ firstn (Z.to_nat k) (s_in (inner s))) /\ k = n - len filled /\ (positive (reads (inner s)) = true -> positive q = true)) \/
     (o = Err Pending /\ 0 <= k < n - len filled /\ positive (reads (inner s)) = false)).
Proof.
  induction fuel as [|fuel IH]; intros n msg filled s B F Av; [lia|]. cbn [fill_loop]. pose proof (len_nonneg filled) as Pf.
  destruct (Z.ltb_spec (len filled) n) as [Lt|Ge].
  - set (room := n - len filled) in *. assert (Er : Z.min room (len (s_in (inner s))) = room) by lia.
    destruct (quota_cases (reads (inner s)) room) as (q & [[Eq Np]|(k & Eq & Bk & Ps)]); [lia| |].
    + exists 0, q, (Err Pending). split; [|right; repeat split; lia || assumption].
      unfold bindM, on_poll, poll_read, script_poll. now rewrite Er, Eq.
    + assert (Ew : on_poll (poll_read room) s = (set_inner (took (inner s) k q) s, Ok (firstn (Z.to_nat k) (s_in (inner s))))).
      { unfold on_poll, poll_read, script_poll. now rewrite Er, Eq. }
      rewrite (bind_ok _ _ _ _ _ Ew), len_firstn, (proj2 (Z.eqb_neq _ _)) by lia.
      set (chunk := firstn (Z.to_nat k) (s_in (inner s))). set (s1 := set_inner _ s).
      assert (Lc : len (filled ++ chunk) = len filled + k) by (unfold chunk; rewrite len_app, len_firstn by lia; reflexivity).
      destruct (IH n msg (filled ++ chunk) s1) as (k' & q' & o & E & X);
        [lia|lia|cbn [s1 inner set_inner with_fields took s_in]; rewrite len_skipn by lia; lia|].
      cbn [s1 inner set_inner with_fields took s_in reads] in X. rewrite Lc in X.
      assert (Pk : 0 <= k') by (destruct X as [(_ & -> & _)|(_ & ? & _)]; lia).
      exists (k + k'), q', o. rewrite E. split.
      * unfold s1, took. cbn [inner set_inner with_fields s_in s_out reads writes]. rewrite skipn_skipn.
        replace (Z.to_nat k' + Z.to_nat k)%nat with (Z.to_nat (k + k')) by lia. reflexivity.
      * destruct X as [(-> & -> & P)|(-> & ? & P)]; [left|right]; repeat split; try lia.
        -- rewrite <- app_assoc. unfold chunk. rewrite firstn_plus. do 4 f_equal. lia.
        -- auto.
        -- destruct (positive (reads (inner s))); [|reflexivity]. rewrite Ps in P by reflexivity. discriminate.
  - exists 0, (reads (inner s)), (Ok filled). split; [|left; rewrite firstn_O, app_nil_r; repeat split; lia || auto].
    unfold took. cbn [Z.to_nat skipn]. destruct s as [i]. destruct i. reflexivity.
Qed.

(** The bytes waiting in the read buffer. *)
Definition buffered (s : stream) : bytes := skipn (Z.to_nat (read_buf_pos s)) (read_buf s).

(** The buffer is empty at position 0, or not used up. *)
Definition buf_ok (buf : bytes) (pos : Z) : Prop := (buf = [] /\ pos = 0) \/ 0 <= pos < len buf.

Lemma buf_ok_pos buf pos : buf_ok buf pos -> 0 <= pos <= len buf.
Proof. intros [[-> ->]|B]; [split; [lia|apply len_nonneg]|lia]. Qed.

Lemma take_buffered_spec (s : stream) cap : 0 <= read_buf_pos s <= len (read_buf s) -> 0 <= cap ->
  exists buf pos, take_buffered cap s = (set_read_buf buf pos s, Ok (firstn (Z.to_nat cap) (buffered s))) /\
    buf_ok buf pos /\ skipn (Z.to_nat pos) buf = skipn (Z.to_nat cap) (buffered s).
Proof.
  intros B Bc. unfold take_buffered. rewrite !bind_gets, bind_lift, usize_sub_ok by lia. cbv zeta.
  set (n := Z.min (len (read_buf s) - read_buf_pos s) cap). rewrite bind_lift, slice_ok by lia.
  assert (Lb : len (buffered s) = len (read_buf s) - read_buf_pos s) by (apply len_skipn; lia).
  assert (Eo : firstn (Z.to_nat (read_buf_pos s + n - read_buf_pos s)) (skipn (Z.to_nat (read_buf_pos s)) (read_buf s)) =
    firstn (Z.to_nat cap) (buffered s)).
  { fold (buffered s). unfold n. rewrite Z.add_simpl_l. destruct (Z.le_ge_cases cap (len (buffered s))) as [L|L].
    - f_equal. lia.
    - rewrite !firstn_all2 by (unfold len in *; lia). reflexivity. }
  destruct (Z.leb_spec (len (read_buf s)) (read_buf_pos s + n)) as [All|Part].
  - exists [], 0. split; [unfold modify, bindM, ret; now rewrite <- Eo|]. split; [now left|].
    symmetry. apply skipn_all2. unfold len in *. lia.
  - exists (read_buf s), (read_buf_pos s + n). split; [unfold modify, bindM, ret; now rewrite <- Eo|]. split; [right; lia|].
    unfold buffered. rewrite skipn_skipn. f_equal. lia.
Qed.

Definition drained (s : stream) : Prop := read_buf s = [] /\ read_buf_pos s = 0.

Definition version_failed (v0 v1 : Z) : stop :=
  Failed ("unexpected TLCP version: " +++ hex02 v0 +++ hex02 v1)%string.

(** [poll_read] once the header array is filled. *)
Lemma poll_read_header (s s1 : stream) cap ct v0 v1 l0 l1 : drained s -> poll_header s = (s1, Ok [ct; v0; v1; l0; l1]) ->
  stream_poll_read cap s =
    if negb (bytes_eqb [v0; v1] TLCP_VERSION) then (s1, Err (version_failed v0 v1))
    else if TLCP_MAX_RECORD_SIZE <? from_be [l0; l1] then (s1, Err (Failed "TLCP record exceeds size limit"))
    else if ct =? TLCP_RECORD_TYPE_APP_DATA then poll_app_data cap [ct; v0; v1; l0; l1] (from_be [l0; l1]) s1
    else if ct =? TLCP_RECORD_TYPE_ALERT then poll_alert (from_be [l0; l1]) s1
    else (s1, Err (Failed ("unexpected TLCP content type: 0x" +++ hex02 ct)%string)).
Proof.
  intros [D1 D2] E. unfold stream_poll_read. rewrite D1, D2. change (0 <? len _) with false. cbv iota. rewrite (bind_ok _ _ _ _ _ E).
  do 5 (rewrite bind_lift; lazymatch goal with |- context [@index ?E ?A ?l ?i] =>
    let v := eval vm_compute in (@index E A l i) in change (@index E A l i) with v end; cbv iota).
  cbv zeta. rewrite bind_failIf. destruct (negb _); [reflexivity|]. rewrite bind_failIf.
  destruct (_ <? _); [reflexivity|]. destruct (ct =? _); [reflexivity|]. now destruct (ct =? _).
Qed.

(** The transport hands over [k] bytes of the header. *)
Lemma poll_header_chunk (s : stream) k q : quota (reads (inner s)) (Z.min 5 (len (s_in (inner s)))) = (Some k, q) ->
  poll_header s = (set_inner (took (inner s) k q) s,
    Ok (firstn (Z.to_nat k) (s_in (inner s)) ++ repeat 0 (5 - List.length (firstn (Z.to_nat k) (s_in (inner s)))))).
Proof. intros Q. unfold poll_header, bindM, on_poll, poll_read, script_poll. now rewrite Q. Qed.

(** Opening the filled buffer. *)
Lemma poll_open_ok (s : stream) ct h2 body p : stream_inv s -> 1 <= read_seq s -> wf_bytes body = true ->
  protects (set_read_seq (read_seq s - 1) s) ct body p ->
  exists s', (if gcm (cipher_suite s) then poll_open_gcm body (head3 ct ++ h2) else poll_open_cbc body (head3 ct ++ h2)) s = (s', Ok p) /\
    opened s s'.
Proof.
  intros I R W. unfold protects. change (cipher_suite (set_read_seq _ s)) with (cipher_suite s). destruct (gcm (cipher_suite s)); intros P.
  - destruct (decrypt_gcm_record_spec s body ct h2 I R) as (s' & o & E & O & _ & X). apply X in P. subst o.
    pose proof (poll_open_gcm_agree body (head3 ct ++ h2) s) as [F G]. rewrite E in F, G. cbn in F, G.
    exists s'. split; [|exact O]. destruct (poll_open_gcm body _ s) as [s1 [a| |]]; cbn in *; try contradiction. now subst.
  - destruct (decrypt_cbc_record_spec s body ct h2 I R W) as (s' & o & E & O & _ & X). apply X in P. subst o.
    pose proof (poll_open_cbc_agree body (head3 ct ++ h2) s) as [F G]. rewrite E in F, G. cbn in F, G.
    exists s'. split; [|exact O]. destruct (poll_open_cbc body _ s) as [s1 [a| |]]; cbn in *; try contradiction. now subst.
Qed.

(** [s'] is [s] after the next record was read through [poll_read], leaving [rest] of the input and [b] in the buffer. *)
Definition polled_read (s s' : stream) (rest b : bytes) : Prop :=
  exists q buf pos cd, s' = with_fields s {| s_in := rest; s_out := s_out (inner s); reads := q; writes := writes (inner s) |}
    (write_seq s) (read_seq s + 1) buf pos (cipher_enc s) cd (close_notify_sent s) /\
  buf_ok buf pos /\ skipn (Z.to_nat pos) buf = b /\ cache_ok (read_key s) cd.

Lemma polled_read_inv s s' rest b : stream_inv s -> read_seq s < u64_max -> polled_read s s' rest b -> stream_inv s'.
Proof. intros [] B (q & buf & pos & cd & -> & _ & _ & Ck). constructor; cbn; assumption || lia. Qed.

(** The body of a data record: pending with part of it gone, or delivered. *)
Lemma poll_app_data_spec (s : stream) cap h2 body p rest : stream_inv s -> drained s ->
  read_seq s < u64_max -> 0 <= cap -> wf_bytes body = true -> s_in (inner s) = body ++ rest ->
  protects s TLCP_RECORD_TYPE_APP_DATA body p ->
  exists s' o, poll_app_data cap (head3 TLCP_RECORD_TYPE_APP_DATA ++ h2) (len body) s = (s', o) /\
    ((o = Err Pending /\ positive (reads (inner s)) = false /\
      exists k q, 0 <= k < len body /\ s' = set_inner (took (inner s) k q) s) \/
     (if is_close_notify p then o = Ok [] /\ polled_read s s' rest []
      else o = Ok (firstn (Z.to_nat cap) p) /\ polled_read s s' rest (skipn (Z.to_nat cap) p))).
Proof.
  intros I [D1 D2] R Bc Wb U Pr. pose proof (inv_read_seq s I) as Rs. unfold poll_app_data, fill. pose proof (len_nonneg body) as Pb.
  destruct (fill_loop_spec (S (Z.to_nat (len body))) (len body) "TLCP record read incomplete" [] s) as (k & q & o & Ef & X);
    [exact Pb|change (len []) with 0; lia|rewrite U, len_app; change (len []) with 0; pose proof (len_nonneg rest); lia|].
  change (len []) with 0 in X. rewrite Z.sub_0_r in X. destruct X as [(-> & -> & _)|(-> & Bk & Np)].
  2: { rewrite (bind_err _ _ _ _ _ Ef). do 2 eexists. split; [reflexivity|]. left. split; [reflexivity|]. split; [exact Np|]. now exists k, q. }
  rewrite (bind_ok _ _ _ _ _ Ef). cbn [app]. rewrite U, to_nat_len, firstn_app, firstn_all, Nat.sub_diag, firstn_O, app_nil_r.
  set (s1 := set_inner _ s). set (s2 := set_read_seq (read_seq s + 1) s1).
  rewrite (bind_ok bump_read _ s1 s2 tt) by (unfold bump_read; cbn [s1 read_seq set_inner with_fields];
    rewrite (proj2 (Z.eqb_neq _ _)) by lia; reflexivity).
  rewrite bind_gets. assert (I2 : stream_inv s2) by (destruct I; constructor; cbn; assumption || lia).
  assert (Pr2 : protects (set_read_seq (read_seq s2 - 1) s2) TLCP_RECORD_TYPE_APP_DATA body p).
  { unfold protects in *. cbn. now rewrite Z.add_simpl_r. }
  destruct (poll_open_ok s2 TLCP_RECORD_TYPE_APP_DATA h2 body p I2) as (s3 & Eo & Op); [cbn; lia|exact Wb|exact Pr2|].
  rewrite (bind_ok _ _ _ _ _ Eo).
  assert (Sh : forall buf pos b, buf_ok buf pos -> skipn (Z.to_nat pos) buf = b -> polled_read s (set_read_buf buf pos s3) rest b).
  { assert (Sk : skipn (List.length body) (body ++ rest) = rest) by (rewrite skipn_app, skipn_all, Nat.sub_diag; reflexivity).
    intros buf pos b Ok_b Eb. exists q, buf, pos. destruct Op as [->| ->]; eexists;
      (split; [unfold s2, s1, took; cbn; rewrite U, to_nat_len, Sk; reflexivity|]); (split; [exact Ok_b|split; [exact Eb|]]);
      [apply I|now right]. }
  destruct (is_close_notify p).
  - do 2 eexists. split; [reflexivity|]. right. split; [reflexivity|].
    replace s3 with (set_read_buf [] 0 s3); [apply Sh; [now left|reflexivity]|].
    assert (E3 : read_buf s3 = [] /\ read_buf_pos s3 = 0) by (destruct Op as [->| ->]; now split).
    destruct s3; cbn in E3; now destruct E3 as [-> ->].
  - unfold modify. unfold bindM at 1. set (s4 := set_read_buf p 0 s3).
    destruct (take_buffered_spec s4 cap) as (buf & pos & Et & Ob & Eb); [cbn; pose proof (len_nonneg p); lia|exact Bc|].
    rewrite Et. do 2 eexists. split; [reflexivity|]. right. split; [reflexivity|]. now apply Sh.
Qed.

(** The transport gives the whole header to the first poll. *)
Definition header_ready (q : list Z) : bool := match q with [] => true | k :: _ => 5 <=? k end.

Lemma header_quota q n : header_ready q = true -> 5 <= n -> exists q', quota q (Z.min 5 n) = (Some 5, q') /\
  (positive q = true -> positive q' = true).
Proof.
  intros Hr N. rewrite Z.min_l by exact N. destruct q as [|k q]; [now exists []|]. cbn [header_ready] in Hr. apply Z.leb_le in Hr.
  cbn [quota]. rewrite (proj2 (Z.leb_gt _ _)) by lia. exists q. rewrite Z.min_r by exact Hr. split; [reflexivity|].
  cbn [positive forallb]. now intros [_ X]%andb_true_iff.
Qed.

(** A data record at the front of the input. *)
Lemma poll_read_record (r : stream) cap body p rest : stream_inv r -> drained r -> read_seq r < u64_max -> 0 <= cap ->
  wf_bytes body = true -> len body <= TLCP_MAX_RECORD_SIZE ->
  s_in (inner r) = record_header TLCP_RECORD_TYPE_APP_DATA (len body) ++ body ++ rest ->
  protects r TLCP_RECORD_TYPE_APP_DATA body p -> header_ready (reads (inner r)) = true ->
  exists r' o, stream_poll_read cap r = (r', o) /\
    ((o = Err Pending /\ positive (reads (inner r)) = false /\
      exists k q, 0 <= k < len body /\ r' = set_inner (took (inner r) (5 + k) q) r) \/
     (if is_close_notify p then o = Ok [] /\ polled_read r r' rest []
      else o = Ok (firstn (Z.to_nat cap) p) /\ polled_read r r' rest (skipn (Z.to_nat cap) p))).
Proof.
  intros I D R Bc Wb Sz U Pr Hr. unfold TLCP_MAX_RECORD_SIZE in Sz. pose proof (len_nonneg body) as Pb.
  rewrite record_header_small, <- app_assoc in U by lia.
  assert (F : from_be (be_bytes 2 (len body)) = len body) by (apply from_be_bytes_small; cbn; lia).
  assert (L5 : 5 <= len (s_in (inner r))).
  { rewrite U, !len_app, len_be_bytes. change (len [_; _; _]) with 3. pose proof (len_nonneg (body ++ rest)). rewrite len_app in *. lia. }
  destruct (header_quota (reads (inner r)) _ Hr L5) as (q & Q & Ps).
  pose proof (poll_header_chunk r 5 q Q) as Eh. rewrite U, be2 in Eh.
  set (hi := as_u8 (Z.shiftr (len body) 8)) in *. set (lo := as_u8 (Z.shiftr (len body) 0)) in *.
  set (r1 := set_inner (took (inner r) 5 q) r) in *.
  change (poll_header r = (r1, Ok [TLCP_RECORD_TYPE_APP_DATA; 1; 1; hi; lo])) in Eh.
  rewrite (poll_read_header r r1 cap _ _ _ _ _ D Eh). change (negb _) with false. cbv iota.
  rewrite be2 in F. fold hi lo in F. rewrite F. unfold TLCP_MAX_RECORD_SIZE. rewrite (proj2 (Z.ltb_ge _ _)) by exact Sz.
  rewrite Z.eqb_refl. assert (I1 : stream_inv r1) by now apply set_inner_inv.
  assert (U1 : s_in (inner r1) = body ++ rest) by (cbn [r1 inner set_inner with_fields took s_in]; rewrite U, be2; reflexivity).
  destruct (poll_app_data_spec r1 cap [hi; lo] body p rest I1 D R Bc Wb U1 Pr) as (r' & o & E & X).
  exists r', o. split; [exact E|]. destruct X as [(-> & Np & k & q' & Bk & ->)|X].
  - left. split; [reflexivity|]. cbn [r1 inner set_inner with_fields took reads] in Np.
    split; [destruct (positive (reads (inner r))); [|reflexivity]; rewrite <- Np; symmetry; now apply Ps|].
    exists k, q'. split; [exact Bk|]. unfold r1, took. cbn [inner set_inner with_fields s_in s_out reads writes].
    rewrite skipn_skipn. replace (Z.to_nat k + Z.to_nat 5)%nat with (Z.to_nat (5 + k)) by lia. reflexivity.
  - right. assert (Pl : forall b, polled_read r1 r' rest b -> polled_read r r' rest b).
    { intros b (q' & buf & pos & cd & -> & Y). exists q', buf, pos, cd. split; [reflexivity|exact Y]. }
    destruct (is_close_notify p); destruct X as [-> Y]; auto.
Qed.

(** Buffered bytes are delivered without the transport. *)
Lemma poll_read_buffered (r : stream) cap : buf_ok (read_buf r) (read_buf_pos r) -> buffered r <> [] -> 0 <= cap ->
  exists r', stream_poll_read cap r = (r', Ok (firstn (Z.to_nat cap) (buffered r))) /\
    buffered r' = skipn (Z.to_nat cap) (buffered r) /\ inner r' = inner r /\ buf_ok (read_buf r') (read_buf_pos r').
Proof.
  intros B N Bc. destruct B as [[E1 E2]|B]; [exfalso; apply N; unfold buffered; now rewrite E1, E2|].
  destruct (take_buffered_spec r cap) as (buf & pos & E & Ob & Eb); [lia|exact Bc|].
  unfold stream_poll_read. rewrite (proj2 (Z.ltb_lt _ _)) by lia. exists (set_read_buf buf pos r). auto.
Qed.

Lemma paired_polled w w' wire r r' rest b : paired w r -> polled_write w w' wire -> polled_read r r' rest b -> paired w' r'.
Proof.
  intros [K Mk N Q G] (q & ->) (q' & buf & pos & cd & -> & _). constructor; cbn; try assumption. now rewrite Q.
Qed.

Lemma empty_body_fails (s : stream) cap header : exists s' m, poll_app_data cap header 0 s = (s', Err (Failed m)).
Proof.
  unfold poll_app_data, fill. cbn [fill_loop Z.to_nat]. change (len [] <? 0) with false. cbv iota.
  rewrite (bind_ok _ _ s s []) by reflexivity. unfold bump_read. unfold bindM at 1.
  destruct (read_seq s =? u64_max); [eauto|]. rewrite bind_gets. destruct (gcm _).
  - erewrite bind_err; [eauto|]. unfold poll_open_gcm. rewrite bind_failIf. reflexivity.
  - erewrite bind_err; [eauto|]. unfold poll_open_cbc, mapM_err, decrypt_cbc_record. rewrite bind_failIf. reflexivity.
Qed.

Lemma short_header_fails (r : stream) cap body rest k q : drained r -> len body < 256 ->
  s_in (inner r) = record_header TLCP_RECORD_TYPE_APP_DATA (len body) ++ body ++ rest ->
  reads (inner r) = k :: q -> 1 <= k <= 4 -> exists r' m, stream_poll_read cap r = (r', Err (Failed m)).
Proof.
  intros D Sm U Eq Bk. pose proof (len_nonneg body) as Pb. rewrite record_header_small, be2 in U by lia.
  replace (as_u8 (Z.shiftr (len body) 8)) with 0 in U by (rewrite Z.shiftr_div_pow2, Z.div_small by lia; reflexivity).
  set (lo := as_u8 _) in U. clearbody lo. set (l := body ++ rest) in U. clearbody l.
  cbn [app] in U. assert (L5 : 5 <= len (s_in (inner r))) by (rewrite U, !len_cons; pose proof (len_nonneg l); lia).
  assert (Q : quota (reads (inner r)) (Z.min 5 (len (s_in (inner r)))) = (Some k, q)).
  { rewrite Eq. cbn [quota]. rewrite (proj2 (Z.leb_gt _ _)) by lia. do 2 f_equal. lia. }
  pose proof (poll_header_chunk r k q Q) as Eh. rewrite U in Eh. set (r1 := set_inner _ r) in Eh.
  assert (K : k = 1 \/ k = 2 \/ k = 3 \/ k = 4) by lia.
  destruct K as [->|[->|[->| ->]]]; rewrite (poll_read_header r r1 cap _ _ _ _ _ D Eh); [eauto|eauto| |];
    change (negb _) with false; change (_ <? _) with false; rewrite Z.eqb_refl; apply empty_body_fails.
Qed.


(** The polling interface cannot be resumed. A [poll_write] interrupted by
    [Pending] has put a proper prefix of a record on the transport and taken a
    sequence number; calling it again, as a pending write must be, adds a whole
    new record under the next sequence number behind the prefix. A [poll_read]
    interrupted inside a record has discarded the header and the bytes read so
    far, so that the next call takes the middle of the record for a header. And
    when the first poll yields only 1 to 4 bytes of the header, a complete valid
    record of less than 256 bytes is an error. *)
Theorem poll_interrupted_desync (w r : stream) (iv iv' p body rest : bytes) (cap : Z) :
  stream_inv w -> stream_inv r -> drained r -> is_block iv = true -> is_block iv' = true -> wf_bytes p = true ->
  write_seq w + 1 < u64_max -> read_seq r < u64_max -> 0 <= cap ->
  wf_bytes body = true -> len body <= TLCP_MAX_RECORD_SIZE ->
  s_in (inner r) = record_header TLCP_RECORD_TYPE_APP_DATA (len body) ++ body ++ rest ->
  protects r TLCP_RECORD_TYPE_APP_DATA body p ->
  (forall w', stream_poll_write iv p w = (w', Err Pending) -> positive (writes (inner w')) = true ->
     exists b1 b2 k w'', seals w TLCP_RECORD_TYPE_APP_DATA b1 p /\ seals w' TLCP_RECORD_TYPE_APP_DATA b2 p /\
       write_seq w' = write_seq w + 1 /\ (k < 5 + List.length b1)%nat /\ stream_poll_write iv' p w' = (w'', Ok (len p)) /\
       s_out (inner w'') = s_out (inner w) ++ firstn k (record_header TLCP_RECORD_TYPE_APP_DATA (len b1) ++ b1) ++
                           record_header TLCP_RECORD_TYPE_APP_DATA (len b2) ++ b2) /\
  (forall r', stream_poll_read cap r = (r', Err Pending) -> header_ready (reads (inner r)) = true ->
     exists k, (k < List.length body)%nat /\ s_in (inner r') = skipn k body ++ rest /\ r' = set_inner (inner r') r) /\
  (forall k q, reads (inner r) = k :: q -> 1 <= k <= 4 -> len body < 256 ->
     exists r' m, stream_poll_read cap r = (r', Err (Failed m))).
Proof.
  intros Iw Ir D Bi Bi' Wp Qw Qr Bc Wb Sz U Pr. split; [|split].
  - intros w' E Ps. destruct (stream_poll_write_spec w iv p Iw ltac:(lia) Bi Wp) as (b1 & w1 & out & o & Se & _ & _ & E1 & Tw & X).
    rewrite E in E1. injection E1 as <- <-. destruct X as [[[=] _]|(_ & _ & k & Bk & ->)].
    pose proof (polled_write_inv _ _ _ Iw ltac:(lia) Tw) as Iw'. destruct Tw as (q & Ew').
    assert (Q' : write_seq w' = write_seq w + 1) by now rewrite Ew'.
    destruct (stream_poll_write_spec w' iv' p Iw' ltac:(lia) Bi' Wp) as (b2 & w'' & out & o & Se2 & _ & _ & E2 & (q2 & Ew2) & Y).
    destruct Y as [(-> & ->)|(_ & Np & _)]; [|congruence].
    exists b1, b2, k, w''. split; [exact Se|]. split; [exact Se2|]. split; [exact Q'|].
    split; [rewrite length_app in Bk; exact Bk|]. split; [exact E2|]. rewrite Ew2, Ew'. cbn [inner with_fields put_out s_out].
    rewrite <- app_assoc. reflexivity.
  - intros r' E Hr. destruct (poll_read_record r cap body p rest Ir D Qr Bc Wb Sz U Pr Hr) as (r1 & o & E1 & X).
    rewrite E in E1. injection E1 as <- <-. destruct X as [(_ & _ & k & q & Bk & Er)|X];
      [|destruct (is_close_notify p); now destruct X].
    exists (Z.to_nat k). split; [unfold len in Bk; lia|]. rewrite Er. split; [|reflexivity].
    cbn [inner set_inner with_fields took s_in]. rewrite U. replace (Z.to_nat (5 + k)) with (Z.to_nat k + 5)%nat by lia.
    rewrite <- skipn_skipn. change (skipn 5 (record_header _ _ ++ body ++ rest)) with (body ++ rest).
    rewrite skipn_app. replace (Z.to_nat k - List.length body)%nat with 0%nat by (unfold len in Bk; lia). reflexivity.
  - intros k q Eq Bk Sm. exact (short_header_fails r cap body rest k q D Sm U Eq Bk).
Qed.
End ScriptLemmas.

(** ** Witnesses *)

Definition sample_script (client : bool) (input : bytes) (rs ws : list Z) : TlcpStream script :=
  let t := {| s_in := input; s_out := []; reads := rs; writes := ws |} in
  let s := sample_stream ECC_SM4_GCM_SM3 client [] in
  {| inner := t; write_key := write_key s; read_key := read_key s; write_mac_key := write_mac_key s;
     read_mac_key := read_mac_key s; write_nonce := write_nonce s; read_nonce := read_nonce s; write_seq := 0; read_seq := 0;
     read_buf := []; read_buf_pos := 0; cipher_enc := None; cipher_dec := None; close_notify_sent := false;
     is_client := client; session_id := []; cached_resumed_session := None; cipher_suite := cipher_suite s;
     gmssl_padding_compat := false; peer_client_certs_cache := []; peer_server_certs_cache := None |}.

Lemma sample_script_inv client input rs ws : stream_inv (sample_script client input rs ws).
Proof.
  destruct (sample_inv ECC_SM4_GCM_SM3 client []). constructor; cbn [sample_script write_key read_key write_nonce read_nonce
    write_seq read_seq cipher_enc cipher_dec]; try assumption; try (unfold u64_max; lia); now left.
Qed.

Lemma sample_script_paired i j rs ws rs' ws' : paired (sample_script true i rs ws) (sample_script false j rs' ws').
Proof. constructor; reflexivity. Qed.


Definition sample_body : bytes :=
  match @encrypt_gcm toy_crates (key_cipher (repeat 3 16)) [1; 2; 3] (seq_nonce [5; 6; 7; 8; 0; 0; 0; 0; 0; 0; 0; 0] 0)
          (gcm_aad 0 (head3 TLCP_RECORD_TYPE_APP_DATA) 3) with
  | Ok (ct, tag) => be_bytes 8 0 ++ ct ++ tag
  | _ => []
  end.

Lemma poll_interrupted_desync_witness :
  let w := sample_script true [] [] [3; 0] in
  let r := sample_script false ([0x17; 0x01; 0x01; 0x00; 27] ++ sample_body) [2] [] in
  (exists w' w'', @stream_poll_write _ toy_crates toy_sm3 _ (repeat 0 16) [1; 2; 3] w = (w', Err Pending) /\
     @stream_poll_write _ toy_crates toy_sm3 _ (repeat 0 16) [1; 2; 3] w' = (w'', Ok 3)) /\
  (exists r' m, @stream_poll_read _ toy_crates toy_sm3 _ 9 r = (r', Err (Failed m))).
Proof.
  intros w r. destruct (@poll_interrupted_desync toy_crates toy_laws toy_sm3 toy_sm3_laws w r
    (repeat 0 16) (repeat 0 16) [1; 2; 3] sample_body [] 9) as (Wr & _ & Rd);
    [apply sample_script_inv|apply sample_script_inv|now split|reflexivity|reflexivity|reflexivity|reflexivity|reflexivity
    |discriminate|vm_compute; reflexivity|vm_compute; discriminate|vm_compute; reflexivity| |].
  { change (@gcm_protects toy_crates (repeat 3 16) [5; 6; 7; 8; 0; 0; 0; 0; 0; 0; 0; 0] 0 0x17 sample_body [1; 2; 3]).
    exists (be_bytes 8 0), (firstn 3 (skipn 8 sample_body)), (skipn 11 sample_body). repeat split; vm_compute; reflexivity. }
  split.
  - set (w' := fst (@stream_poll_write _ toy_crates toy_sm3 _ (repeat 0 16) [1; 2; 3] w)).
    assert (E : @stream_poll_write _ toy_crates toy_sm3 _ (repeat 0 16) [1; 2; 3] w = (w', Err Pending)) by (vm_compute; reflexivity).
    destruct (Wr w' E) as (b1 & b2 & k & w'' & _ & _ & _ & _ & E2 & _); [vm_compute; reflexivity|]. exists w', w''. now split.
  - apply (Rd 2 []); [reflexivity|split; discriminate|vm_compute; reflexivity].
Defined.
