(* ===== verification/TlcpPeer.v ===== *)
(** What the two ends of the TLCP handshake share (gm-tlcp/src/tlcp/mod.rs): the state
    a handshake runs in, reading a message of an expected type, the validation of a
    peer's certificate against trust anchors and revocation lists, uncompressed
    points, and the deadline.

    X.509 and SM2 are parameters of the model, as in the files before. *)

From Stdlib Require Import String Bool ZArith Lia List.
From S2P Require Import Prelude Bytes Effects Sm4 Sm3 Sm9Key Sm2 X509 X509Chain X509Crl Tlcp TlcpKeys TlcpMessages TlcpHandshake TlcpAuth TlcpRecord.
Import ListNotations.
Open Scope Z_scope.

(** ** State *)

(** The transport, the handshake context, the audit log of certificate verification
    and what the generator behind SM9 will yield. *)
Record Peer (T HS : Type) : Type := { p_io : T; p_hs : HS; p_log : audit_log; p_rng : Rng }.
Arguments p_io {T HS}. Arguments p_hs {T HS}. Arguments p_log {T HS}. Arguments p_rng {T HS}.

Section Peer.
Context {T HS : Type}.
Local Abbreviation peer := (Peer T HS).

Definition on_io {A : Type} (f : string -> TlcpError) (m : M T string A) : M peer TlcpError A := fun s =>
  let '(t, o) := m (p_io s) in ({| p_io := t; p_hs := p_hs s; p_log := p_log s; p_rng := p_rng s |}, map_err f o).
Definition on_hs {A : Type} (m : M HS TlcpError A) : M peer TlcpError A := fun s =>
  let '(h, o) := m (p_hs s) in ({| p_io := p_io s; p_hs := h; p_log := p_log s; p_rng := p_rng s |}, o).
Definition on_log {A : Type} (m : M audit_log TlcpError A) : M peer TlcpError A := fun s =>
  let '(l, o) := m (p_log s) in ({| p_io := p_io s; p_hs := p_hs s; p_log := l; p_rng := p_rng s |}, o).
Definition on_rng {A : Type} (what : string) (m : M Rng Sm9Error A) : M peer TlcpError A := fun s =>
  let '(r, o) := m (p_rng s) in
  ({| p_io := p_io s; p_hs := p_hs s; p_log := p_log s; p_rng := r |}, map_err (fun e => Sm2KeyError (what +++ display_sm9 e)%string) o).

Definition sm9_failure {A : Type} (what : string) (o : outcome Sm9Error A) : outcome TlcpError A :=
  map_err (fun e => Sm2KeyError (what +++ display_sm9 e)%string) o.

(** [.ok()] *)
Definition attempt {A : Type} (m : M peer TlcpError A) : M peer TlcpError (option A) := fun s =>
  match m s with
  | (s', Ok a) => (s', Ok (Some a))
  | (s', Err _) => (s', Ok None)
  | (s', Panic) => (s', Panic)
  end.

(** ** Messages *)

Context {TT : Transport T}.

Definition parse_io (what : string) (e : string) : TlcpError := HandshakeMessageParse (what +++ e)%string.

Definition send (f : string -> TlcpError) (msg : bytes) : M peer TlcpError unit := on_io f (write_handshake_record msg).

(** A record whose message is of the expected type; its body and the whole payload.
    The type of the record is not looked at. *)
Definition receive_expected (f : string -> TlcpError) (expected : string) (t : HandshakeType) : M peer TlcpError (bytes * bytes) :=
  r <-- on_io f read_plaintext_record ;;;
  m <-- lift (parse_handshake_message (snd r)) ;;;
  let '(t', body, _) := m in
  failIf (negb (handshake_eqb t' t)) (HandshakeFailed ("Expected " +++ expected +++ ", got " +++ debug_handshake t')%string) ;;;
  ret (body, snd r).
End Peer.

(** ** The encrypted phase *)

(** The record [write_handshake_record] puts on the transport. *)
Definition handshake_record (msg : bytes) : bytes := [TLCP_RECORD_TYPE_HANDSHAKE] ++ TLCP_VERSION_1_0 ++ be_bytes 2 (as_u16 (len msg)) ++ msg.

Definition ccs_record : bytes := [TLCP_RECORD_TYPE_CCS] ++ TLCP_VERSION_1_0 ++ [0; 1; 1].

(** The stream and the handshake context; the transport is now inside the stream. *)
Definition Ends (T HS : Type) : Type := TlcpStream T * HS.

Section Ends.
Context {T HS : Type}.

Definition parse_tlcp (what : string) (e : TlcpError) : TlcpError := HandshakeMessageParse (what +++ display_tlcp e)%string.

Definition on_stream {E A : Type} (f : E -> TlcpError) (m : M (TlcpStream T) E A) : M (Ends T HS) TlcpError A := fun s =>
  let '(st, o) := m (fst s) in ((st, snd s), map_err f o).
Definition on_context {A : Type} (m : M HS TlcpError A) : M (Ends T HS) TlcpError A := fun s =>
  let '(h, o) := m (snd s) in ((fst s, h), o).

(** The rest of a handshake, with the transport moved into a stream. *)
Definition over_stream {A : Type} (stream : TlcpStream T) (m : M (Ends T HS) TlcpError A) : M (Peer T HS) TlcpError A := fun s =>
  let '((st, h), o) := m (stream, p_hs s) in ({| p_io := inner st; p_hs := h; p_log := p_log s; p_rng := p_rng s |}, o).
End Ends.

(** ** A peer's certificate *)

Definition handshake_failure {A : Type} (what : string) (o : outcome CryptoError A) : outcome TlcpError A :=
  map_err (fun e => HandshakeFailed (what +++ display_crypto e)%string) o.

Definition empty_anchors (builder : string) : TlcpError :=
  HandshakeFailed (builder +++ "() was called with an empty anchor list; refusing to silently disable validation. Pass at least one CA or omit the call to use the legacy 'no PKI' path.")%string.

(** The section sign of the error texts, its two UTF-8 bytes. *)
Definition section_sign : string := String (Ascii.ascii_of_nat 194) (String (Ascii.ascii_of_nat 167) EmptyString).

Section Leaf.
Context {C : Sm2Crate} {X : X509Parser}.

Fixpoint owned_certs (cs : list bytes) : outcome TlcpError (list OwnedCert) :=
  match cs with
  | [] => Ok []
  | c :: cs => o <- handshake_failure "" (from_pem_or_der c) ;; os <- owned_certs cs ;; Ok (o :: os)
  end.

(** Coverage and revocation, over the chain that was verified and the anchors. *)
Definition check_leaf_crls (what : string) (chain anchors crls : list bytes) (strict : bool) (now : Z) : outcome TlcpError unit :=
  if strict || negb (len crls =? 0) then
    chain_for_crl <- owned_certs (chain ++ anchors) ;;
    _ <- (if strict then handshake_failure (what +++ " strict-CRL coverage failed: ") (ensure_crl_coverage chain_for_crl crls) else Ok tt) ;;
    if negb (len crls =? 0) then handshake_failure (what +++ " revocation check failed: ") (check_revocations chain_for_crl crls now) else Ok tt
  else Ok tt.

Definition policy_of (p : option DistidPolicy) : DistidPolicy := match p with Some p => p | None => Distid_Strict end.

(** One leaf, through the certificates the peer sent, to the anchors. *)
Definition check_leaf (what : string) (leaf : bytes) (material anchors crls : list bytes) (now : Z) (domain : option string) (role : CertRole)
    (policy : option DistidPolicy) (strict : bool) : M audit_log TlcpError unit :=
  let chain := leaf :: material in
  mapM_err (fun e => HandshakeFailed (what +++ " failed trust-anchor validation: " +++ display_crypto e)%string)
    (verify_against_anchors_with_distid_policy chain anchors now domain (Some role) (policy_of policy)) ;;;
  lift (check_leaf_crls what chain anchors crls strict now).
End Leaf.

(** ** Points, identifiers and the deadline *)

(** [0x04 || x || y], its coordinates. *)
Definition sec1_xy (what : string) (sec1 : bytes) : outcome TlcpError bytes :=
  guard (negb (len sec1 =? 65) || negb (nth 0 sec1 0 =? 0x04))
    (HandshakeFailed (what +++ " SEC1 must be uncompressed (65 bytes 0x04||X||Y), got " +++ dec (len sec1) +++ " bytes")%string) (
  slice sec1 1 65).

Definition distid_bytes (d : option string) : bytes := bytes_of (match d with Some d => d | None => "1234567812345678"%string end).

(** The deadline in nanoseconds, none if it is zero; [elapsed] if it passed before [inner] was done. *)
Definition with_handshake_timeout {S A : Type} (timeout : Z) (role : string) (elapsed : bool) (inner : M S TlcpError A) : M S TlcpError A :=
  if timeout =? 0 then inner
  else if elapsed then fail (HandshakeFailed ("handshake timeout after " +++ dec (timeout / 10 ^ 9) +++ "s (" +++ role +++ ")")%string)
  else inner.

(** ** What a step that succeeds leaves in place *)

(** Every successful run relates its two states by [R]. *)
Definition preserves {S E A : Type} (R : S -> S -> Prop) (m : M S E A) : Prop := forall s s' a, m s = (s', Ok a) -> R s s'.

Section Preserves.
Context {S E : Type} (R : S -> S -> Prop).
Context (R_refl : forall s, R s s) (R_trans : forall s1 s2 s3, R s1 s2 -> R s2 s3 -> R s1 s3).

Lemma preserves_ret {A} (a : A) : preserves R (ret (E := E) a).
Proof. now intros s s' b [= <- _]. Qed.
Lemma preserves_lift {A} (o : outcome E A) : preserves R (lift o).
Proof. now intros s s' b [= <- _]. Qed.
Lemma preserves_gets {A} (f : S -> A) : preserves R (gets (E := E) f).
Proof. now intros s s' b [= <- _]. Qed.
Lemma preserves_fail {A} (e : E) : preserves R (fail (A := A) e).
Proof. now intros s s' b [=]. Qed.
Lemma preserves_failIf b (e : E) : preserves R (failIf b e).
Proof. destruct b; [apply preserves_fail|apply preserves_ret]. Qed.
Lemma preserves_bind {A B} (m : M S E A) (k : A -> M S E B) : preserves R m -> (forall a, preserves R (k a)) -> preserves R (bindM m k).
Proof. intros Hm Hk s s' b Y. apply bindM_ok_iff in Y as (s1 & a & X & Y). apply (R_trans _ s1); [now apply (Hm _ _ a)|now apply (Hk a _ _ b)]. Qed.
End Preserves.

(** The transcript of a handshake, read by [tr], only grows, and what [fx] reads stays. *)
Definition grows {T HS F : Type} (tr : HS -> bytes) (fx : HS -> F) (s s' : Peer T HS) : Prop :=
  (exists t, tr (p_hs s') = tr (p_hs s) ++ t) /\ fx (p_hs s') = fx (p_hs s).

Section Grows.
Context {T HS F : Type} {TT : Transport T} (tr : HS -> bytes) (fx : HS -> F).
Local Abbreviation peer := (Peer T HS).

Lemma grows_refl (s : peer) : grows tr fx s s.
Proof. split; [|reflexivity]. exists []. now rewrite app_nil_r. Qed.
Lemma grows_trans (s1 s2 s3 : peer) : grows tr fx s1 s2 -> grows tr fx s2 s3 -> grows tr fx s1 s3.
Proof. intros [[t E] X] [[u U] Y]. split; [|congruence]. exists (t ++ u). now rewrite U, E, app_assoc. Qed.

Lemma on_io_hs {A} f (m : M T string A) (s s' : peer) a : on_io f m s = (s', Ok a) -> p_hs s' = p_hs s.
Proof. unfold on_io. destruct (m (p_io s)) as [t [b| |]]; now intros [= <- _]. Qed.
Lemma on_log_hs {A} (m : M audit_log TlcpError A) (s s' : peer) a : on_log m s = (s', Ok a) ->
  p_hs s' = p_hs s /\ exists l l', m l = (l', Ok a).
Proof. unfold on_log. destruct (m (p_log s)) as [l' [b| |]] eqn:E; [|easy..]. intros [= <- <-]. split; [reflexivity|]. now exists (p_log s), l'. Qed.
Lemma on_rng_hs {A} w (m : M Rng Sm9Error A) (s s' : peer) a : on_rng w m s = (s', Ok a) -> p_hs s' = p_hs s.
Proof. unfold on_rng. destruct (m (p_rng s)) as [t [b| |]]; now intros [= <- _]. Qed.
Lemma on_hs_ok {A} (m : M HS TlcpError A) (s s' : peer) a : on_hs m s = (s', Ok a) -> m (p_hs s) = (p_hs s', Ok a).
Proof. unfold on_hs. destruct (m (p_hs s)) as [h o]. now intros [= <- ->]. Qed.
Lemma attempt_ok {A} (m : M peer TlcpError A) (s s' : peer) o : attempt m s = (s', Ok o) ->
  match o with Some a => m s = (s', Ok a) | None => exists e, m s = (s', Err e) end.
Proof. unfold attempt. destruct (m s) as [s1 [a|e|]]; [intros [= -> <-]; reflexivity|intros [= -> <-]; now exists e|easy]. Qed.

Lemma grows_same (s s' : peer) : p_hs s' = p_hs s -> grows tr fx s s'.
Proof. intros E. split; [|now rewrite E]. exists []. now rewrite E, app_nil_r. Qed.
Lemma grows_io {A} f (m : M T string A) : preserves (grows tr fx) (on_io (HS := HS) f m).
Proof. intros s s' a Y. apply grows_same. now apply on_io_hs in Y. Qed.
Lemma grows_send f msg : preserves (grows tr fx) (send (HS := HS) f msg).
Proof. apply grows_io. Qed.
Lemma grows_log {A} (m : M audit_log TlcpError A) : preserves (grows tr fx) (on_log (T := T) (HS := HS) m).
Proof. intros s s' a Y. apply grows_same. now apply on_log_hs in Y. Qed.
Lemma grows_rng {A} w (m : M Rng Sm9Error A) : preserves (grows tr fx) (on_rng (T := T) (HS := HS) w m).
Proof. intros s s' a Y. apply grows_same. now apply on_rng_hs in Y. Qed.
Lemma grows_hs {A} (m : M HS TlcpError A) : preserves (fun h h' => (exists t, tr h' = tr h ++ t) /\ fx h' = fx h) m -> preserves (grows tr fx) (on_hs (T := T) m).
Proof. intros P s s' a Y. apply on_hs_ok in Y. now apply P in Y. Qed.

Lemma receive_expected_ok f what t (s s' : peer) r : receive_expected f what t s = (s', Ok r) ->
  p_hs s' = p_hs s /\ exists rest, parse_handshake_message (snd r) = Ok (t, fst r, rest).
Proof.
  unfold receive_expected. intros Y. apply bindM_ok_iff in Y as (s1 & [ct payload] & I & Y). apply on_io_hs in I. cbn [snd] in Y.
  apply bind_lift_iff in Y as ([[t' body] rest] & P & Y). apply bind_failIf_iff in Y as [N Y]. injection Y as <- <-. split; [exact I|].
  exists rest. cbn [fst snd]. apply negb_false_iff in N. destruct t', t; try discriminate N; exact P.
Qed.
Lemma grows_receive f what t : preserves (grows tr fx) (receive_expected (T := T) (HS := HS) f what t).
Proof. intros s s' a Y. apply grows_same. now apply receive_expected_ok in Y. Qed.
End Grows.

(** What the operations of a stream never change: keys, nonces, suite, session and
    the certificates of the peer. *)
Definition same_stream {T : Type} (s s' : TlcpStream T) : Prop :=
  exists t w r b p ce cd cl, s' = with_fields s t w r b p ce cd cl.

Section SameStream.
Context {T : Type} {TT : Transport T} {C : Sm4Crates} {H : Sm3Crate}.
Local Abbreviation stream := (TlcpStream T).

Lemma same_stream_refl (s : stream) : same_stream s s.
Proof. destruct s. repeat eexists. Qed.
Lemma same_stream_trans (s1 s2 s3 : stream) : same_stream s1 s2 -> same_stream s2 s3 -> same_stream s1 s3.
Proof. intros (t & w & r & b & p & ce & cd & cl & ->) (t' & w' & r' & b' & p' & ce' & cd' & cl' & ->). repeat eexists. Qed.

Lemma same_on_inner {A} (m : M T string A) : preserves same_stream (on_inner m).
Proof. intros s s' a. unfold on_inner. destruct (m (inner s)) as [t o]. intros [= <- _]. repeat eexists. Qed.
Lemma same_cipher_enc : preserves same_stream (get_cipher_enc (T := T)).
Proof.
  intros s s' a. unfold get_cipher_enc. destruct (cipher_enc s); [intros [= <- _]; apply same_stream_refl|].
  destruct (Sm4Cipher_new _); [|easy..]. intros [= <- _]. repeat eexists.
Qed.
Lemma same_cipher_dec : preserves same_stream (get_cipher_dec (T := T)).
Proof.
  intros s s' a. unfold get_cipher_dec. destruct (cipher_dec s); [intros [= <- _]; apply same_stream_refl|].
  destruct (Sm4Cipher_new _); [|easy..]. intros [= <- _]. repeat eexists.
Qed.
Lemma same_bump_write : preserves same_stream (bump_write_seq (T := T)).
Proof. intros s s' a. unfold bump_write_seq. destruct (_ =? _); [easy|]. intros [= <- _]. repeat eexists. Qed.
Lemma same_bump_read : preserves same_stream (bump_read_seq (T := T)).
Proof. intros s s' a. unfold bump_read_seq. destruct (_ =? _); [easy|]. intros [= <- _]. repeat eexists. Qed.
Lemma same_set_write_seq {E} n : preserves same_stream (modify (E := E) (set_write_seq (T := T) n)).
Proof. intros s s' a [= <- _]. repeat eexists. Qed.
Lemma preserves_mapM_err {S E F A} (R : S -> S -> Prop) (f : E -> F) (m : M S E A) : preserves R m -> preserves R (mapM_err f m).
Proof. intros P s s' a. unfold mapM_err. destruct (m s) as [s1 [b| |]] eqn:X; [|easy..]. intros [= <- _]. now apply P in X. Qed.
End SameStream.

Create HintDb steps.
#[export] Hint Resolve preserves_ret preserves_lift preserves_gets preserves_fail preserves_failIf preserves_mapM_err : steps.
#[export] Hint Resolve grows_refl grows_io grows_send grows_log grows_rng grows_receive : steps.
#[export] Hint Resolve same_stream_refl same_on_inner same_cipher_enc same_cipher_dec same_bump_write same_bump_read same_set_write_seq : steps.

(** Splits a sequence of steps into its steps. *)
Ltac by_steps := repeat (intros; first
  [ eassumption | solve [eauto 3 with steps] | apply preserves_bind; [first [apply grows_trans | apply same_stream_trans]|..] | apply preserves_mapM_err
  | match goal with |- preserves _ (match ?x with _ => _ end) => destruct x end ]).

Section StreamSteps.
Context {T : Type} {TT : Transport T} {C : Sm4Crates} {H : Sm3Crate}.

Lemma same_write iv t m : preserves same_stream (write_encrypted_record_with_type (T := T) iv t m).
Proof. unfold write_encrypted_record_with_type, write_gcm_with_type, gcm_seal, write_cbc_with_type, encrypt_cbc_record_with_type. by_steps. Qed.
Lemma same_read : preserves same_stream (read_application_data (T := T)).
Proof. unfold read_application_data, read_record_body, decrypt_gcm_record, decrypt_cbc_record, cbc_open_inner. by_steps. Qed.

(** The keys of a stream are those derived from the master secret and the randoms. *)
Definition same_keys (s s' : TlcpStream T) : Prop :=
  (write_key s', read_key s', write_mac_key s', read_mac_key s', write_nonce s', read_nonce s', cipher_suite s') =
  (write_key s, read_key s, write_mac_key s, read_mac_key s, write_nonce s, read_nonce s, cipher_suite s).

Definition keyed (master : option bytes) (client_random server_random : bytes) (suite : TlcpCipherSuite) (is_client : bool) (s : TlcpStream T) : Prop :=
  exists m km fresh, master = Some m /\ run (derive m client_random server_random suite) = Ok km /\
    stream_new (inner s) km suite is_client (session_id s) = Ok fresh /\ same_keys fresh s.

Lemma same_stream_keys (s s' : TlcpStream T) : same_stream s s' -> same_keys s s' /\ session_id s' = session_id s /\
  peer_client_certs_cache s' = peer_client_certs_cache s.
Proof. now intros (t & w & r & b & p & ce & cd & cl & ->). Qed.

Lemma keyed_same (s s' : TlcpStream T) master cr sr suite c : keyed master cr sr suite c s -> same_keys s s' -> session_id s' = session_id s ->
  keyed master cr sr suite c s'.
Proof.
  intros (m & km & fresh & Em & K & N & S) S' I. eexists m, km, _. split; [exact Em|]. split; [exact K|]. split; [reflexivity|].
  injection N as N. unfold same_keys in *. rewrite S', S, <- N. reflexivity.
Qed.
End StreamSteps.

(** *** A certificate that was accepted *)

Section Trust.
Context {C : Sm2Crate} {LC : Sm2Laws C} {X : X509Parser}.

Definition owned (d : bytes) : OwnedCert := {| der := d |}.

(** With lists or in strict mode: every list is authentic, fresh and names no
    certificate of the chain; in strict mode every issuer has one. *)
Definition cleared (chain anchors crls : list bytes) (strict : bool) (now : Z) : Prop :=
  strict || negb (len crls =? 0) = true -> exists certs, owned_certs (chain ++ anchors) = Ok certs /\
    (strict = true -> ensure_crl_coverage certs crls = Ok tt) /\ (crls <> [] -> Forall (clears certs now) crls).

(** A chain to an anchor by the strict rules, and no revocation. *)
Definition trusted_leaf (leaf : bytes) (material anchors crls : list bytes) (now : Z) (domain : option string) (role : CertRole) (strict : bool) : Prop :=
  len (leaf :: material) <= 10 /\ valid_from (map owned anchors) now domain (Some role) 0 (map owned (leaf :: material)) /\
  cleared (leaf :: material) anchors crls strict now.

Lemma check_leaf_crls_ok what chain anchors crls strict now : check_leaf_crls what chain anchors crls strict now = Ok tt ->
  cleared chain anchors crls strict now.
Proof.
  unfold check_leaf_crls, cleared. intros Y B. rewrite B in Y. apply bind_ok_iff in Y as (certs & O & Y). apply bind_unit_iff in Y as [V Y].
  exists certs. split; [exact O|]. split.
  - intros ->. now apply map_err_ok_iff in V.
  - intros N. destruct crls as [|c crls]; [easy|]. rewrite (proj2 (Z.eqb_neq _ 0)) in Y by (rewrite len_cons; pose proof (len_nonneg crls); lia).
    apply map_err_ok_iff in Y. now apply revocations_strict_iff.
Qed.

Lemma check_leaf_ok what leaf material anchors crls now domain role policy strict l l' :
  policy_of policy = Distid_Strict -> check_leaf what leaf material anchors crls now domain role policy strict l = (l', Ok tt) ->
  trusted_leaf leaf material anchors crls now domain role strict.
Proof.
  intros P Y. unfold check_leaf in Y. rewrite P in Y. apply bindM_ok_iff in Y as (l1 & [] & V & Y). injection Y as _ Y. apply check_leaf_crls_ok in Y.
  unfold mapM_err in V. destruct (verify_against_anchors_with_distid_policy _ _ _ _ _ _ _) as [l2 o] eqn:W. injection V as -> V.
  apply map_err_ok_iff in V as ->. unfold verify_against_anchors_with_distid_policy, verify_cert_chain_sm2_chain_with_distid_policy in W.
  apply bind_failIf_iff in W as [N W]. apply bind_failIf_iff in W as [D W]. apply Z.ltb_ge in D. unfold len in D. rewrite length_map in D. fold (len (leaf :: material)) in D.
  split; [exact D|]. split; [|exact Y]. apply (walk_iff (map owned anchors) now domain (Some role) (map owned (leaf :: material))) in W; [apply W|now destruct anchors|easy|lia|].
  unfold len. rewrite length_map. fold (len (leaf :: material)). change MAX_CERT_CHAIN_DEPTH with 10 in D. lia.
Qed.
End Trust.

(** *** The encrypted phase *)

Section EndsLemmas.
Context {T HS : Type}.

Lemma on_stream_ok {E A} (f : E -> TlcpError) (m : M (TlcpStream T) E A) (s s' : Ends T HS) a : on_stream f m s = (s', Ok a) ->
  snd s' = snd s /\ m (fst s) = (fst s', Ok a).
Proof. unfold on_stream. destruct (m (fst s)) as [st [b| |]]; [|easy..]. now intros [= <- ->]. Qed.
Lemma on_context_ok {A} (m : M HS TlcpError A) (s s' : Ends T HS) a : on_context m s = (s', Ok a) -> fst s' = fst s /\ m (snd s) = (snd s', Ok a).
Proof. unfold on_context. destruct (m (snd s)) as [h o]. now intros [= <- ->]. Qed.
Lemma over_stream_ok {A} (stream : TlcpStream T) (m : M (Ends T HS) TlcpError A) (s s' : Peer T HS) a : over_stream stream m s = (s', Ok a) ->
  exists st, m (stream, p_hs s) = ((st, p_hs s'), Ok a) /\ p_io s' = inner st.
Proof. unfold over_stream. destruct (m (stream, p_hs s)) as [[st h] o]. intros [= <- ->]. now exists st. Qed.

Lemma bind_stream_ok {E A B} (f : E -> TlcpError) (m : M (TlcpStream T) E A) (kk : A -> M (Ends T HS) TlcpError B) st h s' b :
  bindM (on_stream f m) kk (st, h) = (s', Ok b) -> exists st1 a, m st = (st1, Ok a) /\ kk a (st1, h) = (s', Ok b).
Proof. intros Y. apply bindM_ok_iff in Y as ([st1 h1] & a & W & Y). apply on_stream_ok in W as [E1 W]. cbn in E1, W. subst h1. now exists st1, a. Qed.
Lemma bind_context_ok {A B} (m : M HS TlcpError A) (kk : A -> M (Ends T HS) TlcpError B) st h s' b :
  bindM (on_context m) kk (st, h) = (s', Ok b) -> exists h1 a, m h = (h1, Ok a) /\ kk a (st, h1) = (s', Ok b).
Proof. intros Y. apply bindM_ok_iff in Y as ([st1 h1] & a & W & Y). apply on_context_ok in W as [E1 W]. cbn in E1, W. subst st1. now exists h1, a. Qed.
End EndsLemmas.
