(* ===== verification/TlcpAcceptor.v ===== *)
(** The TLCP server (gm-tlcp/src/tlcp/mod.rs, [TlcpAcceptor]): its configuration and
    the handshake [accept_with_certs] runs over a transport, one definition per step,
    for all five key exchange modes and with the feature tlcp-gmssl-compat ([compat])
    on or off.

    Parameters and randomness are as for the connector. *)

From Stdlib Require Import String Bool ZArith Lia List.
From S2P Require Import Prelude Bytes Effects Fp FieldRep Curve Jacobian G1 G2 Sm4 Sm3 Kdf Sm9Key Sm9Sign Sm9Encrypt Sm9Exchange Sm2 Sm2Kex X509 Sm2Pem X509Chain X509Crl X509Csr Tlcp TlcpKeys TlcpMessages TlcpKeyExchange TlcpSession TlcpHandshake TlcpAuth TlcpRecord TlcpChannel TlcpPoll TlcpPeer TlcpConnector.
Import ListNotations.
Open Scope Z_scope.

(** ** Configuration *)

(** The signer and the decryptor of RSA hold the private key. *)
Record TlcpAcceptor {C : Sm2Crate} {R : RsaCrate} : Type := {
  a_session_cache : TlcpSessionCache;
  a_sign_cert : option bytes;
  a_enc_cert : option bytes;
  a_sign_cert_chain : list bytes;
  a_enc_cert_chain : list bytes;
  a_sign_key : option Sm2KeyPair;
  a_enc_key : option Sm2KeyPair;
  a_server_enc_distid : option string;
  a_server_sign_distid : option string;
  a_client_enc_distid : option string;
  a_client_sign_distid : option string;
  a_sm9_sign_master : option SignMasterKey;
  a_sm9_enc_master : option EncMasterKey;
  a_sm9_server_id : option bytes;
  a_rsa_cert : option bytes;
  a_rsa_signer : option RsaPrivateKey;
  a_rsa_decryptor : option RsaPrivateKey;
  a_rsa_single_cert_mode : bool;
  a_client_ca_anchors : option (list bytes);
  a_client_crls : list bytes;
  a_strict_crl : bool;
  a_distid_policy : option DistidPolicy;
  a_handshake_timeout : Z
}.

Definition acceptor_new {C : Sm2Crate} {R : RsaCrate} (cache : TlcpSessionCache) : TlcpAcceptor :=
  {| a_session_cache := cache; a_sign_cert := None; a_enc_cert := None; a_sign_cert_chain := []; a_enc_cert_chain := []; a_sign_key := None;
     a_enc_key := None; a_server_enc_distid := None; a_server_sign_distid := None; a_client_enc_distid := None; a_client_sign_distid := None;
     a_sm9_sign_master := None; a_sm9_enc_master := None; a_sm9_server_id := None; a_rsa_cert := None; a_rsa_signer := None;
     a_rsa_decryptor := None; a_rsa_single_cert_mode := false; a_client_ca_anchors := None; a_client_crls := []; a_strict_crl := false;
     a_distid_policy := None; a_handshake_timeout := seconds 30 |}.

(** The builder methods, by their arguments. *)
Inductive AcceptorSetting {C : Sm2Crate} {R : RsaCrate} : Type :=
| accept_cache (cache : TlcpSessionCache)
| accept_dual_certs (sign_cert enc_cert : bytes) (sign_key enc_key : Sm2KeyPair)
| accept_sign_cert_chain (chain : list bytes)
| accept_enc_cert_chain (chain : list bytes)
| accept_server_sign_distid (id : string)
| accept_sm9_certs (kgc_master : KgcMasterKey) (server_id : bytes)
| accept_rsa_certs (rsa_keypair : RsaPrivateKey) (rsa_cert_der : bytes)
| accept_rsa_certs_single (rsa_keypair : RsaPrivateKey) (rsa_cert_der : bytes)
| accept_client_ca_chain (anchors : list bytes)
| accept_client_crls (crls : list bytes)
| accept_strict_crl (strict : bool)
| accept_distid_policy (policy : DistidPolicy)
| accept_timeout (timeout : Z)
| accept_server_enc_distid (id : string)
| accept_client_enc_distid (id : string)
| accept_client_sign_distid (id : string).

(** What each method assigns; the other fields are kept. *)
Definition configure_acceptor {C : Sm2Crate} {R : RsaCrate} (a : TlcpAcceptor) (o : AcceptorSetting) : TlcpAcceptor :=
  let rsa {A : Type} (f : RsaPrivateKey -> bytes -> A) (old : A) : A :=
    match o with accept_rsa_certs p c | accept_rsa_certs_single p c => f p c | _ => old end in
  {| a_session_cache := match o with accept_cache c => c | _ => a_session_cache a end;
     a_sign_cert := match o with accept_dual_certs s _ _ _ => Some s | _ => a_sign_cert a end;
     a_enc_cert := match o with accept_dual_certs _ e _ _ => Some e | _ => a_enc_cert a end;
     a_sign_cert_chain := match o with accept_sign_cert_chain c => c | _ => a_sign_cert_chain a end;
     a_enc_cert_chain := match o with accept_enc_cert_chain c => c | _ => a_enc_cert_chain a end;
     a_sign_key := match o with accept_dual_certs _ _ s _ => Some s | _ => a_sign_key a end;
     a_enc_key := match o with accept_dual_certs _ _ _ e => Some e | _ => a_enc_key a end;
     a_server_enc_distid := match o with accept_server_enc_distid d => Some d | _ => a_server_enc_distid a end;
     a_server_sign_distid := match o with accept_server_sign_distid d => Some d | _ => a_server_sign_distid a end;
     a_client_enc_distid := match o with accept_client_enc_distid d => Some d | _ => a_client_enc_distid a end;
     a_client_sign_distid := match o with accept_client_sign_distid d => Some d | _ => a_client_sign_distid a end;
     a_sm9_sign_master := match o with accept_sm9_certs m _ => Some (sign_master m) | _ => a_sm9_sign_master a end;
     a_sm9_enc_master := match o with accept_sm9_certs m _ => Some (enc_master m) | _ => a_sm9_enc_master a end;
     a_sm9_server_id := match o with accept_sm9_certs _ i => Some i | _ => a_sm9_server_id a end;
     a_rsa_cert := rsa (fun _ c => Some c) (a_rsa_cert a);
     a_rsa_signer := rsa (fun p _ => Some p) (a_rsa_signer a);
     a_rsa_decryptor := rsa (fun p _ => Some p) (a_rsa_decryptor a);
     a_rsa_single_cert_mode := match o with accept_rsa_certs_single _ _ => true | _ => a_rsa_single_cert_mode a end;
     a_client_ca_anchors := match o with accept_client_ca_chain c => Some c | _ => a_client_ca_anchors a end;
     a_client_crls := match o with accept_client_crls c => c | _ => a_client_crls a end;
     a_strict_crl := match o with accept_strict_crl b => b | _ => a_strict_crl a end;
     a_distid_policy := match o with accept_distid_policy p => Some p | _ => a_distid_policy a end;
     a_handshake_timeout := match o with accept_timeout t => t | _ => a_handshake_timeout a end |}.

(** ** The handshake *)

(** What the clock and the generator yield: the server random, a session identifier,
    the ephemeral key, the initialization vector of a CBC record, and what the
    simulated handshake of [accept_tlcp] draws. *)
Record ServerDraws {C : Sm2Crate} : Type := {
  sd_gmt : Z;
  sd_random : bytes;
  sd_session_id : bytes;
  sd_ephemeral : SecretKey;
  sd_iv : bytes;
  sd_legacy_gmt : Z;
  sd_legacy_random : bytes;
  sd_legacy_context : outcome TlcpError TlcpEcdheContext
}.

Section Acceptor.
Context {T : Type} {TT : Transport T} {C4 : Sm4Crates} {H : Sm3Crate} {C : Sm2Crate} {G : Sm2Group C} {X : X509Parser} {R : RsaCrate}.
Local Abbreviation server := (Peer T TlcpServerHandshake).
Variable compat : bool.
Variable a : TlcpAcceptor.

Definition s_transcribe (b : bytes) : M server TlcpError unit := on_hs (modify (append_transcript b)).

(** [a.or(b)] *)
Definition or_else {A : Type} (x y : option A) : option A := match x with Some _ => x | None => y end.

(** *** Hello and certificates *)

Definition step_config : outcome TlcpError (bytes * bytes) :=
  sign_cert <- ok_or (or_else (a_sign_cert a) (a_rsa_cert a)) (HandshakeFailed "sign cert not configured") ;;
  enc_cert <- ok_or (or_else (a_enc_cert a) (a_rsa_cert a)) (HandshakeFailed "enc cert not configured") ;;
  guard (match a_sign_key a, a_rsa_signer a with None, None => true | _, _ => false end)
    (HandshakeFailed "no sign key configured (need either with_dual_certs(...) or with_rsa_certs(...))") (Ok (sign_cert, enc_cert)).

Definition step_hello (d : ServerDraws) (now : Z) : M server TlcpError (TlcpClientHello * TlcpCipherSuite) :=
  m <-- receive_expected (parse_io "read ClientHello: ") "ClientHello" ClientHello ;;;
  client_hello <-- lift (client_hello_from_body (fst m)) ;;;
  on_hs (fun _ => (with_session_cache (sd_gmt d) (sd_random d) (a_session_cache a), Ok tt)) ;;;
  on_hs (fun s => process_client_hello now (sd_session_id d) s client_hello) ;;;
  s <-- gets p_hs ;;;
  suite <-- lift (ok_or (s_cipher_suite s) (HandshakeFailed "no cipher suite")) ;;;
  server_hello <-- lift (create_server_hello s) ;;;
  let sh_bytes := server_hello_to_bytes server_hello in
  send (parse_io "write ServerHello: ") sh_bytes ;;;
  s_transcribe sh_bytes ;;;
  ret (client_hello, suite).

Definition server_cert_pair (suite : TlcpCipherSuite) (sign_cert enc_cert : bytes) : TlcpCertPair :=
  match a_rsa_single_cert_mode a, mode_of suite with
  | true, Rsa => cert_pair_new_single sign_cert
  | _, _ => cert_pair_with_chains sign_cert enc_cert (a_sign_cert_chain a) (a_enc_cert_chain a)
  end.

Definition step_server_certificate (cert_pair : TlcpCertPair) : M server TlcpError unit :=
  let cert_msg := to_certificate_message cert_pair in
  send (parse_io "write Certificate: ") cert_msg ;;;
  s_transcribe cert_msg ;;;
  on_hs (modify (fun s => set_server_certs s cert_pair)).
(** *** ServerKeyExchange *)

Definition s_write_error (what : string) : string -> TlcpError := parse_io ("write " +++ what +++ ": ")%string.

(** The SM2 signer under the configured identifier. *)
Definition ske_signer (need : string) : outcome TlcpError SigningKey :=
  sign_kp <- ok_or (a_sign_key a) (HandshakeFailed ("SM2 sign key not configured (needed for " +++ need +++ ")")%string) ;;
  map_err (fun e => Sm2KeyError ("sign signer: " +++ display_crypto e)%string)
    (signer_new_with_distid sign_kp (match a_server_sign_distid a with Some i => i | None => GM_TLS_DEFAULT_ID end)).

(** The ephemeral key pair is generated with its message. *)
Definition ske_ecdhe (d : ServerDraws) (need : string) (client_random server_random : bytes) : outcome TlcpError bytes :=
  sign_signer <- ske_signer need ;;
  ske <- ske_generate (public_key_bytes_uncompressed (generate (sd_ephemeral d))) (sign sign_signer) client_random server_random ;;
  Ok (ske_to_bytes ske).

Definition ske_ecc (client_random server_random enc_cert : bytes) : outcome TlcpError bytes :=
  sign_signer <- ske_signer "static-ECC suites" ;;
  ske <- ske_generate_ecc sm2_signature_raw_to_der (sign sign_signer) client_random server_random enc_cert ;;
  Ok (ske_to_bytes ske).

Definition ske_ibc (client_random server_random : bytes) : M server TlcpError bytes :=
  master <-- lift (ok_or (a_sm9_sign_master a) (HandshakeFailed "SM9 IBC suite negotiated but TlcpAcceptor::with_sm9_certs(...) was not called")) ;;;
  server_id <-- lift (ok_or (a_sm9_server_id a) (HandshakeFailed "SM9 IBC suite negotiated but sm9_server_id is missing")) ;;;
  user_sign_key <-- lift (sm9_failure "SM9 IBC sign user key extract: " (sign_extract_key master server_id)) ;;;
  signature <-- on_rng "SM9 IBC SKE sign: " (sm9_sign (with_identity user_sign_key server_id) (client_random ++ server_random ++ server_id)) ;;;
  ret (ske_to_bytes (SkeIbc server_id (signature_to_bytes signature))).

Definition ske_rsa (client_random server_random ske_input_enc_cert : bytes) : outcome TlcpError bytes :=
  rsa_signer <- ok_or (a_rsa_signer a) (HandshakeFailed "RSA suite negotiated but TlcpAcceptor::with_rsa_certs(...) was not called") ;;
  ske <- ske_generate_rsa (fun m => map_err display_tlcp (RsaSigner_sign rsa_signer m)) client_random server_random ske_input_enc_cert ;;
  Ok (ske_to_bytes ske).

Definition send_ske (what : string) (ske_bytes : bytes) : M server TlcpError unit :=
  send (s_write_error what) ske_bytes ;;; s_transcribe ske_bytes.

(** The ephemeral key, if one was made. For IBSDH the message waits for the client's. *)
Definition step_server_ske (d : ServerDraws) (suite : TlcpCipherSuite) (cert_pair : TlcpCertPair) (client_random server_random enc_cert : bytes)
    : M server TlcpError (option SecretKey) :=
  match mode_of suite with
  | Ecdhe =>
      m <-- lift (ske_ecdhe d "Ecdhe/Ecc suites" client_random server_random) ;;;
      send_ske "ServerKeyExchange" m ;;; ret (Some (sd_ephemeral d))
  | Ecc =>
      if compat then
        m <-- lift (ske_ecdhe d "gmssl-compat Ecc" client_random server_random) ;;;
        send_ske "ServerKeyExchange" m ;;; ret (Some (sd_ephemeral d))
      else
        m <-- lift (ske_ecc client_random server_random enc_cert) ;;;
        send_ske "ServerKeyExchange" m ;;; ret None
  | Ibc => m <-- ske_ibc client_random server_random ;;; send_ske "ServerKeyExchange (IBC)" m ;;; ret None
  | Ibsdh =>
      failIf compat (HandshakeFailed
        "SM9 IBSDH suites (E015/E055) are not GmSSL-master-compatible; build without --features tlcp-gmssl-compat to use them.") ;;;
      ret None
  | Rsa =>
      m <-- lift (ske_rsa client_random server_random (TlcpMessages.enc_cert cert_pair)) ;;;
      send_ske "ServerKeyExchange (RSA)" m ;;; ret None
  end.

(** *** CertificateRequest, ServerHelloDone and the client's certificates *)

(** The suites whose server asks for client certificates. *)
Definition asks_certificates (suite : TlcpCipherSuite) : bool :=
  match mode_of suite with Ibc | Ibsdh | Rsa => false | Ecdhe | Ecc => true end.

Definition step_server_hello_end (suite : TlcpCipherSuite) : M server TlcpError unit :=
  (if negb compat && asks_certificates suite then
     cr_bytes <-- lift (certificate_request_to_bytes certificate_request_standard) ;;;
     send (s_write_error "CertificateRequest") cr_bytes ;;; s_transcribe cr_bytes
   else ret tt) ;;;
  send (s_write_error "ServerHelloDone") server_hello_done_to_bytes ;;;
  s_transcribe server_hello_done_to_bytes.

(** [while p + 3 <= cert_body.len()]; the fuel bounds the turns, each of which moves
    by three bytes or more. A truncated entry ends the list. *)
Fixpoint client_cert_entries (fuel : nat) (cert_body : bytes) (p : Z) : outcome TlcpError (list bytes) :=
  match fuel with
  | O => Panic
  | S fuel =>
      if p + 3 <=? len cert_body then
        l <- slice cert_body p (p + 3) ;;
        let p := p + 3 in
        let n := from_be l in
        if len cert_body <? p + n then Ok []
        else
          entry <- slice cert_body p (p + n) ;;
          rest <- client_cert_entries fuel cert_body (p + n) ;;
          Ok (entry :: rest)
      else Ok []
  end.

Definition client_certs_of (cert_body : bytes) : outcome TlcpError (list bytes) :=
  if 3 <=? len cert_body then client_cert_entries (S (List.length cert_body)) cert_body 3 else Ok [].

(** The leaves, entries 0 and 1, through the entries after them. *)
Fixpoint check_client_leaves (idx : nat) (leaves material anchors : list bytes) (now : Z) : M audit_log TlcpError unit :=
  match leaves with
  | [] => ret tt
  | leaf :: leaves =>
      check_leaf ("client cert chain entry " +++ dec (Z.of_nat idx))%string leaf material anchors (a_client_crls a) now None
        (match idx with O => TlcClient | _ => TlcEncClient end) (a_distid_policy a) (a_strict_crl a) ;;;
      check_client_leaves (S idx) leaves material anchors now
  end.

Definition check_client_certs (client_certs : list bytes) (now : Z) : M audit_log TlcpError unit :=
  match a_client_ca_anchors a with
  | None => ret tt
  | Some anchors =>
      failIf (len anchors =? 0) (empty_anchors "with_client_ca_chain") ;;;
      failIf (len client_certs =? 0) (HandshakeFailed
        "trust anchors are configured (with_client_ca_chain) but the client sent no certificate; refusing anonymous client when client authentication is required.") ;;;
      check_client_leaves 0 (firstn 2 client_certs) (skipn 2 client_certs) anchors now
  end.

Definition step_read_client_certificate (suite : TlcpCipherSuite) (now : Z) : M server TlcpError unit :=
  if negb compat && asks_certificates suite then
    m <-- receive_expected (parse_io "read Client Certificate: ") "Certificate (client)" Certificate ;;;
    s_transcribe (snd m) ;;;
    client_certs <-- lift (client_certs_of (fst m)) ;;;
    on_hs (modify (fun s => set_client_certs s client_certs)) ;;;
    on_log (check_client_certs client_certs now)
  else ret tt.

(** *** ClientKeyExchange and the pre-master secret *)

Definition step_read_cke (suite : TlcpCipherSuite) : M server TlcpError ClientKeyExchangeBody :=
  m <-- receive_expected (parse_io "read ClientKeyExchange: ") "ClientKeyExchange" ClientKeyExchange ;;;
  let in_mode mode := match mode_of suite, mode with Ecc, Ecc | Ibc, Ibc | Ibsdh, Ibsdh | Rsa, Rsa => true | _, _ => false end in
  cke <-- lift (cke_from_body compat (fst m) (in_mode Ecc) (in_mode Ibc) (in_mode Ibsdh) (in_mode Rsa)) ;;;
  s_transcribe (snd m) ;;;
  ret cke.

(** The second round of IBSDH: the deferred message and the agreed key. The client is
    taken to have the identity of the server. *)
Definition step_deferred_server_ske (suite : TlcpCipherSuite) (cke : ClientKeyExchangeBody) : M server TlcpError (option bytes) :=
  match mode_of suite with
  | Ibsdh =>
      if compat then ret None
      else
        ra_bytes <-- lift (ok_or (as_ibsdh_ra cke) (HandshakeFailed "SM9 IBSDH server: client CKE not in IBSDH R_A format")) ;;;
        master <-- lift (ok_or (a_sm9_enc_master a) (HandshakeFailed "SM9 IBSDH suite negotiated but TlcpAcceptor::with_sm9_certs(...) was not called")) ;;;
        server_id <-- lift (ok_or (a_sm9_server_id a) (HandshakeFailed "SM9 IBSDH suite negotiated but sm9_server_id is missing")) ;;;
        ra_g1 <-- lift (g1_point_from_uncompressed ra_bytes) ;;;
        de_b <-- lift (sm9_failure "SM9 IBSDH de_b extract: " (extract_key_exchange master server_id)) ;;;
        resp <-- on_rng "SM9 IBSDH responder: " (responder_process server_id server_id (eu_ppube de_b) de_b ra_g1 48 true) ;;;
        rb_wire <-- lift (g1_point_to_uncompressed (ro_r_b resp)) ;;;
        sb_wire <-- lift (ok_or (ro_s_b resp) (HandshakeFailed "SM9 IBSDH responder_process returned None S_B despite need_confirm=true")) ;;;
        let ske_bytes := ske_to_bytes (SkeIbsdh ra_bytes rb_wire sb_wire) in
        send (fun e => HandshakeFailed ("write ServerKeyExchange (IBSDH deferred): " +++ e)%string) ske_bytes ;;;
        s_transcribe ske_bytes ;;;
        ret (Some (ro_shared_key resp))
  | _ => ret None
  end.

Definition pms_ibc (cke : ClientKeyExchangeBody) : outcome TlcpError bytes :=
  ciphertext_bytes <- ok_or (as_ibc_ciphertext cke)
    (HandshakeFailed "SM9 IBC server PMS decrypt: client CKE not in IBCEncryptedPreMasterSecret format") ;;
  master <- ok_or (a_sm9_enc_master a) (HandshakeFailed "SM9 IBC suite negotiated but TlcpAcceptor::with_sm9_certs(...) was not called") ;;
  server_id <- ok_or (a_sm9_server_id a) (HandshakeFailed "SM9 IBC suite negotiated but sm9_server_id is missing") ;;
  ct <- sm9_failure "SM9 IBC ciphertext parse: " (ciphertext_from_bytes ciphertext_bytes) ;;
  user_key <- sm9_failure "SM9 user dec key extract: " (enc_extract_key master server_id) ;;
  pms_plaintext <- sm9_failure "SM9 IBC PMS decrypt: " (sm9_decrypt (Decryptor_new user_key) ct server_id) ;;
  guard (negb (len pms_plaintext =? 48))
    (HandshakeFailed ("SM9 IBC PMS decrypt: expected 48 bytes, got " +++ dec (len pms_plaintext))%string) (Ok pms_plaintext).

Definition pms_ibsdh (sk_b : option bytes) : outcome TlcpError bytes :=
  ok_or sk_b (HandshakeFailed "SM9 IBSDH server PMS: server_hs.sk_b missing -- deferred SKE emit did not run (internal state-machine bug)").

Definition pms_rsa (cke : ClientKeyExchangeBody) : outcome TlcpError bytes :=
  ciphertext <- ok_or (as_rsa_ciphertext cke) (HandshakeFailed "RSA server PMS decrypt: client CKE not in RSAEncryptedPreMasterSecret format") ;;
  rsa_decryptor <- ok_or (a_rsa_decryptor a)
    (HandshakeFailed "RSA suite negotiated but TlcpAcceptor::with_rsa_certs(...) was not called (need rsa_decryptor)") ;;
  pms_plaintext <- map_err (fun e => HandshakeFailed ("RSA decrypt RSAEncryptedPreMasterSecret: " +++ display_tlcp e)%string)
    (RsaDecryptor_decrypt rsa_decryptor ciphertext) ;;
  guard (negb (len pms_plaintext =? 48))
    (HandshakeFailed ("RSA server PMS decrypt: plaintext must be 48 bytes (2B version || 46B random), got " +++ dec (len pms_plaintext))%string)
    (Ok pms_plaintext).

(** [0x04 || x || y], its coordinates, with the texts of this end. *)
Definition point_coordinates (what : string) (sec1 : bytes) : outcome TlcpError bytes :=
  guard (negb (len sec1 =? 65) || negb (nth 0 sec1 0 =? 0x04))
    (HandshakeFailed (what +++ " must be uncompressed (65B 0x04||X||Y), got " +++ dec (len sec1) +++ " bytes")%string) (
  slice sec1 1 65).

Definition need_32 (what : string) (priv : bytes) : outcome TlcpError bytes :=
  guard (negb (len priv =? 32)) (HandshakeFailed (what +++ " must be 32 bytes, got " +++ dec (len priv))%string) (Ok priv).

Definition pms_ecdhe (ephemeral : SecretKey) (cke : ClientKeyExchangeBody) (client_certs : list bytes) : outcome TlcpError bytes :=
  peer <- ecdhe_public_key cke ;;
  peer_ephemeral_sec1 <- ok_or peer (HandshakeFailed "ECDHE ClientKeyExchange missing ECParameters envelope for sm2p256v1") ;;
  if compat then
    map_err (fun e => Sm2KeyError ("ECDHE shared secret: " +++ display_crypto e)%string)
      (Sm2.compute_shared_secret (nonzero_scalar ephemeral) peer_ephemeral_sec1)
  else
    server_enc_kp <- ok_or (a_enc_key a) (HandshakeFailed "spec-default server ECDHE PMS needs `with_dual_certs(..., enc_key)` configured") ;;
    server_enc_priv <- need_32 "server enc priv" (secret_bytes (private_key server_enc_kp)) ;;
    server_enc_xy <- point_coordinates "server enc pub" (public_key_bytes_uncompressed server_enc_kp) ;;
    let kp := generate ephemeral in
    server_ephemeral_xy <- point_coordinates "server ephemeral pub" (public_key_bytes_uncompressed kp) ;;
    server_ephemeral_priv <- need_32 "server ephemeral priv" (secret_bytes ephemeral) ;;
    peer_ephemeral_xy <- point_coordinates "client ephemeral pub" peer_ephemeral_sec1 ;;
    client_enc_cert_der <- ok_or (nth_error client_certs 1)
      (HandshakeFailed "tlcp-strict server ECDHE PMS needs the client to send BOTH a sign cert (chain index 0) and an enc cert (chain index 1) in reply to our CertificateRequest; configure TlcpConnector::with_client_certs(.., [sign_der, enc_der, ..], Some(enc_key_pem), ..).") ;;
    client_enc_pub_sec1 <- map_err HandshakeFailed (extract_sm2_pubkey_from_cert_der client_enc_cert_der) ;;
    client_enc_xy <- point_coordinates "client enc pub" client_enc_pub_sec1 ;;
    z_server <- cipher_failure "" (sm2_compute_z server_enc_xy (distid_bytes (a_server_enc_distid a))) ;;
    z_client <- cipher_failure "" (sm2_compute_z client_enc_xy (distid_bytes (a_client_enc_distid a))) ;;
    cipher_failure "" (compute_tlcp_ecdhe_pms server_enc_priv server_ephemeral_xy server_ephemeral_priv client_enc_xy peer_ephemeral_xy z_server z_client 48).

Definition pms_ecc (cke : ClientKeyExchangeBody) : outcome TlcpError bytes :=
  let what : string := "spec-default static-ECC server PMS decrypt"%string in
  guard compat (HandshakeFailed "server_ephemeral_kp missing for default-mode static-ECC server (this is a bug; please file an issue)") (
  server_enc_kp <- ok_or (a_enc_key a)
    (HandshakeFailed (what +++ " needs `with_dual_certs(..., enc_key)` configured (server-side encryption keypair)")%string) ;;
  ciphertext <- ok_or (as_ecc_ciphertext cke)
    (HandshakeFailed (what +++ ": client CKE not in ECCEncryptedPreMasterSecret format (was the negotiated suite actually static-ECC?)")%string) ;;
  local_enc_kp <- map_err (fun e => HandshakeFailed (what +++ ": server enc key reconstruction: " +++ display_crypto e)%string)
    (from_private_key (secret_bytes (private_key server_enc_kp))) ;;
  pms_plaintext <- map_err (fun e => HandshakeFailed ("SM2 decrypt ECCEncryptedPreMasterSecret: " +++ display_crypto e)%string)
    (decrypt local_enc_kp ciphertext) ;;
  guard (negb (len pms_plaintext =? 48))
    (HandshakeFailed (what +++ ": plaintext must be 48 bytes (2B version || 46B random), got " +++ dec (len pms_plaintext))%string)
    (Ok pms_plaintext)).

Definition server_pms (suite : TlcpCipherSuite) (ephemeral : option SecretKey) (cke : ClientKeyExchangeBody) (client_certs : list bytes)
    (sk_b : option bytes) : outcome TlcpError bytes :=
  match mode_of suite with
  | Ibc => pms_ibc cke
  | Ibsdh => pms_ibsdh sk_b
  | Rsa => pms_rsa cke
  | Ecdhe | Ecc =>
      match ephemeral with
      | Some kp => pms_ecdhe kp cke client_certs
      | None => pms_ecc cke
      end
  end.

(** *** CertificateVerify and ChangeCipherSpec *)

(** [{:02x?}] of bytes. *)
Fixpoint debug_octets (b : bytes) : string :=
  match b with
  | [] => ""%string
  | [x] => hex02l x
  | x :: b => (hex02l x +++ ", " +++ debug_octets b)%string
  end.

Definition check_ccs (ccs_type : Z) (ccs_payload : bytes) : outcome TlcpError unit :=
  guard (negb (ccs_type =? TLCP_RECORD_TYPE_CCS)) (HandshakeFailed ("Expected CCS (0x14), got 0x" +++ hex02l ccs_type)%string) (
  guard (negb (bytes_eqb ccs_payload [1]))
    (HandshakeFailed ("CCS payload must be 0x01, got " +++ dec (len ccs_payload) +++ " bytes: [" +++ debug_octets ccs_payload +++ "]")%string)
    (Ok tt)).

Definition step_read_ccs : M server TlcpError unit :=
  r <-- on_io (parse_io "read CCS: ") read_plaintext_record ;;;
  lift (check_ccs (fst r) (snd r)).

(** A record that does not begin like CertificateVerify is taken for ChangeCipherSpec,
    whatever its type. *)
Definition step_client_verify : M server TlcpError unit :=
  if compat then step_read_ccs
  else
    r <-- on_io (parse_io "read post-CKE record: ") read_plaintext_record ;;;
    let cv_probe_payload := snd r in
    if (0 <? len cv_probe_payload) && (nth 0 cv_probe_payload 0 =? handshake_code CertificateVerify) then
      on_hs (process_certificate_verify cv_probe_payload (a_client_sign_distid a)) ;;;
      step_read_ccs
    else lift (check_ccs TLCP_RECORD_TYPE_CCS cv_probe_payload).

(** *** Finished *)

(** The chain is moved out of the handshake context into the stream. *)
Definition open_server_stream (suite : TlcpCipherSuite) : M server TlcpError (TlcpStream T) :=
  s <-- gets p_hs ;;;
  master <-- lift (ok_or (s_master_secret s) (HandshakeFailed "no master secret")) ;;;
  client_random <-- lift (ok_or (s_client_random s) (HandshakeFailed "no client random")) ;;;
  key_material <-- lift (run (derive master client_random (s_server_random s) suite)) ;;;
  io <-- gets p_io ;;;
  stream <-- lift (stream_new io key_material suite false (s_session_id s)) ;;;
  on_hs (modify (fun s => set_client_certs s [])) ;;;
  ret (set_peer_client_certs_from_acceptor stream (s_client_certs s)).

(** [write_all] on the stream: one record of application data, when no poll of the
    transport stays pending. *)
Definition stream_write_all (iv msg : bytes) : M (TlcpStream T) string unit :=
  seq <-- gets write_seq ;;;
  failIf (seq =? u64_max) "Sequence overflow"%string ;;;
  modify (set_write_seq (seq + 1)) ;;;
  record_data <-- encrypt_record iv msg ;;;
  (fun s => let '(t, o) := write_all record_data (inner s) in (set_inner t s, o)).

(** The cache is shared with the handshake context. *)
Definition cache_put (now : Z) (resumed : option TlcpResumedSession) (id : bytes) (s : TlcpServerHandshake) : TlcpServerHandshake :=
  match resumed, s_session_cache s with
  | Some session, Some cache =>
      {| s_state := s_state s; s_cipher_suite := s_cipher_suite s; s_server_random := s_server_random s;
         s_client_random := s_client_random s; s_server_certs := s_server_certs s; s_client_certs := s_client_certs s;
         s_pre_master_secret := s_pre_master_secret s; s_master_secret := s_master_secret s; s_transcript := s_transcript s;
         s_session_id := s_session_id s; s_is_resumed := s_is_resumed s; s_resumed_session := s_resumed_session s;
         s_session_cache := Some (put now id session cache) |}
  | _, _ => s
  end.

Definition read_client_finished : M (Ends T TlcpServerHandshake) TlcpError unit :=
  finished_plaintext <-- on_stream (parse_tlcp "read client Finished: ") read_application_data ;;;
  m <-- lift (map_err (parse_tlcp "parse client Finished: ") (parse_handshake_message finished_plaintext)) ;;;
  let '(cf_type, cf_body, _) := m in
  failIf (negb (handshake_eqb cf_type Finished)) (HandshakeFailed ("Expected Finished, got " +++ debug_handshake cf_type)%string) ;;;
  client_finished <-- lift (finished_from_body cf_body) ;;;
  matches <-- on_context (fun s => (s, verify_client_finished s client_finished)) ;;;
  failIf (negb matches) (HandshakeFailed "client Finished verify_data mismatch (possible handshake tampering)") ;;;
  on_context (modify (append_transcript finished_plaintext)).

Definition write_ccs_finished (d : ServerDraws) : M (Ends T TlcpServerHandshake) TlcpError unit :=
  on_stream (fun e => match e with IoError m => parse_io "write CCS: " m | e => e end) (on_inner (write_all ccs_record)) ;;;
  on_stream id (on_inner flush) ;;;
  server_finished <-- on_context (fun s => (s, server_compute_server_finished s)) ;;;
  on_stream (parse_io "write server Finished: ") (stream_write_all (sd_iv d) (finished_to_bytes server_finished)) ;;;
  on_stream id (on_inner flush).

Definition server_finished_exchange (d : ServerDraws) (now : Z) : M (Ends T TlcpServerHandshake) TlcpError (TlcpStream T) :=
  read_client_finished ;;;
  write_ccs_finished d ;;;
  s <-- gets snd ;;;
  stream <-- gets fst ;;;
  let resumed := server_to_resumed_session now s in
  on_context (modify (cache_put now resumed (session_id stream))) ;;;
  ret (with_handshake stream resumed (peer_client_certs_cache stream) (peer_server_certs_cache stream)).

Definition accept_with_certs (d : ServerDraws) (now : Z) : M server TlcpError (TlcpStream T) :=
  certs <-- lift step_config ;;;
  let '(sign_cert, enc_cert) := certs in
  hello <-- step_hello d now ;;;
  let '(client_hello, suite) := hello in
  s <-- gets p_hs ;;;
  let cert_pair := server_cert_pair suite sign_cert enc_cert in
  step_server_certificate cert_pair ;;;
  kp <-- step_server_ske d suite cert_pair (ch_random client_hello) (s_server_random s) enc_cert ;;;
  step_server_hello_end suite ;;;
  step_read_client_certificate suite now ;;;
  cke <-- step_read_cke suite ;;;
  sk_b <-- step_deferred_server_ske suite cke ;;;
  s <-- gets p_hs ;;;
  pms <-- lift (server_pms suite kp cke (s_client_certs s) sk_b) ;;;
  on_hs (fun s => complete_key_exchange s pms) ;;;
  step_client_verify ;;;
  stream <-- open_server_stream suite ;;;
  over_stream stream (server_finished_exchange d now).

(** Without certificates the simulated handshake runs, which does no input or output. *)
Definition accept (d : ServerDraws) (now : Z) (elapsed : bool) : M server TlcpError (TlcpStream T) :=
  with_handshake_timeout (a_handshake_timeout a) "server" elapsed
    (match a_sign_cert a, a_sign_key a, a_rsa_cert a, a_rsa_signer a, a_rsa_decryptor a with
     | Some _, Some _, _, _, _ | _, _, Some _, Some _, Some _ => accept_with_certs d now
     | _, _, _, _, _ =>
         io <-- gets p_io ;;;
         lift (accept_tlcp now (sd_gmt d) (sd_legacy_gmt d) (sd_random d) (sd_legacy_random d) (sd_session_id d) io (a_session_cache a)
                 (sd_legacy_context d))
     end).

End Acceptor.

(** ** What a completed handshake has checked *)

Section AcceptorProofs.
Context {T : Type} {TT : Transport T} {C4 : Sm4Crates} {H : Sm3Crate} {C : Sm2Crate} {LC : Sm2Laws C} {G : Sm2Group C} {X : X509Parser} {R : RsaCrate}.
Local Abbreviation server := (Peer T TlcpServerHandshake).
Variable compat : bool.
Variable a : TlcpAcceptor.

(** What stays once the hellos are done, and with the client's certificates. *)
Definition s_randoms (s : TlcpServerHandshake) : option bytes * bytes := (s_client_random s, s_server_random s).
Definition s_peer (s : TlcpServerHandshake) : option bytes * bytes * list bytes := (s_randoms s, s_client_certs s).

Lemma s_transcribe_ok b (s s' : server) x : s_transcribe b s = (s', Ok x) -> p_hs s' = append_transcript b (p_hs s).
Proof. intros Y. apply on_hs_ok in Y. now injection Y as Y _. Qed.
Lemma grows_s_transcribe b : preserves (grows s_transcript s_peer) (s_transcribe (T := T) b).
Proof. intros s s' x Y. apply s_transcribe_ok in Y. unfold grows. rewrite Y. split; [now exists b|reflexivity]. Qed.
Lemma grows_process_cv p o : preserves (grows s_transcript s_peer) (on_hs (T := T) (process_certificate_verify p o)).
Proof.
  apply grows_hs. intros s s' x Y. unfold process_certificate_verify in Y. apply bind_lift_iff in Y as ([[t b] r] & _ & Y). apply bind_failIf_iff in Y as [_ Y].
  apply bind_lift_iff in Y as (sd & _ & Y). apply bind_lift_iff in Y as (rs & _ & Y). rewrite bind_gets in Y. apply bind_lift_iff in Y as (c & _ & Y).
  apply bind_lift_iff in Y as (pk & _ & Y). apply bind_lift_iff in Y as (v & _ & Y). apply bind_lift_iff in Y as (u & _ & Y). injection Y as <- _.
  split; [now exists p|reflexivity].
Qed.
Lemma grows_set_server_certs p : preserves (grows s_transcript s_peer) (on_hs (T := T) (modify (fun s => set_server_certs s p))).
Proof. apply grows_hs. intros s s' x [= <- _]. split; [exists []; now rewrite app_nil_r|reflexivity]. Qed.
#[local] Hint Resolve grows_s_transcribe grows_process_cv grows_set_server_certs : steps.

Lemma grows_server_certificate p : preserves (grows s_transcript s_peer) (step_server_certificate (T := T) p).
Proof. unfold step_server_certificate. by_steps. Qed.
Lemma grows_server_ske d su p cr sr e : preserves (grows s_transcript s_peer) (step_server_ske (T := T) compat a d su p cr sr e).
Proof. unfold step_server_ske, ske_ibc, send_ske. by_steps. Qed.
Lemma grows_server_hello_end su : preserves (grows s_transcript s_peer) (step_server_hello_end (T := T) compat su).
Proof. unfold step_server_hello_end. by_steps. Qed.
Lemma grows_read_cke su : preserves (grows s_transcript s_peer) (step_read_cke (T := T) compat su).
Proof. unfold step_read_cke. by_steps. Qed.
Lemma grows_deferred_server_ske su cke : preserves (grows s_transcript s_peer) (step_deferred_server_ske (T := T) compat a su cke).
Proof. unfold step_deferred_server_ske. by_steps. Qed.
Lemma grows_client_verify : preserves (grows s_transcript s_peer) (step_client_verify (T := T) compat a).
Proof. unfold step_client_verify, step_read_ccs. by_steps. Qed.

Lemma complete_key_exchange_ok (s s' : TlcpServerHandshake) pms x : complete_key_exchange s pms = (s', Ok x) ->
  s_transcript s' = s_transcript s /\ s_peer s' = s_peer s.
Proof.
  unfold complete_key_exchange. destruct (negb _); [easy|]. destruct (bind _ _); [|easy..]. now intros [= <- _].
Qed.
Lemma process_client_hello_ok now sid (s s' : TlcpServerHandshake) hello x : process_client_hello now sid s hello = (s', Ok x) ->
  s_transcript s' = s_transcript s ++ client_hello_to_bytes hello /\ s_client_random s' = Some (ch_random hello) /\ s_server_random s' = s_server_random s /\
  s_client_certs s' = s_client_certs s.
Proof.
  unfold process_client_hello. destruct (negb _); [easy|]. destruct (negb _); [easy|]. destruct (lookup_session now s hello) as [[session|] cache].
  - destruct (from_id _); [|easy]. now intros [= <- _].
  - destruct (find_suite _); [|easy]. now intros [= <- _].
Qed.

Definition server_random_of (d : ServerDraws) : bytes := be_bytes 4 (as_u32 (sd_gmt d)) ++ sd_random d.

Lemma step_hello_ok d now (s s' : server) hello suite : step_hello a d now s = (s', Ok (hello, suite)) -> exists payload body rest sh,
  parse_handshake_message payload = Ok (ClientHello, body, rest) /\ client_hello_from_body body = Ok hello /\
  s_transcript (p_hs s') = client_hello_to_bytes hello ++ server_hello_to_bytes sh /\
  sh_random sh = server_random_of d /\ sh_cipher_suite sh = suite_id suite /\
  s_peer (p_hs s') = (Some (ch_random hello), server_random_of d, []).
Proof.
  unfold step_hello. intros Y. apply bindM_ok_iff in Y as (s1 & [body payload] & V & Y). apply receive_expected_ok in V as (_ & rest & P).
  apply bind_lift_iff in Y as (hello' & D & Y). apply bindM_ok_iff in Y as (s2 & [] & O & Y). apply on_hs_ok in O. injection O as O.
  apply bindM_ok_iff in Y as (s3 & [] & Q & Y). apply on_hs_ok, process_client_hello_ok in Q as (Qt & Qc & Qs & Qp). rewrite bind_gets in Y.
  apply bind_lift_iff in Y as (suite' & Su & Y). apply ok_or_ok_iff in Su. apply bind_lift_iff in Y as (sh & Sh & Y). unfold create_server_hello in Sh.
  apply guard_ok_iff in Sh as [_ Sh]. rewrite Su in Sh. injection Sh as Sh. apply bindM_ok_iff in Y as (s4 & [] & W & Y). apply on_io_hs in W.
  apply bindM_ok_iff in Y as (s5 & [] & Tr & Y). apply s_transcribe_ok in Tr. injection Y as <- <- <-. exists payload, body, rest, sh.
  split; [exact P|]. split; [exact D|]. rewrite Tr, W. unfold s_peer, s_randoms. cbn [append_transcript s_keyed s_transcript s_client_random s_server_random s_client_certs].
  rewrite Qt, Qc, Qs, Qp, <- O, <- Sh. cbn [sh_random sh_cipher_suite]. rewrite Qs, <- O. repeat split.
Qed.

(** *** The client's certificates *)

(** If anchors are configured: there is a certificate, and both leaves chain to an
    anchor and are not revoked. *)
Definition client_trusted (certs : list bytes) (now : Z) : Prop :=
  forall anchors, a_client_ca_anchors a = Some anchors -> anchors <> [] /\ certs <> [] /\
    (policy_of (a_distid_policy a) = Distid_Strict -> forall idx leaf, nth_error (firstn 2 certs) idx = Some leaf ->
     trusted_leaf leaf (skipn 2 certs) anchors (a_client_crls a) now None (match idx with O => TlcClient | _ => TlcEncClient end) (a_strict_crl a)).

Lemma check_client_leaves_ok leaves material anchors now i l l' x : policy_of (a_distid_policy a) = Distid_Strict ->
  check_client_leaves a i leaves material anchors now l = (l', Ok x) -> forall j leaf, nth_error leaves j = Some leaf ->
  trusted_leaf leaf material anchors (a_client_crls a) now None (match (i + j)%nat with O => TlcClient | _ => TlcEncClient end) (a_strict_crl a).
Proof.
  intros P. revert i l. induction leaves as [|c leaves IH]; intros i l Y j leaf N; [now destruct j|]. cbn [check_client_leaves] in Y.
  apply bindM_ok_iff in Y as (l1 & [] & L & Y). destruct j as [|j].
  - injection N as <-. rewrite Nat.add_0_r. now apply (check_leaf_ok _ _ _ _ _ _ _ _ _ _ _ _ P) in L.
  - replace (i + S j)%nat with (S i + j)%nat by lia. now apply (IH (S i) l1 Y).
Qed.

Lemma check_client_certs_ok certs now l l' x : check_client_certs a certs now l = (l', Ok x) -> client_trusted certs now.
Proof.
  unfold check_client_certs, client_trusted. intros Y anchors Ka. rewrite Ka in Y. apply bind_failIf_iff in Y as [Na Y]. apply bind_failIf_iff in Y as [Nc Y].
  split; [now apply len_nonzero|]. split; [now apply len_nonzero|]. intros P idx leaf N. exact (check_client_leaves_ok _ _ _ _ _ _ _ _ P Y idx leaf N).
Qed.

(** Certificates are read, and checked, exactly for the suites that ask for them. *)
Lemma step_read_client_certificate_ok suite now (s s' : server) x : step_read_client_certificate compat a suite now s = (s', Ok x) ->
  s_randoms (p_hs s') = s_randoms (p_hs s) /\
  if negb compat && asks_certificates suite then
    exists payload body rest certs, parse_handshake_message payload = Ok (Certificate, body, rest) /\ client_certs_of body = Ok certs /\
      s_transcript (p_hs s') = s_transcript (p_hs s) ++ payload /\ s_client_certs (p_hs s') = certs /\ client_trusted certs now
  else p_hs s' = p_hs s.
Proof.
  unfold step_read_client_certificate. destruct (negb compat && asks_certificates suite); intros Y; [|injection Y as <- _; now split].
  apply bindM_ok_iff in Y as (s1 & [body payload] & V & Y). apply receive_expected_ok in V as (E & rest & P).
  apply bindM_ok_iff in Y as (s2 & [] & Tr & Y). apply s_transcribe_ok in Tr. apply bind_lift_iff in Y as (certs & D & Y).
  apply bindM_ok_iff in Y as (s3 & [] & O & Y). apply on_hs_ok in O. injection O as O. apply on_log_hs in Y as [Eh (l & l' & Y)]. apply check_client_certs_ok in Y.
  rewrite Eh, <- O, Tr, E. split; [reflexivity|]. now exists payload, body, rest, certs.
Qed.
(** *** Finished *)

Lemma open_server_stream_ok suite (s s' : server) stream : open_server_stream suite s = (s', Ok stream) ->
  s_transcript (p_hs s') = s_transcript (p_hs s) /\ s_master_secret (p_hs s') = s_master_secret (p_hs s) /\
  peer_client_certs_cache stream = s_client_certs (p_hs s) /\
  exists cr, s_client_random (p_hs s) = Some cr /\ keyed (s_master_secret (p_hs s)) cr (s_server_random (p_hs s)) suite false stream.
Proof.
  unfold open_server_stream. intros Y. rewrite bind_gets in Y. apply bind_lift_iff in Y as (m & Em & Y). apply ok_or_ok_iff in Em.
  apply bind_lift_iff in Y as (cr & Ec & Y). apply ok_or_ok_iff in Ec. apply bind_lift_iff in Y as (km & K & Y). rewrite bind_gets in Y.
  apply bind_lift_iff in Y as (st & N & Y). injection N as <-. apply bindM_ok_iff in Y as (s1 & [] & O & Y). apply on_hs_ok in O. injection O as O. injection Y as <- <-.
  rewrite <- O. split; [reflexivity|]. split; [reflexivity|]. split; [reflexivity|]. exists cr. split; [exact Ec|].
  eexists m, km, _. split; [exact Em|]. split; [exact K|]. split; reflexivity.
Qed.

(** The client's Finished is the one expected over everything before it. *)
Definition client_finished_checked (s : TlcpServerHandshake) (before cf : bytes) : Prop :=
  exists body rest f expected, parse_handshake_message cf = Ok (Finished, body, rest) /\ finished_from_body body = Ok f /\
    finished_of (s_master_secret s) "client finished" before = Ok expected /\ verify_data f = verify_data expected.

Lemma read_client_finished_ok (st st' : TlcpStream T) h h' x : read_client_finished (st, h) = ((st', h'), Ok x) ->
  same_stream st st' /\ exists cf, h' = append_transcript cf h /\ client_finished_checked h (s_transcript h) cf.
Proof.
  unfold read_client_finished. intros Y. apply bind_stream_ok in Y as (st1 & cf & S1 & Y). apply same_read in S1.
  apply bind_lift_iff in Y as ([[t body] rest] & P & Y). apply map_err_ok_iff in P. apply bind_failIf_iff in Y as [N Y].
  apply bind_lift_iff in Y as (f & B & Y). apply bind_context_ok in Y as (h1 & ok & [= <- V] & Y). apply bind_failIf_iff in Y as [K Y].
  apply on_context_ok in Y as [Y1 Y2]. cbn [fst snd] in Y1, Y2. subst st'. injection Y2 as <- _. split; [exact S1|]. exists cf. split; [reflexivity|].
  apply negb_false_iff in N. apply negb_false_iff in K. subst ok. unfold verify_client_finished in V. apply bind_ok_iff in V as (expected & E & V).
  injection V as V. exists body, rest, f, expected. split; [now destruct t|]. split; [exact B|]. split; [exact E|]. now apply bytes_eqb_eq.
Qed.

Lemma same_stream_write_all iv m : preserves same_stream (stream_write_all (T := T) iv m).
Proof.
  unfold stream_write_all, encrypt_record, encrypt_gcm_record, encrypt_cbc_record, encrypt_cbc_record_with_type. by_steps.
  intros rd s s' x. destruct (write_all _ (inner s)) as [t o]. intros [= <- _]. repeat eexists.
Qed.

Lemma write_ccs_finished_ok d (st st' : TlcpStream T) h h' x : write_ccs_finished d (st, h) = ((st', h'), Ok x) -> same_stream st st' /\ h' = h.
Proof.
  unfold write_ccs_finished. intros Y. apply bind_stream_ok in Y as (st1 & [] & S1 & Y). apply same_on_inner in S1.
  apply bind_stream_ok in Y as (st2 & [] & S2 & Y). apply same_on_inner in S2. apply bind_context_ok in Y as (h1 & f & [= <- F] & Y).
  apply bind_stream_ok in Y as (st3 & [] & S3 & Y). apply same_stream_write_all in S3. apply on_stream_ok in Y as [E Y]. cbn [fst snd] in E, Y. apply same_on_inner in Y.
  split; [|exact E]. exact (same_stream_trans _ _ _ S1 (same_stream_trans _ _ _ S2 (same_stream_trans _ _ _ S3 Y))).
Qed.

Lemma cache_put_kept now r id h : s_transcript (cache_put now r id h) = s_transcript h /\ s_master_secret (cache_put now r id h) = s_master_secret h.
Proof. unfold cache_put. destruct r; [|now split]. destruct (s_session_cache h); now split. Qed.

Lemma server_finished_exchange_ok d now (stream st' out : TlcpStream T) h h' : server_finished_exchange d now (stream, h) = ((st', h'), Ok out) ->
  exists cf, s_transcript h' = s_transcript h ++ cf /\ s_master_secret h' = s_master_secret h /\ client_finished_checked h (s_transcript h) cf /\
    same_keys stream out /\ session_id out = session_id stream /\ peer_client_certs_cache out = peer_client_certs_cache stream.
Proof.
  unfold server_finished_exchange. intros Y. apply bindM_ok_iff in Y as ([st1 h1] & [] & V & Y). apply read_client_finished_ok in V as (S1 & cf & -> & F).
  apply bindM_ok_iff in Y as ([st2 h2] & [] & W & Y). apply write_ccs_finished_ok in W as [S2 ->]. rewrite !bind_gets in Y. cbn [fst snd] in Y.
  apply bind_context_ok in Y as (h3 & [] & [= <-] & Y). injection Y as _ <- <-. exists cf. destruct (cache_put_kept now (server_to_resumed_session now (append_transcript cf h)) (session_id st2) (append_transcript cf h)) as [-> ->].
  split; [reflexivity|]. split; [reflexivity|]. split; [exact F|]. destruct (same_stream_keys _ _ (same_stream_trans _ _ _ S1 S2)) as (K & I & P). now repeat split.
Qed.
(** *** The whole handshake *)

(** What the server knows of its client's certificates: for the suites that ask for
    them, those of a message of the transcript, checked; for the others none. *)
Definition client_certificates_known (suite : TlcpCipherSuite) (now : Z) (middle : bytes) (certs : list bytes) : Prop :=
  if negb compat && asks_certificates suite then
    exists t1 payload t2 body rest, middle = t1 ++ payload ++ t2 /\ parse_handshake_message payload = Ok (Certificate, body, rest) /\
      client_certs_of body = Ok certs /\ client_trusted certs now
  else certs = [].

(** *** CertificateVerify *)

Lemma check_ccs_iff t p : check_ccs t p = Ok tt <-> t = TLCP_RECORD_TYPE_CCS /\ p = [1].
Proof. unfold check_ccs. rewrite !guard_ok_iff, !negb_false_iff, Z.eqb_eq, bytes_eqb_eq. tauto. Qed.

Lemma step_read_ccs_iff (s s' : server) : step_read_ccs s = (s', Ok tt) <->
  on_io (parse_io "read CCS: ") read_plaintext_record s = (s', Ok (TLCP_RECORD_TYPE_CCS, [1])).
Proof.
  unfold step_read_ccs. rewrite bindM_ok_iff. split.
  - intros (s1 & [t p] & E & Y). injection Y as <- Y. apply check_ccs_iff in Y as [-> ->]. exact E.
  - intros E. eexists s', _. split; [exact E|reflexivity].
Qed.

(** C17. A client need not prove that it has the key of its certificate. After
    ClientKeyExchange the server goes on exactly when the next record is the one byte
    1, of whatever type, and then with its state unchanged, or is a CertificateVerify
    that holds and a ChangeCipherSpec follows. *)
Theorem certificate_verify_optional (s s' : server) :
  step_client_verify false a s = (s', Ok tt) <->
  exists s1 t payload, on_io (parse_io "read post-CKE record: ") read_plaintext_record s = (s1, Ok (t, payload)) /\
    (payload = [1] /\ s' = s1 \/
     hd_error payload = Some (handshake_code CertificateVerify) /\
     exists s2, on_hs (process_certificate_verify payload (a_client_sign_distid a)) s1 = (s2, Ok tt) /\
       on_io (parse_io "read CCS: ") read_plaintext_record s2 = (s', Ok (TLCP_RECORD_TYPE_CCS, [1]))).
Proof.
  unfold step_client_verify. rewrite bindM_ok_iff. split.
  - intros (s1 & [t p] & E & Y). exists s1, t, p. split; [exact E|]. cbn [snd] in Y. destruct p as [|b p].
    + injection Y as _ Y. now apply check_ccs_iff in Y as [_ Y].
    + rewrite (proj2 (Z.ltb_lt 0 _)) in Y by (rewrite len_cons; pose proof (len_nonneg p); lia). cbn [andb nth] in Y.
      destruct (Z.eqb_spec b (handshake_code CertificateVerify)) as [->|N].
      * right. split; [reflexivity|]. apply bindM_ok_iff in Y as (s2 & [] & V & Y). exists s2. split; [exact V|]. now apply step_read_ccs_iff.
      * left. injection Y as <- Y. now apply check_ccs_iff in Y as [_ ->].
  - intros (s1 & t & p & E & [[-> ->]|[Hd (s2 & V & Y)]]); exists s1, (t, p) || exists s1, (t, [1]); (split; [exact E|]); [reflexivity|].
    destruct p as [|b p]; [easy|]. injection Hd as ->. cbn [snd nth]. rewrite (proj2 (Z.ltb_lt 0 _)) by (rewrite len_cons; pose proof (len_nonneg p); lia).
    rewrite Z.eqb_refl. cbn [andb]. apply bindM_ok_iff. exists s2, tt. split; [exact V|]. now apply step_read_ccs_iff.
Qed.

(** Static ECC under tlcp-gmssl-compat cannot complete: the server makes an
    ephemeral key for it but reads the client's message as a ciphertext, from which no
    ephemeral key of the client can be taken. *)
Theorem compat_static_ecc_fails (d : ServerDraws) (now : Z) (s s1 s' : server) (ch : TlcpClientHello) (suite : TlcpCipherSuite) (stream : TlcpStream T) :
  step_hello a d now s = (s1, Ok (ch, suite)) -> mode_of suite = Ecc -> accept_with_certs true a d now s <> (s', Ok stream).
Proof.
  intros Hl M Y. unfold accept_with_certs in Y. apply bind_lift_iff in Y as ([sc ec] & _ & Y). apply bindM_ok_iff in Y as (s1' & [ch' suite'] & Hl' & Y).
  rewrite Hl in Hl'. injection Hl' as <- <- <-. rewrite bind_gets in Y. apply bindM_ok_iff in Y as (s2 & [] & _ & Y).
  apply bindM_ok_iff in Y as (s3 & kp & K & Y). apply bindM_ok_iff in Y as (s4 & [] & _ & Y). apply bindM_ok_iff in Y as (s5 & [] & _ & Y).
  apply bindM_ok_iff in Y as (s6 & cke & Ck & Y). apply bindM_ok_iff in Y as (s7 & sk & _ & Y). rewrite bind_gets in Y. apply bind_lift_iff in Y as (pms & Pm & Y).
  unfold step_server_ske in K. rewrite M in K. apply bind_lift_iff in K as (m & _ & K). apply bindM_ok_iff in K as (s8 & [] & _ & K). injection K as _ <-.
  unfold step_read_cke in Ck. rewrite M in Ck. apply bindM_ok_iff in Ck as (s9 & pl & _ & Ck). apply bind_lift_iff in Ck as (cke' & F & Ck).
  apply bindM_ok_iff in Ck as (s10 & [] & _ & Ck). injection Ck as _ <-. unfold cke_from_body in F. apply bind_ok_iff in F as (p & _ & F). injection F as <-.
  unfold server_pms in Pm. rewrite M in Pm. discriminate Pm.
Qed.
End AcceptorProofs.

(** ** Witnesses *)

#[local] Existing Instances toy_crates tagged_sm3 toy_rsa toy_pkcs8.

(** The server of the connector's witness, which asks for client certificates. *)
Definition sample_acceptor : TlcpAcceptor := fold_left configure_acceptor
  [accept_dual_certs (toy_der 3) (toy_der 3) (generate (C := toy_sm2) tt) (generate (C := toy_sm2) tt); accept_sign_cert_chain [toy_der 2];
   accept_client_ca_chain [toy_der 1]] (acceptor_new (with_capacity 10)).

Definition sample_server_draws : ServerDraws :=
  {| sd_gmt := 5; sd_random := repeat 8 28; sd_session_id := repeat 3 32; sd_ephemeral := tt; sd_iv := repeat 0 16; sd_legacy_gmt := 0;
     sd_legacy_random := []; sd_legacy_context := Panic |}.

Definition server_start (input : bytes) : Peer pipe TlcpServerHandshake :=
  {| p_io := {| incoming := input; outgoing := [] |}; p_hs := server_new 0 []; p_log := []; p_rng := [] |}.

(** What the client of the connector's witness sends. *)
Definition sample_client_flight : bytes :=
  outgoing (p_io (fst (connect_with_certs false (fun _ => ""%string) sample_connector sample_draws 50 (client_start sample_flight)))).

(** The two ends of the witnesses talk to each other: the server answers what the
    client sends with the flight the client was given. *)
Example samples_talk :
  let r := accept_with_certs false sample_acceptor sample_server_draws 50 (server_start sample_client_flight) in
  succeeded r = true /\ outgoing (p_io (fst r)) = sample_flight.
Proof. vm_compute. split; reflexivity. Qed.


(** The hello of a client that offers static ECC. *)
Definition sample_hello : bytes := handshake_record (hello_of sample_connector sample_draws).

Lemma compat_static_ecc_fails_witness : exists s1 ch suite,
  step_hello sample_acceptor sample_server_draws 50 (server_start sample_hello) = (s1, Ok (ch, suite)) /\
  forall s' stream, accept_with_certs true sample_acceptor sample_server_draws 50 (server_start sample_hello) <> (s', Ok stream).
Proof.
  assert (B : match step_hello sample_acceptor sample_server_draws 50 (server_start sample_hello) with
              | (_, Ok (_, suite)) => match mode_of suite with Ecc => true | _ => false end | _ => false end = true) by (vm_compute; reflexivity).
  destruct (step_hello _ _ _ _) as [s1 [[ch suite]|e|]] eqn:E; [|discriminate B..]. exists s1, ch, suite. split; [reflexivity|].
  intros s' stream. apply (compat_static_ecc_fails _ _ _ _ _ s' _ _ stream E). now destruct (mode_of suite).
Defined.

(** A client that presents the certificates of another and has no key for them. *)
Definition impostor (k : TlcpConnector) (d : Draws) (now : Z) : M (Peer pipe TlcpHandshake) TlcpError (TlcpStream pipe) :=
  step_client_hello k d ;;;
  server_hello <-- step_server_hello ;;;
  cert_pair <-- step_certificate ;;;
  suite <-- lift (negotiated_suite server_hello cert_pair) ;;;
  ske <-- step_read_ske suite ;;;
  transcribe (snd ske) ;;;
  cr <-- step_cert_request ;;;
  step_server_hello_done false (snd cr) ;;;
  send (parse_io "") (client_certificate_message k) ;;;
  transcribe (client_certificate_message k) ;;;
  r <-- step_client_key_exchange false k d suite cert_pair (fst ske) ;;;
  step_keys server_hello (fst r) None ;;;
  stream <-- open_stream server_hello ;;;
  over_stream stream (finished_exchange d now).

Definition without_key : TlcpConnector :=
  configure (connector_new (with_capacity 10)) (with_cipher_suites [TLS_ECC_SM4_GCM_SM3]).
Definition victim_certs : list bytes := [toy_der 3; toy_der 3; toy_der 2].
Definition impostor_connector : TlcpConnector := configure without_key (with_client_certs victim_certs "" None None).

(** The server that requires client certificates takes it for the other. *)
Example impostor_accepted :
  let flight := outgoing (p_io (fst (impostor impostor_connector sample_draws 50 (client_start sample_flight)))) in
  match snd (accept_with_certs false sample_acceptor sample_server_draws 50 (server_start flight)) with
  | Ok stream => peer_client_certs_cache stream = victim_certs
  | _ => False
  end.
Proof. vm_compute. reflexivity. Qed.
