(* ===== verification/TlcpInterop.v ===== *)
(** The TLCP client and the TLCP server against each other
    (gm-tlcp/src/tlcp/mod.rs, [connect_with_certs] and [accept_with_certs]): with an RSA
    suite and keys that belong together both handshakes complete, each on what the
    other sends, and the two streams are in step.

    The transports are in-memory pipes. The crates are any that satisfy their laws. *)

From Stdlib Require Import String Bool ZArith Lia List.
From S2P Require Import Prelude Bytes Effects Sm4 Sm3 Sm9Key Sm9Encrypt Sm2 Sm2Kex X509 Sm2Pem X509Chain Tlcp TlcpKeys TlcpMessages TlcpKeyExchange TlcpSession TlcpHandshake TlcpAuth TlcpRecord TlcpChannel TlcpPoll TlcpPeer TlcpConnector TlcpAcceptor.
Import ListNotations.
Open Scope Z_scope.

(** ** Messages on a pipe *)

Definition at_ {HS : Type} (i o : bytes) (h : HS) (l : audit_log) (g : Rng) : Peer pipe HS :=
  {| p_io := {| incoming := i; outgoing := o |}; p_hs := h; p_log := l; p_rng := g |}.

Section Pipe.
Context {HS : Type}.
Implicit Types (h : HS) (l : audit_log) (g : Rng).

Lemma send_at f msg i o h l g : send f msg (at_ i o h l g) = (at_ i (o ++ handshake_record msg) h l g, Ok tt).
Proof. reflexivity. Qed.

Lemma read_record_pipe ct msg rest o : 0 <= len msg <= 16384 ->
  read_plaintext_record {| incoming := [ct; 1; 1] ++ be_bytes 2 (as_u16 (len msg)) ++ msg ++ rest; outgoing := o |} =
  ({| incoming := rest; outgoing := o |}, Ok (ct, msg)).
Proof.
  intros B. assert (F : from_be (be_bytes 2 (as_u16 (len msg))) = len msg) by (unfold as_u16; rewrite Z.mod_small by lia; apply from_be_bytes_small; cbn; lia).
  rewrite be2 in *. set (hi := as_u8 _) in *. set (lo := as_u8 (Z.shiftr _ 0)) in *. clearbody hi lo.
  unfold read_plaintext_record. cbn [app]. unfold bindM at 1. cbn [read_exact pipe_transport incoming outgoing].
  rewrite (proj2 (Z.ltb_ge _ _)) by (rewrite !len_cons, len_app; pose proof (len_nonneg rest); lia).
  change (firstn (Z.to_nat 5) _) with [ct; 1; 1; hi; lo]. change (skipn (Z.to_nat 5) _) with (msg ++ rest).
  rewrite !bind_lift. change (index (E := string) [ct; 1; 1; hi; lo] 0) with (Ok (E := string) ct). cbv iota. rewrite bind_lift.
  change (index (E := string) [ct; 1; 1; hi; lo] 3) with (Ok (E := string) hi). cbv iota. rewrite bind_lift.
  change (index (E := string) [ct; 1; 1; hi; lo] 4) with (Ok (E := string) lo). cbv iota zeta. rewrite F, bind_failIf.
  unfold TLCP_MAX_RECORD_SIZE. rewrite (proj2 (Z.ltb_ge _ _)) by lia. unfold bindM. cbn [read_exact pipe_transport incoming outgoing].
  rewrite (proj2 (Z.ltb_ge _ _)) by (rewrite len_app; pose proof (len_nonneg rest); lia).
  rewrite to_nat_len, firstn_app, skipn_app, firstn_all, skipn_all, Nat.sub_diag, firstn_O, app_nil_r. reflexivity.
Qed.

Lemma read_at f msg rest o h l g : len msg <= 16384 ->
  on_io f read_plaintext_record (at_ (handshake_record msg ++ rest) o h l g) = (at_ rest o h l g, Ok (TLCP_RECORD_TYPE_HANDSHAKE, msg)).
Proof.
  intros B. unfold on_io, at_. cbn [p_io p_hs p_log p_rng]. unfold handshake_record. rewrite <- !app_assoc.
  change ([TLCP_RECORD_TYPE_HANDSHAKE] ++ TLCP_VERSION_1_0 ++ ?x) with ([TLCP_RECORD_TYPE_HANDSHAKE; 1; 1] ++ x).
  rewrite read_record_pipe by (pose proof (len_nonneg msg); lia). reflexivity.
Qed.

Lemma on_hs_at {A} (m : M HS TlcpError A) i o h h' l g r : m h = (h', r) -> on_hs m (at_ i o h l g) = (at_ i o h' l g, r).
Proof. intros E. unfold on_hs, at_. cbn [p_hs]. now rewrite E. Qed.

Lemma len_hs_message t body : len (hs_message t body) = 4 + len body.
Proof. unfold hs_message. rewrite len_cons, len_app, len_be_bytes. lia. Qed.

Lemma receive_at f w t body rest o h l g : len body <= 16380 ->
  receive_expected f w t (at_ (handshake_record (hs_message t body) ++ rest) o h l g) = (at_ rest o h l g, Ok (body, hs_message t body)).
Proof.
  intros B. unfold receive_expected. rewrite (bind_ok _ _ _ _ _ (read_at f (hs_message t body) rest o h l g ltac:(rewrite len_hs_message; lia))).
  cbn [snd]. rewrite bind_lift, <- (app_nil_r (hs_message t body)), parse_message by lia. rewrite bind_failIf. unfold handshake_eqb.
  rewrite Z.eqb_refl, app_nil_r. reflexivity.
Qed.
End Pipe.

(** ** Records do not depend on the transport *)

Section Uniform.
Context {C4 : Sm4Crates} {L4 : Sm4Laws C4} {H : Sm3Crate} {LH : Sm3Laws H}.
Local Abbreviation stream := (TlcpStream pipe).

(** [m] does not look at the transport. *)
Definition off_wire {E A : Type} (m : M stream E A) : Prop := forall s t, m (set_inner t s) = (set_inner t (fst (m s)), snd (m s)).

Lemma off_ret {E A} (x : A) : off_wire (E := E) (ret x).
Proof. now intros s t. Qed.
Lemma off_lift {E A} (o : outcome E A) : off_wire (lift o).
Proof. now intros s t. Qed.
Lemma off_bind {E A B} (m : M stream E A) (kk : A -> M stream E B) : off_wire m -> (forall x, off_wire (kk x)) -> off_wire (bindM m kk).
Proof. intros Hm Hk s t. unfold bindM. rewrite (Hm s t). destruct (m s) as [s1 [x| |]]; [apply Hk|reflexivity..]. Qed.
Lemma off_gets {E A} (f : stream -> A) : (forall s t, f (set_inner t s) = f s) -> off_wire (E := E) (gets f).
Proof. intros F s t. unfold gets. now rewrite F. Qed.
Lemma off_mapM {E F A} (f : E -> F) (m : M stream E A) : off_wire m -> off_wire (mapM_err f m).
Proof. intros Hm s t. unfold mapM_err. rewrite Hm. now destruct (m s). Qed.
Lemma off_cipher : off_wire (get_cipher_enc (T := pipe)).
Proof. intros s t. unfold get_cipher_enc. cbn [cipher_enc set_inner with_fields write_key]. destruct (cipher_enc s); [reflexivity|]. now destruct (Sm4Cipher_new _). Qed.
Lemma off_seal ct p : off_wire (gcm_seal (T := pipe) ct p).
Proof.
  unfold gcm_seal. repeat first [apply off_bind; intros | apply off_lift | apply off_ret | apply off_cipher | apply off_gets; reflexivity].
Qed.
Lemma off_cbc iv ct p : off_wire (encrypt_cbc_record_with_type (T := pipe) iv ct p).
Proof.
  unfold encrypt_cbc_record_with_type. repeat first [apply off_bind; intros | apply off_lift | apply off_ret | apply off_mapM, off_cipher | apply off_gets; reflexivity].
Qed.

Lemma write_wire iv ct p (s : stream) : exists w, forall i o, outgoing (inner (fst (write_encrypted_record_with_type iv ct p (set_inner {| incoming := i; outgoing := o |} s)))) = o ++ w.
Proof.
  set (s1 := set_write_seq (write_seq s + 1) s). unfold write_encrypted_record_with_type.
  assert (E : forall t, bump_write_seq (set_inner t s) = if write_seq s =? u64_max then (set_inner t s, Err SequenceOverflow) else (set_inner t s1, Ok tt)) by reflexivity.
  destruct (write_seq s =? u64_max).
  { exists []. intros i o. rewrite (bind_err _ _ _ _ _ (E _)). cbn. now rewrite app_nil_r. }
  destruct (gcm (cipher_suite s)) eqn:Gc.
  - exists (match snd (gcm_seal ct p s1) with Ok (h, q, e, tag) => h ++ q ++ e ++ tag | _ => [] end). intros i o.
    rewrite (bind_ok _ _ _ _ _ (E _)), bind_gets. change (cipher_suite (set_inner _ s1)) with (cipher_suite s). rewrite Gc. unfold write_gcm_with_type, bindM at 1. rewrite off_seal.
    destruct (snd (gcm_seal ct p s1)) as [[[[h q] e] tag]| |]; cbn; rewrite ?app_nil_r, <- ?app_assoc; reflexivity.
  - exists (match snd (encrypt_cbc_record_with_type iv ct p s1) with Ok r => r | _ => [] end). intros i o.
    rewrite (bind_ok _ _ _ _ _ (E _)), bind_gets. change (cipher_suite (set_inner _ s1)) with (cipher_suite s). rewrite Gc. unfold write_cbc_with_type, mapM_err, bindM at 1. rewrite off_cbc.
    destruct (snd (encrypt_cbc_record_with_type iv ct p s1)); cbn; rewrite ?app_nil_r; reflexivity.
Qed.

Lemma record_split ct b b' : record_header ct (len b) ++ b = record_header ct (len b') ++ b' -> b = b'.
Proof. intros E. apply app_eq_app_len in E as [_ E]; [exact E|reflexivity]. Qed.

(** One body for every state of the transport. *)
Lemma write_uniform (s : stream) iv ct p : stream_inv s -> write_seq s < u64_max -> is_block iv = true -> wf_bytes p = true ->
  exists body, seals s ct body p /\ len body = body_len (gcm (cipher_suite s)) (len p) /\ wf_bytes body = true /\
  forall i o, exists s', write_encrypted_record_with_type iv ct p (set_inner {| incoming := i; outgoing := o |} s) = (s', Ok tt) /\
    write_to (set_inner {| incoming := i; outgoing := o |} s) s' (record_header ct (len body) ++ body).
Proof.
  intros I B Bi Wp. destruct (write_wire iv ct p s) as [w Hw]. set (e := {| incoming := []; outgoing := [] |}).
  destruct (write_record_ok (set_inner e s) iv ct p) as (s0 & body & E0 & T0 & S0 & Lb & Wb); [now apply set_inner_inv|exact B|exact Bi|exact Wp|].
  exists body. split; [exact S0|]. split; [exact Lb|]. split; [exact Wb|]. intros i o.
  destruct (write_record_ok (set_inner {| incoming := i; outgoing := o |} s) iv ct p) as (s1 & body1 & E1 & T1 & _); [now apply set_inner_inv|exact B|exact Bi|exact Wp|].
  exists s1. split; [exact E1|]. replace body with body1; [exact T1|]. apply (record_split ct).
  pose proof (Hw [] []) as W0. fold e in W0. rewrite E0 in W0. pose proof (Hw i o) as W1. rewrite E1 in W1.
  destruct T0 as (t0 & ce0 & -> & U0 & _). destruct T1 as (t1 & ce1 & -> & U1 & _). cbn in W0, U0, W1, U1. rewrite W0 in U0. rewrite W1 in U1. apply app_inv_head in U1. congruence.
Qed.
End Uniform.

(** ** The Finished messages *)

Section Finish.
Context {C4 : Sm4Crates} {L4 : Sm4Laws C4} {H : Sm3Crate} {LH : Sm3Laws H} {C : Sm2Crate}.
Local Abbreviation stream := (TlcpStream pipe).

Lemma finished_message v : len v = 12 -> finished_to_bytes {| verify_data := v |} = hs_message Finished v.
Proof. intros L. unfold hs_message. now rewrite L. Qed.

Lemma finished_parse v : len v = 12 ->
  parse_handshake_message (finished_to_bytes {| verify_data := v |}) = Ok (Finished, v, []) /\ finished_from_body v = Ok {| verify_data := v |} /\
  len (finished_to_bytes {| verify_data := v |}) = 16.
Proof.
  intros L. rewrite finished_message by exact L. split; [rewrite <- (app_nil_r (hs_message Finished v)); apply parse_message; lia|].
  split; [|rewrite len_hs_message, L; reflexivity]. unfold finished_from_body. rewrite L. cbn [Z.eqb Pos.eqb negb guard].
  rewrite slice_to_ok by lia. cbn [bind]. do 2 f_equal. apply firstn_all2. unfold len in L. lia.
Qed.

Lemma finished_value m label t : exists v, finished_of (Some m) label t = Ok {| verify_data := v |} /\ len v = 12 /\
  wf_bytes (finished_to_bytes {| verify_data := v |}) = true.
Proof.
  unfold finished_of. cbn [ok_or bind]. destruct (finished_ok m label t) as (v & E & L). exists v. split; [exact E|]. split; [exact L|].
  unfold finished_compute in E. cbn [Sm3Hasher_hash map_err] in E. rewrite prf_expand_ok in E by (unfold MAX_PRF_OUTPUT; lia). cbn [and_then run] in E.
  destruct (prf_ref_shape m (bytes_of label) (sm3 t) 12) as [Ln W]; [lia|]. rewrite slice_to_ok in E by lia. cbn [bind] in E. injection E as <-.
  rewrite finished_message by exact L. unfold hs_message. rewrite wf_bytes_cons, wf_bytes_app, wf_be_bytes, wf_bytes_firstn by exact W. reflexivity.
Qed.

Lemma pipe_eq (t : pipe) i o : unread t = i -> sent t = o -> t = {| incoming := i; outgoing := o |}.
Proof. destruct t. cbn. now intros -> ->. Qed.

Lemma small_body g n : n = 16 -> body_len g n <= 16384.
Proof. intros ->. destruct g; vm_compute; discriminate. Qed.

(** Reading one record that fills the pipe. *)
Lemma read_one (r : stream) ct body p rest o : stream_inv r -> is_data_type ct = true -> len body <= 16384 -> wf_bytes body = true -> wf_bytes rest = true ->
  read_seq r < u64_max -> protects r ct body p -> exists cd, cache_ok (read_key r) cd /\
  read_application_data (set_inner {| incoming := (record_header ct (len body) ++ body) ++ rest; outgoing := o |} r) =
    (with_fields r {| incoming := rest; outgoing := o |} (write_seq r) (read_seq r + 1) (read_buf r) (read_buf_pos r) (cipher_enc r) cd (close_notify_sent r), Ok p).
Proof.
  intros I D B Wb Wr Q P. set (t := {| incoming := _; outgoing := _ |}).
  destruct (read_written (set_inner t r) ct body p rest) as (r' & E & (t' & cd & -> & U & Sn & K)); [now apply set_inner_inv|exact D|exact B| |exact Q| |exact P|].
  - cbn [set_inner with_fields inner t unread pipe_laws incoming]. rewrite !wf_bytes_app, wf_record_header, Wb, Wr by exact D. reflexivity.
  - cbn [set_inner with_fields inner t unread pipe_laws incoming]. now rewrite <- app_assoc.
  - exists cd. split; [exact K|]. rewrite (pipe_eq _ _ _ U Sn) in E. exact E.
Qed.

Lemma on_stream_at {HS E A} (f : E -> TlcpError) (m : M stream E A) st st' (h : HS) x : m st = (st', Ok x) ->
  on_stream f m (st, h) = ((st', h), Ok x).
Proof. intros Y. unfold on_stream. cbn [fst snd]. now rewrite Y. Qed.

(** The stream after one record each way. *)
Definition after_finished (s : stream) (t : pipe) (ce cd : option Sm4Cipher) : stream :=
  with_fields s t 1 1 (read_buf s) (read_buf_pos s) ce cd (close_notify_sent s).

Lemma server_reads_finished (s : stream) h m t body v o : stream_inv s -> read_seq s = 0 -> write_seq s = 0 ->
  s_master_secret h = Some m -> s_transcript h = t -> finished_of (Some m) "client finished" t = Ok {| verify_data := v |} -> len v = 12 ->
  let cf := finished_to_bytes {| verify_data := v |} in
  protects s TLCP_RECORD_TYPE_HANDSHAKE body cf -> len body <= 16384 -> wf_bytes body = true -> exists cd, cache_ok (read_key s) cd /\
  read_client_finished (set_inner {| incoming := record_header TLCP_RECORD_TYPE_HANDSHAKE (len body) ++ body; outgoing := o |} s, h) =
    ((with_fields s {| incoming := []; outgoing := o |} 0 1 (read_buf s) (read_buf_pos s) (cipher_enc s) cd (close_notify_sent s), append_transcript cf h), Ok tt).
Proof.
  intros I Qr Qw Ms Tr Fv Lv cf P B Wb. destruct (finished_parse v Lv) as (Pm & Pb & _). fold cf in Pm.
  destruct (read_one s TLCP_RECORD_TYPE_HANDSHAKE body cf [] o I eq_refl B Wb eq_refl) as (cd & Kd & E1); [rewrite Qr; reflexivity|exact P|].
  rewrite app_nil_r in E1. rewrite Qr, Qw in E1. exists cd. split; [exact Kd|].
  assert (V : verify_client_finished h {| verify_data := v |} = Ok true).
  { unfold verify_client_finished. rewrite Ms, Tr, Fv. cbn [bind]. unfold finished_verify. now rewrite bytes_eqb_refl. }
  unfold read_client_finished. rewrite (bind_ok _ _ _ _ _ (on_stream_at _ _ _ _ _ _ E1)), bind_lift, Pm. cbn [map_err].
  rewrite bind_failIf. cbn [handshake_eqb negb]. rewrite bind_lift, Pb. unfold on_context at 1, bindM at 1. cbn [fst snd]. rewrite V. reflexivity.
Qed.

Lemma server_writes_finished (s : stream) ds h w o : stream_inv s -> write_seq s = 0 -> is_block (sd_iv ds) = true ->
  server_compute_server_finished h = Ok {| verify_data := w |} -> len w = 12 ->
  let sf := finished_to_bytes {| verify_data := w |} in wf_bytes sf = true ->
  exists body, seals s TLCP_RECORD_TYPE_APP_DATA body sf /\ len body <= 16384 /\ wf_bytes body = true /\
  write_ccs_finished ds (set_inner {| incoming := []; outgoing := o |} s, h) =
    ((with_fields s {| incoming := []; outgoing := o ++ ccs_record ++ record_header TLCP_RECORD_TYPE_APP_DATA (len body) ++ body |} 1 (read_seq s)
        (read_buf s) (read_buf_pos s) (Some (key_cipher (write_key s))) (cipher_dec s) (close_notify_sent s), h), Ok tt).
Proof.
  intros I Qw Bi Sf Lw sf Wf. destruct (finished_parse w Lw) as (_ & _ & Lf). fold sf in Lf.
  set (s1 := set_write_seq 1 (set_inner {| incoming := []; outgoing := o ++ ccs_record |} s)).
  assert (I1 : stream_inv s1) by (destruct I; constructor; cbn; try assumption; vm_compute; split; discriminate).
  destruct (encrypt_record_ok s1 (sd_iv ds) sf I1 ltac:(cbn; lia) Bi Wf) as (body & E & Se & Lb & Wb). exists body. split; [|split; [|split; [exact Wb|]]].
  - unfold seals in Se |- *. rewrite Qw. exact Se.
  - rewrite Lb. now apply small_body.
  - assert (Sw : stream_write_all (sd_iv ds) sf (set_inner {| incoming := []; outgoing := o ++ ccs_record |} s) =
      (with_fields s {| incoming := []; outgoing := o ++ ccs_record ++ record_header TLCP_RECORD_TYPE_APP_DATA (len body) ++ body |} 1 (read_seq s)
        (read_buf s) (read_buf_pos s) (Some (key_cipher (write_key s))) (cipher_dec s) (close_notify_sent s), Ok tt)).
    { unfold stream_write_all. rewrite bind_gets. cbn [set_inner with_fields write_seq]. rewrite Qw, bind_failIf. change (0 =? u64_max) with false. cbv iota.
      unfold modify at 1, bindM at 1. change (set_write_seq (0 + 1) _) with s1. rewrite (bind_ok _ _ _ _ _ E).
      cbn [write_all pipe_transport s1 set_cipher_enc set_write_seq set_inner with_fields inner incoming outgoing]. now rewrite <- !app_assoc. }
    unfold write_ccs_finished.
    rewrite (bind_ok _ _ _ (set_inner {| incoming := []; outgoing := o ++ ccs_record |} s, h) tt) by reflexivity.
    rewrite (bind_ok _ _ _ (set_inner {| incoming := []; outgoing := o ++ ccs_record |} s, h) tt) by reflexivity.
    unfold on_context at 1, bindM at 1. cbn [fst snd]. rewrite Sf. fold sf.
    rewrite (bind_ok _ _ _ _ _ (on_stream_at _ _ _ _ _ _ Sw)). reflexivity.
Qed.

(** The server's half. *)
Lemma server_finishes (s : stream) ds now h m t body v o : stream_inv s -> read_seq s = 0 -> write_seq s = 0 -> is_block (sd_iv ds) = true ->
  s_master_secret h = Some m -> s_transcript h = t -> finished_of (Some m) "client finished" t = Ok {| verify_data := v |} -> len v = 12 ->
  let cf := finished_to_bytes {| verify_data := v |} in
  protects s TLCP_RECORD_TYPE_HANDSHAKE body cf -> len body <= 16384 -> wf_bytes body = true ->
  exists w sbody ce cd resumed h' st, finished_of (Some m) "server finished" (t ++ cf) = Ok {| verify_data := w |} /\ len w = 12 /\
    seals s TLCP_RECORD_TYPE_APP_DATA sbody (finished_to_bytes {| verify_data := w |}) /\ len sbody <= 16384 /\ wf_bytes sbody = true /\
    cache_ok (write_key s) ce /\ cache_ok (read_key s) cd /\
    let t' := {| incoming := []; outgoing := o ++ ccs_record ++ record_header TLCP_RECORD_TYPE_APP_DATA (len sbody) ++ sbody |} in
    server_finished_exchange ds now (set_inner {| incoming := record_header TLCP_RECORD_TYPE_HANDSHAKE (len body) ++ body; outgoing := o |} s, h) =
      ((st, h'), Ok (with_handshake (after_finished s t' ce cd) resumed (peer_client_certs_cache s) (peer_server_certs_cache s))) /\ inner st = t'.
Proof.
  intros I Qr Qw Bi Ms Tr Fv Lv cf P B Wb. destruct (server_reads_finished s h m t body v o I Qr Qw Ms Tr Fv Lv P B Wb) as (cd & Kd & Ra). fold cf in Ra.
  destruct (finished_value m "server finished" (t ++ cf)) as (w & Fw & Lw & Wf).
  assert (Sf : server_compute_server_finished (append_transcript cf h) = Ok {| verify_data := w |}).
  { unfold server_compute_server_finished. cbn [append_transcript s_master_secret s_transcript s_keyed]. now rewrite Ms, Tr. }
  set (s1 := with_fields _ _ _ _ _ _ _ _ _) in Ra.
  assert (I1 : stream_inv s1) by (destruct I; constructor; cbn; try assumption; vm_compute; split; discriminate).
  destruct (server_writes_finished s1 ds (append_transcript cf h) w o I1 eq_refl Bi Sf Lw Wf) as (sbody & Se & Ls & Ws & Wr).
  exists w, sbody, (Some (key_cipher (write_key s))), cd. do 3 eexists. split; [exact Fw|]. split; [exact Lw|].
  split; [unfold seals in Se |- *; rewrite Qw; exact Se|]. split; [exact Ls|]. split; [exact Ws|]. split; [now right|]. split; [exact Kd|]. intros t'. split.
  - unfold server_finished_exchange. rewrite (bind_ok _ _ _ _ _ Ra). change s1 with (set_inner {| incoming := []; outgoing := o |} s1) at 1.
    rewrite (bind_ok _ _ _ _ _ Wr). rewrite !bind_gets. cbn [fst snd]. unfold on_context at 1, bindM at 1, modify at 1. reflexivity.
  - reflexivity.
Qed.

(** The client's half. *)
Lemma client_finishes (c : stream) d now h m t v body w sbody o : stream_inv c -> read_seq c = 0 -> write_seq c = 0 -> is_block (dr_iv d) = true ->
  c_master_secret h = Some m -> c_transcript h = t -> finished_of (Some m) "client finished" t = Ok {| verify_data := v |} ->
  let cf := finished_to_bytes {| verify_data := v |} in
  (forall i o, exists s', write_encrypted_record_with_type (dr_iv d) TLCP_RECORD_TYPE_HANDSHAKE cf (set_inner {| incoming := i; outgoing := o |} c) = (s', Ok tt) /\
    write_to (set_inner {| incoming := i; outgoing := o |} c) s' (record_header TLCP_RECORD_TYPE_HANDSHAKE (len body) ++ body)) ->
  finished_of (Some m) "server finished" (t ++ cf) = Ok {| verify_data := w |} -> len w = 12 ->
  protects c TLCP_RECORD_TYPE_APP_DATA sbody (finished_to_bytes {| verify_data := w |}) -> len sbody <= 16384 -> wf_bytes sbody = true ->
  exists ce cd resumed h' st, cache_ok (write_key c) ce /\ cache_ok (read_key c) cd /\
    let t' := {| incoming := []; outgoing := o ++ record_header TLCP_RECORD_TYPE_HANDSHAKE (len body) ++ body |} in
    finished_exchange d now (set_inner {| incoming := ccs_record ++ record_header TLCP_RECORD_TYPE_APP_DATA (len sbody) ++ sbody; outgoing := o |} c, h) =
      ((st, h'), Ok (with_handshake (after_finished c t' ce cd) resumed (peer_client_certs_cache c) (peer_server_certs_cache c))) /\ inner st = t'.
Proof.
  intros I Qr Qw Bi Mc Tr Fv cf Hw Fw Lw P B Wb. destruct (finished_parse w Lw) as (Pm & Pb & _).
  set (rec := record_header TLCP_RECORD_TYPE_APP_DATA (len sbody) ++ sbody). destruct (Hw (ccs_record ++ rec) o) as (c1 & E1 & (t1 & ce & -> & Sn & Un & Ke)).
  cbn [set_inner with_fields inner unread sent pipe_laws incoming outgoing] in Sn, Un. rewrite (pipe_eq t1 _ _ Un Sn) in E1.
  set (o1 := o ++ record_header TLCP_RECORD_TYPE_HANDSHAKE (len body) ++ body) in *. set (c1 := with_fields _ _ _ _ _ _ _ _ _) in E1.
  assert (I1 : stream_inv c1) by (destruct I; constructor; cbn; try assumption; rewrite Qw; vm_compute; split; discriminate).
  destruct (read_one c1 TLCP_RECORD_TYPE_APP_DATA sbody (finished_to_bytes {| verify_data := w |}) [] o1 I1 eq_refl B Wb eq_refl) as (cd & Kd & E2);
    [cbn; rewrite Qr; reflexivity|exact P|]. rewrite app_nil_r in E2. fold rec in E2.
  replace (write_seq c1) with 1 in E2 by (cbn; now rewrite Qw). replace (read_seq c1 + 1) with 1 in E2 by (cbn; now rewrite Qr).
  assert (Cf : client_compute_client_finished h = Ok {| verify_data := v |}) by (unfold client_compute_client_finished; now rewrite Mc, Tr).
  assert (Vs : verify_server_finished (set_client_transcript h (c_transcript h ++ cf)) {| verify_data := w |} = Ok true).
  { unfold verify_server_finished, client_compute_server_finished. cbn [set_client_transcript c_master_secret c_transcript]. rewrite Mc, Tr, Fw. cbn [bind].
    unfold finished_verify. now rewrite bytes_eqb_refl. }
  assert (Rc : on_inner (read_exact 6) c1 = (set_inner {| incoming := rec; outgoing := o1 |} c1, Ok ccs_record)).
  { unfold on_inner, c1. cbn [with_fields inner read_exact pipe_transport incoming outgoing]. rewrite (proj2 (Z.ltb_ge _ _)); [reflexivity|].
    rewrite len_app. pose proof (len_nonneg rec). change (len ccs_record) with 6. lia. }
  exists ce, cd. do 3 eexists. split; [exact Ke|]. split; [exact Kd|]. intros t'. split.
  - unfold finished_exchange. unfold on_context at 1, bindM at 1. cbn [fst snd]. rewrite Cf. cbv zeta. fold cf.
    rewrite (bind_ok _ _ _ _ _ (on_stream_at _ _ _ _ _ _ E1)). rewrite (bind_ok _ _ _ (c1, h) tt) by reflexivity.
    rewrite (bind_ok _ _ _ _ _ (on_stream_at _ _ _ _ _ _ Rc)), (bind_ok _ _ _ _ _ (on_stream_at _ _ _ _ _ _ E2)), bind_lift, Pm. cbn [map_err].
    rewrite bind_failIf. cbn [handshake_eqb negb]. rewrite bind_lift, Pb. unfold on_context at 1, modify at 1, bindM at 1. cbn [fst snd].
    unfold on_context at 1, bindM at 1. cbn [fst snd]. rewrite Vs, bind_failIf. cbn [negb]. unfold on_context, modify, bindM, gets, ret. cbn [fst snd]. reflexivity.
  - reflexivity.
Qed.
End Finish.

(** ** An RSA setup *)

Section Rsa.
Context {C4 : Sm4Crates} {L4 : Sm4Laws C4} {H : Sm3Crate} {LH : Sm3Laws H} {C : Sm2Crate} {G : Sm2Group C} {X : X509Parser} {R : RsaCrate} {LR : RsaLaws R}
  {K8 : Pkcs8Crate C}.
Variable show_id : bytes -> string.
Variable k : TlcpConnector.
Variable a : TlcpAcceptor.
Variable d : Draws.
Variable ds : ServerDraws.
Variable now : Z.
Variable suite : TlcpCipherSuite.
Variable priv : RsaPrivateKey.
Variables sign_der enc_der sig ct : bytes.

(** The messages. *)
Definition rsa_certs : TlcpCertPair := server_cert_pair a suite sign_der enc_der.
Definition rsa_client_hello : TlcpClientHello := client_hello_of (dr_random d) (k_cipher_suites k).
Definition rsa_server_hello : TlcpServerHello := server_hello_of (server_random_of ds) (sd_session_id ds) suite.
Definition rsa_ske : bytes := ske_to_bytes (SkeEcc sig).
Definition rsa_cke : bytes := cke_to_bytes false (CkeRsa ct).
Definition rsa_transcript : bytes :=
  client_hello_to_bytes rsa_client_hello ++ server_hello_to_bytes rsa_server_hello ++ to_certificate_message rsa_certs ++ rsa_ske ++
  server_hello_done_to_bytes ++ rsa_cke.
Definition rsa_master : bytes := prf_ref (fresh_pms d) (bytes_of "master secret") (dr_random d ++ server_random_of ds) 48.

(** The client offers suites of which the server's choice is an RSA one; the server
    has certificates and a key, the client the public half of it and no complaint about
    the certificates; signing and encrypting succeed; every message fits a record. *)
Record rsa_setup (log log' : audit_log) : Prop := {
  setup_suites : forallb (fun s => len s =? 2) (k_cipher_suites k) = true;
  setup_count : len (k_cipher_suites k) <= 8000;
  setup_choice : find_suite (k_cipher_suites k) = Some suite;
  setup_mode : mode_of suite = Rsa;
  setup_random : len (dr_random d) = 32;
  setup_pms : len (dr_pms d) = 46;
  setup_iv : is_block (dr_iv d) = true;
  setup_server_random : len (sd_random ds) = 28;
  setup_session : len (sd_session_id ds) <= 32;
  setup_server_iv : is_block (sd_iv ds) = true;
  setup_config : step_config a = Ok (sign_der, enc_der);
  setup_signer : a_rsa_signer a = Some priv;
  setup_decryptor : a_rsa_decryptor a = Some priv;
  setup_public : exists pub, k_rsa_server_pub k = Some pub /\ public_new (rsa_n priv) (rsa_e priv) = Ok pub /\
    encrypt_with_rng pub (dr_rsa d) (fresh_pms d) = Ok ct;
  setup_signature : RsaSigner_sign priv (cert_signed (dr_random d) (server_random_of ds) (enc_cert rsa_certs)) = Ok sig;
  setup_sign_cert : sign_der <> [];
  setup_certificates : len (certificate_body rsa_certs) <= 16380 /\ Forall (fun c => len c < 2 ^ 24) (certs_of rsa_certs);
  setup_sizes : len sig <= 16000 /\ len ct <= 16000;
  setup_hostname : check_hostname k (received rsa_certs) now = Ok tt;
  setup_anchors : check_anchors k (received rsa_certs) now log = (log', Ok tt)
}.

(** ** Sizes *)

Lemma server_random_len : len (sd_random ds) = 28 -> len (server_random_of ds) = 32.
Proof. intros L. unfold server_random_of. rewrite len_app, len_be_bytes, L. reflexivity. Qed.

Lemma concat_pairs (l : list bytes) : forallb (fun s => len s =? 2) l = true -> len (List.concat l) = 2 * len l.
Proof.
  induction l as [|b l IH]; [reflexivity|]. cbn [forallb List.concat]. intros F. apply andb_true_iff in F as [B F]. apply Z.eqb_eq in B.
  rewrite len_app, len_cons, B, IH by exact F. lia.
Qed.

Variables log log' : audit_log.
Hypothesis S : rsa_setup log log'.

Lemma client_hello_size : len (client_hello_body rsa_client_hello) <= 16380.
Proof.
  pose proof (setup_count _ _ S). unfold client_hello_body, rsa_client_hello, client_hello_of.
  cbn [ch_version ch_random ch_session_id ch_cipher_suites ch_compression_methods]. rewrite !len_app, !len_be_bytes, concat_pairs by apply (setup_suites _ _ S).
  rewrite (setup_random _ _ S). change (len TLCP_VERSION_1_0) with 2. rewrite ?len_cons, ?len_nil. lia.
Qed.

Lemma suite_known : In suite all_suites.
Proof. exact (proj1 (find_suite_some _ _ (setup_choice _ _ S))). Qed.

Lemma server_hello_size : len (server_hello_body rsa_server_hello) <= 16380.
Proof.
  pose proof (setup_session _ _ S). unfold server_hello_body, rsa_server_hello, server_hello_of. cbn [sh_version sh_random sh_session_id sh_cipher_suite sh_compression_method].
  assert (L2 : len (suite_id suite) = 2) by (pose proof suite_known as Ia; repeat (destruct Ia as [<-|Ia]; [reflexivity|]); destruct Ia).
  rewrite !len_app, !len_cons, !len_nil, L2, server_random_len by apply (setup_server_random _ _ S). change (len TLCP_VERSION_1_0) with 2. lia.
Qed.

Lemma received_enc_cert : enc_cert (received rsa_certs) = enc_cert rsa_certs /\ sign_cert (received rsa_certs) = sign_der.
Proof. unfold rsa_certs, server_cert_pair. rewrite (setup_mode _ _ S). now destruct (a_rsa_single_cert_mode a). Qed.

(** ** The client up to the keys *)

Lemma transcribe_at b i o h l g : transcribe b (at_ i o h l g) = (at_ i o (set_client_transcript h (c_transcript h ++ b)) l g, Ok tt).
Proof. reflexivity. Qed.

Definition client_hello_context : TlcpHandshake :=
  set_client_transcript (fst (create_client_hello (with_suites (new_client (dr_random d)) (k_cipher_suites k)))) (client_hello_to_bytes rsa_client_hello).

Lemma client_sends_hello i o h l g : step_client_hello k d (at_ i o h l g) =
  (at_ i (o ++ handshake_record (client_hello_to_bytes rsa_client_hello)) client_hello_context l g, Ok tt).
Proof. reflexivity. Qed.

Lemma client_reads_hello rest o l g : exists h,
  step_server_hello (at_ (handshake_record (server_hello_to_bytes rsa_server_hello) ++ rest) o client_hello_context l g) = (at_ rest o h l g, Ok rsa_server_hello) /\
  c_state h = HelloSent /\ c_client_random h = dr_random d /\ c_transcript h = client_hello_to_bytes rsa_client_hello ++ server_hello_to_bytes rsa_server_hello.
Proof.
  unfold step_server_hello. unfold server_hello_to_bytes at 1. rewrite (bind_ok _ _ _ _ _ (receive_at _ _ _ _ _ _ _ _ _ server_hello_size)). cbn [fst snd].
  rewrite bind_lift, <- (app_nil_r (server_hello_body _)), server_hello_parse;
    [|apply server_hello_of_wf; [apply server_random_len, (setup_server_random _ _ S)|apply (setup_session _ _ S)|apply suite_known]].
  eexists. split; [reflexivity|]. rewrite app_nil_r. repeat split.
Qed.

Lemma client_reads_certificates rest o h l g : c_state h = HelloSent -> exists h',
  step_certificate (at_ (handshake_record (to_certificate_message rsa_certs) ++ rest) o h l g) = (at_ rest o h' l g, Ok (received rsa_certs)) /\
  c_state h' = ServerCertsReceived /\ c_client_random h' = c_client_random h /\ c_transcript h' = c_transcript h ++ to_certificate_message rsa_certs.
Proof.
  intros St. unfold step_certificate. destruct (setup_certificates _ _ S) as [B F]. unfold to_certificate_message at 1.
  rewrite (bind_ok _ _ _ _ _ (receive_at _ _ _ _ _ _ _ _ _ B)). cbn [fst snd].
  rewrite bind_lift, (proj1 (tlcp_certificates_roundtrip rsa_certs [] 0 0 0 F eq_refl)). cbn [run].
  assert (P : process_server_certs h (received rsa_certs) = (_, Ok tt)) by (unfold process_server_certs; rewrite St; reflexivity).
  rewrite (bind_ok _ _ _ _ _ (on_hs_at _ _ _ _ _ _ _ _ P)), (bind_ok _ _ _ _ _ (transcribe_at _ _ _ _ _ _)).
  rewrite bind_failIf, (proj2 received_enc_cert), (proj2 (len_nonzero _) (setup_sign_cert _ _ S)). eexists. split; [reflexivity|]. repeat split.
Qed.

Lemma len_vec16 b : len (vec16 b) = 2 + len b.
Proof. unfold vec16. rewrite len_app, len_be_bytes. lia. Qed.

Lemma rsa_verifies pub : public_new (rsa_n priv) (rsa_e priv) = Ok pub ->
  RsaVerifier_verify pub (cert_signed (dr_random d) (server_random_of ds) (enc_cert rsa_certs)) sig = Ok tt.
Proof.
  intros P. pose proof (setup_signature _ _ S) as Sg. unfold RsaSigner_sign, RsaVerifier_verify in *. destruct (sm3_pkcs1_v15_encoding _) as [hashed| |]; [|discriminate..].
  cbn [bind] in *. apply map_err_ok_iff in Sg. apply map_err_ok_iff. now apply (rsa_sign_verify priv).
Qed.

Lemma ske_read : ske_from_body (vec16 sig) Ecc = Ok (SkeEcc sig).
Proof.
  pose proof (proj1 (setup_sizes _ _ S)). rewrite <- (app_nil_r (vec16 sig)). apply (ske_parse (SkeEcc sig)). cbn [ske_wf]. apply Z.ltb_lt. lia.
Qed.

Lemma client_verifies : verify_ske show_id k suite (vec16 sig) (dr_random d) (sh_random rsa_server_hello) (enc_cert (received rsa_certs)) = Ok tt.
Proof.
  unfold verify_ske. rewrite (setup_mode _ _ S). unfold verify_ske_rsa. destruct (setup_public _ _ S) as (pub & -> & P & _). cbn [ok_or bind].
  rewrite ske_read. cbn [map_err bind]. rewrite (proj1 received_enc_cert). now apply rsa_verifies.
Qed.

Lemma client_reads_ske rest o h l g :
  step_read_ske suite (at_ (handshake_record rsa_ske ++ rest) o h l g) = (at_ rest o h l g, Ok (vec16 sig, rsa_ske)).
Proof.
  unfold step_read_ske. rewrite (setup_mode _ _ S). unfold rsa_ske, ske_to_bytes. cbn [ske_body_to_bytes]. apply receive_at.
  rewrite len_vec16. pose proof (proj1 (setup_sizes _ _ S)). lia.
Qed.

Lemma client_reads_done rest o h l g : step_cert_request (at_ (handshake_record server_hello_done_to_bytes ++ rest) o h l g) =
  (at_ rest o (set_client_transcript h (c_transcript h ++ server_hello_done_to_bytes)) l g, Ok (false, true)).
Proof.
  unfold step_cert_request. assert (B : len server_hello_done_to_bytes <= 16384) by (vm_compute; discriminate).
  assert (A : attempt (on_io IoError read_plaintext_record) (at_ (handshake_record server_hello_done_to_bytes ++ rest) o h l g) =
    (at_ rest o h l g, Ok (Some (TLCP_RECORD_TYPE_HANDSHAKE, server_hello_done_to_bytes)))) by (unfold attempt; now rewrite read_at by exact B).
  rewrite (bind_ok _ _ _ _ _ A). reflexivity.
Qed.

Lemma client_sends_cke i o h l g certs ske_body : exists o', o' = o ++ handshake_record rsa_cke /\
  step_client_key_exchange false k d suite certs ske_body (at_ i o h l g) =
  (at_ i o' (set_client_transcript h (c_transcript h ++ rsa_cke)) l g, Ok (fresh_pms d, None)).
Proof.
  eexists. split; [reflexivity|]. unfold step_client_key_exchange. rewrite (setup_mode _ _ S). unfold cke_rsa. destruct (setup_public _ _ S) as (pub & -> & _ & E).
  cbn [ok_or bind]. unfold RsaEncryptor_encrypt, rsa_failure. rewrite E. reflexivity.
Qed.

Lemma client_keys i o h l g : c_state h = ServerCertsReceived -> c_client_random h = dr_random d -> exists h',
  step_keys rsa_server_hello (fresh_pms d) None (at_ i o h l g) = (at_ i (o ++ ccs_record) h' l g, Ok tt) /\
  c_transcript h' = c_transcript h /\ c_client_random h' = dr_random d /\ c_server_random h' = Some (server_random_of ds) /\ c_master_secret h' = Some rsa_master.
Proof.
  intros St Cr. unfold step_keys. cbv zeta.
  set (h1 := set_negotiated h (fresh_pms d) (sh_random rsa_server_hello) (sh_cipher_suite rsa_server_hello)).
  assert (D : exists h2, derive_master_secret h1 = (h2, Ok tt) /\ c_transcript h2 = c_transcript h /\ c_client_random h2 = dr_random d /\
    c_server_random h2 = Some (server_random_of ds) /\ c_master_secret h2 = Some rsa_master).
  { unfold derive_master_secret, h1. cbn [set_negotiated c_state c_pre_master_secret c_server_random c_client_random]. rewrite St, Cr. cbn [ok_or bind].
    rewrite master_of_ok. eexists. split; [reflexivity|]. now repeat split. }
  destruct D as (h2 & D & F). exists h2. split; [|exact F].
  assert (N : on_hs (modify (fun c => set_negotiated c (fresh_pms d) (sh_random rsa_server_hello) (sh_cipher_suite rsa_server_hello))) (at_ i o h l g) = (at_ i o h1 l g, Ok tt)) by reflexivity.
  rewrite (bind_ok _ _ _ _ _ N), (bind_ok _ _ _ _ _ (on_hs_at _ _ _ _ _ _ _ _ D)). reflexivity.
Qed.

(** Passes a step that leaves the state alone. *)
Tactic Notation "idle" constr(m) constr(a) "by" tactic(tac) :=
  match goal with |- context [bindM m ?kk ?st] => rewrite (bind_ok m kk st st a) by tac end.

(** What goes over in the clear, each way. *)
Definition client_clear : bytes := handshake_record (client_hello_to_bytes rsa_client_hello) ++ handshake_record rsa_cke ++ ccs_record.
Definition server_clear : bytes :=
  handshake_record (server_hello_to_bytes rsa_server_hello) ++ handshake_record (to_certificate_message rsa_certs) ++ handshake_record rsa_ske ++
  handshake_record server_hello_done_to_bytes.

Lemma negotiated : negotiated_suite rsa_server_hello (received rsa_certs) = Ok suite.
Proof.
  unfold negotiated_suite, rsa_server_hello, server_hello_of. cbn [sh_cipher_suite]. rewrite from_id_id by apply suite_known. cbn [ok_or bind].
  pose proof (setup_mode _ _ S) as M. unfold mode_of in M. now rewrite M, andb_false_r.
Qed.

Lemma client_plain rest h g : exists h', c_transcript h' = rsa_transcript /\ c_client_random h' = dr_random d /\
  c_server_random h' = Some (server_random_of ds) /\ c_master_secret h' = Some rsa_master /\
  connect_with_certs false show_id k d now (at_ (server_clear ++ rest) [] h log g) =
  bindM (open_stream rsa_server_hello) (fun stream => over_stream stream (finished_exchange d now)) (at_ rest client_clear h' log' g).
Proof.
  unfold connect_with_certs, server_clear. rewrite <- !app_assoc. rewrite (bind_ok _ _ _ _ _ (client_sends_hello _ _ _ _ _)).
  match goal with |- context [at_ (_ ++ ?r) ?o client_hello_context _ _] => destruct (client_reads_hello r o log g) as (h2 & E2 & S2 & R2 & T2) end.
  rewrite (bind_ok _ _ _ _ _ E2).
  match goal with |- context [at_ (_ ++ ?r) ?o h2 _ _] => destruct (client_reads_certificates r o h2 log g S2) as (h3 & E3 & S3 & R3 & T3) end.
  rewrite (bind_ok _ _ _ _ _ E3), bind_lift, (setup_hostname _ _ S).
  match goal with |- context [bindM (on_log ?m) ?kk (at_ ?i ?o ?h ?l ?g)] =>
    assert (A : on_log m (at_ i o h l g) = (at_ i o h log' g, Ok tt)) by (unfold on_log, at_; cbn [p_log p_io p_hs p_rng]; now rewrite (setup_anchors _ _ S)) end.
  rewrite (bind_ok _ _ _ _ _ A), bind_lift, negotiated, (bind_ok _ _ _ _ _ (client_reads_ske _ _ _ _ _)). cbn [fst snd].
  rewrite bind_lift, client_verifies, (bind_ok _ _ _ _ _ (transcribe_at _ _ _ _ _ _)), (bind_ok _ _ _ _ _ (client_reads_done _ _ _ _ _)). cbn [fst snd].
  idle (step_server_hello_done (T := pipe) false true) tt by reflexivity. idle (step_client_certificate (T := pipe) k false) (@None string) by reflexivity.
  match goal with |- context [step_client_key_exchange _ _ _ _ ?c ?b] => match goal with |- context [at_ ?i ?o ?h ?l ?g] =>
    destruct (client_sends_cke i o h l g c b) as (o' & Eo & E) end end.
  rewrite (bind_ok _ _ _ _ _ E). cbn [fst snd].
  idle (step_deferred_ske (T := pipe) k suite None) (@None bytes) by (unfold step_deferred_ske; now rewrite (setup_mode _ _ S)).
  idle (step_certificate_verify (T := pipe) k None) tt by reflexivity.
  match goal with |- context [at_ ?i o' ?h ?l ?g] => destruct (client_keys i o' h l g) as (h4 & E4 & T4 & R4 & Sr4 & M4); [exact S3|now rewrite <- R2|] end.
  rewrite (bind_ok _ _ _ _ _ E4). exists h4. split; [|split; [exact R4|split; [exact Sr4|split; [exact M4|]]]].
  - rewrite T4. cbn [set_client_transcript c_transcript]. rewrite T3, T2. unfold rsa_transcript. now rewrite <- !app_assoc.
  - subst o'. unfold client_clear. now rewrite <- !app_assoc.
Qed.

(** ** The server up to the keys *)

(** The context once the hellos are done, with transcript [t]. *)
Definition server_context_at (h : TlcpServerHandshake) (t : bytes) : Prop :=
  s_state h = HelloSent /\ s_cipher_suite h = Some suite /\ s_client_random h = Some (dr_random d) /\ s_server_random h = server_random_of ds /\
  s_client_certs h = [] /\ s_session_id h = sd_session_id ds /\ s_transcript h = t.

Lemma context_append h t b : server_context_at h t -> server_context_at (append_transcript b h) (t ++ b).
Proof. unfold server_context_at. cbn. intros (? & ? & ? & ? & ? & ? & ->). repeat split; assumption. Qed.

Lemma s_transcribe_at b i o h l g : s_transcribe b (at_ i o h l g) = (at_ i o (append_transcript b h) l g, Ok tt).
Proof. reflexivity. Qed.

Lemma server_hellos rest o h l g : exists h',
  step_hello a ds now (at_ (handshake_record (client_hello_to_bytes rsa_client_hello) ++ rest) o h l g) =
    (at_ rest (o ++ handshake_record (server_hello_to_bytes rsa_server_hello)) h' l g, Ok (rsa_client_hello, suite)) /\
  server_context_at h' (client_hello_to_bytes rsa_client_hello ++ server_hello_to_bytes rsa_server_hello).
Proof.
  unfold step_hello. unfold client_hello_to_bytes at 1. rewrite (bind_ok _ _ _ _ _ (receive_at _ _ _ _ _ _ _ _ _ client_hello_size)). cbn [fst].
  rewrite bind_lift, <- (app_nil_r (client_hello_body _)), client_hello_parse;
    [|apply client_hello_of_wf; [apply (setup_random _ _ S)|apply (setup_suites _ _ S)|pose proof (setup_count _ _ S); lia]].
  set (h0 := with_session_cache (sd_gmt ds) (sd_random ds) (a_session_cache a)).
  rewrite (bind_ok _ _ _ _ _ (on_hs_at (fun _ => (h0, Ok tt)) _ _ _ h0 _ _ _ eq_refl)).
  assert (P : exists h1, process_client_hello now (sd_session_id ds) h0 rsa_client_hello = (h1, Ok tt) /\ server_context_at h1 (client_hello_to_bytes rsa_client_hello)).
  { unfold process_client_hello, lookup_session, rsa_client_hello, client_hello_of. cbn [h0 with_session_cache server_context s_state ch_version ch_session_id].
    change (bytes_eqb TLCP_VERSION_1_0 TLCP_VERSION_1_0) with true. rewrite len_nil. cbn -[find_suite client_hello_to_bytes]. rewrite (setup_choice _ _ S).
    eexists. split; [reflexivity|]. repeat split. }
  destruct P as (h1 & P & Cx). rewrite (bind_ok _ _ _ _ _ (on_hs_at (fun s => process_client_hello now (sd_session_id ds) s rsa_client_hello) _ _ _ _ _ _ _ P)), bind_gets. cbn [p_hs at_].
  pose proof Cx as (St & Su & Cr & Sr & Cc & Si & Tr).
  assert (Csh : create_server_hello h1 = Ok rsa_server_hello) by (unfold create_server_hello; rewrite St, Su, Sr, Si; reflexivity).
  rewrite Su, bind_lift. cbn [ok_or]. rewrite bind_lift, Csh. exists (append_transcript (server_hello_to_bytes rsa_server_hello) h1).
  split; [reflexivity|]. now apply context_append.
Qed.

Lemma server_sends_certificates i o h l g t : server_context_at h t -> exists h',
  step_server_certificate rsa_certs (at_ i o h l g) = (at_ i (o ++ handshake_record (to_certificate_message rsa_certs)) h' l g, Ok tt) /\
  server_context_at h' (t ++ to_certificate_message rsa_certs).
Proof. intros Cx. eexists. split; [reflexivity|]. exact (context_append h t (to_certificate_message rsa_certs) Cx). Qed.

Lemma server_sends_ske i o h l g enc : step_server_ske false a ds suite rsa_certs (dr_random d) (server_random_of ds) enc (at_ i o h l g) =
  (at_ i (o ++ handshake_record rsa_ske) (append_transcript rsa_ske h) l g, Ok None).
Proof.
  unfold step_server_ske. rewrite (setup_mode _ _ S). unfold ske_rsa. rewrite (setup_signer _ _ S). cbn [ok_or bind]. unfold ske_generate_rsa.
  rewrite (setup_signature _ _ S), (proj2 (Z.ltb_ge _ _)); [reflexivity|]. destruct (setup_certificates _ _ S) as [_ F]. unfold rsa_certs, server_cert_pair in *.
  rewrite (setup_mode _ _ S) in *. destruct (a_rsa_single_cert_mode a); cbn [cert_pair_new_single cert_pair_with_chains enc_cert certs_of mode sign_cert sign_chain enc_chain] in *.
  - rewrite len_nil. lia.
  - rewrite Forall_forall in F. assert (len enc_der < 2 ^ 24) by (apply F; right; now left). lia.
Qed.

Lemma server_sends_done i o h l g : step_server_hello_end false suite (at_ i o h l g) =
  (at_ i (o ++ handshake_record server_hello_done_to_bytes) (append_transcript server_hello_done_to_bytes h) l g, Ok tt).
Proof. unfold step_server_hello_end, asks_certificates. rewrite (setup_mode _ _ S). reflexivity. Qed.

Lemma server_reads_cke rest o h l g : step_read_cke false suite (at_ (handshake_record rsa_cke ++ rest) o h l g) =
  (at_ rest o (append_transcript rsa_cke h) l g, Ok (CkeRsa ct)).
Proof.
  assert (B : len (cke_body false (CkeRsa ct)) <= 16380) by (pose proof (proj2 (setup_sizes _ _ S)); cbn; lia).
  unfold step_read_cke, rsa_cke, cke_to_bytes. rewrite (bind_ok _ _ _ _ _ (receive_at _ _ _ _ _ _ _ _ _ B)). cbn [fst snd].
  rewrite (setup_mode _ _ S), bind_lift. reflexivity.
Qed.

Lemma server_recovers certs sk : server_pms false a suite None (CkeRsa ct) certs sk = Ok (fresh_pms d).
Proof.
  unfold server_pms. rewrite (setup_mode _ _ S). unfold pms_rsa. cbn [as_rsa_ciphertext ok_or bind]. rewrite (setup_decryptor _ _ S). cbn [ok_or bind].
  destruct (setup_public _ _ S) as (pub & _ & P & E). unfold RsaDecryptor_decrypt, rsa_failure. rewrite (rsa_encrypt_decrypt priv pub _ _ _ P E). cbn [map_err bind].
  unfold fresh_pms. rewrite len_app, (setup_pms _ _ S). reflexivity.
Qed.

Lemma server_keys i o h l g t : server_context_at h t -> exists h',
  on_hs (fun s => complete_key_exchange s (fresh_pms d)) (at_ i o h l g) = (at_ i o h' l g, Ok tt) /\
  s_transcript h' = t /\ s_client_random h' = Some (dr_random d) /\ s_server_random h' = server_random_of ds /\ s_master_secret h' = Some rsa_master /\
  s_cipher_suite h' = Some suite /\ s_client_certs h' = [] /\ s_session_id h' = sd_session_id ds.
Proof.
  intros (St & Su & Cr & Sr & Cc & Si & Tr).
  assert (D : exists h', complete_key_exchange h (fresh_pms d) = (h', Ok tt) /\ s_transcript h' = t /\ s_client_random h' = Some (dr_random d) /\
    s_server_random h' = server_random_of ds /\ s_master_secret h' = Some rsa_master /\ s_cipher_suite h' = Some suite /\ s_client_certs h' = [] /\
    s_session_id h' = sd_session_id ds).
  { unfold complete_key_exchange. rewrite St, Cr, Sr. cbn [ok_or bind]. rewrite master_of_ok. eexists. split; [reflexivity|]. now repeat split. }
  destruct D as (h' & D & F). exists h'. split; [|exact F]. exact (on_hs_at (fun s => complete_key_exchange s (fresh_pms d)) _ _ _ _ _ _ _ D).
Qed.

Lemma server_reads_ccs rest o h l g : step_client_verify false a (at_ (ccs_record ++ rest) o h l g) = (at_ rest o h l g, Ok tt).
Proof.
  unfold step_client_verify. assert (E : on_io (parse_io "read post-CKE record: ") read_plaintext_record (at_ (ccs_record ++ rest) o h l g) =
    (at_ rest o h l g, Ok (TLCP_RECORD_TYPE_CCS, [1]))).
  { pose proof (read_record_pipe TLCP_RECORD_TYPE_CCS [1] rest o ltac:(vm_compute; split; discriminate)) as P.
    change ([TLCP_RECORD_TYPE_CCS; 1; 1] ++ _) with (ccs_record ++ rest) in P. unfold on_io, at_. cbn [p_io p_hs p_log p_rng]. rewrite P. reflexivity. }
  rewrite (bind_ok _ _ _ _ _ E). reflexivity.
Qed.

Lemma server_plain rest h l g : exists h', s_transcript h' = rsa_transcript /\ s_client_random h' = Some (dr_random d) /\ s_server_random h' = server_random_of ds /\
  s_master_secret h' = Some rsa_master /\
  accept_with_certs false a ds now (at_ (client_clear ++ rest) [] h l g) =
  bindM (open_server_stream suite) (fun stream => over_stream stream (server_finished_exchange ds now)) (at_ rest server_clear h' l g).
Proof.
  unfold accept_with_certs, client_clear. rewrite <- !app_assoc, bind_lift, (setup_config _ _ S).
  match goal with |- context [at_ (_ ++ ?r) ?o h _ _] => destruct (server_hellos r o h l g) as (h1 & E1 & C1) end.
  rewrite (bind_ok _ _ _ _ _ E1), bind_gets. cbv zeta. fold rsa_certs. cbn [p_hs at_]. pose proof C1 as (_ & _ & _ & Sr & _). rewrite Sr.
  match goal with |- context [at_ ?i ?o h1 _ _] => destruct (server_sends_certificates i o h1 l g _ C1) as (h2 & E2 & C2) end. rewrite (bind_ok _ _ _ _ _ E2).
  cbn [rsa_client_hello client_hello_of ch_random]. rewrite (bind_ok _ _ _ _ _ (server_sends_ske _ _ _ _ _ _)), (bind_ok _ _ _ _ _ (server_sends_done _ _ _ _ _)).
  idle (step_read_client_certificate (T := pipe) false a suite now) tt by (unfold step_read_client_certificate, asks_certificates; now rewrite (setup_mode _ _ S)).
  rewrite (bind_ok _ _ _ _ _ (server_reads_cke _ _ _ _ _)).
  idle (step_deferred_server_ske (T := pipe) false a suite (CkeRsa ct)) (@None bytes) by (unfold step_deferred_server_ske; now rewrite (setup_mode _ _ S)).
  rewrite bind_gets, bind_lift, server_recovers. apply (context_append _ _ rsa_ske) in C2. apply (context_append _ _ server_hello_done_to_bytes) in C2.
  apply (context_append _ _ rsa_cke) in C2. match goal with |- context [at_ ?i ?o ?hh l g] => destruct (server_keys i o hh l g _ C2) as (h3 & E3 & T3 & R3 & S3 & M3 & _) end.
  rewrite (bind_ok _ _ _ _ _ E3), (bind_ok _ _ _ _ _ (server_reads_ccs _ _ _ _ _)). exists h3.
  split; [rewrite T3; unfold rsa_transcript; now rewrite <- !app_assoc|]. do 3 (split; [assumption|]). unfold server_clear. now rewrite <- !app_assoc.
Qed.
(** ** Both together *)

Lemma over_at {HS A} st m i o (h : HS) l g st' h' (x : A) : m (st, h) = ((st', h'), Ok x) ->
  over_stream st m (at_ i o h l g) = ({| p_io := inner st'; p_hs := h'; p_log := l; p_rng := g |}, Ok x).
Proof. intros Y. unfold over_stream. cbn [p_hs at_]. now rewrite Y. Qed.

Lemma stream_new_at (t t' : pipe) km b sid st : stream_new t km suite b sid = Ok st -> stream_new t' km suite b sid = Ok (set_inner t' st).
Proof. now intros [= <-]. Qed.

(** Messages across, once the Finished records are. *)
Lemma finished_delivers (w r : TlcpStream pipe) tw tr ce cd ce' cd' x1 x2 x3 y1 y2 y3 t ms : stream_inv w -> stream_inv r -> paired w r ->
  cache_ok (write_key w) ce -> cache_ok (read_key w) cd -> cache_ok (write_key r) ce' -> cache_ok (read_key r) cd' ->
  len ms < u64_max -> forallb (sendable (gcm (cipher_suite w))) ms = true ->
  delivers (with_handshake (after_finished w tw ce cd) x1 x2 x3) (set_inner t (with_handshake (after_finished r tr ce' cd') y1 y2 y3)) ms.
Proof.
  intros Iw Ir P A1 A2 A3 A4 N F. set (w1 := with_handshake _ _ _ _). set (r1 := set_inner _ _).
  assert (I1 : stream_inv w1) by (destruct Iw; constructor; cbn; try assumption; vm_compute; split; discriminate).
  assert (I2 : stream_inv r1) by (destruct Ir; constructor; cbn; try assumption; vm_compute; split; discriminate).
  assert (P1 : paired w1 r1) by (destruct P; constructor; cbn; assumption || reflexivity).
  destruct (messages_roundtrip ms w1 I1 F) as (w' & wire & E & Sn & _ & _ & Rd); [cbn; lia|].
  exists w', wire. split; [exact E|]. split; [exact Sn|]. intros rest Wr U. destruct (Rd r1 rest I2 P1 Wr U) as (r' & Er & Ur & _). eauto.
Qed.

Lemma client_opens km i o h l g : c_master_secret h = Some rsa_master -> c_client_random h = dr_random d -> c_server_random h = Some (server_random_of ds) ->
  derive rsa_master (dr_random d) (server_random_of ds) suite = Some (Ok km) ->
  open_stream rsa_server_hello (at_ i o h l g) = (at_ i o h l g, stream_new {| incoming := i; outgoing := o |} km suite true (sd_session_id ds)).
Proof.
  intros Mc Rc Sr D. unfold open_stream. rewrite bind_lift. cbn [rsa_server_hello server_hello_of sh_cipher_suite]. rewrite from_id_id by apply suite_known. cbn [ok_or].
  rewrite bind_gets. cbn [p_hs at_]. rewrite Mc, bind_lift. cbn [ok_or]. rewrite Sr, bind_lift. cbn [ok_or]. now rewrite Rc, D, bind_lift.
Qed.

Lemma server_opens km i o h l g : s_master_secret h = Some rsa_master -> s_client_random h = Some (dr_random d) -> s_server_random h = server_random_of ds ->
  derive rsa_master (dr_random d) (server_random_of ds) suite = Some (Ok km) -> forall st, stream_new {| incoming := i; outgoing := o |} km suite false (s_session_id h) = Ok st ->
  open_server_stream suite (at_ i o h l g) = (at_ i o (set_client_certs h []) l g, Ok (set_peer_client_certs_from_acceptor st (s_client_certs h))).
Proof.
  intros Mc Rc Sr D st N. unfold open_server_stream. rewrite bind_gets. cbn [p_hs at_]. rewrite Mc, bind_lift. cbn [ok_or]. rewrite Rc, bind_lift. cbn [ok_or].
  rewrite Sr, D, bind_lift. cbn [run]. rewrite bind_gets. cbn [p_io at_]. rewrite bind_lift, N. reflexivity.
Qed.

(** C2. The TLCP client and the TLCP server of the crate complete an RSA handshake
    with each other: when the server picks an RSA suite among the offered ones, the
    client knows the public half of the server's key, does not object to the
    certificates and the messages fit records, there are bytes [from_client] and
    [from_server] such that the client, given [from_server], succeeds and writes exactly
    [from_client], and the server, given [from_client], succeeds and writes exactly
    [from_server]; neither leaves a byte unread, and every sequence of messages that
    fit records is then delivered in order in either direction. *)
Theorem rsa_handshake_interoperates hc hs ls gc gs : exists from_client from_server c' c s' s,
  connect_with_certs false show_id k d now (at_ from_server [] hc log gc) = (c', Ok c) /\
  accept_with_certs false a ds now (at_ from_client [] hs ls gs) = (s', Ok s) /\
  p_io c' = {| incoming := []; outgoing := from_client |} /\ inner c = p_io c' /\
  p_io s' = {| incoming := []; outgoing := from_server |} /\ inner s = p_io s' /\
  forall ms t, len ms < u64_max -> forallb (sendable (gcm suite)) ms = true -> delivers c (set_inner t s) ms /\ delivers s (set_inner t c) ms.
Proof.
  destruct (derive_km_ok rsa_master (dr_random d) (server_random_of ds) suite) as (km & D & Kk).
  destruct (stream_new_ok {| incoming := []; outgoing := [] |} km suite true (sd_session_id ds) Kk) as (c0 & Nc & Ic & _ & Gc & Qc & _).
  destruct (finished_value rsa_master "client finished" rsa_transcript) as (v & Fv & Lv & Wv). destruct (finished_parse v Lv) as (_ & _ & Lf).
  destruct (write_uniform c0 (dr_iv d) TLCP_RECORD_TYPE_HANDSHAKE _ Ic ltac:(rewrite Qc; reflexivity) (setup_iv _ _ S) Wv) as (body & Se & Lb & Wb & Hw).
  set (fc := record_header TLCP_RECORD_TYPE_HANDSHAKE (len body) ++ body).
  destruct (server_plain fc hs ls gs) as (h2 & T2 & R2 & S2 & M2 & E2).
  destruct (stream_new_ok {| incoming := fc; outgoing := server_clear |} km suite false (s_session_id h2) Kk) as (s0 & Ns & Is & Ts & Gs & Qs & _).
  pose proof (stream_new_paired _ _ _ _ _ _ _ _ _ _ eq_refl Nc Ns) as Pcs. pose proof (stream_new_paired _ _ _ _ _ _ _ _ _ _ eq_refl Ns Nc) as Psc.
  set (s1 := set_peer_client_certs_from_acceptor s0 (s_client_certs h2)).
  assert (I1 : stream_inv s1) by (destruct Is; constructor; assumption). assert (Pcs1 : paired c0 s1) by (destruct Pcs; constructor; assumption).
  assert (Psc1 : paired s1 c0) by (destruct Psc; constructor; assumption).
  assert (Qr : read_seq s1 = 0) by (rewrite (paired_seq _ _ Pcs1); exact Qc). assert (Qc' : read_seq c0 = 0) by (rewrite (paired_seq _ _ Psc1); exact Qs).
  assert (Bb : len body <= 16384) by (rewrite Lb; now apply small_body).
  destruct (server_finishes s1 ds now (set_client_certs h2 []) rsa_master rsa_transcript body v server_clear I1 Qr Qs (setup_server_iv _ _ S) M2 T2 Fv Lv
    (seals_protects _ _ _ _ _ Pcs1 Se) Bb Wb) as (w & sbody & ce & cd & resumed & h2' & st & Fw & Lw & Ses & Bs & Ws & Ke & Kd & Y & Yi).
  set (fs := record_header TLCP_RECORD_TYPE_APP_DATA (len sbody) ++ sbody) in *.
  destruct (client_plain (ccs_record ++ fs) hc gc) as (h1 & T1 & R1 & S1 & M1 & E1).
  destruct (client_finishes c0 d now h1 rsa_master rsa_transcript v body w sbody client_clear Ic Qc' Qc (setup_iv _ _ S) M1 T1 Fv Hw Fw Lw
    (seals_protects _ _ _ _ _ Psc1 Ses) Bs Ws) as (ce' & cd' & resumed' & h1' & st' & Ke' & Kd' & Y' & Yi').
  pose proof (client_opens km (ccs_record ++ fs) client_clear h1 log' gc M1 R1 S1 D) as Oc.
  rewrite (stream_new_at _ {| incoming := ccs_record ++ fs; outgoing := client_clear |} _ _ _ _ Nc) in Oc.
  pose proof (server_opens km fc server_clear h2 ls gs M2 R2 S2 D s0 Ns) as Os. fold s1 in Os.
  replace s1 with (set_inner {| incoming := fc; outgoing := server_clear |} s1) in Os by (rewrite <- Ts; now destruct s0).
  exists (client_clear ++ fc), (server_clear ++ ccs_record ++ fs). do 4 eexists. split; [|split; [|split; [|split; [|split; [|split]]]]].
  - rewrite E1, (bind_ok _ _ _ _ _ Oc). exact (over_at _ _ _ _ _ _ _ _ _ _ Y').
  - rewrite E2, (bind_ok _ _ _ _ _ Os). exact (over_at _ _ _ _ _ _ _ _ _ _ Y).
  - exact Yi'.
  - symmetry. exact Yi'.
  - exact Yi.
  - symmetry. exact Yi.
  - intros ms t N F. split; apply finished_delivers; try assumption; [now rewrite Gc|now change (cipher_suite s1) with (cipher_suite s0); rewrite Gs].
Qed.
End Rsa.

(** ** Witness *)

#[local] Existing Instances toy_crates tagged_sm3 toy_rsa toy_pkcs8.

Definition rsa_connector : TlcpConnector := fold_left configure
  [with_rsa_certs tt; with_cipher_suites [[0x0A; 0x0A]; TLS_RSA_SM4_GCM_SM3]] (connector_new (with_capacity 10)).

Definition rsa_acceptor : TlcpAcceptor := configure_acceptor (acceptor_new (with_capacity 10)) (accept_rsa_certs_single tt [1; 2; 3]).

Definition rsa_signature : bytes := rev (SM3_PKCS1_V15_PREFIX ++ sm3 (cert_signed (repeat 7 32) (server_random_of sample_server_draws) [])).

Lemma sample_setup : rsa_setup rsa_connector rsa_acceptor sample_draws sample_server_draws 50 RSA_SM4_GCM_SM3 tt [1; 2; 3] [1; 2; 3] rsa_signature
  (rev (fresh_pms sample_draws)) [] [].
Proof.
  constructor; lazymatch goal with |- ex _ => idtac | |- _ /\ _ => idtac | _ => vm_compute; reflexivity || discriminate end.
  - exists tt. repeat split.
  - split; [vm_compute; discriminate|]. repeat constructor.
  - split; vm_compute; discriminate.
Qed.

Lemma rsa_handshake_interoperates_witness : exists from_client from_server c' c s' s,
  connect_with_certs false (fun _ => ""%string) rsa_connector sample_draws 50 (client_start from_server) = (c', Ok c) /\
  accept_with_certs false rsa_acceptor sample_server_draws 50 (server_start from_client) = (s', Ok s) /\
  outgoing (p_io c') = from_client /\ outgoing (p_io s') = from_server.
Proof.
  destruct (rsa_handshake_interoperates (L4 := toy_laws) (LH := tagged_sm3_laws) (LR := toy_rsa_laws) (fun _ => ""%string) _ _ _ _ _ _ _ _ _ _ _ _ _ sample_setup
    (new_client []) (server_new 0 []) [] [] []) as (fc & fs & c' & c & s' & s & A & B & Pc & _ & Ps & _).
  exists fc, fs, c', c, s', s. split; [exact A|]. split; [exact B|]. now rewrite Pc, Ps.
Defined.
