(* ===== verification/TlsKeys.v ===== *)
(** Vocabulary and key schedule of the TLS 1.3 stack (gm-tls/src/error.rs,
    kdf.rs, key_update.rs, the key records of session_ticket.rs and
    handshake.rs): error types, HKDF over HMAC-SM3, session keys from an SM2
    shared point, and the KeyUpdate message with the rotation of traffic secrets.

    The point arithmetic and its encoding (crate sm2) are outside: the coordinates
    of the shared point are arguments. *)

From Stdlib Require Import String Bool ZArith Lia List.
From S2P Require Import Prelude Bytes Sm4 Sm3.
Import ListNotations.
Open Scope Z_scope.

(** ** Errors *)

Inductive TlsError : Type :=
| ConfigError (m : string)
| HandshakeFailed (m : string)
| HandshakeFailedSource (msg source : string)
| CertificateVerificationFailed (m : string)
| TlsCrlVerificationFailed (m : string)
| IoError (m : string)
| Unimplemented (m : string)
| SequenceOverflow
| SessionStoreError (m : string)
| DerParseError (m : string)
| SerializationFailed (m : string)
| TlsRecordError (m : string)
| ParseError (m : string)
| NonceReuse
| InvalidHandshakeType (t : Z)
| InvalidMessage (m : string)
| InvalidState (m : string)
| SessionTicketInvalid (m : string)
| SessionTicketExpired
| SessionTicketReplay
| CipherError (m : string)
| HandshakeMessageParse (m : string)
| Sm2KeyError (m : string)
| KatFailed (m : string).

Inductive ErrorCode : Type :=
| CodeConfigError
| CodeHandshakeFailed
| CodeHandshakeFailedSource
| CodeCertificateVerificationFailed
| CodeCrlVerificationFailed
| CodeIoError
| CodeUnimplemented
| CodeSequenceOverflow
| CodeSessionStoreError
| CodeDerParseError
| CodeSerializationFailed
| CodeTlsRecordError
| CodeParseError
| CodeNonceReuse
| CodeInvalidHandshakeType
| CodeInvalidMessage
| CodeInvalidState
| CodeSessionTicket
| CodeCipher
| CodeHandshakeMessageParse
| CodeSm2Key
| CodeKat.

Definition code (e : TlsError) : ErrorCode :=
  match e with
  | ConfigError _ => CodeConfigError
  | HandshakeFailed _ => CodeHandshakeFailed
  | HandshakeFailedSource _ _ => CodeHandshakeFailedSource
  | CertificateVerificationFailed _ => CodeCertificateVerificationFailed
  | TlsCrlVerificationFailed _ => CodeCrlVerificationFailed
  | IoError _ => CodeIoError
  | Unimplemented _ => CodeUnimplemented
  | SequenceOverflow => CodeSequenceOverflow
  | SessionStoreError _ => CodeSessionStoreError
  | DerParseError _ => CodeDerParseError
  | SerializationFailed _ => CodeSerializationFailed
  | TlsRecordError _ => CodeTlsRecordError
  | ParseError _ => CodeParseError
  | NonceReuse => CodeNonceReuse
  | InvalidHandshakeType _ => CodeInvalidHandshakeType
  | InvalidMessage _ => CodeInvalidMessage
  | InvalidState _ => CodeInvalidState
  | SessionTicketInvalid _ | SessionTicketExpired | SessionTicketReplay => CodeSessionTicket
  | CipherError _ => CodeCipher
  | HandshakeMessageParse _ => CodeHandshakeMessageParse
  | Sm2KeyError _ => CodeSm2Key
  | KatFailed _ => CodeKat
  end.

Definition is_config_error (e : TlsError) : bool :=
  match code e with CodeConfigError => true | _ => false end.
Definition is_transient (e : TlsError) : bool :=
  match code e with CodeIoError | CodeSessionStoreError => true | _ => false end.

Definition display_tls (e : TlsError) : string :=
  (match e with
   | ConfigError m => "configuration error: " +++ m
   | HandshakeFailed m => "handshake failed: " +++ m
   | HandshakeFailedSource m _ => "handshake failed: " +++ m
   | CertificateVerificationFailed m => "certificate verification failed: " +++ m
   | TlsCrlVerificationFailed m => "CRL verification failed: " +++ m
   | IoError m => "I/O error: " +++ m
   | Unimplemented m => "not implemented: " +++ m
   | SequenceOverflow => "sequence overflow: GCM nonce cannot exceed 2^64-1"
   | SessionStoreError m => "session store error: " +++ m
   | DerParseError m => "DER parse error: " +++ m
   | SerializationFailed m => "serialization failed: " +++ m
   | TlsRecordError m => "TLS record error: " +++ m
   | ParseError m => "parse error: " +++ m
   | NonceReuse => "GCM nonce reuse detected: same nonce used twice with the same key"
   | InvalidHandshakeType t => "invalid handshake type: " +++ dec t
   | InvalidMessage m => "invalid message: " +++ m
   | InvalidState m => "invalid state: " +++ m
   | SessionTicketInvalid m => "session ticket invalid: " +++ m
   | SessionTicketExpired => "session ticket has expired"
   | SessionTicketReplay => "session ticket replay detected"
   | CipherError m => "GM cipher error: " +++ m
   | HandshakeMessageParse m => "handshake message parse failed: " +++ m
   | Sm2KeyError m => "SM2 key error: " +++ m
   | KatFailed m => "KAT self-test failed: " +++ m
   end)%string.

(** [From<CryptoError> for TlsError] *)
Definition from_crypto (e : CryptoError) : TlsError :=
  match e with
  | CryptoCertificateVerificationFailed m => CertificateVerificationFailed m
  | CrlVerificationFailed m => TlsCrlVerificationFailed m
  | other => HandshakeFailed (display_crypto other)
  end.
(** [From<std::io::Error> for TlsError] *)
Definition from_io (m : string) : TlsError := IoError m.

(** ** HKDF *)

Definition SM3_HASH_LEN : Z := 32.
Definition HKDF_MAX_OUTPUT : Z := 255 * SM3_HASH_LEN.
Definition SM4_KEY_LEN : Z := 16.
Definition SM4_NONCE_LEN : Z := 12.

Section Kdf.
Context {H : Sm3Crate}.

(** One turn of [while okm.len() < len]; [None] when the loop is left. *)
Definition hkdf_step (prk info : bytes) (length : Z) (s : bytes * bytes * Z)
    : outcome TlsError (option (bytes * bytes * Z)) :=
  let '(okm, t_prev, counter) := s in
  if negb (len okm <? length) then Ok None
  else
    let input := t_prev ++ info ++ [counter] in
    t_i <- map_err from_crypto (compute (Sm3Hmac_new prk) input) ;;
    let okm := okm ++ t_i in
    if len okm <? length then
      if counter =? 255 then Err (HandshakeFailed "HKDF-Expand counter overflow")
      else Ok (Some (okm, t_i, counter + 1))
    else Ok (Some (okm, t_i, counter)).

(** The loop with fuel; [None] when the fuel runs out. *)
Fixpoint hkdf_loop (fuel : nat) (prk info : bytes) (length : Z) (s : bytes * bytes * Z)
    : option (outcome TlsError bytes) :=
  match fuel with
  | O => None
  | S f =>
      match hkdf_step prk info length s with
      | Ok None => Some (Ok (fst (fst s)))
      | Ok (Some s') => hkdf_loop f prk info length s'
      | Err e => Some (Err e)
      | Panic => Some Panic
      end
  end.

(** At most 255 turns and the last test. *)
Definition hkdf_fuel : nat := 256.

Definition hkdf_sm3 (ikm salt info : bytes) (length : Z) : option (outcome TlsError bytes) :=
  if HKDF_MAX_OUTPUT <? length then
    Some (Err (HandshakeFailed ("HKDF output length " +++ dec length +++ " exceeds maximum " +++ dec HKDF_MAX_OUTPUT
      +++ " bytes")%string))
  else
    match map_err from_crypto
            (if len salt =? 0 then compute (Sm3Hmac_new (repeat 0 32)) ikm else compute (Sm3Hmac_new salt) ikm) with
    | Ok prk =>
        match hkdf_loop hkdf_fuel prk info length ([], [], 1) with
        | Some o => Some (okm <- o ;; Ok (firstn (Z.to_nat length) okm))
        | None => None
        end
    | Err e => Some (Err e)
    | Panic => Some Panic
    end.

(** A derivation that would not return counts as a panic. *)
Definition hkdf (ikm salt info : bytes) (length : Z) : outcome TlsError bytes :=
  match hkdf_sm3 ikm salt info length with Some o => o | None => Panic end.

(** ** Session keys *)

Record SessionKeys : Type := {
  client_key : bytes;
  client_nonce : bytes;
  server_key : bytes;
  server_nonce : bytes
}.

Record HandshakeSecrets : Type := {
  master_secret : bytes;
  client_traffic_secret : bytes;
  server_traffic_secret : bytes;
  session_keys : SessionKeys
}.

Definition derive_key_iv_from_secret (secret : bytes) : outcome TlsError (bytes * bytes) :=
  key <- hkdf secret [] (bytes_of "key") SM4_KEY_LEN ;;
  iv_material <- hkdf secret [] (bytes_of "iv") SM4_NONCE_LEN ;;
  nonce <- from_slice SM4_GCM_NONCE_LENGTH iv_material ;;
  Ok (key, nonce).

Definition derive_session_keys_sm2 (shared_x shared_y : option bytes) : outcome TlsError HandshakeSecrets :=
  x <- match shared_x with Some x => Ok x | None => Err (HandshakeFailed "shared point missing X") end ;;
  y <- match shared_y with Some y => Ok y | None => Err (HandshakeFailed "shared point missing Y") end ;;
  let ikm := x ++ y in
  let salt := [] in
  master <- hkdf ikm salt (bytes_of "GM/TLS-master-secret") 32 ;;
  client_ts <- hkdf master salt (bytes_of "GM/TLS-client-traffic-secret") SM3_HASH_LEN ;;
  server_ts <- hkdf master salt (bytes_of "GM/TLS-server-traffic-secret") SM3_HASH_LEN ;;
  '(ck, cn) <- derive_key_iv_from_secret client_ts ;;
  '(sk, sn) <- derive_key_iv_from_secret server_ts ;;
  Ok {| master_secret := master; client_traffic_secret := client_ts; server_traffic_secret := server_ts;
        session_keys := {| client_key := ck; client_nonce := cn; server_key := sk; server_nonce := sn |} |}.

(** ** KeyUpdate *)

Inductive KeyUpdateRequest : Type :=
| UpdateNotRequested
| UpdateRequested.

Definition from_byte (b : Z) : outcome TlsError KeyUpdateRequest :=
  if b =? 0 then Ok UpdateNotRequested
  else if b =? 1 then Ok UpdateRequested
  else Err (InvalidMessage ("invalid KeyUpdateRequest value: " +++ dec b)%string).

Definition to_byte (r : KeyUpdateRequest) : Z :=
  match r with UpdateNotRequested => 0 | UpdateRequested => 1 end.

Record KeyUpdate : Type := KeyUpdate_new { update_requested : KeyUpdateRequest }.

Definition key_update_to_bytes (k : KeyUpdate) : bytes := [to_byte (update_requested k)].

Definition key_update_from_bytes (data : bytes) : outcome TlsError KeyUpdate :=
  guard (negb (len data =? 1)) (InvalidMessage ("KeyUpdate body must be exactly 1 byte, got " +++ dec (len data))%string)
    (b <- index data 0 ;; r <- from_byte b ;; Ok (KeyUpdate_new r)).

Definition KEY_UPDATE_THRESHOLD : Z := 2 ^ 32 * 4 / 5.
Definition GCM_CONFIDENTIALITY_LIMIT : Z := 2 ^ 32.

Definition update_traffic_secret (old_secret : bytes) : outcome TlsError bytes :=
  guard (negb (len old_secret =? SM3_HASH_LEN))
    (HandshakeFailed ("traffic secret must be " +++ dec SM3_HASH_LEN +++ " bytes, got " +++ dec (len old_secret))%string)
    (hkdf old_secret [] (bytes_of "traffic upd") SM3_HASH_LEN).

Definition derive_key_and_nonce (secret : bytes) : outcome TlsError (bytes * bytes) :=
  new_key <- hkdf secret [] (bytes_of "key") SM4_KEY_LEN ;;
  iv_material <- hkdf secret [] (bytes_of "iv") SM4_NONCE_LEN ;;
  new_nonce <- from_slice SM4_NONCE_LEN iv_material ;;
  Ok (new_key, new_nonce).

(** ** HKDF of RFC 5869 over HMAC-SM3 *)

Definition hkdf_extract (salt ikm : bytes) : bytes :=
  hmac_ref (match salt with [] => repeat 0 32 | _ => salt end) ikm.

(** [T(i) ++ T(i+1) ++ ...], [n] blocks, from the block before. *)
Fixpoint hkdf_blocks (n : nat) (prk info t_prev : bytes) (i : Z) : bytes :=
  match n with
  | O => []
  | S n => let t := hmac_ref prk (t_prev ++ info ++ [i]) in t ++ hkdf_blocks n prk info t (i + 1)
  end.

Definition hkdf_ref (ikm salt info : bytes) (length : Z) : bytes :=
  firstn (Z.to_nat length)
    (hkdf_blocks (Z.to_nat ((length + 31) / 32)) (hkdf_extract salt ikm) info [] 1).
End Kdf.

(** ** The derivation is RFC 5869 *)

Section KdfLemmas.
Context {H : Sm3Crate} {L : Sm3Laws H}.

Lemma hkdf_blocks_shape n prk info t i :
  len (hkdf_blocks n prk info t i) = 32 * Z.of_nat n /\ wf_bytes (hkdf_blocks n prk info t i) = true.
Proof.
  revert t i. induction n as [|n IH]; intros t i; cbn [hkdf_blocks]; [split; reflexivity|].
  destruct (hmac_ref_digest prk (t ++ info ++ [i])) as [W D]. destruct (IH (hmac_ref prk (t ++ info ++ [i])) (i + 1)) as [A B].
  split; [rewrite len_app, D, A; lia|]. now rewrite wf_bytes_app, W, B.
Qed.

Lemma hkdf_loop_ok j prk info length : forall fuel okm t c, (j < fuel)%nat -> c + Z.of_nat j <= 256 ->
  (j = 0%nat -> length <= len okm) ->
  ((0 < j)%nat -> len okm + 32 * Z.of_nat j - 32 < length <= len okm + 32 * Z.of_nat j) ->
  hkdf_loop fuel prk info length (okm, t, c) = Some (Ok (okm ++ hkdf_blocks j prk info t c)).
Proof.
  induction j as [|j IH]; intros [|fuel] okm t c F Bc B0 B1; try lia; cbn [hkdf_loop hkdf_step].
  - destruct (Z.ltb_spec (len okm) length); [lia|]. cbn [negb fst hkdf_blocks]. now rewrite app_nil_r.
  - destruct (Z.ltb_spec (len okm) length); [|lia]. cbn [negb].
    rewrite compute_ref. cbn [map_err bind hmac_key]. destruct (hmac_ref_digest prk (t ++ info ++ [c])) as [_ D].
    rewrite len_app, D. destruct (Z.ltb_spec (len okm + 32) length).
    + destruct (Z.eqb_spec c 255); [lia|]. rewrite IH by (rewrite ?len_app, ?D; lia). cbn [hkdf_blocks]. now rewrite <- app_assoc.
    + rewrite IH by (rewrite ?len_app, ?D; lia). replace j with 0%nat by lia. cbn [hkdf_blocks]. now rewrite !app_nil_r.
Qed.

Lemma hkdf_sm3_ok ikm salt info length : 0 <= length <= HKDF_MAX_OUTPUT ->
  hkdf_sm3 ikm salt info length = Some (Ok (hkdf_ref ikm salt info length)).
Proof.
  unfold HKDF_MAX_OUTPUT, SM3_HASH_LEN. intros B. unfold hkdf_sm3, HKDF_MAX_OUTPUT, SM3_HASH_LEN.
  destruct (Z.ltb_spec (255 * 32) length); [lia|]. rewrite !compute_ref. cbn [hmac_key].
  assert (X : (if len salt =? 0 then Ok (hmac_ref (repeat 0 32) ikm) else Ok (hmac_ref salt ikm)) =
    @Ok CryptoError _ (hkdf_extract salt ikm)) by (now destruct salt).
  rewrite X. cbn [map_err].
  pose proof (Z.div_mod (length + 31) 32 ltac:(lia)). pose proof (Z.mod_pos_bound (length + 31) 32 ltac:(lia)).
  rewrite (hkdf_loop_ok (Z.to_nat ((length + 31) / 32))); unfold hkdf_fuel; rewrite ?len_nil; try lia. reflexivity.
Qed.

Lemma hkdf_ok ikm salt info length : 0 <= length <= 8160 -> hkdf ikm salt info length = Ok (hkdf_ref ikm salt info length).
Proof. intros B. unfold hkdf. now rewrite hkdf_sm3_ok by (unfold HKDF_MAX_OUTPUT, SM3_HASH_LEN; lia). Qed.

Lemma hkdf_ref_shape ikm salt info length : 0 <= length ->
  len (hkdf_ref ikm salt info length) = length /\ wf_bytes (hkdf_ref ikm salt info length) = true.
Proof.
  intros B. unfold hkdf_ref. pose proof (Z.div_mod (length + 31) 32 ltac:(lia)). pose proof (Z.mod_pos_bound (length + 31) 32 ltac:(lia)).
  destruct (hkdf_blocks_shape (Z.to_nat ((length + 31) / 32)) (hkdf_extract salt ikm) info [] 1) as [D W]. split.
  - apply len_firstn. rewrite D. lia.
  - now apply wf_bytes_firstn.
Qed.

(** The key and nonce of a traffic secret, and the secret that follows it. *)
Definition traffic_key (secret : bytes) : bytes := hkdf_ref secret [] (bytes_of "key") 16.
Definition traffic_nonce (secret : bytes) : bytes := hkdf_ref secret [] (bytes_of "iv") 12.
Definition next_secret (secret : bytes) : bytes := hkdf_ref secret [] (bytes_of "traffic upd") 32.

Lemma traffic_shapes secret : len (traffic_key secret) = 16 /\ len (traffic_nonce secret) = 12 /\
  wf_bytes (traffic_nonce secret) = true /\ len (next_secret secret) = 32.
Proof. unfold traffic_key, traffic_nonce, next_secret. repeat split; apply hkdf_ref_shape; lia. Qed.

Lemma derive_key_and_nonce_ok secret : derive_key_and_nonce secret = Ok (traffic_key secret, traffic_nonce secret).
Proof.
  unfold derive_key_and_nonce, SM4_KEY_LEN, SM4_NONCE_LEN. rewrite !hkdf_ok by lia. cbn [bind].
  rewrite from_slice_ok by (apply hkdf_ref_shape; lia). reflexivity.
Qed.

Lemma derive_key_iv_ok secret : derive_key_iv_from_secret secret = Ok (traffic_key secret, traffic_nonce secret).
Proof. exact (derive_key_and_nonce_ok secret). Qed.

Lemma update_traffic_secret_ok secret : len secret = 32 -> update_traffic_secret secret = Ok (next_secret secret).
Proof.
  intros E. unfold update_traffic_secret, SM3_HASH_LEN. rewrite E. cbn [Z.eqb Pos.eqb negb guard]. now rewrite hkdf_ok by lia.
Qed.

(** The secrets of the shared coordinates, by the reference functions. *)
Definition secrets_of (ikm : bytes) : HandshakeSecrets :=
  let m := hkdf_ref ikm [] (bytes_of "GM/TLS-master-secret") 32 in
  let c := hkdf_ref m [] (bytes_of "GM/TLS-client-traffic-secret") 32 in
  let s := hkdf_ref m [] (bytes_of "GM/TLS-server-traffic-secret") 32 in
  {| master_secret := m; client_traffic_secret := c; server_traffic_secret := s;
     session_keys := {| client_key := traffic_key c; client_nonce := traffic_nonce c;
                        server_key := traffic_key s; server_nonce := traffic_nonce s |} |}.

Lemma derive_session_keys_ok x y : derive_session_keys_sm2 (Some x) (Some y) = Ok (secrets_of (x ++ y)).
Proof.
  unfold derive_session_keys_sm2, SM3_HASH_LEN. cbn [bind]. rewrite !hkdf_ok by lia. cbn [bind]. rewrite !hkdf_ok by lia. cbn [bind].
  now rewrite !derive_key_iv_ok.
Qed.

End KdfLemmas.

