(* ===== verification/TlsTickets.v ===== *)
(** Session tickets of the TLS 1.3 stack and their replay protection
    (gm-tls/src/session_ticket.rs, session_store.rs, serialization.rs): ticket
    keys and their rotation, sealing and opening of tickets against the interface
    of a session store, the in-memory store, and the stores over a database.

    The serialisation of session states (crate postcard) and the databases (crates
    sqlx and redis) are parameters; clocks and random nonces are arguments. *)

From Stdlib Require Import String Bool ZArith Lia List.
From S2P Require Import Prelude Bytes Effects Sm4 Sm3 X509Crl TlsKeys.
Import ListNotations.
Open Scope Z_scope.

(** ** Data *)

Definition MAX_TICKET_LIFETIME : Z := 86400.
Definition MAX_SESSION_TICKET_SIZE : Z := 64 * 1024.
Definition MAX_TICKET_CACHE_SIZE : Z := 10000.

Record SessionState : Type := {
  st_master_secret : bytes;
  st_session_keys : SessionKeys;
  st_client_traffic_secret : option bytes;
  st_server_traffic_secret : option bytes;
  st_server_random : bytes;
  st_client_random : bytes;
  st_alpn : option string;
  lifetime_hint : Z;
  require_client_auth : bool;
  created_at : Z
}.

Definition create_session_state (master : bytes) (keys : SessionKeys) (cts sts : option bytes) (server_random client_random : bytes)
    (alpn : option string) (hint : Z) (client_auth : bool) (now : Z) : SessionState :=
  {| st_master_secret := master; st_session_keys := keys; st_client_traffic_secret := cts; st_server_traffic_secret := sts;
     st_server_random := server_random; st_client_random := client_random; st_alpn := alpn; lifetime_hint := hint;
     require_client_auth := client_auth; created_at := now |}.

Record SessionTicket : Type := { encrypted_ticket : bytes; ticket_version : Z }.
Record TicketKey : Type := { key_id : Z; secret : bytes }.

(** ** Key sets *)

Record TicketKeySet : Type := { keys : list TicketKey }.

Definition key_set_new (key : TicketKey) : TicketKeySet := {| keys := [key] |}.
Definition add_key (ks : TicketKeySet) (key : TicketKey) : TicketKeySet := {| keys := keys ks ++ [key] |}.
Definition with_key (ks : TicketKeySet) (key : TicketKey) : TicketKeySet := {| keys := keys ks ++ [key] |}.

(** [keys.remove(position)] *)
Fixpoint remove_first (id : Z) (l : list TicketKey) : option (list TicketKey) :=
  match l with
  | [] => None
  | k :: l => if key_id k =? id then Some l else match remove_first id l with Some l => Some (k :: l) | None => None end
  end.

Definition remove_key (ks : TicketKeySet) (id : Z) : TicketKeySet * bool :=
  if match keys ks with k :: _ => key_id k =? id | [] => false end && (1 <? len (keys ks)) then (ks, false)
  else match remove_first id (keys ks) with
       | Some l => ({| keys := l |}, true)
       | None => (ks, false)
       end.

Definition primary_key (ks : TicketKeySet) : option TicketKey := hd_error (keys ks).
Definition find_key (ks : TicketKeySet) (id : Z) : option TicketKey := find (fun k => key_id k =? id) (keys ks).

(** ** Interfaces *)

(** postcard, with its error texts. *)
Class Postcard : Type := {
  to_allocvec : SessionState -> string + bytes;
  from_bytes : bytes -> string + SessionState
}.
Class PostcardLaws (K : Postcard) : Prop :=
  postcard_roundtrip st b : to_allocvec st = inr b -> from_bytes b = inr st.

(** The trait [SessionStore]. Its methods take turns on the state: the stores lock,
    or leave atomicity to the database. *)
Class SessionStore (S : Type) : Type := {
  is_ticket_replay : bytes -> S -> S * bool;
  mark_ticket_used : bytes -> M S TlsError unit;
  prune_expired : M S TlsError Z
}.

(** What a ticket needs of a store: it knows the tickets it has marked, and a
    ticket is marked once. *)
Class SessionStoreLaws {S : Type} (T : SessionStore S) := {
  used : S -> bytes -> bool;
  replay_law t s : is_ticket_replay t s = (s, used s t);
  mark_again t s : used s t = true -> exists e, mark_ticket_used t s = (s, Err e);
  mark_fresh t s : used s t = false -> exists s', mark_ticket_used t s = (s', Ok tt) /\ used s' t = true
}.

(** A store that forgets nothing. *)
Class DurableStore {S : Type} {T : SessionStore S} (L : SessionStoreLaws T) : Prop :=
  mark_keeps t u s : used s u = true -> used (fst (mark_ticket_used t s)) u = true.

(** ** Tickets *)

Section Tickets.
Context {C : Sm4Crates} {H : Sm3Crate} {K : Postcard}.

Definition serialize (st : SessionState) : outcome TlsError bytes :=
  match to_allocvec st with inl e => Err (SerializationFailed e) | inr b => Ok b end.
Definition deserialize (b : bytes) : outcome TlsError SessionState :=
  match from_bytes b with inl e => Err (SerializationFailed e) | inr st => Ok st end.

Definition derive_ticket_sm4_key (ticket_key : bytes) : outcome TlsError bytes :=
  hash <- map_err (fun e => HandshakeFailed ("SM3 hash failed: " +++ display_crypto e)%string)
            (Sm3Hasher_hash (ticket_key ++ bytes_of "GM/TLS-session-ticket")) ;;
  slice_to hash 16.

(** [nonce] is drawn at random. *)
Definition encrypt_session_ticket (st : SessionState) (ks : TicketKeySet) (nonce : bytes) : outcome TlsError SessionTicket :=
  key <- match primary_key ks with Some k => Ok k | None => Err (HandshakeFailed "ticket key set is empty") end ;;
  state_bytes <- map_err (fun e => HandshakeFailed ("session state serialization failed: " +++ display_tls e)%string) (serialize st) ;;
  derived_key <- derive_ticket_sm4_key (secret key) ;;
  cipher <- map_err (fun e => HandshakeFailed ("failed to create encryptor: " +++ display_crypto e)%string) (Sm4Cipher_new derived_key) ;;
  ' (encrypted, tag) <- map_err (fun e => HandshakeFailed ("session ticket encryption failed: " +++ display_crypto e)%string)
                          (encrypt_gcm cipher state_bytes nonce []) ;;
  Ok {| encrypted_ticket := [key_id key] ++ nonce ++ tag ++ encrypted; ticket_version := 1 |}.

(** Opening a ticket, between the two accesses to the store. *)
Definition open_ticket (combined : bytes) (ks : TicketKeySet) (now : Z) : outcome TlsError SessionState :=
  id <- index combined 0 ;;
  nonce <- slice combined 1 13 ;;
  tag <- slice combined 13 29 ;;
  encrypted <- slice_from combined 29 ;;
  key <- match find_key ks id with
         | Some k => Ok k
         | None => Err (SessionTicketInvalid ("unknown ticket key ID: " +++ dec id)%string)
         end ;;
  derived_key <- derive_ticket_sm4_key (secret key) ;;
  cipher <- map_err (fun e => SessionTicketInvalid ("failed to create decryptor: " +++ display_crypto e)%string) (Sm4Cipher_new derived_key) ;;
  state_bytes <- map_err (fun e => SessionTicketInvalid ("session ticket decryption failed: " +++ display_crypto e)%string)
                   (decrypt_gcm cipher encrypted nonce [] tag) ;;
  state <- map_err (fun e => SessionTicketInvalid ("session state parse failed: " +++ display_tls e)%string) (deserialize state_bytes) ;;
  let age_seconds := Z.max 0 (now - created_at state) in
  let max_lifetime := Z.min (lifetime_hint state) (as_u32 MAX_TICKET_LIFETIME) in
  guard (max_lifetime <? age_seconds) SessionTicketExpired (
  guard (require_client_auth state)
    (SessionTicketInvalid "session ticket does not support resumption of client-authenticated sessions") (
  Ok state)).

Definition check_size (combined : bytes) : outcome TlsError unit :=
  guard (len combined <? 29) (SessionTicketInvalid "invalid session ticket") (
  guard (MAX_SESSION_TICKET_SIZE <? len combined)
    (SessionTicketInvalid ("session ticket too large: " +++ dec (len combined) +++ " bytes (max " +++ dec MAX_SESSION_TICKET_SIZE +++ ")")%string) (
  Ok tt)).

(** Up to the first access to the store, and from there to the second. *)
Definition begin_ticket {S : Type} {T : SessionStore S} (combined : bytes) : M S TlsError unit :=
  lift (check_size combined) ;;;
  replay <-- (fun s => let '(s, r) := is_ticket_replay combined s in (s, Ok r)) ;;;
  failIf replay SessionTicketReplay.

Definition finish_ticket {S : Type} {T : SessionStore S} (combined : bytes) (ks : TicketKeySet) (now : Z) : M S TlsError SessionState :=
  state <-- lift (open_ticket combined ks now) ;;;
  mark_ticket_used combined ;;;
  ret state.

Definition decrypt_session_ticket {S : Type} {T : SessionStore S} (ticket : SessionTicket) (ks : TicketKeySet) (now : Z) : M S TlsError SessionState :=
  begin_ticket (encrypted_ticket ticket) ;;;
  finish_ticket (encrypted_ticket ticket) ks now.
End Tickets.

Inductive TicketErrorClass : Type := ReplayDetected | Expired | TamperedOrForged | Other.

Definition classify_ticket_error (e : TlsError) : TicketErrorClass :=
  match e with
  | SessionTicketReplay => ReplayDetected
  | SessionTicketExpired => Expired
  | SessionTicketInvalid _ => TamperedOrForged
  | _ => Other
  end.

(** ** The in-memory store: an [IndexSet], oldest ticket first *)

Record InMemorySessionStore : Type := { cache : list bytes }.

Definition in_memory_new : InMemorySessionStore := {| cache := [] |}.
Definition cached (s : InMemorySessionStore) (t : bytes) : bool := existsb (bytes_eqb t) (cache s).
Definition already_used : TlsError := SessionStoreError "ticket already marked as used".

Definition in_memory_mark (t : bytes) : M InMemorySessionStore TlsError unit := fun s =>
  if cached s t then (s, Err already_used)
  else
    let c := if MAX_TICKET_CACHE_SIZE <=? len (cache s) then skipn (Z.to_nat (MAX_TICKET_CACHE_SIZE / 2)) (cache s) else cache s in
    ({| cache := c ++ [t] |}, Ok tt).

#[global] Instance in_memory_store : SessionStore InMemorySessionStore := {
  is_ticket_replay t s := (s, cached s t);
  mark_ticket_used := in_memory_mark;
  prune_expired s := (s, Ok 0)
}.

(** ** Stores over a database *)

(** The queries on the table of tickets: rows with a hash, rows inserted (none
    when the hash is there), rows deleted, or an error. *)
Class TicketTable (D : Type) : Type := {
  count_hash : string -> D -> D * (string + option Z);
  insert_hash : string -> D -> D * (string + Z);
  delete_expired : D -> D * (string + Z)
}.

Record SqlSessionStore (D : Type) : Type := { pool : D; fail_closed : bool }.
Arguments pool {D}.
Arguments fail_closed {D}.

(** The methods of SqliteSessionStore and PostgresSessionStore. *)
Definition sql_is_ticket_replay {D : Type} {T : TicketTable D} (t : bytes) (s : SqlSessionStore D) : SqlSessionStore D * bool :=
  let '(d, r) := count_hash (hex_encode t) (pool s) in
  ({| pool := d; fail_closed := fail_closed s |},
   match r with
   | inr (Some count) => 0 <? count
   | inr None => false
   | inl _ => fail_closed s
   end).

Definition sql_mark_ticket_used {D : Type} {T : TicketTable D} (t : bytes) : M (SqlSessionStore D) TlsError unit := fun s =>
  let '(d, r) := insert_hash (hex_encode t) (pool s) in
  ({| pool := d; fail_closed := fail_closed s |},
   match r with
   | inl e => Err (SessionStoreError e)
   | inr rows => guard (rows =? 0) already_used (Ok tt)
   end).

Definition sql_prune_expired {D : Type} {T : TicketTable D} : M (SqlSessionStore D) TlsError Z := fun s =>
  let '(d, r) := delete_expired (pool s) in
  ({| pool := d; fail_closed := fail_closed s |}, match r with inl e => Err (SessionStoreError e) | inr n => Ok n end).

#[global] Instance sql_store {D : Type} {T : TicketTable D} : SessionStore (SqlSessionStore D) := {
  is_ticket_replay := sql_is_ticket_replay;
  mark_ticket_used := sql_mark_ticket_used;
  prune_expired := sql_prune_expired
}.

(** *** Redis *)

Definition KEY_PREFIX : string := "gmtls:ticket:".
Definition TICKET_TTL : Z := 86400.

(** A connection from the pool, then [EXISTS key] and [SET key 1 NX EX ttl]. *)
Class RedisServer (D : Type) : Type := {
  get_connection : D -> option string;
  redis_exists : string -> D -> D * (string + bool);
  redis_set_nx : string -> Z -> D -> D * (string + bool)
}.

Record RedisSessionStore (D : Type) : Type := { redis_pool : D; redis_fail_closed : bool }.
Arguments redis_pool {D}.
Arguments redis_fail_closed {D}.

Definition redis_key (t : bytes) : string := (KEY_PREFIX +++ hex_encode t)%string.

Definition redis_is_ticket_replay {D : Type} {T : RedisServer D} (t : bytes) (s : RedisSessionStore D) : RedisSessionStore D * bool :=
  match get_connection (redis_pool s) with
  | Some _ => (s, redis_fail_closed s)
  | None =>
      let '(d, r) := redis_exists (redis_key t) (redis_pool s) in
      ({| redis_pool := d; redis_fail_closed := redis_fail_closed s |}, match r with inr b => b | inl _ => redis_fail_closed s end)
  end.

Definition redis_mark_ticket_used {D : Type} {T : RedisServer D} (t : bytes) : M (RedisSessionStore D) TlsError unit := fun s =>
  match get_connection (redis_pool s) with
  | Some e => (s, Err (SessionStoreError ("failed to get Redis connection: " +++ e)%string))
  | None =>
      let '(d, r) := redis_set_nx (redis_key t) TICKET_TTL (redis_pool s) in
      ({| redis_pool := d; redis_fail_closed := redis_fail_closed s |},
       match r with
       | inr true => Ok tt
       | inr false => Err already_used
       | inl e => Err (SessionStoreError ("Redis SET NX failed: " +++ e)%string)
       end)
  end.

#[global] Instance redis_store {D : Type} {T : RedisServer D} : SessionStore (RedisSessionStore D) := {
  is_ticket_replay := redis_is_ticket_replay;
  mark_ticket_used := redis_mark_ticket_used;
  prune_expired s := (s, Ok 0)
}.

(** ** The in-memory store keeps its promises *)

Lemma cached_iff s t : cached s t = true <-> In t (cache s).
Proof.
  unfold cached. rewrite existsb_exists. split; [intros (x & I & E); apply bytes_eqb_eq in E; now subst|].
  intros I. exists t. split; [exact I|apply bytes_eqb_refl].
Qed.

#[local] Obligation Tactic := idtac.

#[global] Program Instance in_memory_laws : SessionStoreLaws in_memory_store := { used := cached }.
Next Obligation. reflexivity. Qed.
Next Obligation. intros t s U. exists already_used. cbn. unfold in_memory_mark. now rewrite U. Qed.
Next Obligation.
  intros t s U. cbn. unfold in_memory_mark. rewrite U. eexists. split; [reflexivity|]. apply cached_iff. cbn [cache]. apply in_or_app. right. now left.
Qed.

(** Marking tickets one after the other. *)
Fixpoint mark_all (l : list bytes) (s : InMemorySessionStore) : InMemorySessionStore :=
  match l with [] => s | t :: l => mark_all l (fst (mark_ticket_used t s)) end.

(** [t] is in the cache with at most [n] tickets after it. *)
Definition recent (t : bytes) (n : nat) (s : InMemorySessionStore) : Prop :=
  exists pre post, cache s = pre ++ t :: post /\ (List.length post <= n)%nat.

Lemma recent_used t n s : recent t n s -> used s t = true.
Proof. intros (pre & post & E & _). apply cached_iff. rewrite E. apply in_or_app. right. now left. Qed.

Lemma mark_recent t u n s : recent t n s -> (n < 5000)%nat -> recent t (S n) (fst (in_memory_mark u s)).
Proof.
  intros (pre & post & E & L) N. unfold in_memory_mark. destruct (cached s u); [exists pre, post; split; [exact E|cbn; lia]|]. cbn [fst cache].
  change (Z.to_nat (MAX_TICKET_CACHE_SIZE / 2)) with 5000%nat. destruct (Z.leb_spec MAX_TICKET_CACHE_SIZE (len (cache s))) as [F|_].
  - exists (skipn 5000 pre), (post ++ [u]). rewrite length_app. split; [|cbn; lia]. cbn [cache]. rewrite E, skipn_app.
    assert (P : (5000 <= List.length pre)%nat).
    { unfold len, MAX_TICKET_CACHE_SIZE in F. rewrite E, length_app in F. cbn [List.length] in F. lia. }
    replace (5000 - List.length pre)%nat with 0%nat by lia. cbn [skipn]. now rewrite <- app_assoc.
  - exists pre, (post ++ [u]). rewrite length_app. split; [|cbn; lia]. cbn [cache]. rewrite E. now rewrite <- app_assoc.
Qed.

Lemma mark_all_recent l t n s : recent t n s -> (n + List.length l <= 5000)%nat -> recent t (n + List.length l) (mark_all l s).
Proof.
  revert n s. induction l as [|u l IH]; intros n s R B; cbn [mark_all List.length] in *; [now rewrite Nat.add_0_r|].
  rewrite <- Nat.add_succ_comm. apply IH; [|lia]. apply (mark_recent t u n s R). lia.
Qed.

(** The cache holds the latest tickets, at most 10000. *)
Lemma mark_step u s : cached s u = false -> len (cache s) <= 10000 ->
  exists d, cache s ++ [u] = d ++ cache (fst (in_memory_mark u s)) /\ len (cache (fst (in_memory_mark u s))) <= 10000.
Proof.
  intros N B. unfold in_memory_mark. rewrite N. cbn [fst cache]. change (Z.to_nat (MAX_TICKET_CACHE_SIZE / 2)) with 5000%nat.
  destruct (Z.leb_spec MAX_TICKET_CACHE_SIZE (len (cache s))) as [F|F]; unfold MAX_TICKET_CACHE_SIZE in F.
  - exists (firstn 5000 (cache s)). rewrite app_assoc, firstn_skipn. split; [reflexivity|].
    rewrite len_app. unfold len in *. rewrite length_skipn. cbn [List.length]. lia.
  - exists []. split; [reflexivity|]. rewrite len_app. change (len [u]) with 1. lia.
Qed.

Lemma mark_all_suffix l s : NoDup (cache s ++ l) -> len (cache s) <= 10000 ->
  exists d, cache s ++ l = d ++ cache (mark_all l s) /\ len (cache (mark_all l s)) <= 10000.
Proof.
  revert s. induction l as [|u l IH]; intros s N B; cbn [mark_all]; [exists []; now rewrite app_nil_r|].
  assert (U : cached s u = false).
  { apply not_true_iff_false. rewrite cached_iff. apply NoDup_remove_2 in N. intros I. apply N, in_or_app. now left. }
  destruct (mark_step u s U B) as (d & E & B'). change (mark_ticket_used u s) with (in_memory_mark u s).
  destruct (IH (fst (in_memory_mark u s))) as (d' & E' & B'').
  - replace (cache s ++ u :: l) with ((cache s ++ [u]) ++ l) in N by now rewrite <- app_assoc. rewrite E, <- app_assoc in N.
    now apply NoDup_app_remove_l in N.
  - exact B'.
  - exists (d ++ d'). split; [|exact B'']. replace (cache s ++ u :: l) with ((cache s ++ [u]) ++ l) by now rewrite <- app_assoc.
    now rewrite E, <- !app_assoc, E'.
Qed.

Lemma suffix_in {A} (a l d c : list A) x : a ++ l = d ++ c -> (List.length c <= List.length l)%nat -> In x c -> In x l.
Proof.
  intros E L I. assert (S : skipn (List.length d - List.length a) l = c).
  { pose proof (f_equal (@List.length A) E) as Q. rewrite !length_app in Q. pose proof (f_equal (skipn (List.length d)) E) as F.
    rewrite (skipn_app _ d c), skipn_all, Nat.sub_diag in F. cbn [app skipn] in F. rewrite skipn_app in F.
    rewrite (skipn_all2 a) in F by lia. exact F. }
  rewrite <- S in I. rewrite <- (firstn_skipn (List.length d - List.length a) l). apply in_or_app. now right.
Qed.

(** How long the in-memory store protects a ticket: a ticket just marked is
    recognised through the next 5000 tickets, whatever they are, and is forgotten,
    so that it would be accepted again, after 10000 new ones, however little time
    has passed. *)
Theorem in_memory_window (t : bytes) (s s' : InMemorySessionStore) (l : list bytes) :
  mark_ticket_used t s = (s', Ok tt) ->
  (len l <= 5000 -> used (mark_all l s') t = true) /\
  (len (cache s') <= 10000 -> NoDup (cache s' ++ l) -> 10000 <= len l -> used (mark_all l s') t = false).
Proof.
  intros E. assert (R : recent t 0 s').
  { cbn in E. unfold in_memory_mark in E. destruct (cached s t); [discriminate|]. injection E as <-. eexists _, []. split; [reflexivity|cbn; lia]. }
  split.
  - intros L. apply (recent_used t (0 + List.length l)), mark_all_recent; [exact R|unfold len in L; lia].
  - intros B N L. destruct (mark_all_suffix l s' N B) as (d & Q & B'). apply not_true_iff_false. intros U. apply cached_iff in U.
    apply (suffix_in _ _ _ _ _ Q) in U; [|unfold len in B', L; lia]. apply recent_used, cached_iff in R.
    apply in_split in R as (x & y & R). rewrite R, <- app_assoc in N. cbn in N. apply NoDup_remove_2 in N. apply N.
    apply in_or_app. right. apply in_or_app. now right.
Qed.

Lemma in_memory_window_witness : used (mark_all [[2]; [3]] (fst (mark_ticket_used [1] in_memory_new))) [1] = true.
Proof. apply (in_memory_window [1] in_memory_new {| cache := [[1]] |} [[2]; [3]]); [reflexivity|]. vm_compute. discriminate. Defined.

(** ** Key rotation *)

Inductive key_op : Type := Add (k : TicketKey) | With (k : TicketKey) | Remove (id : Z).

Definition run_op (ks : TicketKeySet) (o : key_op) : TicketKeySet :=
  match o with Add k => add_key ks k | With k => with_key ks k | Remove id => fst (remove_key ks id) end.

(** The key sets along a sequence of operations, the last first. *)
Inductive key_sets : TicketKeySet -> list TicketKeySet -> Prop :=
| sets_new ks : key_sets ks [ks]
| sets_op ks0 ks o past : key_sets ks0 (ks :: past) -> key_sets ks0 (run_op ks o :: ks :: past).

Lemma remove_tail id k l l' : key_id k <> id -> remove_first id (k :: l) = Some l' -> exists r, l' = k :: r.
Proof. intros N. cbn. rewrite (proj2 (Z.eqb_neq _ _) N). destruct (remove_first id l); [|discriminate]. intros [= <-]. now eexists. Qed.

Lemma run_op_primary ks o k l : keys ks = k :: l -> keys (run_op ks o) <> [] -> primary_key (run_op ks o) = Some k.
Proof.
  unfold primary_key. intros E N. destruct o as [k'|k'|id]; cbn in *; [now rewrite E|now rewrite E|].
  unfold remove_key in *. rewrite E in *. destruct (Z.eqb_spec (key_id k) id) as [I|I]; cbn [andb] in *.
  - destruct (Z.ltb_spec 1 (len (k :: l))) as [F|F]; cbn [fst keys] in *; [now rewrite E|].
    destruct l as [|x l]; [|rewrite !len_cons in F; pose proof (len_nonneg l); lia].
    cbn in N. rewrite (proj2 (Z.eqb_eq _ _) I) in N. now cbn in N.
  - destruct (remove_first id (k :: l)) as [l'|] eqn:R; cbn [fst keys]; [|now rewrite E].
    now destruct (remove_tail id k l l' I R) as [r ->].
Qed.

(** Ticket keys do not rotate: however keys are added and removed, as long as
    the set is never empty, tickets are sealed under the key it was created with.
    A key that is added goes last, and the first one is not removed while there
    are others. *)
Theorem rotation_keeps_primary (k : TicketKey) (ks : TicketKeySet) (past : list TicketKeySet) :
  key_sets (key_set_new k) (ks :: past) -> Forall (fun x => keys x <> []) (ks :: past) -> primary_key ks = Some k.
Proof.
  intros R. remember (key_set_new k) as k0 eqn:E0. remember (ks :: past) as h eqn:Eh. revert ks past Eh.
  induction R as [k0|k0 ks1 o past1 R IH]; intros ks past Eh F; injection Eh as <- <-; subst k0; [reflexivity|].
  inversion F as [|x y N F']; subst. specialize (IH eq_refl ks1 past1 eq_refl F'). unfold primary_key in IH.
  destruct (keys ks1) as [|k' l] eqn:E; [discriminate|]. injection IH as ->. now apply (run_op_primary ks1 o k l).
Qed.

Lemma rotation_keeps_primary_witness :
  let k id := {| key_id := id; secret := repeat id 32 |} in
  primary_key (fst (remove_key (add_key (key_set_new (k 1)) (k 2)) 1)) = Some (k 1).
Proof.
  intros k. set (ks := fst (remove_key (add_key (key_set_new (k 1)) (k 2)) 1)).
  apply (rotation_keeps_primary (k 1) ks [add_key (key_set_new (k 1)) (k 2); key_set_new (k 1)]).
  - apply (sets_op _ _ (Remove 1)), (sets_op _ _ (Add (k 2))), sets_new.
  - repeat constructor; discriminate.
Defined.

(** ** Sealing and opening *)

Section TicketLemmas.
Context {C : Sm4Crates} {LC : Sm4Laws C} {H : Sm3Crate} {LH : Sm3Laws H} {K : Postcard} {LK : PostcardLaws K}.

(** The cipher of a ticket key. *)
Definition ticket_cipher (k : TicketKey) : Sm4Cipher := key_cipher (firstn 16 (sm3 (secret k ++ bytes_of "GM/TLS-session-ticket"))).

Lemma ticket_key_ok k : derive_ticket_sm4_key (secret k) = Ok (firstn 16 (sm3 (secret k ++ bytes_of "GM/TLS-session-ticket"))) /\
  Sm4Cipher_new (firstn 16 (sm3 (secret k ++ bytes_of "GM/TLS-session-ticket"))) = Ok (ticket_cipher k).
Proof.
  destruct (sm3_digest (secret k ++ bytes_of "GM/TLS-session-ticket")) as [_ D].
  unfold derive_ticket_sm4_key, Sm3Hasher_hash. cbn [map_err bind].
  rewrite slice_to_ok by (unfold len; lia). split; [reflexivity|]. unfold Sm4Cipher_new, guard.
  replace (len (firstn 16 _)) with 16; [reflexivity|]. unfold len. rewrite length_firstn. lia.
Qed.

(** What makes a ticket acceptable at a time, but for replay. *)
Definition ticket_grants (combined : bytes) (ks : TicketKeySet) (now : Z) (st : SessionState) : Prop :=
  exists k nonce tag e b, combined = [key_id k] ++ nonce ++ tag ++ e /\ len nonce = 12 /\ len tag = 16 /\
    find_key ks (key_id k) = Some k /\ encrypt_gcm (ticket_cipher k) b nonce [] = Ok (e, tag) /\ from_bytes b = inr st /\
    now - created_at st <= Z.min (lifetime_hint st) MAX_TICKET_LIFETIME /\ 0 <= Z.min (lifetime_hint st) MAX_TICKET_LIFETIME /\
    require_client_auth st = false.

Lemma find_key_id ks id k : find_key ks id = Some k -> key_id k = id.
Proof. intros F. apply find_some in F as [_ E]. now apply Z.eqb_eq. Qed.

Lemma open_ticket_parts id nonce tag e ks now : len nonce = 12 -> len tag = 16 ->
  open_ticket ([id] ++ nonce ++ tag ++ e) ks now =
  match find_key ks id with
  | None => Err (SessionTicketInvalid ("unknown ticket key ID: " +++ dec id)%string)
  | Some k =>
      state_bytes <- map_err (fun e => SessionTicketInvalid ("session ticket decryption failed: " +++ display_crypto e)%string)
                       (decrypt_gcm (ticket_cipher k) e nonce [] tag) ;;
      state <- map_err (fun e => SessionTicketInvalid ("session state parse failed: " +++ display_tls e)%string) (deserialize state_bytes) ;;
      guard (Z.min (lifetime_hint state) (as_u32 MAX_TICKET_LIFETIME) <? Z.max 0 (now - created_at state)) SessionTicketExpired (
      guard (require_client_auth state)
        (SessionTicketInvalid "session ticket does not support resumption of client-authenticated sessions") (Ok state))
  end.
Proof.
  intros N T. unfold open_ticket. change (index ([id] ++ nonce ++ tag ++ e) 0) with (@Ok TlsError Z id). cbn [bind].
  rewrite (slice_app [id] nonce (tag ++ e)) by (change (len [id]) with 1; lia). cbn [bind].
  rewrite (app_assoc [id] nonce), slice_app by (rewrite len_app; change (len [id]) with 1; lia). cbn [bind].
  rewrite app_assoc, slice_from_app by (rewrite !len_app; change (len [id]) with 1; lia). cbn [bind].
  destruct (find_key ks id) as [k|]; [|reflexivity]. cbn [bind]. destruct (ticket_key_ok k) as [-> E]. cbn [bind]. now rewrite E.
Qed.

Lemma ticket_parts (combined : bytes) : 29 <= len combined -> exists id nonce tag e, combined = [id] ++ nonce ++ tag ++ e /\ len nonce = 12 /\ len tag = 16.
Proof.
  intros L. destruct combined as [|id r]; [rewrite len_nil in L; lia|]. rewrite len_cons in L.
  exists id, (firstn (Z.to_nat 12) r), (firstn (Z.to_nat 16) (skipn (Z.to_nat 12) r)), (skipn (Z.to_nat 16) (skipn (Z.to_nat 12) r)).
  rewrite !firstn_skipn. split; [reflexivity|]. now rewrite !len_firstn by (rewrite ?len_skipn by lia; lia).
Qed.

Lemma open_ticket_iff combined ks now st : 29 <= len combined -> wf_bytes combined = true ->
  open_ticket combined ks now = Ok st <-> ticket_grants combined ks now st.
Proof.
  intros L W. change (as_u32 MAX_TICKET_LIFETIME) with MAX_TICKET_LIFETIME. split.
  - destruct (ticket_parts combined L) as (id & nonce & tag & e & -> & N & T). rewrite open_ticket_parts by assumption.
    rewrite !wf_bytes_app in W. apply andb_true_iff in W as [_ W]. apply andb_true_iff in W as [Wn _].
    destruct (find_key ks id) as [k|] eqn:F; [|discriminate]. destruct (decrypt_gcm (ticket_cipher k) e nonce [] tag) as [b| |] eqn:G; try discriminate.
    cbn [map_err bind]. unfold deserialize. destruct (from_bytes b) as [|st'] eqn:B; [discriminate|]. cbn [map_err bind]. unfold guard.
    change (as_u32 MAX_TICKET_LIFETIME) with MAX_TICKET_LIFETIME. case_cmp; [discriminate|]. destruct (require_client_auth st') eqn:A; [discriminate|]. intros [= <-].
    pose proof (find_key_id ks id k F) as I. exists k, nonce, tag, e, b. rewrite I. apply decrypt_gcm_iff in G; try assumption. repeat split; try assumption; lia.
  - intros (k & nonce & tag & e & b & -> & N & T & F & G & B & A & Z0 & Q). rewrite open_ticket_parts, F by assumption.
    rewrite !wf_bytes_app in W. apply andb_true_iff in W as [_ W]. apply andb_true_iff in W as [Wn _].
    apply decrypt_gcm_iff in G; try assumption. rewrite G. cbn [map_err bind]. unfold deserialize. rewrite B. cbn [map_err bind]. unfold guard.
    change (as_u32 MAX_TICKET_LIFETIME) with MAX_TICKET_LIFETIME. rewrite (proj2 (Z.ltb_ge _ _)) by lia. now rewrite Q.
Qed.

Lemma check_size_iff c : check_size c = Ok tt <-> 29 <= len c <= MAX_SESSION_TICKET_SIZE.
Proof. unfold check_size, guard. repeat case_cmp; split; try discriminate; try lia; reflexivity. Qed.

(** *** Against the interface of a store *)

Section Store.
Context {S : Type} {T : SessionStore S} {L : SessionStoreLaws T}.

Lemma begin_iff c (s s' : S) : begin_ticket c s = (s', Ok tt) <-> s' = s /\ check_size c = Ok tt /\ used s c = false.
Proof.
  unfold begin_ticket. rewrite bind_lift. destruct (check_size c) as [[]| |]; [|split; [discriminate|now intros (_ & ? & _)]..].
  unfold bindM at 1. rewrite replay_law. unfold failIf. destruct (used s c); split; try discriminate.
  - now intros (_ & _ & ?).
  - now intros [= <-].
  - now intros [-> _].
Qed.

Lemma begin_store c (s : S) : fst (begin_ticket c s) = s.
Proof. unfold begin_ticket. rewrite bind_lift. destruct (check_size c) as [[]| |]; try reflexivity. unfold bindM. rewrite replay_law. now destruct (used s c). Qed.

Lemma finish_ok c ks now (s s' : S) st : finish_ticket c ks now s = (s', Ok st) <->
  open_ticket c ks now = Ok st /\ mark_ticket_used c s = (s', Ok tt).
Proof.
  unfold finish_ticket. rewrite bind_lift. destruct (open_ticket c ks now) as [x| |]; [|split; [discriminate|now intros []]..].
  unfold bindM, ret. destruct (mark_ticket_used c s) as [s1 [[]| |]]; split; try discriminate; try (now intros [_ [=]]).
  - intros [= <- <-]. now split.
  - now intros [[= <-] [= <-]].
Qed.

Lemma mark_ok_iff c (s : S) : (exists s', mark_ticket_used c s = (s', Ok tt)) <-> used s c = false.
Proof.
  split.
  - intros (s' & E). destruct (used s c) eqn:U; [|reflexivity]. destruct (mark_again c s U) as (e & F). congruence.
  - intros U. destruct (mark_fresh c s U) as (s' & E & _). now exists s'.
Qed.

Lemma decrypt_iff ticket ks now (s s' : S) st : wf_bytes (encrypted_ticket ticket) = true ->
  decrypt_session_ticket ticket ks now s = (s', Ok st) <->
  29 <= len (encrypted_ticket ticket) <= MAX_SESSION_TICKET_SIZE /\ used s (encrypted_ticket ticket) = false /\
  ticket_grants (encrypted_ticket ticket) ks now st /\ mark_ticket_used (encrypted_ticket ticket) s = (s', Ok tt).
Proof.
  intros W. unfold decrypt_session_ticket. set (c := encrypted_ticket ticket) in *. split.
  - unfold bindM. destruct (begin_ticket c s) as [s1 [[]| |]] eqn:B; try discriminate. apply begin_iff in B as (-> & Z0 & U). apply check_size_iff in Z0.
    intros F. apply finish_ok in F as [O F]. apply open_ticket_iff in O; [|lia|exact W]. tauto.
  - intros (Z0 & U & G & F). rewrite (bind_ok _ _ s s tt) by (apply begin_iff; split; [reflexivity|]; now rewrite check_size_iff).
    apply finish_ok. split; [|exact F]. apply open_ticket_iff; [lia|exact W|exact G].
Qed.

Lemma replayed ticket ks now (s : S) : 29 <= len (encrypted_ticket ticket) <= MAX_SESSION_TICKET_SIZE -> used s (encrypted_ticket ticket) = true ->
  decrypt_session_ticket ticket ks now s = (s, Err SessionTicketReplay).
Proof.
  intros Z0 U. apply check_size_iff in Z0. unfold decrypt_session_ticket, begin_ticket, bindM. unfold lift. rewrite Z0, replay_law, U. reflexivity.
Qed.

Lemma sealed_grants st ks nonce ticket now : len nonce = 12 -> wf_bytes nonce = true -> encrypt_session_ticket st ks nonce = Ok ticket ->
  now - created_at st <= Z.min (lifetime_hint st) MAX_TICKET_LIFETIME -> 0 <= lifetime_hint st -> require_client_auth st = false ->
  ticket_grants (encrypted_ticket ticket) ks now st /\ 29 <= len (encrypted_ticket ticket).
Proof.
  intros N W E A Z0 Q. unfold encrypt_session_ticket, primary_key in E. destruct (keys ks) as [|k l] eqn:F; [discriminate|]. cbn [hd_error bind] in E.
  unfold serialize in E. destruct (to_allocvec st) as [|b] eqn:B; [discriminate|]. cbn [map_err bind] in E.
  destruct (ticket_key_ok k) as [D1 D2]. rewrite D1 in E. cbn [bind] in E. rewrite D2 in E. cbn [map_err bind] in E.
  destruct (gcm_roundtrip (ticket_cipher k) b nonce [] N W) as (ct & tag & G & _ & Lt & _). rewrite G in E. cbn [map_err bind] in E. injection E as <-.
  cbn [encrypted_ticket]. split.
  - exists k, nonce, tag, ct, b. unfold find_key. rewrite F. cbn [find]. rewrite Z.eqb_refl.
    repeat split; try assumption; [now apply postcard_roundtrip|unfold MAX_TICKET_LIFETIME; lia].
  - rewrite len_cons, !len_app. pose proof (len_nonneg ct). lia.
Qed.

(** C20. Session tickets, with any store that keeps the interface. A ticket is
    accepted exactly when it has a legal size, is not marked, was sealed by the
    key set under the key its first byte names, holds the state returned, is
    within its lifetime and needed no client certificate; it is then marked. So a
    ticket that the server sealed restores its state, and a second use is refused
    as a replay. *)
Theorem tickets_exact (st : SessionState) (ks : TicketKeySet) (nonce : bytes) (ticket : SessionTicket) (now later : Z) (s s' : S) :
  wf_bytes (encrypted_ticket ticket) = true ->
  (decrypt_session_ticket ticket ks now s = (s', Ok st) <->
   29 <= len (encrypted_ticket ticket) <= MAX_SESSION_TICKET_SIZE /\ used s (encrypted_ticket ticket) = false /\
   ticket_grants (encrypted_ticket ticket) ks now st /\ mark_ticket_used (encrypted_ticket ticket) s = (s', Ok tt)) /\
  (len nonce = 12 -> wf_bytes nonce = true -> encrypt_session_ticket st ks nonce = Ok ticket -> len (encrypted_ticket ticket) <= MAX_SESSION_TICKET_SIZE ->
   now - created_at st <= Z.min (lifetime_hint st) MAX_TICKET_LIFETIME -> 0 <= lifetime_hint st -> require_client_auth st = false ->
   used s (encrypted_ticket ticket) = false ->
   exists s1, decrypt_session_ticket ticket ks now s = (s1, Ok st) /\ decrypt_session_ticket ticket ks later s1 = (s1, Err SessionTicketReplay)).
Proof.
  intros W. split; [now apply decrypt_iff|]. intros N Wn E Z0 A L0 Q U. destruct (sealed_grants st ks nonce ticket now N Wn E A L0 Q) as [G L29].
  destruct (mark_fresh (encrypted_ticket ticket) s U) as (s1 & F & U1). exists s1. split; [now apply decrypt_iff|]. now apply replayed.
Qed.

(** ** Concurrent uses *)

(** A connection that presents a ticket: before the check, between the check and
    the mark, and with its outcome. *)
Inductive phase : Type := Waiting | Checked | Done (accepted : bool).

Definition accepted {A} (o : outcome TlsError A) : bool := match o with Ok _ => true | _ => false end.
Definition upd (f : nat -> phase) (i : nat) (p : phase) : nat -> phase := fun j => if (j =? i)%nat then p else f j.

Section Runs.
Variables (ticket_of : nat -> bytes) (ks : TicketKeySet).

(** The connections take turns; each access to the store is one step. *)
Inductive step : S * (nat -> phase) -> S * (nat -> phase) -> Prop :=
| step_begin i s f : f i = Waiting ->
    step (s, f) (fst (begin_ticket (ticket_of i) s), upd f i (if accepted (snd (begin_ticket (ticket_of i) s)) then Checked else Done false))
| step_finish i s f now : f i = Checked ->
    step (s, f) (fst (finish_ticket (ticket_of i) ks now s), upd f i (Done (accepted (snd (finish_ticket (ticket_of i) ks now s))))).

Inductive reaches (s0 : S) : S * (nat -> phase) -> Prop :=
| reach_start : reaches s0 (s0, fun _ => Waiting)
| reach_step c c' : reaches s0 c -> step c c' -> reaches s0 c'.

(** Accepted tickets are marked, and no two are the same. *)
Definition once (c : S * (nat -> phase)) : Prop :=
  (forall i, snd c i = Done true -> used (fst c) (ticket_of i) = true) /\
  (forall i j, snd c i = Done true -> snd c j = Done true -> ticket_of i = ticket_of j -> i = j).

Lemma upd_other f i p j : p <> Done true -> upd f i p j = Done true -> f j = Done true.
Proof. unfold upd. intros N. now destruct (j =? i)%nat. Qed.

Lemma finish_mark i now s : fst (finish_ticket (ticket_of i) ks now s) = s \/
  fst (finish_ticket (ticket_of i) ks now s) = fst (mark_ticket_used (ticket_of i) s).
Proof.
  unfold finish_ticket. rewrite bind_lift. destruct (open_ticket (ticket_of i) ks now); [right|now left|now left].
  unfold bindM, ret. now destruct (mark_ticket_used (ticket_of i) s) as [s1 [[]| |]].
Qed.

Context {DS : DurableStore L}.

Lemma once_step c c' : step c c' -> once c -> once c'.
Proof.
  intros Hs [U D]. destruct Hs as [i s f W|i s f now W]; cbn [fst snd] in U, D.
  - rewrite begin_store. assert (N : (if accepted (snd (begin_ticket (ticket_of i) s)) then Checked else Done false) <> Done true) by now destruct (accepted _).
    split; cbn [fst snd]; [intros j Q; apply U, (upd_other f i _ j N Q)|]. intros j k Qj Qk. apply D; eapply upd_other; eassumption.
  - assert (Keep : forall t, used s t = true -> used (fst (finish_ticket (ticket_of i) ks now s)) t = true).
    { intros t Q. destruct (finish_mark i now s) as [->| ->]; [exact Q|now apply mark_keeps]. }
    destruct (accepted (snd (finish_ticket (ticket_of i) ks now s))) eqn:A.
    + destruct (finish_ticket (ticket_of i) ks now s) as [s1 [st| |]] eqn:F; try discriminate. apply finish_ok in F as [_ M]. cbn [fst] in *.
      assert (N : used s (ticket_of i) = false) by (apply mark_ok_iff; now exists s1).
      assert (M1 : used s1 (ticket_of i) = true) by (destruct (mark_fresh (ticket_of i) s N) as (s2 & M2 & Y); congruence).
      assert (O : forall j, f j = Done true -> ticket_of j <> ticket_of i) by (intros j Q E; apply U in Q; congruence).
      split; cbn [fst snd]; unfold upd.
      * intros j. destruct (Nat.eqb_spec j i) as [->|]; [easy|]. intros Q. now apply Keep, U.
      * intros j k. destruct (Nat.eqb_spec j i) as [->|], (Nat.eqb_spec k i) as [->|]; try easy; [|intros Q _ E; now destruct (O j Q)|apply D].
        intros _ Q E. now destruct (O k Q).
    + assert (N : Done false <> Done true) by discriminate. split; cbn [fst snd]; [intros j Q; apply Keep, U, (upd_other f i _ j N Q)|].
      intros j k Qj Qk. apply D; eapply upd_other; eassumption.
Qed.

(** C19. A ticket is accepted once, however connections interleave: any number of
    connections present tickets, each checks the store, opens its ticket and then
    marks it, in any order of these steps; with a store that keeps the interface
    and forgets nothing, no two of them are accepted with the same ticket. *)
Theorem tickets_accepted_once (s0 s : S) (f : nat -> phase) (i j : nat) :
  reaches s0 (s, f) -> f i = Done true -> f j = Done true -> ticket_of i = ticket_of j -> i = j.
Proof.
  intros R. assert (O : once (s, f)); [|apply O]. remember (s, f) as c eqn:E. clear E.
  induction R as [|c c' R IH Hs]; [now split|]. now apply (once_step c).
Qed.
End Runs.
End Store.
End TicketLemmas.

(** ** Tables *)

(** A table that answers: its rows, and no two with the same hash. *)
Class TicketTableLaws {D : Type} (T : TicketTable D) := {
  rows : D -> list string;
  count_law h d : count_hash h d = (d, inr (Some (if existsb (String.eqb h) (rows d) then 1 else 0)));
  insert_old h d : existsb (String.eqb h) (rows d) = true -> insert_hash h d = (d, inr 0);
  insert_new h d : existsb (String.eqb h) (rows d) = false -> exists d', insert_hash h d = (d', inr 1) /\ rows d' = h :: rows d
}.

Section Tables.
Context {D : Type} {T : TicketTable D} {LT : TicketTableLaws T}.

Definition listed (s : SqlSessionStore D) (t : bytes) : bool := existsb (String.eqb (hex_encode t)) (rows (pool s)).

#[global] Program Instance sql_laws : SessionStoreLaws (@sql_store D T) := { used := listed }.
Next Obligation. intros t [d b]. cbn. unfold sql_is_ticket_replay, listed. cbn [pool fail_closed]. rewrite count_law. now destruct (existsb _ _). Qed.
Next Obligation. intros t [d b] U. exists already_used. cbn. unfold sql_mark_ticket_used. cbn [pool fail_closed]. now rewrite insert_old. Qed.
Next Obligation.
  intros t [d b] U. destruct (insert_new (hex_encode t) d U) as (d' & E & R). exists {| pool := d'; fail_closed := b |}. cbn.
  unfold sql_mark_ticket_used, listed. cbn [pool fail_closed]. rewrite E, R. cbn. now rewrite String.eqb_refl.
Qed.

#[global] Instance sql_durable : DurableStore sql_laws.
Proof.
  intros t u [d b] U. cbn. unfold sql_mark_ticket_used. cbn [pool fail_closed]. cbn in U. unfold listed in *. cbn [pool] in U.
  destruct (existsb (String.eqb (hex_encode t)) (rows d)) eqn:E; [now rewrite insert_old|].
  destruct (insert_new (hex_encode t) d E) as (d' & F & R). rewrite F. cbn [fst pool]. rewrite R. cbn. now rewrite U, orb_true_r.
Qed.
End Tables.

(** *** PostgreSQL *)

Lemma length_lower s : String.length (X509.lower s) = String.length s.
Proof. induction s as [|c s IH]; [reflexivity|]. cbn. now rewrite IH. Qed.

Lemma concat_cons x l : String.concat "" (x :: l) = (x +++ String.concat "" l)%string.
Proof. destruct l as [|y l]; [|reflexivity]. cbn. induction x as [|c x IH]; [reflexivity|]. cbn. now rewrite <- IH. Qed.

Lemma hex_encode_length t : Z.of_nat (String.length (hex_encode t)) = 2 * len t.
Proof.
  unfold hex_encode. rewrite length_lower. induction t as [|b t IH]; [reflexivity|]. cbn [map].
  rewrite concat_cons, X509.length_append, len_cons, Nat2Z.inj_add, IH. change (String.length (hex02 b)) with 2%nat. lia.
Qed.

(** With the PostgreSQL store no ticket of more than 64 bytes is ever
    accepted: the column is a VARCHAR(128), which refuses longer values, and what
    is inserted is the hexadecimal text of the whole ticket. *)
Theorem postgres_accepts_no_ticket {C : Sm4Crates} {H : Sm3Crate} {K : Postcard} {D : Type} {T : TicketTable D}
    (ticket : SessionTicket) (ks : TicketKeySet) (now : Z) (s s' : SqlSessionStore D) (st : SessionState) :
  (forall h d, 128 < Z.of_nat (String.length h) -> exists e, insert_hash h d = (d, inl e)) ->
  64 < len (encrypted_ticket ticket) -> decrypt_session_ticket ticket ks now s <> (s', Ok st).
Proof.
  intros V L. unfold decrypt_session_ticket, bindM. destruct (begin_ticket (encrypted_ticket ticket) s) as [s1 [u| |]]; try discriminate.
  intros F. apply finish_ok in F as [_ F]. cbn in F. unfold sql_mark_ticket_used in F.
  destruct (V (hex_encode (encrypted_ticket ticket)) (pool s1)) as [e E]; [rewrite hex_encode_length; lia|]. now rewrite E in F.
Qed.

(** ** Instances *)

Definition toy_state : SessionState :=
  create_session_state [] {| client_key := []; client_nonce := []; server_key := []; server_nonce := [] |} None None [] [] None 1 false 0.

#[global] Instance toy_postcard : Postcard := {
  to_allocvec st :=
    match st with
    | Build_SessionState [] (Build_SessionKeys [] [] [] []) None None [] [] None 1 false 0 => inr (repeat 7 40)
    | _ => inl "unsupported"%string
    end;
  from_bytes _ := inr toy_state
}.

#[global] Instance toy_postcard_laws : PostcardLaws toy_postcard.
Proof.
  intros [m [ck cn sk sn] ct st sr cr al h a c] b. cbn.
  destruct m, ck, cn, sk, sn, ct, st, sr, cr, al, h as [|[| |]|], a, c; now try discriminate.
Qed.

(** A table that is a list of hashes, and one that refuses long ones. *)
#[global] Instance toy_table : TicketTable (list string) := {
  count_hash h d := (d, inr (Some (if existsb (String.eqb h) d then 1 else 0)));
  insert_hash h d := if existsb (String.eqb h) d then (d, inr 0) else (h :: d, inr 1);
  delete_expired d := (d, inr 0)
}.

#[global] Program Instance toy_table_laws : TicketTableLaws toy_table := { rows d := d }.
Next Obligation. reflexivity. Qed.
Next Obligation. intros h d E. cbn. now rewrite E. Qed.
Next Obligation. intros h d E. cbn. rewrite E. now eexists. Qed.

Definition varchar_table : TicketTable (list string) := {|
  count_hash := count_hash;
  insert_hash h d := if 128 <? Z.of_nat (String.length h) then (d, inl "value too long"%string) else insert_hash h d;
  delete_expired := delete_expired |}.

Definition toy_keys : TicketKeySet := key_set_new {| key_id := 1; secret := repeat 9 32 |}.
Definition toy_ticket : SessionTicket :=
  match @encrypt_session_ticket toy_crates toy_sm3 toy_postcard toy_state toy_keys (repeat 3 12) with Ok t => t | _ => {| encrypted_ticket := []; ticket_version := 0 |} end.

Lemma tickets_exact_witness : exists s1,
  @decrypt_session_ticket toy_crates toy_sm3 toy_postcard _ in_memory_store toy_ticket toy_keys 1 in_memory_new = (s1, Ok toy_state) /\
  @decrypt_session_ticket toy_crates toy_sm3 toy_postcard _ in_memory_store toy_ticket toy_keys 1 s1 = (s1, Err SessionTicketReplay).
Proof.
  apply (@tickets_exact toy_crates toy_laws toy_sm3 toy_sm3_laws toy_postcard toy_postcard_laws _ in_memory_store in_memory_laws
           toy_state toy_keys (repeat 3 12) toy_ticket 1 1 in_memory_new in_memory_new); vm_compute; reflexivity || discriminate.
Defined.

Lemma postgres_accepts_no_ticket_witness :
  64 < len (encrypted_ticket toy_ticket) /\
  @decrypt_session_ticket toy_crates toy_sm3 toy_postcard _ (@sql_store _ varchar_table) toy_ticket toy_keys 1 {| pool := []; fail_closed := true |} <>
  ({| pool := []; fail_closed := true |}, Ok toy_state).
Proof.
  split; [reflexivity|]. apply (@postgres_accepts_no_ticket toy_crates toy_sm3 toy_postcard _ varchar_table); [|reflexivity].
  intros h d G. cbn [varchar_table insert_hash]. rewrite (proj2 (Z.ltb_lt _ _) G). now eexists.
Defined.

(** Two connections present one ticket: both pass the check, one is accepted. *)
Lemma tickets_accepted_once_witness : exists c,
  @reaches toy_crates toy_sm3 toy_postcard _ (@sql_store _ toy_table) (fun _ => encrypted_ticket toy_ticket) toy_keys
    {| pool := []; fail_closed := true |} c /\ snd c 0%nat = Done true /\ snd c 1%nat <> Done true.
Proof.
  set (s0 := {| pool := []; fail_closed := true |}).
  pose proof (@reach_start toy_crates toy_sm3 toy_postcard _ (@sql_store _ toy_table) (fun _ => encrypted_ticket toy_ticket) toy_keys s0) as R0.
  pose proof (reach_step _ _ _ _ _ R0 (step_begin _ _ 0%nat _ _ eq_refl)) as R1.
  pose proof (reach_step _ _ _ _ _ R1 (step_begin _ _ 1%nat _ _ eq_refl)) as R2.
  pose proof (reach_step _ _ _ _ _ R2 (step_finish _ _ 0%nat _ _ 1 eq_refl)) as R3.
  pose proof (reach_step _ _ _ _ _ R3 (step_finish _ _ 1%nat _ _ 1 eq_refl)) as R4.
  match type of R4 with reaches _ _ _ ?c => set (c4 := c) in R4; assert (A : snd c4 0%nat = Done true) by (vm_compute; reflexivity) end.
  destruct c4 as [s f].
  exists (s, f). split; [exact R4|]. split; [exact A|]. intros B. cbn [snd] in A, B.
  discriminate (@tickets_accepted_once toy_crates toy_sm3 toy_postcard _ _ sql_laws _ _ sql_durable s0 s f 0 1 R4 A B eq_refl).
Defined.
