(* ===== verification/TlsRecord.v ===== *)
(** The TLS 1.3 record layer (gm-tls/src/record_layer.rs, [GmTlsStream]):
    SM4-GCM records with inner content types, the nonce cache, KeyUpdate in both
    directions, and the async read, write and close operations over a transport.

    The set of used nonces is a [gset]. A record that [read_application_data]
    processes before it reads the next one is a turn of a loop with fuel, [None]
    when it runs out. The kind of a transport error is read off its text by an
    argument where the code looks at it. Log and metrics calls are left out; the
    counter of key updates wraps. *)

From Stdlib Require Import String Bool ZArith Lia List.
From stdpp Require Import base gmap list fin_sets.
From S2P Require Import Prelude Bytes Effects Sm4 Sm3 TlsKeys.
Import ListNotations.
Open Scope Z_scope.

Definition RECORD_TYPE_APPLICATION_DATA : Z := 0x17.
Definition INNER_CONTENT_TYPE_APPLICATION_DATA : Z := 0x17.
Definition INNER_CONTENT_TYPE_HANDSHAKE : Z := 0x16.
Definition INNER_CONTENT_TYPE_ALERT : Z := 0x15.
Definition MAX_RECORD_SIZE : Z := 24 * 1024.

(** ** State *)

Record ReadState : Type := {
  header : bytes;
  header_filled : Z;
  ct_len : Z;
  body : bytes;
  body_filled : Z
}.

(** [ReadState::default], and the state [reset] leaves. *)
Definition read_state_reset : ReadState :=
  {| header := repeat 0 5; header_filled := 0; ct_len := 0; body := []; body_filled := 0 |}.

Record GmTlsStream (T : Type) : Type := {
  inner : T;
  write_key : bytes;
  read_key : bytes;
  write_nonce : bytes;
  read_nonce : bytes;
  write_seq : Z;
  read_seq : Z;
  read_buf : bytes;
  read_buf_pos : Z;
  read_state : ReadState;
  peer_cert_pem : option bytes;
  alpn : option string;
  cipher_enc : option Sm4Cipher;
  cipher_dec : option Sm4Cipher;
  close_notify_sent : bool;
  version : bytes;
  write_traffic_secret : option bytes;
  read_traffic_secret : option bytes;
  key_update_pending : bool;
  key_update_count : Z;
  used_write_nonces : gset bytes;
  nonce_eviction_queue : list bytes
}.
Arguments inner {T}. Arguments write_key {T}. Arguments read_key {T}. Arguments write_nonce {T}. Arguments read_nonce {T}.
Arguments write_seq {T}. Arguments read_seq {T}. Arguments read_buf {T}. Arguments read_buf_pos {T}.
Arguments read_state {T}. Arguments peer_cert_pem {T}. Arguments alpn {T}. Arguments cipher_enc {T}. Arguments cipher_dec {T}.
Arguments close_notify_sent {T}. Arguments version {T}. Arguments write_traffic_secret {T}. Arguments read_traffic_secret {T}.
Arguments key_update_pending {T}. Arguments key_update_count {T}. Arguments used_write_nonces {T}.
Arguments nonce_eviction_queue {T}.

(** [next_nonce] of this stack, with its own error type. *)
Definition next_nonce (base : bytes) (seq : Z) : outcome TlsError bytes :=
  if seq =? u64_max then Err SequenceOverflow
  else
    let ctr_bytes := be_bytes 8 seq in
    let nonce := firstn 4 base ++ xor_bytes (skipn 4 base) ctr_bytes in
    if negb (seq =? 0) && bytes_eqb nonce base then Err SequenceOverflow else Ok nonce.

Definition MAX_NONCE_CACHE : Z := 1000000.
Definition NONCE_EVICT_BATCH : Z := 100000.

Section Stream.
Context {T : Type}.
Local Abbreviation stream := (GmTlsStream T).

Definition with_version (t : T) (keys : SessionKeys) (is_client : bool) (peer_cert_pem : option bytes)
    (alpn : option string) (version : bytes) : stream :=
  let '(wk, wn, rk, rn) :=
    if is_client then (client_key keys, client_nonce keys, server_key keys, server_nonce keys)
    else (server_key keys, server_nonce keys, client_key keys, client_nonce keys) in
  {| inner := t; write_key := wk; read_key := rk; write_nonce := wn; read_nonce := rn; write_seq := 0; read_seq := 0;
     read_buf := []; read_buf_pos := 0; read_state := read_state_reset; peer_cert_pem := peer_cert_pem; alpn := alpn;
     cipher_enc := None; cipher_dec := None; close_notify_sent := false; version := version;
     write_traffic_secret := None; read_traffic_secret := None; key_update_pending := false; key_update_count := 0;
     used_write_nonces := ∅; nonce_eviction_queue := [] |}.

Definition stream_new (t : T) (keys : SessionKeys) (is_client : bool) (peer_cert_pem : option bytes)
    (alpn : option string) : stream :=
  with_version t keys is_client peer_cert_pem alpn [0x03; 0x03].

(** *** Assignments *)

(** The write direction: key, nonce, sequence number, cipher, secret, nonce cache. *)
Definition set_write (s : stream) (k n : bytes) (q : Z) (c : option Sm4Cipher) (ts : option bytes) (used : gset bytes)
    (queue : list bytes) : stream :=
  {| inner := inner s; write_key := k; read_key := read_key s; write_nonce := n; read_nonce := read_nonce s;
     write_seq := q; read_seq := read_seq s; read_buf := read_buf s; read_buf_pos := read_buf_pos s;
     read_state := read_state s; peer_cert_pem := peer_cert_pem s; alpn := alpn s; cipher_enc := c;
     cipher_dec := cipher_dec s; close_notify_sent := close_notify_sent s; version := version s;
     write_traffic_secret := ts; read_traffic_secret := read_traffic_secret s; key_update_pending := key_update_pending s;
     key_update_count := key_update_count s; used_write_nonces := used; nonce_eviction_queue := queue |}.

(** The read direction. *)
Definition set_read (s : stream) (k n : bytes) (q : Z) (c : option Sm4Cipher) (ts : option bytes) : stream :=
  {| inner := inner s; write_key := write_key s; read_key := k; write_nonce := write_nonce s; read_nonce := n;
     write_seq := write_seq s; read_seq := q; read_buf := read_buf s; read_buf_pos := read_buf_pos s;
     read_state := read_state s; peer_cert_pem := peer_cert_pem s; alpn := alpn s; cipher_enc := cipher_enc s;
     cipher_dec := c; close_notify_sent := close_notify_sent s; version := version s;
     write_traffic_secret := write_traffic_secret s; read_traffic_secret := ts;
     key_update_pending := key_update_pending s; key_update_count := key_update_count s;
     used_write_nonces := used_write_nonces s; nonce_eviction_queue := nonce_eviction_queue s |}.

(** The rest: transport, read buffer, partial record, flags and counter. *)
Definition set_rest (s : stream) (t : T) (buf : bytes) (pos : Z) (rs : ReadState) (closed pending : bool) (count : Z) : stream :=
  {| inner := t; write_key := write_key s; read_key := read_key s; write_nonce := write_nonce s;
     read_nonce := read_nonce s; write_seq := write_seq s; read_seq := read_seq s; read_buf := buf; read_buf_pos := pos;
     read_state := rs; peer_cert_pem := peer_cert_pem s; alpn := alpn s; cipher_enc := cipher_enc s;
     cipher_dec := cipher_dec s; close_notify_sent := closed; version := version s;
     write_traffic_secret := write_traffic_secret s; read_traffic_secret := read_traffic_secret s;
     key_update_pending := pending; key_update_count := count;
     used_write_nonces := used_write_nonces s; nonce_eviction_queue := nonce_eviction_queue s |}.

Definition set_inner (t : T) (s : stream) : stream :=
  set_rest s t (read_buf s) (read_buf_pos s) (read_state s) (close_notify_sent s) (key_update_pending s) (key_update_count s).
Definition set_closed (s : stream) : stream :=
  set_rest s (inner s) (read_buf s) (read_buf_pos s) (read_state s) true (key_update_pending s) (key_update_count s).
Definition set_pending (b : bool) (s : stream) : stream :=
  set_rest s (inner s) (read_buf s) (read_buf_pos s) (read_state s) (close_notify_sent s) b (key_update_count s).
Definition count_update (s : stream) : stream :=
  set_rest s (inner s) (read_buf s) (read_buf_pos s) (read_state s) (close_notify_sent s) (key_update_pending s)
    ((key_update_count s + 1) mod 2 ^ 64).
Definition set_write_seq (q : Z) (s : stream) : stream :=
  set_write s (write_key s) (write_nonce s) q (cipher_enc s) (write_traffic_secret s) (used_write_nonces s) (nonce_eviction_queue s).
Definition set_cipher_enc (c : Sm4Cipher) (s : stream) : stream :=
  set_write s (write_key s) (write_nonce s) (write_seq s) (Some c) (write_traffic_secret s) (used_write_nonces s)
    (nonce_eviction_queue s).
Definition set_nonces (used : gset bytes) (queue : list bytes) (s : stream) : stream :=
  set_write s (write_key s) (write_nonce s) (write_seq s) (cipher_enc s) (write_traffic_secret s) used queue.
Definition set_read_seq (q : Z) (s : stream) : stream :=
  set_read s (read_key s) (read_nonce s) q (cipher_dec s) (read_traffic_secret s).
Definition set_cipher_dec (c : Sm4Cipher) (s : stream) : stream :=
  set_read s (read_key s) (read_nonce s) (read_seq s) (Some c) (read_traffic_secret s).

Definition set_traffic_secrets (write_secret read_secret : bytes) (s : stream) : stream :=
  let s := set_write s (write_key s) (write_nonce s) (write_seq s) (cipher_enc s) (Some write_secret) (used_write_nonces s)
             (nonce_eviction_queue s) in
  set_read s (read_key s) (read_nonce s) (read_seq s) (cipher_dec s) (Some read_secret).

Definition should_update_key (s : stream) : bool := KEY_UPDATE_THRESHOLD <=? write_seq s.
Definition is_key_exhausted (s : stream) : bool := GCM_CONFIDENTIALITY_LIMIT <=? write_seq s.

(** *** Ciphers *)

Definition key_error (e : CryptoError) : TlsError := CipherError ("SM4 key: " +++ debug_crypto e)%string.

Definition get_cipher_enc : M stream TlsError Sm4Cipher := fun s =>
  match cipher_enc s with
  | Some c => (s, Ok c)
  | None =>
      match Sm4Cipher_new (write_key s) with
      | Ok c => (set_cipher_enc c s, Ok c)
      | Err e => (s, Err (key_error e))
      | Panic => (s, Panic)
      end
  end.

Definition get_cipher_dec : M stream TlsError Sm4Cipher := fun s =>
  match cipher_dec s with
  | Some c => (s, Ok c)
  | None =>
      match Sm4Cipher_new (read_key s) with
      | Ok c => (set_cipher_dec c s, Ok c)
      | Err e => (s, Err (key_error e))
      | Panic => (s, Panic)
      end
  end.

(** *** The nonce cache *)

(** [for _ in 0..NONCE_EVICT_BATCH { if let Some(old) = queue.pop_front() { used.remove(&old); } }] *)
Fixpoint evict (n : nat) (used : gset bytes) (queue : list bytes) : gset bytes * list bytes :=
  match n with
  | O => (used, queue)
  | S n => match queue with [] => evict n used [] | old :: queue => evict n (used ∖ {[old]}) queue end
  end.

Definition check_and_record_nonce (nonce : bytes) : M stream TlsError unit := fun s =>
  let '(used, queue) :=
    if MAX_NONCE_CACHE <? Z.of_nat (size (used_write_nonces s))
    then evict (Z.to_nat NONCE_EVICT_BATCH) (used_write_nonces s) (nonce_eviction_queue s)
    else (used_write_nonces s, nonce_eviction_queue s) in
  let queue := queue ++ [nonce] in
  if bool_decide (nonce ∈ used) then (set_nonces used queue s, Err NonceReuse)
  else (set_nonces ({[nonce]} ∪ used) queue s, Ok tt).

(** *** Key rotation *)

Definition some_or {A : Type} (o : option A) (e : TlsError) : outcome TlsError A :=
  match o with Some a => Ok a | None => Err e end.

Context {H : Sm3Crate}.

Definition rotate_write_key : M stream TlsError unit :=
  secret <-- gets write_traffic_secret ;;;
  old <-- lift (some_or secret (HandshakeFailed "cannot perform KeyUpdate: write traffic secret not set")) ;;;
  new_secret <-- lift (update_traffic_secret old) ;;;
  kn <-- lift (derive_key_and_nonce new_secret) ;;;
  modify (fun s => set_write s (fst kn) (snd kn) 0 None (Some new_secret) ∅ []) ;;;
  modify count_update.

Definition rotate_read_key : M stream TlsError unit :=
  secret <-- gets read_traffic_secret ;;;
  old <-- lift (some_or secret (HandshakeFailed "cannot process KeyUpdate: read traffic secret not set")) ;;;
  new_secret <-- lift (update_traffic_secret old) ;;;
  kn <-- lift (derive_key_and_nonce new_secret) ;;;
  modify (fun s => set_read s (fst kn) (snd kn) 0 None (Some new_secret)) ;;;
  modify count_update.

(** ** Writing *)

Context {C : Sm4Crates} {TT : Transport T}.

Definition on_inner {A : Type} (m : M T string A) : M stream TlsError A := fun s =>
  let '(t, o) := m (inner s) in (set_inner t s, map_err IoError o).

Definition bump_write_seq : M stream TlsError unit := fun s =>
  if write_seq s =? u64_max then (s, Err SequenceOverflow) else (set_write_seq (write_seq s + 1) s, Ok tt).

Definition record_header (version : bytes) (inner_len : Z) : bytes :=
  RECORD_TYPE_APPLICATION_DATA :: version ++ be_bytes 2 (as_u16 (inner_len + 16)).

(** What [write_handshake_record], [write_application_data] and [close] have in
    common: nonce, sequence number, sealing and the five writes. *)
Definition write_sealed (what : string) (content : bytes) : M stream TlsError unit :=
  base <-- gets write_nonce ;;;
  seq <-- gets write_seq ;;;
  nonce <-- lift (next_nonce base seq) ;;;
  check_and_record_nonce nonce ;;;
  let seq_bytes := be_bytes 8 seq in
  bump_write_seq ;;;
  version_bytes <-- gets version ;;;
  cipher <-- get_cipher_enc ;;;
  let ct_len := be_bytes 2 (as_u16 (len content + 16)) in
  let aad := seq_bytes ++ record_header version_bytes (len content) in
  sealed <-- lift (map_err (fun e => CipherError (what +++ " encrypt: " +++ debug_crypto e)%string)
                (encrypt_gcm cipher content nonce aad)) ;;;
  on_inner (write_all [RECORD_TYPE_APPLICATION_DATA]) ;;;
  on_inner (write_all version_bytes) ;;;
  on_inner (write_all ct_len) ;;;
  on_inner (write_all (fst sealed)) ;;;
  on_inner (write_all (snd sealed)) ;;;
  on_inner flush.

Definition write_handshake_record (msg : bytes) : M stream TlsError unit :=
  write_sealed "KeyUpdate" (msg ++ [INNER_CONTENT_TYPE_HANDSHAKE]).

Definition send_key_update (request_peer_update : bool) : M stream TlsError unit :=
  let ku := KeyUpdate_new (if request_peer_update then UpdateRequested else UpdateNotRequested) in
  let body := key_update_to_bytes ku in
  let handshake_msg := [0x18] ++ skipn 1 (be_bytes 4 (len body)) ++ body in
  write_handshake_record handshake_msg ;;;
  rotate_write_key.

Definition flush_pending_key_update : M stream TlsError unit := fun s =>
  if key_update_pending s then send_key_update false (set_pending false s) else (s, Ok tt).

Definition exhausted_error : TlsError :=
  HandshakeFailed "GCM confidentiality limit reached: sequence number exhausted, KeyUpdate required but no traffic secret available".

Definition write_application_data (plaintext : bytes) : M stream TlsError unit :=
  flush_pending_key_update ;;;
  exhausted <-- gets is_key_exhausted ;;;
  failIf exhausted exhausted_error ;;;
  update <-- gets should_update_key ;;;
  secret <-- gets write_traffic_secret ;;;
  (if update && match secret with Some _ => true | None => false end then send_key_update false else ret tt) ;;;
  write_sealed "GCM" (plaintext ++ [INNER_CONTENT_TYPE_APPLICATION_DATA]).

Definition close : M stream TlsError unit :=
  closed <-- gets close_notify_sent ;;;
  if closed : bool then ret tt
  else
    write_sealed "close_notify" [0x01; 0x00; INNER_CONTENT_TYPE_ALERT] ;;;
    modify set_closed.

(** ** Reading *)

Definition bump_read_seq : M stream TlsError unit := fun s =>
  if read_seq s =? u64_max then (s, Err SequenceOverflow) else (set_read_seq (read_seq s + 1) s, Ok tt).

(** From the header on: the checks, the body, and its decryption. *)
Definition read_protected (what decrypt : string) (header : bytes) : M stream TlsError bytes :=
  h0 <-- lift (index header 0) ;;;
  failIf (negb (h0 =? RECORD_TYPE_APPLICATION_DATA))
    (TlsRecordError ("expected application_data record 0x17, got 0x" +++ hex02 h0)%string) ;;;
  l0 <-- lift (index header 3) ;;;
  l1 <-- lift (index header 4) ;;;
  let ct_len := from_be [l0; l1] in
  failIf (ct_len <? 16) (HandshakeFailed (what +++ "record too short")%string) ;;;
  failIf (MAX_RECORD_SIZE <? ct_len) (HandshakeFailed (what +++ "record exceeds size limit")%string) ;;;
  buf <-- on_inner (read_exact ct_len) ;;;
  n <-- lift (usize_sub ct_len 16) ;;;
  ciphertext <-- lift (slice_to buf n) ;;;
  tag <-- lift (slice_from buf n) ;;;
  base <-- gets read_nonce ;;;
  seq <-- gets read_seq ;;;
  nonce <-- lift (next_nonce base seq) ;;;
  let seq_bytes := be_bytes 8 seq in
  bump_read_seq ;;;
  let aad := seq_bytes ++ header in
  cipher <-- get_cipher_dec ;;;
  lift (map_err (fun e => CipherError (decrypt +++ debug_crypto e)%string) (decrypt_gcm cipher ciphertext nonce aad tag)).

Definition process_key_update (r : KeyUpdateRequest) : M stream TlsError bool :=
  rotate_read_key ;;;
  match r with
  | UpdateRequested => modify (set_pending true) ;;; ret true
  | UpdateNotRequested => ret false
  end.

Definition process_inner_handshake (msg : bytes) : M stream TlsError unit :=
  failIf (len msg <? 4) (InvalidMessage "handshake message too short") ;;;
  handshake_type <-- lift (index msg 0) ;;;
  m1 <-- lift (index msg 1) ;;;
  m2 <-- lift (index msg 2) ;;;
  m3 <-- lift (index msg 3) ;;;
  let handshake_len := Z.lor (Z.lor (Z.shiftl m1 16) (Z.shiftl m2 8)) m3 in
  failIf (len msg <? 4 + handshake_len)
    (InvalidMessage ("handshake message truncated: expected " +++ dec handshake_len +++ " bytes, got " +++ dec (len msg - 4))%string) ;;;
  body <-- lift (slice msg 4 (4 + handshake_len)) ;;;
  if handshake_type =? 0x18 then
    ku <-- lift (key_update_from_bytes body) ;;;
    process_key_update (update_requested ku) ;;;
    ret tt
  else if handshake_type =? 0x04 then ret tt
  else fail (InvalidHandshakeType handshake_type).

Definition empty_record_error : TlsError := InvalidMessage "decrypted record is empty (missing inner content type)".

(** One record: [Some] data to return, or [None] after a handshake message. *)
Definition read_record : M stream TlsError (option bytes) :=
  header <-- on_inner (read_exact 5) ;;;
  plaintext <-- read_protected "" "GCM decrypt: " header ;;;
  failIf (len plaintext =? 0) empty_record_error ;;;
  inner_content_type <-- lift (index plaintext (len plaintext - 1)) ;;;
  let plaintext := removelast plaintext in
  if inner_content_type =? INNER_CONTENT_TYPE_APPLICATION_DATA then ret (Some plaintext)
  else if inner_content_type =? INNER_CONTENT_TYPE_HANDSHAKE then process_inner_handshake plaintext ;;; ret None
  else fail (InvalidMessage ("unknown inner content type: 0x" +++ hex02 inner_content_type)%string).

(** [None] when the fuel runs out. *)
Fixpoint read_application_data (fuel : nat) : M stream TlsError (option bytes) :=
  match fuel with
  | O => ret None
  | S fuel =>
      r <-- read_record ;;;
      match r with
      | Some plaintext => ret (Some plaintext)
      | None => read_application_data fuel
      end
  end.

(** [is_eof]: the error is of kind [UnexpectedEof]. *)
Definition recv_close_notify (is_eof : string -> bool) : M stream TlsError bool := fun s =>
  let '(t, o) := read_exact 5 (inner s) in
  match o with
  | Ok header =>
      (_ <-- read_protected "close_notify " "close_notify decrypt: " header ;;; ret true) (set_inner t s)
  | Err e => if is_eof e then (set_inner t s, Ok false) else (set_inner t s, Err (IoError e))
  | Panic => (set_inner t s, Panic)
  end.
End Stream.

(** ** Directions *)

(** What one end needs to write, and its peer to read. *)
Record direction : Type := { d_key : bytes; d_nonce : bytes; d_seq : Z; d_secret : option bytes }.

Definition wdir {T : Type} (s : GmTlsStream T) : direction :=
  {| d_key := write_key s; d_nonce := write_nonce s; d_seq := write_seq s; d_secret := write_traffic_secret s |}.
Definition rdir {T : Type} (s : GmTlsStream T) : direction :=
  {| d_key := read_key s; d_nonce := read_nonce s; d_seq := read_seq s; d_secret := read_traffic_secret s |}.

Definition bump (d : direction) : direction :=
  {| d_key := d_key d; d_nonce := d_nonce d; d_seq := d_seq d + 1; d_secret := d_secret d |}.

(** The direction after a KeyUpdate from the traffic secret [x]. *)
Definition rekeyed {H : Sm3Crate} (x : bytes) : direction :=
  let x' := next_secret x in
  {| d_key := traffic_key x'; d_nonce := traffic_nonce x'; d_seq := 0; d_secret := Some x' |}.

Record dir_ok (d : direction) : Prop := {
  ok_key : len (d_key d) = 16;
  ok_nonce : len (d_nonce d) = 12 /\ wf_bytes (d_nonce d) = true;
  ok_seq : 0 <= d_seq d <= u64_max;
  ok_secret : match d_secret d with Some x => len x = 32 | None => True end
}.

Lemma bump_ok d : dir_ok d -> d_seq d < u64_max -> dir_ok (bump d).
Proof. intros [] B. constructor; cbn; assumption || lia. Qed.

Lemma rekeyed_ok {H : Sm3Crate} {L : Sm3Laws H} x : dir_ok (rekeyed x).
Proof.
  destruct (traffic_shapes (next_secret x)) as (A & B & D & _). destruct (traffic_shapes x) as (_ & _ & _ & E).
  constructor; cbn; auto. unfold u64_max. lia.
Qed.

(** The record of [content] at the state [d] of a direction. *)
Definition emit {C : Sm4Crates} (d : direction) (v content : bytes) : bytes :=
  match encrypt_gcm (key_cipher (d_key d)) content (seq_nonce (d_nonce d) (d_seq d))
          (be_bytes 8 (d_seq d) ++ record_header v (len content)) with
  | Ok (ct, tag) => record_header v (len content) ++ ct ++ tag
  | _ => []
  end.

Lemma emit_spec {C : Sm4Crates} {LC : Sm4Laws C} d v content : dir_ok d -> exists ct tag,
  encrypt_gcm (key_cipher (d_key d)) content (seq_nonce (d_nonce d) (d_seq d))
    (be_bytes 8 (d_seq d) ++ record_header v (len content)) = Ok (ct, tag) /\
  emit d v content = record_header v (len content) ++ ct ++ tag /\ len ct = len content /\ len tag = 16 /\
  decrypt_gcm (key_cipher (d_key d)) ct (seq_nonce (d_nonce d) (d_seq d))
    (be_bytes 8 (d_seq d) ++ record_header v (len content)) tag = Ok content.
Proof.
  intros D. destruct (ok_nonce d D) as [Ln Wn]. destruct (seq_nonce_shape (d_nonce d) (d_seq d) Ln Wn) as [L W].
  destruct (gcm_roundtrip (key_cipher (d_key d)) content _ (be_bytes 8 (d_seq d) ++ record_header v (len content)) L W)
    as (ct & tag & E & Lc & Lt & Dc).
  exists ct, tag. unfold emit. rewrite E. auto.
Qed.

(** ** Writing *)

Lemma tls_next_nonce_ok base seq : len base = 12 -> 0 <= seq < u64_max -> next_nonce base seq = Ok (seq_nonce base seq).
Proof.
  intros L B. unfold next_nonce. destruct (Z.eqb_spec seq u64_max); [lia|].
  destruct (Z.eqb_spec seq 0) as [->|NZ]; [reflexivity|]. cbn [negb andb].
  destruct (bytes_eqb _ base) eqn:E; [exfalso|reflexivity]. apply bytes_eqb_eq in E. apply NZ.
  apply (seq_nonce_inj base); unfold u64_max in B; try lia. now rewrite seq_nonce_0.
Qed.

Definition version_ok (v : bytes) : Prop := len v = 2 /\ wf_bytes v = true.

Record stream_inv {T : Type} (s : GmTlsStream T) : Prop := {
  inv_write : dir_ok (wdir s);
  inv_read : dir_ok (rdir s);
  inv_cipher_enc : cache_ok (write_key s) (cipher_enc s);
  inv_cipher_dec : cache_ok (read_key s) (cipher_dec s);
  inv_version : version_ok (version s);
  inv_nonces : forall n, n ∈ used_write_nonces s -> exists i, 0 <= i < write_seq s /\ n = seq_nonce (write_nonce s) i
}.

(** [s'] differs from [s] only in its transport and its write direction. *)
Definition write_only {T : Type} (s s' : GmTlsStream T) : Prop :=
  rdir s' = rdir s /\ cipher_dec s' = cipher_dec s /\ version s' = version s /\ read_buf s' = read_buf s /\
  read_buf_pos s' = read_buf_pos s /\ read_state s' = read_state s /\ close_notify_sent s' = close_notify_sent s.

Lemma write_only_refl {T : Type} (s : GmTlsStream T) : write_only s s.
Proof. unfold write_only. auto 8. Qed.

Lemma write_only_trans {T : Type} (a b c : GmTlsStream T) : write_only a b -> write_only b c -> write_only a c.
Proof. unfold write_only. intuition congruence. Qed.

Lemma evict_subset n : forall used queue, fst (evict n used queue) ⊆ used.
Proof.
  induction n as [|n IH]; intros used [|old queue]; cbn [evict fst]; [reflexivity..|apply IH|].
  etransitivity; [apply IH|set_solver].
Qed.

Section WriteLemmas.
Context {T : Type} {H : Sm3Crate} {LH : Sm3Laws H} {C : Sm4Crates} {LC : Sm4Laws C} {TT : Transport T} {LT : TransportLaws TT}.
Local Abbreviation stream := (GmTlsStream T).

(** [s'] has sent [b] more. *)
Definition sends (s s' : stream) (b : bytes) : Prop :=
  sent (inner s') = sent (inner s) ++ b /\ unread (inner s') = unread (inner s).

Lemma sends_trans a b c x y : sends a b x -> sends b c y -> sends a c (x ++ y).
Proof. intros [S1 U1] [S2 U2]. split; [now rewrite S2, S1, app_assoc|congruence]. Qed.

(** The cache never reports a nonce as used: it holds only nonces of smaller
    sequence numbers under the same base. *)
Lemma check_nonce_ok (s : stream) : stream_inv s -> write_seq s < u64_max -> exists used queue,
  check_and_record_nonce (seq_nonce (write_nonce s) (write_seq s)) s = (set_nonces used queue s, Ok tt) /\
  forall n, n ∈ used -> exists i, 0 <= i < write_seq s + 1 /\ n = seq_nonce (write_nonce s) i.
Proof.
  intros I B. pose proof (ok_seq _ (inv_write s I)) as Q. cbn in Q. destruct (ok_nonce _ (inv_write s I)) as [Ln _]. cbn in Ln.
  unfold check_and_record_nonce.
  set (uq := if _ <? _ then _ else _). assert (Sub : fst uq ⊆ used_write_nonces s).
  { unfold uq. destruct (_ <? _); [apply evict_subset|set_solver]. }
  destruct uq as [used queue]. cbn [fst] in Sub. rewrite bool_decide_eq_false_2.
  2: { intros X%Sub. apply (inv_nonces s I) in X as (i & Bi & E). apply seq_nonce_inj in E; unfold u64_max in *; lia. }
  do 2 eexists. split; [reflexivity|]. intros n [->%elem_of_singleton|X%Sub]%elem_of_union.
  - exists (write_seq s). split; [lia|reflexivity].
  - apply (inv_nonces s I) in X as (i & Bi & E). exists i. split; [lia|exact E].
Qed.

Lemma get_cipher_enc_tls (s : stream) : len (write_key s) = 16 -> cache_ok (write_key s) (cipher_enc s) ->
  get_cipher_enc s = (set_cipher_enc (key_cipher (write_key s)) s, Ok (key_cipher (write_key s))).
Proof.
  intros L I. unfold get_cipher_enc, Sm4Cipher_new, SM4_KEY_LENGTH. rewrite L.
  destruct I as [->|E]; [reflexivity|]. rewrite E. f_equal. destruct s; cbn in E. now subst.
Qed.

Lemma get_cipher_dec_tls (s : stream) : len (read_key s) = 16 -> cache_ok (read_key s) (cipher_dec s) ->
  get_cipher_dec s = (set_cipher_dec (key_cipher (read_key s)) s, Ok (key_cipher (read_key s))).
Proof.
  intros L I. unfold get_cipher_dec, Sm4Cipher_new, SM4_KEY_LENGTH. rewrite L.
  destruct I as [->|E]; [reflexivity|]. rewrite E. f_equal. destruct s; cbn in E. now subst.
Qed.

Lemma tls_on_write b (s : stream) : exists t', on_inner (write_all b) s = (set_inner t' s, Ok tt) /\
  sent t' = sent (inner s) ++ b /\ unread t' = unread (inner s).
Proof. destruct (write_all_law b (inner s)) as (t' & E & S & U). exists t'. unfold on_inner. rewrite E. auto. Qed.

Lemma tls_on_flush (s : stream) : exists t', on_inner flush s = (set_inner t' s, Ok tt) /\
  sent t' = sent (inner s) /\ unread t' = unread (inner s).
Proof. destruct (flush_law (inner s)) as (t' & E & S & U). exists t'. unfold on_inner. rewrite E. auto. Qed.

(** The five writes and the flush put the pieces on the transport in order. *)
Lemma five_writes a b c d e (s : stream) : exists t',
  (on_inner (write_all a) ;;; on_inner (write_all b) ;;; on_inner (write_all c) ;;; on_inner (write_all d) ;;;
   on_inner (write_all e) ;;; on_inner flush)%rust s = (set_inner t' s, Ok tt) /\
  sent t' = sent (inner s) ++ a ++ b ++ c ++ d ++ e /\ unread t' = unread (inner s).
Proof.
  destruct (tls_on_write a s) as (t1 & E1 & S1 & U1). rewrite (bind_ok _ _ _ _ _ E1).
  destruct (tls_on_write b (set_inner t1 s)) as (t2 & E2 & S2 & U2). rewrite (bind_ok _ _ _ _ _ E2).
  destruct (tls_on_write c (set_inner t2 (set_inner t1 s))) as (t3 & E3 & S3 & U3). rewrite (bind_ok _ _ _ _ _ E3).
  set (s3 := set_inner t3 _). destruct (tls_on_write d s3) as (t4 & E4 & S4 & U4). rewrite (bind_ok _ _ _ _ _ E4).
  destruct (tls_on_write e (set_inner t4 s3)) as (t5 & E5 & S5 & U5). rewrite (bind_ok _ _ _ _ _ E5).
  destruct (tls_on_flush (set_inner t5 (set_inner t4 s3))) as (t6 & E6 & S6 & U6). rewrite E6. exists t6.
  cbn in S2, S3, S4, S5, S6, U2, U3, U4, U5, U6. split; [reflexivity|].
  split; [rewrite S6, S5, S4, S3, S2, S1, <- !app_assoc; reflexivity|congruence].
Qed.

Lemma write_sealed_ok what content (s : stream) : stream_inv s -> write_seq s < u64_max -> exists s',
  write_sealed what content s = (s', Ok tt) /\ stream_inv s' /\ wdir s' = bump (wdir s) /\ write_only s s' /\
  key_update_pending s' = key_update_pending s /\ sends s s' (emit (wdir s) (version s) content).
Proof.
  intros I B. pose proof (inv_write s I) as Dw. pose proof (ok_seq _ Dw) as Q. destruct (ok_nonce _ Dw) as [Ln Wn]. cbn in Q, Ln, Wn.
  unfold write_sealed. rewrite !bind_gets, bind_lift, tls_next_nonce_ok by lia.
  destruct (check_nonce_ok s I B) as (used & queue & Ec & Iu). rewrite (bind_ok _ _ _ _ _ Ec). cbv zeta.
  set (s1 := set_nonces used queue s). assert (Eb : bump_write_seq s1 = (set_write_seq (write_seq s1 + 1) s1, Ok tt)).
  { unfold bump_write_seq. rewrite (proj2 (Z.eqb_neq _ _)); [reflexivity|cbn; lia]. }
  rewrite (bind_ok _ _ _ _ _ Eb), bind_gets. set (s2 := set_write_seq _ s1).
  rewrite (bind_ok _ _ _ _ _ (get_cipher_enc_tls s2 (ok_key _ Dw) (inv_cipher_enc s I))). set (s3 := set_cipher_enc _ s2).
  destruct (emit_spec (wdir s) (version s) content Dw) as (ct & tag & Enc & Em & _). cbn [wdir d_key d_nonce d_seq] in Enc.
  change (write_key s2) with (write_key s). change (version s2) with (version s).
  rewrite bind_lift, Enc. cbn [map_err fst snd].
  destruct (five_writes [RECORD_TYPE_APPLICATION_DATA] (version s) (be_bytes 2 (as_u16 (len content + 16))) ct tag s3)
    as (t' & E & S & U). rewrite E. exists (set_inner t' s3).
  split; [reflexivity|]. split; [|split; [reflexivity|split; [unfold write_only; auto 8|split; [reflexivity|]]]].
  - destruct I as [I1 I2 I3 I4 I5 I6]. constructor; cbn; try assumption; [apply (bump_ok (wdir s)); assumption|now right].
  - split; [|exact U]. cbn [inner set_inner set_rest]. rewrite S, Em. unfold record_header. cbn [app]. now rewrite <- !app_assoc.
Qed.

Lemma rotate_write_ok (s : stream) x : stream_inv s -> write_traffic_secret s = Some x -> exists s',
  rotate_write_key s = (s', Ok tt) /\ stream_inv s' /\ wdir s' = rekeyed x /\ write_only s s' /\
  key_update_pending s' = key_update_pending s /\ inner s' = inner s.
Proof.
  intros I Ex. pose proof (ok_secret _ (inv_write s I)) as Lx. cbn in Lx. rewrite Ex in Lx.
  unfold rotate_write_key. rewrite bind_gets, Ex, bind_lift. cbn [some_or].
  rewrite bind_lift, update_traffic_secret_ok, bind_lift, derive_key_and_nonce_ok by exact Lx.
  unfold modify, bindM. cbn [fst snd]. eexists. split; [reflexivity|].
  split; [|split; [reflexivity|split; [unfold write_only; auto 8|split; reflexivity]]].
  destruct I as [I1 I2 I3 I4 I5 I6]. constructor; cbn; try assumption; [apply rekeyed_ok|now left|].
  intros n X. exfalso. revert X. apply not_elem_of_empty.
Qed.

(** The content of a KeyUpdate record. *)
Definition update_content (request : bool) : bytes := [0x18; 0; 0; 1; if request then 1 else 0; INNER_CONTENT_TYPE_HANDSHAKE].

Lemma send_key_update_ok request (s : stream) x : stream_inv s -> write_seq s < u64_max -> write_traffic_secret s = Some x ->
  exists s', send_key_update request s = (s', Ok tt) /\ stream_inv s' /\ wdir s' = rekeyed x /\ write_only s s' /\
    key_update_pending s' = key_update_pending s /\ sends s s' (emit (wdir s) (version s) (update_content request)).
Proof.
  intros I B Ex. unfold send_key_update, write_handshake_record. cbv zeta.
  replace (_ ++ [INNER_CONTENT_TYPE_HANDSHAKE]) with (update_content request) by (now destruct request).
  destruct (write_sealed_ok "KeyUpdate" (update_content request) s I B) as (s1 & E1 & I1 & W1 & K1 & P1 & Se1).
  rewrite (bind_ok _ _ _ _ _ E1). assert (Ex1 : write_traffic_secret s1 = Some x) by (injection W1; intros; congruence).
  destruct (rotate_write_ok s1 x I1 Ex1) as (s2 & E2 & I2 & W2 & K2 & P2 & In2). exists s2. split; [exact E2|].
  split; [exact I2|]. split; [exact W2|]. split; [eapply write_only_trans; eassumption|]. split; [congruence|].
  unfold sends. rewrite In2. exact Se1.
Qed.
End WriteLemmas.

(** ** Records in flight *)

(** What one record can carry. *)
Definition payload_ok (p : bytes) : bool := (len p + 17 <=? MAX_RECORD_SIZE) && wf_bytes p.

(** [flow d w q d']: the bytes [w] are the records a writer sends from state [d]
    to state [d'] of its direction, KeyUpdates among them, and carry the payloads [q]. *)
Inductive flow {H : Sm3Crate} {C : Sm4Crates} : direction -> bytes -> list bytes -> direction -> Prop :=
| flow_nil d : flow d [] [] d
| flow_data d v p w q d' : version_ok v -> payload_ok p = true -> d_seq d < u64_max -> flow (bump d) w q d' ->
    flow d (emit d v (p ++ [INNER_CONTENT_TYPE_APPLICATION_DATA]) ++ w) (p :: q) d'
| flow_update d v r x w q d' : version_ok v -> d_seq d < u64_max -> d_secret d = Some x -> flow (rekeyed x) w q d' ->
    flow d (emit d v (update_content r) ++ w) q d'.

Lemma flow_app {H : Sm3Crate} {C : Sm4Crates} d w q d1 : flow d w q d1 -> forall w' q' d2, flow d1 w' q' d2 ->
  flow d (w ++ w') (q ++ q') d2.
Proof.
  induction 1; intros w' q' d2 F; [exact F| |]; rewrite <- app_assoc.
  - apply flow_data; auto.
  - eapply flow_update; eauto.
Qed.

Lemma flow_one_update {H : Sm3Crate} {C : Sm4Crates} d v r x : version_ok v -> d_seq d < u64_max -> d_secret d = Some x ->
  flow d (emit d v (update_content r)) [] (rekeyed x).
Proof. intros V B S. rewrite <- (app_nil_r (emit _ _ _)). eapply flow_update; eauto using flow_nil. Qed.

Lemma flow_one_data {H : Sm3Crate} {C : Sm4Crates} d v p : version_ok v -> payload_ok p = true -> d_seq d < u64_max ->
  flow d (emit d v (p ++ [INNER_CONTENT_TYPE_APPLICATION_DATA])) [p] (bump d).
Proof. intros V B S. rewrite <- (app_nil_r (emit _ _ _)). apply flow_data; auto using flow_nil. Qed.

Lemma threshold_value : KEY_UPDATE_THRESHOLD = 3435973836.
Proof. reflexivity. Qed.

(** An end that can always rekey itself. *)
Definition rekeyable {T : Type} (s : GmTlsStream T) : Prop :=
  stream_inv s /\ write_seq s <= KEY_UPDATE_THRESHOLD /\ write_traffic_secret s <> None /\ read_traffic_secret s <> None.

Section FlowWrites.
Context {T : Type} {H : Sm3Crate} {LH : Sm3Laws H} {C : Sm4Crates} {LC : Sm4Laws C} {TT : Transport T} {LT : TransportLaws TT}.
Local Abbreviation stream := (GmTlsStream T).

(** [s'] is [s] after sending the records [w], which carry [q]. *)
Definition wrote (s s' : stream) (w : bytes) (q : list bytes) : Prop :=
  rekeyable s' /\ write_only s s' /\ sends s s' w /\ flow (wdir s) w q (wdir s').

Lemma wrote_trans a b c w w' q q' : wrote a b w q -> wrote b c w' q' -> wrote a c (w ++ w') (q ++ q').
Proof.
  intros (_ & O1 & S1 & F1) (R & O2 & S2 & F2). split; [exact R|]. split; [eapply write_only_trans; eassumption|].
  split; [eapply sends_trans; eassumption|eapply flow_app; eassumption].
Qed.

Lemma wrote_refl (s : stream) : rekeyable s -> wrote s s [] [].
Proof.
  intros R. split; [exact R|]. split; [apply write_only_refl|]. split; [|apply flow_nil].
  split; [now rewrite app_nil_r|reflexivity].
Qed.

Lemma update_wrote r (s : stream) : rekeyable s -> exists s' w, send_key_update r s = (s', Ok tt) /\ wrote s s' w [] /\
  write_seq s' = 0 /\ key_update_pending s' = key_update_pending s.
Proof.
  intros (I & B & Sw & Sr). rewrite threshold_value in B. destruct (write_traffic_secret s) as [x|] eqn:Ex; [|contradiction].
  assert (Bq : write_seq s < u64_max) by (unfold u64_max; lia).
  destruct (send_key_update_ok r s x I Bq Ex) as (s' & E & I' & W & O & P & Se). exists s', (emit (wdir s) (version s) (update_content r)).
  split; [exact E|]. split; [|split; [now injection W|exact P]].
  split; [|split; [exact O|split; [exact Se|rewrite W; apply flow_one_update; auto; apply (inv_version s I)]]].
  split; [exact I'|]. injection W as _ _ Q Sx. rewrite Q, Sx. destruct O as (Rd & _). injection Rd as _ _ _ Rs.
  rewrite Rs. split; [rewrite threshold_value; lia|]. split; [discriminate|exact Sr].
Qed.

Lemma data_wrote what p (s : stream) : rekeyable s -> write_seq s < KEY_UPDATE_THRESHOLD -> payload_ok p = true ->
  exists s' w, write_sealed what (p ++ [INNER_CONTENT_TYPE_APPLICATION_DATA]) s = (s', Ok tt) /\ wrote s s' w [p] /\
    key_update_pending s' = key_update_pending s.
Proof.
  intros (I & _ & Sw & Sr) B Lp. rewrite threshold_value in B. assert (Bq : write_seq s < u64_max) by (unfold u64_max; lia).
  destruct (write_sealed_ok what (p ++ [INNER_CONTENT_TYPE_APPLICATION_DATA]) s I Bq) as (s' & E & I' & W & O & P & Se).
  do 2 eexists. split; [exact E|]. split; [|exact P].
  split; [|split; [exact O|split; [exact Se|rewrite W; apply flow_one_data; auto; apply (inv_version s I)]]].
  split; [exact I'|]. injection W as _ _ Q Sx. rewrite Q, Sx. destruct O as (Rd & _). injection Rd as _ _ _ Rs.
  rewrite Rs. split; [rewrite threshold_value; lia|]. now split.
Qed.

Lemma set_pending_rekeyable b (s : stream) : rekeyable s -> rekeyable (set_pending b s).
Proof. intros ([] & Q). split; [constructor; cbn; assumption|exact Q]. Qed.

(** A write sends at most two KeyUpdates and then its record; it cannot fail. *)
Lemma write_app_ok p (s : stream) : rekeyable s -> payload_ok p = true ->
  exists s' w, write_application_data p s = (s', Ok tt) /\ wrote s s' w [p] /\ key_update_pending s' = false.
Proof.
  intros R Lp. unfold write_application_data.
  assert (F : exists s1 w1, flush_pending_key_update s = (s1, Ok tt) /\ wrote s s1 w1 [] /\ key_update_pending s1 = false).
  { unfold flush_pending_key_update. destruct (key_update_pending s) eqn:P; [|exists s, []; auto using wrote_refl].
    destruct (update_wrote false _ (set_pending_rekeyable false s R)) as (s1 & w1 & E & Wr & _ & Pe).
    exists s1, w1. split; [exact E|]. split; [exact Wr|exact Pe]. }
  destruct F as (s1 & w1 & E1 & W1 & P1). rewrite (bind_ok _ _ _ _ _ E1). destruct W1 as [R1 W1'].
  pose proof R1 as (I1 & B1 & Sw1 & Sr1). rewrite bind_gets, bind_failIf. unfold is_key_exhausted, GCM_CONFIDENTIALITY_LIMIT.
  rewrite (proj2 (Z.leb_gt _ _)) by (rewrite threshold_value in B1; lia). rewrite !bind_gets. unfold should_update_key.
  destruct (write_traffic_secret s1) as [x|] eqn:Ex; [|contradiction]. rewrite andb_true_r.
  destruct (Z.leb_spec KEY_UPDATE_THRESHOLD (write_seq s1)) as [Le|Lt].
  - destruct (update_wrote false s1 R1) as (s2 & w2 & E2 & W2 & Q2 & P2). rewrite (bind_ok _ _ _ _ _ E2).
    destruct (data_wrote "GCM" p s2 (proj1 W2)) as (s3 & w3 & E3 & W3 & P3); [rewrite Q2; rewrite threshold_value; lia|exact Lp|].
    exists s3, (w1 ++ w2 ++ w3). split; [exact E3|]. split; [|congruence].
    apply (wrote_trans s s1 s3 w1 (w2 ++ w3) [] [p]); [now split|]. now apply (wrote_trans s1 s2 s3 w2 w3 [] [p]).
  - change (bindM (ret tt) _ s1) with (write_sealed "GCM" (p ++ [INNER_CONTENT_TYPE_APPLICATION_DATA]) s1).
    destruct (data_wrote "GCM" p s1 R1 Lt Lp) as (s3 & w3 & E3 & W3 & P3). exists s3, (w1 ++ w3). split; [exact E3|].
    split; [|congruence]. apply (wrote_trans s s1 s3 w1 w3 [] [p]); [now split|exact W3].
Qed.
End FlowWrites.

(** ** Reading *)

(** [body] is what a writer at [d] would put behind the header [hd] for [p]. *)
Definition protects {C : Sm4Crates} (d : direction) (hd body p : bytes) : Prop :=
  exists ct tag, body = ct ++ tag /\ len tag = 16 /\
    encrypt_gcm (key_cipher (d_key d)) p (seq_nonce (d_nonce d) (d_seq d)) (be_bytes 8 (d_seq d) ++ hd) = Ok (ct, tag).

Section ReadLemmas.
Context {T : Type} {H : Sm3Crate} {LH : Sm3Laws H} {C : Sm4Crates} {LC : Sm4Laws C} {TT : Transport T} {LT : TransportLaws TT}.
Local Abbreviation stream := (GmTlsStream T).

(** A step of the reader: the invariant is kept, nothing is sent, and the write
    direction, the buffers and the flag of [close] are as before. *)
Definition reads_from (s s' : stream) : Prop :=
  stream_inv s' /\ wdir s' = wdir s /\ sent (inner s') = sent (inner s) /\ read_buf s' = read_buf s /\
  read_buf_pos s' = read_buf_pos s /\ read_state s' = read_state s /\ close_notify_sent s' = close_notify_sent s.

Lemma reads_from_refl (s : stream) : stream_inv s -> reads_from s s.
Proof. unfold reads_from. auto 8. Qed.

Lemma reads_from_trans (a b c : stream) : reads_from a b -> reads_from b c -> reads_from a c.
Proof. unfold reads_from. intuition congruence. Qed.

Lemma set_inner_reads t (s : stream) : stream_inv s -> sent t = sent (inner s) -> reads_from s (set_inner t s).
Proof. intros I E. unfold reads_from. destruct I. split; [constructor; cbn; assumption|]. auto 8. Qed.

Lemma tls_on_read n (s : stream) : stream_inv s -> 0 <= n -> exists t' o, on_inner (read_exact n) s = (set_inner t' s, o) /\
  reads_from s (set_inner t' s) /\ o <> Panic /\
  (if n <=? len (unread (inner s)) then o = Ok (firstn (Z.to_nat n) (unread (inner s))) /\ unread t' = skipn (Z.to_nat n) (unread (inner s))
   else exists e, o = Err e).
Proof.
  intros I N. unfold on_inner. destruct (Z.leb_spec n (len (unread (inner s)))) as [Le|Gt].
  - destruct (read_exact_law n (inner s)) as (t' & E & U & S); [lia|]. rewrite E. do 2 eexists. split; [reflexivity|].
    split; [now apply set_inner_reads|]. split; [discriminate|]. now split.
  - destruct (read_exact_eof n (inner s) Gt) as (t' & e & E & S). rewrite E. do 2 eexists. split; [reflexivity|].
    split; [now apply set_inner_reads|]. split; [discriminate|]. cbn. eauto.
Qed.

Lemma bumped_read_inv (s : stream) c : stream_inv s -> read_seq s < u64_max -> cache_ok (read_key s) c ->
  reads_from s (set_read s (read_key s) (read_nonce s) (read_seq s + 1) c (read_traffic_secret s)).
Proof.
  intros I B K. unfold reads_from. split; [|auto 8]. destruct I as [I1 I2 I3 I4 I5 I6].
  constructor; cbn; try assumption. now apply (bump_ok (rdir s)).
Qed.

(** Decryption of a body that has been read. *)
Lemma open_spec (s : stream) hd buf (f : CryptoError -> TlsError) : stream_inv s -> 16 <= len buf -> exists s' o,
  (n <-- lift (usize_sub (len buf) 16) ;;;
   ciphertext <-- lift (slice_to buf n) ;;;
   tag <-- lift (slice_from buf n) ;;;
   base <-- gets read_nonce ;;;
   seq <-- gets read_seq ;;;
   nonce <-- lift (next_nonce base seq) ;;;
   bump_read_seq ;;;
   cipher <-- get_cipher_dec ;;;
   lift (map_err f (decrypt_gcm cipher ciphertext nonce (be_bytes 8 seq ++ hd) tag)))%rust s = (s', o) /\
  reads_from s s' /\ inner s' = inner s /\ o <> Panic /\ key_update_pending s' = key_update_pending s /\
  (read_seq s < u64_max -> rdir s' = bump (rdir s)) /\
  forall p, o = Ok p <-> (read_seq s < u64_max /\ protects (rdir s) hd buf p).
Proof.
  intros I Lb. pose proof (inv_read s I) as Dr. pose proof (ok_seq _ Dr) as Q. destruct (ok_nonce _ Dr) as [Ln Wn]. cbn in Q, Ln, Wn.
  rewrite bind_lift, usize_sub_ok, bind_lift, slice_to_ok, bind_lift, slice_from_ok, !bind_gets by lia.
  destruct (Z.eq_dec (read_seq s) u64_max) as [Eq|Ne].
  { rewrite bind_lift. unfold next_nonce. rewrite (proj2 (Z.eqb_eq _ _) Eq). do 2 eexists. split; [reflexivity|].
    split; [now apply reads_from_refl|]. do 3 (split; [discriminate || reflexivity|]). split; [lia|]. intros p. split; [discriminate|lia]. }
  rewrite bind_lift, tls_next_nonce_ok by lia.
  assert (Eb : bump_read_seq s = (set_read_seq (read_seq s + 1) s, Ok tt)).
  { unfold bump_read_seq. now rewrite (proj2 (Z.eqb_neq _ _)). }
  rewrite (bind_ok _ _ _ _ _ Eb). set (s1 := set_read_seq _ s).
  rewrite (bind_ok _ _ _ _ _ (get_cipher_dec_tls s1 (ok_key _ Dr) (inv_cipher_dec s I))). unfold lift.
  change (read_key s1) with (read_key s). set (ct := firstn _ buf). set (tag := skipn _ buf).
  set (o := decrypt_gcm _ _ _ _ _). assert (O : o <> Panic) by apply decrypt_gcm_total.
  do 2 eexists. split; [reflexivity|]. split; [exact (bumped_read_inv s (Some (key_cipher (read_key s))) I ltac:(lia) (or_intror eq_refl))|].
  split; [reflexivity|]. split; [now destruct o|]. split; [reflexivity|]. split; [reflexivity|]. intros p.
  transitivity (o = Ok p); [destruct o; cbn; split; congruence|].
  destruct (seq_nonce_shape (read_nonce s) (read_seq s) Ln Wn) as [Ls Ws]. unfold o. rewrite decrypt_gcm_iff by assumption.
  assert (Lt : len tag = 16) by (unfold tag; rewrite len_skipn by lia; lia). unfold protects. cbn [rdir d_key d_nonce d_seq]. split.
  - intros E. split; [lia|]. exists ct, tag. split; [symmetry; apply firstn_skipn|]. now split.
  - intros (_ & ct' & tag' & X & Lt' & E). rewrite <- (firstn_skipn (Z.to_nat (len buf - 16)) buf) in X. fold ct tag in X.
    assert (Lc : len ct = len ct') by (apply (f_equal len) in X; rewrite !len_app in X; lia).
    apply app_eq_app_len in X as [-> ->]; [exact E|unfold len in Lc; lia].
Qed.

(** The header fields [read_protected] accepts. *)
Definition header_ok (h0 n : Z) : Prop := h0 = RECORD_TYPE_APPLICATION_DATA /\ 16 <= n <= MAX_RECORD_SIZE.

Lemma read_protected_spec what dec (s : stream) h0 h1 h2 h3 h4 : let hd := [h0; h1; h2; h3; h4] in
  let n := from_be [h3; h4] in let u := unread (inner s) in stream_inv s -> exists s' o,
  read_protected what dec hd s = (s', o) /\ reads_from s s' /\ o <> Panic /\ key_update_pending s' = key_update_pending s /\
  (forall p, o = Ok p <-> (header_ok h0 n /\ n <= len u /\ read_seq s < u64_max /\ protects (rdir s) hd (firstn (Z.to_nat n) u) p)) /\
  (forall p, o = Ok p -> rdir s' = bump (rdir s) /\ unread (inner s') = skipn (Z.to_nat n) u).
Proof.
  intros hd n u I. unfold read_protected.
  assert (Bad : forall e, ~ (header_ok h0 n /\ n <= len u) -> exists s' o, (s, @Err TlsError bytes e) = (s', o) /\ reads_from s s' /\ o <> Panic /\
    key_update_pending s' = key_update_pending s /\
    (forall p, o = Ok p <-> (header_ok h0 n /\ n <= len u /\ read_seq s < u64_max /\ protects (rdir s) hd (firstn (Z.to_nat n) u) p)) /\
    (forall p, o = Ok p -> rdir s' = bump (rdir s) /\ unread (inner s') = skipn (Z.to_nat n) u)).
  { intros e N. do 2 eexists. split; [reflexivity|]. split; [now apply reads_from_refl|]. split; [discriminate|].
    split; [reflexivity|]. split; [intros p; split; [discriminate|]; intros (X & Y & _); now destruct N|discriminate]. }
  change (bindM (lift (index hd 0)) ?k s) with (k h0 s). cbv beta. rewrite bind_failIf.
  destruct (Z.eqb_spec h0 RECORD_TYPE_APPLICATION_DATA) as [E0|N0]; cbn [negb]; [|apply Bad; unfold header_ok; tauto].
  change (bindM (lift (index hd 3)) ?k s) with (k h3 s). cbv beta.
  change (bindM (lift (index hd 4)) ?k s) with (k h4 s). cbv beta zeta. fold n. rewrite !bind_failIf.
  destruct (Z.ltb_spec n 16) as [Lt|Ge]; [apply Bad; unfold header_ok; lia|].
  destruct (Z.ltb_spec MAX_RECORD_SIZE n) as [Gt|Le]; [apply Bad; unfold header_ok; lia|].
  destruct (tls_on_read n s I) as (t' & o & Er & Rf & Np & Cs); [lia|]. fold u in Cs.
  destruct (Z.leb_spec n (len u)) as [Ln|Ln].
  2: { destruct Cs as [e ->]. rewrite (bind_err _ _ _ _ _ Er). do 2 eexists. split; [reflexivity|]. split; [exact Rf|].
       split; [discriminate|]. split; [reflexivity|]. split; [intros p; split; [discriminate|lia]|discriminate]. }
  destruct Cs as [-> Ut]. rewrite (bind_ok _ _ _ _ _ Er). set (buf := firstn _ u).
  assert (Lb : len buf = n) by (apply len_firstn; lia).
  destruct (open_spec (set_inner t' s) hd buf (fun e => CipherError (dec +++ debug_crypto e)%string%rust)) as (s' & o & E & Rf' & Ii & Np' & Pe & Bu & Iff);
    [apply Rf|lia|]. rewrite Lb in E. exists s', o. split; [exact E|]. split; [eapply reads_from_trans; eassumption|]. split; [exact Np'|].
  split; [exact Pe|]. split.
  - intros p. rewrite Iff. unfold header_ok. intuition lia.
  - intros p Ok'. apply Iff in Ok' as [B _]. rewrite Ii. split; [exact (Bu B)|exact Ut].
Qed.

Lemma rotate_read_spec (s : stream) : stream_inv s -> exists s' o, rotate_read_key s = (s', o) /\ reads_from s s' /\
  inner s' = inner s /\ key_update_pending s' = key_update_pending s /\
  match read_traffic_secret s with
  | Some x => o = Ok tt /\ rdir s' = rekeyed x
  | None => exists e, o = Err e /\ rdir s' = rdir s
  end.
Proof.
  intros I. unfold rotate_read_key. rewrite bind_gets. pose proof (ok_secret _ (inv_read s I)) as Lx. cbn in Lx.
  destruct (read_traffic_secret s) as [x|].
  - rewrite !bind_lift. cbn [some_or]. rewrite update_traffic_secret_ok, bind_lift, derive_key_and_nonce_ok by exact Lx.
    unfold modify, bindM. cbn [fst snd]. do 2 eexists. split; [reflexivity|]. split; [|auto].
    unfold reads_from. split; [|auto 8]. destruct I as [I1 I2 I3 I4 I5 I6]. constructor; cbn; try assumption; [apply rekeyed_ok|now left].
  - do 2 eexists. split; [reflexivity|]. split; [now apply reads_from_refl|]. eauto.
Qed.

(** What a post-handshake message does to the read direction: a KeyUpdate rekeys
    it, a NewSessionTicket leaves it; anything else is refused. *)
Inductive handled (msg : bytes) (d : direction) : direction -> Prop :=
| handled_update r x rest : msg = [0x18; 0; 0; 1; to_byte r] ++ rest -> d_secret d = Some x -> handled msg d (rekeyed x)
| handled_ticket rest : msg = 0x04 :: rest -> handled msg d d.

Lemma process_key_update_spec r (s : stream) : stream_inv s -> exists s' o, process_key_update r s = (s', o) /\ reads_from s s' /\
  inner s' = inner s /\ o <> Panic /\
  match read_traffic_secret s with
  | Some x => (exists b, o = Ok b) /\ rdir s' = rekeyed x /\
      key_update_pending s' = match r with UpdateRequested => true | UpdateNotRequested => key_update_pending s end
  | None => exists e, o = Err e
  end.
Proof.
  intros I. destruct (rotate_read_spec s I) as (s1 & o & E & Rf & Ii & Pe & Cs). unfold process_key_update.
  destruct (read_traffic_secret s) as [x|].
  - destruct Cs as [-> Rd]. rewrite (bind_ok _ _ _ _ _ E). destruct r; unfold modify, ret, bindM.
    + do 2 eexists. split; [reflexivity|]. split; [exact Rf|]. split; [exact Ii|]. split; [discriminate|]. eauto.
    + do 2 eexists. split; [reflexivity|]. split; [|split; [exact Ii|]; split; [discriminate|]; eauto].
      destruct Rf as ([] & Q). split; [constructor; cbn; assumption|exact Q].
  - destruct Cs as (e & -> & _). rewrite (bind_err _ _ _ _ _ E). do 2 eexists. split; [reflexivity|]. split; [exact Rf|].
    split; [exact Ii|]. split; [discriminate|]. eauto.
Qed.

Lemma from_byte_spec b : match @from_byte b with Ok r => b = to_byte r | Err _ => True | Panic => False end.
Proof. unfold from_byte. destruct (Z.eqb_spec b 0); [assumption|]. destruct (Z.eqb_spec b 1); [assumption|exact I]. Qed.

Lemma process_handshake_spec msg (s : stream) : stream_inv s -> wf_bytes msg = true -> exists s' o,
  process_inner_handshake msg s = (s', o) /\ reads_from s s' /\ inner s' = inner s /\ o <> Panic /\
  (o = Ok tt -> handled msg (rdir s) (rdir s')).
Proof.
  intros I W. unfold process_inner_handshake.
  assert (Bad : forall e, exists s' o, (s, @Err TlsError unit e) = (s', o) /\ reads_from s s' /\ inner s' = inner s /\ o <> Panic /\
    (o = Ok tt -> handled msg (rdir s) (rdir s'))).
  { intros e. do 2 eexists. split; [reflexivity|]. split; [now apply reads_from_refl|]. split; [reflexivity|]. split; discriminate. }
  rewrite bind_failIf. destruct (Z.ltb_spec (len msg) 4) as [Sh|Sh]; [apply Bad|].
  destruct msg as [|t [|m1 [|m2 [|m3 rest]]]]; try (rewrite ?len_cons, ?len_nil in Sh; pose proof (len_nonneg (@nil Z)); cbn in Sh; lia).
  change (bindM (lift (index (t :: m1 :: m2 :: m3 :: rest) 0)) ?k s) with (k t s). cbv beta.
  change (bindM (lift (index (t :: m1 :: m2 :: m3 :: rest) 1)) ?k s) with (k m1 s). cbv beta.
  change (bindM (lift (index (t :: m1 :: m2 :: m3 :: rest) 2)) ?k s) with (k m2 s). cbv beta.
  change (bindM (lift (index (t :: m1 :: m2 :: m3 :: rest) 3)) ?k s) with (k m3 s). cbv beta zeta.
  set (n := Z.lor _ _). rewrite !wf_bytes_cons, !andb_true_iff in W. destruct W as (_ & W1 & W2 & W3 & Wr).
  apply is_byte_iff in W1, W2, W3.
  assert (N : n = m1 * 2 ^ 16 + (m2 * 2 ^ 8 + m3)).
  { unfold n. rewrite <- Z.lor_assoc, (lor_shiftl_add m2 m3 8), lor_shiftl_add by lia. reflexivity. }
  clearbody n.
  rewrite bind_failIf. rewrite !len_cons. pose proof (len_nonneg rest) as Pr.
  destruct (Z.ltb_spec (1 + (1 + (1 + (1 + len rest)))) (4 + n)) as [Tr|Tr]; [apply Bad|].
  rewrite bind_lift, slice_ok by (rewrite ?len_cons; lia). replace (Z.to_nat (4 + n - 4)) with (Z.to_nat n) by lia.
  change (skipn (Z.to_nat 4) _) with rest. destruct (Z.eqb_spec t 0x18) as [->|Nt].
  - rewrite bind_lift. unfold key_update_from_bytes. rewrite len_firstn by lia.
    destruct (Z.eqb_spec n 1) as [->|Nn]; cbn [negb guard]; [|apply Bad].
    destruct rest as [|b rest]; [rewrite len_nil in Tr; lia|]. change (firstn (Z.to_nat 1) (b :: rest)) with [b].
    change (index [b] 0) with (@Ok TlsError Z b). cbn [bind]. pose proof (from_byte_spec b) as Fb.
    destruct (from_byte b) as [r|e|]; [|apply Bad|contradiction]. cbn [bind update_requested].
    destruct (process_key_update_spec r s I) as (s' & o & E & Rf & Ii & Np & Cs).
    destruct (read_traffic_secret s) as [x|] eqn:Ex.
    + destruct Cs as ((b' & ->) & Rd & _). rewrite (bind_ok _ _ _ _ _ E). do 2 eexists. split; [reflexivity|].
      split; [exact Rf|]. split; [exact Ii|]. split; [discriminate|]. intros _. rewrite Rd.
      apply (handled_update _ _ r x rest); [|exact Ex]. assert (m1 = 0 /\ m2 = 0 /\ m3 = 1) as (-> & -> & ->) by lia. now rewrite Fb.
    + destruct Cs as (e & ->). rewrite (bind_err _ _ _ _ _ E). do 2 eexists. split; [reflexivity|]. split; [exact Rf|].
      split; [exact Ii|]. split; discriminate.
  - destruct (Z.eqb_spec t 0x04) as [->|Nt']; [|apply Bad]. do 2 eexists. split; [reflexivity|]. split; [now apply reads_from_refl|].
    split; [reflexivity|]. split; [discriminate|]. intros _. eapply handled_ticket. reflexivity.
Qed.
End ReadLemmas.

(** ** What a reader accepts *)

Definition framed (hd body : bytes) : Prop :=
  len hd = 5 /\ nth 0 hd 0 = RECORD_TYPE_APPLICATION_DATA /\ len body = from_be (skipn 3 hd) /\ 16 <= len body <= MAX_RECORD_SIZE.

(** [record_read d u r d' u']: the record at the front of [u], protected at [d],
    carries the data [r], or a handled message for [None]; the direction is then
    at [d'] and the bytes [u'] follow. *)
Inductive record_read {H : Sm3Crate} {C : Sm4Crates} (d : direction) (u : bytes) : option bytes -> direction -> bytes -> Prop :=
| read_data hd body p rest : u = hd ++ body ++ rest -> framed hd body -> d_seq d < u64_max ->
    protects d hd body (p ++ [INNER_CONTENT_TYPE_APPLICATION_DATA]) -> record_read d u (Some p) (bump d) rest
| read_handshake hd body msg d' rest : u = hd ++ body ++ rest -> framed hd body -> d_seq d < u64_max ->
    protects d hd body (msg ++ [INNER_CONTENT_TYPE_HANDSHAKE]) -> handled msg (bump d) d' -> record_read d u None d' rest.

(** Any number of handled messages, then the data [p]. *)
Inductive accepted {H : Sm3Crate} {C : Sm4Crates} : direction -> bytes -> bytes -> direction -> bytes -> Prop :=
| accepted_here d u p d' u' : record_read d u (Some p) d' u' -> accepted d u p d' u'
| accepted_later d u p d1 u1 d' u' : record_read d u None d1 u1 -> accepted d1 u1 p d' u' -> accepted d u p d' u'.

Lemma firstn5 (u : bytes) : 5 <= len u -> exists h0 h1 h2 h3 h4, firstn (Z.to_nat 5) u = [h0; h1; h2; h3; h4].
Proof.
  intros L. destruct u as [|h0 [|h1 [|h2 [|h3 [|h4 u]]]]]; try (exfalso; unfold len in L; cbn [List.length] in L; lia). now exists h0, h1, h2, h3, h4.
Qed.

Lemma snoc_split (p : bytes) : p <> [] -> exists q x, p = q ++ [x] /\ removelast p = q /\ @index TlsError _ p (len p - 1) = Ok x.
Proof.
  intros N. destruct (exists_last N) as (q & x & ->). exists q, x. split; [reflexivity|]. split; [apply removelast_last|].
  rewrite len_app. change (len [x]) with 1. replace (len q + 1 - 1) with (len q) by lia.
  now apply index_app.
Qed.

Section RecordLemmas.
Context {T : Type} {H : Sm3Crate} {LH : Sm3Laws H} {C : Sm4Crates} {LC : Sm4Laws C} {TT : Transport T} {LT : TransportLaws TT}.
Local Abbreviation stream := (GmTlsStream T).

Lemma protects_wf d hd body p : dir_ok d -> wf_bytes body = true -> protects d hd body p -> wf_bytes p = true.
Proof.
  intros D W (ct & tag & -> & _ & E). destruct (ok_nonce d D) as [Ln Wn]. rewrite wf_bytes_app, andb_true_iff in W.
  destruct (seq_nonce_shape (d_nonce d) (d_seq d) Ln Wn) as [L' W']. now apply (wf_decrypted _ _ _ _ _ _ L' W' (proj1 W) E).
Qed.

(** From the decrypted content on. *)
Lemma dispatch_spec (s : stream) content : stream_inv s -> wf_bytes content = true -> exists s' o,
  (failIf (len content =? 0) empty_record_error ;;;
   inner_content_type <-- lift (index content (len content - 1)) ;;;
   let plaintext := removelast content in
   if inner_content_type =? INNER_CONTENT_TYPE_APPLICATION_DATA then ret (Some plaintext)
   else if inner_content_type =? INNER_CONTENT_TYPE_HANDSHAKE then process_inner_handshake plaintext ;;; ret None
   else fail (InvalidMessage ("unknown inner content type: 0x" +++ hex02 inner_content_type)%string))%rust s = (s', o) /\
  reads_from s s' /\ inner s' = inner s /\ o <> Panic /\
  match o with
  | Ok (Some p) => content = p ++ [INNER_CONTENT_TYPE_APPLICATION_DATA] /\ rdir s' = rdir s
  | Ok None => exists msg, content = msg ++ [INNER_CONTENT_TYPE_HANDSHAKE] /\ handled msg (rdir s) (rdir s')
  | _ => True
  end.
Proof.
  intros I W. rewrite bind_failIf. destruct (Z.eqb_spec (len content) 0) as [E0|N0].
  { do 2 eexists. split; [reflexivity|]. split; [now apply reads_from_refl|]. split; [reflexivity|]. split; [discriminate|exact Logic.I]. }
  destruct (snoc_split content) as (p & x & -> & R & Ix); [now intros ->|]. rewrite bind_lift, Ix, R. cbv zeta.
  destruct (Z.eqb_spec x INNER_CONTENT_TYPE_APPLICATION_DATA) as [->|N1].
  { do 2 eexists. split; [reflexivity|]. split; [now apply reads_from_refl|]. split; [reflexivity|]. split; [discriminate|now split]. }
  destruct (Z.eqb_spec x INNER_CONTENT_TYPE_HANDSHAKE) as [->|N2].
  2: { do 2 eexists. split; [reflexivity|]. split; [now apply reads_from_refl|]. split; [reflexivity|]. split; [discriminate|exact Logic.I]. }
  rewrite wf_bytes_app, andb_true_iff in W. destruct (process_handshake_spec p s I (proj1 W)) as (s' & o & E & Rf & Ii & Np & Hd).
  unfold bindM. rewrite E. exists s'. destruct o as [[]|e|]; [| |contradiction]; eexists; (split; [reflexivity|]);
    (split; [exact Rf|]); (split; [exact Ii|]); (split; [discriminate|]); [|exact Logic.I]. exists p. auto.
Qed.

Lemma read_record_spec (s : stream) : stream_inv s -> wf_bytes (unread (inner s)) = true -> exists s' o,
  read_record s = (s', o) /\ reads_from s s' /\ o <> Panic /\
  forall r, o = Ok r -> record_read (rdir s) (unread (inner s)) r (rdir s') (unread (inner s')).
Proof.
  intros I W. set (u := unread (inner s)) in *. unfold read_record.
  destruct (tls_on_read 5 s I) as (t' & o & Er & Rf & Np & Cs); [lia|]. fold u in Cs.
  destruct (Z.leb_spec 5 (len u)) as [L5|L5].
  2: { destruct Cs as [e ->]. rewrite (bind_err _ _ _ _ _ Er). do 2 eexists. split; [reflexivity|]. split; [exact Rf|]. split; discriminate. }
  destruct Cs as [-> Ut]. rewrite (bind_ok _ _ _ _ _ Er). destruct (firstn5 u L5) as (h0 & h1 & h2 & h3 & h4 & Eh). rewrite Eh.
  destruct (read_protected_spec "" "GCM decrypt: " (set_inner t' s) h0 h1 h2 h3 h4 (proj1 Rf)) as (s1 & o1 & E1 & Rf1 & Np1 & _ & Iff & Nx).
  cbn [inner set_inner set_rest rdir] in Iff, Nx. change (rdir (set_inner t' s)) with (rdir s) in *. rewrite Ut in Iff, Nx.
  pose proof (reads_from_trans _ _ _ Rf Rf1) as Rf'.
  destruct o1 as [content|e|]; [|rewrite (bind_err _ _ _ _ _ E1); do 2 eexists; split; [reflexivity|]; split; [exact Rf'|]; split; discriminate|contradiction].
  rewrite (bind_ok _ _ _ _ _ E1). destruct (proj1 (Iff content) eq_refl) as ((H0 & Bn) & Ln & Bs & Pr). destruct (Nx content eq_refl) as [Rd Us].
  set (n := from_be [h3; h4]) in *. set (hd := [h0; h1; h2; h3; h4]) in *. set (body := firstn (Z.to_nat n) _) in *.
  assert (Eu : u = hd ++ body ++ unread (inner s1)) by (rewrite Us; unfold body; rewrite firstn_skipn, <- Eh, firstn_skipn; reflexivity).
  assert (Fr : framed hd body) by (split; [reflexivity|]; split; [exact H0|]; unfold body; rewrite len_firstn by lia; auto).
  rewrite Eu, !wf_bytes_app, !andb_true_iff in W. destruct W as (_ & Wb & _).
  destruct (dispatch_spec s1 content (proj1 Rf1) (protects_wf _ _ _ _ (inv_read s I) Wb Pr)) as (s2 & o2 & E2 & Rf2 & Ii & Np2 & Cs).
  exists s2, o2. split; [exact E2|]. split; [eapply reads_from_trans; eassumption|]. split; [exact Np2|].
  intros r ->. rewrite Ii. destruct r as [p|].
  - destruct Cs as [-> Rd2]. rewrite Rd2, Rd. eapply read_data; eassumption.
  - destruct Cs as (msg & -> & Hm). rewrite Rd in Hm. eapply read_handshake; eassumption.
Qed.

Lemma record_header_len v n : version_ok v -> len (record_header v n) = 5.
Proof. intros [L _]. unfold record_header. rewrite len_cons, len_app, L, len_be_bytes. reflexivity. Qed.

Lemma record_header_skipn v n : version_ok v -> 0 <= n -> n + 16 < 2 ^ 16 -> from_be (skipn 3 (record_header v n)) = n + 16.
Proof.
  intros [L _] N B. destruct v as [|a [|b [|c v]]]; try (exfalso; unfold len in L; cbn [List.length] in L; lia).
  change (skipn 3 _) with (be_bytes 2 (as_u16 (n + 16))). unfold as_u16. rewrite Z.mod_small by lia.
  apply from_be_bytes_small. cbn. lia.
Qed.

Lemma len5_length (hd : bytes) : len hd = 5 -> List.length hd = 5%nat.
Proof. unfold len. lia. Qed.

(** A record at the front of a stream of records is the first one sent. *)
Lemma framed_emit d v content hd body rest w : dir_ok d -> version_ok v -> len content + 16 < 2 ^ 16 ->
  framed hd body -> hd ++ body ++ rest = emit d v content ++ w -> forall x, protects d hd body x -> x = content /\ rest = w.
Proof.
  intros D V B (Lh & _ & Lb & _) E x (ct & tag & -> & Lt & Enc). pose proof (len_nonneg content) as Pc.
  destruct (emit_spec d v content D) as (ct' & tag' & Enc' & Em & Lc' & Lt' & Dc). rewrite Em, <- (app_assoc (record_header v (len content))) in E.
  apply app_eq_app_len in E as [-> E]; [|pose proof (record_header_len v (len content) V); unfold len in *; lia].
  rewrite record_header_skipn in Lb by assumption.
  apply app_eq_app_len in E as [E ->]; [|unfold len in *; rewrite !length_app in *; lia].
  apply app_eq_app_len in E as [-> ->]; [|rewrite len_app in Lb; unfold len in *; lia]. split; [|reflexivity].
  destruct (ok_nonce d D) as [Ln Wn]. destruct (seq_nonce_shape (d_nonce d) (d_seq d) Ln Wn) as [L' W'].
  apply decrypt_gcm_iff in Enc; [|assumption..]. rewrite Dc in Enc. now injection Enc.
Qed.

Lemma payload_content_bound p : payload_ok p = true -> len (p ++ [INNER_CONTENT_TYPE_APPLICATION_DATA]) + 16 <= MAX_RECORD_SIZE.
Proof. unfold payload_ok. rewrite andb_true_iff, Z.leb_le, len_app. change (len [_]) with 1. lia. Qed.

Lemma content_small n : n + 16 <= MAX_RECORD_SIZE -> n + 16 < 2 ^ 16.
Proof. unfold MAX_RECORD_SIZE. lia. Qed.

Lemma record_read_nonempty d u r d' u' : record_read d u r d' u' -> len u' + 21 <= len u.
Proof. intros []; subst u; destruct H1 as (Lh & _ & _ & Lb); rewrite !len_app; lia. Qed.

Lemma record_read_ok d u r d' u' : dir_ok d -> record_read d u r d' u' -> dir_ok d'.
Proof.
  intros D []; [now apply bump_ok|]. destruct H4; [apply rekeyed_ok|now apply bump_ok].
Qed.

(** Reading takes the first record of a flow. *)
Lemma flow_step d u r d1 u1 out q d' : dir_ok d -> record_read d u r d1 u1 -> flow d (u ++ out) q d' ->
  match r with Some p => exists q', q = p :: q' /\ flow d1 (u1 ++ out) q' d' | None => flow d1 (u1 ++ out) q d' end.
Proof.
  intros D R F. pose proof (record_read_nonempty _ _ _ _ _ R) as Ne. pose proof (len_nonneg u1).
  remember (u ++ out) as uo eqn:X. revert D R. destruct F as [d|d v p w q d' V Py Bq F1|d v rq x w q d' V Bq Sx F1]; intros D R.
  - apply (f_equal len) in X. rewrite len_app, len_nil in X. pose proof (len_nonneg out). lia.
  - pose proof (content_small _ (payload_content_bound p Py)) as Bc.
    destruct R as [hd body p' rest -> Fr _ Pr|hd body msg d1 rest -> Fr _ Pr Hm]; rewrite <- !app_assoc in X;
      destruct (framed_emit d v _ hd body _ w D V Bc Fr (eq_sym X) _ Pr) as [Ec <-].
    + apply app_inj_tail in Ec as [-> _]. eauto.
    + apply app_inj_tail in Ec as [_ Ec]. discriminate.
  - assert (Bc : len (update_content rq) + 16 < 2 ^ 16) by (unfold len; cbn [update_content List.length]; lia).
    destruct R as [hd body p' rest -> Fr _ Pr|hd body msg d1 rest -> Fr _ Pr Hm]; rewrite <- !app_assoc in X;
      destruct (framed_emit d v _ hd body _ w D V Bc Fr (eq_sym X) _ Pr) as [Ec <-];
      change (update_content rq) with ([0x18; 0; 0; 1; if rq then 1 else 0] ++ [INNER_CONTENT_TYPE_HANDSHAKE]) in Ec;
      apply app_inj_tail in Ec as [Em Et]; [discriminate|].
    destruct Hm as [r' x' rest' _ Sx'|rest' Em']; [|rewrite Em' in Em; discriminate].
    cbn in Sx'. rewrite Sx in Sx'. injection Sx' as <-. exact F1.
Qed.

Lemma flow_accepted d u p d1 u1 : accepted d u p d1 u1 -> dir_ok d -> forall out q d', flow d (u ++ out) q d' ->
  exists q', q = p :: q' /\ flow d1 (u1 ++ out) q' d'.
Proof.
  induction 1 as [d u p d1 u1 R|d u p d0 u0 d1 u1 R _ IH]; intros D out q d' F.
  - exact (flow_step _ _ _ _ _ _ _ _ D R F).
  - apply IH; [eapply record_read_ok; eassumption|]. exact (flow_step _ _ _ _ _ _ _ _ D R F).
Qed.

Lemma record_read_wf d u r d' u' : record_read d u r d' u' -> wf_bytes u = true -> wf_bytes u' = true.
Proof. intros []; subst u; rewrite !wf_bytes_app, !andb_true_iff; tauto. Qed.

(** On any input the reader returns without a panic; what it returns was accepted,
    and fuel for one record in 21 bytes never runs out. *)
Lemma read_app_spec fuel : forall s : stream, stream_inv s -> wf_bytes (unread (inner s)) = true -> exists s' o,
  read_application_data fuel s = (s', o) /\ reads_from s s' /\ o <> Panic /\
  (forall p, o = Ok (Some p) -> accepted (rdir s) (unread (inner s)) p (rdir s') (unread (inner s'))) /\
  (o = Ok None -> 21 * Z.of_nat fuel <= len (unread (inner s))).
Proof.
  induction fuel as [|fuel IH]; intros s I W; cbn [read_application_data].
  - do 2 eexists. split; [reflexivity|]. split; [now apply reads_from_refl|]. split; [discriminate|]. split; [discriminate|].
    intros _. pose proof (len_nonneg (unread (inner s))). lia.
  - destruct (read_record_spec s I W) as (s1 & o & E & Rf & Np & Rr). destruct o as [[p|]|e|]; [| | |contradiction].
    + rewrite (bind_ok _ _ _ _ _ E). do 2 eexists. split; [reflexivity|]. split; [exact Rf|]. split; [discriminate|].
      split; [|discriminate]. intros p' [= <-]. apply accepted_here. now apply Rr.
    + rewrite (bind_ok _ _ _ _ _ E). pose proof (Rr None eq_refl) as R1.
      destruct (IH s1 (proj1 Rf) (record_read_wf _ _ _ _ _ R1 W)) as (s2 & o2 & E2 & Rf2 & Np2 & Ac & Fu). exists s2, o2.
      split; [exact E2|]. split; [eapply reads_from_trans; eassumption|]. split; [exact Np2|]. split.
      * intros p Ep. eapply accepted_later; [exact R1|]. now apply Ac.
      * intros En. apply Fu in En. pose proof (record_read_nonempty _ _ _ _ _ R1). lia.
    + rewrite (bind_err _ _ _ _ _ E). do 2 eexists. split; [reflexivity|]. split; [exact Rf|]. repeat split; discriminate.
Qed.

Lemma process_update_ok (r : bool) (s : stream) x : stream_inv s -> read_traffic_secret s = Some x ->
  exists s', process_inner_handshake [0x18; 0; 0; 1; if r then 1 else 0] s = (s', Ok tt) /\
    key_update_pending s' = (r || key_update_pending s)%bool.
Proof.
  intros I Ex. set (k := if r : bool then UpdateRequested else UpdateNotRequested).
  assert (E0 : process_inner_handshake [0x18; 0; 0; 1; if r then 1 else 0] s = (bindM (process_key_update k) (fun _ => ret tt)) s)
    by (destruct r; reflexivity).
  rewrite E0. destruct (process_key_update_spec k s I) as (s' & o & E & _ & _ & _ & Cs). rewrite Ex in Cs.
  destruct Cs as ((b & ->) & _ & P). rewrite (bind_ok _ _ _ _ _ E). exists s'. split; [reflexivity|]. rewrite P. now destruct r.
Qed.

(** A record that has arrived whole is decrypted. *)
Lemma read_emitted what dec (s : stream) v content w : stream_inv s -> version_ok v -> 0 < len content -> len content + 16 <= MAX_RECORD_SIZE ->
  read_seq s < u64_max -> unread (inner s) = emit (rdir s) v content ++ w -> exists s1 t' hd, on_inner (read_exact 5) s = (set_inner t' s, Ok hd) /\
  read_protected what dec hd (set_inner t' s) = (s1, Ok content) /\ stream_inv s1 /\ read_traffic_secret s1 = read_traffic_secret s /\
  key_update_pending s1 = key_update_pending s.
Proof.
  intros I V P0 B Bq U. destruct (emit_spec (rdir s) v content (inv_read s I)) as (ct & tag & Enc & Em & Lc & Lt & _).
  pose proof (record_header_len v (len content) V) as Lh. pose proof (len5_length _ Lh) as Nh. pose proof (content_small _ B) as Bc.
  destruct (tls_on_read 5 s I) as (t' & o & Er & Rf & _ & Cs); [lia|]. rewrite U, Em in Cs. pose proof (len_nonneg w) as Pw.
  rewrite (proj2 (Z.leb_le _ _)) in Cs by (rewrite !len_app; lia). destruct Cs as [-> Ut].
  destruct (firstn5 (record_header v (len content)) ltac:(lia)) as (h0 & h1 & h2 & h3 & h4 & Eh).
  rewrite firstn_all2 in Eh by lia.
  rewrite <- (app_assoc (record_header v (len content))), skipn_exact in Ut by lia.
  exists (fst (read_protected what dec (record_header v (len content)) (set_inner t' s))), t', (record_header v (len content)).
  split; [rewrite Er, <- app_assoc, firstn_exact by lia; reflexivity|].
  assert (N : from_be [h3; h4] = len content + 16) by (rewrite <- (record_header_skipn v (len content) V), Eh by lia; reflexivity).
  assert (H0 : h0 = RECORD_TYPE_APPLICATION_DATA) by (unfold record_header in Eh; now injection Eh).
  rewrite Eh in *. destruct (read_protected_spec what dec (set_inner t' s) h0 h1 h2 h3 h4 (proj1 Rf)) as (s1 & o1 & E1 & Rf1 & _ & Pe & Iff & Nx).
  rewrite E1. cbn [fst]. cbn [inner set_inner set_rest] in Iff, Nx. rewrite N, Ut in Iff, Nx.
  assert (O : o1 = Ok content).
  { apply Iff. split; [split; [exact H0|lia]|]. split; [rewrite !len_app; lia|]. split; [exact Bq|]. exists ct, tag.
    split; [apply firstn_exact; rewrite length_app; unfold len in *; lia|]. split; [exact Lt|]. exact Enc. }
  rewrite O. split; [reflexivity|]. split; [apply Rf1|]. destruct (Nx content O) as [Rd _].
  split; [injection Rd; congruence|exact Pe].
Qed.

Lemma emit_wf d v content : dir_ok d -> version_ok v -> wf_bytes content = true -> wf_bytes (emit d v content) = true.
Proof.
  intros D [_ V] W. destruct (emit_spec d v content D) as (ct & tag & Enc & -> & _). destruct (ok_nonce d D) as [Ln Wn].
  destruct (seq_nonce_shape (d_nonce d) (d_seq d) Ln Wn) as [L' W']. destruct (wf_encrypt_gcm _ _ _ _ _ _ L' W' W Enc) as [Wc Wt].
  unfold record_header. rewrite wf_bytes_app, wf_bytes_cons, !wf_bytes_app, V, Wc, Wt, wf_be_bytes. reflexivity.
Qed.

Lemma flow_wf d w q d' : flow d w q d' -> dir_ok d -> wf_bytes w = true /\ dir_ok d'.
Proof.
  induction 1 as [d|d v p w q d' V Py Bq F IH|d v r x w q d' V Bq Sx F IH]; intros D; [now split| |].
  - destruct (IH (bump_ok d D Bq)) as [W D']. split; [|exact D']. unfold payload_ok in Py. rewrite andb_true_iff in Py.
    rewrite wf_bytes_app, W, emit_wf; [reflexivity|exact D|exact V|]. rewrite wf_bytes_app, (proj2 Py). reflexivity.
  - destruct (IH (rekeyed_ok x)) as [W D']. split; [|exact D']. rewrite wf_bytes_app, W, emit_wf; [reflexivity|exact D|exact V|].
    now destruct r.
Qed.

Lemma read_record_progress (s : stream) p q d' : stream_inv s -> flow (rdir s) (unread (inner s)) (p :: q) d' ->
  exists s' r, read_record s = (s', Ok r).
Proof.
  intros I F. unfold read_record. remember (unread (inner s)) as u eqn:U. remember (rdir s) as d eqn:D. remember (p :: q) as pq.
  destruct F as [d|d v p' w q' d' V Py Bq F1|d v r x w q' d' V Bq Sx F1]; [discriminate| |]; subst d.
  - pose proof (payload_content_bound p' Py) as B. pose proof (len_nonneg p') as Pp.
    destruct (read_emitted "" "GCM decrypt: " s v (p' ++ [INNER_CONTENT_TYPE_APPLICATION_DATA]) w I V) as (s1 & t' & hd & E1 & E2 & _);
      [rewrite len_app; change (len [_]) with 1; lia|exact B|exact Bq|now symmetry|].
    rewrite (bind_ok _ _ _ _ _ E1), (bind_ok _ _ _ _ _ E2), bind_failIf.
    destruct (snoc_split (p' ++ [INNER_CONTENT_TYPE_APPLICATION_DATA])) as (q0 & x0 & E0 & Rl & Ix); [now destruct p'|].
    apply app_inj_tail in E0 as [<- <-]. rewrite (proj2 (Z.eqb_neq _ _)) by (rewrite len_app; change (len [_]) with 1; lia).
    rewrite bind_lift, Ix. cbv zeta. rewrite Z.eqb_refl. do 2 eexists. reflexivity.
  - destruct (read_emitted "" "GCM decrypt: " s v (update_content r) w I V) as (s1 & t' & hd & E1 & E2 & I1 & Sx1 & _);
      [reflexivity|unfold MAX_RECORD_SIZE, len; cbn [update_content List.length]; lia|exact Bq|now symmetry|].
    rewrite (bind_ok _ _ _ _ _ E1), (bind_ok _ _ _ _ _ E2), bind_failIf. cbn in Sx. rewrite Sx in Sx1.
    destruct (process_update_ok r s1 x I1 Sx1) as (s2 & E3 & _).
    exists s2, None. change (bindM (process_inner_handshake [0x18; 0; 0; 1; if r then 1 else 0]) (fun _ => ret None) s1 = (s2, @Ok TlsError _ (@None bytes))).
    now rewrite (bind_ok _ _ _ _ _ E3).
Qed.

Lemma read_app_progress fuel : forall (s : stream) p q d', stream_inv s -> flow (rdir s) (unread (inner s)) (p :: q) d' ->
  len (unread (inner s)) < 21 * Z.of_nat fuel -> exists s', read_application_data fuel s = (s', Ok (Some p)).
Proof.
  induction fuel as [|fuel IH]; intros s p q d' I F B; [pose proof (len_nonneg (unread (inner s))); lia|].
  destruct (flow_wf _ _ _ _ F (inv_read s I)) as [W _].
  destruct (read_record_progress s p q d' I F) as (s1 & r & E). destruct (read_record_spec s I W) as (s1' & o & E' & Rf & _ & Rr).
  rewrite E in E'. injection E' as <- <-. specialize (Rr r eq_refl). cbn [read_application_data]. rewrite (bind_ok _ _ _ _ _ E).
  rewrite <- (app_nil_r (unread (inner s))) in F. pose proof (flow_step _ _ _ _ _ _ _ _ (inv_read s I) Rr F) as Fs. rewrite app_nil_r in Fs.
  destruct r as [p'|].
  - destruct Fs as (q' & Eq & _). injection Eq as <- _. exists s1. reflexivity.
  - apply (IH s1 p q d' (proj1 Rf) Fs). pose proof (record_read_nonempty _ _ _ _ _ Rr). lia.
Qed.
End RecordLemmas.

(** ** A stream after the handshake *)

(** A stream after the handshake, as the connector and the acceptor build it. *)
Definition established {T : Type} (t : T) (hs : HandshakeSecrets) (is_client : bool) (version : bytes) (alpn : option string) : GmTlsStream T :=
  let ws := if is_client then client_traffic_secret hs else server_traffic_secret hs in
  let rs := if is_client then server_traffic_secret hs else client_traffic_secret hs in
  set_traffic_secrets ws rs (with_version t (session_keys hs) is_client None alpn version).

Lemma established_ok {T : Type} {H : Sm3Crate} {LH : Sm3Laws H} (t : T) ikm b v alpn : version_ok v -> rekeyable (established t (secrets_of ikm) b v alpn).
Proof.
  intros V. assert (K : forall ts, len ts = 32 ->
    dir_ok {| d_key := traffic_key ts; d_nonce := traffic_nonce ts; d_seq := 0; d_secret := Some ts |}).
  { intros ts E. destruct (traffic_shapes ts) as (A & B & D & _). constructor; cbn; auto. unfold u64_max. lia. }
  split; [|split; [rewrite threshold_value; destruct b; cbn; lia|destruct b; split; discriminate]].
  destruct b; constructor; try exact V; try (now left); try (intros n X; exfalso; exact (base.not_elem_of_empty n X));
    apply K; apply hkdf_ref_shape; lia.
Qed.
