(* ===== verification/TlsChannel.v ===== *)
(** Two TLS ends in conversation: a connection as a transition system over the
    streams of TlsRecord.v, in which both ends write, send KeyUpdates and read in
    any order while bytes are on their way. *)

From Stdlib Require Import String Bool ZArith Lia List.
From S2P Require Import Prelude Bytes Effects Sm4 Sm3 TlsKeys TlsRecord.
Import ListNotations.
Open Scope Z_scope.

Section Channel.
Context {H : Sm3Crate} {C : Sm4Crates}.
Local Abbreviation stream := (GmTlsStream pipe).

(** Two ends, and the payloads each has been given to send and has received. *)
Record conn : Type := {
  end_a : stream;
  end_b : stream;
  sent_a : list bytes;
  sent_b : list bytes;
  got_a : list bytes;
  got_b : list bytes
}.

(** A transport with nothing in flight. *)
Definition no_bytes : pipe := {| incoming := []; outgoing := [] |}.

(** The steps are those of end [a]; [reach_swap] exchanges the ends. *)
Inductive reach : conn -> Prop :=
| reach_start x y hs va vb alpn : derive_session_keys_sm2 (Some x) (Some y) = Ok hs -> version_ok va -> version_ok vb ->
    reach {| end_a := established no_bytes hs true va alpn; end_b := established no_bytes hs false vb alpn;
             sent_a := []; sent_b := []; got_a := []; got_b := [] |}
| reach_swap c : reach c ->
    reach {| end_a := end_b c; end_b := end_a c; sent_a := sent_b c; sent_b := sent_a c; got_a := got_b c; got_b := got_a c |}
| reach_write c p a' : reach c -> payload_ok p = true -> write_application_data p (end_a c) = (a', Ok tt) ->
    reach {| end_a := a'; end_b := end_b c; sent_a := sent_a c ++ [p]; sent_b := sent_b c; got_a := got_a c; got_b := got_b c |}
| reach_update c r a' : reach c -> send_key_update r (end_a c) = (a', Ok tt) ->
    reach {| end_a := a'; end_b := end_b c; sent_a := sent_a c; sent_b := sent_b c; got_a := got_a c; got_b := got_b c |}
| reach_arrive c x y : reach c -> outgoing (inner (end_a c)) = x ++ y ->
    reach {| end_a := set_inner {| incoming := incoming (inner (end_a c)); outgoing := y |} (end_a c);
             end_b := set_inner {| incoming := incoming (inner (end_b c)) ++ x; outgoing := outgoing (inner (end_b c)) |} (end_b c);
             sent_a := sent_a c; sent_b := sent_b c; got_a := got_a c; got_b := got_b c |}
| reach_read c fuel p a' : reach c -> read_application_data fuel (end_a c) = (a', Ok (Some p)) ->
    reach {| end_a := a'; end_b := end_b c; sent_a := sent_a c; sent_b := sent_b c; got_a := got_a c ++ [p]; got_b := got_b c |}.

(** From [w] to [r]: what is on its way are records that carry the payloads sent
    and not yet received, and lead from the reader's state to the writer's. *)
Definition in_step (w r : stream) (sent got : list bytes) : Prop :=
  exists q, sent = got ++ q /\ flow (rdir r) (incoming (inner r) ++ outgoing (inner w)) q (wdir w).

Definition conn_inv (c : conn) : Prop :=
  rekeyable (end_a c) /\ rekeyable (end_b c) /\ in_step (end_a c) (end_b c) (sent_a c) (got_b c) /\
  in_step (end_b c) (end_a c) (sent_b c) (got_a c).

Context {LH : Sm3Laws H} {LC : Sm4Laws C}.

Lemma accepted_secret d u p d' u' : accepted d u p d' u' -> d_secret d <> None -> d_secret d' <> None.
Proof.
  assert (R : forall d u r d' u', record_read d u r d' u' -> d_secret d <> None -> d_secret d' <> None).
  { intros ? ? ? ? ? [|? ? ? ? ? _ _ _ _ []]; [exact (fun X => X)|discriminate|exact (fun X => X)]. }
  induction 1; eauto.
Qed.

Lemma in_step_refl w r : rdir r = wdir w -> incoming (inner r) = [] -> outgoing (inner w) = [] -> in_step w r [] [].
Proof. intros E Ei Eo. exists []. rewrite E, Ei, Eo. split; [reflexivity|apply flow_nil]. Qed.

(** Writing on one end extends the flow to the other and leaves the other flow. *)
Lemma wrote_in_step a a' b w q sa gb sb ga : wrote a a' w q -> in_step a b sa gb -> in_step b a sb ga ->
  in_step a' b (sa ++ q) gb /\ in_step b a' sb ga.
Proof.
  intros (_ & (Rd & _) & (Se & Un) & F) (q0 & -> & F0) (r0 & -> & F1). cbn [sent unread pipe_laws] in Se, Un. split.
  - exists (q0 ++ q). split; [now rewrite app_assoc|]. rewrite Se, app_assoc. eapply flow_app; eassumption.
  - exists r0. split; [reflexivity|]. now rewrite Rd, Un.
Qed.

Lemma reach_inv c : reach c -> conn_inv c.
Proof.
  induction 1 as [x y hs va vb alpn D Va Vb|c _ IH|c p a' _ IH Py E|c r a' _ IH E|c x y _ IH E|c fuel p a' _ IH E].
  - rewrite derive_session_keys_ok in D. injection D as <-.
    split; [now apply established_ok|]. split; [now apply established_ok|]. split; now apply in_step_refl.
  - destruct IH as (A & B & Fa & Fb). exact (conj B (conj A (conj Fb Fa))).
  - destruct IH as (A & B & Fa & Fb). destruct (write_app_ok p (end_a c) A Py) as (s' & w & E' & Wr & _).
    rewrite E in E'. injection E' as <-. destruct (wrote_in_step _ _ _ _ _ _ _ _ _ Wr Fa Fb). split; [apply Wr|auto].
  - destruct IH as (A & B & Fa & Fb). destruct (update_wrote r (end_a c) A) as (s' & w & E' & Wr & _).
    rewrite E in E'. injection E' as <-. destruct (wrote_in_step _ _ _ _ _ _ _ _ _ Wr Fa Fb) as [Fa' Fb'].
    rewrite app_nil_r in Fa'. split; [apply Wr|auto].
  - destruct IH as (A & B & (q & Eq & Fa) & (r & Er & Fb)).
    split; [destruct A as ([] & A); split; [constructor; assumption|exact A]|].
    split; [destruct B as ([] & B); split; [constructor; assumption|exact B]|]. split.
    + exists q. split; [exact Eq|]. cbn [inner set_inner set_rest incoming outgoing end_a end_b]. now rewrite <- app_assoc, <- E.
    + exists r. split; [exact Er|exact Fb].
  - destruct IH as ((I & Bq & Sw & Sr) & B & (q & Eq & Fa) & (r & Er & Fb)).
    destruct (flow_wf _ _ _ _ Fb (inv_read _ I)) as [W _]. rewrite wf_bytes_app, andb_true_iff in W.
    destruct (read_app_spec (LT:=pipe_laws) fuel (end_a c) I (proj1 W)) as (s' & o & E' & (I' & Wd & Se & _) & _ & Ac & _).
    rewrite E in E'. injection E' as <- <-. specialize (Ac p eq_refl). cbn [unread sent pipe_laws] in Ac, Se.
    destruct (flow_accepted _ _ _ _ _ Ac (inv_read _ I) _ _ _ Fb) as (r' & -> & Fb'). cbn [end_a end_b sent_a sent_b got_a got_b].
    pose proof (accepted_secret _ _ _ _ _ Ac Sr) as Sr'. pose proof Wd as Wd'. injection Wd as _ _ Q Sx.
    split; [|split; [exact B|split]].
    + split; [exact I'|]. cbn [end_a]. rewrite Q, Sx. auto.
    + exists q. split; [exact Eq|]. cbn [end_a end_b]. rewrite Wd', Se. exact Fa.
    + exists r'. cbn [sent_b got_a]. split; [rewrite Er, <- app_assoc; reflexivity|exact Fb'].
Qed.

(** C4. Two TLS ends keep in step through any conversation. From streams built
    on the secrets of one key exchange, let both ends write payloads that fit a
    record ([payload_ok]: at most 24 KiB less 17 bytes), send KeyUpdates (with
    or without asking for one in return) and read, in any order, while the bytes
    arrive in any pieces: what each end has received is a prefix of what the
    other has sent, in order; every such write and every KeyUpdate succeeds, however
    many records were sent, because the key is replaced at the threshold, before
    the limit of GCM, and no nonce is ever reported as reused; and once all bytes
    have arrived, reading returns the next payload. *)
Theorem tls_ends_in_step (c : conn) : reach c ->
  (exists q, sent_a c = got_b c ++ q) /\ (exists q, sent_b c = got_a c ++ q) /\
  write_seq (end_a c) <= KEY_UPDATE_THRESHOLD < GCM_CONFIDENTIALITY_LIMIT /\
  (forall p, payload_ok p = true -> exists a', write_application_data p (end_a c) = (a', Ok tt) /\ key_update_pending a' = false) /\
  (forall r, exists a', send_key_update r (end_a c) = (a', Ok tt)) /\
  (outgoing (inner (end_b c)) = [] -> got_a c <> sent_b c -> exists a' p q,
     read_application_data (S (List.length (incoming (inner (end_a c))))) (end_a c) = (a', Ok (Some p)) /\ sent_b c = got_a c ++ p :: q).
Proof.
  intros R. destruct (reach_inv c R) as (A & B & (q & Eq & Fa) & (r & Er & Fb)).
  split; [eauto|]. split; [eauto|]. split; [split; [apply A|reflexivity]|]. split; [|split].
  - intros p Py. destruct (write_app_ok p (end_a c) A Py) as (s' & w & E & _ & P). eauto.
  - intros rq. destruct (update_wrote rq (end_a c) A) as (s' & w & E & _). eauto.
  - intros Eo N. rewrite Eo, app_nil_r in Fb. destruct r as [|p r]; [rewrite app_nil_r in Er; congruence|].
    destruct (read_app_progress (LT:=pipe_laws) (S (List.length (incoming (inner (end_a c))))) (end_a c) p r (wdir (end_b c)) (proj1 A) Fb) as (a' & E);
      [cbn [unread pipe_laws]; unfold len; lia|]. eauto.
Qed.

(** ** Reading arbitrary input *)

(** C11. The TLS reader is safe on every input. Whatever bytes arrive,
    [read_application_data] returns without a panic (a fuel of one record per 21
    bytes is enough), keeps the invariant of the stream, sends nothing and leaves
    the write direction alone. The data it returns was protected, together with
    its content type and header, under the current read key, nonce and sequence
    number, in a record of 16 bytes to 24 KiB at the front of the input, after
    records that were protected one sequence number after the other and carried
    KeyUpdates, each of which rekeys the direction, or session tickets, which are ignored. *)
Theorem tls_read_accepts_only_protected {T : Type} {TT : Transport T} {LT : TransportLaws TT} (s : GmTlsStream T) (fuel : nat) :
  stream_inv s -> wf_bytes (unread (inner s)) = true -> len (unread (inner s)) < 21 * Z.of_nat fuel -> exists s' o,
  read_application_data fuel s = (s', o) /\ o <> Panic /\ o <> Ok None /\ stream_inv s' /\ wdir s' = wdir s /\
  sent (inner s') = sent (inner s) /\
  forall p, o = Ok (Some p) -> accepted (rdir s) (unread (inner s)) p (rdir s') (unread (inner s')).
Proof.
  intros I W B. destruct (read_app_spec fuel s I W) as (s' & o & E & (I' & Wd & Se & _) & Np & Ac & Fu). exists s', o.
  split; [exact E|]. split; [exact Np|]. split; [intros X%Fu; lia|]. auto.
Qed.

(** ** Closing *)

Lemma recv_protected is_eof (s : stream) v content w : stream_inv s -> version_ok v -> 0 < len content ->
  len content + 16 <= MAX_RECORD_SIZE -> read_seq s < u64_max -> incoming (inner s) = emit (rdir s) v content ++ w ->
  exists s', recv_close_notify is_eof s = (s', Ok true).
Proof.
  intros I V P B Q U.
  destruct (read_emitted (LT:=pipe_laws) "close_notify " "close_notify decrypt: " s v content w I V P B Q U) as (s1 & t' & hd & E1 & E2 & _).
  unfold recv_close_notify. unfold on_inner in E1. destruct (read_exact 5 (inner s)) as [t o]. destruct o as [h|e|]; try discriminate.
  injection E1 as -> ->. rewrite (bind_ok _ _ _ _ _ E2). eexists. reflexivity.
Qed.

Lemma read_alert fuel (s : stream) v content w x : stream_inv s -> version_ok v -> len content + 17 <= MAX_RECORD_SIZE ->
  read_seq s < u64_max -> incoming (inner s) = emit (rdir s) v (content ++ [x]) ++ w ->
  x <> INNER_CONTENT_TYPE_APPLICATION_DATA -> x <> INNER_CONTENT_TYPE_HANDSHAKE ->
  exists s', read_application_data (S fuel) s = (s', Err (InvalidMessage ("unknown inner content type: 0x" +++ hex02 x)%string%rust)).
Proof.
  intros I V B Q U N1 N2. pose proof (len_nonneg content) as Pc. assert (Lx : len (content ++ [x]) = len content + 1) by (rewrite len_app; reflexivity).
  destruct (read_emitted (LT:=pipe_laws) "" "GCM decrypt: " s v (content ++ [x]) w I V) as (s1 & t' & hd & E1 & E2 & _);
    [lia|lia|exact Q|exact U|]. exists s1. cbn [read_application_data]. apply bind_err. unfold read_record.
  rewrite (bind_ok _ _ _ _ _ E1), (bind_ok _ _ _ _ _ E2), bind_failIf. rewrite (proj2 (Z.eqb_neq _ _)) by lia.
  destruct (snoc_split (content ++ [x])) as (q0 & x0 & E0 & Rl & Ix); [now destruct content|].
  apply app_inj_tail in E0 as [<- <-]. rewrite bind_lift, Ix. cbv zeta.
  rewrite (proj2 (Z.eqb_neq _ _) N1), (proj2 (Z.eqb_neq _ _) N2). reflexivity.
Qed.

(** Closing a TLS stream. [close] sends one protected alert record and marks
    the stream; a second [close] does nothing. The peer's
    [read_application_data] answers the alert with an error, an unknown content
    type; only [recv_close_notify] takes it, but it takes any protected record
    for one: application data, which is then lost, is reported as a close_notify
    too. The end of the transport is reported as its absence. *)
Theorem tls_close_notify (a b : stream) (p v : bytes) (fuel : nat) (is_eof : string -> bool) :
  stream_inv a -> write_seq a < u64_max -> close_notify_sent a = false -> stream_inv b -> rdir b = wdir a ->
  incoming (inner b) = [] -> payload_ok p = true -> version_ok v -> is_eof "early eof"%string = true ->
  exists a' alert, close a = (a', Ok tt) /\ close a' = (a', Ok tt) /\ wdir a' = bump (wdir a) /\
    outgoing (inner a') = outgoing (inner a) ++ alert /\
    let b1 := set_inner {| incoming := alert; outgoing := outgoing (inner b) |} b in
    (exists b', read_application_data (S fuel) b1 = (b', Err (InvalidMessage "unknown inner content type: 0x15"))) /\
    (exists b', recv_close_notify is_eof b1 = (b', Ok true)) /\
    (exists b', recv_close_notify is_eof (set_inner {| incoming := emit (wdir a) v (p ++ [INNER_CONTENT_TYPE_APPLICATION_DATA]);
       outgoing := outgoing (inner b) |} b) = (b', Ok true)) /\
    recv_close_notify is_eof b = (b, Ok false).
Proof.
  intros Ia Qa Ca Ib Rb Eb Py V Eof. set (content := [0x01; 0x00] ++ [INNER_CONTENT_TYPE_ALERT]).
  destruct (write_sealed_ok (LT:=pipe_laws) "close_notify" content a Ia Qa) as (s1 & E1 & I1 & W1 & O1 & _ & Se & _).
  exists (set_closed s1), (emit (wdir a) (version a) content). split.
  { unfold close. rewrite bind_gets, Ca. exact (bind_ok _ _ _ _ _ E1). }
  split; [reflexivity|]. split; [exact W1|]. split; [exact Se|]. cbv zeta.
  assert (Ib' : forall t, stream_inv (set_inner t b)) by (intros t; destruct Ib; constructor; assumption).
  assert (Qb : read_seq b < u64_max) by (injection Rb; intros; congruence).
  split; [|split; [|split]].
  - apply (read_alert fuel _ (version a) [0x01; 0x00] [] INNER_CONTENT_TYPE_ALERT (Ib' _) (inv_version a Ia));
      [reflexivity || (vm_compute; discriminate)|exact Qb|rewrite app_nil_r; unfold rdir in *; cbn; now rewrite Rb|discriminate|discriminate].
  - eapply (recv_protected is_eof _ (version a) content [] (Ib' _) (inv_version a Ia)); [reflexivity|vm_compute; discriminate|exact Qb|].
    rewrite app_nil_r. change (rdir (set_inner _ b)) with (rdir b). now rewrite Rb.
  - pose proof (payload_content_bound p Py). pose proof (len_nonneg p).
    eapply (recv_protected is_eof _ v (p ++ [INNER_CONTENT_TYPE_APPLICATION_DATA]) [] (Ib' _) V);
      [rewrite len_app; change (len [_]) with 1; lia|assumption|exact Qb|].
    rewrite app_nil_r. change (rdir (set_inner _ b)) with (rdir b). now rewrite Rb.
  - unfold recv_close_notify. cbn [read_exact pipe_transport]. rewrite Eb. change (len [] <? 5) with true. cbv iota. rewrite Eof.
    destruct b as [[bi bo]]; cbn in Eb; subst bi. reflexivity.
Qed.
End Channel.

(** ** Instances *)

Definition sample_end (is_client : bool) : GmTlsStream pipe :=
  established no_bytes (@secrets_of toy_sm3 [1; 2]) is_client [0x03; 0x03] None.

Lemma sample_version : version_ok [0x03; 0x03].
Proof. now split. Qed.

Lemma sample_reach : @reach toy_sm3 toy_crates
  {| end_a := sample_end true; end_b := sample_end false; sent_a := []; sent_b := []; got_a := []; got_b := [] |}.
Proof.
  apply (@reach_start toy_sm3 toy_crates [1] [2] (@secrets_of toy_sm3 [1; 2]) [0x03; 0x03] [0x03; 0x03] None).
  - apply (@derive_session_keys_ok toy_sm3 toy_sm3_laws [1] [2]).
  - apply sample_version.
  - apply sample_version.
Qed.

Lemma tls_ends_in_step_witness : exists a' b',
  @write_application_data pipe toy_sm3 toy_crates _ [1; 2; 3] (sample_end true) = (a', Ok tt) /\
  @read_application_data pipe toy_sm3 toy_crates _ (S (List.length (outgoing (inner a'))))
    (set_inner {| incoming := outgoing (inner a'); outgoing := [] |} (sample_end false)) = (b', Ok (Some [1; 2; 3])).
Proof.
  destruct (@tls_ends_in_step toy_sm3 toy_crates toy_sm3_laws toy_laws _ sample_reach) as (_ & _ & _ & Wr & _).
  destruct (Wr [1; 2; 3] eq_refl) as (a' & E & _). exists a'.
  pose proof (reach_write _ [1; 2; 3] a' sample_reach eq_refl E) as R1.
  pose proof (reach_arrive _ (outgoing (inner a')) [] R1 (eq_sym (app_nil_r _))) as R2.
  destruct (@tls_ends_in_step toy_sm3 toy_crates toy_sm3_laws toy_laws _ (reach_swap _ R2)) as (_ & _ & _ & _ & _ & Rd).
  destruct (Rd eq_refl) as (b' & p & q & Er & Eq); [discriminate|]. injection Eq as <- _. exists b'. split; [exact E|exact Er].
Defined.

Lemma tls_close_notify_witness : exists a',
  @close pipe toy_crates _ (sample_end true) = (a', Ok tt) /\ @close pipe toy_crates _ a' = (a', Ok tt).
Proof.
  pose proof (@established_ok pipe toy_sm3 toy_sm3_laws no_bytes [1; 2]) as Ok'.
  destruct (@tls_close_notify toy_sm3 toy_crates toy_laws (sample_end true) (sample_end false) [7] [0x03; 0x03] 0
    (fun e => String.eqb e "early eof")) as (a' & alert & E1 & E2 & _);
    [apply Ok', sample_version|reflexivity|reflexivity|apply Ok', sample_version|reflexivity|reflexivity|reflexivity|apply sample_version|reflexivity|].
  exists a'. now split.
Defined.

Lemma tls_read_accepts_only_protected_witness : exists s' o,
  @read_application_data pipe toy_sm3 toy_crates _ 1 (set_inner {| incoming := [0x17; 3; 3; 0; 1; 9]; outgoing := [] |} (sample_end true)) = (s', o) /\
  o <> Panic /\ o <> Ok None.
Proof.
  assert (I : stream_inv (set_inner {| incoming := [0x17; 3; 3; 0; 1; 9]; outgoing := [] |} (sample_end true))).
  { destruct (@established_ok pipe toy_sm3 toy_sm3_laws no_bytes [1; 2] true [0x03; 0x03] None sample_version) as ([] & _). constructor; assumption. }
  destruct (@tls_read_accepts_only_protected toy_sm3 toy_crates toy_sm3_laws toy_laws pipe _ pipe_laws _ 1%nat I) as (s' & o & E & Np & Nn & _);
    [reflexivity|reflexivity|]. exists s', o. auto.
Defined.
