(* ===== verification/TlsPoll.v ===== *)
(** The polling interface of the TLS stream (gm-tls/src/record_layer.rs, the
    [AsyncRead] and [AsyncWrite] implementations of [GmTlsStream]): [poll_read]
    with its resumable read state, [poll_write], [poll_flush] and
    [poll_shutdown], over the polling transports of Effects.v.

    An early return of [Poll::Pending] and one of [Poll::Ready(Err(_))] are the
    two constructors of [stop]; waking the task is left out. *)

From Stdlib Require Import String Bool ZArith Lia List.
From S2P Require Import Prelude Bytes Effects Sm4 Sm3 TlsKeys TlsRecord.
Import ListNotations.
Open Scope Z_scope.

Section Poll.
Context {T : Type} {H : Sm3Crate} {C : Sm4Crates} {PT : PollTransport T}.
Local Abbreviation stream := (GmTlsStream T).

Definition on_poll {A : Type} (m : M T stop A) : M stream stop A := fun s =>
  let '(t, o) := m (inner s) in (set_inner t s, o).

Definition set_read_state (rs : ReadState) (s : stream) : stream :=
  set_rest s (inner s) (read_buf s) (read_buf_pos s) rs (close_notify_sent s) (key_update_pending s) (key_update_count s).
Definition set_read_buf (buf : bytes) (pos : Z) (s : stream) : stream :=
  set_rest s (inner s) buf pos (read_state s) (close_notify_sent s) (key_update_pending s) (key_update_count s).

(** ** Reading *)

(** Copies from the read buffer to a caller with room for [remaining] bytes. *)
Definition take_buffered (remaining : Z) : M stream stop bytes :=
  buf <-- gets read_buf ;;;
  pos <-- gets read_buf_pos ;;;
  available <-- lift (usize_sub (len buf) pos) ;;;
  let to_copy := Z.min available remaining in
  out <-- lift (slice buf pos (pos + to_copy)) ;;;
  modify (if len buf <=? pos + to_copy then set_read_buf [] 0 else set_read_buf buf (pos + to_copy)) ;;;
  ret out.

(** A read into [buf[at..]] that filled it with [chunk]. *)
Definition splice (buf : bytes) (at_ : Z) (chunk : bytes) : bytes :=
  firstn (Z.to_nat at_) buf ++ chunk ++ skipn (Z.to_nat (at_ + len chunk)) buf.

(** [while header_filled < 5]; every turn reads at least one byte. *)
Fixpoint fill_header (fuel : nat) : M stream stop unit :=
  match fuel with
  | O => lift Panic
  | S fuel =>
      rs <-- gets read_state ;;;
      if header_filled rs <? 5 then
        room <-- lift (usize_sub (len (header rs)) (header_filled rs)) ;;;
        chunk <-- on_poll (poll_read room) ;;;
        failIf (len chunk =? 0) (Failed "TLS record header read incomplete") ;;;
        modify (set_read_state {| header := splice (header rs) (header_filled rs) chunk;
                                  header_filled := header_filled rs + len chunk; ct_len := ct_len rs; body := body rs;
                                  body_filled := body_filled rs |}) ;;;
        fill_header fuel
      else ret tt
  end.

(** [while body_filled < body.len()]. *)
Fixpoint fill_body (fuel : nat) : M stream stop unit :=
  match fuel with
  | O => lift Panic
  | S fuel =>
      rs <-- gets read_state ;;;
      if body_filled rs <? len (body rs) then
        room <-- lift (usize_sub (len (body rs)) (body_filled rs)) ;;;
        chunk <-- on_poll (poll_read room) ;;;
        failIf (len chunk =? 0) (Failed "TLS record read incomplete") ;;;
        modify (set_read_state {| header := header rs; header_filled := header_filled rs; ct_len := ct_len rs;
                                  body := splice (body rs) (body_filled rs) chunk;
                                  body_filled := body_filled rs + len chunk |}) ;;;
        fill_body fuel
      else ret tt
  end.

(** The body buffer for the length of the header, allocated when it changed. *)
Definition allocate_body (n : Z) (rs : ReadState) : ReadState :=
  if ct_len rs =? n then rs
  else {| header := header rs; header_filled := header_filled rs; ct_len := n; body := repeat 0 (Z.to_nat n); body_filled := 0 |}.

Definition bump_read : M stream stop unit := fun s =>
  if read_seq s =? u64_max then (s, Err (Failed "Sequence overflow")) else (set_read_seq (read_seq s + 1) s, Ok tt).

Definition poll_open (hd ciphertext : bytes) (ct_len : Z) : M stream stop bytes :=
  n <-- lift (usize_sub ct_len 16) ;;;
  ciphertext_bytes <-- lift (slice_to ciphertext n) ;;;
  tag <-- lift (slice_from ciphertext n) ;;;
  base <-- gets read_nonce ;;;
  seq <-- gets read_seq ;;;
  nonce <-- lift (map_err (fun e => Failed ("Nonce overflow: " +++ display_tls e)%string) (next_nonce base seq)) ;;;
  bump_read ;;;
  cipher <-- mapM_err (fun e => Failed ("SM4 key error: " +++ display_tls e)%string) get_cipher_dec ;;;
  lift (map_err (fun e => Failed ("GCM decryption failed: " +++ debug_crypto e)%string)
          (decrypt_gcm cipher ciphertext_bytes nonce (be_bytes 8 seq ++ hd) tag)).

Definition poll_alert (plaintext : bytes) : M stream stop bytes :=
  if (2 <=? len plaintext) && (nth 0 plaintext 0 =? 0x01) && (nth 1 plaintext 0 =? 0x00) then ret []
  else fail (Failed ("TLS alert: level=" +++ dec (nth 0 plaintext 0) +++ " description=" +++ dec (nth 1 plaintext 0))%string).

Definition poll_dispatch (remaining : Z) (content : bytes) : M stream stop bytes :=
  failIf (len content =? 0) (Failed "decrypted record is empty (missing inner content type)") ;;;
  inner_content_type <-- lift (index content (len content - 1)) ;;;
  let plaintext := removelast content in
  if inner_content_type =? INNER_CONTENT_TYPE_APPLICATION_DATA then
    modify (set_read_buf plaintext 0) ;;; take_buffered remaining
  else if inner_content_type =? INNER_CONTENT_TYPE_HANDSHAKE then
    mapM_err (fun e => Failed ("post-handshake processing failed: " +++ display_tls e)%string)
      (process_inner_handshake plaintext) ;;;
    fail Pending
  else if inner_content_type =? INNER_CONTENT_TYPE_ALERT then poll_alert plaintext
  else fail (Failed ("unknown inner content type: 0x" +++ hex02 inner_content_type)%string).

(** From a complete header on. *)
Definition poll_body (remaining : Z) : M stream stop bytes :=
  rs <-- gets read_state ;;;
  h0 <-- lift (index (header rs) 0) ;;;
  failIf (negb (h0 =? RECORD_TYPE_APPLICATION_DATA))
    (Failed ("expected application_data record 0x17, got 0x" +++ hex02 h0)%string) ;;;
  l0 <-- lift (index (header rs) 3) ;;;
  l1 <-- lift (index (header rs) 4) ;;;
  let n := from_be [l0; l1] in
  failIf (n <? 16) (Failed "TLS record too short") ;;;
  failIf (MAX_RECORD_SIZE <? n) (Failed "TLS record exceeds size limit") ;;;
  modify (fun s => set_read_state (allocate_body n (read_state s)) s) ;;;
  fill_body (S (Z.to_nat n)) ;;;
  rs <-- gets read_state ;;;
  modify (set_read_state read_state_reset) ;;;
  content <-- poll_open (header rs) (body rs) n ;;;
  poll_dispatch remaining content.

(** The bytes [poll_read] puts into a buffer with room for [remaining]. *)
Definition stream_poll_read (remaining : Z) : M stream stop bytes := fun s =>
  if read_buf_pos s <? len (read_buf s) then take_buffered remaining s
  else (fill_header 6 ;;; poll_body remaining) s.

(** ** Writing *)

Definition bump_write : M stream stop unit := fun s =>
  if write_seq s =? u64_max then (s, Err (Failed "Sequence overflow")) else (set_write_seq (write_seq s + 1) s, Ok tt).

(** A piece that must be accepted whole. *)
Definition write_whole (piece : bytes) (what : string) : M stream stop unit :=
  n <-- on_poll (poll_write piece) ;;;
  failIf (negb (n =? len piece)) (Failed ("failed to write " +++ what)%string).

(** [while written < piece.len()]; every turn writes at least one byte. *)
Fixpoint write_loop (fuel : nat) (piece : bytes) (what : string) (written : Z) : M stream stop unit :=
  match fuel with
  | O => lift Panic
  | S fuel =>
      if written <? len piece then
        chunk <-- lift (slice_from piece written) ;;;
        n <-- on_poll (poll_write chunk) ;;;
        if 0 <? n then write_loop fuel piece what (written + n) else fail (Failed ("failed to write " +++ what)%string)
      else ret tt
  end.

Definition stream_poll_write (buf : bytes) : M stream stop Z :=
  base <-- gets write_nonce ;;;
  seq <-- gets write_seq ;;;
  nonce <-- lift (map_err (fun e => Failed ("Nonce overflow: " +++ display_tls e)%string) (next_nonce base seq)) ;;;
  let seq_bytes := be_bytes 8 seq in
  bump_write ;;;
  version_bytes <-- gets version ;;;
  cipher <-- mapM_err (fun e => Failed ("SM4 key error: " +++ display_tls e)%string) get_cipher_enc ;;;
  let content := buf ++ [INNER_CONTENT_TYPE_APPLICATION_DATA] in
  let aad := seq_bytes ++ record_header version_bytes (len content) in
  sealed <-- lift (map_err (fun e => Failed ("GCM encryption failed: " +++ debug_crypto e)%string)
                (encrypt_gcm cipher content nonce aad)) ;;;
  let '(ciphertext, tag) := sealed in
  failIf (65535 - 1024 <? as_u16 (len ciphertext + len tag)) (Failed "TLS record too large") ;;;
  write_whole [RECORD_TYPE_APPLICATION_DATA] "content type" ;;;
  write_whole version_bytes "version" ;;;
  write_whole (be_bytes 2 (as_u16 (len content + 16))) "length" ;;;
  write_loop (S (List.length ciphertext)) ciphertext "ciphertext" 0 ;;;
  write_loop (S (List.length tag)) tag "tag" 0 ;;;
  ret (len buf).

Definition stream_poll_flush : M stream stop unit := on_poll poll_flush.

(** The loop of [poll_shutdown], which gives up on an error. *)
Fixpoint shutdown_loop (fuel : nat) (record : bytes) (written : Z) : M stream stop unit := fun s =>
  match fuel with
  | O => (s, Panic)
  | S fuel =>
      if written <? len record then
        match slice_from record written with
        | Ok chunk =>
            match on_poll (poll_write chunk) s with
            | (s', Ok n) => if 0 <? n then shutdown_loop fuel record (written + n) s' else (s', Ok tt)
            | (s', Err (Failed _)) => (s', Ok tt)
            | (s', Err Pending) => (s', Err Pending)
            | (s', Panic) => (s', Panic)
            end
        | Err e => (s, Err e)
        | Panic => (s, Panic)
        end
      else (s, Ok tt)
  end.

(** The sealed close_notify record. *)
Definition shutdown_record : M stream TlsError bytes :=
  base <-- gets write_nonce ;;;
  seq <-- gets write_seq ;;;
  nonce <-- lift (next_nonce base seq) ;;;
  let seq_bytes := be_bytes 8 seq in
  bump_write_seq ;;;
  version_bytes <-- gets version ;;;
  cipher <-- get_cipher_enc ;;;
  let content := [0x01; 0x00; INNER_CONTENT_TYPE_ALERT] in
  let aad := seq_bytes ++ record_header version_bytes (len content) in
  sealed <-- lift (map_err from_crypto (encrypt_gcm cipher content nonce aad)) ;;;
  ret (RECORD_TYPE_APPLICATION_DATA :: version_bytes ++ be_bytes 2 (as_u16 (len (fst sealed) + len (snd sealed))) ++ fst sealed ++ snd sealed).

Definition stream_poll_shutdown : M stream stop unit := fun s =>
  if close_notify_sent s then on_poll poll_shutdown s
  else
    let '(s1, o) := shutdown_record s in
    match o with
    | Ok record =>
        (shutdown_loop (S (List.length record)) record 0 ;;; modify set_closed ;;; on_poll poll_shutdown) s1
    | Err _ => on_poll poll_shutdown s1
    | Panic => (s1, Panic)
    end.
End Poll.

(** ** A record arriving in pieces *)

Lemma splice_spec buf at_ chunk x n : len buf = n -> 0 <= at_ -> firstn (Z.to_nat at_) buf = x -> len x = at_ ->
  at_ + len chunk <= n -> len (splice buf at_ chunk) = n /\ firstn (Z.to_nat (at_ + len chunk)) (splice buf at_ chunk) = x ++ chunk.
Proof.
  intros L P X Lx B. pose proof (len_nonneg chunk) as Pc. unfold splice. rewrite X. split.
  - rewrite !len_app, len_skipn, Lx by lia. lia.
  - rewrite app_assoc. apply firstn_exact. rewrite length_app. unfold len in *. lia.
Qed.

(** [partial rs arrived]: the read state [rs] holds the bytes [arrived] of a record. *)
Record partial (rs : ReadState) (arrived : bytes) : Prop := {
  partial_header : len (header rs) = 5;
  partial_body : exists h b, arrived = h ++ b /\ firstn (Z.to_nat (header_filled rs)) (header rs) = h /\ header_filled rs = len h /\
    len h <= 5 /\ firstn (Z.to_nat (body_filled rs)) (body rs) = b /\ body_filled rs = len b /\ len b <= len (body rs) /\
    (len h < 5 -> b = []) /\ (ct_len rs = 0 /\ body rs = [] \/ 16 <= ct_len rs /\ len (body rs) = ct_len rs /\ len h = 5 /\
       ct_len rs = from_be (skipn 3 h))
}.

Lemma partial_reset : partial read_state_reset [].
Proof.
  constructor; [reflexivity|]. exists [], []. do 3 (split; [reflexivity|]). split; [vm_compute; discriminate|].
  do 2 (split; [reflexivity|]). split; [vm_compute; discriminate|]. split; [reflexivity|]. now left.
Qed.

Section Pieces.
Context {H : Sm3Crate} {LH : Sm3Laws H} {C : Sm4Crates} {LC : Sm4Laws C}.
Local Abbreviation stream := (GmTlsStream script).

(** [s'] is [s] with more of its input taken into the read state. *)
Definition advanced (s s' : stream) : Prop := exists rs t, s' = set_read_state rs (set_inner t s) /\ s_out t = s_out (inner s) /\
  writes t = writes (inner s) /\ (List.length (reads t) <= List.length (reads (inner s)))%nat.

Definition pending_in (s : stream) (u : bytes) : Prop := exists a, partial (read_state s) a /\ u = a ++ s_in (inner s).

Lemma advanced_refl (s : stream) : advanced s s.
Proof. exists (read_state s), (inner s). now destruct s. Qed.

Lemma advanced_trans (a b c : stream) : advanced a b -> advanced b c -> advanced a c.
Proof.
  intros (rs & t & -> & O1 & W1 & R1) (rs' & t' & -> & O2 & W2 & R2). exists rs', t'. cbn in *. split; [reflexivity|].
  split; [congruence|]. split; [congruence|lia].
Qed.

(** One read of at least one byte, or a shorter schedule. *)
Lemma script_read cap (s : stream) : 0 < cap -> s_in (inner s) <> [] -> exists t o, on_poll (poll_read cap) s = (set_inner t s, o) /\
  s_out t = s_out (inner s) /\ writes t = writes (inner s) /\
  ((o = Err Pending /\ s_in t = s_in (inner s) /\ (List.length (reads t) < List.length (reads (inner s)))%nat) \/
   (exists c, o = Ok c /\ s_in (inner s) = c ++ s_in t /\ 0 < len c <= cap /\ (List.length (reads t) <= List.length (reads (inner s)))%nat)).
Proof.
  intros P N. unfold on_poll. cbn [poll_read script_poll]. destruct (s_in (inner s)) as [|x u] eqn:U; [contradiction|].
  set (u' := x :: u) in *. assert (Lu : 0 < len u') by (unfold u'; rewrite len_cons; pose proof (len_nonneg u); lia).
  destruct (reads (inner s)) as [|k q] eqn:Q; cbn [quota].
  - do 2 eexists. split; [reflexivity|]. cbn. split; [reflexivity|]. split; [reflexivity|]. right. eexists. split; [reflexivity|].
    split; [now rewrite firstn_skipn|]. rewrite len_firstn by lia. split; [lia|reflexivity].
  - destruct (Z.leb_spec k 0).
    + do 2 eexists. split; [reflexivity|]. cbn. split; [reflexivity|]. split; [reflexivity|]. left. split; [reflexivity|]. split; [reflexivity|lia].
    + do 2 eexists. split; [reflexivity|]. cbn. split; [reflexivity|]. split; [reflexivity|]. right. eexists. split; [reflexivity|].
      split; [now rewrite firstn_skipn|]. rewrite len_firstn by lia. split; [lia|lia].
Qed.

Lemma advanced_inner (s : stream) t : s_out t = s_out (inner s) -> writes t = writes (inner s) ->
  (List.length (reads t) <= List.length (reads (inner s)))%nat -> advanced s (set_inner t s).
Proof. intros. exists (read_state s), t. now destruct s. Qed.

Lemma fill_header_spec fuel : forall (s : stream) u, pending_in s u -> 5 <= len u -> 5 - header_filled (read_state s) < Z.of_nat fuel ->
  exists s' o, fill_header fuel s = (s', o) /\ advanced s s' /\ pending_in s' u /\
    ((o = Ok tt /\ header_filled (read_state s') = 5 /\ header (read_state s') = firstn 5 u) \/
     (o = Err Pending /\ (List.length (reads (inner s')) < List.length (reads (inner s)))%nat)).
Proof.
  induction fuel as [|fuel IH]; intros s u Pi L5 B; destruct Pi as (a & Pa & ->);
    destruct Pa as [Lh (h & b & -> & Eh & Hf & Lh5 & Eb & Bf & Lb & B0 & Ct)]; pose proof (len_nonneg h); [lia|].
  cbn [fill_header]. rewrite bind_gets. destruct (Z.ltb_spec (header_filled (read_state s)) 5) as [Lt|Ge].
  - rewrite bind_lift, usize_sub_ok by lia.
    destruct b as [|b0 b]; [|discriminate B0; lia]. assert (Fresh : ct_len (read_state s) = 0 /\ body (read_state s) = []) by (destruct Ct; [assumption|lia]).
    destruct (script_read (len (header (read_state s)) - header_filled (read_state s)) s) as (t & o & E & So & Sw & Cs); [lia| |].
    { intros X. rewrite X, !app_nil_r in L5. lia. }
    destruct Cs as [(-> & Si & Rs)|(c & -> & Si & Lc & Rs)].
    + rewrite (bind_err _ _ _ _ _ E). do 2 eexists. split; [reflexivity|]. split; [now apply advanced_inner; [| |lia]|].
      split; [|right; split; [reflexivity|exact Rs]]. exists (h ++ []). split; [|cbn; now rewrite Si].
      constructor; [exact Lh|]. exists h, []. auto 12.
    + rewrite (bind_ok _ _ _ _ _ E), bind_failIf. rewrite (proj2 (Z.eqb_neq _ _)) by lia. unfold modify. unfold bindM at 1.
      set (rs' := {| header := _ |}). set (s1 := set_read_state rs' (set_inner t s)).
      destruct (splice_spec (header (read_state s)) (header_filled (read_state s)) c h 5 Lh) as [Ls Fs]; [lia|exact Eh|lia|lia|].
      destruct (IH s1 ((h ++ []) ++ s_in (inner s))) as (s' & o & E' & Ad & Pi' & Cs).
      * exists ((h ++ c) ++ []). split; [|cbn; rewrite Si, !app_nil_r; now rewrite app_assoc].
        constructor; [exact Ls|]. exists (h ++ c), []. split; [reflexivity|]. split; [exact Fs|].
        split; [cbn; rewrite len_app; lia|]. split; [rewrite len_app; lia|]. split; [cbn; rewrite Eb; reflexivity|]. split; [exact Bf|].
        split; [exact Lb|]. split; [reflexivity|]. now left.
      * exact L5.
      * cbn. lia.
      * exists s', o. split; [exact E'|]. split; [eapply advanced_trans; [|exact Ad]; exists rs', t; auto|]. split; [exact Pi'|].
        destruct Cs as [Cs|[-> X]]; [now left|right]. split; [reflexivity|]. cbn in X. lia.
  - do 2 eexists. split; [reflexivity|]. split; [apply advanced_refl|]. assert (L5' : len h = 5) by lia. split.
    + exists (h ++ b). split; [|reflexivity]. constructor; [exact Lh|]. exists h, b. auto 12.
    + left. split; [reflexivity|]. split; [lia|]. rewrite <- app_assoc, firstn_exact by (unfold len in L5'; lia).
      rewrite <- Eh. symmetry. apply firstn_all2. unfold len in Lh. lia.
Qed.

(** The read state of [s] has the header and a body buffer for it. *)
Definition body_stage (s : stream) (u : bytes) (n : Z) : Prop :=
  exists b, len (header (read_state s)) = 5 /\ header_filled (read_state s) = 5 /\ ct_len (read_state s) = n /\
    len (body (read_state s)) = n /\ firstn (Z.to_nat (body_filled (read_state s))) (body (read_state s)) = b /\
    body_filled (read_state s) = len b /\ len b <= n /\ u = header (read_state s) ++ b ++ s_in (inner s).

Lemma body_stage_pending (s : stream) u n : body_stage s u n -> 16 <= n -> n = from_be (skipn 3 (header (read_state s))) -> pending_in s u.
Proof.
  intros (b & Lh & Hf & Ct & Lb & Eb & Bf & Bb & ->) N F. exists (header (read_state s) ++ b). split; [|now rewrite <- app_assoc].
  constructor; [exact Lh|]. exists (header (read_state s)), b. split; [reflexivity|].
  split; [rewrite Hf; apply firstn_all2; unfold len in Lh; lia|]. split; [lia|]. split; [lia|]. split; [exact Eb|]. split; [exact Bf|].
  split; [lia|]. split; [lia|]. right. rewrite Ct. auto.
Qed.

Lemma fill_body_spec fuel : forall (s : stream) u n, body_stage s u n -> 0 <= n -> 5 + n <= len u -> n - body_filled (read_state s) < Z.of_nat fuel ->
  exists s' o, fill_body fuel s = (s', o) /\ advanced s s' /\ body_stage s' u n /\ header (read_state s') = header (read_state s) /\
    ((o = Ok tt /\ header (read_state s') ++ body (read_state s') ++ s_in (inner s') = u) \/
     (o = Err Pending /\ (List.length (reads (inner s')) < List.length (reads (inner s)))%nat)).
Proof.
  induction fuel as [|fuel IH]; intros s u n St N Lu B; destruct St as (b & Lh & Hf & Ct & Lb & Eb & Bf & Bb & Eu); pose proof (len_nonneg b); [lia|].
  cbn [fill_body]. rewrite bind_gets. destruct (Z.ltb_spec (body_filled (read_state s)) (len (body (read_state s)))) as [Lt|Ge].
  - rewrite bind_lift, usize_sub_ok by lia.
    destruct (script_read (len (body (read_state s)) - body_filled (read_state s)) s) as (t & o & E & So & Sw & Cs); [lia| |].
    { intros X. rewrite Eu, X, app_nil_r, len_app in Lu. lia. }
    destruct Cs as [(-> & Si & Rs)|(c & -> & Si & Lc & Rs)].
    + rewrite (bind_err _ _ _ _ _ E). do 2 eexists. split; [reflexivity|]. split; [now apply advanced_inner; [| |lia]|].
      split; [|split; [reflexivity|right; split; [reflexivity|exact Rs]]]. exists b. cbn [inner set_inner set_rest read_state]. rewrite Si. auto 12.
    + rewrite (bind_ok _ _ _ _ _ E), bind_failIf. rewrite (proj2 (Z.eqb_neq _ _)) by lia. unfold modify. unfold bindM at 1.
      set (rs' := {| header := _ |}). set (s1 := set_read_state rs' (set_inner t s)).
      destruct (splice_spec (body (read_state s)) (body_filled (read_state s)) c b n Lb) as [Ls Fs]; [lia|exact Eb|lia|lia|].
      destruct (IH s1 u n) as (s' & o & E' & Ad & St' & Hd & Cs); [|exact N|exact Lu|cbn; lia|].
      * exists (b ++ c). cbn. rewrite len_app, Eu, Si, <- !app_assoc. repeat (split; [assumption || lia|]). reflexivity.
      * exists s', o. split; [exact E'|]. split; [eapply advanced_trans; [|exact Ad]; exists rs', t; auto|]. split; [exact St'|].
        split; [exact Hd|]. destruct Cs as [Cs|[-> X]]; [now left|right]. split; [reflexivity|]. cbn in X. lia.
  - do 2 eexists. split; [reflexivity|]. split; [apply advanced_refl|]. split; [exists b; auto 12|]. split; [reflexivity|]. left.
    split; [reflexivity|]. rewrite Eu. do 2 f_equal. rewrite <- Eb. symmetry. apply firstn_all2. unfold len in *. lia.
Qed.

(** A full header allocates the body buffer, or finds it allocated. *)
Lemma allocate_stage (s : stream) u n : pending_in s u -> header_filled (read_state s) = 5 -> n = from_be (skipn 3 (header (read_state s))) ->
  16 <= n -> body_stage (set_read_state (allocate_body n (read_state s)) s) u n /\ header (allocate_body n (read_state s)) = header (read_state s).
Proof.
  intros (a & [Lh (h & b & -> & Eh & Hf & Lh5 & Eb & Bf & Lb & B0 & Ct)] & ->) F5 En N.
  assert (Ehd : h = header (read_state s)) by (rewrite <- Eh, F5; apply firstn_all2; unfold len in Lh; lia).
  assert (Pos : 0 <= n) by lia. unfold allocate_body, body_stage. destruct Ct as [[C0 Cb]|(C16 & Lbd & _ & Cn)].
  - rewrite C0. rewrite (proj2 (Z.eqb_neq _ _)) by lia. split; [|reflexivity]. exists [].
    cbn [read_state set_read_state set_rest header header_filled ct_len body body_filled inner].
    assert (b = []) as -> by (destruct b; [reflexivity|]; rewrite Cb, len_cons, len_nil in Lb; pose proof (len_nonneg b); lia).
    rewrite app_nil_r, Ehd. repeat (split; [assumption || reflexivity || lia|]). split; [unfold len; rewrite repeat_length; lia|].
    repeat (split; [assumption || reflexivity || lia|]). reflexivity.
  - rewrite Cn, Ehd, <- En, Z.eqb_refl. split; [|reflexivity]. exists b.
    cbn [read_state set_read_state set_rest inner]. rewrite Ehd, <- En in *. repeat (split; [assumption || lia|]). now rewrite <- Ehd, <- app_assoc.
Qed.

Lemma poll_open_agree (s : stream) hd buf (f : CryptoError -> TlsError) :
  agree ((n <-- lift (usize_sub (len buf) 16) ;;;
   ciphertext <-- lift (slice_to buf n) ;;;
   tag <-- lift (slice_from buf n) ;;;
   base <-- gets read_nonce ;;;
   seq <-- gets read_seq ;;;
   nonce <-- lift (next_nonce base seq) ;;;
   bump_read_seq ;;;
   cipher <-- get_cipher_dec ;;;
   lift (map_err f (decrypt_gcm cipher ciphertext nonce (be_bytes 8 seq ++ hd) tag)))%rust s) (poll_open hd buf (len buf) s).
Proof.
  unfold poll_open. apply agree_bind; [apply agree_lift; unfold usize_sub; now destruct (_ <=? _)|]. intros n s1.
  apply agree_bind; [apply agree_lift; unfold slice_to; now destruct (_ && _)|]. intros ct s2.
  apply agree_bind; [apply agree_lift; unfold slice_from; now destruct (_ && _)|]. intros tag s3.
  apply agree_bind; [now split|]. intros base s4. apply agree_bind; [now split|]. intros seq s5.
  apply agree_bind; [apply agree_lift, same_map_err_r|]. intros nonce s6.
  apply agree_bind; [unfold bump_read_seq, bump_read; now destruct (_ =? _)|]. intros _ s7.
  apply agree_bind; [|intros c s8; apply agree_lift, same_map_err].
  unfold mapM_err. destruct (get_cipher_dec s7) as [s' o]. split; [reflexivity|apply same_map_err_r].
Qed.

(** What a completed record has done to the reader. *)
Definition completed (s s' : stream) : Prop := reads_from (LT:=script_laws) s s' /\ inner s' = inner s.

Lemma tls_poll_open_ok (s : stream) hd buf content : stream_inv s -> 16 <= len buf -> read_seq s < u64_max ->
  protects (rdir s) hd buf content -> exists s', poll_open hd buf (len buf) s = (s', Ok content) /\ completed s s' /\ rdir s' = bump (rdir s) /\
  key_update_pending s' = key_update_pending s.
Proof.
  intros I L Q P. destruct (open_spec (LT:=script_laws) s hd buf from_crypto I L) as (s' & o & E & Rf & Ii & _ & Pe & Bu & Iff).
  pose proof (poll_open_agree s hd buf from_crypto) as A. rewrite E in A. destruct (poll_open hd buf (len buf) s) as [s2 o2].
  destruct A as [A1 A2]. cbn [fst snd] in A1, A2. subst s2. rewrite (proj2 (Iff content) (conj Q P)) in A2.
  destruct o2 as [c|e|]; cbn in A2; try contradiction. subst c. exists s'. split; [reflexivity|]. split; [now split|]. split; [now apply Bu|exact Pe].
Qed.

Lemma advanced_inv (s s' : stream) : advanced s s' -> stream_inv s -> reads_from (LT:=script_laws) (set_read_state (read_state s') s) s' /\
  rdir s' = rdir s /\ key_update_pending s' = key_update_pending s /\ (List.length (reads (inner s')) <= List.length (reads (inner s)))%nat.
Proof.
  intros (rs & t & -> & So & _ & Rl) I. destruct I. split; [|auto]. unfold reads_from. split; [constructor; assumption|]. cbn. auto 8.
Qed.

(** The bytes of the last record that the caller has not taken yet. *)
Definition buffered (s : stream) : bytes := skipn (Z.to_nat (read_buf_pos s)) (read_buf s).

Lemma take_buffered_ok remaining (s : stream) : 0 <= remaining -> 0 <= read_buf_pos s <= len (read_buf s) -> exists buf pos,
  take_buffered remaining s = (set_read_buf buf pos s, Ok (firstn (Z.to_nat remaining) (buffered s))) /\
  buffered (set_read_buf buf pos s) = skipn (Z.to_nat remaining) (buffered s) /\ 0 <= pos <= len buf /\ (pos = len buf -> buf = [] /\ pos = 0).
Proof.
  intros R B. unfold take_buffered. rewrite !bind_gets, bind_lift, usize_sub_ok by lia. cbv zeta.
  set (k := Z.min _ _). rewrite bind_lift, slice_ok by lia. unfold modify, ret, bindM.
  assert (Lb : len (buffered s) = len (read_buf s) - read_buf_pos s) by (unfold buffered; rewrite len_skipn; lia).
  replace (Z.to_nat (read_buf_pos s + k - read_buf_pos s)) with (Z.to_nat k) by lia. fold (buffered s).
  assert (Ef : firstn (Z.to_nat k) (buffered s) = firstn (Z.to_nat remaining) (buffered s)).
  { unfold k. destruct (Z.min_spec (len (read_buf s) - read_buf_pos s) remaining) as [[Lt ->]|[Le ->]]; [|reflexivity].
    rewrite !firstn_all2; unfold len in *; lia || reflexivity. }
  rewrite Ef. destruct (Z.leb_spec (len (read_buf s)) (read_buf_pos s + k)).
  - exists [], 0. split; [reflexivity|]. split; [|split; [vm_compute; split; discriminate|now split]]. symmetry. apply skipn_all2. unfold len in *; lia.
  - exists (read_buf s), (read_buf_pos s + k). split; [reflexivity|]. split; [|lia]. unfold buffered at 1. cbn.
    replace k with remaining by lia. unfold buffered. rewrite skipn_skipn. f_equal. lia.
Qed.

(** The checks of [poll_body] on the header of a record. *)
Lemma poll_body_head remaining (s : stream) v (content : bytes) : version_ok v -> 0 < len content -> len content + 16 <= MAX_RECORD_SIZE ->
  header (read_state s) = record_header v (len content) ->
  let n := len content + 16 in
  poll_body remaining s = (fill_body (S (Z.to_nat n)) ;;;
    rs <-- gets read_state ;;;
    modify (set_read_state read_state_reset) ;;;
    content <-- poll_open (header rs) (body rs) n ;;;
    poll_dispatch remaining content)%rust (set_read_state (allocate_body n (read_state s)) s).
Proof.
  intros V Pc B Ehd n. remember (poll_body remaining s) as res eqn:Er. unfold poll_body in Er. rewrite bind_gets, Ehd in Er.
  pose proof (record_header_len v (len content) V) as Lh. pose proof (len5_length _ Lh) as Nh.
  destruct (firstn5 (record_header v (len content)) ltac:(lia)) as (h0 & h1 & h2 & h3 & h4 & E5). rewrite firstn_all2 in E5 by lia.
  assert (H0 : h0 = RECORD_TYPE_APPLICATION_DATA) by (unfold record_header in E5; now injection E5).
  assert (En : from_be [h3; h4] = n) by (unfold n; rewrite <- (record_header_skipn v (len content) V), E5 by (lia || now apply content_small); reflexivity).
  rewrite E5 in Er. change (bindM (lift (index [h0; h1; h2; h3; h4] 0)) ?k s) with (k h0 s) in Er. cbv beta in Er.
  rewrite bind_failIf, H0, Z.eqb_refl in Er. cbn [negb] in Er.
  change (bindM (lift (index [_; h1; h2; h3; h4] 3)) ?k s) with (k h3 s) in Er. cbv beta in Er.
  change (bindM (lift (index [_; h1; h2; h3; h4] 4)) ?k s) with (k h4 s) in Er. cbv beta zeta in Er. rewrite En, !bind_failIf in Er.
  do 2 (rewrite (proj2 (Z.ltb_ge _ _)) in Er by lia). exact Er.
Qed.

Lemma poll_once remaining (s : stream) u v content w : stream_inv s -> len (read_buf s) <= read_buf_pos s -> pending_in s u ->
  u = emit (rdir s) v content ++ w -> version_ok v -> 0 < len content -> len content + 16 <= MAX_RECORD_SIZE -> read_seq s < u64_max ->
  (exists s', stream_poll_read remaining s = (s', Err Pending) /\ advanced s s' /\ pending_in s' u /\
     (List.length (reads (inner s')) < List.length (reads (inner s)))%nat) \/
  (exists s0 s', stream_poll_read remaining s = poll_dispatch remaining content s' /\ advanced s s0 /\ s_in (inner s0) = w /\
     read_state s0 = read_state_reset /\ completed s0 s' /\ rdir s' = bump (rdir s) /\ key_update_pending s' = key_update_pending s).
Proof.
  intros I Eb Pi Eu V Pc B Q. destruct (emit_spec (rdir s) v content (inv_read s I)) as (ct & tag & Enc & Em & Lc & Lt & _).
  pose proof (record_header_len v (len content) V) as Lh. pose proof (len5_length _ Lh) as Nh. pose proof (len_nonneg w) as Pw.
  assert (Lu : len u = 5 + (len content + 16) + len w) by (rewrite Eu, Em, !len_app; lia).
  remember (stream_poll_read remaining s) as res eqn:Er. unfold stream_poll_read in Er. rewrite (proj2 (Z.ltb_ge _ _) Eb) in Er.
  assert (B6 : 5 - header_filled (read_state s) < Z.of_nat 6).
  { destruct Pi as (a & [_ (h & b & _ & _ & Hf & _)] & _). pose proof (len_nonneg h). lia. }
  destruct (fill_header_spec 6 s u Pi) as (s1 & o1 & E1 & A1 & Pi1 & Cs1); [lia|exact B6|].
  destruct Cs1 as [(-> & F5 & Eh)|(-> & Sh)].
  2: { left. exists s1. rewrite (bind_err _ _ _ _ _ E1) in Er. auto. }
  assert (Ehd : header (read_state s1) = record_header v (len content)).
  { rewrite Eh, Eu, Em, <- app_assoc. now apply firstn_exact. }
  rewrite (bind_ok _ _ _ _ _ E1), (poll_body_head remaining s1 v content V Pc B Ehd) in Er. set (n := len content + 16) in *.
  destruct (allocate_stage s1 u n Pi1 F5) as [St1 Ea]; [rewrite Ehd; symmetry; apply record_header_skipn; [exact V|lia|now apply content_small]|lia|].
  set (s2 := set_read_state _ s1) in *.
  assert (A2 : advanced s s2) by (eapply advanced_trans; [exact A1|]; exists (allocate_body n (read_state s1)), (inner s1); now destruct s1).
  assert (Bf : n - body_filled (read_state s2) < Z.of_nat (S (Z.to_nat n))).
  { destruct St1 as (b & _ & _ & _ & _ & _ & Bf & _). pose proof (len_nonneg b). lia. }
  destruct (fill_body_spec (S (Z.to_nat n)) s2 u n St1) as (s3 & o3 & E3 & A3 & St3 & Hd3 & Cs3); [lia|lia|exact Bf|].
  pose proof (advanced_trans _ _ _ A2 A3) as A23.
  assert (Eh3 : header (read_state s3) = record_header v (len content)) by (rewrite Hd3; cbn; now rewrite Ea).
  destruct Cs3 as [(-> & E3u)|(-> & Sh)].
  2: { left. exists s3. rewrite (bind_err _ _ _ _ _ E3) in Er. split; [exact Er|]. split; [exact A23|]. split.
       - apply (body_stage_pending s3 u n St3); [lia|]. rewrite Eh3. symmetry. apply record_header_skipn; [exact V|lia|now apply content_small].
       - destruct A2 as (? & ? & -> & _ & _ & X). cbn in Sh, X |- *. lia. }
  right. rewrite (bind_ok _ _ _ _ _ E3), bind_gets in Er. unfold modify at 1 in Er. unfold bindM at 1 in Er.
  set (s4 := set_read_state read_state_reset s3) in Er.
  rewrite Eu, Em, Eh3, <- app_assoc in E3u. apply app_inv_head in E3u.
  assert (Lb3 : len (body (read_state s3)) = n) by (destruct St3 as (b & _ & _ & _ & X & _); exact X).
  apply app_eq_app_len in E3u as [Eb3 Ew]; [|rewrite length_app; unfold n, len in *; lia]. rewrite Eh3, <- Lb3, Eb3 in Er.
  assert (A4 : advanced s s4) by (eapply advanced_trans; [exact A23|]; exists read_state_reset, (inner s3); now destruct s3).
  destruct (advanced_inv s s4 A4 I) as ((I4 & _) & Rd4 & Pe4 & _).
  destruct (tls_poll_open_ok s4 (record_header v (len content)) (ct ++ tag) content I4) as (s5 & E5o & Cp & Rd5 & Pe5).
  { rewrite len_app. lia. } { change (d_seq (rdir s4) < u64_max). now rewrite Rd4. } { rewrite Rd4. exists ct, tag. auto. }
  exists s4, s5. split; [rewrite (bind_ok _ _ _ _ _ E5o) in Er; exact Er|]. split; [exact A4|]. split; [exact Ew|]. split; [reflexivity|].
  split; [exact Cp|]. split; [now rewrite Rd5, Rd4|congruence].
Qed.

(** Polling until the stream is ready, at most [n] times. *)
Fixpoint poll_until (n : nat) (remaining : Z) (s : stream) : stream * outcome stop bytes :=
  match n with
  | O => (s, Err Pending)
  | S n => match stream_poll_read remaining s with (s', Err Pending) => poll_until n remaining s' | r => r end
  end.

Lemma dispatch_data remaining (s : stream) p : 0 <= remaining -> exists buf pos,
  poll_dispatch remaining (p ++ [INNER_CONTENT_TYPE_APPLICATION_DATA]) s =
    (set_read_buf buf pos s, Ok (firstn (Z.to_nat remaining) p)) /\
  buffered (set_read_buf buf pos s) = skipn (Z.to_nat remaining) p /\ 0 <= pos <= len buf /\ (pos = len buf -> buf = [] /\ pos = 0).
Proof.
  intros R. unfold poll_dispatch. rewrite bind_failIf. pose proof (len_nonneg p) as Pp.
  destruct (snoc_split (p ++ [INNER_CONTENT_TYPE_APPLICATION_DATA])) as (q0 & x0 & E0 & Rl & Ix); [now destruct p|].
  apply app_inj_tail in E0 as [<- <-]. rewrite (proj2 (Z.eqb_neq _ _)) by (rewrite len_app; change (len [_]) with 1; lia).
  assert (Ix' : @index stop _ (p ++ [INNER_CONTENT_TYPE_APPLICATION_DATA]) (len (p ++ [INNER_CONTENT_TYPE_APPLICATION_DATA]) - 1) =
    Ok INNER_CONTENT_TYPE_APPLICATION_DATA) by (apply index_app; rewrite len_app; change (len [_]) with 1; lia).
  rewrite bind_lift, Ix', Rl. cbv zeta. rewrite Z.eqb_refl. unfold modify at 1. unfold bindM at 1.
  destruct (take_buffered_ok remaining (set_read_buf p 0 s) R) as (buf & pos & E & Bu & Bp); [cbn; lia|]. exists buf, pos.
  split; [exact E|]. split; [exact Bu|exact Bp].
Qed.

Lemma dispatch_update remaining (s : stream) r x : stream_inv s -> read_traffic_secret s = Some x -> exists s',
  poll_dispatch remaining (update_content r) s = (s', Err Pending) /\ completed s s' /\ rdir s' = rekeyed x.
Proof.
  intros I Ex. set (msg := [0x18; 0; 0; 1; if r then 1 else 0]).
  destruct (process_update_ok (LT:=script_laws) r s x I Ex) as (s' & E & _).
  destruct (process_handshake_spec (LT:=script_laws) msg s I) as (s2 & o & E' & Rf & Ii & _ & Hd); [now destruct r|].
  fold msg in E. rewrite E in E'. injection E' as <- <-. exists s'. split.
  - change (bindM (mapM_err (fun e => Failed ("post-handshake processing failed: " +++ display_tls e)%string%rust) (process_inner_handshake msg))
      (fun _ => @fail _ _ bytes Pending) s = (s', Err Pending)). unfold bindM, mapM_err. rewrite E. reflexivity.
  - split; [now split|]. destruct (Hd eq_refl) as [r' x' rest _ Sx|rest Em]; [|discriminate].
    cbn in Sx. rewrite Ex in Sx. now injection Sx as <-.
Qed.

(** What polling for the payload [p] leaves behind. *)
Definition delivered (remaining : Z) (s s' : stream) (p : bytes) (q : list bytes) (d' : direction) : Prop :=
  stream_inv s' /\ wdir s' = wdir s /\ s_out (inner s') = s_out (inner s) /\ buffered s' = skipn (Z.to_nat remaining) p /\
  0 <= read_buf_pos s' <= len (read_buf s') /\ read_state s' = read_state_reset /\ flow (rdir s') (s_in (inner s')) q d'.

(** A read buffer that has been emptied is cleared. *)
Definition tidy (s : stream) : Prop := read_buf_pos s = len (read_buf s) -> read_buf s = [] /\ read_buf_pos s = 0.

Lemma poll_again remaining (s s1 : stream) p q d' : stream_poll_read remaining s = (s1, Err Pending) -> wdir s1 = wdir s ->
  s_out (inner s1) = s_out (inner s) ->
  (exists n s', poll_until n remaining s1 = (s', Ok (firstn (Z.to_nat remaining) p)) /\ delivered remaining s1 s' p q d' /\ tidy s') ->
  exists n s', poll_until n remaining s = (s', Ok (firstn (Z.to_nat remaining) p)) /\ delivered remaining s s' p q d' /\ tidy s'.
Proof.
  intros E Wd So (n & s' & En & De). exists (S n), s'. cbn [poll_until]. rewrite E. split; [exact En|].
  unfold delivered in *. rewrite <- Wd, <- So. exact De.
Qed.

Lemma poll_until_flow m : forall remaining (s : stream) u p q d', (List.length (reads (inner s)) + List.length u < m)%nat -> 0 <= remaining ->
  stream_inv s -> len (read_buf s) <= read_buf_pos s -> pending_in s u -> flow (rdir s) u (p :: q) d' ->
  exists n s', poll_until n remaining s = (s', Ok (firstn (Z.to_nat remaining) p)) /\ delivered remaining s s' p q d' /\ tidy s'.
Proof.
  induction m as [|m IH]; [lia|]. intros remaining s u p q d' Bm R I Eb Pi F.
  assert (Later : forall s1, stream_poll_read remaining s = (s1, Err Pending) -> advanced s s1 -> pending_in s1 u ->
    (List.length (reads (inner s1)) < List.length (reads (inner s)))%nat ->
    exists n s', poll_until n remaining s = (s', Ok (firstn (Z.to_nat remaining) p)) /\ delivered remaining s s' p q d' /\ tidy s').
  { intros s1 E A Pi1 Sh. destruct (advanced_inv s s1 A I) as ((I1 & Wd & So & Rb & Rp & _) & Rd & _). cbn in Rb, Rp, So.
    apply (poll_again remaining s s1 p q d' E Wd So). apply (IH remaining s1 u p q d'); try assumption; [lia|now rewrite Rb, Rp|now rewrite Rd]. }
  remember (rdir s) as d eqn:D. remember (p :: q) as pq eqn:Pq.
  destruct F as [d|d v p' w q' d' V Py Bq F|d v r x w q' d' V Bq Sx F]; [discriminate| |]; subst d.
  - injection Pq as -> ->. pose proof (payload_content_bound p Py) as B. pose proof (len_nonneg p) as Pp.
    destruct (poll_once remaining s _ v (p ++ [INNER_CONTENT_TYPE_APPLICATION_DATA]) w I Eb Pi eq_refl V) as [(s1 & E & A & Pi1 & Sh)|X];
      [rewrite len_app; change (len [_]) with 1; lia|exact B|exact Bq|eauto|].
    destruct X as (s0 & s' & E & A & Ew & Rs & ((I' & Wd' & So' & Rb' & Rp' & Rs' & _) & Ii) & Rd & _).
    destruct (advanced_inv s s0 A I) as ((_ & Wd0 & So0 & _) & _). cbn in So0.
    destruct (dispatch_data remaining s' p R) as (buf & pos & Ed & Bu & Bp & Bd). exists 1%nat, (set_read_buf buf pos s').
    cbn [poll_until]. rewrite E, Ed. split; [reflexivity|]. split; [|exact Bd]. split; [destruct I'; constructor; assumption|].
    split; [exact (eq_trans Wd' Wd0)|]. split; [cbn; rewrite Ii; exact So0|]. split; [exact Bu|]. split; [exact Bp|].
    split; [exact (eq_trans Rs' Rs)|]. cbn [inner set_read_buf set_rest]. rewrite Ii, Ew. change (rdir (set_read_buf buf pos s')) with (rdir s'). now rewrite Rd.
  - destruct (poll_once remaining s _ v (update_content r) w I Eb Pi eq_refl V) as [(s1 & E & A & Pi1 & Sh)|X];
      [reflexivity|unfold MAX_RECORD_SIZE, len; cbn [update_content List.length]; lia|exact Bq|eauto|].
    destruct X as (s0 & s' & E & A & Ew & Rs & ((I' & Wd' & So' & Rb' & Rp' & Rs' & _) & Ii) & Rd & _).
    destruct (advanced_inv s s0 A I) as ((_ & Wd0 & So0 & Rb0 & Rp0 & _) & _ & _ & Sh). cbn in So0, Rb0, Rp0.
    destruct (dispatch_update remaining s' r x I') as (s2 & Ed & ((I2 & Wd2 & So2 & Rb2 & Rp2 & Rs2 & _) & Ii2) & Rd2);
      [change (d_secret (rdir s') = Some x); rewrite Rd; exact Sx|]. rewrite Ed in E.
    apply (poll_again remaining s s2 p q d' E); [exact (eq_trans Wd2 (eq_trans Wd' Wd0))|rewrite Ii2, Ii; exact So0|]. subst q'. apply (IH remaining s2 w p q d'); try assumption.
    + rewrite Ii2, Ii. destruct (emit_spec (rdir s) v (update_content r) (inv_read s I)) as (ct & tag & _ & Em & _).
      rewrite Em, !length_app in Bm. unfold record_header in Bm. cbn [List.length] in Bm. lia.
    + rewrite Rb2, Rb', Rb0, Rp2, Rp', Rp0. exact Eb.
    + exists []. rewrite Rs2, Rs', Rs. split; [apply partial_reset|]. now rewrite Ii2, Ii.
    + now rewrite Rd2.
Qed.

(** C37. [poll_read] can be interrupted anywhere. Whatever the schedule of the
    transport, records split at any bytes and [Pending] between any two of them,
    polling a stream with a fresh read state again and again delivers the next
    payload of a peer that keeps to the size of a record, after the KeyUpdates in front of it: the caller gets as
    much of it as there is room for, later polls return the rest from the buffer
    without touching the transport, and the stream is left ready for the records
    behind, its write direction and output untouched. *)
Theorem tls_poll_read_resumes (s : stream) (remaining : Z) (p : bytes) (q : list bytes) (d' : direction) :
  stream_inv s -> read_buf s = [] -> read_buf_pos s = 0 -> read_state s = read_state_reset -> 0 < remaining ->
  flow (rdir s) (s_in (inner s)) (p :: q) d' ->
  exists n s', poll_until n remaining s = (s', Ok (firstn (Z.to_nat remaining) p)) /\ delivered remaining s s' p q d' /\
    (len p <= remaining -> read_buf s' = [] /\ read_buf_pos s' = 0) /\
    (remaining < len p -> forall room, 0 < room -> exists s2,
       stream_poll_read room s' = (s2, Ok (firstn (Z.to_nat room) (skipn (Z.to_nat remaining) p))) /\ inner s2 = inner s' /\
       buffered s2 = skipn (Z.to_nat room) (skipn (Z.to_nat remaining) p)).
Proof.
  intros I Eb Ep Rs R F.
  destruct (poll_until_flow (S (List.length (reads (inner s)) + List.length (s_in (inner s)))) remaining s (s_in (inner s)) p q d')
    as (n & s' & E & De & Bd); [lia|lia|exact I|rewrite Eb, Ep; reflexivity| |exact F|].
  { exists []. rewrite Rs. split; [apply partial_reset|reflexivity]. }
  exists n, s'. split; [exact E|]. split; [exact De|]. destruct De as (I' & _ & _ & Bu & Bp & _). split.
  - intros Le. assert (Lb : buffered s' = []) by (rewrite Bu; apply skipn_all2; unfold len in Le; lia). apply Bd.
    apply (f_equal len) in Lb. unfold buffered in Lb. rewrite len_skipn, len_nil in Lb by lia. lia.
  - intros Lt room Pr. assert (Lb : 0 < len (buffered s')) by (rewrite Bu, len_skipn by lia; lia).
    unfold buffered in Lb. rewrite len_skipn in Lb by lia. unfold stream_poll_read. rewrite (proj2 (Z.ltb_lt _ _)) by lia.
    destruct (take_buffered_ok room s') as (buf & pos & Et & Bt & _); [lia|lia|]. rewrite Et, Bu. eexists. split; [reflexivity|].
    split; [reflexivity|]. now rewrite Bt, Bu.
Qed.

(** ** Writing *)

Lemma write_whole_ok piece what (s : stream) : roomy (writes (inner s)) = true -> 0 < len piece <= 2 -> exists q,
  write_whole piece what s = (set_inner (put_out (inner s) piece q) s, Ok tt) /\ roomy q = true.
Proof.
  intros R B. destruct (quota_roomy (writes (inner s)) (len piece) R) as (k & q & E & _ & Kn & Rq); [lia|].
  rewrite Kn in E by lia. exists q. split; [|exact Rq]. unfold write_whole, bindM, on_poll, poll_write, script_poll. rewrite E.
  rewrite firstn_all2 by (unfold len; lia). unfold failIf. now rewrite Z.eqb_refl.
Qed.

Lemma write_loop_ok fuel : forall piece what written (s : stream), roomy (writes (inner s)) = true -> 0 <= written <= len piece ->
  len piece - written < Z.of_nat fuel -> exists q,
  write_loop fuel piece what written s = (set_inner (put_out (inner s) (skipn (Z.to_nat written) piece) q) s, Ok tt) /\ roomy q = true.
Proof.
  induction fuel as [|fuel IH]; intros piece what written s R B F; [lia|]. cbn [write_loop].
  destruct (Z.ltb_spec written (len piece)) as [Lt|Ge].
  - rewrite bind_lift, slice_from_ok by lia. set (chunk := skipn (Z.to_nat written) piece).
    assert (Lc : len chunk = len piece - written) by (unfold chunk; rewrite len_skipn; lia).
    destruct (quota_roomy (writes (inner s)) (len chunk) R) as (k & q & E & Bk & _ & Rq); [lia|].
    assert (Ew : on_poll (poll_write chunk) s = (set_inner (put_out (inner s) (firstn (Z.to_nat k) chunk) q) s, Ok k)).
    { unfold on_poll, poll_write, script_poll. now rewrite E. }
    rewrite (bind_ok _ _ _ _ _ Ew), (proj2 (Z.ltb_lt _ _)) by lia.
    destruct (IH piece what (written + k) (set_inner (put_out (inner s) (firstn (Z.to_nat k) chunk) q) s) Rq) as (q' & E' & Rq'); [lia|lia|].
    exists q'. split; [|exact Rq']. assert (Sp : firstn (Z.to_nat k) chunk ++ skipn (Z.to_nat (written + k)) piece = chunk).
    { replace (Z.to_nat (written + k)) with (Z.to_nat k + Z.to_nat written)%nat by lia. rewrite <- skipn_skipn. apply firstn_skipn. }
    rewrite E'. unfold put_out. cbn [inner set_inner set_rest s_in s_out reads writes]. now rewrite <- app_assoc, Sp.
  - exists (writes (inner s)). split; [|exact R]. rewrite skipn_all2 by (unfold len in *; lia). unfold put_out. rewrite app_nil_r.
    destruct s as [i]. now destruct i.
Qed.

(** [stream_poll_write] up to the first write: a sequence number taken, the
    record sealed. *)
Lemma poll_write_sealed (buf : bytes) (s : stream) : stream_inv s -> write_seq s < u64_max -> len buf + 17 <= 65535 - 1024 ->
  exists s1 ct tag, let content := buf ++ [INNER_CONTENT_TYPE_APPLICATION_DATA] in
  emit (wdir s) (version s) content = record_header (version s) (len content) ++ ct ++ tag /\
  stream_inv s1 /\ wdir s1 = bump (wdir s) /\ write_only s s1 /\ key_update_pending s1 = key_update_pending s /\ inner s1 = inner s /\
  stream_poll_write buf s = (write_whole [RECORD_TYPE_APPLICATION_DATA] "content type" ;;;
    write_whole (version s) "version" ;;;
    write_whole (be_bytes 2 (as_u16 (len content + 16))) "length" ;;;
    write_loop (S (List.length ct)) ct "ciphertext" 0 ;;;
    write_loop (S (List.length tag)) tag "tag" 0 ;;;
    ret (len buf))%rust s1.
Proof.
  intros I B Sz. pose proof (inv_write s I) as Dw. pose proof (ok_seq _ Dw) as Q. destruct (ok_nonce _ Dw) as [Ln Wn]. cbn in Q, Ln, Wn.
  pose proof (len_nonneg buf) as Pb. set (content := buf ++ [INNER_CONTENT_TYPE_APPLICATION_DATA]).
  assert (Lc : len content = len buf + 1) by (unfold content; rewrite len_app; reflexivity).
  destruct (emit_spec (wdir s) (version s) content Dw) as (ct & tag & Enc & Em & Lct & Lt & _). cbn [wdir d_key d_nonce d_seq] in Enc.
  set (s2 := set_write_seq (write_seq s + 1) s). exists (set_cipher_enc (key_cipher (write_key s)) s2), ct, tag.
  cbv zeta. split; [exact Em|]. split.
  { destruct I as [I1 I2 I3 I4 I5 I6]. constructor; cbn; try assumption; [apply (bump_ok (wdir s)); assumption|now right|].
    intros n X. destruct (I6 n X) as (i & Bi & E). exists i. split; [lia|exact E]. }
  split; [reflexivity|]. split; [unfold write_only; auto 8|]. split; [reflexivity|]. split; [reflexivity|].
  unfold stream_poll_write. rewrite !bind_gets, bind_lift, tls_next_nonce_ok by lia. cbn [map_err]. cbv zeta.
  assert (Eb : bump_write s = (s2, Ok tt)) by (unfold bump_write; rewrite (proj2 (Z.eqb_neq _ _)) by lia; reflexivity).
  rewrite (bind_ok _ _ _ _ _ Eb), bind_gets.
  assert (Ec : mapM_err (fun e => Failed ("SM4 key error: " +++ display_tls e)%string) get_cipher_enc s2 =
    (set_cipher_enc (key_cipher (write_key s)) s2, Ok (key_cipher (write_key s)))).
  { unfold mapM_err. now rewrite (get_cipher_enc_tls s2 (ok_key _ Dw) (inv_cipher_enc s I)). }
  rewrite (bind_ok _ _ _ _ _ Ec). change (version s2) with (version s). fold content. rewrite bind_lift, Enc. cbn [map_err].
  rewrite bind_failIf, (proj2 (Z.ltb_ge _ _)); [reflexivity|]. unfold as_u16. rewrite Z.mod_small; lia.
Qed.

Lemma poll_write_ok (buf : bytes) (s : stream) : stream_inv s -> write_seq s < u64_max -> len buf + 17 <= 65535 - 1024 ->
  roomy (writes (inner s)) = true -> exists s', stream_poll_write buf s = (s', Ok (len buf)) /\ stream_inv s' /\ wdir s' = bump (wdir s) /\
  write_only s s' /\ key_update_pending s' = key_update_pending s /\
  s_out (inner s') = s_out (inner s) ++ emit (wdir s) (version s) (buf ++ [INNER_CONTENT_TYPE_APPLICATION_DATA]).
Proof.
  intros I B Sz R. destruct (poll_write_sealed buf s I B Sz) as (s1 & ct & tag & Em & I1 & W1 & O1 & P1 & In1 & E). rewrite E.
  destruct (inv_version s I) as [Lv _].
  destruct (write_whole_ok [RECORD_TYPE_APPLICATION_DATA] "content type" s1) as (q1 & E1 & R1); [now rewrite In1|now vm_compute|].
  rewrite (bind_ok _ _ _ _ _ E1). set (s2 := set_inner _ s1) in *.
  destruct (write_whole_ok (version s) "version" s2) as (q2 & E2 & R2); [exact R1|lia|].
  rewrite (bind_ok _ _ _ _ _ E2). set (s3 := set_inner _ s2) in *. set (lb := be_bytes 2 _).
  assert (Ll : len lb = 2) by (unfold lb; now rewrite len_be_bytes).
  destruct (write_whole_ok lb "length" s3) as (q3 & E3 & R3); [exact R2|lia|]. rewrite (bind_ok _ _ _ _ _ E3). set (s4 := set_inner _ s3) in *.
  pose proof (len_nonneg ct). pose proof (len_nonneg tag).
  destruct (write_loop_ok (S (List.length ct)) ct "ciphertext" 0 s4 R3) as (q4 & E4 & R4); [lia|unfold len; lia|].
  rewrite (bind_ok _ _ _ _ _ E4). set (s5 := set_inner _ s4) in *.
  destruct (write_loop_ok (S (List.length tag)) tag "tag" 0 s5 R4) as (q5 & E5 & R5); [lia|unfold len; lia|].
  rewrite (bind_ok _ _ _ _ _ E5). eexists. split; [reflexivity|]. split; [destruct I1; constructor; assumption|]. split; [exact W1|].
  split; [exact O1|]. split; [exact P1|]. cbn. rewrite In1, Em. unfold record_header. fold lb. cbn [app]. now rewrite <- !app_assoc.
Qed.

(** A record past the limit of the reader is accepted by none. *)
Lemma oversized_rejected d d1 v content u p d' u' : dir_ok d -> version_ok v -> len content + 16 < 2 ^ 16 -> MAX_RECORD_SIZE < len content + 16 ->
  ~ accepted d1 (emit d v content ++ u) p d' u'.
Proof.
  intros D V B Lt A. destruct (emit_spec d v content D) as (ct & tag & _ & Em & _). pose proof (len_nonneg content).
  assert (X : forall hd body rest, emit d v content ++ u = hd ++ body ++ rest -> framed hd body -> False).
  { intros hd body rest E (Lh & _ & Lb & Bb). rewrite Em, <- app_assoc in E.
    apply app_eq_app_len in E as [<- _]; [|pose proof (record_header_len v (len content) V); unfold len in *; lia].
    rewrite record_header_skipn in Lb by (assumption || lia). lia. }
  remember (emit d v content ++ u) as w eqn:Ew. destruct A as [? ? ? ? ? Rr|? ? ? ? ? ? ? Rr _]; subst; inversion Rr; subst; eauto.
Qed.

(** [poll_write] and its limits. A write of up to 64494 bytes to a transport
    that takes two bytes at a time or more is one record under the next sequence
    number, and a payload of up to 24 KiB less the overhead is what the reader of
    the peer expects next; but a longer one, which [poll_write] accepts, no reader
    does. The sequence number is taken before the first byte is out: a transport
    that is not ready, or that takes one byte of the version, makes the call end
    with the number spent and the record missing or cut after two bytes. Unlike
    [write_application_data] it knows no limit on the use of a key: at the GCM
    limit the one refuses to write where the other keeps sealing. *)
Theorem tls_poll_write_record (s : stream) (buf : bytes) :
  stream_inv s -> write_seq s < u64_max -> len buf + 17 <= 65535 - 1024 ->
  let out := emit (wdir s) (version s) (buf ++ [INNER_CONTENT_TYPE_APPLICATION_DATA]) in
  (roomy (writes (inner s)) = true -> exists s', stream_poll_write buf s = (s', Ok (len buf)) /\ stream_inv s' /\
     wdir s' = bump (wdir s) /\ write_only s s' /\ key_update_pending s' = key_update_pending s /\
     s_out (inner s') = s_out (inner s) ++ out) /\
  (payload_ok buf = true -> flow (wdir s) out [buf] (bump (wdir s))) /\
  (MAX_RECORD_SIZE < len buf + 17 -> forall d u p d' u', ~ accepted d (out ++ u) p d' u') /\
  (forall k q, writes (inner s) = k :: 1 :: q -> 1 <= k -> exists s', stream_poll_write buf s = (s', Err (Failed "failed to write version")) /\
     wdir s' = bump (wdir s) /\ s_out (inner s') = s_out (inner s) ++ firstn 2 out) /\
  (forall q, writes (inner s) = 0 :: q -> exists s', stream_poll_write buf s = (s', Err Pending) /\
     wdir s' = bump (wdir s) /\ s_out (inner s') = s_out (inner s)) /\
  (GCM_CONFIDENTIALITY_LIMIT <= write_seq s -> key_update_pending s = false -> write_application_data buf s = (s, Err exhausted_error)).
Proof.
  intros I B Sz out. assert (Lc : len (buf ++ [INNER_CONTENT_TYPE_APPLICATION_DATA]) = len buf + 1) by (rewrite len_app; reflexivity).
  split; [now apply poll_write_ok|]. split; [intros Py; apply flow_one_data; auto; apply (inv_version s I)|].
  split; [intros Lt d u p d' u'; apply oversized_rejected; [apply (inv_write s I)|apply (inv_version s I)|lia..]|].
  destruct (poll_write_sealed buf s I B Sz) as (s1 & ct & tag & Em & _ & W1 & _ & _ & In1 & E).
  destruct (inv_version s I) as [Lv _]. split; [|split].
  - intros k q Q K. rewrite E. unfold write_whole, bindM, on_poll, poll_write, script_poll. rewrite In1, Q. cbn [quota].
    rewrite (proj2 (Z.leb_gt _ _)) by lia. replace (Z.min k (len [RECORD_TYPE_APPLICATION_DATA])) with 1 by (change (len [_]) with 1; lia).
    cbn -[emit]. rewrite Lv. cbn -[emit]. eexists. split; [reflexivity|]. split; [exact W1|]. cbn -[emit].
    unfold out. rewrite Em. unfold record_header. destruct (version s) as [|v0 v]; [discriminate|]. cbn. now rewrite <- app_assoc.
  - intros q Q. rewrite E. unfold write_whole, bindM, on_poll, poll_write, script_poll. rewrite In1, Q. cbn. eexists. split; [reflexivity|].
    split; [exact W1|reflexivity].
  - intros Lim P. unfold write_application_data, flush_pending_key_update, bindM, gets, ret.
    rewrite P. cbn. unfold is_key_exhausted. now rewrite (proj2 (Z.leb_le _ _)) by exact Lim.
Qed.
End Pieces.

(** ** Instances *)

Definition sample_stream (t : script) : GmTlsStream script :=
  established t (@secrets_of toy_sm3 [1; 2]) true [0x03; 0x03] None.

Lemma sample_stream_inv t : stream_inv (sample_stream t).
Proof. apply (@established_ok script toy_sm3 toy_sm3_laws t [1; 2] true [0x03; 0x03] None). now split. Qed.

(** A record that arrives a byte, nothing, three bytes, nothing, then the rest. *)
Definition sample_arriving : script :=
  {| s_in := @emit toy_crates (rdir (sample_stream {| s_in := []; s_out := []; reads := []; writes := [] |})) [0x03; 0x03]
               ([7; 8; 9] ++ [INNER_CONTENT_TYPE_APPLICATION_DATA]);
     s_out := []; reads := [1; 0; 3; 0]; writes := [] |}.

Lemma tls_poll_read_resumes_witness : exists n s',
  @poll_until toy_sm3 toy_crates n 2 (sample_stream sample_arriving) = (s', Ok [7; 8]) /\ buffered s' = [9].
Proof.
  destruct (@tls_poll_read_resumes toy_sm3 toy_sm3_laws toy_crates toy_laws (sample_stream sample_arriving) 2 [7; 8; 9] []
    (bump (rdir (sample_stream sample_arriving)))) as (n & s' & E & (_ & _ & _ & Bu & _) & _);
    [apply sample_stream_inv|reflexivity|reflexivity|reflexivity|reflexivity|
     apply flow_one_data; [now split|reflexivity|reflexivity]|].
  exists n, s'. split; [exact E|exact Bu].
Defined.

Lemma tls_poll_write_record_witness : exists s',
  @stream_poll_write script toy_crates _ [1; 2; 3] (sample_stream {| s_in := []; s_out := []; reads := []; writes := [2; 5] |}) = (s', Ok 3) /\
  write_seq s' = 1.
Proof.
  destruct (@tls_poll_write_record toy_sm3 toy_crates toy_laws (sample_stream {| s_in := []; s_out := []; reads := []; writes := [2; 5] |})
    [1; 2; 3]) as (W & _); [apply sample_stream_inv|reflexivity|vm_compute; discriminate|].
  destruct (W eq_refl) as (s' & E & _ & Wd & _). exists s'. split; [exact E|]. now injection Wd as _ _ -> _.
Defined.
